(* ===== verification/_CoqProject ===== *)
-Q . S2P
Prelude.v
Numerals.v
NodeModel.v
Lifecycle.v
LedgerData.v
LedgerOps.v
LedgerReconcile.v
LedgerInv.v
LedgerSteps.v
LedgerSafety.v
LedgerQueue.v
LedgerFence.v
LedgerRecovery.v
LedgerReplay.v
JournalData.v
JournalReduce.v
JournalInv.v
JournalSafety.v
JournalEvolution.v
JournalJobs.v
JournalStore.v
JournalStoreProofs.v
JournalReplay.v
JournalRefine.v
ExprText.v
ExprValue.v
ExprLexer.v
ExprParser.v
ExprEval.v
ExprLexProofs.v
ExprGrammar.v
ExprComplete.v
ExprSound.v
ExprEvalProofs.v
ExprMeaning.v
ExprFormat.v
ScaleIds.v
ScaleData.v
ScaleStores.v
ScaleProg.v
ScaleCapacity.v
ScaleContract.v
ScaleProcessor.v
ScaleReconcile.v
ScaleStoreProofs.v
ScaleSafety.v
ScaleAcquire.v
ScaleRecovery.v
ScaleLife.v
ScaleSample.v
TextOps.v
WorkflowCommands.v
WorkflowProofs.v
CommandFiles.v
StepScopes.v
StepState.v
StepTemplate.v
StepConditions.v
StepScan.v
StepDeferral.v
Utf8.v
VsockCodec.v
VsockProofs.v
Redaction.v
RedactionProofs.v
ScaleListener.v
ScaleListenerProofs.v
ControlLogs.v
ControlLogProofs.v
ControlLifecycle.v
ControlLifecycleProofs.v
NodeAdmission.v
PressureData.v
PressureFences.v
PressureEpisodes.v
PressureOps.v
PressureSteps.v
PressureLeases.v
PressureEnds.v
PressureRefine.v
