(* ===== verification/Prelude.v ===== *)
(** * Velnor: verified core of a GitHub Actions host

    Velnor runs GitHub Actions jobs on a host. A daemon registers runners,
    takes jobs, executes their steps, reports their completion, and keeps
    everything that must survive a crash in SQLite databases. This development
    follows a job through it:

    - the _permit ledger_ ([crates/velnor-control/src/permit_ledger.rs]), the
      host-wide [max_jobs] admission ledger that several daemon processes
      share. A job may run only while its holder has a permit row; waiting
      holders queue in a demand table;
    - the _scale-set controller_ ([crates/velnor-runner/src/scaleset]), which
      turns job offers into permits, acquisitions and workers across two
      databases that no transaction spans, and the _listener_ in front of it
      ([scaleset/listener.rs]), which fetches the messages the offers come in;
    - the _fleet journal_ ([crates/velnor-control/src/journal.rs]): an event
      log, a pure reducer from events to the fleet state (slots, jobs,
      completion outbox), the tables the state is materialized in, and the
      checked replay of the log;
    - the journal's _disk pressure_ part (same file): the leases that bind a
      worker process to one launch of its slot, the fences under which an
      acquisition is recorded, answered or given up, and the episodes of low
      disk space that stop admission, drain the fleet and fence it;
    - the _control services_ ([crates/velnor-control/src/lifecycle.rs] and
      [logs.rs]): the lifecycle requests an operator may repeat, the desired
      state they write, and the log streams read through cursors; and the pass
      of the _node controller_ ([node/controller.rs] of the runner) in which
      the desired state takes effect on the journal;
    - the _expression engine_ ([crates/velnor-runner/src/expression]): lexer,
      shunting-yard parser, values and evaluator of workflow expressions;
    - the _step engine_ ([executor.rs], [execution/], [script_step.rs] of the
      runner): the state of a job between its steps, the contexts expressions
      read, step conditions and the two rendering passes of templates;
    - the _output of steps_ ([workflow_command.rs], [command_files.rs]): the
      commands a step prints, the log made of its output, and the files it
      writes;
    - the _secret masker_ and the _vsock protocol_
      ([crates/velnor-model/src/redaction.rs], [vsock_protocol.rs]): what may
      leave in a log, and what host and guest of a microVM say to each other;
    - the vocabulary they share ([crates/velnor-model/src/node.rs] and
      [lifecycle.rs]): phases, readiness proofs, the health document and the
      job lifecycle machine.

    ** Files and what they model

    Foundations:
    - [Prelude]: machine integers with Rust's edge behaviour, [result] with
      its [let?] notation, the transaction monad [tx] ([let*]) in which a call
      commits, rolls back or throws, the Hoare-style rules for it, and keyed
      lists ([find_key], [update_first]). [Numerals]: numbers as text.
    - [TextOps], [Utf8]: Rust's [str] searches, [BTreeMap], UTF-8 and
      big-endian integers.
    - [NodeModel] ([node.rs]), [Lifecycle] ([lifecycle.rs]).

    Permit ledger:
    - [LedgerData], [LedgerOps], [LedgerReconcile]: the tables as finite maps
      keyed by their primary keys, one definition per SQL statement (unique
      constraints included), one per public method of [PermitLedger], and the
      four loops of the reconciliation with its final sweep.
    - [LedgerInv], [LedgerSteps]: the ledger invariant [Inv], the step
      relation [step_ok] and the proof that each method respects both.
    - [LedgerSafety] (executions of calls, [exec_all]), [LedgerQueue],
      [LedgerFence], [LedgerRecovery], [LedgerReplay]: the theorems.

    Fleet journal:
    - [JournalData], [JournalReduce]: [FleetState], [Event], the predicates
      and [reduce], one definition per arm of the match.
    - [JournalInv], [JournalSafety] (the state machine [jstep] and what holds
      in every [reachable] state), [JournalEvolution], [JournalJobs].
    - [JournalStore], [JournalStoreProofs]: the columns of the materialized
      state, [persist_rows], [load_materialized_state], the latches.
    - [JournalReplay], [JournalRefine]: the log, [apply_many], the checked
      read, and the simulation between writer and replay up to [core].

    Disk pressure:
    - [PressureData] (rows, checks, owner of the journal, current leases),
      [PressureFences] ([apply_many_inner] in full, the acquisition
      operations, issuing and revoking of leases), [PressureEpisodes] (clocks
      and volumes of roots, alias groups, observation and advance of one
      sample), [PressureOps] (the public operations and the terminal fence).
    - [PressureSteps]: all writing operations as one alphabet [JournalOp] with
      [run_op], and what each leaves of log, tables and leases.
      [PressureLeases], [PressureEnds] (how episodes go on and end),
      [PressureRefine] (every [execution] keeps log and tables in step, the
      terminal fence, and the scenario the witnesses run): the theorems.

    Expression engine:
    - [ExprText], [ExprValue], [ExprLexer], [ExprParser], [ExprEval]: the
      code; the contexts are the classes [ParseEnvironment] and
      [EvaluationContext], which the step engine implements.
    - [ExprLexProofs], [ExprGrammar] (the reference grammar [Derives]),
      [ExprComplete], [ExprSound], [ExprEvalProofs], [ExprMeaning] (with a
      concrete runner), [ExprFormat]: the theorems.

    Scale-set controller:
    - [ScaleIds], [ScaleData], [ScaleStores]: identities, the tables of the
      state database, one definition per store method.
    - [ScaleProg]: programs whose atomic steps are single transactions on
      either database, with interference by other processes and crashes
      between any two steps. [ScaleCapacity], [ScaleContract]: the interface
      [CapacityLedger], its two implementations and the contract both keep.
    - [ScaleProcessor], [ScaleReconcile]: [scale], [startup], [idle_poll].
    - [ScaleStoreProofs], [ScaleSafety], [ScaleAcquire],
      [ScaleRecovery], [ScaleLife], [ScaleSample]: every step keeps the
      databases safe; the life of an adapter; sample runs.
    - [ScaleListener], [ScaleListenerProofs]: the poll loop, the session, the
      backoff, and the protocol they keep with the service.

    Control services and node controller:
    - [ControlLogs], [ControlLogProofs]: the bounded buffers of log lines,
      cursors, pages, and a reader that follows a stream.
    - [ControlLifecycle], [ControlLifecycleProofs]: the operation records, the
      quota of idempotency keys, the desired state, versions and phases.
    - [NodeAdmission]: the controller's admission pass, which joins desired
      state and journal.

    Steps and their output:
    - [StepScopes] ([execution/composite_scopes.rs]), [StepState] (the state
      of a job, its contexts, the recording of results and the conditions:
      [executor.rs], [step_outcome.rs], [step_conditions.rs]), [StepTemplate]
      (template scanner, rendering at the step and at job setup).
    - [StepConditions], [StepScan] (the scanner against the lexer),
      [StepDeferral] (the two rendering passes composed): the theorems.
    - [WorkflowCommands], [WorkflowProofs]: parser and renderer of step
      output. [CommandFiles]: the files of [GITHUB_ENV] and the like.
    - [Redaction], [RedactionProofs]: the masker.
    - [VsockCodec], [VsockProofs]: messages, frames, streams, the nonce.

    ** Correspondence

    A definition has the name of the function it translates; an arm of
    [reduce] is [reduce_<event>]. Where Rust returns early, the definition
    has the same guard in the same order. A SQLite transaction is a function
    from the database to the database: [commit] keeps the changes,
    [rollback] (an early [return] that drops the transaction) and [throw]
    undo them, and calls of different processes interleave as whole
    transactions because every write transaction is [Immediate], or, where
    a pressure operation opens a deferred one, because SQLite refuses its
    first write when another process wrote since its first read. An
    execution of the ledger or of the journal is therefore an arbitrary list
    of calls with arbitrary arguments and clocks. The controller is a program
    of such transactions; [visits] is every world it passes through, with any
    allowed change by others in between, and a [life] is a sequence of
    programs each of which may be cut short. The listener is a program of
    calls that an environment answers in any way, and its process may stop
    between any two of them. A JSON column is the value it
    encodes, a state column the text it holds.

    Strings are lists of Unicode scalar values, a position in a string is the
    text before it, bytes are numbers below 256, a [BTreeMap] is its sorted
    list of entries. Integers are [Z] or [N] with the source's saturation,
    clamping and wrap-around written out; numbers of expressions are IEEE
    binary64 values. A panic is a value ([Panic], [EPanic]), and collections
    of the evaluator carry the address they are compared by.

    The clock, the process id, fresh UUIDs, the liveness of a process and the
    workspace digest of [hashFiles] are arguments. Packages are interfaces:
    [sha2], [serde_json], the case table of [icu_casemap], [aho_corasick],
    the normalization of [unicode_normalization].
    Where a theorem needs a law of one, the law is documented behaviour of
    the package (a digest has 32 bytes, decoding an encoded event gives it
    back, a match is leftmost and longest), and a concrete function is shown
    to satisfy it. Remediation texts of errors, log lines, metrics and
    SQLite's I/O errors are not modelled.

    ** What is proved

    - Admission, C1, C2, C5 to C7, C21, C22, C24, C25: capacity is never
      exceeded in any execution; permits and demands stay coupled; grants are
      first come first served among fresh demands and the queue does not
      stall; a stale token or a foreign generation changes nothing; a cleanup
      claim is protected; reconciliation drops no permit; staged acquisitions
      and releases can be repeated.
    - Controller, C3, C4, C11, C23, C40: through every crash and interference
      no permit is left without a durable record that leads to it, nothing is
      asked of the job queue that is not backed by permits on disk, recovery
      only repeats recorded requests, an untrusted offer is never granted;
      and one case in which a returned request wedges the adapter.
    - Listener, C16, C20: the saved cursor never passes a message that was not
      handled, through any sequence of restarts; polls and capacity wait for
      the startup pass of their epoch, and only a message that was scaled is
      acknowledged.
    - Lifecycle requests, C17, C19, C39: a repeated request takes effect once
      while its record lasts; after a pass of the controller the journal
      admits work exactly as the desired state says; and one case in which
      requests that were overtaken exhaust the quota for good.
    - Log service, C18: a read through a cursor is the part of the log the
      cursor points at or a refusal.
    - Journal, C8, C9, C26 to C30: after any execution of its operations,
      those of disk pressure included, the checked read agrees with the tables,
      every reachable fleet is consistent, readiness is proven, a completion
      is sent once and its retries are bounded, an owned job is never
      forgotten, a drained fleet takes no work.
    - Disk pressure, C31 to C35: while an episode is recorded nothing admits
      work and no lease comes to life; a lease that lapsed is never current
      again; a worker without its lease changes nothing but the answer to its
      own recorded acquisition; an episode ends only by a healthy measurement
      or, once terminal, in a fleet that is fenced and free of jobs; the
      terminal fence succeeds and stops every slot and every lease.
    - Expressions, C10, C36, C37: the parser is the grammar, evaluation never
      panics, [format] expands templates.
    - Steps, C14, C15: after a failure or a cancellation every step without a
      status function is skipped; a deferred expression is evaluated once, in
      the contexts of the step, as it was written.
    - Output, C12, C38: no secret survives masking; stopped output has no
      effect.
    - Protocol, C13: a byte sequence decodes exactly when it is the frame of a
      message.

    Further theorems without a number accompany these: round trips of the
    materialized state, of string literals, of workflow commands and of
    command files, tilings of expressions and templates, the coherence of
    comparisons, what early rendering may fix, the agreement of the log with
    the commands that take effect, a reader that misses nothing and the bound
    of the log buffer, and the examples that evaluate executions in which the
    code departs from what it says of itself.

    ** Bounds and fuel

    Loops over lists and maps are structural. Where the source loops on a
    position, the fuel is a length that the loop provably does not exceed,
    and the theorems that produce results show it: the token loop and the
    loops of command files (one more than the characters), the loops of
    [format] and of template spans (the length of the template), the operator
    stack of the parser (its height), the masker (the length of the text),
    decimal digits ([Z.log2] plus one), the exponent search of number printing
    (400, beyond the range of binary64). The executor of [ScaleSample] runs
    sample programs with a fuel of 400; no theorem depends on it.

    ** Not modelled, and the order of further work

    - [journal.rs]: schema migrations, opening with retries, the launch read
      from the environment of a worker process.
    - [PermitLedger::open]'s schema repair and the two migrations of legacy
      rows; the databases start as the seed [open] writes.
    - The HTTP session behind the listener and the worker lane's process
      handling, whose interfaces are the calls of [ScaleListener] and a class.
    - The event stream and the queries of the control services, and the node
      controller's supervision loop, of which the admission pass is modelled.
    - The step loop itself, action resolution, caches, checkout and the
      execution backends, which drive processes, containers and the network;
      decoding of byte order marks in command files.
    - Network clients, rendering, command line and benchmarking crates. *)

From Stdlib Require Import ZArith Lia.
From stdpp Require Import base gmap sets list strings sorting.

#[local] Open Scope Z_scope.

(** ** Machine integers

    Every integer of the source is a [Z] kept in range by the operations
    below, which spell out what Rust does at the edge of the range. *)

Definition u32_max : Z := 2 ^ 32 - 1.
Definition u64_max : Z := 2 ^ 64 - 1.
Definition i64_max : Z := 2 ^ 63 - 1.
Definition i64_min : Z := - 2 ^ 63.

(** [u64::saturating_add], [u64::saturating_sub], [u32::saturating_add],
    [u32::saturating_sub] and [i64::saturating_add]. *)
Definition u64_saturating_add (a b : Z) : Z := Z.min (a + b) u64_max.
Definition u64_saturating_sub (a b : Z) : Z := Z.max (a - b) 0.
Definition u32_saturating_add (a b : Z) : Z := Z.min (a + b) u32_max.
Definition u32_saturating_sub (a b : Z) : Z := Z.max (a - b) 0.
Definition i64_saturating_add (a b : Z) : Z := Z.max i64_min (Z.min (a + b) i64_max).

(** [i64::try_from(x).unwrap_or(i64::MAX)] for a [u64]. *)
Definition i64_clamp (x : Z) : Z := Z.min x i64_max.
(** [x as i64] for a [u64]: the two's complement reinterpretation. *)
Definition i64_wrap (x : Z) : Z := if x <=? i64_max then x else x - 2 ^ 64.
(** [x.max(0) as u64] for an [i64]. *)
Definition u64_of_i64 (x : Z) : Z := Z.max x 0.
(** [u32::try_from(x).ok()] and [u64::try_from(x).ok()] for an [i64]. *)
Definition u32_try_from (x : Z) : option Z :=
  if (0 <=? x) && (x <=? u32_max) then Some x else None.
Definition u64_try_from (x : Z) : option Z :=
  if 0 <=? x then Some x else None.

Definition is_u64 (x : Z) : Prop := 0 <= x <= u64_max.
Definition is_u32 (x : Z) : Prop := 0 <= x <= u32_max.
Definition is_i64 (x : Z) : Prop := i64_min <= x <= i64_max.

(** ** Results

    Rust's [Result]. *)

Inductive result (A E : Type) : Type :=
| Ok (a : A)
| Err (e : E).
Arguments Ok {A E} a.
Arguments Err {A E} e.

Definition result_bind {A B E} (m : result A E) (k : A -> result B E) : result B E :=
  match m with Ok a => k a | Err e => Err e end.

Declare Scope result_scope.
Delimit Scope result_scope with result.
(** The [?] operator. *)
Notation "'let?' x ':=' c 'in' k" := (result_bind c (fun x => k))
  (at level 10, x binder, c at level 100, k at level 200,
   format "'[v' 'let?'  x  ':='  c  'in' '/' k ']'") : result_scope.

(** [iter().map(f).collect::<Result<Vec<_>, _>>()]: the first error wins. *)
Fixpoint result_map {A B E} (f : A -> result B E) (l : list A) : result (list B) E :=
  match l with
  | [] => Ok []
  | x :: l => result_bind (f x) (fun y => result_bind (result_map f l) (fun ys => Ok (y :: ys)))
  end.

Lemma result_map_Forall2 {A B E} (f : A -> result B E) l l' :
  result_map f l = Ok l' -> Forall2 (fun a b => f a = Ok b) l l'.
Proof.
  revert l'. induction l as [|a l IH]; intros l'; cbn; [by intros [= <-]|].
  destruct (f a) as [b|] eqn:F; [|done]. destruct (result_map f l); [|done]. intros [= <-].
  constructor; auto.
Qed.

Lemma result_map_Ok {A B C E} (f : A -> result B E) (g : C -> A) (h : C -> B) l :
  (forall x, x ∈ l -> f (g x) = Ok (h x)) -> result_map f (map g l) = Ok (map h l).
Proof.
  induction l as [|x l IH]; intros H; cbn; [done|]. rewrite (H x) by (by left). cbn.
  rewrite IH; [done|]. intros y Y. apply H. by right.
Qed.

(** ** Transactions

    An immediate SQLite transaction over a store [S], in a function that
    returns [Result<R, E>]: a statement either continues, or leaves the
    function. Leaving through [Commit] keeps the store; leaving through
    [Rollback] (a [return Ok(..)] before [tx.commit()]) or [Throw] (the [?]
    operator) drops the transaction, and with it every statement run so far. *)

Inductive flow (S E R A : Type) : Type :=
| Go (a : A) (s : S)
| Commit (r : R) (s : S)
| Rollback (r : R)
| Throw (e : E).
Arguments Go {S E R A} a s.
Arguments Commit {S E R A} r s.
Arguments Rollback {S E R A} r.
Arguments Throw {S E R A} e.

Definition tx (S E R A : Type) : Type := S -> flow S E R A.

Section Tx.
Context {S E R : Type}.

Definition tx_ret {A} (a : A) : tx S E R A := fun s => Go a s.
Definition tx_bind {A B} (m : tx S E R A) (k : A -> tx S E R B) : tx S E R B :=
  fun s => match m s with
           | Go a s' => k a s'
           | Commit r s' => Commit r s'
           | Rollback r => Rollback r
           | Throw e => Throw e
           end.
Definition get : tx S E R S := fun s => Go s s.
Definition put (s' : S) : tx S E R unit := fun _ => Go tt s'.
Definition modify (f : S -> S) : tx S E R unit := fun s => Go tt (f s).
Definition commit {A} (r : R) : tx S E R A := fun s => Commit r s.
Definition rollback {A} (r : R) : tx S E R A := fun _ => Rollback r.
Definition throw {A} (e : E) : tx S E R A := fun _ => Throw e.
Definition when (P : Prop) `{Decision P} (m : tx S E R unit) : tx S E R unit :=
  if decide P then m else tx_ret tt.

(** The whole function: open the transaction on [s], run it, and report the
    store that the next opener sees together with the returned value. *)
Definition run_tx (m : tx S E R Empty_set) (s : S) : S * result R E :=
  match m s with
  | Go a _ => match a with end
  | Commit r s' => (s', Ok r)
  | Rollback r => (s, Ok r)
  | Throw e => (s, Err e)
  end.

End Tx.

Declare Scope tx_scope.
Delimit Scope tx_scope with tx.
Notation "'let*' x ':=' c 'in' k" := (tx_bind c (fun x => k))
  (at level 10, x binder, c at level 100, k at level 200,
   format "'[v' 'let*'  x  ':='  c  'in' '/' k ']'") : tx_scope.
Notation "c ';;;' k" := (tx_bind c (fun _ => k))
  (at level 100, k at level 200, right associativity,
   format "'[v' c ';;;' '/' k ']'") : tx_scope.

(** ** Tactics *)

(** Expose the flow of a transaction that meets a concrete branch. *)
Ltac tx_unfold :=
  unfold when, run_tx, tx_bind, tx_ret, get, put, modify, commit, rollback, throw in *.

(** ** Postconditions of transactions

    [flow_post Q C f]: if the statement continues it satisfies [Q], if it
    commits it satisfies [C]; a dropped transaction owes nothing. *)

Definition flow_post {S E R A} (Q : A -> S -> Prop) (C : R -> S -> Prop)
    (f : flow S E R A) : Prop :=
  match f with
  | Go a s => Q a s
  | Commit r s => C r s
  | Rollback _ | Throw _ => True
  end.

Section Post.
Context {S E R : Type} (C : R -> S -> Prop).

Lemma post_bind {A B} (m : tx S E R A) (k : A -> tx S E R B) Q s :
  flow_post (fun a s' => flow_post Q C (k a s')) C (m s) -> flow_post Q C (tx_bind m k s).
Proof. unfold tx_bind. by destruct (m s). Qed.

Lemma post_when (P : Prop) `{Decision P} (m : tx S E R unit) Q s :
  (P -> flow_post Q C (m s)) -> (~ P -> Q tt s) -> flow_post Q C (when P m s).
Proof. unfold when. case_decide; cbn; auto. Qed.

Lemma post_decide {A} (P : Prop) `{Decision P} (m1 m2 : tx S E R A) Q s :
  (P -> flow_post Q C (m1 s)) -> (~ P -> flow_post Q C (m2 s)) ->
  flow_post Q C ((if decide P then m1 else m2) s).
Proof. case_decide; auto. Qed.

(** The store after a whole call, when it was either kept or committed. *)
Lemma run_tx_post (m : tx S E R Empty_set) (P : S -> Prop) s :
  P s -> flow_post (fun _ _ => True) (fun _ s' => P s') (m s) -> P (run_tx m s).1.
Proof. unfold run_tx. destruct (m s) as [[]| | |]; cbn; auto. Qed.

Lemma run_tx_commit (m : tx S E R Empty_set) r s s' :
  m s = Commit r s' -> run_tx m s = (s', Ok r).
Proof. unfold run_tx. by intros ->. Qed.

(** Returned values are those of a commit or of a rollback. *)
Lemma run_tx_Ok (m : tx S E R Empty_set) r s s' :
  run_tx m s = (s', Ok r) -> m s = Commit r s' \/ (m s = Rollback r /\ s' = s).
Proof. unfold run_tx. destruct (m s) as [[]| | |]; cbn; naive_solver. Qed.

End Post.

Lemma post_weaken {S E R A} (Q Q' : A -> S -> Prop) (C C' : R -> S -> Prop) (f : flow S E R A) :
  flow_post Q C f -> (forall a s, Q a s -> Q' a s) -> (forall r s, C r s -> C' r s) ->
  flow_post Q' C' f.
Proof. destruct f; cbn; auto. Qed.

(** ** Preservation

    [preserves P m]: every store a statement continues with or commits
    satisfies [P] when the store it started from did. *)

Definition preserves {S E R A} (P : S -> Prop) (m : tx S E R A) : Prop :=
  forall s, P s -> flow_post (fun _ s' => P s') (fun _ s' => P s') (m s).

Lemma preserves_bind {S E R A B} (P : S -> Prop) (m : tx S E R A) (k : A -> tx S E R B) :
  preserves P m -> (forall a, preserves P (k a)) -> preserves P (tx_bind m k).
Proof.
  intros M K s H. apply post_bind. eapply post_weaken; [by apply M| |done]. intros a s'. apply K.
Qed.

Lemma preserves_run {S E R} (P : S -> Prop) (m : tx S E R Empty_set) s :
  preserves P m -> P s -> P (run_tx m s).1.
Proof.
  intros M H. apply run_tx_post; [done|]. eapply post_weaken; [by apply M|by intros []|done].
Qed.

(** A statement that never leaves with a value before the commit. *)
Definition no_rollback {S E R A} (m : tx S E R A) : Prop := forall s r, m s <> Rollback r.

Lemma no_rollback_bind {S E R A B} (m : tx S E R A) (k : A -> tx S E R B) :
  no_rollback m -> (forall a, no_rollback (k a)) -> no_rollback (tx_bind m k).
Proof.
  intros M K s r. unfold tx_bind. specialize (M s). destruct (m s) as [a s'| |r'|]; [apply K|done| |done].
  intros [=]. by destruct (M r').
Qed.

(** A call that never rolls back and returned a value committed it. *)
Lemma run_tx_Ok_post {S E R} (m : tx S E R Empty_set) C r s s' :
  no_rollback m -> flow_post (fun _ _ => True) C (m s) -> run_tx m s = (s', Ok r) -> C r s'.
Proof.
  intros N P H. apply (run_tx_Ok C) in H as [H|[H _]].
  - by rewrite H in P.
  - by destruct (N s r).
Qed.

(** The values a call may return without a commit. *)
Definition rolls_only {S E R A} (B : R -> Prop) (m : tx S E R A) : Prop :=
  forall s r, m s = Rollback r -> B r.

Lemma rolls_only_bind {S E R A B} (P : R -> Prop) (m : tx S E R A) (k : A -> tx S E R B) :
  rolls_only P m -> (forall a, rolls_only P (k a)) -> rolls_only P (tx_bind m k).
Proof.
  intros M K s r. unfold tx_bind. specialize (M s).
  destruct (m s) as [a s'| |r'|]; [apply K|done| |done]. intros [= <-]. by apply M.
Qed.

Lemma no_rollback_only {S E R A} (P : R -> Prop) (m : tx S E R A) : no_rollback m -> rolls_only P m.
Proof. intros N s r H. by destruct (N s r). Qed.

(** A returned value that no rollback produces was committed. *)
Lemma run_tx_committed {S E R} (m : tx S E R Empty_set) (B : R -> Prop) C r s s' :
  rolls_only B m -> ~ B r -> flow_post (fun _ _ => True) C (m s) -> run_tx m s = (s', Ok r) -> C r s'.
Proof.
  intros N NB P H. apply (run_tx_Ok C) in H as [H|[H _]].
  - by rewrite H in P.
  - by destruct (NB (N s r H)).
Qed.

(** ** Specifications of whole calls

    [flow_spec Q C B f] is [flow_post] with an account of the values a call
    returns without a commit. *)

Definition flow_spec {S E R A} (Q : A -> S -> Prop) (C : R -> S -> Prop) (B : R -> Prop)
    (f : flow S E R A) : Prop :=
  match f with
  | Go a s => Q a s
  | Commit r s => C r s
  | Rollback r => B r
  | Throw _ => True
  end.

Section Spec.
Context {S E R : Type} (C : R -> S -> Prop) (B : R -> Prop).

Lemma spec_bind {A A'} (m : tx S E R A) (k : A -> tx S E R A') Q s :
  flow_spec (fun a s' => flow_spec Q C B (k a s')) C B (m s) -> flow_spec Q C B (tx_bind m k s).
Proof. unfold tx_bind. by destruct (m s). Qed.

Lemma spec_when (P : Prop) `{Decision P} (m : tx S E R unit) Q s :
  (P -> flow_spec Q C B (m s)) -> (~ P -> Q tt s) -> flow_spec Q C B (when P m s).
Proof. unfold when. case_decide; cbn; auto. Qed.

Lemma spec_decide {A} (P : Prop) `{Decision P} (m1 m2 : tx S E R A) Q s :
  (P -> flow_spec Q C B (m1 s)) -> (~ P -> flow_spec Q C B (m2 s)) ->
  flow_spec Q C B ((if decide P then m1 else m2) s).
Proof. case_decide; auto. Qed.

(** A statement that never rolls back. *)
Lemma spec_statement {A} (m : tx S E R A) Q s :
  no_rollback m -> flow_post Q C (m s) -> flow_spec Q C B (m s).
Proof. intros N. specialize (N s). destruct (m s); cbn; try done. by destruct (N r). Qed.

(** What a caller sees: the store, and the value or the error. *)
Lemma run_tx_spec (m : tx S E R Empty_set) (P : S * result R E -> Prop) s :
  flow_spec (fun _ _ => True) (fun r s' => P (s', Ok r)) (fun r => P (s, Ok r)) (m s) ->
  (forall e, P (s, Err e)) -> P (run_tx m s).
Proof. unfold run_tx. destruct (m s) as [[]| | |]; cbn; auto. Qed.

End Spec.

(** ** Frames

    A transaction frames an observation [f] of the store when no statement of
    it changes [f]; this needs no knowledge of the branches taken. *)

Definition frames {S E R A X} (f : S -> X) (m : tx S E R A) : Prop :=
  forall s, flow_post (fun _ s' => f s' = f s) (fun _ s' => f s' = f s) (m s).

Create HintDb frames.

Section Frames.
Context {S E R X : Type} (f : S -> X).

Lemma frames_ret {A} (a : A) : frames f (tx_ret a : tx S E R A).
Proof. done. Qed.
Lemma frames_get : frames f (get : tx S E R S).
Proof. done. Qed.
Lemma frames_commit {A} r : frames f (commit r : tx S E R A).
Proof. done. Qed.
Lemma frames_rollback {A} r : frames f (rollback r : tx S E R A).
Proof. done. Qed.
Lemma frames_throw {A} e : frames f (throw e : tx S E R A).
Proof. done. Qed.
Lemma frames_modify g : (forall s, f (g s) = f s) -> frames f (modify g : tx S E R unit).
Proof. intros H s. apply H. Qed.
Lemma frames_bind {A B} (m : tx S E R A) (k : A -> tx S E R B) :
  frames f m -> (forall a, frames f (k a)) -> frames f (tx_bind m k).
Proof.
  intros M K s. unfold tx_bind. specialize (M s). destruct (m s) as [a s'| | |]; cbn in *; auto.
  specialize (K a s'). destruct (k a s'); cbn in *; congruence.
Qed.
Lemma frames_when (P : Prop) `{Decision P} (m : tx S E R unit) :
  frames f m -> frames f (when P m).
Proof. unfold when. by case_decide. Qed.

Lemma frames_run (m : tx S E R Empty_set) s : frames f m -> f (run_tx m s).1 = f s.
Proof. intros F. specialize (F s). unfold run_tx. by destruct (m s) as [[]| | |]. Qed.

End Frames.

#[export] Hint Resolve frames_ret frames_get frames_commit frames_rollback frames_throw : frames.

(** Walk a transaction statement by statement; [frames] holds the lemmas of
    the statements. *)
Ltac frames_step :=
  first
  [ solve [auto with frames nocore]
  | apply frames_bind; [|intros]
  | apply frames_when
  | apply frames_modify; intros; reflexivity
  | lazymatch goal with
    | |- frames _ (match ?x with _ => _ end) => destruct x
    | |- frames _ (let _ := _ in _) => cbv zeta
    end ].
Ltac solve_frames := repeat frames_step.

(** ** Lists searched by key

    A [Vec] of records with an identity field, searched with
    [iter().find(|x| x.id == id)]: the first match. *)

Section Keyed.
Context {A : Type} (key : A -> string).

Definition key_is (k : string) (x : A) : bool := bool_decide (key x = k).
Definition find_key (k : string) (l : list A) : option A := List.find (key_is k) l.
#[local] Arguments find_key : simpl never.
Definition keys (l : list A) : list string := map key l.

(** [if let Some(x) = v.iter_mut().find(p) { *x = f(x) }]. *)
Fixpoint update_first (p : A -> bool) (f : A -> A) (l : list A) : list A :=
  match l with
  | [] => []
  | x :: l => if p x then f x :: l else x :: update_first p f l
  end.

Lemma key_is_true k x : key_is k x = true <-> key x = k.
Proof. unfold key_is. by rewrite bool_decide_eq_true. Qed.

Lemma find_key_cons k x l :
  find_key k (x :: l) = if decide (key x = k) then Some x else find_key k l.
Proof.
  unfold find_key, key_is. cbn.
  destruct (decide (key x = k)); [by rewrite bool_decide_eq_true_2|by rewrite bool_decide_eq_false_2].
Qed.

Lemma find_key_elem k l x : find_key k l = Some x -> x ∈ l /\ key x = k.
Proof.
  intros [E K]%List.find_some. split; [by apply list_elem_of_In|by apply key_is_true].
Qed.

Lemma find_key_None k l : find_key k l = None <-> k ∉ keys l.
Proof.
  induction l as [|x l IH]; cbn; [split; [intros _ ?%elem_of_nil; done|done]|].
  rewrite find_key_cons, elem_of_cons. case_decide; naive_solver.
Qed.

Lemma find_key_unique l x : NoDup (keys l) -> x ∈ l -> find_key (key x) l = Some x.
Proof.
  induction l as [|y l IH]; cbn; [by rewrite elem_of_nil|].
  intros [N ND]%NoDup_cons [->|E]%elem_of_cons; rewrite find_key_cons.
  - by rewrite decide_True.
  - rewrite decide_False; [auto|]. intros K. apply N. unfold keys. rewrite K. apply list_elem_of_fmap. eauto.
Qed.

Lemma find_key_app k l l' :
  find_key k (l ++ l') = match find_key k l with Some x => Some x | None => find_key k l' end.
Proof. induction l as [|x l IH]; [done|]. cbn. rewrite !find_key_cons. by case_decide. Qed.

Lemma keys_app l l' : keys (l ++ l') = keys l ++ keys l'.
Proof. apply map_app. Qed.

Lemma NoDup_keys_snoc l x : NoDup (keys l) -> key x ∉ keys l -> NoDup (keys (l ++ [x])).
Proof.
  intros ND N. rewrite keys_app. apply NoDup_app. split_and!; [done| |apply NoDup_singleton].
  intros k E. cbn. rewrite list_elem_of_singleton. intros ->. done.
Qed.

(** Updating the row with key [k] in place. *)
Lemma keys_update_first p f l : (forall x, key (f x) = key x) -> keys (update_first p f l) = keys l.
Proof.
  intros K. unfold keys. induction l as [|x l IH]; cbn; [done|]. destruct (p x); cbn; congruence.
Qed.

Lemma find_key_update k f l k' : (forall x, key (f x) = key x) ->
  find_key k' (update_first (key_is k) f l) =
  if decide (k' = k) then f <$> find_key k l else find_key k' l.
Proof.
  intros K. induction l as [|x l IH]; cbn; [by case_decide|].
  destruct (key_is k x) eqn:E.
  - apply key_is_true in E. rewrite !find_key_cons, K, E.
    destruct (decide (k = k)); [|done]. by repeat case_decide; subst.
  - assert (key x <> k) by (rewrite <- key_is_true; congruence).
    rewrite !find_key_cons, IH, (decide_False _ _ H). by repeat case_decide; subst.
Qed.

(** Renaming the row with key [k] to an unused key. *)
Lemma find_key_rename k k2 f l k' :
  NoDup (keys l) -> k ∈ keys l -> (k2 = k \/ k2 ∉ keys l) -> (forall x, key (f x) = k2) ->
  find_key k' (update_first (key_is k) f l) =
  if decide (k' = k2) then f <$> find_key k l
  else if decide (k' = k) then None else find_key k' l.
Proof.
  intros ND E F K. induction l as [|x l IH]; cbn; [by apply elem_of_nil in E|].
  cbn in ND. apply NoDup_cons in ND as [N ND]. cbn in F. rewrite elem_of_cons in F.
  destruct (key_is k x) eqn:Kx.
  - apply key_is_true in Kx. rewrite !find_key_cons, K, Kx. rewrite (decide_True _ _ (eq_refl k)).
    destruct (decide (k' = k2)) as [->|]; [by rewrite decide_True|]. rewrite decide_False by auto.
    destruct (decide (k' = k)) as [->|]; [|by rewrite decide_False by auto].
    apply find_key_None. by subst.
  - assert (key x <> k) by (rewrite <- key_is_true; congruence).
    cbn in E. apply elem_of_cons in E as [->|E]; [done|].
    rewrite !find_key_cons. rewrite (decide_False (P := key x = k)) by done.
    rewrite IH; [|done..|naive_solver].
    destruct (decide (key x = k')) as [<-|]; [|by repeat case_decide].
    rewrite decide_False by naive_solver. by rewrite decide_False by done.
Qed.

Lemma keys_rename_incl p f k2 l k' :
  (forall x, key (f x) = k2) -> k' ∈ keys (update_first p f l) -> k' ∈ keys l \/ k' = k2.
Proof.
  intros K. unfold keys. induction l as [|x l IH]; cbn; [auto|].
  destruct (p x); cbn; rewrite !elem_of_cons, ?K; naive_solver.
Qed.

Lemma NoDup_keys_rename k k2 f l :
  NoDup (keys l) -> (k2 = k \/ k2 ∉ keys l) -> (forall x, key (f x) = k2) ->
  NoDup (keys (update_first (key_is k) f l)).
Proof.
  intros ND F K. induction l as [|x l IH]; cbn; [constructor|].
  cbn in ND, F. apply NoDup_cons in ND as [N ND]. rewrite elem_of_cons in F.
  destruct (key_is k x) eqn:Kx; cbn; apply NoDup_cons.
  - apply key_is_true in Kx. split; [|done]. rewrite K. naive_solver.
  - assert (key x <> k) by (rewrite <- key_is_true; congruence).
    split; [|apply IH; [done|naive_solver]].
    intros [?|E]%(keys_rename_incl _ _ k2); [done|naive_solver|done].
Qed.

(** Removing every row with key [k]. *)
Lemma find_key_remove k l k' :
  find_key k' (List.filter (fun x => negb (key_is k x)) l) =
  if decide (k' = k) then None else find_key k' l.
Proof.
  induction l as [|x l IH]; cbn; [by case_decide|].
  destruct (key_is k x) eqn:E; cbn.
  - apply key_is_true in E. rewrite IH, find_key_cons, E. by repeat case_decide; subst.
  - assert (key x <> k) by (rewrite <- key_is_true; congruence).
    rewrite !find_key_cons, IH. by repeat case_decide; subst.
Qed.

Lemma NoDup_keys_filter p l : NoDup (keys l) -> NoDup (keys (List.filter p l)).
Proof.
  assert (G : forall k l, k ∈ keys (List.filter p l) -> k ∈ keys l).
  { intros k l0. induction l0 as [|x l0 IH]; cbn; [done|].
    destruct (p x); cbn; rewrite !elem_of_cons; naive_solver. }
  induction l as [|x l IH]; cbn; [done|]. intros [N ND]%NoDup_cons.
  destruct (p x); cbn; [|auto]. apply NoDup_cons. split; [|auto]. eauto.
Qed.

(** A search by key and more finds the row of that key. *)
Lemma find_refined p k l :
  NoDup (keys l) -> (forall x, p x = true -> key x = k) ->
  match List.find p l with
  | Some x => find_key k l = Some x /\ p x = true /\
      forall f, update_first p f l = update_first (key_is k) f l
  | None => forall x, find_key k l = Some x -> p x = false
  end.
Proof.
  intros ND P. induction l as [|x l IH]; cbn; [done|]. cbn in ND. apply NoDup_cons in ND as [N ND].
  specialize (IH ND). rewrite find_key_cons. destruct (p x) eqn:Px.
  - specialize (P x Px). rewrite decide_True by done. split_and!; [done..|].
    intros f. by rewrite (proj2 (key_is_true k x) P).
  - destruct (List.find p l) as [y|] eqn:F.
    + destruct IH as (E & Py & U). assert (key x <> k).
      { intros <-. apply N. apply find_key_elem in E as [E1 E2]. rewrite <- E2.
        apply list_elem_of_fmap. eauto. }
      rewrite decide_False by done. split_and!; [done..|]. intros f. rewrite U.
      destruct (key_is k x) eqn:Kx; [|done]. by apply key_is_true in Kx.
    + intros y. case_decide; [by intros [= <-]|auto].
Qed.

Lemma existsb_elem (p : A -> bool) l : existsb p l = true <-> exists x, x ∈ l /\ p x = true.
Proof.
  rewrite existsb_exists. split; intros (x & E & P); exists x; (split; [|done]); by apply list_elem_of_In.
Qed.

Lemma existsb_false (p : A -> bool) l : existsb p l = false <-> forall x, x ∈ l -> p x = false.
Proof.
  rewrite <- not_true_iff_false, existsb_elem. split.
  - intros H x E. destruct (p x) eqn:P; [|done]. exfalso. eauto.
  - intros H (x & E & P). rewrite H in P; done.
Qed.

End Keyed.
#[global] Arguments find_key : simpl never.

(** ** Rows of a table

    Statements with a [WHERE] clause on a table that is a finite map from its
    primary key. *)

(** [SELECT EXISTS(SELECT 1 FROM m WHERE p)]. *)
Definition exists_row {K V} `{Countable K} (p : K -> V -> bool) (m : gmap K V) : bool :=
  existsb (fun kv => p kv.1 kv.2) (map_to_list m).
(** [UPDATE m SET f WHERE p]. *)
Definition update_rows {K V} `{Countable K} (p : K -> V -> bool) (f : V -> V) (m : gmap K V) : gmap K V :=
  map_imap (fun k v => Some (if p k v then f v else v)) m.

Lemma exists_row_true {K V} `{Countable K} (p : K -> V -> bool) (m : gmap K V) :
  exists_row p m = true <-> exists k v, m !! k = Some v /\ p k v = true.
Proof.
  unfold exists_row. rewrite existsb_elem. split.
  - intros ([k v] & E & P). exists k, v. by rewrite <- elem_of_map_to_list.
  - intros (k & v & E & P). exists (k, v). by rewrite elem_of_map_to_list.
Qed.

Lemma exists_row_false {K V} `{Countable K} (p : K -> V -> bool) (m : gmap K V) :
  exists_row p m = false <-> forall k v, m !! k = Some v -> p k v = false.
Proof.
  rewrite <- not_true_iff_false, exists_row_true. split.
  - intros N k v E. destruct (p k v) eqn:P; [|done]. exfalso. eauto.
  - intros N (k & v & E & P). by rewrite (N _ _ E) in P.
Qed.

Lemma lookup_update_rows {K V} `{Countable K} (p : K -> V -> bool) f (m : gmap K V) k :
  update_rows p f m !! k = (fun v => if p k v then f v else v) <$> m !! k.
Proof. unfold update_rows. rewrite map_lookup_imap. by destruct (m !! k). Qed.
