(* ===== verification/Numerals.v ===== *)
(** * Numbers and identifiers as text

    Decimal printing and parsing of machine integers as Rust's [to_string],
    [format!] and [str::parse] do it, and the [str] searches the identifiers
    of the program are taken apart with. *)

From S2P Require Import Prelude.
From Stdlib Require Import ZArith Lia String Ascii DecimalString DecimalN DecimalFacts DecimalPos.
From stdpp Require Import base list strings.
#[local] Open Scope Z_scope.

(** [u64::to_string]. *)
Definition to_string (n : Z) : string := NilZero.string_of_uint (N.to_uint (Z.to_N n)).

Definition digits_value (s : string) : option Z :=
  match NilZero.uint_of_string s with
  | Some d => Some (Z.of_N (N.of_uint d))
  | None => None
  end.

(** [str::parse] of an unsigned integer of at most [max]: decimal digits, at
    least one, with an optional leading plus sign. *)
Definition parse_unsigned (max : Z) (s : string) : option Z :=
  let digits :=
    match s with
    | String c rest => if Ascii.eqb c "+"%char then rest else s
    | EmptyString => s
    end in
  match digits_value digits with
  | Some n => if n <=? max then Some n else None
  | None => None
  end.

(** [i64::to_string]. *)
Definition signed_to_string (n : Z) : string :=
  if n <? 0 then String "-" (to_string (- n)) else to_string n.

(** [str::parse] of a signed integer between [min] and [max]. *)
Definition parse_signed (min max : Z) (s : string) : option Z :=
  match s with
  | String c rest =>
      if Ascii.eqb c "-"%char then
        match digits_value rest with
        | Some n => if min <=? - n then Some (- n) else None
        | None => None
        end
      else parse_unsigned max s
  | EmptyString => None
  end.

(** [str::strip_prefix]. *)
Fixpoint str_strip_prefix (prefix s : string) : option string :=
  match prefix, s with
  | EmptyString, _ => Some s
  | String a prefix, String b s => if Ascii.eqb a b then str_strip_prefix prefix s else None
  | String _ _, EmptyString => None
  end.

(** [str::split_once] and [str::split] at a character. *)
Fixpoint split_once (at_char : ascii) (s : string) : option (string * string) :=
  match s with
  | EmptyString => None
  | String c rest =>
      if Ascii.eqb c at_char then Some (""%string, rest)
      else match split_once at_char rest with
           | Some (before, after) => Some (String c before, after)
           | None => None
           end
  end.

Fixpoint split_at (at_char : ascii) (s : string) : list string :=
  match s with
  | EmptyString => [""%string]
  | String c rest =>
      if Ascii.eqb c at_char then ""%string :: split_at at_char rest
      else match split_at at_char rest with
           | part :: parts => String c part :: parts
           | [] => [String c EmptyString]
           end
  end.

(** ** Printing and parsing *)

Lemma digits_value_to_string n : 0 <= n -> digits_value (to_string n) = Some n.
Proof.
  intros H. unfold digits_value, to_string. rewrite NilZero.usu.
  - rewrite DecimalN.Unsigned.of_to. by rewrite Z2N.id.
  - destruct (Z.to_N n) as [|p]; [done|]. cbn. intros E. apply (f_equal Pos.of_uint) in E.
    rewrite DecimalPos.Unsigned.of_to in E. done.
Qed.

Lemma to_string_no_plus n : match to_string n with String c _ => Ascii.eqb c "+"%char = false | _ => True end.
Proof.
  unfold to_string, NilZero.string_of_uint. destruct (N.to_uint (Z.to_N n)); done.
Qed.

Lemma parse_to_string max n : 0 <= n <= max -> parse_unsigned max (to_string n) = Some n.
Proof.
  intros H. unfold parse_unsigned. pose proof (to_string_no_plus n) as P.
  pose proof (digits_value_to_string n ltac:(lia)) as D.
  destruct (to_string n) as [|c rest] eqn:E; [done|]. rewrite P, D.
  by rewrite (proj2 (Z.leb_le n max)) by lia.
Qed.

Lemma to_string_inj n m : 0 <= n -> 0 <= m -> to_string n = to_string m -> n = m.
Proof.
  intros Hn Hm E. pose proof (digits_value_to_string n Hn) as D. rewrite E, digits_value_to_string in D by done.
  congruence.
Qed.

Lemma strip_prefix_app (p s : string) : str_strip_prefix p (String.append p s) = Some s.
Proof.
  induction p as [|c p IH]; [by destruct s|].
  change (String.append (String c p) s) with (String c (String.append p s)).
  cbn [str_strip_prefix]. by rewrite Ascii.eqb_refl.
Qed.

Lemma string_app_inj (p s s' : string) : String.append p s = String.append p s' -> s = s'.
Proof.
  intros E. pose proof (strip_prefix_app p s) as H. rewrite E, strip_prefix_app in H. congruence.
Qed.

(** ** Characters of a number *)

Fixpoint string_all (P : ascii -> bool) (s : string) : bool :=
  match s with
  | EmptyString => true
  | String c s => P c && string_all P s
  end.

Definition ascii_is_digit (c : ascii) : bool :=
  (N.leb 48 (Ascii.N_of_ascii c) && N.leb (Ascii.N_of_ascii c) 57)%bool.

Lemma string_of_uint_digits d : string_all ascii_is_digit (NilEmpty.string_of_uint d) = true.
Proof. by induction d. Qed.

Lemma to_string_digits n : string_all ascii_is_digit (to_string n) = true.
Proof.
  unfold to_string, NilZero.string_of_uint. destruct (N.to_uint (Z.to_N n)) eqn:E; [done|..];
    apply string_of_uint_digits.
Qed.

Lemma to_string_nonempty n : to_string n <> ""%string.
Proof. unfold to_string, NilZero.string_of_uint. by destruct (N.to_uint (Z.to_N n)). Qed.

Lemma to_string_no_minus n rest : to_string n <> String "-" rest.
Proof. intros E. pose proof (to_string_digits n) as D. by rewrite E in D. Qed.

Lemma parse_signed_to_string min max n :
  min <= n <= max -> parse_signed min max (signed_to_string n) = Some n.
Proof.
  intros R. unfold signed_to_string. destruct (n <? 0) eqn:S.
  - cbn [parse_signed]. rewrite Ascii.eqb_refl, digits_value_to_string by lia.
    rewrite (proj2 (Z.leb_le min (- - n))) by lia. f_equal. lia.
  - unfold parse_signed. destruct (to_string n) as [|c rest] eqn:E; [by apply to_string_nonempty in E|].
    destruct (Ascii.eqb_spec c "-"%char) as [->|].
    + by apply to_string_no_minus in E.
    + rewrite <- E. apply parse_to_string. lia.
Qed.

Lemma parse_unsigned_bound max s n : parse_unsigned max s = Some n -> 0 <= n <= max.
Proof.
  unfold parse_unsigned, digits_value. destruct (NilZero.uint_of_string _); [|done].
  destruct (_ <=? max) eqn:E; [|done]. intros [= <-]. lia.
Qed.

Lemma parse_signed_bound min max s n :
  0 <= max -> min <= 0 -> parse_signed min max s = Some n -> min <= n <= max.
Proof.
  intros M0 M1. unfold parse_signed. destruct s as [|c rest]; [done|]. case_match.
  - unfold digits_value. destruct (NilZero.uint_of_string _); [|done].
    destruct (min <=? _) eqn:E; [|done]. intros [= <-]. lia.
  - intros B%parse_unsigned_bound. lia.
Qed.

Lemma signed_to_string_inj n m : signed_to_string n = signed_to_string m -> n = m.
Proof.
  intros E.
  pose proof (parse_signed_to_string (Z.min n m) (Z.max n m) n ltac:(lia)) as H.
  rewrite E, parse_signed_to_string in H by lia. congruence.
Qed.

(** ** Splitting *)

(** A number contains no separator other than its own sign. *)
Definition separator (c : ascii) : Prop := ascii_is_digit c = false.

Lemma split_once_app sep (a b : string) :
  string_all (fun c => negb (Ascii.eqb c sep)) a = true ->
  split_once sep (String.append a (String sep b)) = Some (a, b).
Proof.
  induction a as [|c a IH]; intros A.
  - change (String.append "" (String sep b)) with (String sep b). cbn. by rewrite Ascii.eqb_refl.
  - change (String.append (String c a) (String sep b)) with (String c (String.append a (String sep b))).
    cbn in A |- *. apply andb_true_iff in A as [C A]. rewrite (IH A).
    by destruct (Ascii.eqb c sep).
Qed.

Lemma split_at_app sep (a b : string) :
  string_all (fun c => negb (Ascii.eqb c sep)) a = true ->
  split_at sep (String.append a (String sep b)) = a :: split_at sep b.
Proof.
  induction a as [|c a IH]; intros A.
  - change (String.append "" (String sep b)) with (String sep b). cbn. by rewrite Ascii.eqb_refl.
  - change (String.append (String c a) (String sep b)) with (String c (String.append a (String sep b))).
    cbn in A |- *. apply andb_true_iff in A as [C A]. rewrite (IH A).
    by destruct (Ascii.eqb c sep).
Qed.

Lemma split_at_none sep (a : string) :
  string_all (fun c => negb (Ascii.eqb c sep)) a = true -> split_at sep a = [a].
Proof.
  induction a as [|c a IH]; cbn; intros A; [done|].
  apply andb_true_iff in A as [C A]. rewrite (IH A). by destruct (Ascii.eqb c sep).
Qed.

Lemma string_all_impl (P Q : ascii -> bool) s :
  (forall c, P c = true -> Q c = true) -> string_all P s = true -> string_all Q s = true.
Proof.
  intros I. induction s as [|c s IH]; cbn; [done|]. rewrite !andb_true_iff. naive_solver.
Qed.

Lemma to_string_no_sep sep n :
  separator sep -> string_all (fun c => negb (Ascii.eqb c sep)) (to_string n) = true.
Proof.
  intros S. eapply string_all_impl, to_string_digits. intros c C. cbn.
  destruct (Ascii.eqb_spec c sep) as [->|]; [|done]. unfold separator in S. congruence.
Qed.

Lemma signed_to_string_no_sep sep n :
  separator sep -> sep <> "-"%char ->
  string_all (fun c => negb (Ascii.eqb c sep)) (signed_to_string n) = true.
Proof.
  intros S M. unfold signed_to_string. destruct (n <? 0); [|by apply to_string_no_sep].
  cbn [string_all]. rewrite to_string_no_sep by done.
  destruct (Ascii.eqb_spec "-"%char sep); [congruence|done].
Qed.
