(* ===== verification/NodeModel.v ===== *)
(** * Node model: health vector, slot and job phases, ready proof

    Models [crates/velnor-model/src/node.rs] and the backend kind of
    [crates/velnor-model/src/execution.rs]: the closed vocabularies of the
    node, the proof a slot needs before it is advertised, and the overall
    health state and operator alerts derived from the health vector. *)

From S2P Require Import Prelude.
From stdpp Require Import base list strings.
#[local] Open Scope Z_scope.

(** ** Closed vocabularies *)

Inductive ExecutionBackendKind := Docker | MicroVm.
#[export] Instance ExecutionBackendKind_eq_dec : EqDecision ExecutionBackendKind.
Proof. solve_decision. Defined.

Inductive FleetHealthState := FleetReady | Degraded | FleetNotReady.
#[export] Instance FleetHealthState_eq_dec : EqDecision FleetHealthState.
Proof. solve_decision. Defined.

Definition FleetHealthState_as_str (s : FleetHealthState) : string :=
  match s with
  | FleetReady => "ready"
  | Degraded => "degraded"
  | FleetNotReady => "not_ready"
  end.

Inductive CanaryStatus := Passing | Failing | CanaryTimeout | CanaryUnknown.
#[export] Instance CanaryStatus_eq_dec : EqDecision CanaryStatus.
Proof. solve_decision. Defined.

Definition CanaryStatus_as_str (s : CanaryStatus) : string :=
  match s with
  | Passing => "passing"
  | Failing => "failing"
  | CanaryTimeout => "timeout"
  | CanaryUnknown => "unknown"
  end.

Inductive HealthAlertCode :=
| ControlNotLive | JournalNotWritable | GithubUnreachable | RoutingInvalid
| RunnerGroupInvalid | ResourceUnsafe | RecoveryMissingSession | RecoveryBackoff
| RecoveryQuarantined | CapacityShortfall | NoSchedulableCapacity.

Inductive HealthAlertSeverity := Warning | Critical.

Record HealthAlert := {
  code : HealthAlertCode;
  severity : HealthAlertSeverity;
  message : string;
}.

(** ** Health document *)

Record HealthDocument := {
  hd_control_live : bool;
  hd_journal_writable : bool;
  hd_github_reachable : bool;
  hd_routing_valid : bool;
  hd_runner_group_valid : bool;
  desired_ready_slots : Z;
  actual_ready_slots : Z;
  registered_slots : Z;
  capacity_permits : Z;
  executor_ready_slots : Z;
  oldest_queued_job_seconds : Z;
  oldest_outbox_entry_seconds : Z;
  external_canary : CanaryStatus;
  hd_execution_backend : ExecutionBackendKind;
  hd_state : FleetHealthState;
}.

(** [HealthDocument::derive_state]. *)
Definition derive_state (d : HealthDocument) : FleetHealthState :=
  if negb (hd_control_live d) || negb (hd_journal_writable d) then FleetNotReady
  else if negb (hd_github_reachable d) || negb (hd_routing_valid d)
          || negb (hd_runner_group_valid d)
          || (actual_ready_slots d <? desired_ready_slots d) then Degraded
  else if (actual_ready_slots d =? 0) || (capacity_permits d =? 0) then FleetNotReady
  else FleetReady.

(** [HealthDocument::with_derived_state]. *)
Definition with_derived_state (d : HealthDocument) : HealthDocument := {|
  hd_control_live := hd_control_live d;
  hd_journal_writable := hd_journal_writable d;
  hd_github_reachable := hd_github_reachable d;
  hd_routing_valid := hd_routing_valid d;
  hd_runner_group_valid := hd_runner_group_valid d;
  desired_ready_slots := desired_ready_slots d;
  actual_ready_slots := actual_ready_slots d;
  registered_slots := registered_slots d;
  capacity_permits := capacity_permits d;
  executor_ready_slots := executor_ready_slots d;
  oldest_queued_job_seconds := oldest_queued_job_seconds d;
  oldest_outbox_entry_seconds := oldest_outbox_entry_seconds d;
  external_canary := external_canary d;
  hd_execution_backend := hd_execution_backend d;
  hd_state := derive_state d;
|}.

Definition alert_if (b : bool) (c : HealthAlertCode) (s : HealthAlertSeverity)
    (m : string) : list HealthAlert :=
  if b then [{| code := c; severity := s; message := m |}] else [].

(** [HealthDocument::alerts]: one [push] per failed condition, in order. *)
Definition alerts (d : HealthDocument) : list HealthAlert :=
  alert_if (negb (hd_control_live d)) ControlNotLive Critical
    "control cycle is not live"
  ++ alert_if (negb (hd_journal_writable d)) JournalNotWritable Critical
    "durable journal is not writable"
  ++ alert_if (negb (hd_github_reachable d)) GithubUnreachable Warning
    "GitHub is not reachable"
  ++ alert_if (negb (hd_routing_valid d)) RoutingInvalid Critical
    "routing proof is invalid"
  ++ alert_if (negb (hd_runner_group_valid d)) RunnerGroupInvalid Critical
    "runner group proof is invalid"
  ++ alert_if (actual_ready_slots d <? desired_ready_slots d) CapacityShortfall Warning
    "ready capacity is below the desired floor"
  ++ alert_if ((actual_ready_slots d =? 0) || (capacity_permits d =? 0))
       NoSchedulableCapacity Critical "no schedulable capacity is available".

(** ** Identities and phases *)

(** [Generation(pub u64)], [SlotId(pub String)] and [JobId(pub String)] are
    newtypes; they are used through their contents. *)
Abbreviation Generation := Z (only parsing).
Abbreviation SlotId := string (only parsing).
Abbreviation JobId := string (only parsing).

Definition Generation_INITIAL : Generation := 1.
Definition Generation_next (g : Generation) : Generation := u64_saturating_add g 1.

Inductive SlotPhase2 := Absent | Provisioning | Registered | Ready | Assigned | Fenced.
#[export] Instance SlotPhase2_eq_dec : EqDecision SlotPhase2.
Proof. solve_decision. Defined.

Definition SlotPhase2_as_str (p : SlotPhase2) : string :=
  match p with
  | Absent => "absent"
  | Provisioning => "provisioning"
  | Registered => "registered"
  | Ready => "ready"
  | Assigned => "assigned"
  | Fenced => "fenced"
  end.

Definition counts_as_ready (p : SlotPhase2) : bool :=
  match p with Ready => true | _ => false end.

Inductive JobPhase2 := JobAssigned | JobRunning | JobCompleting.
#[export] Instance JobPhase2_eq_dec : EqDecision JobPhase2.
Proof. solve_decision. Defined.

Definition JobPhase2_as_str (p : JobPhase2) : string :=
  match p with
  | JobAssigned => "assigned"
  | JobRunning => "running"
  | JobCompleting => "completing"
  end.

Definition occupies_slot (p : JobPhase2) : bool :=
  match p with JobAssigned | JobRunning | JobCompleting => true end.

(** ** Ready proof *)

Record NotReady := {
  missing_permit : bool;
  routing_invalid : bool;
  session_not_live : bool;
  executor_unproven : bool;
}.

Definition is_blocked (n : NotReady) : bool :=
  missing_permit n || routing_invalid n || session_not_live n || executor_unproven n.

Record ReadyProof := {
  rp_permit_held : bool;
  rp_routing_valid : bool;
  rp_session_live : bool;
  rp_executor_proven : bool;
}.

(** [ReadyProof::try_new]. *)
Definition try_new (permit_held routing_valid session_live executor_proven : bool)
    : result ReadyProof NotReady :=
  let missing := {|
    missing_permit := negb permit_held;
    routing_invalid := negb routing_valid;
    session_not_live := negb session_live;
    executor_unproven := negb executor_proven;
  |} in
  if is_blocked missing then Err missing
  else Ok {|
    rp_permit_held := true;
    rp_routing_valid := true;
    rp_session_live := true;
    rp_executor_proven := true;
  |}.

(** ** Theorems *)

Lemma try_new_ok p r s e x :
  try_new p r s e = Ok x <->
  (p = true /\ r = true /\ s = true /\ e = true) /\
  x = {| rp_permit_held := true; rp_routing_valid := true;
         rp_session_live := true; rp_executor_proven := true |}.
Proof. destruct p, r, s, e; cbn; naive_solver. Qed.

Lemma derive_state_ready d :
  derive_state d = FleetReady <->
  hd_control_live d = true /\ hd_journal_writable d = true /\
  hd_github_reachable d = true /\ hd_routing_valid d = true /\
  hd_runner_group_valid d = true /\
  desired_ready_slots d <= actual_ready_slots d /\
  actual_ready_slots d <> 0 /\ capacity_permits d <> 0.
Proof.
  unfold derive_state.
  destruct (hd_control_live d), (hd_journal_writable d), (hd_github_reachable d),
    (hd_routing_valid d), (hd_runner_group_valid d); cbn; try naive_solver.
  destruct (Z.ltb_spec (actual_ready_slots d) (desired_ready_slots d)); [naive_solver lia|].
  destruct (Z.eqb_spec (actual_ready_slots d) 0); [naive_solver|].
  destruct (Z.eqb_spec (capacity_permits d) 0); naive_solver lia.
Qed.

(** The operator sees no alert exactly when the derived fleet state is ready,
    and a fleet that is not ready always carries a critical alert. *)
Theorem health_state_agrees_with_alerts d :
  (derive_state d = FleetReady <-> alerts d = []) /\
  (derive_state d = FleetNotReady -> exists a, a ∈ alerts d /\ severity a = Critical) /\
  (derive_state d = Degraded -> alerts d <> []).
Proof.
  unfold derive_state, alerts, alert_if.
  destruct (hd_control_live d), (hd_journal_writable d), (hd_github_reachable d),
    (hd_routing_valid d), (hd_runner_group_valid d); cbn;
    destruct (actual_ready_slots d <? desired_ready_slots d),
      ((actual_ready_slots d =? 0) || (capacity_permits d =? 0)); cbn;
    (split; [split; discriminate || reflexivity|]); (split; [|discriminate]);
    try discriminate; intros _; eexists; (split; [left || (right; left)|]); reflexivity.
Qed.
