(* ===== verification/Lifecycle.v ===== *)
(** * Job lifecycle: event reasons and the persisted job state machine

    Models [crates/velnor-model/src/lifecycle.rs]: the closed taxonomy of
    event reasons, the job states, their wire tokens, and the table of legal
    edges [transition_target] that every persisted job walks. *)

From S2P Require Import Prelude.
From stdpp Require Import base list strings relations.
#[local] Open Scope Z_scope.

Inductive EventReason :=
| ReadinessReady | ReadinessDegraded | DrainStarted | DrainCompleted
| SlotStateChanged | RegistrationMissing | RegistrationOffline | RegistrationStaleBusy
| ReasonJobAcquired | ReasonJobWaiting | ReasonJobStarted | ReasonJobCompleted
| ReasonJobCanceled | ReasonJobRejected | CapacityPressure | GcStarted | GcCompleted.
#[export] Instance EventReason_eq_dec : EqDecision EventReason.
Proof. solve_decision. Defined.

Definition EventReason_ALL : list EventReason :=
  [ReadinessReady; ReadinessDegraded; DrainStarted; DrainCompleted; SlotStateChanged;
   RegistrationMissing; RegistrationOffline; RegistrationStaleBusy;
   ReasonJobAcquired; ReasonJobWaiting; ReasonJobStarted; ReasonJobCompleted;
   ReasonJobCanceled; ReasonJobRejected; CapacityPressure; GcStarted; GcCompleted].

Definition EventReason_as_str (r : EventReason) : string :=
  match r with
  | ReadinessReady => "readiness.ready"
  | ReadinessDegraded => "readiness.degraded"
  | DrainStarted => "drain.started"
  | DrainCompleted => "drain.completed"
  | SlotStateChanged => "slot.state_changed"
  | RegistrationMissing => "registration.missing"
  | RegistrationOffline => "registration.offline"
  | RegistrationStaleBusy => "registration.stale_busy"
  | ReasonJobAcquired => "job.acquired"
  | ReasonJobWaiting => "job.waiting"
  | ReasonJobStarted => "job.started"
  | ReasonJobCompleted => "job.completed"
  | ReasonJobCanceled => "job.canceled"
  | ReasonJobRejected => "job.rejected"
  | CapacityPressure => "capacity.pressure"
  | GcStarted => "gc.started"
  | GcCompleted => "gc.completed"
  end.

Inductive JobState := Queued | Acquired | Waiting | Started | Completed | Canceled | Rejected.
#[export] Instance JobState_eq_dec : EqDecision JobState.
Proof. solve_decision. Defined.

Definition JobState_ALL : list JobState :=
  [Queued; Acquired; Waiting; Started; Completed; Canceled; Rejected].

Definition JobState_as_str (s : JobState) : string :=
  match s with
  | Queued => "queued"
  | Acquired => "acquired"
  | Waiting => "waiting"
  | Started => "started"
  | Completed => "completed"
  | Canceled => "canceled"
  | Rejected => "rejected"
  end.

Definition is_job_transition (r : EventReason) : bool :=
  match r with
  | ReasonJobAcquired | ReasonJobWaiting | ReasonJobStarted
  | ReasonJobCompleted | ReasonJobCanceled | ReasonJobRejected => true
  | _ => false
  end.

Definition job_target (r : EventReason) : option JobState :=
  match r with
  | ReasonJobAcquired => Some Acquired
  | ReasonJobWaiting => Some Waiting
  | ReasonJobStarted => Some Started
  | ReasonJobCompleted => Some Completed
  | ReasonJobCanceled => Some Canceled
  | ReasonJobRejected => Some Rejected
  | _ => None
  end.

Definition is_terminal (s : JobState) : bool :=
  match s with Completed | Canceled | Rejected => true | _ => false end.

(** [TryFrom<&str>]: the first entry of [ALL] with that spelling, and the
    rejected vocabulary's name otherwise. *)
Definition EventReason_try_from (raw : string) : result EventReason string :=
  match list_find (fun r => EventReason_as_str r = raw) EventReason_ALL with
  | Some (_, r) => Ok r
  | None => Err "event_reason"%string
  end.

Definition JobState_try_from (raw : string) : result JobState string :=
  match list_find (fun s => JobState_as_str s = raw) JobState_ALL with
  | Some (_, s) => Ok s
  | None => Err "job_state"%string
  end.

Definition transition_target (from : JobState) (reason : EventReason) : option JobState :=
  match from, reason with
  | Queued, ReasonJobAcquired => Some Acquired
  | Acquired, ReasonJobWaiting => Some Waiting
  | Waiting, ReasonJobStarted => Some Started
  | Started, ReasonJobCompleted => Some Completed
  | Started, ReasonJobCanceled => Some Canceled
  | Started, ReasonJobRejected => Some Rejected
  | Acquired, ReasonJobCanceled => Some Canceled
  | Acquired, ReasonJobRejected => Some Rejected
  | Waiting, ReasonJobCanceled => Some Canceled
  | Waiting, ReasonJobRejected => Some Rejected
  | _, _ => None
  end.

(** ** The state machine *)

(** One legal edge of the table. *)
Inductive job_step : JobState -> JobState -> Prop :=
| job_edge from reason to : transition_target from reason = Some to -> job_step from to.

(** A sequence of reasons replayed from [s]; an illegal edge stops the walk. *)
Fixpoint walk (s : JobState) (rs : list EventReason) : option JobState :=
  match rs with
  | [] => Some s
  | r :: rs => match transition_target s r with
               | Some s' => walk s' rs
               | None => None
               end
  end.

(** Distance of a state from the start of the graph. *)
Definition depth (s : JobState) : nat :=
  match s with
  | Queued => 0
  | Acquired => 1
  | Waiting => 2
  | Started => 3
  | Completed | Canceled | Rejected => 4
  end.

(** ** Theorems *)

Lemma transition_deepens from reason to :
  transition_target from reason = Some to -> (depth from < depth to)%nat.
Proof. destruct from, reason; cbn; intros [= <-]; cbn; lia. Qed.

Lemma transition_names_its_target from reason to :
  transition_target from reason = Some to -> job_target reason = Some to.
Proof. destruct from, reason; cbn; intros [= <-]; reflexivity. Qed.

Lemma walk_depth s rs s' : walk s rs = Some s' -> (depth s + length rs <= depth s')%nat.
Proof.
  revert s; induction rs as [|r rs IH]; intros s; cbn.
  - intros [= <-]; lia.
  - destruct (transition_target s r) as [t|] eqn:E; [|discriminate].
    apply transition_deepens in E. intros W%IH. lia.
Qed.

Lemma terminal_no_edge s r : is_terminal s = true -> transition_target s r = None.
Proof. destruct s, r; cbn; congruence. Qed.

(** The machine stops: no walk is longer than four edges, none leaves a
    terminal state, and no state other than a terminal one is a dead end. *)
Theorem job_machine_terminates :
  (forall s rs s', walk s rs = Some s' -> (length rs <= 4)%nat) /\
  (forall s r rs, is_terminal s = true -> walk s (r :: rs) = None) /\
  (forall s, is_terminal s = false -> exists rs s', walk s rs = Some s' /\ is_terminal s' = true).
Proof.
  split; [|split].
  - intros s rs s' W%walk_depth. destruct s, s'; cbn in W; lia.
  - intros s r rs T. cbn. by rewrite (terminal_no_edge s r T).
  - intros s T.
    exists (drop (depth s) [ReasonJobAcquired; ReasonJobWaiting; ReasonJobStarted; ReasonJobCompleted]),
      Completed.
    by destruct s.
Qed.

(** Wire tokens round trip both ways: every reason and state is recovered
    from its spelling, and an accepted spelling is the canonical one. *)
Theorem lifecycle_tokens_round_trip :
  (forall r, EventReason_try_from (EventReason_as_str r) = Ok r) /\
  (forall s, JobState_try_from (JobState_as_str s) = Ok s) /\
  (forall raw r, EventReason_try_from raw = Ok r -> raw = EventReason_as_str r) /\
  (forall raw s, JobState_try_from raw = Ok s -> raw = JobState_as_str s).
Proof.
  split; [|split; [|split]].
  - intros []; reflexivity.
  - intros []; reflexivity.
  - intros raw r. unfold EventReason_try_from.
    destruct (list_find _ _) as [[i x]|] eqn:E; [|discriminate].
    intros [= <-]. by apply list_find_Some in E as (_ & <- & _).
  - intros raw s. unfold JobState_try_from.
    destruct (list_find _ _) as [[i x]|] eqn:E; [|discriminate].
    intros [= <-]. by apply list_find_Some in E as (_ & <- & _).
Qed.
