(* ===== verification/LedgerData.v ===== *)
(** * Permit ledger: vocabularies, rows, and SQL statements

    Models the data of [crates/velnor-control/src/permit_ledger.rs]: the
    lanes, demand and permit states with their column spellings, the rows of
    the six tables, and the statements the operations are written with. A
    column keeps the type it has in the database ([TEXT] as [string],
    [INTEGER] as an [i64] in [Z]), so a row can hold a spelling no vocabulary
    knows, as the source allows for. *)

From S2P Require Import Prelude.
From stdpp Require Import base gmap sets list strings.
#[local] Open Scope Z_scope.
#[local] Open Scope tx_scope.

(** ** Constants and backoff *)

Definition DEMAND_STALE_AFTER_SECS : Z := 300.

(** Durations in milliseconds. *)
Definition DEFERRED_WAIT_BUDGET : Z := 5000.
Definition DEFERRED_WAIT_MIN : Z := 1.
Definition DEFERRED_WAIT_MAX : Z := 50.

Definition deferred_wait (attempt : Z) : Z :=
  let scaled := DEFERRED_WAIT_MIN * Z.shiftl 1 (Z.min attempt 10) in
  Z.min scaled DEFERRED_WAIT_MAX.

(** ** Vocabularies *)

Inductive PermitLane := Native | ScaleSet.
#[export] Instance PermitLane_eq_dec : EqDecision PermitLane.
Proof. solve_decision. Defined.

Definition PermitLane_as_str (l : PermitLane) : string :=
  match l with Native => "native" | ScaleSet => "scale-set" end.

Definition PermitLane_parse (value : string) : option PermitLane :=
  if decide (value = "native") then Some Native
  else if decide (value = "scale-set") then Some ScaleSet
  else None.

Inductive DemandState := Eligible | Granted | Terminal | Cancelled | Waiting.
#[export] Instance DemandState_eq_dec : EqDecision DemandState.
Proof. solve_decision. Defined.

Definition DemandState_as_str (s : DemandState) : string :=
  match s with
  | Eligible => "eligible"
  | Granted => "granted"
  | Terminal => "terminal"
  | Cancelled => "cancelled"
  | Waiting => "waiting"
  end.

Definition DemandState_parse (value : string) : option DemandState :=
  if decide (value = "eligible") then Some Eligible
  else if decide (value = "granted") then Some Granted
  else if decide (value = "terminal") then Some Terminal
  else if decide (value = "cancelled") then Some Cancelled
  else if decide (value = "waiting") then Some Waiting
  else None.

Inductive PermitState :=
| Reserved | Acquiring | Provisioning | Assignable | Running | Cleaning | Uncertain.
#[export] Instance PermitState_eq_dec : EqDecision PermitState.
Proof. solve_decision. Defined.

Definition PermitState_as_str (s : PermitState) : string :=
  match s with
  | Reserved => "reserved"
  | Acquiring => "acquiring"
  | Provisioning => "provisioning"
  | Assignable => "assignable"
  | Running => "running"
  | Cleaning => "cleaning"
  | Uncertain => "uncertain"
  end.

Definition PermitState_parse (value : string) : option PermitState :=
  if decide (value = "reserved") then Some Reserved
  else if decide (value = "acquiring") then Some Acquiring
  else if decide (value = "provisioning") then Some Provisioning
  else if decide (value = "assignable") then Some Assignable
  else if decide (value = "running") then Some Running
  else if decide (value = "cleaning") then Some Cleaning
  else if decide (value = "uncertain") then Some Uncertain
  else None.

(** ** Parsed rows handed to callers *)

Record PermitDemand := {
  pd_holder : string;
  pd_lane : PermitLane;
  pd_scope : string;
  pd_first_seen_unix : Z;
  pd_sequence : Z;
  pd_state : DemandState;
  pd_updated_unix : Z;
}.

Record PermitHolder := {
  ph_holder : string;
  ph_lane : PermitLane;
  ph_state : PermitState;
  ph_acquired_unix : Z;
  ph_updated_unix : Z;
  ph_generation : Z;
  ph_pid : option Z;
}.

Record ScaleSetRecoveryClaim := { claim_token : string; owner_pid : Z }.

(** ** Outcomes and errors *)

Inductive AdoptOutcome :=
| Adopted (attempt_token : string)
| LiveHolder
| AdoptMissing
| AdoptStaleGeneration.

Inductive CleanupClaimOutcome := Claimed | ClosedAbsent | DemandClosed | CleanupStaleAttempt.

Inductive AttemptRotationOutcome :=
| Rotated | AlreadyRotated | RotationMissing | RotationStaleAttempt | RotationStaleGeneration.

Inductive OwnedReleaseOutcome := Released | AlreadyAbsent | ReleaseStaleAttempt.

Inductive AcquireAttemptOutcome :=
| AttemptAcquired (attempt_token : string)
| AlreadyHeld
| Full
| Deferred
| Closed
| AcquireStaleGeneration
| NotConfigured.

Record ReconcileReport := {
  marked_uncertain : list string;
  confirmed : list string;
}.

(** What [rusqlite] reports: a violated key or unique index, a query without
    a row, a column of another type. *)
Inductive StorageError := ConstraintViolation | QueryReturnedNoRows | InvalidColumnType.

Inductive LedgerError :=
| Storage (error : StorageError)
| UnknownLane (lane : string)
| UnknownState (state : string)
| UnknownDemandState (state : string)
| UnknownHolder (holder : string)
| StaleAttempt (holder : string)
| RecoveryClaimed (pid : Z)
| DemandLaneMismatch (holder : string) (expected : PermitLane) (seen : string)
| StaleGeneration (expected seen : Z).

(** ** Tables *)

(** A row of [permits]; the key is [holder]. *)
Record PermitRow := {
  p_lane : string;
  p_state : string;
  p_acquired_unix : Z;
  p_updated_unix : Z;
  p_generation : Z;
  p_pid : option Z;
  p_attempt_token : string;
  p_recovery_claim_token : option string;
  p_recovery_previous_pid : option Z;
  p_recovery_previous_token : option string;
}.

(** A row of [permit_demands]; the key is [holder]. *)
Record DemandRow := {
  d_lane : string;
  d_scope : string;
  d_first_seen_unix : Z;
  d_sequence : Z;
  d_state : string;
  d_updated_unix : Z;
}.

(** The ledger database after [PermitLedger::open]: the singleton row of
    [permit_meta], the keyed tables, and the singleton of
    [scaleset_recovery_claims]. *)
Record LedgerDb := {
  max_jobs_column : option Z;
  generation_column : Z;
  reconciled_generation_column : Z;
  permits : gmap string PermitRow;
  permit_demands : gmap string DemandRow;
  permit_token_migrations : gmap string (string * Z);
  scaleset_recovery_claims : option (string * Z);
  recorded_terminal_cleanup_releases : gset (string * string);
}.

(** The seed [open] inserts: no capacity, generation 0, never reconciled. *)
Definition empty_ledger : LedgerDb := {|
  max_jobs_column := None;
  generation_column := 0;
  reconciled_generation_column := -1;
  permits := ∅;
  permit_demands := ∅;
  permit_token_migrations := ∅;
  scaleset_recovery_claims := None;
  recorded_terminal_cleanup_releases := ∅;
|}.

(** What one call reads from outside the database: [unix_now()],
    [std::process::id()] and [Uuid::new_v4()]. *)
Record Env := {
  unix_now : Z;
  process_id : Z;
  new_uuid : string;
}.

(** ** Column updates *)

Definition set_max_jobs_column (v : option Z) (db : LedgerDb) : LedgerDb := {|
  max_jobs_column := v;
  generation_column := generation_column db;
  reconciled_generation_column := reconciled_generation_column db;
  permits := permits db;
  permit_demands := permit_demands db;
  permit_token_migrations := permit_token_migrations db;
  scaleset_recovery_claims := scaleset_recovery_claims db;
  recorded_terminal_cleanup_releases := recorded_terminal_cleanup_releases db;
|}.

Definition set_generation_column (v : Z) (db : LedgerDb) : LedgerDb := {|
  max_jobs_column := max_jobs_column db;
  generation_column := v;
  reconciled_generation_column := reconciled_generation_column db;
  permits := permits db;
  permit_demands := permit_demands db;
  permit_token_migrations := permit_token_migrations db;
  scaleset_recovery_claims := scaleset_recovery_claims db;
  recorded_terminal_cleanup_releases := recorded_terminal_cleanup_releases db;
|}.

Definition set_reconciled_column (v : Z) (db : LedgerDb) : LedgerDb := {|
  max_jobs_column := max_jobs_column db;
  generation_column := generation_column db;
  reconciled_generation_column := v;
  permits := permits db;
  permit_demands := permit_demands db;
  permit_token_migrations := permit_token_migrations db;
  scaleset_recovery_claims := scaleset_recovery_claims db;
  recorded_terminal_cleanup_releases := recorded_terminal_cleanup_releases db;
|}.

Definition set_permits (v : gmap string PermitRow) (db : LedgerDb) : LedgerDb := {|
  max_jobs_column := max_jobs_column db;
  generation_column := generation_column db;
  reconciled_generation_column := reconciled_generation_column db;
  permits := v;
  permit_demands := permit_demands db;
  permit_token_migrations := permit_token_migrations db;
  scaleset_recovery_claims := scaleset_recovery_claims db;
  recorded_terminal_cleanup_releases := recorded_terminal_cleanup_releases db;
|}.

Definition set_demands (v : gmap string DemandRow) (db : LedgerDb) : LedgerDb := {|
  max_jobs_column := max_jobs_column db;
  generation_column := generation_column db;
  reconciled_generation_column := reconciled_generation_column db;
  permits := permits db;
  permit_demands := v;
  permit_token_migrations := permit_token_migrations db;
  scaleset_recovery_claims := scaleset_recovery_claims db;
  recorded_terminal_cleanup_releases := recorded_terminal_cleanup_releases db;
|}.

Definition set_claims (v : option (string * Z)) (db : LedgerDb) : LedgerDb := {|
  max_jobs_column := max_jobs_column db;
  generation_column := generation_column db;
  reconciled_generation_column := reconciled_generation_column db;
  permits := permits db;
  permit_demands := permit_demands db;
  permit_token_migrations := permit_token_migrations db;
  scaleset_recovery_claims := v;
  recorded_terminal_cleanup_releases := recorded_terminal_cleanup_releases db;
|}.

Definition set_cleanup_releases (v : gset (string * string)) (db : LedgerDb) : LedgerDb := {|
  max_jobs_column := max_jobs_column db;
  generation_column := generation_column db;
  reconciled_generation_column := reconciled_generation_column db;
  permits := permits db;
  permit_demands := permit_demands db;
  permit_token_migrations := permit_token_migrations db;
  scaleset_recovery_claims := scaleset_recovery_claims db;
  recorded_terminal_cleanup_releases := v;
|}.

(** [SET state = s, updated_unix = t] and [SET updated_unix = t] on a demand row. *)
Definition demand_set_state (s : string) (t : Z) (d : DemandRow) : DemandRow := {|
  d_lane := d_lane d;
  d_scope := d_scope d;
  d_first_seen_unix := d_first_seen_unix d;
  d_sequence := d_sequence d;
  d_state := s;
  d_updated_unix := t;
|}.

Definition demand_touch (t : Z) (d : DemandRow) : DemandRow := demand_set_state (d_state d) t d.

(** [SET state = s, updated_unix = t, generation = g]. *)
Definition permit_set_state (s : string) (t g : Z) (p : PermitRow) : PermitRow := {|
  p_lane := p_lane p;
  p_state := s;
  p_acquired_unix := p_acquired_unix p;
  p_updated_unix := t;
  p_generation := g;
  p_pid := p_pid p;
  p_attempt_token := p_attempt_token p;
  p_recovery_claim_token := p_recovery_claim_token p;
  p_recovery_previous_pid := p_recovery_previous_pid p;
  p_recovery_previous_token := p_recovery_previous_token p;
|}.

(** [SET state = s, updated_unix = t, generation = g, pid = pid]. *)
Definition permit_set_owner (s : string) (t g : Z) (pid : Z) (p : PermitRow) : PermitRow := {|
  p_lane := p_lane p;
  p_state := s;
  p_acquired_unix := p_acquired_unix p;
  p_updated_unix := t;
  p_generation := g;
  p_pid := Some pid;
  p_attempt_token := p_attempt_token p;
  p_recovery_claim_token := p_recovery_claim_token p;
  p_recovery_previous_pid := p_recovery_previous_pid p;
  p_recovery_previous_token := p_recovery_previous_token p;
|}.

(** [SET state, updated_unix, generation, pid, attempt_token] and the three
    recovery columns. *)
Definition permit_set_attempt (s : string) (t g pid : Z) (token : string)
    (claim : option string) (prev_pid : option Z) (prev_token : option string) (p : PermitRow) : PermitRow := {|
  p_lane := p_lane p;
  p_state := s;
  p_acquired_unix := p_acquired_unix p;
  p_updated_unix := t;
  p_generation := g;
  p_pid := Some pid;
  p_attempt_token := token;
  p_recovery_claim_token := claim;
  p_recovery_previous_pid := prev_pid;
  p_recovery_previous_token := prev_token;
|}.

(** ** Statements

    Each operation runs inside one immediate transaction [ltx R A]: [R] is
    what the operation returns, [A] what the statement yields. *)

Abbreviation ltx R A := (tx LedgerDb LedgerError R A).

Section Statements.
Context {R : Type}.

(** [SELECT .. FROM permits WHERE holder = ?]. *)
Definition select_permit (holder : string) : ltx R (option PermitRow) :=
  fun db => Go (permits db !! holder) db.

(** Another row already carries this token: the unique index
    [idx_permits_attempt_token] would reject the write. *)
Definition token_taken (db : LedgerDb) (holder token : string) : Prop :=
  map_Exists (fun h p => h ≠ holder ∧ p_attempt_token p = token) (permits db).
#[global] Instance token_taken_dec db holder token : Decision (token_taken db holder token).
Proof. unfold token_taken. apply _. Defined.

(** [UPDATE permits SET .. WHERE holder = ? AND cond]: the number of changed
    rows; the statement fails when the new token collides. *)
Definition update_permit (holder : string) (cond : PermitRow -> Prop)
    `{forall p, Decision (cond p)} (f : PermitRow -> PermitRow) : ltx R Z :=
  fun db =>
    match permits db !! holder with
    | Some p =>
        if decide (cond p) then
          if decide (token_taken db holder (p_attempt_token (f p)))
          then Throw (Storage ConstraintViolation)
          else Go 1 (set_permits (<[holder := f p]> (permits db)) db)
        else Go 0 db
    | None => Go 0 db
    end.

(** [INSERT INTO permits ..]: primary key and unique token. *)
Definition insert_permit (holder : string) (p : PermitRow) : ltx R unit :=
  fun db =>
    match permits db !! holder with
    | Some _ => Throw (Storage ConstraintViolation)
    | None =>
        if decide (token_taken db holder (p_attempt_token p))
        then Throw (Storage ConstraintViolation)
        else Go tt (set_permits (<[holder := p]> (permits db)) db)
    end.

(** [DELETE FROM permits WHERE holder = ? AND attempt_token = ?]. *)
Definition delete_permit (holder token : string) : ltx R Z :=
  fun db =>
    match permits db !! holder with
    | Some p =>
        if decide (p_attempt_token p = token)
        then Go 1 (set_permits (delete holder (permits db)) db)
        else Go 0 db
    | None => Go 0 db
    end.

(** [UPDATE permit_demands SET .. WHERE holder = ? AND cond]. *)
Definition update_demand (holder : string) (cond : DemandRow -> Prop)
    `{forall d, Decision (cond d)} (f : DemandRow -> DemandRow) : ltx R Z :=
  fun db =>
    match permit_demands db !! holder with
    | Some d =>
        if decide (cond d)
        then Go 1 (set_demands (<[holder := f d]> (permit_demands db)) db)
        else Go 0 db
    | None => Go 0 db
    end.

(** [SELECT COALESCE(MAX(sequence), 0) + 1 FROM permit_demands]; SQLite
    answers an overflowing sum with a [REAL], which is not an [i64]. *)
Definition max_sequence (db : LedgerDb) : option Z :=
  map_fold (fun _ d acc =>
    Some (match acc with Some m => Z.max m (d_sequence d) | None => d_sequence d end))
    None (permit_demands db).

Definition next_sequence : ltx R Z :=
  fun db =>
    let next := default 0 (max_sequence db) + 1 in
    if decide (next <= i64_max) then Go next db else Throw (Storage InvalidColumnType).

(** [INSERT INTO permit_demands ..]: primary key and unique sequence. *)
Definition sequence_taken (db : LedgerDb) (sequence : Z) : Prop :=
  map_Exists (fun _ d => d_sequence d = sequence) (permit_demands db).
#[global] Instance sequence_taken_dec db s : Decision (sequence_taken db s).
Proof. unfold sequence_taken. apply _. Defined.

Definition insert_demand (holder : string) (d : DemandRow) : ltx R unit :=
  fun db =>
    match permit_demands db !! holder with
    | Some _ => Throw (Storage ConstraintViolation)
    | None =>
        if decide (sequence_taken db (d_sequence d))
        then Throw (Storage ConstraintViolation)
        else Go tt (set_demands (<[holder := d]> (permit_demands db)) db)
    end.

(** ** Row readers *)

Definition parse_demand (holder : string) (d : DemandRow) : result PermitDemand LedgerError :=
  match PermitLane_parse (d_lane d) with
  | None => Err (UnknownLane (d_lane d))
  | Some lane =>
      match DemandState_parse (d_state d) with
      | None => Err (UnknownDemandState (d_state d))
      | Some state => Ok {|
          pd_holder := holder;
          pd_lane := lane;
          pd_scope := d_scope d;
          pd_first_seen_unix := u64_of_i64 (d_first_seen_unix d);
          pd_sequence := d_sequence d;
          pd_state := state;
          pd_updated_unix := u64_of_i64 (d_updated_unix d);
        |}
      end
  end.

Definition read_demand (holder : string) : ltx R (option PermitDemand) :=
  fun db =>
    match permit_demands db !! holder with
    | None => Go None db
    | Some d => match parse_demand holder d with
                | Ok demand => Go (Some demand) db
                | Err e => Throw e
                end
    end.

Definition read_owned_attempt_state (holder attempt_token : string) : ltx R string :=
  fun db =>
    match permits db !! holder with
    | Some p =>
        if decide (p_attempt_token p = attempt_token) then Go (p_state p) db
        else Throw (StaleAttempt holder)
    | None =>
        match permit_demands db !! holder with
        | Some _ => Throw (StaleAttempt holder)
        | None => Throw (UnknownHolder holder)
        end
    end.

Definition check_demand_lane (holder : string) (demand : PermitDemand) (lane : PermitLane)
    : ltx R unit :=
  if decide (pd_lane demand = lane) then tx_ret tt
  else throw (DemandLaneMismatch holder lane (PermitLane_as_str (pd_lane demand))).

Definition ensure_demand_tx (holder : string) (lane : PermitLane) (scope : string)
    (first_seen_unix updated_unix : Z) (initial_state : DemandState) : ltx R PermitDemand :=
  let* existing := read_demand holder in
  match existing with
  | Some demand => check_demand_lane holder demand lane;;; tx_ret demand
  | None =>
      let* sequence := next_sequence in
      insert_demand holder {|
        d_lane := PermitLane_as_str lane;
        d_scope := scope;
        d_first_seen_unix := i64_clamp first_seen_unix;
        d_sequence := sequence;
        d_state := DemandState_as_str initial_state;
        d_updated_unix := i64_clamp updated_unix;
      |};;;
      tx_ret {|
        pd_holder := holder;
        pd_lane := lane;
        pd_scope := scope;
        pd_first_seen_unix := first_seen_unix;
        pd_sequence := sequence;
        pd_state := initial_state;
        pd_updated_unix := updated_unix;
      |}
  end.

End Statements.
