(* ===== verification/LedgerOps.v ===== *)
(** * Permit ledger: operations

    One definition per method of [PermitLedger] and of
    [ScaleSetRecoveryClaim] in [crates/velnor-control/src/permit_ledger.rs]
    (reconciliation is in its own file). A mutation is the body of its
    immediate transaction; [run_tx] runs it on a database. A call's clock,
    process id and fresh UUID are the [Env] argument, and the caller's
    [is_alive] probe is an argument as in the source. *)

From S2P Require Import Prelude LedgerData.
From stdpp Require Import base gmap sets list strings sorting.
#[local] Open Scope Z_scope.
#[local] Open Scope tx_scope.

(** A lane column that is not the expected lane. *)
Definition lane_mismatch {R} (holder : string) (expected : PermitLane) (p : PermitRow)
    : ltx R unit :=
  when (p_lane p ≠ PermitLane_as_str expected)
    (throw (DemandLaneMismatch holder expected (p_lane p))).

(** ** Reads *)

Definition max_jobs (db : LedgerDb) : option Z :=
  match max_jobs_column db with
  | Some max => u32_try_from max
  | None => None
  end.

Definition generation (db : LedgerDb) : Z := u64_of_i64 (generation_column db).

Definition reconciled (db : LedgerDb) : bool :=
  bool_decide (generation_column db = reconciled_generation_column db).

(** [SELECT COUNT] of [permits], as a [u32] with its saturation. *)
Definition count_u32 (count : nat) : Z :=
  match u32_try_from (Z.of_nat count) with Some n => n | None => u32_max end.

Definition occupied (db : LedgerDb) : Z := count_u32 (size (permits db)).

Definition occupied_by_lane (lane : PermitLane) (db : LedgerDb) : Z :=
  count_u32 (size (filter (fun kv : string * PermitRow => p_lane kv.2 = PermitLane_as_str lane) (permits db))).

Definition occupied_in_state (state : PermitState) (db : LedgerDb) : Z :=
  count_u32 (size (filter (fun kv : string * PermitRow => p_state kv.2 = PermitState_as_str state) (permits db))).

Definition advertised_free (db : LedgerDb) : option Z :=
  if negb (reconciled db) then None
  else match max_jobs db with
       | None => None
       | Some max => Some (u32_saturating_sub max (occupied db))
       end.

(** One row of [PermitLedger::holders]. *)
Definition parse_holder (holder : string) (p : PermitRow) : result PermitHolder LedgerError :=
  match PermitLane_parse (p_lane p) with
  | None => Err (UnknownLane (p_lane p))
  | Some lane =>
      match PermitState_parse (p_state p) with
      | None => Err (UnknownState (p_state p))
      | Some state => Ok {|
          ph_holder := holder;
          ph_lane := lane;
          ph_state := state;
          ph_acquired_unix := u64_of_i64 (p_acquired_unix p);
          ph_updated_unix := u64_of_i64 (p_updated_unix p);
          ph_generation := u64_of_i64 (p_generation p);
          ph_pid := match p_pid p with Some pid => u32_try_from pid | None => None end;
        |}
      end
  end.

(** The byte order of [TEXT] columns and of Rust strings. *)
Definition string_le (a b : string) : Prop := String.leb a b = true.
#[export] Instance string_le_dec : RelDecision string_le.
Proof. intros a b. unfold string_le. apply _. Defined.

(** [ORDER BY holder]. *)
Definition holder_le (a b : string * PermitRow) : Prop := string_le a.1 b.1.
#[export] Instance holder_le_dec : RelDecision holder_le.
Proof. intros a b. unfold holder_le. apply _. Defined.

Fixpoint collect_holders (rows : list (string * PermitRow)) : result (list PermitHolder) LedgerError :=
  match rows with
  | [] => Ok []
  | (holder, p) :: rows =>
      match parse_holder holder p with
      | Err e => Err e
      | Ok h => match collect_holders rows with
                | Err e => Err e
                | Ok hs => Ok (h :: hs)
                end
      end
  end.

Definition holders (db : LedgerDb) : result (list PermitHolder) LedgerError :=
  collect_holders (merge_sort holder_le (map_to_list (permits db))).

Definition has_permit (holder : string) (db : LedgerDb) : bool :=
  bool_decide (is_Some (permits db !! holder)).

Definition is_current_attempt (holder attempt_token : string) (db : LedgerDb) : bool :=
  match permits db !! holder with
  | Some p => bool_decide (p_attempt_token p = attempt_token)
  | None => false
  end.

Definition demand (holder : string) (db : LedgerDb) : result (option PermitDemand) LedgerError :=
  match permit_demands db !! holder with
  | None => Ok None
  | Some d => match parse_demand holder d with Ok x => Ok (Some x) | Err e => Err e end
  end.

Definition holder_state (holder : string) (db : LedgerDb) : result (option PermitState) LedgerError :=
  match permits db !! holder with
  | None => Ok None
  | Some p => match PermitState_parse (p_state p) with
              | Some s => Ok (Some s)
              | None => Err (UnknownState (p_state p))
              end
  end.

(** ** Capacity and epochs *)

Definition set_max_jobs (max_jobs : Z) (db : LedgerDb) : LedgerDb :=
  set_max_jobs_column (Some max_jobs) db.

Definition set_max_jobs_if_unset (max_jobs : Z) : ltx bool Empty_set :=
  let* db := get in
  let adopted := bool_decide (max_jobs_column db = None) in
  when (adopted = true) (modify (set_max_jobs_column (Some max_jobs)));;;
  commit adopted.

Definition begin_epoch : ltx Z Empty_set :=
  let* db := get in
  let next := i64_saturating_add (generation_column db) 1 in
  modify (set_generation_column next);;;
  commit (u64_of_i64 next).

(** ** Demand *)

Definition observe_demand (holder : string) (lane : PermitLane) (scope : string)
    (first_seen_unix observed_unix : Z) : ltx PermitDemand Empty_set :=
  let* held := select_permit holder in
  match held with Some p => lane_mismatch holder lane p | None => tx_ret tt end;;;
  let initial_state := match held with Some _ => Granted | None => Eligible end in
  let* existing :=
    ensure_demand_tx holder lane scope first_seen_unix observed_unix initial_state in
  match pd_state existing with
  | Waiting =>
      update_demand holder (fun _ => True)
        (demand_set_state (DemandState_as_str Eligible) (i64_clamp observed_unix));;;
      tx_ret tt
  | Eligible | Granted =>
      update_demand holder (fun _ => True) (demand_touch (i64_clamp observed_unix));;;
      tx_ret tt
  | Terminal | Cancelled => tx_ret tt
  end;;;
  let* read := read_demand holder in
  match read with
  | Some d => commit d
  | None => throw (UnknownHolder holder)
  end.

Definition park_demand (env : Env) (holder : string) : ltx bool Empty_set :=
  let* changed :=
    update_demand holder (fun d => d_state d = DemandState_as_str Eligible)
      (demand_set_state (DemandState_as_str LedgerData.Waiting) (i64_wrap (unix_now env))) in
  commit (bool_decide (0 < changed)).

Definition cancel_demand (env : Env) (holder : string) : ltx bool Empty_set :=
  let* db := get in
  let* changed :=
    update_demand holder
      (fun d => (d_state d = DemandState_as_str Eligible ∨
                 d_state d = DemandState_as_str LedgerData.Waiting)
                ∧ permits db !! holder = None)
      (demand_set_state (DemandState_as_str Cancelled) (i64_wrap (unix_now env))) in
  commit (bool_decide (0 < changed)).

(** ** Acquisition *)

(** [ORDER BY first_seen_unix, sequence]. *)
Definition older (a b : DemandRow) : Prop :=
  d_first_seen_unix a < d_first_seen_unix b ∨
  (d_first_seen_unix a = d_first_seen_unix b ∧ d_sequence a < d_sequence b).
#[export] Instance older_dec a b : Decision (older a b).
Proof. unfold older. apply _. Defined.

(** [WHERE state = 'eligible' AND updated_unix > fresh_after]. *)
Definition fresh_eligible (fresh_after : Z) (d : DemandRow) : Prop :=
  d_state d = DemandState_as_str Eligible ∧ fresh_after < d_updated_unix d.
#[export] Instance fresh_eligible_dec t d : Decision (fresh_eligible t d).
Proof. unfold fresh_eligible. apply _. Defined.

(** The head of the queue: the first row of that query, if any. *)
Definition oldest_eligible (fresh_after : Z) (demands : gmap string DemandRow)
    : option (string * DemandRow) :=
  map_fold (fun h d acc =>
    if decide (fresh_eligible fresh_after d) then
      match acc with
      | Some (h', d') => if decide (older d d') then Some (h, d) else Some (h', d')
      | None => Some (h, d)
      end
    else acc) None demands.

(** The first part of [acquire_attempt_with_token]: a holder that already
    has a permit. A staged replay of the same token and state is recognised;
    any other duplicate is refused without touching a row. *)
Definition acquire_held (holder : string) (lane : PermitLane) (state : PermitState)
    (staged_attempt_token : option string) (p : PermitRow) : ltx AcquireAttemptOutcome Empty_set :=
  lane_mismatch holder lane p;;;
  if decide (staged_attempt_token = Some (p_attempt_token p) ∧ p_state p = PermitState_as_str state)
  then
    let* read := read_demand holder in
    match read with
    | None => throw (UnknownHolder holder)
    | Some d =>
        check_demand_lane holder d lane;;;
        if decide (pd_state d ≠ Granted) then rollback AlreadyHeld
        else commit (AttemptAcquired (p_attempt_token p))
    end
  else commit AlreadyHeld.

(** A returning demand joins the queue again at its original age. *)
Definition requeue_demand {R} (holder : string) (now : Z) (d : PermitDemand) : ltx R unit :=
  match pd_state d with
  | Granted | LedgerData.Waiting =>
      update_demand holder (fun _ => True)
        (demand_set_state (DemandState_as_str Eligible) (i64_clamp now));;;
      tx_ret tt
  | _ => update_demand holder (fun _ => True) (demand_touch (i64_clamp now));;; tx_ret tt
  end.

(** The grant: one permit row, and the demand turned to granted. *)
Definition grant_permit {R} (env : Env) (holder : string) (lane : PermitLane)
    (state : PermitState) (generation : Z) (pid : option Z) (attempt_token : string) : ltx R unit :=
  let now := i64_clamp (unix_now env) in
  insert_permit holder {|
    p_lane := PermitLane_as_str lane;
    p_state := PermitState_as_str state;
    p_acquired_unix := now;
    p_updated_unix := now;
    p_generation := i64_clamp generation;
    p_pid := pid;
    p_attempt_token := attempt_token;
    p_recovery_claim_token := None;
    p_recovery_previous_pid := None;
    p_recovery_previous_token := None;
  |};;;
  update_demand holder (fun _ => True) (demand_set_state (DemandState_as_str Granted) now);;;
  tx_ret tt.

Definition acquire_attempt_with_token (env : Env) (holder : string) (lane : PermitLane)
    (state : PermitState) (generation : Z) (pid : option Z)
    (staged_attempt_token : option string) : ltx AcquireAttemptOutcome Empty_set :=
  let* db := get in
  if decide (u64_of_i64 (generation_column db) ≠ generation) then rollback AcquireStaleGeneration
  else
  let now := unix_now env in
  let* held := select_permit holder in
  match held with
  | Some p => acquire_held holder lane state staged_attempt_token p
  | None =>
      match max_jobs db with
      | None => rollback NotConfigured
      | Some max =>
          let* d := ensure_demand_tx holder lane "" now now Eligible in
          if decide (pd_state d = Terminal ∨ pd_state d = Cancelled) then rollback Closed
          else
          requeue_demand holder now d;;;
          let* db' := get in
          if decide (max <= Z.of_nat (size (permits db'))) then commit Full
          else
          let fresh_after := u64_saturating_sub now DEMAND_STALE_AFTER_SECS in
          match oldest_eligible (i64_clamp fresh_after) (permit_demands db') with
          | None => throw (Storage QueryReturnedNoRows)
          | Some (oldest, _) =>
              if decide (oldest ≠ holder) then commit Deferred
              else
              let attempt_token := default (new_uuid env) staged_attempt_token in
              grant_permit env holder lane state generation pid attempt_token;;;
              commit (AttemptAcquired attempt_token)
          end
      end
  end.

Definition acquire_attempt (env : Env) (holder : string) (lane : PermitLane)
    (state : PermitState) (generation : Z) (pid : option Z) : ltx AcquireAttemptOutcome Empty_set :=
  acquire_attempt_with_token env holder lane state generation pid None.

Definition acquire_scaleset_attempt_with_token (env : Env) (holder : string)
    (state : PermitState) (generation : Z) (pid : option Z) (attempt_token : string)
    : ltx AcquireAttemptOutcome Empty_set :=
  if decide (attempt_token = "") then throw (StaleAttempt holder)
  else acquire_attempt_with_token env holder ScaleSet state generation pid (Some attempt_token).

(** ** Adoption and recovery *)

(** [SELECT .. FROM permits LEFT JOIN permit_demands USING (holder)]: the
    demand's state column, when the demand exists. *)
Definition joined_demand_state (holder : string) (db : LedgerDb) : option string :=
  match permit_demands db !! holder with Some d => Some (d_state d) | None => None end.

(** An eligible demand of a holder that keeps its permit becomes granted. *)
Definition grant_if_eligible {R} (holder : string) (now : Z) (d : PermitDemand) : ltx R unit :=
  when (pd_state d = Eligible)
    (update_demand holder (fun _ => True) (demand_set_state (DemandState_as_str Granted) now);;;
     tx_ret tt).

Definition adopt_for_redelivery (env : Env) (is_alive : Z -> bool) (holder : string)
    (lane : PermitLane) (state : PermitState) (generation pid : Z) : ltx AdoptOutcome Empty_set :=
  let* db := get in
  if decide (u64_of_i64 (generation_column db) ≠ generation) then rollback AdoptStaleGeneration
  else
  match permits db !! holder with
  | None => rollback AdoptMissing
  | Some row =>
      if decide (p_lane row ≠ PermitLane_as_str lane) then rollback LiveHolder
      else
      match (match p_pid row with Some p => u32_try_from p | None => None end) with
      | None => rollback LiveHolder
      | Some row_pid =>
          let same_process_retained_native_attempt :=
            bool_decide (lane = Native ∧ row_pid = pid
              ∧ p_state row = PermitState_as_str Uncertain
              ∧ joined_demand_state holder db = Some (DemandState_as_str Terminal)) in
          if is_alive row_pid && negb same_process_retained_native_attempt
          then rollback LiveHolder
          else
          let now := unix_now env in
          let attempt_token := new_uuid env in
          update_permit holder (fun _ => True)
            (permit_set_attempt (PermitState_as_str state) (i64_clamp now) (i64_clamp generation)
               pid attempt_token None None None);;;
          let* d := ensure_demand_tx holder lane "" now now Granted in
          grant_if_eligible holder (i64_clamp now) d;;;
          commit (Adopted attempt_token)
      end
  end.

(** A retry after the ledger half of a rotation committed. *)
Definition rotation_already_committed (generation previous_pid : Z)
    (previous_token : option string) (claim_token : string) (row : PermitRow) : bool :=
  bool_decide (p_recovery_claim_token row = Some claim_token
    ∧ p_recovery_previous_pid row = Some previous_pid
    ∧ p_recovery_previous_token row = previous_token
    ∧ u64_try_from (p_generation row) = Some generation).

(** The token the stage names: given, or the one this ledger's migration
    recorded for the holder. *)
Definition previous_token_matches (db : LedgerDb) (holder : string)
    (previous_token : option string) (current_token : string) : bool :=
  match previous_token with
  | Some previous => bool_decide (previous = current_token)
  | None => match permit_token_migrations db !! holder with
            | Some (token, _) => bool_decide (token = current_token)
            | None => false
            end
  end.

Definition rotate_scaleset_attempt_for_recovery (env : Env) (holder : string)
    (state : PermitState) (generation previous_pid : Z) (previous_token : option string)
    (target_token claim_token : string) : ltx AttemptRotationOutcome Empty_set :=
  if decide (target_token = "" ∨ claim_token = "" ∨ previous_pid = 0
             ∨ previous_token = Some "" ∨ previous_token = Some target_token)
  then rollback RotationStaleAttempt
  else
  let* db := get in
  let current_pid := process_id env in
  if decide (scaleset_recovery_claims db ≠ Some (claim_token, current_pid))
  then rollback RotationStaleAttempt
  else
  let current_generation := u64_of_i64 (generation_column db) in
  match permits db !! holder with
  | None => rollback RotationMissing
  | Some row =>
      lane_mismatch holder ScaleSet row;;;
      let current_token := p_attempt_token row in
      if decide (current_token = target_token) then
        if decide (current_generation < generation) then rollback RotationStaleGeneration
        else if rotation_already_committed generation previous_pid previous_token claim_token row
        then commit AlreadyRotated
        else rollback RotationStaleAttempt
      else
      if decide (current_generation ≠ generation) then rollback RotationStaleGeneration
      else
      let current_row_pid := match p_pid row with Some p => u32_try_from p | None => None end in
      if decide (current_token = "" ∨ current_row_pid ≠ Some previous_pid
                 ∨ previous_token_matches db holder previous_token current_token = false)
      then rollback RotationStaleAttempt
      else
      let now := i64_clamp (unix_now env) in
      let* changed :=
        update_permit holder
          (fun p => p_lane p = PermitLane_as_str ScaleSet
                    ∧ p_attempt_token p = current_token ∧ p_pid p = Some previous_pid)
          (permit_set_attempt (PermitState_as_str state) now (i64_clamp generation) current_pid
             target_token (Some claim_token) (Some previous_pid) previous_token) in
      if decide (changed ≠ 1) then rollback RotationStaleAttempt
      else
      let* d := ensure_demand_tx holder ScaleSet "" (u64_of_i64 now) (u64_of_i64 now) Granted in
      grant_if_eligible holder now d;;;
      commit Rotated
  end.

Definition claim_scaleset_recovery (env : Env) (is_alive : Z -> bool)
    : ltx ScaleSetRecoveryClaim Empty_set :=
  let current_pid := process_id env in
  let* db := get in
  match scaleset_recovery_claims db with
  | Some (token, raw_pid) =>
      if decide (token = "") then throw (StaleAttempt "Scale Set recovery claim token")
      else
      match u32_try_from raw_pid with
      | None => throw (StaleAttempt "Scale Set recovery claim owner pid")
      | Some old_pid =>
          if decide (old_pid = 0) then throw (StaleAttempt "Scale Set recovery claim owner pid")
          else if is_alive old_pid then throw (RecoveryClaimed old_pid)
          else
          modify (set_claims (Some (token, current_pid)));;;
          commit {| claim_token := token; owner_pid := current_pid |}
      end
  | None =>
      let token := new_uuid env in
      modify (set_claims (Some (token, current_pid)));;;
      commit {| claim_token := token; owner_pid := current_pid |}
  end.

(** [ScaleSetRecoveryClaim::release]. *)
Definition claim_release (claim : ScaleSetRecoveryClaim) : ltx unit Empty_set :=
  let* db := get in
  if decide (scaleset_recovery_claims db = Some (claim_token claim, owner_pid claim))
  then modify (set_claims None);;; commit tt
  else throw (StaleAttempt "Scale Set recovery claim").

(** ** Transitions and cleanup claims *)

Definition transition_for_attempt (env : Env) (holder : string) (state : PermitState)
    (generation : Z) (attempt_token : string) : ltx unit Empty_set :=
  let* db := get in
  let current := u64_of_i64 (generation_column db) in
  if decide (current ≠ generation) then throw (StaleGeneration current generation)
  else
  let* current_state := read_owned_attempt_state holder attempt_token in
  if decide (current_state = PermitState_as_str Cleaning) then commit tt
  else
  update_permit holder
    (fun p => p_attempt_token p = attempt_token
              ∧ (p_state p ≠ PermitState_as_str Cleaning
                 ∨ PermitState_as_str state = PermitState_as_str Cleaning))
    (permit_set_owner (PermitState_as_str state) (i64_wrap (unix_now env))
       (i64_clamp generation) (process_id env));;;
  commit tt.

Definition transition_owned := transition_for_attempt.

Definition claim_recorded_terminal_cleanup (env : Env) (holder : string) (lane : PermitLane)
    (attempt_token : string) : ltx CleanupClaimOutcome Empty_set :=
  if decide (attempt_token = "") then rollback CleanupStaleAttempt
  else
  let now := unix_now env in
  let* db := get in
  match permits db !! holder with
  | Some p =>
      lane_mismatch holder lane p;;;
      let* read := read_demand holder in
      match read with Some d => check_demand_lane holder d lane | None => tx_ret tt end;;;
      if decide (p_attempt_token p ≠ attempt_token) then commit CleanupStaleAttempt
      else
      update_permit holder (fun p => p_attempt_token p = attempt_token)
        (permit_set_owner (PermitState_as_str Cleaning) (i64_clamp now) (generation_column db)
           (process_id env));;;
      commit Claimed
  | None =>
      let* existing_demand := read_demand holder in
      match existing_demand with Some d => check_demand_lane holder d lane | None => tx_ret tt end;;;
      let demand_state := match existing_demand with Some d => Some (pd_state d) | None => None end in
      let demand_was_closed :=
        bool_decide (demand_state = Some Terminal ∨ demand_state = Some Cancelled) in
      when (lane = Native ∧ demand_was_closed = true ∧ demand_state = Some Cancelled)
        (modify (fun db => set_cleanup_releases
           ({[ (holder, attempt_token) ]} ∪ recorded_terminal_cleanup_releases db) db));;;
      when (demand_was_closed = false)
        (ensure_demand_tx holder lane "" now now Terminal;;;
         update_demand holder (fun _ => True)
           (demand_set_state (DemandState_as_str Terminal) (i64_clamp now));;;
         tx_ret tt);;;
      commit (if demand_was_closed then ClosedAbsent else DemandClosed)
  end.

(** ** Releases *)

Definition forget_cleanup_release {R} (holder attempt_token : string) : ltx R unit :=
  modify (fun db => set_cleanup_releases
    (recorded_terminal_cleanup_releases db ∖ {[ (holder, attempt_token) ]}) db).

Definition release_with_demand_state (env : Env) (holder : string)
    (next_demand_state : DemandState) (attempt_token : string) : ltx bool Empty_set :=
  let now := i64_clamp (unix_now env) in
  let* removed := delete_permit holder attempt_token in
  if decide (removed = 0) then commit false
  else
  match next_demand_state with
  | Terminal | Cancelled =>
      update_demand holder (fun _ => True)
        (demand_set_state (DemandState_as_str next_demand_state) now);;;
      tx_ret tt
  | Eligible =>
      update_demand holder
        (fun d => d_state d = DemandState_as_str Eligible ∨ d_state d = DemandState_as_str Granted)
        (demand_set_state (DemandState_as_str Eligible) now);;;
      tx_ret tt
  | Granted | LedgerData.Waiting => tx_ret tt
  end;;;
  commit (bool_decide (0 < removed)).

Definition release_owned (env : Env) (holder attempt_token : string) : ltx bool Empty_set :=
  release_with_demand_state env holder Terminal attempt_token.

Definition release_to_eligible_owned (env : Env) (holder attempt_token : string)
    : ltx bool Empty_set :=
  release_with_demand_state env holder Eligible attempt_token.

Definition release_cancelled_owned (env : Env) (holder attempt_token : string)
    : ltx bool Empty_set :=
  release_with_demand_state env holder Cancelled attempt_token.

(** The absent-row branch of a Native release: the demand decides whether the
    same release already happened. *)
Definition native_release_absent (holder attempt_token : string)
    (next_demand_state : DemandState) : ltx OwnedReleaseOutcome Empty_set :=
  let* read := read_demand holder in
  match read with
  | None => forget_cleanup_release holder attempt_token;;; commit ReleaseStaleAttempt
  | Some d =>
      check_demand_lane holder d Native;;;
      let* db := get in
      let recorded_cancelled_cleanup :=
        bool_decide (next_demand_state = Terminal ∧ pd_state d = Cancelled
          ∧ (holder, attempt_token) ∈ recorded_terminal_cleanup_releases db) in
      let outcome :=
        if decide (pd_state d = next_demand_state ∨ recorded_cancelled_cleanup = true)
        then AlreadyAbsent else ReleaseStaleAttempt in
      forget_cleanup_release holder attempt_token;;;
      commit outcome
  end.

Definition release_native_owned_with_terminal_demand (env : Env) (holder attempt_token : string)
    (next_demand_state : DemandState) : ltx OwnedReleaseOutcome Empty_set :=
  let* current := select_permit holder in
  match current with
  | None => native_release_absent holder attempt_token next_demand_state
  | Some p =>
      lane_mismatch holder Native p;;;
      if decide (p_attempt_token p ≠ attempt_token) then
        forget_cleanup_release holder attempt_token;;; commit ReleaseStaleAttempt
      else
      let now := unix_now env in
      ensure_demand_tx holder Native "" now now next_demand_state;;;
      delete_permit holder attempt_token;;;
      update_demand holder (fun _ => True)
        (demand_set_state (DemandState_as_str next_demand_state) (i64_clamp now));;;
      forget_cleanup_release holder attempt_token;;;
      commit Released
  end.

Definition release_native_terminal_owned (env : Env) (holder attempt_token : string)
    : ltx OwnedReleaseOutcome Empty_set :=
  release_native_owned_with_terminal_demand env holder attempt_token Terminal.

Definition release_native_cancelled_owned (env : Env) (holder attempt_token : string)
    : ltx OwnedReleaseOutcome Empty_set :=
  release_native_owned_with_terminal_demand env holder attempt_token Cancelled.

Definition release_scaleset_staged_owned (env : Env) (holder attempt_token : string)
    (next_demand_state : DemandState) : ltx OwnedReleaseOutcome Empty_set :=
  if decide (attempt_token = "" ∨ next_demand_state = Granted
             ∨ next_demand_state = LedgerData.Waiting)
  then rollback ReleaseStaleAttempt
  else
  let now := i64_clamp (unix_now env) in
  let* current := select_permit holder in
  match current with
  | None =>
      let* read := read_demand holder in
      match read with
      | None => commit ReleaseStaleAttempt
      | Some d =>
          check_demand_lane holder d ScaleSet;;;
          if decide (pd_state d = next_demand_state) then commit AlreadyAbsent
          else commit ReleaseStaleAttempt
      end
  | Some p =>
      lane_mismatch holder ScaleSet p;;;
      if decide (p_attempt_token p ≠ attempt_token) then commit ReleaseStaleAttempt
      else
      let* read := read_demand holder in
      match read with
      | None => throw (UnknownHolder holder)
      | Some d =>
          check_demand_lane holder d ScaleSet;;;
          if decide (next_demand_state = Eligible
                     ∧ pd_state d ≠ Eligible ∧ pd_state d ≠ Granted)
          then commit ReleaseStaleAttempt
          else
          delete_permit holder attempt_token;;;
          match next_demand_state with
          | Terminal | Cancelled | Eligible =>
              update_demand holder (fun _ => True)
                (demand_set_state (DemandState_as_str next_demand_state) now);;;
              commit Released
          | Granted | LedgerData.Waiting => rollback ReleaseStaleAttempt
          end
      end
  end.

(** ** Uncertain retention *)

Definition close_open_demand {R} (holder : string) (now : Z) : ltx R unit :=
  update_demand holder
    (fun d => d_state d = DemandState_as_str Eligible ∨ d_state d = DemandState_as_str Granted)
    (demand_set_state (DemandState_as_str Terminal) now);;;
  tx_ret tt.

Definition retain_uncertain_for_attempt (env : Env) (holder : string) (generation : Z)
    (attempt_token : string) : ltx unit Empty_set :=
  let* db := get in
  let current := u64_of_i64 (generation_column db) in
  if decide (current ≠ generation) then throw (StaleGeneration current generation)
  else
  let* current_state := read_owned_attempt_state holder attempt_token in
  if decide (current_state = PermitState_as_str Cleaning) then commit tt
  else
  let now := i64_clamp (unix_now env) in
  update_permit holder
    (fun p => p_attempt_token p = attempt_token ∧ p_state p ≠ PermitState_as_str Cleaning)
    (permit_set_state (PermitState_as_str Uncertain) now (i64_clamp generation));;;
  close_open_demand holder now;;;
  commit tt.

Definition retain_uncertain_owned := retain_uncertain_for_attempt.

Definition retain_recorded_failure_uncertain_owned (env : Env) (holder : string)
    (generation : Z) (attempt_token : string) : ltx unit Empty_set :=
  let* db := get in
  let current := u64_of_i64 (generation_column db) in
  if decide (current ≠ generation) then throw (StaleGeneration current generation)
  else
  read_owned_attempt_state holder attempt_token;;;
  let now := i64_clamp (unix_now env) in
  update_permit holder (fun p => p_attempt_token p = attempt_token)
    (permit_set_state (PermitState_as_str Uncertain) now (i64_clamp generation));;;
  close_open_demand holder now;;;
  commit tt.

Definition retain_uncertain_after_cleanup_owned (env : Env) (holder attempt_token : string)
    : ltx unit Empty_set :=
  if decide (attempt_token = "") then throw (StaleAttempt holder)
  else
  let* db := get in
  match permits db !! holder with
  | None => throw (StaleAttempt holder)
  | Some p =>
      lane_mismatch holder Native p;;;
      if decide (p_attempt_token p ≠ attempt_token) then throw (StaleAttempt holder)
      else
      let now := unix_now env in
      update_permit holder (fun p => p_attempt_token p = attempt_token)
        (permit_set_owner (PermitState_as_str Uncertain) (i64_clamp now) (generation_column db)
           (process_id env));;;
      ensure_demand_tx holder Native "" now now Granted;;;
      update_demand holder (fun d => d_state d ≠ DemandState_as_str Cancelled)
        (demand_set_state (DemandState_as_str Terminal) (i64_clamp now));;;
      commit tt
  end.
