(* ===== verification/LedgerReconcile.v ===== *)
(** * Permit ledger: reconciliation

    [reconcile_attempts] and its staged variants of
    [crates/velnor-control/src/permit_ledger.rs]: the caller's attested live
    set and the durable Scale Set stages are checked one by one, and every
    permit nobody attested is marked uncertain. One definition per loop of
    the source; [fold_obs] is the [for] loop with its [continue] and early
    return. *)

From S2P Require Import Prelude LedgerData LedgerOps.
From stdpp Require Import base gmap sets list strings sorting.
#[local] Open Scope Z_scope.
#[local] Open Scope tx_scope.

Abbreviation rtx A := (ltx ReconcileReport A).

(** Loop state: the [observed_holders] set and the [confirmed] list, newest
    first (the source sorts it at the end). *)
Record Obs := { observed_holders : gset string; obs_confirmed : list string }.

Definition obs_see (holder : string) (o : Obs) : Obs :=
  {| observed_holders := {[ holder ]} ∪ observed_holders o; obs_confirmed := obs_confirmed o |}.
Definition obs_confirm (holder : string) (o : Obs) : Obs :=
  {| observed_holders := {[ holder ]} ∪ observed_holders o;
     obs_confirmed := holder :: obs_confirmed o |}.

Fixpoint fold_obs {X} (body : X -> Obs -> rtx Obs) (xs : list X) (o : Obs) : rtx Obs :=
  match xs with
  | [] => tx_ret o
  | x :: xs => let* o' := body x o in fold_obs body xs o'
  end.

(** [for (holder, lane, attempt_token) in alive]. *)
Definition check_alive (now : Z) (x : string * PermitLane * string) (o : Obs) : rtx Obs :=
  let '(holder, lane, attempt_token) := x in
  if decide (attempt_token = "" ∨ holder ∈ observed_holders o) then throw (StaleAttempt holder)
  else
  let* held := select_permit holder in
  match held with
  | None => throw (StaleAttempt holder)
  | Some p =>
      lane_mismatch holder lane p;;;
      if decide (p_attempt_token p ≠ attempt_token) then throw (StaleAttempt holder)
      else
      let* d := ensure_demand_tx holder lane "" (u64_of_i64 now) (u64_of_i64 now) Granted in
      grant_if_eligible holder now d;;;
      tx_ret (obs_confirm holder o)
  end.

(** The row a staged rotation may meet: the previous token before the ledger
    half committed, or the target with the recorded proof after it. *)
Definition rotation_stage_matches (db : LedgerDb) (holder : string)
    (previous_token : option string) (target_token : string) (p : PermitRow) : bool :=
  let completed_rotation_matches :=
    match p_recovery_claim_token p with Some t => bool_decide (t ≠ "") | None => false end
    && match p_recovery_previous_pid p with Some pid => bool_decide (0 < pid) | None => false end
    && bool_decide (p_recovery_previous_token p = previous_token) in
  if decide (previous_token = Some (p_attempt_token p)) then true
  else if decide (p_attempt_token p = target_token) then completed_rotation_matches
  else match previous_token with
       | None => match permit_token_migrations db !! holder with
                 | Some (token, _) => bool_decide (token = p_attempt_token p)
                 | None => false
                 end
       | Some _ => false
       end.

(** [for (holder, lane, previous_token, target_token) in staged_rotations]. *)
Definition check_staged_rotation (now : Z)
    (x : string * PermitLane * option string * string) (o : Obs) : rtx Obs :=
  let '(holder, lane, previous_token, target_token) := x in
  if decide (lane ≠ ScaleSet ∨ target_token = "" ∨ previous_token = Some ""
             ∨ previous_token = Some target_token ∨ holder ∈ observed_holders o)
  then throw (StaleAttempt holder)
  else
  let* db := get in
  match permits db !! holder with
  | None => throw (StaleAttempt holder)
  | Some p =>
      lane_mismatch holder ScaleSet p;;;
      if decide (p_attempt_token p = ""
                 ∨ rotation_stage_matches db holder previous_token target_token p = false)
      then throw (StaleAttempt holder)
      else
      let* d := ensure_demand_tx holder ScaleSet "" (u64_of_i64 now) (u64_of_i64 now) Granted in
      grant_if_eligible holder now d;;;
      tx_ret (obs_confirm holder o)
  end.

(** [for (holder, lane, attempt_token, target_demand_state) in staged_releases]. *)
Definition check_staged_release (x : string * PermitLane * string * DemandState) (o : Obs)
    : rtx Obs :=
  let '(holder, lane, attempt_token, target_demand_state) := x in
  if decide (lane ≠ ScaleSet)
  then throw (DemandLaneMismatch holder ScaleSet (PermitLane_as_str lane))
  else if decide (target_demand_state = Granted ∨ target_demand_state = LedgerData.Waiting
                  ∨ attempt_token = "" ∨ holder ∈ observed_holders o)
  then throw (StaleAttempt holder)
  else
  let* db := get in
  match permits db !! holder with
  | None =>
      match permit_demands db !! holder with
      | None => throw (StaleAttempt holder)
      | Some d =>
          if decide (d_lane d ≠ PermitLane_as_str lane)
          then throw (DemandLaneMismatch holder lane (d_lane d))
          else if decide (DemandState_parse (d_state d) ≠ Some target_demand_state)
          then throw (StaleAttempt holder)
          else tx_ret (obs_see holder o)
      end
  | Some p =>
      lane_mismatch holder ScaleSet p;;;
      if decide (p_attempt_token p ≠ attempt_token) then throw (StaleAttempt holder)
      else tx_ret (obs_confirm holder o)
  end.

(** [for (holder, lane, attempt_token) in staged_acquisitions]. *)
Definition check_staged_acquisition (x : string * PermitLane * string) (o : Obs) : rtx Obs :=
  let '(holder, lane, attempt_token) := x in
  if decide (lane ≠ ScaleSet ∨ attempt_token = "" ∨ holder ∈ observed_holders o)
  then throw (StaleAttempt holder)
  else
  let* db := get in
  match permits db !! holder with
  | None => tx_ret (obs_see holder o)
  | Some p =>
      lane_mismatch holder lane p;;;
      if decide (p_attempt_token p ≠ attempt_token) then throw (StaleAttempt holder)
      else tx_ret (obs_confirm holder o)
  end.

(** One row of [for (holder, raw_lane) in &recorded]; yields whether the
    holder was marked uncertain. *)
Definition mark_unobserved (now : Z) (o : Obs) (holder raw_lane : string) : rtx bool :=
  if decide (holder ∈ observed_holders o) then tx_ret false
  else
  match PermitLane_parse raw_lane with
  | None => throw (UnknownLane raw_lane)
  | Some lane =>
      let* db := get in
      let* changed :=
        update_permit holder (fun p => p_state p ≠ PermitState_as_str Cleaning)
          (permit_set_state (PermitState_as_str Uncertain) now (generation_column db)) in
      if decide (changed = 0) then tx_ret false
      else
      let* d := ensure_demand_tx holder lane "" (u64_of_i64 now) (u64_of_i64 now) Granted in
      grant_if_eligible holder now d;;;
      tx_ret true
  end.

Fixpoint mark_recorded (now : Z) (o : Obs) (recorded : list (string * string))
    (marked : list string) : rtx (list string) :=
  match recorded with
  | [] => tx_ret marked
  | (holder, raw_lane) :: recorded =>
      let* changed := mark_unobserved now o holder raw_lane in
      mark_recorded now o recorded (if (changed : bool) then holder :: marked else marked)
  end.

(** [SELECT holder, lane FROM permits]; the query has no [ORDER BY]. *)
Definition recorded_rows (db : LedgerDb) : list (string * string) :=
  (fun kv : string * PermitRow => (kv.1, p_lane kv.2)) <$> map_to_list (permits db).

Definition reconcile_attempts_with_staged_acquisitions (env : Env)
    (alive : list (string * PermitLane * string))
    (staged_rotations : list (string * PermitLane * option string * string))
    (staged_releases : list (string * PermitLane * string * DemandState))
    (staged_acquisitions : list (string * PermitLane * string)) : rtx Empty_set :=
  let now := i64_wrap (unix_now env) in
  let* o1 := fold_obs (check_alive now) alive {| observed_holders := ∅; obs_confirmed := [] |} in
  let* o2 := fold_obs (check_staged_rotation now) staged_rotations o1 in
  let* o3 := fold_obs check_staged_release staged_releases o2 in
  let* o4 := fold_obs check_staged_acquisition staged_acquisitions o3 in
  let* db := get in
  let* marked := mark_recorded now o4 (recorded_rows db) [] in
  modify (fun db => set_reconciled_column (generation_column db) db);;;
  commit {| marked_uncertain := merge_sort string_le marked;
            confirmed := merge_sort string_le (obs_confirmed o4) |}.

Definition reconcile_attempts_with_staged_releases (env : Env) alive staged_rotations
    staged_releases : rtx Empty_set :=
  reconcile_attempts_with_staged_acquisitions env alive staged_rotations staged_releases [].

Definition reconcile_attempts_with_staged (env : Env) alive staged : rtx Empty_set :=
  reconcile_attempts_with_staged_releases env alive staged [].

Definition reconcile_attempts (env : Env) alive : rtx Empty_set :=
  reconcile_attempts_with_staged env alive [].
