(* ===== verification/LedgerInv.v ===== *)
(** * Permit ledger: invariant and step lemmas

    The invariant of the ledger database, one step lemma per operation, and
    the execution of a sequence of calls. The invariant couples the two main
    tables: a permit row always has a demand row of the same lane that has
    been granted or already closed, and no demand is granted without a
    permit; attempt tokens and queue sequences are unique. *)

From S2P Require Import Prelude LedgerData LedgerOps LedgerReconcile.
From stdpp Require Import base gmap sets list strings.
#[local] Open Scope Z_scope.
#[local] Open Scope tx_scope.

(** ** Spellings *)

Lemma PermitLane_parse_as_str l : PermitLane_parse (PermitLane_as_str l) = Some l.
Proof. by destruct l. Qed.
Lemma DemandState_parse_as_str s : DemandState_parse (DemandState_as_str s) = Some s.
Proof. by destruct s. Qed.
Lemma PermitState_parse_as_str s : PermitState_parse (PermitState_as_str s) = Some s.
Proof. by destruct s. Qed.

Lemma PermitLane_parse_Some v l : PermitLane_parse v = Some l -> v = PermitLane_as_str l.
Proof. unfold PermitLane_parse. intros. repeat case_decide; simplify_eq; done. Qed.
Lemma DemandState_parse_Some v s : DemandState_parse v = Some s -> v = DemandState_as_str s.
Proof. unfold DemandState_parse. intros. repeat case_decide; simplify_eq; done. Qed.

#[export] Instance PermitLane_as_str_inj : Inj (=) (=) PermitLane_as_str.
Proof. intros [] []; done. Qed.
#[export] Instance DemandState_as_str_inj : Inj (=) (=) DemandState_as_str.
Proof. intros [] []; done. Qed.
#[export] Instance PermitState_as_str_inj : Inj (=) (=) PermitState_as_str.
Proof. intros [] []; done. Qed.

Lemma parse_demand_Ok h d pd :
  parse_demand h d = Ok pd ->
  d_lane d = PermitLane_as_str (pd_lane pd) /\ d_state d = DemandState_as_str (pd_state pd).
Proof.
  unfold parse_demand. destruct (PermitLane_parse _) eqn:L; [|done].
  destruct (DemandState_parse _) eqn:S; [|done]. intros [= <-]; cbn.
  eauto using PermitLane_parse_Some, DemandState_parse_Some.
Qed.

(** ** The invariant *)

Definition closed_state (s : string) : Prop :=
  s = DemandState_as_str Terminal ∨ s = DemandState_as_str Cancelled.
#[export] Instance closed_state_dec s : Decision (closed_state s).
Proof. unfold closed_state. apply _. Defined.

(** What one holder's rows look like together. *)
Definition coupled (p : option PermitRow) (d : option DemandRow) : Prop :=
  match p, d with
  | None, None => True
  | None, Some d =>
      (exists l, d_lane d = PermitLane_as_str l) ∧
      (d_state d = DemandState_as_str Eligible ∨ d_state d = DemandState_as_str Waiting
       ∨ closed_state (d_state d))
  | Some p, Some d =>
      (exists l, d_lane d = PermitLane_as_str l) ∧ p_lane p = d_lane d ∧
      (d_state d = DemandState_as_str Granted ∨ closed_state (d_state d))
  | Some _, None => False
  end.

Record Inv (db : LedgerDb) : Prop := {
  inv_coupled h : coupled (permits db !! h) (permit_demands db !! h);
  inv_tokens h1 h2 p1 p2 :
    permits db !! h1 = Some p1 -> permits db !! h2 = Some p2 ->
    p_attempt_token p1 = p_attempt_token p2 -> h1 = h2;
  inv_sequences h1 h2 d1 d2 :
    permit_demands db !! h1 = Some d1 -> permit_demands db !! h2 = Some d2 ->
    d_sequence d1 = d_sequence d2 -> h1 = h2;
}.

Lemma Inv_empty : Inv empty_ledger.
Proof. constructor; intros *; cbn; rewrite !lookup_empty; done. Qed.

(** ** What every call preserves of a demand row

    Its place in the queue never moves, and a closed demand stays closed. *)
Definition demand_kept (d d' : DemandRow) : Prop :=
  d_lane d' = d_lane d ∧ d_scope d' = d_scope d ∧
  d_first_seen_unix d' = d_first_seen_unix d ∧ d_sequence d' = d_sequence d ∧
  (closed_state (d_state d) → closed_state (d_state d')).

Definition demand_kept_opt (d d' : option DemandRow) : Prop :=
  match d with
  | Some d => exists d1, d' = Some d1 ∧ demand_kept d d1
  | None => True
  end.

#[export] Instance demand_kept_preorder : PreOrder demand_kept.
Proof. split; unfold demand_kept; [intros d|intros d1 d2 d3]; naive_solver congruence. Qed.

Lemma demand_kept_opt_refl d : demand_kept_opt d d.
Proof. destruct d; cbn; [eexists; split; [done|reflexivity]|done]. Qed.

Lemma demand_kept_opt_trans d1 d2 d3 :
  demand_kept_opt d1 d2 -> demand_kept_opt d2 d3 -> demand_kept_opt d1 d3.
Proof.
  destruct d1 as [d1|]; cbn; [|done]. intros (d & -> & K) (d' & -> & K').
  eexists; split; [done|]. by etransitivity.
Qed.

Lemma demand_kept_set_state s t d :
  (closed_state (d_state d) -> closed_state s) -> demand_kept d (demand_set_state s t d).
Proof. intros. unfold demand_kept. cbn. naive_solver. Qed.
Lemma demand_kept_touch t d : demand_kept d (demand_touch t d).
Proof. by apply demand_kept_set_state. Qed.

(** One step of the ledger: the invariant is kept, no demand loses its place,
    and only the holders in [new] may gain a permit. *)
Record step_ok (new : gset string) (db db' : LedgerDb) : Prop := {
  so_inv : Inv db';
  so_kept h : demand_kept_opt (permit_demands db !! h) (permit_demands db' !! h);
  so_dom : dom (permits db') ⊆ dom (permits db) ∪ new;
}.

Lemma step_ok_refl new db : Inv db -> step_ok new db db.
Proof. intros I. constructor; [done|intros; apply demand_kept_opt_refl|set_solver]. Qed.

Lemma step_ok_trans new db1 db2 db3 :
  step_ok new db1 db2 -> step_ok new db2 db3 -> step_ok new db1 db3.
Proof.
  intros [] []. constructor; [done| |set_solver].
  intros h. eapply demand_kept_opt_trans; eauto.
Qed.

Lemma step_ok_same_tables new db db' :
  Inv db -> permits db' = permits db -> permit_demands db' = permit_demands db ->
  step_ok new db db'.
Proof.
  intros [I1 I2 I3] P D. constructor.
  - constructor; intros *; rewrite ?P, ?D; eauto.
  - intros h. rewrite D. apply demand_kept_opt_refl.
  - rewrite P. set_solver.
Qed.

(** A call that touches one holder. *)
Lemma step_ok_local h new db db' :
  Inv db ->
  (forall h', h' ≠ h -> permits db' !! h' = permits db !! h') ->
  (forall h', h' ≠ h -> permit_demands db' !! h' = permit_demands db !! h') ->
  coupled (permits db' !! h) (permit_demands db' !! h) ->
  demand_kept_opt (permit_demands db !! h) (permit_demands db' !! h) ->
  (forall p', permits db' !! h = Some p' ->
     (h ∈ new ∨ is_Some (permits db !! h)) ∧
     ((exists p, permits db !! h = Some p ∧ p_attempt_token p' = p_attempt_token p)
      ∨ ~ token_taken db h (p_attempt_token p'))) ->
  (forall d', permit_demands db' !! h = Some d' -> permit_demands db !! h = None ->
     ~ sequence_taken db (d_sequence d')) ->
  step_ok new db db'.
Proof.
  intros [I1 I2 I3] P D C K Tok Seq.
  assert (SeqH : forall h' d' e, h' ≠ h -> permit_demands db' !! h = Some d' ->
            permit_demands db !! h' = Some e -> d_sequence d' = d_sequence e -> False).
  { intros h' d' e N E1 E2 Q. destruct (permit_demands db !! h) as [d|] eqn:E.
    - cbn in K. destruct K as (d1 & E' & K). rewrite E1 in E'. simplify_eq.
      apply N. eapply (I3 h' h); eauto. unfold demand_kept in K. intuition congruence.
    - apply (Seq d' E1 eq_refl). exists h', e. done. }
  assert (TokH : forall h' p' q, h' ≠ h -> permits db' !! h = Some p' ->
            permits db !! h' = Some q -> p_attempt_token p' = p_attempt_token q -> False).
  { intros h' p' q N E1 E2 Q. destruct (Tok p' E1) as [_ [(p & Ep & Et)|T]].
    - apply N. eapply (I2 h' h); eauto. congruence.
    - apply T. exists h', q. done. }
  constructor.
  - constructor.
    + intros h'. destruct (decide (h' = h)) as [->|N]; [done|]. by rewrite P, D.
    + intros h1 h2 p1 p2 E1 E2 Q.
      destruct (decide (h1 = h)) as [->|N1], (decide (h2 = h)) as [->|N2]; try done.
      * rewrite P in E2 by done. exfalso. by eapply (TokH h2).
      * rewrite P in E1 by done. exfalso. by eapply (TokH h1).
      * rewrite P in E1, E2 by done. by eapply I2.
    + intros h1 h2 d1 d2 E1 E2 Q.
      destruct (decide (h1 = h)) as [->|N1], (decide (h2 = h)) as [->|N2]; try done.
      * rewrite D in E2 by done. exfalso. by eapply (SeqH h2).
      * rewrite D in E1 by done. exfalso. by eapply (SeqH h1).
      * rewrite D in E1, E2 by done. by eapply I3.
  - intros h'. destruct (decide (h' = h)) as [->|N]; [done|].
    rewrite D by done. apply demand_kept_opt_refl.
  - intros h' [p' E]%elem_of_dom. rewrite elem_of_union, elem_of_dom.
    destruct (decide (h' = h)) as [->|N].
    + destruct (Tok p' E) as [[]]; auto.
    + rewrite P in E by done. rewrite E. eauto.
Qed.

(** ** Postconditions of the statements *)

Section StatementPosts.
Context {R : Type} (C : R -> LedgerDb -> Prop).

Lemma post_update_permit h cond `{forall p, Decision (cond p)} f (Q : Z -> LedgerDb -> Prop) db :
  (forall p, permits db !! h = Some p -> cond p -> ~ token_taken db h (p_attempt_token (f p)) ->
     Q 1 (set_permits (<[h := f p]> (permits db)) db)) ->
  ((forall p, permits db !! h = Some p -> ~ cond p) -> Q 0 db) ->
  flow_post Q C (update_permit h cond f db).
Proof.
  intros H1 H0. unfold update_permit. destruct (permits db !! h) as [p|] eqn:E.
  - repeat case_decide; cbn; auto. apply H0. naive_solver.
  - apply H0. naive_solver.
Qed.

Lemma post_insert_permit h p (Q : unit -> LedgerDb -> Prop) db :
  (permits db !! h = None -> ~ token_taken db h (p_attempt_token p) ->
     Q tt (set_permits (<[h := p]> (permits db)) db)) ->
  flow_post Q C (insert_permit h p db).
Proof. intros H. unfold insert_permit. case_match; [done|]. case_decide; cbn; auto. Qed.

Lemma post_delete_permit h token (Q : Z -> LedgerDb -> Prop) db :
  (forall p, permits db !! h = Some p -> p_attempt_token p = token ->
     Q 1 (set_permits (delete h (permits db)) db)) ->
  ((forall p, permits db !! h = Some p -> p_attempt_token p ≠ token) -> Q 0 db) ->
  flow_post Q C (delete_permit h token db).
Proof.
  intros H1 H0. unfold delete_permit. destruct (permits db !! h) as [p|] eqn:E.
  - case_decide; cbn; eauto. apply H0. naive_solver.
  - apply H0. naive_solver.
Qed.

Lemma post_update_demand h cond `{forall d, Decision (cond d)} f (Q : Z -> LedgerDb -> Prop) db :
  (forall d, permit_demands db !! h = Some d -> cond d ->
     Q 1 (set_demands (<[h := f d]> (permit_demands db)) db)) ->
  ((forall d, permit_demands db !! h = Some d -> ~ cond d) -> Q 0 db) ->
  flow_post Q C (update_demand h cond f db).
Proof.
  intros H1 H0. unfold update_demand. destruct (permit_demands db !! h) as [d|] eqn:E.
  - case_decide; cbn; auto. apply H0. naive_solver.
  - apply H0. naive_solver.
Qed.

Lemma post_read_demand h (Q : option PermitDemand -> LedgerDb -> Prop) db :
  (permit_demands db !! h = None -> Q None db) ->
  (forall d pd, permit_demands db !! h = Some d -> d_lane d = PermitLane_as_str (pd_lane pd) ->
     d_state d = DemandState_as_str (pd_state pd) -> Q (Some pd) db) ->
  flow_post Q C (read_demand h db).
Proof.
  intros H0 H1. unfold read_demand. destruct (permit_demands db !! h) as [d|] eqn:E; cbn; auto.
  destruct (parse_demand h d) eqn:P; cbn; [|done]. apply parse_demand_Ok in P. naive_solver.
Qed.

Lemma post_check_demand_lane h pd lane (Q : unit -> LedgerDb -> Prop) db :
  (pd_lane pd = lane -> Q tt db) -> flow_post Q C (check_demand_lane h pd lane db).
Proof. intros H. unfold check_demand_lane. case_decide; cbn; auto. Qed.

Lemma post_lane_mismatch h lane p (Q : unit -> LedgerDb -> Prop) db :
  (p_lane p = PermitLane_as_str lane -> Q tt db) -> flow_post Q C (lane_mismatch h lane p db).
Proof.
  intros H. unfold lane_mismatch, when. case_decide; cbn; [done|]. apply H. by destruct (decide (p_lane p = PermitLane_as_str lane)).
Qed.

Lemma post_read_owned h token (Q : string -> LedgerDb -> Prop) db :
  (forall p, permits db !! h = Some p -> p_attempt_token p = token -> Q (p_state p) db) ->
  flow_post Q C (read_owned_attempt_state h token db).
Proof.
  intros H. unfold read_owned_attempt_state. case_match; [|by case_match].
  case_decide; cbn; eauto.
Qed.

Lemma max_sequence_spec db :
  match max_sequence db with
  | None => permit_demands db = ∅
  | Some m => forall h d, permit_demands db !! h = Some d -> d_sequence d <= m
  end.
Proof.
  unfold max_sequence.
  apply (map_fold_weak_ind (fun acc m => match acc with
    | None => m = ∅
    | Some a => forall h d, m !! h = Some d -> d_sequence d <= a end)); [done|].
  intros h d m [a|] Hm IH; cbn.
  - intros h' d'. destruct (decide (h' = h)) as [->|]; intros; simplify_map_eq; [lia|].
    specialize (IH h' d' ltac:(done)). lia.
  - subst. intros h' d' [[-> ->]|[_ ?%lookup_empty_Some]]%lookup_insert_Some; [lia|done].
Qed.

(** [MAX(sequence) + 1] is never taken. *)
Lemma next_sequence_fresh db : ~ sequence_taken db (default 0 (max_sequence db) + 1).
Proof.
  intros (h & d & E & Q). pose proof (max_sequence_spec db) as M.
  destruct (max_sequence db) as [m|]; cbn in *.
  - specialize (M h d E). lia.
  - rewrite M in E. by apply lookup_empty_Some in E.
Qed.

Definition demand_row lane scope first_seen seq state updated : DemandRow := {|
  d_lane := PermitLane_as_str lane;
  d_scope := scope;
  d_first_seen_unix := i64_clamp first_seen;
  d_sequence := seq;
  d_state := DemandState_as_str state;
  d_updated_unix := i64_clamp updated;
|}.

Lemma post_ensure_demand h lane scope t u init (Q : PermitDemand -> LedgerDb -> Prop) db :
  (forall d pd, permit_demands db !! h = Some d -> d_lane d = PermitLane_as_str lane ->
     d_state d = DemandState_as_str (pd_state pd) -> Q pd db) ->
  (forall seq pd, permit_demands db !! h = None -> ~ sequence_taken db seq -> pd_state pd = init ->
     Q pd (set_demands (<[h := demand_row lane scope t seq init u]> (permit_demands db)) db)) ->
  flow_post Q C (ensure_demand_tx h lane scope t u init db).
Proof.
  intros H1 H0. unfold ensure_demand_tx. apply post_bind, post_read_demand.
  - intros E. apply post_bind. unfold next_sequence. case_decide; cbn; [|done].
    apply post_bind. unfold insert_demand. rewrite E. case_decide as T; cbn; [done|].
    eapply H0; eauto.
  - intros d pd E L S. apply post_bind, post_check_demand_lane. intros <-. cbn. eauto.
Qed.

End StatementPosts.

(** ** Symbolic execution of a call *)

Ltac tx_step :=
  lazymatch goal with
  | |- flow_post _ _ (tx_bind _ _ _) => apply post_bind
  | |- flow_post _ _ (get _) => cbn [flow_post get]
  | |- flow_post _ _ (tx_ret _ _) => cbn [flow_post tx_ret]
  | |- flow_post _ _ (commit _ _) => cbn [flow_post commit]
  | |- flow_post _ _ (rollback _ _) => exact I
  | |- flow_post _ _ (throw _ _) => exact I
  | |- flow_post _ _ (modify _ _) => cbn [flow_post modify]
  | |- flow_post _ _ (when _ _ _) => apply post_when; intros
  | |- flow_post _ _ (select_permit ?h ?db) => cbn [flow_post select_permit]
  | |- flow_post _ _ (update_permit _ _ _ _) => apply post_update_permit; intros
  | |- flow_post _ _ (insert_permit _ _ _) => apply post_insert_permit; intros
  | |- flow_post _ _ (delete_permit _ _ _) => apply post_delete_permit; intros
  | |- flow_post _ _ (update_demand _ _ _ _) => apply post_update_demand; intros
  | |- flow_post _ _ (read_demand _ _) => apply post_read_demand; intros
  | |- flow_post _ _ (check_demand_lane _ _ _ _) => apply post_check_demand_lane; intros
  | |- flow_post _ _ (lane_mismatch _ _ _ _) => apply post_lane_mismatch; intros
  | |- flow_post _ _ (read_owned_attempt_state _ _ _) => apply post_read_owned; intros
  | |- flow_post _ _ (ensure_demand_tx _ _ _ _ _ _ _) => apply post_ensure_demand; intros
  | |- flow_post _ _ ((if decide _ then _ else _) _) => apply post_decide; intros
  | |- flow_post _ _ ((match ?x with _ => _ end) _) => destruct x eqn:?
  | |- flow_post _ _ ((let _ := _ in _) _) => cbv zeta
  end.

(** ** Closing a call that touches one holder *)

Ltac ledger_simpl :=
  cbn [set_permits set_demands set_claims set_cleanup_releases set_generation_column
       set_reconciled_column set_max_jobs_column
       permits permit_demands generation_column reconciled_generation_column max_jobs_column
       permit_token_migrations scaleset_recovery_claims recorded_terminal_cleanup_releases
       demand_set_state demand_touch demand_row
       d_lane d_scope d_first_seen_unix d_sequence d_state d_updated_unix
       permit_set_state permit_set_owner permit_set_attempt
       p_lane p_state p_acquired_unix p_updated_unix p_generation p_pid p_attempt_token
       p_recovery_claim_token p_recovery_previous_pid p_recovery_previous_token] in *.

(** Rows read through the updates made so far. *)
Ltac ledger_rows :=
  ledger_simpl;
  repeat (match goal with
          | H : <[_ := _]> _ !! _ = _ |- _ => rewrite lookup_insert_eq in H
          | H : delete _ _ !! _ = _ |- _ => rewrite lookup_delete_eq in H
          | H : forall x, <[_ := _]> _ !! _ = Some x -> _ |- _ =>
              rewrite lookup_insert_eq in H; specialize (H _ eq_refl)
          end);
  simplify_eq; ledger_simpl.

Lemma coupled_open_None d :
  coupled None (Some d) -> d_state d ≠ DemandState_as_str Granted.
Proof. intros (_ & [->|[->|[->| ->]]]); done. Qed.

(** Known demand states, down to their spellings. *)
Ltac ledger_states :=
  repeat match goal with H : pd_state _ = _ |- _ => rewrite H in *; clear H end;
  cbn [DemandState_as_str] in *.

Ltac ledger_coupled :=
  unfold coupled, closed_state in *;
  repeat match goal with
  | |- context [(<[?h := _]> _ !! ?h)] => rewrite lookup_insert_eq
  | |- context [(delete ?h _ !! ?h)] => rewrite lookup_delete_eq
  | H : permits ?db !! ?h = _ |- context [permits ?db !! ?h] => rewrite H
  | H : permit_demands ?db !! ?h = _ |- context [permit_demands ?db !! ?h] => rewrite H
  | H : permits ?db !! ?h = _, H' : context [permits ?db !! ?h] |- _ =>
      lazymatch H' with H => fail | _ => rewrite H in H' end
  | H : permit_demands ?db !! ?h = _, H' : context [permit_demands ?db !! ?h] |- _ =>
      lazymatch H' with H => fail | _ => rewrite H in H' end
  | |- context [match permits ?db !! ?h with _ => _ end] => destruct (permits db !! h) eqn:?
  | |- context [match permit_demands ?db !! ?h with _ => _ end] => destruct (permit_demands db !! h) eqn:?
  end; ledger_simpl; ledger_states;
  first [done | naive_solver congruence].

Ltac ledger_kept :=
  unfold demand_kept_opt, demand_kept, closed_state in *;
  repeat match goal with
  | |- context [(<[?h := _]> _ !! ?h)] => rewrite lookup_insert_eq
  | H : permit_demands ?db !! ?h = _ |- context [permit_demands ?db !! ?h] => rewrite H
  | |- context [match permit_demands ?db !! ?h with _ => _ end] => destruct (permit_demands db !! h) eqn:?
  end;
  first [done | eexists; split; [reflexivity|]; ledger_simpl; ledger_states; naive_solver congruence].

Ltac ledger_local I h :=
  let Cp := fresh "Cp" in
  pose proof (inv_coupled _ I h) as Cp;
  apply (step_ok_local h); ledger_simpl;
  [ exact I
  | intros; rewrite ?lookup_insert_ne, ?lookup_delete_ne by congruence; reflexivity
  | intros; rewrite ?lookup_insert_ne, ?lookup_delete_ne by congruence; reflexivity
  | ledger_coupled
  | ledger_kept
  | intros ?; rewrite ?lookup_insert_eq, ?lookup_delete_eq; intros; simplify_eq; ledger_simpl;
    (split; [first [by right; eauto | left; set_solver]| first [by left; eauto | by right]])
  | intros ?; rewrite ?lookup_insert_eq, ?lookup_delete_eq; intros; simplify_eq; ledger_simpl;
    (congruence || done) ].

(** Run a call symbolically; what is left are the branches that changed a row. *)
Ltac ledger_call I :=
  lazymatch goal with
  | |- step_ok _ _ (run_tx _ _).1 => apply run_tx_post; [by apply step_ok_refl|]
  | _ => idtac
  end;
  repeat tx_step; ledger_rows; try by apply step_ok_refl.
