(* ===== verification/LedgerSteps.v ===== *)
(** * Permit ledger: step lemmas

    Every call of the ledger keeps the invariant, keeps every demand's place
    in the queue, and adds no permit except the one [acquire_attempt_with_token]
    may grant to its own holder. *)

From S2P Require Import Prelude LedgerData LedgerOps LedgerReconcile LedgerInv.
From stdpp Require Import base gmap sets list strings.
#[local] Open Scope Z_scope.

(** ** Step lemmas *)

Section Steps.
Context (db : LedgerDb) (I : Inv db).

Lemma set_max_jobs_step n : step_ok ∅ db (set_max_jobs n db).
Proof. by apply step_ok_same_tables. Qed.

Lemma set_max_jobs_if_unset_step n : step_ok ∅ db (run_tx (set_max_jobs_if_unset n) db).1.
Proof. unfold set_max_jobs_if_unset. ledger_call I. by apply step_ok_same_tables. Qed.

Lemma begin_epoch_step : step_ok ∅ db (run_tx begin_epoch db).1.
Proof. unfold begin_epoch. ledger_call I. by apply step_ok_same_tables. Qed.

Lemma observe_demand_step h lane scope t u :
  step_ok ∅ db (run_tx (observe_demand h lane scope t u) db).1.
Proof. unfold observe_demand. ledger_call I. all: ledger_local I h. Qed.

Lemma park_demand_step env h : step_ok ∅ db (run_tx (park_demand env h) db).1.
Proof. unfold park_demand. ledger_call I. ledger_local I h. Qed.

Lemma cancel_demand_step env h : step_ok ∅ db (run_tx (cancel_demand env h) db).1.
Proof. unfold cancel_demand. ledger_call I. ledger_local I h. Qed.

Lemma adopt_step env is_alive h lane state g pid :
  step_ok ∅ db (run_tx (adopt_for_redelivery env is_alive h lane state g pid) db).1.
Proof. unfold adopt_for_redelivery, grant_if_eligible. ledger_call I. all: ledger_local I h. Qed.

Lemma rotate_step env h state g pp pt target claim :
  step_ok ∅ db (run_tx (rotate_scaleset_attempt_for_recovery env h state g pp pt target claim) db).1.
Proof.
  unfold rotate_scaleset_attempt_for_recovery, grant_if_eligible. ledger_call I.
  all: ledger_local I h.
Qed.

Lemma claim_recovery_step env is_alive : step_ok ∅ db (run_tx (claim_scaleset_recovery env is_alive) db).1.
Proof. unfold claim_scaleset_recovery. ledger_call I. all: by apply step_ok_same_tables. Qed.

Lemma claim_release_step claim : step_ok ∅ db (run_tx (claim_release claim) db).1.
Proof. unfold claim_release. ledger_call I. by apply step_ok_same_tables. Qed.

Lemma transition_step env h state g token :
  step_ok ∅ db (run_tx (transition_owned env h state g token) db).1.
Proof. unfold transition_owned, transition_for_attempt. ledger_call I. ledger_local I h. Qed.

Lemma claim_cleanup_step env h lane token :
  step_ok ∅ db (run_tx (claim_recorded_terminal_cleanup env h lane token) db).1.
Proof. unfold claim_recorded_terminal_cleanup. ledger_call I. all: ledger_local I h. Qed.

Lemma release_step env h st token :
  st = Terminal \/ st = Cancelled \/ st = Eligible ->
  step_ok ∅ db (run_tx (release_with_demand_state env h st token) db).1.
Proof.
  intros St. unfold release_with_demand_state. ledger_call I.
  all: try (exfalso; naive_solver). all: ledger_local I h.
Qed.

Lemma release_native_step env h token st :
  st = Terminal \/ st = Cancelled ->
  step_ok ∅ db (run_tx (release_native_owned_with_terminal_demand env h token st) db).1.
Proof.
  intros St. unfold release_native_owned_with_terminal_demand, native_release_absent,
    forget_cleanup_release. ledger_call I.
  all: try (apply step_ok_same_tables; [exact I|reflexivity|reflexivity]).
  all: destruct St as [-> | ->]; ledger_local I h.
Qed.

Lemma release_scaleset_step env h token st :
  step_ok ∅ db (run_tx (release_scaleset_staged_owned env h token st) db).1.
Proof.
  unfold release_scaleset_staged_owned. ledger_call I.
  all: match goal with pd : PermitDemand |- _ => destruct (pd_state pd) eqn:? end;
    try (exfalso; match goal with H : ~ (_ /\ _ /\ _) |- _ => by apply H; split_and! end);
    ledger_local I h.
Qed.

Lemma retain_uncertain_step env h g token :
  step_ok ∅ db (run_tx (retain_uncertain_owned env h g token) db).1.
Proof.
  unfold retain_uncertain_owned, retain_uncertain_for_attempt, close_open_demand.
  ledger_call I. all: ledger_local I h.
Qed.

Lemma retain_failure_step env h g token :
  step_ok ∅ db (run_tx (retain_recorded_failure_uncertain_owned env h g token) db).1.
Proof.
  unfold retain_recorded_failure_uncertain_owned, close_open_demand.
  ledger_call I. all: ledger_local I h.
Qed.

Lemma retain_after_cleanup_step env h token :
  step_ok ∅ db (run_tx (retain_uncertain_after_cleanup_owned env h token) db).1.
Proof. unfold retain_uncertain_after_cleanup_owned. ledger_call I. all: ledger_local I h. Qed.

Lemma acquire_step env h lane state g pid staged :
  step_ok {[h]} db (run_tx (acquire_attempt_with_token env h lane state g pid staged) db).1.
Proof.
  unfold acquire_attempt_with_token, acquire_held, requeue_demand, grant_permit.
  ledger_call I. all: ledger_local I h.
Qed.

End Steps.

(** ** Reconciliation *)

Section ReconcileSteps.
Context (now : Z).

Abbreviation keeps db f := (flow_post (fun _ db' => step_ok ∅ db db') (fun _ _ => False) f).

Lemma fold_obs_step {X} (body : X -> Obs -> rtx Obs) xs o db :
  (forall x o db, Inv db -> keeps db (body x o db)) ->
  Inv db -> keeps db (fold_obs body xs o db).
Proof.
  intros B. revert o db. induction xs as [|x xs IH]; intros o db I; cbn.
  - by apply step_ok_refl.
  - unfold tx_bind. specialize (B x o db I). destruct (body x o db) as [o' db'| | |]; cbn in *; try done.
    specialize (IH o' db' (so_inv _ _ _ B)).
    destruct (fold_obs body xs o' db'); cbn in *; try done. by eapply step_ok_trans.
Qed.

Lemma check_alive_step x o db : Inv db -> keeps db (check_alive now x o db).
Proof.
  intros I. destruct x as [[h lane] token]. unfold check_alive, grant_if_eligible.
  ledger_call I. all: ledger_local I h.
Qed.

Lemma check_staged_rotation_step x o db : Inv db -> keeps db (check_staged_rotation now x o db).
Proof.
  intros I. destruct x as [[[h lane] prev] target]. unfold check_staged_rotation, grant_if_eligible.
  ledger_call I. all: ledger_local I h.
Qed.

Lemma check_staged_release_step x o db : Inv db -> keeps db (check_staged_release x o db).
Proof.
  intros I. destruct x as [[[h lane] token] st]. unfold check_staged_release. ledger_call I.
Qed.

Lemma check_staged_acquisition_step x o db : Inv db -> keeps db (check_staged_acquisition x o db).
Proof. intros I. destruct x as [[h lane] token]. unfold check_staged_acquisition. ledger_call I. Qed.

Lemma mark_unobserved_step o h raw db : Inv db -> keeps db (mark_unobserved now o h raw db).
Proof.
  intros I. unfold mark_unobserved, grant_if_eligible. ledger_call I. all: ledger_local I h.
Qed.

Lemma mark_recorded_step o rows marked db : Inv db -> keeps db (mark_recorded now o rows marked db).
Proof.
  revert marked db. induction rows as [|[h raw] rows IH]; intros marked db I; cbn.
  - by apply step_ok_refl.
  - unfold tx_bind. pose proof (mark_unobserved_step o h raw db I) as B.
    destruct (mark_unobserved now o h raw db) as [b db'| | |]; cbn in *; try done.
    specialize (IH (if b then h :: marked else marked) db' (so_inv _ _ _ B)).
    destruct (mark_recorded now o rows _ db'); cbn in *; try done. by eapply step_ok_trans.
Qed.

End ReconcileSteps.

Lemma reconcile_step env alive rots rels acqs db :
  Inv db ->
  step_ok ∅ db (run_tx (reconcile_attempts_with_staged_acquisitions env alive rots rels acqs) db).1.
Proof.
  intros I. apply run_tx_post; [by apply step_ok_refl|].
  unfold reconcile_attempts_with_staged_acquisitions.
  apply post_bind. eapply post_weaken;
    [apply (fold_obs_step _ _ _ _ (check_alive_step _) I)| |done].
  intros o1 db1 S1. pose proof (so_inv _ _ _ S1) as I1. apply post_bind. eapply post_weaken;
    [apply (fold_obs_step _ _ _ _ (check_staged_rotation_step _) I1)| |done].
  intros o2 db2 S2. pose proof (so_inv _ _ _ S2) as I2. apply post_bind. eapply post_weaken;
    [apply (fold_obs_step _ _ _ _ check_staged_release_step I2)| |done].
  intros o3 db3 S3. pose proof (so_inv _ _ _ S3) as I3. apply post_bind. eapply post_weaken;
    [apply (fold_obs_step _ _ _ _ check_staged_acquisition_step I3)| |done].
  intros o4 db4 S4. pose proof (so_inv _ _ _ S4) as I4. apply post_bind. cbn [flow_post get].
  apply post_bind. eapply post_weaken; [apply (mark_recorded_step _ _ _ _ _ I4)| |done].
  intros marked db5 S5. cbn.
  apply (step_ok_trans _ _ db1 _ S1), (step_ok_trans _ _ db2 _ S2),
    (step_ok_trans _ _ db3 _ S3), (step_ok_trans _ _ db4 _ S4), (step_ok_trans _ _ db5 _ S5).
  apply step_ok_same_tables; [exact (so_inv _ _ _ S5)|reflexivity|reflexivity].
Qed.
