(* ===== verification/LedgerSafety.v ===== *)
(** * Permit ledger: safety of the shared capacity and of the queue

    A ledger driven by any interleaving of calls from any number of
    processes: each call is one serialised immediate transaction, so an
    execution is a list of calls. *)

From S2P Require Import Prelude LedgerData LedgerOps LedgerReconcile LedgerInv LedgerSteps.
From stdpp Require Import base gmap sets list strings.
#[local] Open Scope Z_scope.

(** ** Calls and executions *)

Inductive ledger_op :=
| OpSetMaxJobs (n : Z)
| OpSetMaxJobsIfUnset (n : Z)
| OpBeginEpoch
| OpObserve (h : string) (lane : PermitLane) (scope : string) (first_seen observed : Z)
| OpPark (env : Env) (h : string)
| OpCancel (env : Env) (h : string)
| OpAcquire (env : Env) (h : string) (lane : PermitLane) (state : PermitState) (g : Z) (pid : option Z)
| OpAcquireStaged (env : Env) (h : string) (state : PermitState) (g : Z) (pid : option Z) (token : string)
| OpAdopt (env : Env) (is_alive : Z -> bool) (h : string) (lane : PermitLane) (state : PermitState) (g pid : Z)
| OpRotate (env : Env) (h : string) (state : PermitState) (g previous_pid : Z)
    (previous_token : option string) (target claim : string)
| OpClaimRecovery (env : Env) (is_alive : Z -> bool)
| OpReleaseClaim (claim : ScaleSetRecoveryClaim)
| OpTransition (env : Env) (h : string) (state : PermitState) (g : Z) (token : string)
| OpClaimCleanup (env : Env) (h : string) (lane : PermitLane) (token : string)
| OpRelease (env : Env) (h token : string)
| OpReleaseToEligible (env : Env) (h token : string)
| OpReleaseCancelled (env : Env) (h token : string)
| OpReleaseNativeTerminal (env : Env) (h token : string)
| OpReleaseNativeCancelled (env : Env) (h token : string)
| OpReleaseScaleSet (env : Env) (h token : string) (next : DemandState)
| OpRetain (env : Env) (h : string) (g : Z) (token : string)
| OpRetainFailure (env : Env) (h : string) (g : Z) (token : string)
| OpRetainAfterCleanup (env : Env) (h token : string)
| OpReconcile (env : Env) (alive : list (string * PermitLane * string))
    (rotations : list (string * PermitLane * option string * string))
    (releases : list (string * PermitLane * string * DemandState))
    (acquisitions : list (string * PermitLane * string)).

Definition exec (op : ledger_op) (db : LedgerDb) : LedgerDb :=
  match op with
  | OpSetMaxJobs n => set_max_jobs n db
  | OpSetMaxJobsIfUnset n => (run_tx (set_max_jobs_if_unset n) db).1
  | OpBeginEpoch => (run_tx begin_epoch db).1
  | OpObserve h lane scope t u => (run_tx (observe_demand h lane scope t u) db).1
  | OpPark env h => (run_tx (park_demand env h) db).1
  | OpCancel env h => (run_tx (cancel_demand env h) db).1
  | OpAcquire env h lane state g pid => (run_tx (acquire_attempt env h lane state g pid) db).1
  | OpAcquireStaged env h state g pid token =>
      (run_tx (acquire_scaleset_attempt_with_token env h state g pid token) db).1
  | OpAdopt env is_alive h lane state g pid =>
      (run_tx (adopt_for_redelivery env is_alive h lane state g pid) db).1
  | OpRotate env h state g pp pt target claim =>
      (run_tx (rotate_scaleset_attempt_for_recovery env h state g pp pt target claim) db).1
  | OpClaimRecovery env is_alive => (run_tx (claim_scaleset_recovery env is_alive) db).1
  | OpReleaseClaim claim => (run_tx (claim_release claim) db).1
  | OpTransition env h state g token => (run_tx (transition_owned env h state g token) db).1
  | OpClaimCleanup env h lane token => (run_tx (claim_recorded_terminal_cleanup env h lane token) db).1
  | OpRelease env h token => (run_tx (release_owned env h token) db).1
  | OpReleaseToEligible env h token => (run_tx (release_to_eligible_owned env h token) db).1
  | OpReleaseCancelled env h token => (run_tx (release_cancelled_owned env h token) db).1
  | OpReleaseNativeTerminal env h token => (run_tx (release_native_terminal_owned env h token) db).1
  | OpReleaseNativeCancelled env h token => (run_tx (release_native_cancelled_owned env h token) db).1
  | OpReleaseScaleSet env h token next => (run_tx (release_scaleset_staged_owned env h token next) db).1
  | OpRetain env h g token => (run_tx (retain_uncertain_owned env h g token) db).1
  | OpRetainFailure env h g token => (run_tx (retain_recorded_failure_uncertain_owned env h g token) db).1
  | OpRetainAfterCleanup env h token => (run_tx (retain_uncertain_after_cleanup_owned env h token) db).1
  | OpReconcile env alive rots rels acqs =>
      (run_tx (reconcile_attempts_with_staged_acquisitions env alive rots rels acqs) db).1
  end.

Definition exec_all (ops : list ledger_op) (db : LedgerDb) : LedgerDb :=
  fold_left (fun db op => exec op db) ops db.

(** The holder an acquisition may add. *)
Definition new_holder (op : ledger_op) : gset string :=
  match op with
  | OpAcquire _ h _ _ _ _ | OpAcquireStaged _ h _ _ _ _ => {[h]}
  | _ => ∅
  end.

Lemma acquire_staged_step env h state g pid token db :
  Inv db -> step_ok {[h]} db (run_tx (acquire_scaleset_attempt_with_token env h state g pid token) db).1.
Proof.
  intros I. unfold acquire_scaleset_attempt_with_token. case_decide.
  - by apply step_ok_refl.
  - by apply acquire_step.
Qed.

#[local] Hint Resolve set_max_jobs_step set_max_jobs_if_unset_step begin_epoch_step
  observe_demand_step park_demand_step cancel_demand_step adopt_step rotate_step
  claim_recovery_step claim_release_step transition_step claim_cleanup_step
  release_scaleset_step retain_uncertain_step retain_failure_step retain_after_cleanup_step
  reconcile_step acquire_step acquire_staged_step : core.

Lemma exec_step op db : Inv db -> step_ok (new_holder op) db (exec op db).
Proof.
  intros I. destruct op; cbn [exec new_holder]; auto.
  - by apply acquire_step.
  - by apply release_step; auto.
  - by apply release_step; auto.
  - by apply release_step; auto.
  - by apply release_native_step; auto.
  - by apply release_native_step; auto.
Qed.

Lemma exec_all_ind (P : LedgerDb -> Prop) ops db :
  (forall op db, op ∈ ops -> Inv db -> P db -> P (exec op db)) -> Inv db -> P db ->
  Inv (exec_all ops db) /\ P (exec_all ops db).
Proof.
  revert db. induction ops as [|op ops IH]; intros db H I HP; cbn; [done|].
  apply IH.
  - intros. apply H; [by right|done..].
  - by eapply so_inv, exec_step.
  - apply H; [by left|done..].
Qed.

(** ** The meta columns *)

Section MetaFrames.
Context {R X : Type} (f : LedgerDb -> X).
Hypothesis f_permits : forall v db, f (set_permits v db) = f db.
Hypothesis f_demands : forall v db, f (set_demands v db) = f db.

Lemma frames_select h : frames f (select_permit (R := R) h).
Proof. done. Qed.
Lemma frames_update_permit h cond `{forall p, Decision (cond p)} g :
  frames f (update_permit (R := R) h cond g).
Proof. intros db. unfold update_permit. repeat case_match; cbn; auto. Qed.
Lemma frames_insert_permit h p : frames f (insert_permit (R := R) h p).
Proof. intros db. unfold insert_permit. repeat case_match; cbn; auto. Qed.
Lemma frames_delete_permit h t : frames f (delete_permit (R := R) h t).
Proof. intros db. unfold delete_permit. repeat case_match; cbn; auto. Qed.
Lemma frames_update_demand h cond `{forall p, Decision (cond p)} g :
  frames f (update_demand (R := R) h cond g).
Proof. intros db. unfold update_demand. repeat case_match; cbn; auto. Qed.
Lemma frames_read_demand h : frames f (read_demand (R := R) h).
Proof. intros db. unfold read_demand. repeat case_match; cbn; auto. Qed.
Lemma frames_check_lane h d l : frames f (check_demand_lane (R := R) h d l).
Proof. intros db. unfold check_demand_lane. case_decide; cbn; auto. Qed.
Lemma frames_lane_mismatch h l p : frames f (lane_mismatch (R := R) h l p).
Proof. intros db. unfold lane_mismatch, when. case_decide; cbn; auto. Qed.
Lemma frames_read_owned h t : frames f (read_owned_attempt_state (R := R) h t).
Proof. intros db. unfold read_owned_attempt_state. repeat case_match; cbn; auto. Qed.
Lemma frames_ensure h l s t u i : frames f (ensure_demand_tx (R := R) h l s t u i).
Proof.
  intros db. apply post_ensure_demand; intros; [done|apply f_demands].
Qed.
End MetaFrames.

#[export] Hint Resolve frames_select frames_update_permit frames_insert_permit frames_delete_permit
  frames_update_demand frames_read_demand frames_check_lane frames_lane_mismatch
  frames_read_owned frames_ensure : frames.
#[export] Hint Extern 0 (_ = _) => reflexivity : frames.

Lemma frames_fold_obs {X Y} (f : LedgerDb -> Y) (body : X -> Obs -> rtx Obs) xs o :
  (forall x o, frames f (body x o)) -> frames f (fold_obs body xs o).
Proof.
  intros B. revert o. induction xs as [|x xs IH]; intros o; cbn; [solve_frames|].
  by apply frames_bind.
Qed.

Lemma frames_mark_recorded {Y} (f : LedgerDb -> Y) now o rows marked :
  (forall h raw, frames f (mark_unobserved now o h raw)) -> frames f (mark_recorded now o rows marked).
Proof.
  intros B. revert marked. induction rows as [|[h raw] rows IH]; intros marked; cbn; [solve_frames|].
  by apply frames_bind.
Qed.

Ltac frames_call :=
  cbn [exec];
  lazymatch goal with |- ?f (run_tx ?m ?db).1 = _ => apply (frames_run f m db) end;
  unfold observe_demand, park_demand, cancel_demand, acquire_attempt,
    acquire_scaleset_attempt_with_token, acquire_attempt_with_token, acquire_held,
    requeue_demand, grant_permit, adopt_for_redelivery, rotate_scaleset_attempt_for_recovery,
    claim_scaleset_recovery, claim_release, transition_owned, transition_for_attempt,
    claim_recorded_terminal_cleanup, release_owned, release_to_eligible_owned,
    release_cancelled_owned, release_with_demand_state, release_native_terminal_owned,
    release_native_cancelled_owned, release_native_owned_with_terminal_demand,
    native_release_absent, forget_cleanup_release, release_scaleset_staged_owned,
    retain_uncertain_owned, retain_uncertain_for_attempt, close_open_demand,
    retain_recorded_failure_uncertain_owned, retain_uncertain_after_cleanup_owned,
    grant_if_eligible, begin_epoch;
  solve_frames.

Lemma reconcile_frames {Y} (f : LedgerDb -> Y) env alive rots rels acqs :
  (forall v db, f (set_permits v db) = f db) -> (forall v db, f (set_demands v db) = f db) ->
  (forall v db, f (set_reconciled_column v db) = f db) ->
  frames f (reconcile_attempts_with_staged_acquisitions env alive rots rels acqs).
Proof.
  intros FP FD FR. unfold reconcile_attempts_with_staged_acquisitions.
  apply frames_bind; [apply frames_fold_obs; intros [[h l] t] o; unfold check_alive, grant_if_eligible; solve_frames|intros o1].
  apply frames_bind; [apply frames_fold_obs; intros [[[h l] q] t] o; unfold check_staged_rotation, grant_if_eligible; solve_frames|intros o2].
  apply frames_bind; [apply frames_fold_obs; intros [[[h l] q] t] o; unfold check_staged_release; solve_frames|intros o3].
  apply frames_bind; [apply frames_fold_obs; intros [[h l] t] o; unfold check_staged_acquisition; solve_frames|intros o4].
  apply frames_bind; [solve_frames|intros db].
  apply frames_bind; [apply frames_mark_recorded; intros; unfold mark_unobserved, grant_if_eligible; solve_frames|intros m].
  apply frames_bind; [by apply frames_modify|intros; solve_frames].
Qed.

(** Only the two configuration calls move [max_jobs]. *)
Lemma exec_max_jobs op db :
  match op with
  | OpSetMaxJobs n => max_jobs_column (exec op db) = Some n
  | OpSetMaxJobsIfUnset n =>
      max_jobs_column (exec op db) = Some n \/ max_jobs_column (exec op db) = max_jobs_column db
  | _ => max_jobs_column (exec op db) = max_jobs_column db
  end.
Proof.
  destruct op; try (frames_call; done).
  - done.
  - cbn. unfold set_max_jobs_if_unset. tx_unfold. by case_decide; cbn; auto.
  - cbn. by apply (frames_run max_jobs_column), reconcile_frames.
Qed.

(** ** Capacity *)

(** An acquisition inserts at most its own row, and only below the limit it
    read in the same transaction. *)
Definition adds_one_below (h : string) (db db' : LedgerDb) : Prop :=
  permits db' = permits db \/
  exists max p, max_jobs db = Some max /\ permits db !! h = None /\
    Z.of_nat (size (permits db)) < max /\ permits db' = <[h := p]> (permits db).

Lemma acquire_permits env h lane state g pid staged db :
  adds_one_below h db (run_tx (acquire_attempt_with_token env h lane state g pid staged) db).1.
Proof.
  apply run_tx_post; [by left|].
  unfold acquire_attempt_with_token, acquire_held, requeue_demand, grant_permit.
  repeat tx_step; ledger_rows; try by left.
  all: right; eexists _, _; split_and!; [done|done|lia|done].
Qed.

Definition configured (op : ledger_op) : option Z :=
  match op with
  | OpSetMaxJobs n | OpSetMaxJobsIfUnset n => Some n
  | _ => None
  end.

(** Every configured limit is at most [N]. *)
Definition limits_at_most (N : Z) (ops : list ledger_op) : Prop :=
  Forall (fun op => match configured op with Some n => n <= N | None => True end) ops.

Definition within (N : Z) (db : LedgerDb) : Prop :=
  match max_jobs_column db with Some n => n <= N | None => True end
  /\ Z.of_nat (size (permits db)) <= N.

Lemma max_jobs_within N db max : within N db -> max_jobs db = Some max -> max <= N.
Proof.
  unfold within, max_jobs, u32_try_from. destruct (max_jobs_column db); [|done].
  case_match; [|done]. intros [] [=]. lia.
Qed.

Lemma exec_limit_within N op db :
  within N db -> match configured op with Some n => n <= N | None => True end ->
  match max_jobs_column (exec op db) with Some n => n <= N | None => True end.
Proof.
  intros [W _] C. pose proof (exec_max_jobs op db) as E.
  destruct op; cbn [configured] in *; try (rewrite E; done). destruct E as [-> | ->]; done.
Qed.

Lemma size_within_dom db db' :
  dom (permits db') ⊆ dom (permits db) ∪ ∅ ->
  Z.of_nat (size (permits db')) <= Z.of_nat (size (permits db)).
Proof. rewrite <- !size_dom. intros S%(subseteq_size). rewrite union_empty_r_L in S. lia. Qed.

Lemma acquire_within N env h lane state g pid staged db :
  within N db ->
  Z.of_nat (size (permits (run_tx (acquire_attempt_with_token env h lane state g pid staged) db).1)) <= N.
Proof.
  intros W. destruct (acquire_permits env h lane state g pid staged db)
    as [-> |(max & p & M & F & L & ->)]; [apply W|].
  pose proof (max_jobs_within _ _ _ W M). rewrite map_size_insert_None by done. lia.
Qed.

Lemma exec_within N op db :
  Inv db -> within N db -> match configured op with Some n => n <= N | None => True end ->
  within N (exec op db).
Proof.
  intros I W C. split; [by eapply exec_limit_within|].
  assert (Z.of_nat (size (permits db)) <= N) by apply W.
  pose proof (so_dom _ _ _ (exec_step op db I)) as S.
  destruct op; try (etrans; [by apply size_within_dom|done]); clear S.
  - cbn. by apply acquire_within.
  - cbn. unfold acquire_scaleset_attempt_with_token. case_decide; [done|]. by apply acquire_within.
Qed.

(** C1: Whatever calls any number of processes make, in any interleaving and
    whether they succeed or fail, the host never holds more permits than the
    largest [max_jobs] ever configured: reconciliation, adoption, recovery
    rotation, staged replay and re-acquisition included. *)
Theorem capacity_never_exceeded ops N :
  0 <= N -> limits_at_most N ops ->
  Z.of_nat (size (permits (exec_all ops empty_ledger))) <= N.
Proof.
  intros HN L. refine (proj2 (proj2 (exec_all_ind (within N) ops empty_ledger _ Inv_empty _))).
  - intros op db E I W. apply exec_within; [done..|]. by apply (proj1 (Forall_forall _ _) L).
  - split; [done|]. cbn [empty_ledger permits]. rewrite map_size_empty. lia.
Qed.

(** Two holders compete for a host of one: the second is refused. *)
Definition env0 : Env := {| unix_now := 1000; process_id := 7; new_uuid := "t0" |}.
Definition env1 : Env := {| unix_now := 1001; process_id := 8; new_uuid := "t1" |}.
Definition race : list ledger_op :=
  [ OpSetMaxJobs 1; OpBeginEpoch;
    OpAcquire env0 "a" Native Reserved 1 (Some 7);
    OpAcquire env1 "b" ScaleSet Reserved 1 (Some 8) ].

Lemma capacity_never_exceeded_witness :
  size (permits (exec_all race empty_ledger)) = 1%nat /\
  Z.of_nat (size (permits (exec_all race empty_ledger))) <= 1.
Proof.
  split; [by vm_compute|]. apply (capacity_never_exceeded race 1); [lia|].
  repeat constructor; cbn; lia.
Defined.

(** ** The two tables together *)

Lemma exec_all_Inv ops db : Inv db -> Inv (exec_all ops db).
Proof. intros I. by apply (exec_all_ind (fun _ => True)). Qed.

(** C2: In every reachable database a held permit has a demand row of the
    same lane which is granted or already closed, a granted demand has its
    permit, no two holders carry the same attempt token and no two demands
    the same place in the queue. *)
Theorem reachable_tables_are_coupled ops h :
  let db := exec_all ops empty_ledger in
  coupled (permits db !! h) (permit_demands db !! h) /\
  (forall h' p p', permits db !! h = Some p -> permits db !! h' = Some p' ->
     p_attempt_token p = p_attempt_token p' -> h = h') /\
  (forall h' d d', permit_demands db !! h = Some d -> permit_demands db !! h' = Some d' ->
     d_sequence d = d_sequence d' -> h = h').
Proof.
  cbv zeta. pose proof (exec_all_Inv ops _ Inv_empty) as [I1 I2 I3]. split_and!; eauto.
Qed.

(** ** Places in the queue *)

Lemma exec_all_kept ops db h :
  Inv db -> demand_kept_opt (permit_demands db !! h) (permit_demands (exec_all ops db) !! h).
Proof.
  intros I.
  apply (exec_all_ind (fun db' => demand_kept_opt (permit_demands db !! h) (permit_demands db' !! h)));
    [|done|apply demand_kept_opt_refl].
  intros op db' _ I' K. eapply demand_kept_opt_trans; [done|]. by apply (so_kept _ _ _ (exec_step op db' I')).
Qed.

(** Once a demand has been recorded, no later call of any process removes
    it or changes its lane, its scope, the time it was first seen or its
    sequence number, and a terminal or cancelled demand never opens again:
    parking, revival, re-acquisition, release to the queue and recovery all
    keep the age a job was first seen with. *)
Theorem demand_place_is_permanent before after h d :
  permit_demands (exec_all before empty_ledger) !! h = Some d ->
  exists d', permit_demands (exec_all (before ++ after) empty_ledger) !! h = Some d' /\
    demand_kept d d'.
Proof.
  intros E. pose proof (exec_all_Inv before _ Inv_empty) as I.
  pose proof (exec_all_kept after _ h I) as K. rewrite E in K. cbn in K.
  unfold exec_all in *. by rewrite fold_left_app.
Qed.

Definition parked : list ledger_op :=
  [ OpSetMaxJobs 1; OpBeginEpoch; OpObserve "a" Native "repo" 500 500 ].
Definition revived : list ledger_op :=
  [ OpPark env0 "a"; OpObserve "a" Native "elsewhere" 900 900;
    OpAcquire env0 "a" Native Reserved 1 (Some 7); OpReleaseToEligible env1 "a" "t0" ].

Lemma demand_place_is_permanent_witness :
  exists d', permit_demands (exec_all (parked ++ revived) empty_ledger) !! "a" = Some d' /\
    demand_kept (demand_row Native "repo" 500 1 Eligible 500) d'.
Proof.
  apply (demand_place_is_permanent parked revived "a"). by vm_compute.
Defined.

(** ** Closed demands *)

(** No permit, and a demand that is terminal or cancelled. *)
Definition finished (h : string) (db : LedgerDb) : Prop :=
  permits db !! h = None /\
  exists d, permit_demands db !! h = Some d /\ closed_state (d_state d).

Lemma acquire_finished env h lane state g pid staged db :
  finished h db ->
  permits (run_tx (acquire_attempt_with_token env h lane state g pid staged) db).1 !! h = None.
Proof.
  intros [P (d & D & C)].
  apply (run_tx_post _ (fun db' => permits db' !! h = None)); [done|].
  unfold acquire_attempt_with_token, acquire_held, requeue_demand, grant_permit.
  unfold closed_state in C.
  repeat tx_step; ledger_rows; try congruence; exfalso;
    ledger_states; destruct (pd_state _); naive_solver congruence.
Qed.

Lemma exec_finished op h db : Inv db -> finished h db -> finished h (exec op db).
Proof.
  intros I F. pose proof (exec_step op db I) as [_ K S]. pose proof F as [P (d & D & C)]. split.
  - assert (N : h ∉ dom (permits db)) by (by rewrite not_elem_of_dom).
    destruct (decide (h ∈ new_holder op)) as [E|E].
    + destruct op; cbn [new_holder] in E; try (by apply not_elem_of_empty in E);
        apply elem_of_singleton in E as <-; cbn.
      * by apply acquire_finished.
      * unfold acquire_scaleset_attempt_with_token. case_decide; [done|]. by apply acquire_finished.
    + apply not_elem_of_dom. set_solver.
  - specialize (K h). rewrite D in K. destruct K as (d' & E & K). exists d'. split; [done|].
    by apply K.
Qed.

(** A job whose demand is closed and whose permit is gone never runs on
    this host again: no sequence of later calls gives that holder a permit. *)
Theorem finished_holder_stays_finished before after h :
  finished h (exec_all before empty_ledger) ->
  permits (exec_all (before ++ after) empty_ledger) !! h = None.
Proof.
  intros F. pose proof (exec_all_Inv before _ Inv_empty) as I.
  unfold exec_all in *. rewrite fold_left_app.
  refine (proj1 (proj2 (exec_all_ind (finished h) after _ _ I F))).
  intros op db _ I' F'. by apply exec_finished.
Qed.

Definition completed : list ledger_op :=
  [ OpSetMaxJobs 1; OpBeginEpoch; OpAcquire env0 "a" Native Reserved 1 (Some 7);
    OpReleaseNativeTerminal env1 "a" "t0" ].

Lemma finished_holder_stays_finished_witness :
  permits (exec_all (completed ++ [OpAcquire env1 "a" Native Reserved 1 (Some 8)]) empty_ledger)
    !! "a" = None.
Proof.
  apply finished_holder_stays_finished. split; [by vm_compute|].
  eexists. split; [by vm_compute|]. left. by vm_compute.
Defined.
