(* ===== verification/LedgerQueue.v ===== *)
(** * Permit ledger: order and progress of the queue

    What [acquire_attempt_with_token] promises to the holders that compete
    for the shared capacity: the head of the queue is unique, only the head
    is granted, and while there is room the head is granted at once. *)

From S2P Require Import Prelude LedgerData LedgerOps LedgerInv LedgerSteps LedgerSafety.
From stdpp Require Import base gmap sets list strings.
#[local] Open Scope Z_scope.

(** ** The head of the queue *)

Lemma older_trans d1 d2 d3 : older d1 d2 -> older d2 d3 -> older d1 d3.
Proof. unfold older. lia. Qed.
Lemma older_irrefl d : ~ older d d.
Proof. unfold older. lia. Qed.
Lemma older_total d1 d2 : d_sequence d1 <> d_sequence d2 -> ~ older d1 d2 -> older d2 d1.
Proof. unfold older. lia. Qed.

(** [ORDER BY first_seen_unix, sequence LIMIT 1] over the fresh rows. *)
Lemma oldest_eligible_spec t m :
  match oldest_eligible t m with
  | None => forall h d, m !! h = Some d -> ~ fresh_eligible t d
  | Some (h, d) => m !! h = Some d /\ fresh_eligible t d /\
      forall h' d', m !! h' = Some d' -> fresh_eligible t d' -> ~ older d' d
  end.
Proof.
  unfold oldest_eligible.
  apply (map_fold_weak_ind (fun acc m => match acc with
    | None => forall h d, m !! h = Some d -> ~ fresh_eligible t d
    | Some (h, d) => m !! h = Some d /\ fresh_eligible t d /\
        forall h' d', m !! h' = Some d' -> fresh_eligible t d' -> ~ older d' d end)).
  { intros h d. by rewrite lookup_empty. }
  intros h d m0 acc Hm IH. case_decide as F.
  - destruct acc as [[h1 d1]|].
    + destruct IH as (E1 & F1 & B). assert (h <> h1) by congruence. case_decide as O.
      * split_and!; [by rewrite lookup_insert_eq|done|].
        intros h' d' [[_ <-]|[_ E']]%lookup_insert_Some F'; [apply older_irrefl|].
        intros O'. apply (B h' d' E' F'). by eapply older_trans.
      * split_and!; [by rewrite lookup_insert_ne|done|].
        intros h' d' [[_ <-]|[_ E']]%lookup_insert_Some F'; [done|eauto].
    + split_and!; [by rewrite lookup_insert_eq|done|].
      intros h' d' [[_ <-]|[_ E']]%lookup_insert_Some F'; [apply older_irrefl|].
      by destruct (IH h' d' E').
  - destruct acc as [[h1 d1]|].
    + destruct IH as (E1 & F1 & B). split_and!; [|done|].
      * rewrite lookup_insert_ne; [done|congruence].
      * intros h' d' [[_ <-]|[_ E']]%lookup_insert_Some F'; [done|eauto].
    + intros h' d' [[_ <-]|[_ E']]%lookup_insert_Some; eauto.
Qed.

(** A fresh row that is older than every other fresh row is the head. *)
Lemma oldest_eligible_head t m h d :
  m !! h = Some d -> fresh_eligible t d ->
  (forall h' d', m !! h' = Some d' -> h' <> h -> fresh_eligible t d' -> older d d') ->
  oldest_eligible t m = Some (h, d).
Proof.
  intros E F B. pose proof (oldest_eligible_spec t m) as S.
  destruct (oldest_eligible t m) as [[h1 d1]|]; [|by destruct (S h d)].
  destruct S as (E1 & F1 & M). destruct (decide (h1 = h)) as [->|N]; [congruence|].
  exfalso. apply (M h d E F). by apply (B h1).
Qed.

(** ** Fairness *)

(** The queue position a fresh observation is compared against. *)
Definition stale_cutoff (env : Env) : Z :=
  i64_clamp (u64_saturating_sub (unix_now env) DEMAND_STALE_AFTER_SECS).

(** A new permit row appears only for the head of the queue. *)
Definition grants_head (env : Env) (h : string) (db db' : LedgerDb) : Prop :=
  permits db !! h = None -> permits db' !! h <> None ->
  exists d, permit_demands db' !! h = Some d /\
    forall h' d', h' <> h -> permit_demands db !! h' = Some d' ->
      fresh_eligible (stale_cutoff env) d' -> ~ older d' d.

Lemma acquire_grants_head env h lane state g pid staged db :
  grants_head env h db (run_tx (acquire_attempt_with_token env h lane state g pid staged) db).1.
Proof.
  apply run_tx_post; [by intros ? []|].
  unfold acquire_attempt_with_token, acquire_held, requeue_demand, grant_permit, grants_head.
  repeat tx_step; ledger_rows; try (by intros ? []);
    try (match goal with H : forall d, _ = Some d -> ~ True |- _ => by destruct (H _ ltac:(eassumption)) end).
  all: match goal with E : oldest_eligible ?t ?m = Some (?s, _), N : ~ (?s <> _) |- _ =>
         pose proof (oldest_eligible_spec t m) as S; rewrite E in S;
         apply dec_stable in N; subst s end.
  all: destruct S as (E & F & B); rewrite lookup_insert_eq in E; simplify_eq; intros _ _.
  all: eexists; split; [apply lookup_insert_eq|]; intros h' d' N D' F'.
  all: intros O; eapply (B h' d'); [|exact F'|exact O]; by rewrite !lookup_insert_ne by done.
Qed.

(** C5: Capacity is granted in queue order across both lanes: when an
    acquisition, staged or not, adds a permit row to a reachable database, the
    holder's demand is strictly older (first seen earlier, or at the same
    time with a smaller sequence) than every other eligible demand that has
    been refreshed within the staleness window. *)
Theorem grants_are_first_come_first_served ops env h lane state g pid staged :
  let db := exec_all ops empty_ledger in
  let db' := (run_tx (acquire_attempt_with_token env h lane state g pid staged) db).1 in
  permits db !! h = None -> permits db' !! h <> None ->
  exists d, permit_demands db' !! h = Some d /\
    forall h' d', h' <> h -> permit_demands db !! h' = Some d' ->
      fresh_eligible (stale_cutoff env) d' -> older d d'.
Proof.
  cbv zeta. intros P P'. set (db := exec_all ops empty_ledger) in *.
  pose proof (exec_all_Inv ops _ Inv_empty : Inv db) as I.
  destruct (acquire_grants_head env h lane state g pid staged db P P') as (d & D & B).
  pose proof (acquire_step db I env h lane state g pid staged) as [I' K _].
  exists d. split; [done|]. intros h' d' N D' F.
  apply older_total; [|by eapply B].
  specialize (K h'). rewrite D' in K. destruct K as (d1 & D1 & _ & _ & _ & Q & _).
  intros E. apply N. eapply (inv_sequences _ I'); [exact D1|exact D|congruence].
Qed.

Definition two_waiting : list ledger_op :=
  [ OpSetMaxJobs 2; OpBeginEpoch; OpObserve "late" Native "" 990 990;
    OpObserve "early" ScaleSet "" 980 990 ].

Lemma grants_are_first_come_first_served_witness :
  let db := exec_all two_waiting empty_ledger in
  (run_tx (acquire_attempt_with_token env0 "late" Native Reserved 1 None None) db).2 = Ok Deferred /\
  exists d, permit_demands
      (run_tx (acquire_attempt_with_token env0 "early" ScaleSet Reserved 1 None (Some "s")) db).1
      !! "early" = Some d /\
    forall h' d', h' <> "early" -> permit_demands db !! h' = Some d' ->
      fresh_eligible (stale_cutoff env0) d' -> older d d'.
Proof.
  split; [by vm_compute|].
  apply grants_are_first_come_first_served; by vm_compute.
Defined.

(** ** Progress *)

Lemma parse_demand_row h d l s :
  d_lane d = PermitLane_as_str l -> d_state d = DemandState_as_str s ->
  exists pd, parse_demand h d = Ok pd /\ pd_lane pd = l /\ pd_state pd = s.
Proof.
  intros L S. unfold parse_demand. rewrite L, S, PermitLane_parse_as_str, DemandState_parse_as_str.
  eauto.
Qed.

Lemma now_is_fresh env :
  0 < unix_now env <= i64_max -> stale_cutoff env < i64_clamp (unix_now env).
Proof.
  unfold stale_cutoff, i64_clamp, u64_saturating_sub, DEMAND_STALE_AFTER_SECS. lia.
Qed.

(** The head of the queue stays the head when its own row is refreshed. *)
Lemma refreshed_head_is_head t u m h d :
  (forall h1 h2 d1 d2, m !! h1 = Some d1 -> m !! h2 = Some d2 -> d_sequence d1 = d_sequence d2 -> h1 = h2) ->
  t < u -> oldest_eligible t m = Some (h, d) ->
  oldest_eligible t (<[h := demand_touch u d]> m) = Some (h, demand_touch u d).
Proof.
  intros Seq U O. pose proof (oldest_eligible_spec t m) as S. rewrite O in S.
  destruct S as (E & [F _] & B). apply oldest_eligible_head.
  - apply lookup_insert_eq.
  - split; done.
  - intros h' d' E' N F'. rewrite lookup_insert_ne in E' by done.
    cut (older d d'); [done|]. apply older_total; [|by eapply B]. intros Q. apply N. eauto.
Qed.

(** The row a grant writes. *)
Definition granted_row (env : Env) (lane : PermitLane) (state : PermitState) (g : Z)
    (pid : option Z) (token : string) : PermitRow := {|
  p_lane := PermitLane_as_str lane;
  p_state := PermitState_as_str state;
  p_acquired_unix := i64_clamp (unix_now env);
  p_updated_unix := i64_clamp (unix_now env);
  p_generation := i64_clamp g;
  p_pid := pid;
  p_attempt_token := token;
  p_recovery_claim_token := None;
  p_recovery_previous_pid := None;
  p_recovery_previous_token := None;
|}.

Lemma acquire_head env h d lane state pid staged db max :
  Inv db -> max_jobs db = Some max -> Z.of_nat (size (permits db)) < max ->
  0 < unix_now env <= i64_max -> d_lane d = PermitLane_as_str lane ->
  permits db !! h = None ->
  oldest_eligible (stale_cutoff env) (permit_demands db) = Some (h, d) ->
  let token := default (new_uuid env) staged in
  ~ token_taken db h token ->
  let r := run_tx (acquire_attempt_with_token env h lane state (generation db) pid staged) db in
  r.2 = Ok (AttemptAcquired token) /\
  permits r.1 = <[h := granted_row env lane state (generation db) pid token]> (permits db).
Proof.
  intros I M Room Now L P O token T. cbv zeta.
  pose proof (oldest_eligible_spec (stale_cutoff env) (permit_demands db)) as S.
  rewrite O in S. destruct S as (D & [St _] & _).
  destruct (parse_demand_row h d lane Eligible L St) as (pd & Pd & Pl & Ps).
  unfold acquire_attempt_with_token, generation. tx_unfold. rewrite decide_False by auto.
  unfold select_permit. rewrite P, M. unfold ensure_demand_tx, read_demand. tx_unfold.
  rewrite D, Pd. unfold check_demand_lane. rewrite decide_True by done. tx_unfold.
  rewrite decide_False by (rewrite Ps; naive_solver). unfold requeue_demand. rewrite Ps.
  unfold update_demand. tx_unfold. rewrite D, decide_True by done. ledger_simpl.
  rewrite decide_False by lia. fold (stale_cutoff env).
  rewrite (refreshed_head_is_head _ _ _ _ _ (inv_sequences _ I) (now_is_fresh _ Now) O).
  rewrite decide_False by auto. unfold grant_permit, insert_permit, update_demand. tx_unfold.
  ledger_simpl. rewrite P. rewrite decide_False by done. ledger_simpl.
  rewrite lookup_insert_eq, decide_True by done. cbn. done.
Qed.

Lemma eligible_holds_nothing db h d :
  Inv db -> permit_demands db !! h = Some d -> d_state d = DemandState_as_str Eligible ->
  permits db !! h = None /\ exists lane, d_lane d = PermitLane_as_str lane.
Proof.
  intros I D E. pose proof (inv_coupled _ I h) as C. rewrite D in C. unfold coupled, closed_state in C.
  destruct (permits db !! h); destruct C as (L & C); [|eauto].
  rewrite E in C. by destruct C as (_ & [?|[?|?]]).
Qed.

(** C6: The queue never stalls. In a reachable, configured database with room
    for one more job, if any demand is eligible and fresh then the head of
    the queue is such a demand, at least as old as the given one, and the
    next acquisition by its holder in the current generation is granted, with
    any initial state and either a staged or a fresh attempt token. *)
Theorem queue_never_stalls ops env max h0 d0 :
  let db := exec_all ops empty_ledger in
  max_jobs db = Some max -> Z.of_nat (size (permits db)) < max ->
  0 < unix_now env <= i64_max ->
  permit_demands db !! h0 = Some d0 -> fresh_eligible (stale_cutoff env) d0 ->
  exists h d lane,
    permit_demands db !! h = Some d /\ fresh_eligible (stale_cutoff env) d /\ ~ older d0 d /\
    d_lane d = PermitLane_as_str lane /\
    forall state pid staged, ~ token_taken db h (default (new_uuid env) staged) ->
      let r := run_tx (acquire_attempt_with_token env h lane state (generation db) pid staged) db in
      r.2 = Ok (AttemptAcquired (default (new_uuid env) staged)) /\
      is_Some (permits r.1 !! h).
Proof.
  cbv zeta. set (db := exec_all ops empty_ledger). intros M Room Now D0 F0.
  pose proof (exec_all_Inv ops _ Inv_empty : Inv db) as I.
  pose proof (oldest_eligible_spec (stale_cutoff env) (permit_demands db)) as S.
  destruct (oldest_eligible _ _) as [[h d]|] eqn:O; [|by destruct (S h0 d0)].
  destruct S as (D & F & B). destruct (eligible_holds_nothing db h d I D (proj1 F)) as [P [lane L]].
  exists h, d, lane. split_and!; [done..|by eapply B|done|]. intros state pid staged T.
  destruct (acquire_head env h d lane state pid staged db max I M Room Now L P O T) as [-> ->].
  split; [done|]. rewrite lookup_insert_eq. eauto.
Qed.

Lemma queue_never_stalls_witness :
  let db := exec_all two_waiting empty_ledger in
  exists h d lane,
    permit_demands db !! h = Some d /\ fresh_eligible (stale_cutoff env0) d /\
    ~ older (demand_row Native "" 990 1 Eligible 990) d /\
    d_lane d = PermitLane_as_str lane /\
    forall state pid staged, ~ token_taken db h (default (new_uuid env0) staged) ->
      let r := run_tx (acquire_attempt_with_token env0 h lane state (generation db) pid staged) db in
      r.2 = Ok (AttemptAcquired (default (new_uuid env0) staged)) /\
      is_Some (permits r.1 !! h).
Proof.
  apply (queue_never_stalls two_waiting env0 2 "late"); try by vm_compute.
Defined.
