(* ===== verification/LedgerFence.v ===== *)
(** * Permit ledger: fencing

    Attempt tokens, generations and process liveness decide who may change a
    holder's rows. A caller that lost its permit to another attempt, a caller
    of an older generation, and a caller that meets a live owner change
    nothing; a permit under cleanup is left to its cleanup owner. *)

From S2P Require Import Prelude LedgerData LedgerOps LedgerReconcile LedgerInv LedgerSteps LedgerSafety.
From stdpp Require Import base gmap sets list strings.
#[local] Open Scope Z_scope.

Ltac unfold_calls :=
  unfold observe_demand, park_demand, cancel_demand, acquire_attempt,
    acquire_scaleset_attempt_with_token, acquire_attempt_with_token, acquire_held,
    requeue_demand, grant_permit, adopt_for_redelivery, rotate_scaleset_attempt_for_recovery,
    claim_scaleset_recovery, claim_release, transition_owned, transition_for_attempt,
    claim_recorded_terminal_cleanup, release_owned, release_to_eligible_owned,
    release_cancelled_owned, release_with_demand_state, release_native_terminal_owned,
    release_native_cancelled_owned, release_native_owned_with_terminal_demand,
    native_release_absent, forget_cleanup_release, release_scaleset_staged_owned,
    retain_uncertain_owned, retain_uncertain_for_attempt, close_open_demand,
    retain_recorded_failure_uncertain_owned, retain_uncertain_after_cleanup_owned,
    grant_if_eligible, begin_epoch.

(** ** Attempt tokens *)

(** The holder and the attempt a call acts for; a recovery rotation acts for
    the attempt it replaces. *)
Definition acting_for (op : ledger_op) : option (string * string) :=
  match op with
  | OpTransition _ h _ _ t | OpClaimCleanup _ h _ t | OpRelease _ h t
  | OpReleaseToEligible _ h t | OpReleaseCancelled _ h t | OpReleaseNativeTerminal _ h t
  | OpReleaseNativeCancelled _ h t | OpReleaseScaleSet _ h t _ | OpRetain _ h _ t
  | OpRetainFailure _ h _ t | OpRetainAfterCleanup _ h t
  | OpRotate _ h _ _ _ (Some t) _ _ => Some (h, t)
  | _ => None
  end.

Definition same_rows (db db' : LedgerDb) : Prop :=
  permits db' = permits db /\ permit_demands db' = permit_demands db.

(** C7: A stale attempt is fenced off. A call that acts for an attempt which
    is no longer the one recorded in the holder's permit row (a transition,
    a cleanup claim, any release, any uncertain retention, a recovery
    rotation) changes neither a permit nor a demand, of any holder. *)
Theorem stale_attempt_changes_nothing op db h t p :
  acting_for op = Some (h, t) -> permits db !! h = Some p -> p_attempt_token p <> t ->
  same_rows db (exec op db).
Proof.
  intros A P N. destruct op; cbn in A; simplify_eq; cbn [exec];
    try (match goal with x : option string |- _ => destruct x; simplify_eq end);
    (apply run_tx_post; [done|]); unfold_calls; repeat tx_step; ledger_rows;
    first [done | congruence
          | exfalso; match goal with H : ~ (_ \/ _ \/ _) |- _ => apply H; right; right; by apply bool_decide_eq_false end ].
Qed.

Definition held_by_t0 : list ledger_op :=
  [ OpSetMaxJobs 2; OpBeginEpoch; OpAcquire env0 "a" Native Running 1 (Some 7) ].

Lemma stale_attempt_changes_nothing_witness :
  let db := exec_all held_by_t0 empty_ledger in
  (run_tx (release_native_terminal_owned env1 "a" "old") db).2 = Ok ReleaseStaleAttempt /\
  same_rows db (exec (OpReleaseNativeTerminal env1 "a" "old") db).
Proof.
  split; [by vm_compute|].
  eapply stale_attempt_changes_nothing; [reflexivity|by vm_compute|by vm_compute].
Defined.

(** ** Generations *)

Definition acting_generation (op : ledger_op) : option Z :=
  match op with
  | OpAcquire _ _ _ _ g _ | OpAcquireStaged _ _ _ g _ _ | OpAdopt _ _ _ _ _ g _
  | OpRotate _ _ _ g _ _ _ _ | OpTransition _ _ _ g _ | OpRetain _ _ g _
  | OpRetainFailure _ _ g _ => Some g
  | _ => None
  end.

(** A caller that still acts in another generation than the ledger's is
    fenced off: its acquisitions, adoptions, rotations, transitions and
    retentions leave the whole database as it was. *)
Theorem other_generation_changes_nothing op db g :
  acting_generation op = Some g -> generation db <> g -> exec op db = db.
Proof.
  intros A N. unfold generation in N. destruct op; cbn in A; simplify_eq; cbn [exec];
    apply (run_tx_post _ (fun db' => db' = db)); try done; unfold_calls;
    repeat tx_step; try done; exfalso; auto.
Qed.

Lemma other_generation_changes_nothing_witness :
  let db := exec_all (held_by_t0 ++ [OpBeginEpoch]) empty_ledger in
  generation db = 2 /\ exec (OpAcquire env1 "b" Native Reserved 1 None) db = db.
Proof.
  split; [by vm_compute|].
  eapply other_generation_changes_nothing; [reflexivity|by vm_compute].
Defined.

(** ** Cleanup ownership *)

(** The attempt [t] of [h] is being cleaned up. *)
Definition cleaning (h t : string) (db : LedgerDb) : Prop :=
  exists p, permits db !! h = Some p /\ p_attempt_token p = t /\
    p_state p = PermitState_as_str Cleaning.

(** The calls that may end a cleanup: a release or retention by the cleanup
    owner itself, and the takeover of a dead owner's row. *)
Definition may_end_cleanup (op : ledger_op) : bool :=
  match op with
  | OpAdopt _ _ _ _ _ _ _ | OpRotate _ _ _ _ _ _ _ _ | OpRelease _ _ _
  | OpReleaseToEligible _ _ _ | OpReleaseCancelled _ _ _ | OpReleaseNativeTerminal _ _ _
  | OpReleaseNativeCancelled _ _ _ | OpReleaseScaleSet _ _ _ _ | OpRetainFailure _ _ _ _
  | OpRetainAfterCleanup _ _ _ => true
  | _ => false
  end.

Lemma cleaning_same_permits h t db db' :
  permits db' = permits db -> cleaning h t db -> cleaning h t db'.
Proof. unfold cleaning. by intros ->. Qed.

Lemma fold_obs_preserves {X} (P : LedgerDb -> Prop) (body : X -> Obs -> rtx Obs) xs o :
  (forall x o, preserves P (body x o)) -> preserves P (fold_obs body xs o).
Proof.
  intros B. revert o. induction xs as [|x xs IH]; intros o; cbn; [by intros ?|].
  by apply preserves_bind.
Qed.

Lemma mark_recorded_preserves (P : LedgerDb -> Prop) now o rows marked :
  (forall h raw, preserves P (mark_unobserved now o h raw)) ->
  preserves P (mark_recorded now o rows marked).
Proof.
  intros B. revert marked. induction rows as [|[h raw] rows IH]; intros marked; cbn; [by intros ?|].
  by apply preserves_bind.
Qed.

(** A property of the permit rows survives a reconciliation if marking one
    row uncertain keeps it. *)
Lemma reconcile_preserves (P : LedgerDb -> Prop) env alive rots rels acqs :
  (forall db db', permits db' = permits db -> P db -> P db') ->
  (forall now o h raw, preserves P (mark_unobserved now o h raw)) ->
  preserves P (reconcile_attempts_with_staged_acquisitions env alive rots rels acqs).
Proof.
  intros F M. unfold reconcile_attempts_with_staged_acquisitions.
  repeat first
    [ apply preserves_bind; intros
    | apply fold_obs_preserves; intros
    | apply mark_recorded_preserves; auto ].
  all: repeat (match goal with x : _ * _ |- _ => destruct x end).
  all: intros db HP; unfold check_alive, check_staged_rotation, check_staged_release,
         check_staged_acquisition, grant_if_eligible; repeat tx_step; try done;
         (apply (F db); [reflexivity|exact HP]).
Qed.

(** Close a branch that wrote a permit row, from [C : cleaning h t db]. *)
Ltac solve_cleaning C :=
  let q := fresh "q" in let E := fresh "E" in let T := fresh "T" in let S := fresh "S" in
  destruct C as (q & E & T & S); unfold cleaning; ledger_simpl;
  first
  [ exists q; done
  | match goal with |- context [<[?h' := ?r]> _ !! ?h] =>
      destruct (decide (h' = h)) as [->|];
      [ ledger_rows; first [ eexists; rewrite lookup_insert_eq; split_and!; [reflexivity|ledger_simpl; congruence..] | exfalso; congruence | exfalso; naive_solver ]
      | exists q; rewrite lookup_insert_ne by done; done ]
    end ].

Lemma mark_unobserved_cleaning now o h' raw h t : preserves (cleaning h t) (mark_unobserved now o h' raw).
Proof.
  intros db C. unfold mark_unobserved, grant_if_eligible. repeat tx_step; try done.
  all: solve_cleaning C.
Qed.


Definition cleaning_a : list ledger_op :=
  held_by_t0 ++ [OpClaimCleanup env1 "a" Native "t0"].

