(* ===== verification/LedgerRecovery.v ===== *)
(** * Permit ledger: restarts, reconciliation and replay

    What a restarted process may rely on: a reconciliation confirms exactly
    the attempts it was shown and turns every other permit uncertain without
    freeing capacity, capacity is advertised only after it, and the calls a
    recovering owner repeats (releases, staged acquisitions, rotations) have
    their effect once. *)

From S2P Require Import Prelude LedgerData LedgerOps LedgerReconcile LedgerInv LedgerSteps LedgerSafety LedgerQueue LedgerFence.
From stdpp Require Import base gmap sets list strings sorting.
#[local] Open Scope Z_scope.

(** ** What marking does to one row *)

(** From [p] to [p'] while the holders of [o] are left alone; [due] says that
    the row's turn has come. *)
Definition marked_row (o : Obs) (h : string) (due : Prop) (p p' : option PermitRow) : Prop :=
  match p with
  | None => p' = None
  | Some p => exists q, p' = Some q /\
      p_attempt_token q = p_attempt_token p /\ p_lane q = p_lane p /\
      (h ∈ observed_holders o -> q = p) /\
      (q = p \/ p_state q = PermitState_as_str Uncertain) /\
      (due -> h ∉ observed_holders o ->
         p_state q = PermitState_as_str Uncertain \/
         (q = p /\ p_state p = PermitState_as_str Cleaning))
  end.

Lemma marked_row_refl o h p : marked_row o h False p p.
Proof. destruct p; cbn; [|done]. eexists; split_and!; eauto. done. Qed.

Lemma marked_row_trans o h due1 due2 p1 p2 p3 :
  marked_row o h due1 p1 p2 -> marked_row o h due2 p2 p3 -> marked_row o h (due1 \/ due2) p1 p3.
Proof.
  destruct p1 as [p1|]; cbn; [|by intros ->].
  intros (q & -> & T1 & L1 & O1 & K1 & D1) (r & -> & T2 & L2 & O2 & K2 & D2).
  exists r. split_and!; [done|congruence|congruence| | |].
  - intros Ho. rewrite O2, O1; done.
  - destruct K2 as [->|]; [done|by right].
  - intros [d|d] N.
    + destruct (D1 d N) as [U|[-> C]], K2 as [->|U2]; auto.
    + destruct (D2 d N) as [U|[-> C]]; [by left|]. destruct K1 as [->|U]; [by right|].
      by rewrite U in C.
Qed.

Lemma marked_row_weaken o h (due due' : Prop) p p' :
  (due' -> due) -> marked_row o h due p p' -> marked_row o h due' p p'.
Proof. destruct p; cbn; [|done]. naive_solver. Qed.

Lemma mark_unobserved_row now o h' raw db :
  flow_post (fun _ db' => forall h, marked_row o h (h = h') (permits db !! h) (permits db' !! h))
    (fun _ _ => False) (mark_unobserved now o h' raw db).
Proof.
  unfold mark_unobserved, grant_if_eligible. repeat tx_step; try done; intros h; ledger_simpl.
  all: destruct (decide (h = h')) as [->|N];
    [|rewrite ?lookup_insert_ne by done; by eapply marked_row_weaken, marked_row_refl].
  all: rewrite ?lookup_insert_eq.
  all: destruct (permits db !! h') as [pr|] eqn:E; cbn; try done; simplify_eq.
  all: eexists; split_and!; [reflexivity|done|done| | |]; try by auto.
  intros _ _. right. split; [done|]. apply dec_stable. eauto.
Qed.

Lemma mark_recorded_row now o rows marked db :
  flow_post (fun _ db' => forall h, marked_row o h (h ∈ rows.*1) (permits db !! h) (permits db' !! h))
    (fun _ _ => False) (mark_recorded now o rows marked db).
Proof.
  revert marked db. induction rows as [|[h' raw] rows IH]; intros marked db; cbn.
  - intros h. eapply marked_row_weaken, marked_row_refl. by intros ?%elem_of_nil.
  - apply post_bind. eapply post_weaken; [apply mark_unobserved_row| |done].
    intros b db1 M1. eapply post_weaken; [apply IH| |done].
    intros m2 db2 M2 h. eapply marked_row_weaken, marked_row_trans; [|apply M1|apply M2].
    by rewrite elem_of_cons.
Qed.

(** ** The attestation loops *)

(** The holders a reconciliation is shown. *)
Definition attested (alive : list (string * PermitLane * string))
    (rotations : list (string * PermitLane * option string * string))
    (releases : list (string * PermitLane * string * DemandState))
    (acquisitions : list (string * PermitLane * string)) : gset string :=
  list_to_set ((fun x => x.1.1) <$> alive) ∪ list_to_set ((fun x => x.1.1.1) <$> rotations) ∪
  list_to_set ((fun x => x.1.1.1) <$> releases) ∪ list_to_set ((fun x => x.1.1) <$> acquisitions).

(** One iteration looks at one holder and writes no permit row. *)
Lemma fold_obs_rows {X} (name : X -> string) (body : X -> Obs -> rtx Obs) (Q : X -> LedgerDb -> Prop) :
  (forall x db db', permits db' = permits db -> Q x db -> Q x db') ->
  (forall x o db, flow_post (fun o' db' => permits db' = permits db /\ Q x db /\
     observed_holders o' = {[name x]} ∪ observed_holders o) (fun _ _ => False) (body x o db)) ->
  forall xs o db, flow_post (fun o' db' => permits db' = permits db /\ (forall x, x ∈ xs -> Q x db) /\
     observed_holders o' = observed_holders o ∪ list_to_set (name <$> xs)) (fun _ _ => False)
     (fold_obs body xs o db).
Proof.
  intros W B xs. induction xs as [|x xs IH]; intros o db; cbn.
  - split_and!; [done|by intros x ?%elem_of_nil|set_solver].
  - apply post_bind. eapply post_weaken; [apply B| |done]. intros o1 db1 (P1 & Q1 & O1).
    eapply post_weaken; [apply IH| |done]. intros o2 db2 (P2 & Q2 & O2).
    split_and!; [congruence| |set_solver].
    intros x' [->|E]%elem_of_cons; [done|]. by apply (W x' db1); [|apply Q2].
Qed.

(** An attested live attempt is the current one. *)
Definition is_current (x : string * PermitLane * string) (db : LedgerDb) : Prop :=
  exists p, permits db !! x.1.1 = Some p /\ p_attempt_token p = x.2 /\
    p_lane p = PermitLane_as_str x.1.2.

Lemma check_alive_rows now x o db :
  flow_post (fun o' db' => permits db' = permits db /\ is_current x db /\
    observed_holders o' = {[x.1.1]} ∪ observed_holders o) (fun _ _ => False) (check_alive now x o db).
Proof.
  destruct x as [[h lane] t]. unfold check_alive, grant_if_eligible. repeat tx_step; try done.
  all: split_and!; [done| |done]; eexists; split_and!; [done|by apply dec_stable|done].
Qed.

Lemma check_staged_rotation_rows now x o db :
  flow_post (fun o' db' => permits db' = permits db /\ True /\
    observed_holders o' = {[x.1.1.1]} ∪ observed_holders o) (fun _ _ => False)
    (check_staged_rotation now x o db).
Proof.
  destruct x as [[[h lane] pt] t]. unfold check_staged_rotation, grant_if_eligible. by repeat tx_step.
Qed.

Lemma check_staged_release_rows x o db :
  flow_post (fun o' db' => permits db' = permits db /\ True /\
    observed_holders o' = {[x.1.1.1]} ∪ observed_holders o) (fun _ _ => False)
    (check_staged_release x o db).
Proof. destruct x as [[[h lane] t] st]. unfold check_staged_release. by repeat tx_step. Qed.

Lemma check_staged_acquisition_rows x o db :
  flow_post (fun o' db' => permits db' = permits db /\ True /\
    observed_holders o' = {[x.1.1]} ∪ observed_holders o) (fun _ _ => False)
    (check_staged_acquisition x o db).
Proof. destruct x as [[h lane] t]. unfold check_staged_acquisition. by repeat tx_step. Qed.

(** ** Reconciliation *)

Section NoRollback.
Context {R : Type}.

Lemma no_rollback_insert_permit h p : no_rollback (insert_permit (R := R) h p).
Proof. intros db r. unfold insert_permit. by repeat case_match. Qed.
Lemma no_rollback_delete_permit h t : no_rollback (delete_permit (R := R) h t).
Proof. intros db r. unfold delete_permit. by repeat case_match. Qed.
Lemma no_rollback_update_permit h cond `{forall p, Decision (cond p)} f :
  no_rollback (update_permit (R := R) h cond f).
Proof. intros db r. unfold update_permit. by repeat case_match. Qed.
Lemma no_rollback_update_demand h cond `{forall p, Decision (cond p)} f :
  no_rollback (update_demand (R := R) h cond f).
Proof. intros db r. unfold update_demand. by repeat case_match. Qed.
Lemma no_rollback_read_demand h : no_rollback (read_demand (R := R) h).
Proof. intros db r. unfold read_demand. by repeat case_match. Qed.
Lemma no_rollback_check_lane h d l : no_rollback (check_demand_lane (R := R) h d l).
Proof. intros db r. unfold check_demand_lane. by case_decide. Qed.
Lemma no_rollback_lane_mismatch h l p : no_rollback (lane_mismatch (R := R) h l p).
Proof. intros db r. unfold lane_mismatch, when. by case_decide. Qed.
Lemma no_rollback_ensure h l s t u i : no_rollback (ensure_demand_tx (R := R) h l s t u i).
Proof.
  unfold ensure_demand_tx. apply no_rollback_bind; [apply no_rollback_read_demand|intros [d|]].
  - by apply no_rollback_bind; [apply no_rollback_check_lane|intros].
  - apply no_rollback_bind; [intros db r; unfold next_sequence; by case_decide|intros].
    apply no_rollback_bind; [intros db r; unfold insert_demand; by repeat case_match|by intros].
Qed.
Lemma no_rollback_grant_if_eligible h now d : no_rollback (grant_if_eligible (R := R) h now d).
Proof.
  unfold grant_if_eligible, when. case_decide; [|done].
  by apply no_rollback_bind; [apply no_rollback_update_demand|].
Qed.
End NoRollback.

Lemma no_rollback_fold_obs {X} (body : X -> Obs -> rtx Obs) xs o :
  (forall x o, no_rollback (body x o)) -> no_rollback (fold_obs body xs o).
Proof.
  intros B. revert o. induction xs as [|x xs IH]; intros o; cbn; [done|]. by apply no_rollback_bind.
Qed.

Ltac solve_no_rollback :=
  repeat first
  [ done
  | apply no_rollback_ensure | apply no_rollback_grant_if_eligible | apply no_rollback_update_permit
  | apply no_rollback_lane_mismatch | apply no_rollback_check_lane | apply no_rollback_update_demand
  | apply no_rollback_bind; [|intros]
  | case_match ].

Lemma no_rollback_mark_recorded now o rows marked : no_rollback (mark_recorded now o rows marked).
Proof.
  revert marked. induction rows as [|[h raw] rows IH]; intros marked; cbn; [done|].
  apply no_rollback_bind; [|done]. unfold mark_unobserved. solve_no_rollback.
Qed.

Lemma no_rollback_reconcile env alive rots rels acqs :
  no_rollback (reconcile_attempts_with_staged_acquisitions env alive rots rels acqs).
Proof.
  unfold reconcile_attempts_with_staged_acquisitions.
  repeat (apply no_rollback_bind; [|intros]); try done; try apply no_rollback_mark_recorded;
    apply no_rollback_fold_obs; intros x o.
  - unfold check_alive. solve_no_rollback.
  - unfold check_staged_rotation. solve_no_rollback.
  - unfold check_staged_release. solve_no_rollback.
  - unfold check_staged_acquisition. solve_no_rollback.
Qed.

(** What a row looks like after a successful reconciliation. *)
Definition reconciled_row (seen : bool) (p p' : option PermitRow) : Prop :=
  match p, p' with
  | None, None => True
  | Some p, Some p' =>
      p_attempt_token p' = p_attempt_token p /\ p_lane p' = p_lane p /\
      if seen then p' = p
      else p_state p' = PermitState_as_str Uncertain
           \/ (p' = p /\ p_state p = PermitState_as_str Cleaning)
  | _, _ => False
  end.

Lemma marked_reconciled o h p p' :
  marked_row o h True p p' -> reconciled_row (bool_decide (h ∈ observed_holders o)) p p'.
Proof.
  destruct p as [p|]; cbn; [|by intros ->]. intros (q & -> & T & L & O & _ & D).
  split_and!; [done..|]. case_bool_decide; auto.
Qed.

Lemma is_current_permits x db db' : permits db' = permits db -> is_current x db -> is_current x db'.
Proof. unfold is_current. by intros ->. Qed.

Definition alive_loop now :=
  fold_obs_rows (fun x => x.1.1) _ is_current is_current_permits (check_alive_rows now).
Definition rotation_loop now :=
  fold_obs_rows (fun x => x.1.1.1) _ (fun _ _ => True) (fun _ _ _ _ _ => I) (check_staged_rotation_rows now).
Definition release_loop :=
  fold_obs_rows (fun x => x.1.1.1) _ (fun _ _ => True) (fun _ _ _ _ _ => I) check_staged_release_rows.
Definition acquisition_loop :=
  fold_obs_rows (fun x => x.1.1) _ (fun _ _ => True) (fun _ _ _ _ _ => I) check_staged_acquisition_rows.

Lemma reconcile_rows env alive rots rels acqs db :
  flow_post (fun _ _ => True) (fun _ db' =>
    reconciled db' = true /\ (forall x, x ∈ alive -> is_current x db) /\
    forall h, reconciled_row (bool_decide (h ∈ attested alive rots rels acqs))
                (permits db !! h) (permits db' !! h))
    (reconcile_attempts_with_staged_acquisitions env alive rots rels acqs db).
Proof.
  unfold reconcile_attempts_with_staged_acquisitions.
  apply post_bind. eapply post_weaken; [apply alive_loop|intros o1 db1 (P1 & Al & O1)|done].
  apply post_bind. eapply post_weaken; [apply rotation_loop|intros o2 db2 (P2 & _ & O2)|done].
  apply post_bind. eapply post_weaken; [apply release_loop|intros o3 db3 (P3 & _ & O3)|done].
  apply post_bind. eapply post_weaken; [apply acquisition_loop|intros o4 db4 (P4 & _ & O4)|done].
  apply post_bind. cbn [get flow_post]. apply post_bind.
  eapply post_weaken; [apply mark_recorded_row|intros m db5 M|done].
  cbn. split_and!; [by apply bool_decide_eq_true|done|]. intros h. cbn in O1.
  replace (attested alive rots rels acqs) with (observed_holders o4) 
    by (by rewrite O4, O3, O2, O1, union_empty_l_L).
  apply marked_reconciled. specialize (M h). assert (P : permits db4 = permits db) by congruence.
  rewrite P in M. destruct (permits db !! h) as [p|] eqn:E; [|done].
  eapply marked_row_weaken, M. intros _. apply list_elem_of_fmap. exists (h, p_lane p). split; [done|].
  unfold recorded_rows. apply list_elem_of_fmap. exists (h, p). split; [done|].
  apply elem_of_map_to_list. by rewrite P.
Qed.

(** C21: A successful reconciliation frees no capacity and forges no
    attempt. Every attempt it was told is alive is the one on record, in its
    lane; the permits after it are exactly those before it, with their
    attempt tokens and lanes; the rows of attested holders (live, staged for
    rotation, for release or for acquisition) are untouched; every other row
    becomes uncertain unless its cleanup is under way; and the generation
    counts as reconciled. *)
Theorem reconcile_retains_every_permit env alive rots rels acqs db db' report :
  run_tx (reconcile_attempts_with_staged_acquisitions env alive rots rels acqs) db = (db', Ok report) ->
  reconciled db' = true /\ (forall x, x ∈ alive -> is_current x db) /\
  forall h, reconciled_row (bool_decide (h ∈ attested alive rots rels acqs))
              (permits db !! h) (permits db' !! h).
Proof.
  intros H. eapply run_tx_Ok_post in H; [exact H|apply no_rollback_reconcile|apply reconcile_rows].
Qed.

Definition two_held : list ledger_op :=
  held_by_t0 ++ [OpAcquire env1 "b" ScaleSet Running 1 (Some 8)].

Lemma reconcile_retains_every_permit_witness :
  let db := exec_all two_held empty_ledger in
  let r := run_tx (reconcile_attempts env1 [("a", Native, "t0")]) db in
  r.2 = Ok {| marked_uncertain := ["b"]; confirmed := ["a"] |} /\
  reconciled r.1 = true /\
  (forall x, x ∈ [("a", Native, "t0")] -> is_current x db) /\
  forall h, reconciled_row (bool_decide (h ∈ attested [("a", Native, "t0")] [] [] []))
              (permits db !! h) (permits r.1 !! h).
Proof.
  cbv zeta. set (db := exec_all two_held empty_ledger).
  assert (E : (run_tx (reconcile_attempts_with_staged_acquisitions env1 [("a", Native, "t0")] [] [] []) db).2
              = Ok {| marked_uncertain := ["b"]; confirmed := ["a"] |}) by (by vm_compute).
  split; [exact E|].
  apply (reconcile_retains_every_permit env1 [("a", Native, "t0")] [] [] [] db _
           {| marked_uncertain := ["b"]; confirmed := ["a"] |}).
  rewrite <- E. apply surjective_pairing.
Defined.

(** ** Advertised capacity *)

Lemma exec_generation op db :
  match op with
  | OpBeginEpoch => generation_column (exec op db) = i64_saturating_add (generation_column db) 1
  | _ => generation_column (exec op db) = generation_column db
  end.
Proof.
  destruct op; try (frames_call; done).
  - done.
  - cbn [exec]. tx_unfold. done.
  - cbn [exec]. by apply (frames_run generation_column), reconcile_frames.
Qed.

Definition is_reconcile (op : ledger_op) : bool :=
  match op with OpReconcile _ _ _ _ _ => true | _ => false end.

Lemma exec_reconciled_column op db :
  is_reconcile op = false ->
  reconciled_generation_column (exec op db) = reconciled_generation_column db.
Proof.
  destruct op; try (intros _; frames_call; done); done.
Qed.

Lemma reconcile_column env alive rots rels acqs db :
  let db' := (run_tx (reconcile_attempts_with_staged_acquisitions env alive rots rels acqs) db).1 in
  reconciled_generation_column db' = reconciled_generation_column db \/
  reconciled_generation_column db' = generation_column db'.
Proof.
  cbv zeta. set (m := reconcile_attempts_with_staged_acquisitions env alive rots rels acqs).
  pose proof (reconcile_rows env alive rots rels acqs db : flow_post _ _ (m db)) as P.
  unfold run_tx. destruct (m db) as [[]| | |]; cbn in *; auto.
  destruct P as [E%bool_decide_eq_true _]. auto.
Qed.

(** The reconciled generation never runs ahead. *)
Lemma exec_columns_ordered op db :
  is_i64 (generation_column db) -> reconciled_generation_column db <= generation_column db ->
  is_i64 (generation_column (exec op db)) /\
  reconciled_generation_column (exec op db) <= generation_column (exec op db).
Proof.
  intros I L. pose proof (exec_generation op db) as G. split.
  - destruct op; rewrite G; try done.
    unfold is_i64, i64_saturating_add, i64_max, i64_min in *. lia.
  - destruct (is_reconcile op) eqn:R.
    + destruct op; try done. cbn [exec] in *.
      destruct (reconcile_column env alive rotations releases acquisitions db) as [E|E]; rewrite E; lia.
    + rewrite exec_reconciled_column by done. destruct op; rewrite G; try done.
      unfold is_i64, i64_saturating_add, i64_max, i64_min in *. lia.
Qed.

Definition columns_ordered (db : LedgerDb) : Prop :=
  is_i64 (generation_column db) /\ reconciled_generation_column db <= generation_column db.

Lemma exec_all_columns_ordered ops : columns_ordered (exec_all ops empty_ledger).
Proof.
  apply (exec_all_ind columns_ordered); [|apply Inv_empty|done].
  intros op db _ _ [I L]. by apply exec_columns_ordered.
Qed.

(** The new epoch is not reconciled until a reconciliation succeeds. *)
Definition unreconciled (db : LedgerDb) : Prop :=
  columns_ordered db /\ reconciled_generation_column db < generation_column db.

Lemma exec_unreconciled op db : is_reconcile op = false -> unreconciled db -> unreconciled (exec op db).
Proof.
  intros R [O U]. destruct (exec_columns_ordered op db (proj1 O) (proj2 O)) as [I' L'].
  split; [done|]. rewrite exec_reconciled_column by done.
  pose proof (exec_generation op db) as G. destruct op; rewrite G; try done.
  destruct O as [I _]. unfold is_i64, i64_saturating_add, i64_max, i64_min in *. lia.
Qed.

Lemma unreconciled_advertises_nothing db : unreconciled db -> advertised_free db = None.
Proof.
  intros [_ U]. unfold advertised_free, reconciled. rewrite bool_decide_eq_false_2 by lia. done.
Qed.

(** After a host restart opened a new epoch, no free capacity is
    advertised until a reconciliation commits, whatever other calls run in
    between (acquisitions, releases, reconfiguration and further epochs
    included). The only exception is the exhausted 63-bit epoch counter. *)
Theorem no_capacity_before_reconciliation before after :
  generation_column (exec_all before empty_ledger) < i64_max ->
  Forall (fun op => is_reconcile op = false) after ->
  advertised_free (exec_all (before ++ OpBeginEpoch :: after) empty_ledger) = None.
Proof.
  intros G F. apply unreconciled_advertises_nothing.
  unfold exec_all. rewrite fold_left_app. cbn [fold_left]. fold (exec_all before empty_ledger).
  set (db := exec_all before empty_ledger) in *.
  assert (I : Inv (exec OpBeginEpoch db))
    by (eapply so_inv, (exec_step OpBeginEpoch); by apply exec_all_Inv, Inv_empty).
  refine (proj2 (exec_all_ind unreconciled after _ _ I _)).
  - intros op db' E _. apply exec_unreconciled. by apply (proj1 (Forall_forall _ _) F).
  - destruct (exec_all_columns_ordered before) as [I1 L1]. fold db in I1, L1.
    pose proof (exec_columns_ordered OpBeginEpoch db I1 L1). split; [done|].
    rewrite exec_reconciled_column by done. rewrite (exec_generation OpBeginEpoch db).
    unfold is_i64, i64_saturating_add, i64_max, i64_min in *. lia.
Qed.

Lemma no_capacity_before_reconciliation_witness :
  advertised_free (exec_all (held_by_t0 ++ [OpReconcile env0 [] [] [] []]) empty_ledger) = Some 1 /\
  advertised_free (exec_all ((held_by_t0 ++ [OpReconcile env0 [] [] [] []]) ++
    OpBeginEpoch :: [OpRelease env1 "a" "t0"]) empty_ledger) = None.
Proof.
  split; [by vm_compute|].
  apply no_capacity_before_reconciliation; [by vm_compute|repeat constructor].
Defined.

(** What a reconciled ledger advertises is never more than the room it
    has: an advertised count is the configured limit less the permit rows, or
    zero when the limit was lowered below them. *)
Theorem advertised_free_is_the_room db free :
  advertised_free db = Some free ->
  exists max, max_jobs db = Some max /\ 0 <= free <= max /\
    (0 < free -> free + Z.of_nat (size (permits db)) = max) /\
    (free = 0 -> max <= Z.of_nat (size (permits db))).
Proof.
  unfold advertised_free. case_match; [done|]. destruct (max_jobs db) as [max|] eqn:M; [|done].
  intros [= <-]. exists max. split; [done|].
  assert (0 <= max <= u32_max).
  { unfold max_jobs, u32_try_from in M. destruct (max_jobs_column db); [|done].
    destruct ((0 <=? z) && (z <=? u32_max)) eqn:B; [|done]. simplify_eq. lia. }
  unfold u32_saturating_sub, occupied, count_u32, u32_try_from.
  destruct ((0 <=? Z.of_nat (size (permits db))) && (Z.of_nat (size (permits db)) <=? u32_max)) eqn:B; lia.
Qed.

Lemma advertised_free_is_the_room_witness :
  exists max, max_jobs (exec_all (held_by_t0 ++ [OpReconcile env0 [] [] [] []]) empty_ledger) = Some max /\
    0 <= 1 <= max /\
    (0 < 1 -> 1 + Z.of_nat (size (permits (exec_all (held_by_t0 ++ [OpReconcile env0 [] [] [] []]) empty_ledger))) = max) /\
    (1 = 0 -> max <= Z.of_nat (size (permits (exec_all (held_by_t0 ++ [OpReconcile env0 [] [] [] []]) empty_ledger)))).
Proof. apply advertised_free_is_the_room. by vm_compute. Defined.
