(* ===== verification/LedgerReplay.v ===== *)
(** * Permit ledger: repeated calls

    An owner that crashed between the ledger and its own records repeats the
    call it may already have made. A release, a staged acquisition and a
    recovery rotation take effect once and recognise their own repetition; a
    recovery claim and an adoption never displace a live process. *)

From S2P Require Import Prelude LedgerData LedgerOps LedgerReconcile LedgerInv LedgerSteps LedgerSafety LedgerQueue LedgerFence LedgerRecovery.
From stdpp Require Import base gmap sets list strings sorting.
#[local] Open Scope Z_scope.

Lemma rolls_only_rollback {R A} (P : R -> Prop) r : P r -> rolls_only P (rollback r : ltx R A).
Proof. intros H s r'. by intros [= <-]. Qed.

(** Walk a call down to the values it returns without a commit. *)
Ltac solve_rolls :=
  repeat first
  [ by intros ? ?
  | apply rolls_only_rollback; solve [done | eauto | naive_solver]
  | apply no_rollback_only;
    first [ apply no_rollback_ensure | apply no_rollback_grant_if_eligible
          | apply no_rollback_update_permit | apply no_rollback_lane_mismatch
          | apply no_rollback_check_lane | apply no_rollback_update_demand
          | apply no_rollback_read_demand | apply no_rollback_insert_permit
          | apply no_rollback_delete_permit ]
  | apply rolls_only_bind; [|intros]
  | case_match ].

(** ** Releases *)

(** The release an attempt's owner repeats after a crash, in either lane. *)
Definition owned_release (lane : PermitLane) (env : Env) (h t : string) (next : DemandState)
    : ltx OwnedReleaseOutcome Empty_set :=
  match lane with
  | Native => release_native_owned_with_terminal_demand env h t next
  | ScaleSet => release_scaleset_staged_owned env h t next
  end.

Lemma owned_release_rolls lane env h t next :
  rolls_only (fun r => r = ReleaseStaleAttempt) (owned_release lane env h t next).
Proof.
  unfold owned_release, release_native_owned_with_terminal_demand, native_release_absent,
    forget_cleanup_release, release_scaleset_staged_owned. solve_rolls.
Qed.

(** The rows a completed release leaves. *)
Definition released (lane : PermitLane) (h : string) (next : DemandState) (db db' : LedgerDb) : Prop :=
  permits db' = delete h (permits db) /\
  (exists d, permit_demands db' !! h = Some d /\ d_lane d = PermitLane_as_str lane /\
     d_state d = DemandState_as_str next) /\
  forall h', h' <> h -> permit_demands db' !! h' = permit_demands db !! h'.

Lemma owned_release_post lane env h t next db :
  flow_post (fun _ _ => True)
    (fun r db' => r = Released -> released lane h next db db' /\ (lane = ScaleSet -> t <> "" /\ next <> Granted /\ next <> Waiting))
    (owned_release lane env h t next db).
Proof.
  unfold owned_release, release_native_owned_with_terminal_demand, native_release_absent,
    forget_cleanup_release, release_scaleset_staged_owned, released.
  repeat tx_step; intros; simplify_eq; ledger_rows.
  all: try (match goal with H : forall d, _ = Some d -> ~ True |- _ => by destruct (H _ ltac:(eassumption)) end).
  all: try (match goal with H : forall p, _ = Some p -> _ <> _ |- _ =>
              destruct (H _ ltac:(eassumption)); by apply dec_stable end).
  all: try (match goal with H : (if decide _ then _ else _) = _ |- _ => by case_decide end).
  all: try (match goal with H : ~ True |- _ => by destruct H end).
  all: split; [split_and!; [done| |intros; by rewrite !lookup_insert_ne by done]|].
  all: rewrite ?lookup_insert_eq; try (eexists; split_and!; [reflexivity|ledger_simpl; congruence|done]).
  all: intros; try done; naive_solver.
Qed.

(** A release repeated on what it left. *)
Lemma owned_release_again lane env h t next db :
  permits db !! h = None ->
  (exists d, permit_demands db !! h = Some d /\ d_lane d = PermitLane_as_str lane /\
     d_state d = DemandState_as_str next) ->
  (lane = ScaleSet -> t <> "" /\ next <> Granted /\ next <> Waiting) ->
  (run_tx (owned_release lane env h t next) db).2 = Ok AlreadyAbsent.
Proof.
  intros P (d & D & L & S) G. destruct (parse_demand_row h d lane next L S) as (pd & Pd & Pl & Ps).
  destruct lane; cbn [owned_release].
  - unfold release_native_owned_with_terminal_demand, native_release_absent. tx_unfold.
    unfold select_permit. rewrite P. unfold read_demand. rewrite D, Pd. unfold check_demand_lane.
    rewrite decide_True by done. tx_unfold. unfold forget_cleanup_release. tx_unfold.
    rewrite decide_True by auto. done.
  - destruct (G eq_refl) as (G1 & G2 & G3). unfold release_scaleset_staged_owned. tx_unfold.
    rewrite decide_False by naive_solver. unfold select_permit. rewrite P. unfold read_demand.
    rewrite D, Pd. unfold check_demand_lane. rewrite decide_True by done. tx_unfold.
    by rewrite decide_True.
Qed.

Lemma owned_release_absent_rows lane env h t next db :
  permits db !! h = None -> same_rows db (run_tx (owned_release lane env h t next) db).1.
Proof.
  intros P. unfold owned_release. destruct lane; (apply run_tx_post; [done|]); unfold_calls;
    repeat tx_step; ledger_rows; done.
Qed.



(** ** Staged acquisitions *)

(** The attempt [t] of a Scale Set holder is on record in [state], granted. *)
Definition staged_held (h t : string) (state : PermitState) (db : LedgerDb) : Prop :=
  exists p d, permits db !! h = Some p /\ p_attempt_token p = t /\
    p_lane p = PermitLane_as_str ScaleSet /\ p_state p = PermitState_as_str state /\
    permit_demands db !! h = Some d /\ d_lane d = PermitLane_as_str ScaleSet /\
    d_state d = DemandState_as_str Granted.

Lemma acquire_staged_post env h state g pid t db :
  flow_post (fun _ _ => True)
    (fun r db' => forall t', r = AttemptAcquired t' ->
       t' = t /\ generation db' = g /\ staged_held h t state db')
    (acquire_attempt_with_token env h ScaleSet state g pid (Some t) db).
Proof.
  unfold acquire_attempt_with_token, acquire_held, requeue_demand, grant_permit, generation.
  repeat tx_step; ledger_rows; intros t' Et; simplify_eq; ledger_simpl.
  all: try (match goal with H : forall d, _ = Some d -> ~ True |- _ => by destruct (H _ ltac:(eassumption)) end).
  all: try (match goal with H : ~ True |- _ => by destruct H end).
  all: repeat match goal with H : _ /\ _ |- _ => destruct H end; simplify_eq.
  all: match goal with H : ~ (u64_of_i64 _ <> _) |- _ => apply dec_stable in H end.
  all: split_and!; [done|done|].
  all: eexists _, _; ledger_simpl; rewrite ?lookup_insert_eq.
  all: split_and!; try done; try congruence.
  match goal with H : ~ (pd_state _ <> Granted) |- _ => apply dec_stable in H; congruence end.
Qed.

Lemma acquire_staged_rolls env h state g pid t :
  rolls_only (fun r => forall t', r <> AttemptAcquired t')
    (acquire_attempt_with_token env h ScaleSet state g pid (Some t)).
Proof.
  unfold acquire_attempt_with_token, acquire_held, requeue_demand, grant_permit. solve_rolls.
Qed.

Lemma staged_held_again env h state g pid t db :
  generation db = g -> staged_held h t state db ->
  run_tx (acquire_attempt_with_token env h ScaleSet state g pid (Some t)) db
  = (db, Ok (AttemptAcquired t)).
Proof.
  intros G (p & d & P & T & L & S & D & Ld & Sd).
  destruct (parse_demand_row h d ScaleSet Granted Ld Sd) as (pd & Pd & Pl & Ps).
  unfold acquire_attempt_with_token. tx_unfold. fold (generation db). rewrite decide_False by auto.
  unfold select_permit. rewrite P. unfold acquire_held, lane_mismatch. tx_unfold.
  rewrite decide_False by auto. rewrite decide_True by (by rewrite T). tx_unfold.
  unfold read_demand. rewrite D, Pd. unfold check_demand_lane. rewrite decide_True by done. tx_unfold.
  rewrite decide_False by auto. by rewrite T.
Qed.



(** ** Recovery claims and rotations *)

(** The row a committed rotation leaves. *)
Definition rotated (env : Env) (h : string) (g previous_pid : Z) (previous : option string)
    (target claim : string) (db : LedgerDb) : Prop :=
  exists p, permits db !! h = Some p /\ p_lane p = PermitLane_as_str ScaleSet /\
    p_attempt_token p = target /\ p_pid p = Some (process_id env) /\ p_generation p = i64_clamp g /\
    p_recovery_claim_token p = Some claim /\ p_recovery_previous_pid p = Some previous_pid /\
    p_recovery_previous_token p = previous.

(** What a rotation needs and does. *)
Definition rotation_done (env : Env) (h : string) (g previous_pid : Z) (previous : option string)
    (target claim : string) (db db' : LedgerDb) : Prop :=
  (target <> "" /\ claim <> "" /\ previous_pid <> 0 /\ previous <> Some "" /\ previous <> Some target) /\
  scaleset_recovery_claims db = Some (claim, process_id env) /\
  scaleset_recovery_claims db' = scaleset_recovery_claims db /\
  generation db = g /\ generation_column db' = generation_column db /\
  (exists p, permits db !! h = Some p /\ p_pid p = Some previous_pid /\
     match previous with Some t => p_attempt_token p = t | None => True end) /\
  dom (permits db') = dom (permits db) /\
  rotated env h g previous_pid previous target claim db'.

Lemma previous_token_matches_Some db h t current :
  previous_token_matches db h (Some t) current = true -> current = t.
Proof. cbn. by intros ->%bool_decide_eq_true. Qed.

Lemma rotate_post env h state g pp pt target claim db :
  flow_post (fun _ _ => True) (fun r db' => r = Rotated -> rotation_done env h g pp pt target claim db db')
    (rotate_scaleset_attempt_for_recovery env h state g pp pt target claim db).
Proof.
  unfold rotate_scaleset_attempt_for_recovery, grant_if_eligible.
  repeat tx_step; intros; simplify_eq; ledger_rows.
  all: repeat match goal with H : _ /\ _ |- _ => destruct H end.
  all: try (match goal with H : ~ (0 <> 1) |- _ => by destruct H end).
  all: unfold rotation_done, rotated, generation; ledger_simpl.
  all: split; [split_and!; intros ->; naive_solver|].
  all: split_and!; try done; try (by apply dec_stable).
  all: try (rewrite dom_insert_lookup_L; [done|eauto]).
  all: try (eexists; rewrite lookup_insert_eq; done).
  all: eexists; split_and!; [eassumption|done|]; destruct pt; [|done].
  all: eapply (previous_token_matches_Some db h), not_false_is_true; naive_solver.
Qed.

Lemma rotate_rolls env h state g pp pt target claim :
  rolls_only (fun r => r <> Rotated) (rotate_scaleset_attempt_for_recovery env h state g pp pt target claim).
Proof. unfold rotate_scaleset_attempt_for_recovery. solve_rolls. Qed.

Lemma rotate_again env env' h state g pp pt target claim db :
  (target <> "" /\ claim <> "" /\ pp <> 0 /\ pt <> Some "" /\ pt <> Some target) ->
  scaleset_recovery_claims db = Some (claim, process_id env') ->
  g <= generation db -> 0 <= g <= i64_max ->
  rotated env h g pp pt target claim db ->
  run_tx (rotate_scaleset_attempt_for_recovery env' h state g pp pt target claim) db
  = (db, Ok AlreadyRotated).
Proof.
  intros (A1 & A2 & A3 & A4 & A5) C G Gr (p & P & L & T & Pi & Ge & R1 & R2 & R3).
  unfold rotate_scaleset_attempt_for_recovery. tx_unfold. rewrite decide_False by naive_solver.
  rewrite decide_False by (rewrite C; auto). rewrite P. unfold lane_mismatch. tx_unfold.
  rewrite decide_False by auto. rewrite decide_True by done.
  rewrite decide_False by (unfold generation in G; lia).
  unfold rotation_already_committed. rewrite bool_decide_eq_true_2; [done|].
  rewrite R1, R2, R3, Ge. split_and!; try done. unfold u64_try_from, i64_clamp.
  rewrite Z.min_l by lia. by rewrite (proj2 (Z.leb_le 0 g)) by lia.
Qed.

(** A recovery rotation happens once, under the recovery claim. When it
    reports [Rotated], the caller's process held the claim, the row carried
    the previous process id and (when given) the previous token, no permit
    was added or lost, and the row now carries the target token; the same
    process repeating it gets [AlreadyRotated] and changes nothing. *)
Theorem rotation_happens_once ops env env' h state g pp pt target claim db1 :
  let db := exec_all ops empty_ledger in
  run_tx (rotate_scaleset_attempt_for_recovery env h state g pp pt target claim) db = (db1, Ok Rotated) ->
  process_id env' = process_id env ->
  rotation_done env h g pp pt target claim db db1 /\
  run_tx (rotate_scaleset_attempt_for_recovery env' h state g pp pt target claim) db1
  = (db1, Ok AlreadyRotated).
Proof.
  cbv zeta. set (db := exec_all ops empty_ledger). intros H Pid.
  assert (N : ~ (Rotated <> Rotated)) by auto.
  pose proof (run_tx_committed _ _ _ _ _ _ (rotate_rolls env h state g pp pt target claim) N
                (rotate_post env h state g pp pt target claim db) H eq_refl) as D.
  split; [done|]. destruct D as (A & C & C' & G & G' & _ & _ & R).
  destruct (exec_all_columns_ordered ops) as [Hi _]. fold db in Hi.
  assert (generation db1 = g) by (unfold generation in *; congruence).
  eapply rotate_again; [done| | | |exact R].
  - rewrite C', C, Pid. done.
  - lia.
  - unfold generation, u64_of_i64, is_i64, i64_max, i64_min in *. lia.
Qed.

(** A crashed process 7 held the Scale Set permit "s"; process 8 recovers it. *)
Definition crashed_owner : list ledger_op :=
  [ OpSetMaxJobs 1; OpBeginEpoch; OpAcquireStaged env0 "s" Running 1 (Some 7) "stage";
    OpClaimRecovery env1 (fun _ => false) ].

Lemma rotation_happens_once_witness :
  let db := exec_all crashed_owner empty_ledger in
  let db1 := (run_tx (rotate_scaleset_attempt_for_recovery env1 "s" Running 1 7 (Some "stage") "next" "t1") db).1 in
  rotation_done env1 "s" 1 7 (Some "stage") "next" "t1" db db1 /\
  run_tx (rotate_scaleset_attempt_for_recovery env1 "s" Running 1 7 (Some "stage") "next" "t1") db1
  = (db1, Ok AlreadyRotated).
Proof.
  cbv zeta.
  assert (E : (run_tx (rotate_scaleset_attempt_for_recovery env1 "s" Running 1 7 (Some "stage") "next" "t1")
                 (exec_all crashed_owner empty_ledger)).2 = Ok Rotated) by (by vm_compute).
  apply (rotation_happens_once crashed_owner); [|reflexivity].
  rewrite <- E. apply surjective_pairing.
Defined.

Lemma claim_scaleset_recovery_cases env is_alive db db1 c :
  run_tx (claim_scaleset_recovery env is_alive) db = (db1, Ok c) ->
  owner_pid c = process_id env /\ db1 = set_claims (Some (claim_token c, process_id env)) db /\
  forall t pid, scaleset_recovery_claims db = Some (t, pid) -> claim_token c = t /\ is_alive pid = false.
Proof.
  unfold claim_scaleset_recovery. tx_unfold. destruct (scaleset_recovery_claims db) as [[t pid]|].
  - case_decide; [done|]. destruct (u32_try_from pid) as [q|] eqn:Q; [|done].
    case_decide; [done|]. destruct (is_alive q) eqn:A; [done|]. intros; simplify_eq; cbn.
    split_and!; [done..|]. intros t' pid' [= <- <-]. split; [done|].
    unfold u32_try_from in Q. case_match; simplify_eq. done.
  - intros; simplify_eq; cbn. split_and!; done.
Qed.

(** Recovery is exclusive. A process that obtained the recovery claim
    took it over from nobody alive, keeping the claim token of a dead
    predecessor so that its stages stay valid; as long as that process lives,
    every other claimant is refused with its process id, and a rotation
    attempted by another process changes nothing, whatever claim token it
    presents. *)
Theorem recovery_is_exclusive env is_alive db db1 c env' is_alive' h state g pp pt target token :
  run_tx (claim_scaleset_recovery env is_alive) db = (db1, Ok c) ->
  claim_token c <> "" -> 0 < process_id env <= u32_max ->
  is_alive' (process_id env) = true -> process_id env' <> process_id env ->
  (forall t pid, scaleset_recovery_claims db = Some (t, pid) -> claim_token c = t /\ is_alive pid = false) /\
  run_tx (claim_scaleset_recovery env' is_alive') db1 = (db1, Err (RecoveryClaimed (process_id env))) /\
  (run_tx (rotate_scaleset_attempt_for_recovery env' h state g pp pt target token) db1).1 = db1.
Proof.
  intros H T Pid A N. destruct (claim_scaleset_recovery_cases _ _ _ _ _ H) as (O & -> & K).
  split; [done|]. split.
  - unfold claim_scaleset_recovery. tx_unfold. cbn [scaleset_recovery_claims set_claims].
    rewrite decide_False by done. unfold u32_try_from.
    rewrite (proj2 (Z.leb_le _ _)), (proj2 (Z.leb_le _ _)) by lia. cbn.
    rewrite decide_False by lia. by rewrite A.
  - unfold rotate_scaleset_attempt_for_recovery. case_decide; [done|]. tx_unfold.
    rewrite decide_True; [done|]. cbn. congruence.
Qed.

Lemma recovery_is_exclusive_witness :
  let db := exec_all held_by_t0 empty_ledger in
  let r := run_tx (claim_scaleset_recovery env1 (fun _ => false)) db in
  (forall t pid, scaleset_recovery_claims db = Some (t, pid) -> "t1" = t /\ false = false) /\
  run_tx (claim_scaleset_recovery env0 (fun _ => true)) r.1 = (r.1, Err (RecoveryClaimed 8)) /\
  (run_tx (rotate_scaleset_attempt_for_recovery env0 "s" Running 1 7 None "next" "t1") r.1).1 = r.1.
Proof.
  cbv zeta.
  apply (recovery_is_exclusive env1 (fun _ => false) (exec_all held_by_t0 empty_ledger)
           _ {| claim_token := "t1"; owner_pid := 8 |} env0 (fun _ => true) "s" Running 1 7 None "next" "t1");
    [by vm_compute|done|by vm_compute|done|by vm_compute].
Defined.

(** ** Adoption *)

(** The one live row an adoption may take: the caller's own Native attempt,
    retained as uncertain with its demand closed. *)
Definition own_retained_attempt (lane : PermitLane) (pid : Z) (h : string) (db : LedgerDb)
    (p : PermitRow) : Prop :=
  lane = Native /\ p_pid p = Some pid /\ p_state p = PermitState_as_str Uncertain /\
  joined_demand_state h db = Some (DemandState_as_str Terminal).

Definition adoption (env : Env) (is_alive : Z -> bool) (h : string) (lane : PermitLane)
    (state : PermitState) (g pid : Z) (db db' : LedgerDb) : Prop :=
  generation db = g /\
  exists p q, permits db !! h = Some p /\ p_lane p = PermitLane_as_str lane /\
    (exists owner, p_pid p = Some owner /\
       (is_alive owner = false \/ own_retained_attempt lane pid h db p)) /\
    permits db' = <[h := q]> (permits db) /\
    p_attempt_token q = new_uuid env /\ p_pid q = Some pid /\ p_lane q = p_lane p /\
    p_acquired_unix q = p_acquired_unix p.

Lemma u32_try_from_Some x y : u32_try_from x = Some y -> y = x.
Proof. unfold u32_try_from. case_match; [by intros [=]|done]. Qed.

Lemma adopt_post env is_alive h lane state g pid db :
  flow_post (fun _ _ => True) (fun r db' => r = Adopted (new_uuid env) /\ adoption env is_alive h lane state g pid db db')
    (adopt_for_redelivery env is_alive h lane state g pid db).
Proof.
  unfold adopt_for_redelivery, grant_if_eligible.
  repeat tx_step; ledger_rows; try (match goal with H : forall d, _ = Some d -> ~ True |- _ => by destruct (H _ ltac:(eassumption)) end);
    try (match goal with H : ~ True |- _ => by destruct H end).
  all: split; [done|]; split; [by apply dec_stable|].
  all: eexists _, _; split_and!; ledger_simpl;
    [eassumption|by apply dec_stable| |reflexivity|done|done|done|done].
  all: destruct (p_pid _) as [owner|] eqn:Ep; [|done];
    match goal with H : u32_try_from _ = Some _ |- _ => apply u32_try_from_Some in H as -> end.
  all: exists owner; split; [done|].
  all: match goal with H : _ && negb _ = false |- _ =>
         apply andb_false_iff in H as [H|H]; [by left|right];
         apply negb_false_iff, bool_decide_eq_true in H end.
  all: unfold own_retained_attempt; rewrite Ep; naive_solver.
Qed.

Lemma adopt_rolls env is_alive h lane state g pid :
  rolls_only (fun r => forall t, r <> Adopted t) (adopt_for_redelivery env is_alive h lane state g pid).
Proof. unfold adopt_for_redelivery. solve_rolls. Qed.

(** A redelivered job takes over a permit only from a dead process. An
    adoption either reports the fresh attempt token, and then it ran in the
    current generation, the recorded owner was not alive (or the row is the
    caller's own Native attempt, retained as uncertain with its demand
    closed), and exactly that row changed hands without changing the number
    of permits; or it leaves the database as it was. *)
Theorem adoption_displaces_no_live_owner env is_alive h lane state g pid db db1 r :
  run_tx (adopt_for_redelivery env is_alive h lane state g pid) db = (db1, Ok r) ->
  (r = Adopted (new_uuid env) /\ adoption env is_alive h lane state g pid db db1 /\
   size (permits db1) = size (permits db)) \/
  (db1 = db /\ forall t, r <> Adopted t).
Proof.
  intros H. pose proof (adopt_post env is_alive h lane state g pid db) as P.
  apply (run_tx_Ok (fun _ _ => True)) in H as [H|[H ->]].
  - rewrite H in P. destruct P as [-> P]. left. split_and!; [done..|].
    destruct P as (_ & p & q & E & _ & _ & -> & _). by apply map_size_insert_Some.
  - right. split; [done|]. by apply (adopt_rolls env is_alive h lane state g pid db).
Qed.

Lemma adoption_displaces_no_live_owner_witness :
  let db := exec_all held_by_t0 empty_ledger in
  let r := run_tx (adopt_for_redelivery env1 (fun _ => false) "a" Native Running 1 8) db in
  (Adopted "t1" = Adopted (new_uuid env1) /\
   adoption env1 (fun _ => false) "a" Native Running 1 8 db r.1 /\
   size (permits r.1) = size (permits db)) \/
  (r.1 = db /\ forall t, Adopted "t1" <> Adopted t).
Proof.
  cbv zeta. apply adoption_displaces_no_live_owner.
  assert (E : (run_tx (adopt_for_redelivery env1 (fun _ => false) "a" Native Running 1 8)
                 (exec_all held_by_t0 empty_ledger)).2 = Ok (Adopted "t1")) by (by vm_compute).
  rewrite <- E. apply surjective_pairing.
Defined.

(** ** Backoff *)

(** A deferred holder waits a bounded, never shrinking time between its
    attempts: between the minimum and the maximum, doubling from the minimum
    until the maximum is reached, for every attempt count. *)
Theorem deferred_wait_is_bounded attempt :
  0 <= attempt ->
  DEFERRED_WAIT_MIN <= deferred_wait attempt <= DEFERRED_WAIT_MAX /\
  deferred_wait attempt <= deferred_wait (attempt + 1) /\
  deferred_wait (attempt + 1) = Z.min (2 * deferred_wait attempt) DEFERRED_WAIT_MAX.
Proof.
  intros H. unfold deferred_wait, DEFERRED_WAIT_MIN, DEFERRED_WAIT_MAX.
  destruct (Z.le_gt_cases 10 attempt) as [L|L].
  - rewrite !(Z.min_r _ 10) by lia. by vm_compute.
  - rewrite !(Z.min_l _ 10) by lia. rewrite !Z.shiftl_mul_pow2 by lia.
    rewrite Z.pow_add_r by lia. pose proof (Z.pow_pos_nonneg 2 attempt ltac:(lia) H). lia.
Qed.

Lemma deferred_wait_is_bounded_witness :
  deferred_wait 5 = 32 /\ deferred_wait 6 = 50 /\
  DEFERRED_WAIT_MIN <= deferred_wait 5 <= DEFERRED_WAIT_MAX /\
  deferred_wait 5 <= deferred_wait (5 + 1) /\
  deferred_wait (5 + 1) = Z.min (2 * deferred_wait 5) DEFERRED_WAIT_MAX.
Proof.
  split; [by vm_compute|]. split; [by vm_compute|]. apply deferred_wait_is_bounded. lia.
Defined.

(** A held permit need not have a granted demand: a guard that exits without
    a terminal result leaves the permit in place and closes the demand, and
    giving the permit back to the queue then frees the capacity without
    making the demand eligible again. *)
Example held_permit_with_closed_demand :
  let db := exec_all [ OpSetMaxJobs 1; OpBeginEpoch; OpAcquire env0 "a" Native Reserved 1 (Some 7);
                       OpRetain env1 "a" 1 "t0" ] empty_ledger in
  let db' := exec (OpReleaseToEligible env1 "a" "t0") db in
  option_map p_state (permits db !! "a") = Some (PermitState_as_str Uncertain) /\
  option_map d_state (permit_demands db !! "a") = Some (DemandState_as_str Terminal) /\
  permits db' !! "a" = None /\
  option_map d_state (permit_demands db' !! "a") = Some (DemandState_as_str Terminal).
Proof. by vm_compute. Qed.
