(* ===== verification/JournalData.v ===== *)
(** * Journal: fleet state, records and events

    Models the data of [crates/velnor-control/src/journal.rs]: the
    materialized fleet state with its slots, jobs and completion outbox, the
    intent events the journal records, the commands the reducer hands to the
    I/O layer, and the helper functions the reducer is written with. A
    [Vec] is a list in the order of the source; [iter().find], [position] and
    [iter_mut().find] act on the first match. *)

From S2P Require Import Prelude NodeModel.
From Stdlib Require Import Ascii String.
From stdpp Require Import base list strings.
#[local] Open Scope Z_scope.

(** ** Budgets *)

Definition MAX_COMPLETION_ATTEMPTS : Z := 8.
Definition COMPLETION_RESOLUTION_SECONDS : Z := 6 * 60 * 60.
Definition MAX_ACQUISITION_PROBES : Z := 8.
Definition ACQUISITION_RESOLUTION_SECONDS : Z := 6 * 60 * 60.
Definition PRESSURE_TERMINAL_RECOVERY_WORKER_PREFIX : string := "velnor-pressure-terminal-recovery:".

(** ** Records *)

Record SlotRecord := {
  s_slot_id : SlotId;
  s_generation : Generation;
  s_phase : SlotPhase2;
  s_permit_held : bool;
  s_routing_valid : bool;
  s_session_live : bool;
  s_executor_proven : bool;
  s_registered : bool;
  s_pid : option Z;
  s_heartbeat_unix : Z;
}.

Record JobRecord := {
  j_job_id : JobId;
  j_slot_id : SlotId;
  j_generation : Generation;
  j_attempt : Z;
  j_worker : string;
  j_phase : JobPhase2;
  j_accepted_unix : Z;
  j_terminal_conclusion : option string;
  j_provisional : bool;
  j_plan_id : string;
  j_run_service_url : string;
  j_probe_attempts : Z;
  j_probe_deadline_unix : Z;
}.

Record OutboxRecord := {
  o_job_id : JobId;
  o_slot_id : SlotId;
  o_generation : Generation;
  o_payload_sha256 : string;
  o_intended : bool;
  o_send_started : bool;
  o_remote_acked : bool;
  o_created_unix : Z;
  o_attempts : Z;
  o_deadline_unix : Z;
  o_permanent : bool;
  o_abandoned : bool;
}.

Record FleetState := {
  control_live : bool;
  journal_writable : bool;
  github_reachable : bool;
  routing_valid : bool;
  runner_group_valid : bool;
  drain_active : bool;
  drain_version : Z;
  admission_blocked : bool;
  admission_version : Z;
  desired_ready : Z;
  canary : CanaryStatus;
  package_generation : Z;
  package_apt_version : string;
  execution_backend : ExecutionBackendKind;
  capacity_declared : bool;
  capacity_invalid : bool;
  slots : list SlotRecord;
  jobs : list JobRecord;
  outbox : list OutboxRecord;
}.
#[export] Instance SlotRecord_eq_dec : EqDecision SlotRecord.
Proof. solve_decision. Defined.
#[export] Instance JobRecord_eq_dec : EqDecision JobRecord.
Proof. solve_decision. Defined.
#[export] Instance OutboxRecord_eq_dec : EqDecision OutboxRecord.
Proof. solve_decision. Defined.
#[export] Instance FleetState_eq_dec : EqDecision FleetState.
Proof. solve_decision. Defined.

(** [SlotRecord::new]. *)
Definition SlotRecord_new (slot_id : SlotId) : SlotRecord := {|
  s_slot_id := slot_id;
  s_generation := Generation_INITIAL;
  s_phase := Absent;
  s_permit_held := false;
  s_routing_valid := false;
  s_session_live := false;
  s_executor_proven := false;
  s_registered := false;
  s_pid := None;
  s_heartbeat_unix := 0;
|}.

(** [FleetState::default]. *)
Definition FleetState_default : FleetState := {|
  control_live := false;
  journal_writable := false;
  github_reachable := false;
  routing_valid := false;
  runner_group_valid := false;
  drain_active := false;
  drain_version := 0;
  admission_blocked := false;
  admission_version := 0;
  desired_ready := 0;
  canary := CanaryUnknown;
  package_generation := 0;
  package_apt_version := EmptyString;
  execution_backend := Docker;
  capacity_declared := false;
  capacity_invalid := false;
  slots := [];
  jobs := [];
  outbox := [];
|}.

(** ** Field assignments *)

Definition set_slots (v : list SlotRecord) (st : FleetState) : FleetState := {|
  control_live := control_live st;
  journal_writable := journal_writable st;
  github_reachable := github_reachable st;
  routing_valid := routing_valid st;
  runner_group_valid := runner_group_valid st;
  drain_active := drain_active st;
  drain_version := drain_version st;
  admission_blocked := admission_blocked st;
  admission_version := admission_version st;
  desired_ready := desired_ready st;
  canary := canary st;
  package_generation := package_generation st;
  package_apt_version := package_apt_version st;
  execution_backend := execution_backend st;
  capacity_declared := capacity_declared st;
  capacity_invalid := capacity_invalid st;
  slots := v;
  jobs := jobs st;
  outbox := outbox st;
|}.
Definition set_jobs (v : list JobRecord) (st : FleetState) : FleetState := {|
  control_live := control_live st;
  journal_writable := journal_writable st;
  github_reachable := github_reachable st;
  routing_valid := routing_valid st;
  runner_group_valid := runner_group_valid st;
  drain_active := drain_active st;
  drain_version := drain_version st;
  admission_blocked := admission_blocked st;
  admission_version := admission_version st;
  desired_ready := desired_ready st;
  canary := canary st;
  package_generation := package_generation st;
  package_apt_version := package_apt_version st;
  execution_backend := execution_backend st;
  capacity_declared := capacity_declared st;
  capacity_invalid := capacity_invalid st;
  slots := slots st;
  jobs := v;
  outbox := outbox st;
|}.
Definition set_outbox (v : list OutboxRecord) (st : FleetState) : FleetState := {|
  control_live := control_live st;
  journal_writable := journal_writable st;
  github_reachable := github_reachable st;
  routing_valid := routing_valid st;
  runner_group_valid := runner_group_valid st;
  drain_active := drain_active st;
  drain_version := drain_version st;
  admission_blocked := admission_blocked st;
  admission_version := admission_version st;
  desired_ready := desired_ready st;
  canary := canary st;
  package_generation := package_generation st;
  package_apt_version := package_apt_version st;
  execution_backend := execution_backend st;
  capacity_declared := capacity_declared st;
  capacity_invalid := capacity_invalid st;
  slots := slots st;
  jobs := jobs st;
  outbox := v;
|}.
Definition set_control_live (v : bool) (st : FleetState) : FleetState := {|
  control_live := v;
  journal_writable := journal_writable st;
  github_reachable := github_reachable st;
  routing_valid := routing_valid st;
  runner_group_valid := runner_group_valid st;
  drain_active := drain_active st;
  drain_version := drain_version st;
  admission_blocked := admission_blocked st;
  admission_version := admission_version st;
  desired_ready := desired_ready st;
  canary := canary st;
  package_generation := package_generation st;
  package_apt_version := package_apt_version st;
  execution_backend := execution_backend st;
  capacity_declared := capacity_declared st;
  capacity_invalid := capacity_invalid st;
  slots := slots st;
  jobs := jobs st;
  outbox := outbox st;
|}.
Definition set_journal_writable (v : bool) (st : FleetState) : FleetState := {|
  control_live := control_live st;
  journal_writable := v;
  github_reachable := github_reachable st;
  routing_valid := routing_valid st;
  runner_group_valid := runner_group_valid st;
  drain_active := drain_active st;
  drain_version := drain_version st;
  admission_blocked := admission_blocked st;
  admission_version := admission_version st;
  desired_ready := desired_ready st;
  canary := canary st;
  package_generation := package_generation st;
  package_apt_version := package_apt_version st;
  execution_backend := execution_backend st;
  capacity_declared := capacity_declared st;
  capacity_invalid := capacity_invalid st;
  slots := slots st;
  jobs := jobs st;
  outbox := outbox st;
|}.
Definition set_github_reachable (v : bool) (st : FleetState) : FleetState := {|
  control_live := control_live st;
  journal_writable := journal_writable st;
  github_reachable := v;
  routing_valid := routing_valid st;
  runner_group_valid := runner_group_valid st;
  drain_active := drain_active st;
  drain_version := drain_version st;
  admission_blocked := admission_blocked st;
  admission_version := admission_version st;
  desired_ready := desired_ready st;
  canary := canary st;
  package_generation := package_generation st;
  package_apt_version := package_apt_version st;
  execution_backend := execution_backend st;
  capacity_declared := capacity_declared st;
  capacity_invalid := capacity_invalid st;
  slots := slots st;
  jobs := jobs st;
  outbox := outbox st;
|}.
Definition set_routing (v : bool) (g : bool) (st : FleetState) : FleetState := {|
  control_live := control_live st;
  journal_writable := journal_writable st;
  github_reachable := github_reachable st;
  routing_valid := v;
  runner_group_valid := g;
  drain_active := drain_active st;
  drain_version := drain_version st;
  admission_blocked := admission_blocked st;
  admission_version := admission_version st;
  desired_ready := desired_ready st;
  canary := canary st;
  package_generation := package_generation st;
  package_apt_version := package_apt_version st;
  execution_backend := execution_backend st;
  capacity_declared := capacity_declared st;
  capacity_invalid := capacity_invalid st;
  slots := slots st;
  jobs := jobs st;
  outbox := outbox st;
|}.
Definition set_desired_ready (v : Z) (d : bool) (st : FleetState) : FleetState := {|
  control_live := control_live st;
  journal_writable := journal_writable st;
  github_reachable := github_reachable st;
  routing_valid := routing_valid st;
  runner_group_valid := runner_group_valid st;
  drain_active := drain_active st;
  drain_version := drain_version st;
  admission_blocked := admission_blocked st;
  admission_version := admission_version st;
  desired_ready := v;
  canary := canary st;
  package_generation := package_generation st;
  package_apt_version := package_apt_version st;
  execution_backend := execution_backend st;
  capacity_declared := d;
  capacity_invalid := capacity_invalid st;
  slots := slots st;
  jobs := jobs st;
  outbox := outbox st;
|}.
Definition set_capacity_invalid (v : bool) (st : FleetState) : FleetState := {|
  control_live := control_live st;
  journal_writable := journal_writable st;
  github_reachable := github_reachable st;
  routing_valid := routing_valid st;
  runner_group_valid := runner_group_valid st;
  drain_active := drain_active st;
  drain_version := drain_version st;
  admission_blocked := admission_blocked st;
  admission_version := admission_version st;
  desired_ready := desired_ready st;
  canary := canary st;
  package_generation := package_generation st;
  package_apt_version := package_apt_version st;
  execution_backend := execution_backend st;
  capacity_declared := capacity_declared st;
  capacity_invalid := v;
  slots := slots st;
  jobs := jobs st;
  outbox := outbox st;
|}.
Definition set_canary (v : CanaryStatus) (st : FleetState) : FleetState := {|
  control_live := control_live st;
  journal_writable := journal_writable st;
  github_reachable := github_reachable st;
  routing_valid := routing_valid st;
  runner_group_valid := runner_group_valid st;
  drain_active := drain_active st;
  drain_version := drain_version st;
  admission_blocked := admission_blocked st;
  admission_version := admission_version st;
  desired_ready := desired_ready st;
  canary := v;
  package_generation := package_generation st;
  package_apt_version := package_apt_version st;
  execution_backend := execution_backend st;
  capacity_declared := capacity_declared st;
  capacity_invalid := capacity_invalid st;
  slots := slots st;
  jobs := jobs st;
  outbox := outbox st;
|}.
Definition set_package (v : Z) (a : string) (st : FleetState) : FleetState := {|
  control_live := control_live st;
  journal_writable := journal_writable st;
  github_reachable := github_reachable st;
  routing_valid := routing_valid st;
  runner_group_valid := runner_group_valid st;
  drain_active := drain_active st;
  drain_version := drain_version st;
  admission_blocked := admission_blocked st;
  admission_version := admission_version st;
  desired_ready := desired_ready st;
  canary := canary st;
  package_generation := v;
  package_apt_version := a;
  execution_backend := execution_backend st;
  capacity_declared := capacity_declared st;
  capacity_invalid := capacity_invalid st;
  slots := slots st;
  jobs := jobs st;
  outbox := outbox st;
|}.
Definition set_latches (da : bool) (dv : Z) (ab : bool) (av : Z) (st : FleetState) : FleetState := {|
  control_live := control_live st;
  journal_writable := journal_writable st;
  github_reachable := github_reachable st;
  routing_valid := routing_valid st;
  runner_group_valid := runner_group_valid st;
  drain_active := da;
  drain_version := dv;
  admission_blocked := ab;
  admission_version := av;
  desired_ready := desired_ready st;
  canary := canary st;
  package_generation := package_generation st;
  package_apt_version := package_apt_version st;
  execution_backend := execution_backend st;
  capacity_declared := capacity_declared st;
  capacity_invalid := capacity_invalid st;
  slots := slots st;
  jobs := jobs st;
  outbox := outbox st;
|}.

Definition slot_set_phase (v : SlotPhase2) (s : SlotRecord) : SlotRecord := {|
  s_slot_id := s_slot_id s;
  s_generation := s_generation s;
  s_phase := v;
  s_permit_held := s_permit_held s;
  s_routing_valid := s_routing_valid s;
  s_session_live := s_session_live s;
  s_executor_proven := s_executor_proven s;
  s_registered := s_registered s;
  s_pid := s_pid s;
  s_heartbeat_unix := s_heartbeat_unix s;
|}.
Definition slot_set_executor_proven (v : bool) (s : SlotRecord) : SlotRecord := {|
  s_slot_id := s_slot_id s;
  s_generation := s_generation s;
  s_phase := s_phase s;
  s_permit_held := s_permit_held s;
  s_routing_valid := s_routing_valid s;
  s_session_live := s_session_live s;
  s_executor_proven := v;
  s_registered := s_registered s;
  s_pid := s_pid s;
  s_heartbeat_unix := s_heartbeat_unix s;
|}.
Definition slot_set_session_live (v : bool) (s : SlotRecord) : SlotRecord := {|
  s_slot_id := s_slot_id s;
  s_generation := s_generation s;
  s_phase := s_phase s;
  s_permit_held := s_permit_held s;
  s_routing_valid := s_routing_valid s;
  s_session_live := v;
  s_executor_proven := s_executor_proven s;
  s_registered := s_registered s;
  s_pid := s_pid s;
  s_heartbeat_unix := s_heartbeat_unix s;
|}.
Definition slot_set_routing_valid (v : bool) (s : SlotRecord) : SlotRecord := {|
  s_slot_id := s_slot_id s;
  s_generation := s_generation s;
  s_phase := s_phase s;
  s_permit_held := s_permit_held s;
  s_routing_valid := v;
  s_session_live := s_session_live s;
  s_executor_proven := s_executor_proven s;
  s_registered := s_registered s;
  s_pid := s_pid s;
  s_heartbeat_unix := s_heartbeat_unix s;
|}.
Definition slot_set_registration (r : bool) (v : SlotPhase2) (s : SlotRecord) : SlotRecord := {|
  s_slot_id := s_slot_id s;
  s_generation := s_generation s;
  s_phase := v;
  s_permit_held := s_permit_held s;
  s_routing_valid := s_routing_valid s;
  s_session_live := s_session_live s;
  s_executor_proven := s_executor_proven s;
  s_registered := r;
  s_pid := s_pid s;
  s_heartbeat_unix := s_heartbeat_unix s;
|}.
Definition slot_set_heartbeat (p : option Z) (h : Z) (s : SlotRecord) : SlotRecord := {|
  s_slot_id := s_slot_id s;
  s_generation := s_generation s;
  s_phase := s_phase s;
  s_permit_held := s_permit_held s;
  s_routing_valid := s_routing_valid s;
  s_session_live := s_session_live s;
  s_executor_proven := s_executor_proven s;
  s_registered := s_registered s;
  s_pid := p;
  s_heartbeat_unix := h;
|}.

Definition job_set_phase (v : JobPhase2) (j : JobRecord) : JobRecord := {|
  j_job_id := j_job_id j;
  j_slot_id := j_slot_id j;
  j_generation := j_generation j;
  j_attempt := j_attempt j;
  j_worker := j_worker j;
  j_phase := v;
  j_accepted_unix := j_accepted_unix j;
  j_terminal_conclusion := j_terminal_conclusion j;
  j_provisional := j_provisional j;
  j_plan_id := j_plan_id j;
  j_run_service_url := j_run_service_url j;
  j_probe_attempts := j_probe_attempts j;
  j_probe_deadline_unix := j_probe_deadline_unix j;
|}.
Definition job_set_conclusion (c : option string) (v : JobPhase2) (j : JobRecord) : JobRecord := {|
  j_job_id := j_job_id j;
  j_slot_id := j_slot_id j;
  j_generation := j_generation j;
  j_attempt := j_attempt j;
  j_worker := j_worker j;
  j_phase := v;
  j_accepted_unix := j_accepted_unix j;
  j_terminal_conclusion := c;
  j_provisional := j_provisional j;
  j_plan_id := j_plan_id j;
  j_run_service_url := j_run_service_url j;
  j_probe_attempts := j_probe_attempts j;
  j_probe_deadline_unix := j_probe_deadline_unix j;
|}.
Definition job_set_identity (i : JobId) (p : string) (u : string) (j : JobRecord) : JobRecord := {|
  j_job_id := i;
  j_slot_id := j_slot_id j;
  j_generation := j_generation j;
  j_attempt := j_attempt j;
  j_worker := j_worker j;
  j_phase := j_phase j;
  j_accepted_unix := j_accepted_unix j;
  j_terminal_conclusion := j_terminal_conclusion j;
  j_provisional := j_provisional j;
  j_plan_id := p;
  j_run_service_url := u;
  j_probe_attempts := j_probe_attempts j;
  j_probe_deadline_unix := j_probe_deadline_unix j;
|}.
Definition job_set_probe_attempts (v : Z) (j : JobRecord) : JobRecord := {|
  j_job_id := j_job_id j;
  j_slot_id := j_slot_id j;
  j_generation := j_generation j;
  j_attempt := j_attempt j;
  j_worker := j_worker j;
  j_phase := j_phase j;
  j_accepted_unix := j_accepted_unix j;
  j_terminal_conclusion := j_terminal_conclusion j;
  j_provisional := j_provisional j;
  j_plan_id := j_plan_id j;
  j_run_service_url := j_run_service_url j;
  j_probe_attempts := v;
  j_probe_deadline_unix := j_probe_deadline_unix j;
|}.

Definition outbox_set_send_started (v : bool) (r : OutboxRecord) : OutboxRecord := {|
  o_job_id := o_job_id r;
  o_slot_id := o_slot_id r;
  o_generation := o_generation r;
  o_payload_sha256 := o_payload_sha256 r;
  o_intended := o_intended r;
  o_send_started := v;
  o_remote_acked := o_remote_acked r;
  o_created_unix := o_created_unix r;
  o_attempts := o_attempts r;
  o_deadline_unix := o_deadline_unix r;
  o_permanent := o_permanent r;
  o_abandoned := o_abandoned r;
|}.
Definition outbox_set_remote_acked (v : bool) (r : OutboxRecord) : OutboxRecord := {|
  o_job_id := o_job_id r;
  o_slot_id := o_slot_id r;
  o_generation := o_generation r;
  o_payload_sha256 := o_payload_sha256 r;
  o_intended := o_intended r;
  o_send_started := o_send_started r;
  o_remote_acked := v;
  o_created_unix := o_created_unix r;
  o_attempts := o_attempts r;
  o_deadline_unix := o_deadline_unix r;
  o_permanent := o_permanent r;
  o_abandoned := o_abandoned r;
|}.
Definition outbox_set_abandoned (v : bool) (r : OutboxRecord) : OutboxRecord := {|
  o_job_id := o_job_id r;
  o_slot_id := o_slot_id r;
  o_generation := o_generation r;
  o_payload_sha256 := o_payload_sha256 r;
  o_intended := o_intended r;
  o_send_started := o_send_started r;
  o_remote_acked := o_remote_acked r;
  o_created_unix := o_created_unix r;
  o_attempts := o_attempts r;
  o_deadline_unix := o_deadline_unix r;
  o_permanent := o_permanent r;
  o_abandoned := v;
|}.
Definition outbox_set_attempts (v : Z) (p : bool) (r : OutboxRecord) : OutboxRecord := {|
  o_job_id := o_job_id r;
  o_slot_id := o_slot_id r;
  o_generation := o_generation r;
  o_payload_sha256 := o_payload_sha256 r;
  o_intended := o_intended r;
  o_send_started := o_send_started r;
  o_remote_acked := o_remote_acked r;
  o_created_unix := o_created_unix r;
  o_attempts := v;
  o_deadline_unix := o_deadline_unix r;
  o_permanent := p;
  o_abandoned := o_abandoned r;
|}.

(** ** Events and commands *)

Module Ev.
Inductive Event :=
| ControlLive
| JournalWritable
| Dependency (github_reachable : bool)
| Routing (valid group_valid : bool)
| DesiredCapacity (ready : Z)
| PermitReserved (slot_id : SlotId) (generation : Generation)
| ExecutorProven (slot_id : SlotId) (generation : Generation)
| SessionLive (slot_id : SlotId) (generation : Generation)
| RegistrationIntended (slot_id : SlotId) (generation : Generation)
| Registered (slot_id : SlotId) (generation : Generation)
| RegistrationLost (slot_id : SlotId) (generation : Generation)
| ReadyAttempt (slot_id : SlotId) (generation : Generation)
| JobAcquisitionIntended (slot_id : SlotId) (job_id : JobId) (generation : Generation)
    (message_id : string) (run_service_url : string) (intended_unix : Z)
| JobAcquisitionResolved (provisional_job_id acquired_job_id : JobId) (plan_id : string)
    (generation : Generation)
| JobAcquisitionResolvedAtEndpoint (provisional_job_id acquired_job_id : JobId)
    (plan_id : string) (generation : Generation) (run_service_url : string)
| AcquisitionProbeFailed (job_id : JobId) (generation : Generation)
| JobAcquisitionLost (job_id : JobId) (generation : Generation) (reason : string)
| JobOwned (job_id : JobId) (slot_id : SlotId) (attempt : Z) (generation : Generation)
    (worker : string) (accepted_unix : Z)
| JobStarted (job_id : JobId) (generation : Generation)
| JobTerminalResult (job_id : JobId) (generation : Generation) (conclusion : string)
| CompletionIntended (job_id : JobId) (generation : Generation) (payload_sha256 : string)
| CompletionSendStarted (job_id : JobId) (generation : Generation)
| RemoteAcked (job_id : JobId) (generation : Generation)
| RemoteObservedTerminal (job_id : JobId) (generation : Generation)
| CompletionAttemptFailed (job_id : JobId) (generation : Generation) (permanent : bool)
| CompletionUnresolvable (job_id : JobId) (generation : Generation) (reason : string)
| CompletionPayloadLost (job_id : JobId) (generation : Generation) (payload_sha256 : string)
    (reason : string)
| JobWorkerLost (job_id : JobId) (generation : Generation)
| CleanupIntended (slot_id : SlotId) (isolation_id : string) (generation : Generation)
| SlotHeartbeat (slot_id : SlotId) (generation : Generation) (pid : Z)
| SlotStale (slot_id : SlotId) (generation : Generation)
| DiskPressureTerminalFence (slot_id : SlotId) (generation : Generation)
| CanaryObserved (status : CanaryStatus)
| PackageActivated (apt_version : string) (generation : Z)
| PackageRetireIntended (generation : Z).
End Ev.
Abbreviation Event := Ev.Event.
#[export] Instance Event_eq_dec : EqDecision Event.
Proof. solve_decision. Defined.

Module Fx.
Inductive SideEffect :=
| RegisterRunner (slot_id : SlotId) (generation : Generation)
| AdvertiseCapacity (permits : Z)
| SendCompletion (job_id : JobId) (generation : Generation) (payload_sha256 : string)
| Cleanup (isolation_id : string) (generation : Generation)
| DeleteOutbox (job_id : JobId) (generation : Generation)
| SpawnSlot (slot_id : SlotId) (generation : Generation)
| FenceSlot (slot_id : SlotId) (generation : Generation).
End Fx.
Abbreviation SideEffect := Fx.SideEffect.
#[export] Instance SideEffect_eq_dec : EqDecision SideEffect.
Proof. solve_decision. Defined.

Record ReduceOutcome := {
  state : FleetState;
  commands : list SideEffect;
  rejected : bool;
}.

(** ** First matches *)

Definition slot_is : SlotId -> SlotRecord -> bool := key_is s_slot_id.
Definition job_is : JobId -> JobRecord -> bool := key_is j_job_id.
Definition outbox_is : JobId -> OutboxRecord -> bool := key_is o_job_id.

Definition find_slot (id : SlotId) (st : FleetState) : option SlotRecord :=
  find_key s_slot_id id (slots st).
Definition find_job (id : JobId) (st : FleetState) : option JobRecord :=
  find_key j_job_id id (jobs st).
Definition find_outbox (id : JobId) (st : FleetState) : option OutboxRecord :=
  find_key o_job_id id (outbox st).

Definition update_slot (id : SlotId) (f : SlotRecord -> SlotRecord) (st : FleetState) : FleetState :=
  set_slots (update_first (slot_is id) f (slots st)) st.
Definition update_job (id : JobId) (f : JobRecord -> JobRecord) (st : FleetState) : FleetState :=
  set_jobs (update_first (job_is id) f (jobs st)) st.
Definition update_outbox (id : JobId) (f : OutboxRecord -> OutboxRecord) (st : FleetState)
    : FleetState :=
  set_outbox (update_first (outbox_is id) f (outbox st)) st.

(** [slot_generation] of the reducer's job arms: the generation of the slot
    the job's first row names. *)
Definition slot_generation_of (slot_id : SlotId) (st : FleetState) : option Generation :=
  match find_slot slot_id st with Some s => Some (s_generation s) | None => None end.

(** [FleetState::slot_mut]: the state with the slot present, and the slot. *)
Definition slot_mut (id : SlotId) (st : FleetState) : FleetState * SlotRecord :=
  match find_slot id st with
  | Some s => (st, s)
  | None => (set_slots (slots st ++ [SlotRecord_new id]) st, SlotRecord_new id)
  end.

(** ** Predicates *)

Definition is_pending (r : OutboxRecord) : bool :=
  o_intended r && negb (o_remote_acked r) && negb (o_abandoned r).

Definition budget_exhausted (now : Z) (r : OutboxRecord) : bool :=
  o_permanent r || (MAX_COMPLETION_ATTEMPTS <=? o_attempts r)
  || ((0 <? o_deadline_unix r) && (o_deadline_unix r <=? now)).

Definition probe_budget_exhausted (now : Z) (j : JobRecord) : bool :=
  (MAX_ACQUISITION_PROBES <=? j_probe_attempts j)
  || ((0 <? j_probe_deadline_unix j) && (j_probe_deadline_unix j <=? now)).

Definition ready_proof (s : SlotRecord) : result ReadyProof NotReady :=
  try_new (s_permit_held s) (s_routing_valid s) (s_session_live s) (s_executor_proven s).
Definition is_ok {A E} (r : result A E) : bool :=
  match r with Ok _ => true | Err _ => false end.

Definition outbox_owner_is_proven (st : FleetState) (row : OutboxRecord) : bool :=
  existsb (fun s => bool_decide (s_slot_id s = o_slot_id row)
                    && (s_generation s =? o_generation row)) (slots st)
  && existsb (fun j => bool_decide (j_job_id j = o_job_id row)
                       && bool_decide (j_slot_id j = o_slot_id row)
                       && (j_generation j =? o_generation row)
                       && negb (j_provisional j)) (jobs st).

Definition pending_outbox_blocks_admission (st : FleetState) (slot_id : SlotId)
    (generation : Generation) : bool :=
  existsb (fun row =>
    if negb (is_pending row) then false
    else if bool_decide (o_slot_id row = slot_id) && (o_generation row =? generation) then true
    else negb (outbox_owner_is_proven st row)) (outbox st).

Definition fleet_admission_blocked (st : FleetState) : bool :=
  admission_blocked st || drain_active st.

Definition slot_has_active_job (st : FleetState) (slot_id : SlotId) : bool :=
  existsb (fun j => bool_decide (j_slot_id j = slot_id) && occupies_slot (j_phase j)) (jobs st).

(** [iter().filter(p).count() as u32]. *)
Definition count_u32 {A} (p : A -> bool) (l : list A) : Z :=
  Z.of_nat (length (List.filter p l)) mod 2 ^ 32.

Definition advertised_capacity (st : FleetState) : Z :=
  if capacity_invalid st || admission_blocked st || drain_active st then 0
  else count_u32 (fun s => s_permit_held s && counts_as_ready (s_phase s)) (slots st).

(** [max()] of an iterator of [u64], [unwrap_or(0)]. *)
Definition max_or_zero (l : list Z) : Z := fold_right Z.max 0 l.

Definition oldest_queued_job_age (now : Z) (js : list JobRecord) : Z :=
  max_or_zero (map (fun j => u64_saturating_sub now (j_accepted_unix j))
    (List.filter (fun j => occupies_slot (j_phase j) && (0 <? j_accepted_unix j)) js)).

Definition oldest_outbox_age_seconds (now : Z) (rows : list OutboxRecord) : Z :=
  max_or_zero (map (fun r => u64_saturating_sub now (o_created_unix r))
    (List.filter is_pending rows)).

(** [FleetState::health]. *)
Definition health (now : Z) (st : FleetState) : HealthDocument :=
  with_derived_state {|
    hd_control_live := control_live st && negb (capacity_invalid st);
    hd_journal_writable := journal_writable st;
    hd_github_reachable := github_reachable st;
    hd_routing_valid := routing_valid st;
    hd_runner_group_valid := runner_group_valid st;
    desired_ready_slots := desired_ready st;
    actual_ready_slots := count_u32 (fun s => counts_as_ready (s_phase s)) (slots st);
    registered_slots := count_u32 s_registered (slots st);
    capacity_permits :=
      if admission_blocked st || drain_active st then 0
      else count_u32 s_permit_held (slots st);
    executor_ready_slots := count_u32 s_executor_proven (slots st);
    oldest_queued_job_seconds := oldest_queued_job_age now (jobs st);
    oldest_outbox_entry_seconds := oldest_outbox_age_seconds now (outbox st);
    external_canary := canary st;
    hd_execution_backend := execution_backend st;
    hd_state := FleetNotReady;
  |}.

(** [str::trim().is_empty()]: every character is white space, in UTF-8. *)
Definition ascii_space (b : Z) : bool := ((9 <=? b) && (b <=? 13)) || (b =? 32).
Definition two_byte_space (b1 b2 : Z) : bool := (b1 =? 194) && ((b2 =? 133) || (b2 =? 160)).
Definition three_byte_space (b1 b2 b3 : Z) : bool :=
  ((b1 =? 225) && (b2 =? 154) && (b3 =? 128))
  || ((b1 =? 226) && (b2 =? 128)
      && (((128 <=? b3) && (b3 <=? 138)) || (b3 =? 168) || (b3 =? 169) || (b3 =? 175)))
  || ((b1 =? 226) && (b2 =? 129) && (b3 =? 159))
  || ((b1 =? 227) && (b2 =? 128) && (b3 =? 128)).
Fixpoint is_blank_bytes (bytes : list Z) : bool :=
  match bytes with
  | [] => true
  | b1 :: rest1 =>
      if ascii_space b1 then is_blank_bytes rest1
      else match rest1 with
           | [] => false
           | b2 :: rest2 =>
               if two_byte_space b1 b2 then is_blank_bytes rest2
               else match rest2 with
                    | [] => false
                    | b3 :: rest3 => three_byte_space b1 b2 b3 && is_blank_bytes rest3
                    end
           end
  end.
Definition is_blank (s : string) : bool :=
  is_blank_bytes (map (fun c => Z.of_N (N_of_ascii c)) (list_ascii_of_string s)).

Definition starts_with (prefix s : string) : bool := String.prefix prefix s.
Definition is_empty (s : string) : bool := bool_decide (s = EmptyString).
