(* ===== verification/JournalReduce.v ===== *)
(** * Journal: the reducer

    [reduce] of [crates/velnor-control/src/journal.rs], the pure
    [State + Event -> New State + Commands] function behind every journal
    write: one definition per arm of the source's [match], put together by
    [reduce]. The wall clock the source reads with [unix_now()] is the
    argument [now]. *)

From S2P Require Import Prelude NodeModel JournalData.
From Stdlib Require Import String.
From stdpp Require Import base list strings.
#[local] Open Scope Z_scope.

(** ** Outcomes of one arm *)

Definition accept (st : FleetState) (cmds : list SideEffect) : ReduceOutcome :=
  {| state := st; commands := cmds; rejected := false |}.
(** [rejected = true] leaves whatever the arm had already written. *)
Definition reject (st : FleetState) : ReduceOutcome :=
  {| state := st; commands := []; rejected := true |}.

(** ** Slot restoration *)

(** The phase of a slot whose job is gone. *)
Definition restored_phase (s : SlotRecord) : SlotPhase2 :=
  if is_ok (ready_proof s) && s_registered s then Ready
  else if s_registered s then Registered
  else Provisioning.

Definition restore_slot_after_job_removal (st : FleetState) (job_id : JobId)
    : FleetState * list SideEffect :=
  match find_job job_id st with
  | None => (st, [])
  | Some job =>
      let st1 := set_jobs (List.filter (fun item => negb (job_is job_id item)) (jobs st)) st in
      match find_slot (j_slot_id job) st1 with
      | None => (st1, [])
      | Some s =>
          if negb (s_generation s =? j_generation job) then (st1, [])
          else if bool_decide (s_phase s = Fenced) then (st1, [])
          else
            let st2 := update_slot (j_slot_id job) (slot_set_phase (restored_phase s)) st1 in
            if is_ok (ready_proof s) && s_registered s
            then (st2, [Fx.AdvertiseCapacity (advertised_capacity st2)])
            else (st2, [])
      end
  end.

(** ** Fleet-wide facts *)

Definition reduce_routing (st : FleetState) (valid group_valid : bool) : ReduceOutcome :=
  let st1 := set_routing valid group_valid st in
  accept (set_slots (map (slot_set_routing_valid (valid && group_valid)) (slots st1)) st1) [].

(** ** Slot lifecycle *)

(** A new generation is a new actor: nothing proven for its predecessor is kept. *)
Definition reserved_slot (routing : bool) (generation : Generation) (s : SlotRecord) : SlotRecord :=
  let newer := s_generation s <? generation in
  let phase := if newer then Provisioning else s_phase s in
  {| s_slot_id := s_slot_id s;
     s_generation := generation;
     s_phase := if bool_decide (phase = Absent) then Provisioning else phase;
     s_permit_held := true;
     s_routing_valid := routing;
     s_session_live := if newer then false else s_session_live s;
     s_executor_proven := if newer then false else s_executor_proven s;
     s_registered := if newer then false else s_registered s;
     s_pid := if newer then None else s_pid s;
     s_heartbeat_unix := if newer then 0 else s_heartbeat_unix s |}.

Definition slot_admission_blocked (st : FleetState) (slot_id : SlotId) (generation : Generation)
    : bool :=
  slot_has_active_job st slot_id || pending_outbox_blocks_admission st slot_id generation.

Definition reduce_permit_reserved (st : FleetState) (slot_id : SlotId) (generation : Generation)
    : ReduceOutcome :=
  let routing := routing_valid st && runner_group_valid st in
  let blocked := slot_admission_blocked st slot_id generation in
  let admission := fleet_admission_blocked st in
  let '(st1, slot) := slot_mut slot_id st in
  if (generation <? s_generation slot) || blocked || admission
     || ((generation =? s_generation slot) && bool_decide (s_phase slot = Fenced))
  then reject st1
  else accept (update_slot slot_id (reserved_slot routing generation) st1)
         [Fx.SpawnSlot slot_id generation].

(** The guard shared by the per-slot proofs and heartbeats. *)
Definition slot_refuses (generation : Generation) (s : SlotRecord) : bool :=
  negb (generation =? s_generation s) || bool_decide (s_phase s = Fenced).

Definition reduce_executor_proven (st : FleetState) (slot_id : SlotId) (generation : Generation)
    : ReduceOutcome :=
  let '(st1, slot) := slot_mut slot_id st in
  if slot_refuses generation slot then reject st1
  else accept (update_slot slot_id (slot_set_executor_proven true) st1) [].

Definition reduce_session_live (st : FleetState) (slot_id : SlotId) (generation : Generation)
    : ReduceOutcome :=
  let '(st1, slot) := slot_mut slot_id st in
  if slot_refuses generation slot then reject st1
  else accept (update_slot slot_id (slot_set_session_live true) st1) [].

Definition reduce_registration_intended (st : FleetState) (slot_id : SlotId)
    (generation : Generation) : ReduceOutcome :=
  let blocked := slot_admission_blocked st slot_id generation in
  let admission := fleet_admission_blocked st in
  let '(st1, slot) := slot_mut slot_id st in
  if slot_refuses generation slot || blocked || admission || negb (is_ok (ready_proof slot))
  then reject st1
  else accept st1 [Fx.RegisterRunner slot_id generation].

Definition reduce_registered (st : FleetState) (slot_id : SlotId) (generation : Generation)
    : ReduceOutcome :=
  let blocked := slot_admission_blocked st slot_id generation in
  let admission := fleet_admission_blocked st in
  let '(st1, slot) := slot_mut slot_id st in
  if slot_refuses generation slot || blocked || admission then reject st1
  else accept (update_slot slot_id (slot_set_registration true Registered) st1) [].

(** The remote identity is gone: registration, permit and session with it. *)
Definition unregistered_slot (draining : bool) (s : SlotRecord) : SlotRecord :=
  {| s_slot_id := s_slot_id s;
     s_generation := s_generation s;
     s_phase := if draining then Fenced else Provisioning;
     s_permit_held := false;
     s_routing_valid := s_routing_valid s;
     s_session_live := false;
     s_executor_proven := s_executor_proven s;
     s_registered := false;
     s_pid := s_pid s;
     s_heartbeat_unix := s_heartbeat_unix s |}.

Definition reduce_registration_lost (st : FleetState) (slot_id : SlotId) (generation : Generation)
    : ReduceOutcome :=
  let draining := slot_admission_blocked st slot_id generation in
  let '(st1, slot) := slot_mut slot_id st in
  if slot_refuses generation slot || negb (s_registered slot) then reject st1
  else accept (update_slot slot_id (unregistered_slot draining) st1)
         (if draining then [Fx.FenceSlot slot_id generation] else []).

Definition reduce_ready_attempt (st : FleetState) (slot_id : SlotId) (generation : Generation)
    : ReduceOutcome :=
  let blocked := slot_admission_blocked st slot_id generation in
  let admission := fleet_admission_blocked st in
  let '(st1, slot) := slot_mut slot_id st in
  if slot_refuses generation slot || blocked || admission then reject st1
  else if is_ok (ready_proof slot) && s_registered slot then
    let st2 := update_slot slot_id (slot_set_phase Ready) st1 in
    accept st2 [Fx.AdvertiseCapacity (advertised_capacity st2)]
  else reject st1.

(** ** Acquisition *)

Definition intended_job (slot_id : SlotId) (job_id : JobId) (generation : Generation)
    (run_service_url : string) (intended_unix : Z) : JobRecord :=
  {| j_job_id := job_id;
     j_slot_id := slot_id;
     j_generation := generation;
     j_attempt := 0;
     j_worker := EmptyString;
     j_phase := JobAssigned;
     j_accepted_unix := 0;
     j_terminal_conclusion := None;
     j_provisional := true;
     j_plan_id := EmptyString;
     j_run_service_url := run_service_url;
     j_probe_attempts := 0;
     j_probe_deadline_unix := u64_saturating_add intended_unix ACQUISITION_RESOLUTION_SECONDS |}.

Definition reduce_acquisition_intended (st : FleetState) (slot_id : SlotId) (job_id : JobId)
    (generation : Generation) (run_service_url : string) (intended_unix : Z) : ReduceOutcome :=
  let admission := fleet_admission_blocked st in
  let '(st1, slot) := slot_mut slot_id st in
  if negb (generation =? s_generation slot) || bool_decide (s_phase slot ≠ Ready)
     || admission || existsb (job_is job_id) (jobs st1)
  then reject st1
  else
    let st2 := update_slot slot_id (slot_set_phase Assigned) st1 in
    accept (set_jobs (jobs st2 ++
              [intended_job slot_id job_id generation run_service_url intended_unix]) st2) [].

(** The provisional row an acquisition event names. *)
Definition provisional_row (job_id : JobId) (generation : Generation) (j : JobRecord) : bool :=
  job_is job_id j && (j_generation j =? generation) && j_provisional j.

Definition target_taken (st : FleetState) (provisional_job_id acquired_job_id : JobId) : bool :=
  bool_decide (acquired_job_id ≠ provisional_job_id) && existsb (job_is acquired_job_id) (jobs st).

Definition reduce_acquisition_resolved (st : FleetState) (provisional_job_id acquired_job_id : JobId)
    (plan_id : string) (generation : Generation) : ReduceOutcome :=
  match List.find (provisional_row provisional_job_id generation) (jobs st) with
  | Some _ =>
      if negb (target_taken st provisional_job_id acquired_job_id) then
        accept (set_jobs (update_first (provisional_row provisional_job_id generation)
                  (fun row => job_set_identity acquired_job_id plan_id (j_run_service_url row) row)
                  (jobs st)) st) []
      else reject st
  | None => reject st
  end.

Definition reduce_acquisition_resolved_at_endpoint (st : FleetState)
    (provisional_job_id acquired_job_id : JobId) (plan_id : string) (generation : Generation)
    (run_service_url : string) : ReduceOutcome :=
  match List.find (provisional_row provisional_job_id generation) (jobs st) with
  | Some _ =>
      if negb (target_taken st provisional_job_id acquired_job_id)
         && negb (is_blank plan_id) && negb (is_blank run_service_url) then
        accept (set_jobs (update_first (provisional_row provisional_job_id generation)
                  (job_set_identity acquired_job_id plan_id run_service_url) (jobs st)) st) []
      else reject st
  | None => reject st
  end.

Definition reduce_probe_failed (st : FleetState) (job_id : JobId) (generation : Generation)
    : ReduceOutcome :=
  match List.find (provisional_row job_id generation) (jobs st) with
  | Some _ =>
      accept (set_jobs (update_first (provisional_row job_id generation)
                (fun row => job_set_probe_attempts (u32_saturating_add (j_probe_attempts row) 1) row)
                (jobs st)) st) []
  | None => reject st
  end.

Definition reduce_acquisition_lost (st : FleetState) (job_id : JobId) (generation : Generation)
    : ReduceOutcome :=
  if existsb (provisional_row job_id generation) (jobs st) then
    let '(st1, cmds) := restore_slot_after_job_removal st job_id in accept st1 cmds
  else reject st.

(** The provisional row a terminal-pressure recovery hands over. *)
Definition terminal_handoff_row (st : FleetState) (job_id : JobId) (slot_id : SlotId)
    (generation : Generation) (worker : string) : bool :=
  starts_with PRESSURE_TERMINAL_RECOVERY_WORKER_PREFIX worker
  && existsb (fun j => job_is job_id j && bool_decide (j_slot_id j = slot_id)
                       && (j_generation j =? generation) && j_provisional j
                       && negb (is_empty (j_plan_id j))) (jobs st).

Definition owned_job (job_id : JobId) (slot_id : SlotId) (attempt : Z) (generation : Generation)
    (worker : string) (accepted_unix : Z) (plan_id run_service_url : string) : JobRecord :=
  {| j_job_id := job_id;
     j_slot_id := slot_id;
     j_generation := generation;
     j_attempt := attempt;
     j_worker := worker;
     j_phase := JobAssigned;
     j_accepted_unix := accepted_unix;
     j_terminal_conclusion := None;
     j_provisional := false;
     j_plan_id := plan_id;
     j_run_service_url := run_service_url;
     j_probe_attempts := 0;
     j_probe_deadline_unix := 0 |}.

Definition reduce_job_owned (st : FleetState) (job_id : JobId) (slot_id : SlotId) (attempt : Z)
    (generation : Generation) (worker : string) (accepted_unix : Z) : ReduceOutcome :=
  let slot := find_slot slot_id st in
  let slot_generation := slot_generation_of slot_id st in
  let slot_phase := match slot with Some s => Some (s_phase s) | None => None end in
  let newer_job := existsb (fun j => job_is job_id j && (generation <? j_generation j)) (jobs st) in
  let other_live :=
    existsb (fun j => bool_decide (j_slot_id j = slot_id) && negb (job_is job_id j)
                      && occupies_slot (j_phase j)) (jobs st) in
  let slot_phase_allowed :=
    bool_decide (slot_phase = Some Assigned)
    || (bool_decide (slot_phase = Some Fenced)
        && terminal_handoff_row st job_id slot_id generation worker) in
  if newer_job || bool_decide (slot_generation ≠ Some generation)
     || negb slot_phase_allowed || other_live
  then reject st
  else
    let '(plan_id, run_service_url) :=
      match find_job job_id st with
      | Some j => (j_plan_id j, j_run_service_url j)
      | None => (EmptyString, EmptyString)
      end in
    accept (set_jobs (List.filter (fun j => negb (job_is job_id j)) (jobs st) ++
              [owned_job job_id slot_id attempt generation worker accepted_unix
                 plan_id run_service_url]) st) [].

(** ** Execution and completion *)

(** [slot_generation] of a job: the generation of the slot its row names. *)
Definition job_slot_generation (st : FleetState) (job_id : JobId) : option Generation :=
  match find_job job_id st with
  | Some j => slot_generation_of (j_slot_id j) st
  | None => None
  end.

Definition reduce_job_started (st : FleetState) (job_id : JobId) (generation : Generation)
    : ReduceOutcome :=
  match find_job job_id st with
  | Some job =>
      if negb (j_generation job =? generation)
         || bool_decide (job_slot_generation st job_id ≠ Some generation)
      then reject st
      else accept (update_job job_id (job_set_phase JobRunning) st) []
  | None => reject st
  end.

Definition reduce_terminal_result (st : FleetState) (job_id : JobId) (generation : Generation)
    (conclusion : string) : ReduceOutcome :=
  match find_job job_id st with
  | Some job =>
      if (j_generation job =? generation)
         && bool_decide (job_slot_generation st job_id = Some generation)
         && occupies_slot (j_phase job)
         && match j_terminal_conclusion job with
            | None => true
            | Some recorded => bool_decide (recorded = conclusion)
            end
      then accept (update_job job_id (job_set_conclusion (Some conclusion) JobCompleting) st) []
      else reject st
  | None => reject st
  end.

Definition intended_row (now : Z) (job_id : JobId) (slot_id : SlotId) (generation : Generation)
    (payload_sha256 : string) : OutboxRecord :=
  {| o_job_id := job_id;
     o_slot_id := slot_id;
     o_generation := generation;
     o_payload_sha256 := payload_sha256;
     o_intended := true;
     o_send_started := false;
     o_remote_acked := false;
     o_created_unix := now;
     o_attempts := 0;
     o_deadline_unix := u64_saturating_add now COMPLETION_RESOLUTION_SECONDS;
     o_permanent := false;
     o_abandoned := false |}.

Definition reduce_completion_intended (now : Z) (st : FleetState) (job_id : JobId)
    (generation : Generation) (payload_sha256 : string) : ReduceOutcome :=
  match find_job job_id st with
  | Some job =>
      if j_provisional job || negb (j_generation job =? generation)
         || bool_decide (slot_generation_of (j_slot_id job) st ≠ Some generation)
      then reject st
      else match find_outbox job_id st with
      | Some row =>
          if negb (o_generation row =? generation) || negb (is_pending row)
             || bool_decide (o_payload_sha256 row ≠ payload_sha256)
             || negb (outbox_owner_is_proven st row)
          then reject st
          else if bool_decide (j_phase job ≠ JobCompleting)
          then accept (update_job job_id (job_set_phase JobCompleting) st) []
          else accept st []
      | None =>
          let st1 := update_job job_id (job_set_phase JobCompleting) st in
          accept (set_outbox (outbox st1 ++
                    [intended_row now job_id (j_slot_id job) generation payload_sha256]) st1)
            [Fx.SendCompletion job_id generation payload_sha256]
      end
  | None => reject st
  end.

Definition reduce_send_started (st : FleetState) (job_id : JobId) (generation : Generation)
    : ReduceOutcome :=
  match find_outbox job_id st with
  | Some row =>
      if (o_generation row =? generation) && is_pending row && negb (o_send_started row)
         && outbox_owner_is_proven st row
      then accept (update_outbox job_id (outbox_set_send_started true) st) []
      else reject st
  | None => reject st
  end.

Definition reduce_remote_acked (st : FleetState) (job_id : JobId) (generation : Generation)
    : ReduceOutcome :=
  let job_slot_generation :=
    match find_job job_id st with
    | Some job => match find_slot (j_slot_id job) st with
                  | Some s => Some (j_generation job, s_generation s)
                  | None => None
                  end
    | None => None
    end in
  match find_outbox job_id st with
  | Some row =>
      if (o_generation row =? generation) && is_pending row && o_send_started row
         && bool_decide (job_slot_generation = Some (generation, generation))
         && outbox_owner_is_proven st row
      then
        let st1 := update_outbox job_id (outbox_set_remote_acked true) st in
        let '(st2, cmds) := restore_slot_after_job_removal st1 job_id in
        accept st2 (Fx.DeleteOutbox job_id generation :: cmds)
      else reject st
  | None => reject st
  end.

Definition reduce_attempt_failed (st : FleetState) (job_id : JobId) (generation : Generation)
    (permanent : bool) : ReduceOutcome :=
  match find_outbox job_id st with
  | Some row =>
      if (o_generation row =? generation) && is_pending row && o_send_started row
         && outbox_owner_is_proven st row
      then accept (update_outbox job_id (fun r =>
             outbox_set_attempts (u32_saturating_add (o_attempts r) 1) (o_permanent r || permanent) r)
             st) []
      else reject st
  | None => reject st
  end.

Definition abandon (st : FleetState) (job_id : JobId) (generation : Generation) : ReduceOutcome :=
  let st1 := update_outbox job_id (outbox_set_abandoned true) st in
  let '(st2, cmds) := restore_slot_after_job_removal st1 job_id in
  accept st2 (Fx.DeleteOutbox job_id generation :: cmds).

Definition reduce_unresolvable (now : Z) (st : FleetState) (job_id : JobId)
    (generation : Generation) : ReduceOutcome :=
  match find_outbox job_id st with
  | Some row =>
      if (o_generation row =? generation) && is_pending row && outbox_owner_is_proven st row
         && budget_exhausted now row
      then abandon st job_id generation
      else reject st
  | None => reject st
  end.

Definition reduce_payload_lost (st : FleetState) (job_id : JobId) (generation : Generation)
    (payload_sha256 : string) : ReduceOutcome :=
  match find_outbox job_id st with
  | Some row =>
      if (o_generation row =? generation) && bool_decide (o_payload_sha256 row = payload_sha256)
         && is_pending row && outbox_owner_is_proven st row
         && existsb (fun j => job_is job_id j && bool_decide (j_slot_id j = o_slot_id row)
                              && (j_generation j =? generation) && negb (j_provisional j)
                              && bool_decide (j_phase j = JobCompleting)) (jobs st)
      then abandon st job_id generation
      else reject st
  | None => reject st
  end.

Definition reduce_worker_lost (st : FleetState) (job_id : JobId) (generation : Generation)
    : ReduceOutcome :=
  match find_job job_id st with
  | Some job =>
      if (j_generation job =? generation)
         && bool_decide (slot_generation_of (j_slot_id job) st = Some generation)
      then
        let pending_outbox :=
          existsb (fun row => outbox_is job_id row && (o_generation row =? generation)
                              && is_pending row) (outbox st) in
        if negb pending_outbox then
          let '(st1, cmds) := restore_slot_after_job_removal st job_id in accept st1 cmds
        else accept st []
      else reject st
  | None => reject st
  end.

(** ** Cleanup, heartbeats, fences *)

Definition reduce_cleanup_intended (st : FleetState) (slot_id : SlotId) (isolation_id : string)
    (generation : Generation) : ReduceOutcome :=
  if bool_decide (slot_generation_of slot_id st ≠ Some generation) then reject st
  else accept st [Fx.Cleanup isolation_id generation].

Definition reduce_heartbeat (now : Z) (st : FleetState) (slot_id : SlotId)
    (generation : Generation) (pid : Z) : ReduceOutcome :=
  let '(st1, slot) := slot_mut slot_id st in
  if slot_refuses generation slot then reject st1
  else accept (update_slot slot_id (slot_set_heartbeat (Some pid) now) st1) [].

Definition reduce_slot_stale (st : FleetState) (slot_id : SlotId) (generation : Generation)
    : ReduceOutcome :=
  let occupied := slot_has_active_job st slot_id in
  let '(st1, slot) := slot_mut slot_id st in
  if negb (generation =? s_generation slot) || occupied then reject st1
  else accept (update_slot slot_id (slot_set_phase Fenced) st1) [Fx.FenceSlot slot_id generation].

Definition reduce_pressure_fence (st : FleetState) (slot_id : SlotId) (generation : Generation)
    : ReduceOutcome :=
  let '(st1, slot) := slot_mut slot_id st in
  if negb (generation =? s_generation slot) then reject st1
  else accept (update_slot slot_id (slot_set_phase Fenced) st1) [Fx.FenceSlot slot_id generation].

Definition reduce_package_retire (st : FleetState) (generation : Z) : ReduceOutcome :=
  let pending_outbox := existsb is_pending (outbox st) in
  if negb (generation =? package_generation st) || bool_decide (jobs st ≠ []) || pending_outbox
  then reject st
  else accept (set_package 0 EmptyString st) [].

(** ** The reducer *)

Definition reduce (now : Z) (st : FleetState) (event : Event) : ReduceOutcome :=
  match event with
  | Ev.ControlLive => accept (set_control_live true st) []
  | Ev.JournalWritable => accept (set_journal_writable true st) []
  | Ev.Dependency reachable => accept (set_github_reachable reachable st) []
  | Ev.Routing valid group_valid => reduce_routing st valid group_valid
  | Ev.DesiredCapacity ready => accept (set_desired_ready ready true st) []
  | Ev.PermitReserved slot_id generation => reduce_permit_reserved st slot_id generation
  | Ev.ExecutorProven slot_id generation => reduce_executor_proven st slot_id generation
  | Ev.SessionLive slot_id generation => reduce_session_live st slot_id generation
  | Ev.RegistrationIntended slot_id generation => reduce_registration_intended st slot_id generation
  | Ev.Registered slot_id generation => reduce_registered st slot_id generation
  | Ev.RegistrationLost slot_id generation => reduce_registration_lost st slot_id generation
  | Ev.ReadyAttempt slot_id generation => reduce_ready_attempt st slot_id generation
  | Ev.JobAcquisitionIntended slot_id job_id generation _ url intended_unix =>
      reduce_acquisition_intended st slot_id job_id generation url intended_unix
  | Ev.JobAcquisitionResolved provisional acquired plan_id generation =>
      reduce_acquisition_resolved st provisional acquired plan_id generation
  | Ev.JobAcquisitionResolvedAtEndpoint provisional acquired plan_id generation url =>
      reduce_acquisition_resolved_at_endpoint st provisional acquired plan_id generation url
  | Ev.AcquisitionProbeFailed job_id generation => reduce_probe_failed st job_id generation
  | Ev.JobAcquisitionLost job_id generation _ => reduce_acquisition_lost st job_id generation
  | Ev.JobOwned job_id slot_id attempt generation worker accepted_unix =>
      reduce_job_owned st job_id slot_id attempt generation worker accepted_unix
  | Ev.JobStarted job_id generation => reduce_job_started st job_id generation
  | Ev.JobTerminalResult job_id generation conclusion =>
      reduce_terminal_result st job_id generation conclusion
  | Ev.CompletionIntended job_id generation sha =>
      reduce_completion_intended now st job_id generation sha
  | Ev.CompletionSendStarted job_id generation => reduce_send_started st job_id generation
  | Ev.RemoteAcked job_id generation | Ev.RemoteObservedTerminal job_id generation =>
      reduce_remote_acked st job_id generation
  | Ev.CompletionAttemptFailed job_id generation permanent =>
      reduce_attempt_failed st job_id generation permanent
  | Ev.CompletionUnresolvable job_id generation _ => reduce_unresolvable now st job_id generation
  | Ev.CompletionPayloadLost job_id generation sha _ => reduce_payload_lost st job_id generation sha
  | Ev.JobWorkerLost job_id generation => reduce_worker_lost st job_id generation
  | Ev.CleanupIntended slot_id isolation_id generation =>
      reduce_cleanup_intended st slot_id isolation_id generation
  | Ev.SlotHeartbeat slot_id generation pid => reduce_heartbeat now st slot_id generation pid
  | Ev.SlotStale slot_id generation => reduce_slot_stale st slot_id generation
  | Ev.DiskPressureTerminalFence slot_id generation => reduce_pressure_fence st slot_id generation
  | Ev.CanaryObserved status => accept (set_canary status st) []
  | Ev.PackageActivated apt_version generation => accept (set_package generation apt_version st) []
  | Ev.PackageRetireIntended generation => reduce_package_retire st generation
  end.

(** [stamp_event]: the acceptance time of a [JobOwned] without one. *)
Definition stamp_event (now : Z) (event : Event) : Event :=
  match event with
  | Ev.JobOwned job_id slot_id attempt generation worker accepted_unix =>
      if accepted_unix =? 0 then Ev.JobOwned job_id slot_id attempt generation worker now
      else event
  | _ => event
  end.
