(* ===== verification/JournalInv.v ===== *)
(** * Journal: invariant of the reducer

    Every state the reducer reaches from the empty fleet keeps its slots,
    jobs and completion rows consistent with each other: identities are
    unique, a job sits on exactly one slot of its own generation which is
    assigned to it or fenced, an assigned slot has its job, a ready slot has
    its proofs, and a completion still owed to the remote service has a
    proven owner. *)

From S2P Require Import Prelude NodeModel JournalData JournalReduce.
From stdpp Require Import base list strings.
#[local] Open Scope Z_scope.
#[local] Arguments keys : simpl never.

(** ** The invariant *)

(** A job and the slot it occupies. *)
Definition at_home (st : FleetState) (j : JobRecord) : Prop :=
  exists s, find_slot (j_slot_id j) st = Some s /\ s_generation s = j_generation j /\
    (s_phase s = Assigned \/ s_phase s = Fenced).

(** What makes a slot ready stays proven, routing apart. *)
Definition proven (s : SlotRecord) : Prop :=
  s_permit_held s = true /\ s_session_live s = true /\ s_executor_proven s = true /\
  s_registered s = true.

(** The job a completion row was prepared for. *)
Definition owned_by (r : OutboxRecord) (j : JobRecord) : Prop :=
  j_slot_id j = o_slot_id r /\ j_generation j = o_generation r /\ j_provisional j = false.

Definition row_ok (r : OutboxRecord) : Prop :=
  o_intended r = true /\ (o_remote_acked r = true -> o_send_started r = true) /\
  o_remote_acked r && o_abandoned r = false.

Record JInv (st : FleetState) : Prop := {
  ji_slots : NoDup (keys s_slot_id (slots st));
  ji_jobs : NoDup (keys j_job_id (jobs st));
  ji_outbox : NoDup (keys o_job_id (outbox st));
  ji_one_job k1 k2 j1 j2 : find_job k1 st = Some j1 -> find_job k2 st = Some j2 ->
    j_slot_id j1 = j_slot_id j2 -> k1 = k2;
  ji_home k j : find_job k st = Some j -> at_home st j;
  ji_assigned i s : find_slot i st = Some s -> s_phase s = Assigned ->
    exists k j, find_job k st = Some j /\ j_slot_id j = i;
  ji_ready i s : find_slot i st = Some s -> s_phase s = Ready -> proven s;
  ji_pending k r : find_outbox k st = Some r -> is_pending r = true ->
    exists j, find_job k st = Some j /\ owned_by r j;
  ji_row k r : find_outbox k st = Some r -> row_ok r;
}.

Lemma JInv_default : JInv FleetState_default.
Proof. split; try done; cbn; constructor. Qed.

(** ** Lookups *)

Lemma find_slot_id i st s : find_slot i st = Some s -> s_slot_id s = i.
Proof. by intros [_ ?]%find_key_elem. Qed.
Lemma find_job_id k st j : find_job k st = Some j -> j_job_id j = k.
Proof. by intros [_ ?]%find_key_elem. Qed.

Lemma find_slot_update i f st i' : (forall x, s_slot_id (f x) = s_slot_id x) ->
  find_slot i' (update_slot i f st) = if decide (i' = i) then f <$> find_slot i st else find_slot i' st.
Proof. apply find_key_update. Qed.
Lemma find_job_update k f st k' : (forall x, j_job_id (f x) = j_job_id x) ->
  find_job k' (update_job k f st) = if decide (k' = k) then f <$> find_job k st else find_job k' st.
Proof. apply find_key_update. Qed.
Lemma find_outbox_update k f st k' : (forall x, o_job_id (f x) = o_job_id x) ->
  find_outbox k' (update_outbox k f st)
  = if decide (k' = k) then f <$> find_outbox k st else find_outbox k' st.
Proof. apply find_key_update. Qed.

Lemma job_elem st j : JInv st -> j ∈ jobs st <-> find_job (j_job_id j) st = Some j.
Proof.
  intros I. split; [apply find_key_unique, I|]. by intros [? _]%find_key_elem.
Qed.

Lemma no_active_job st i : JInv st -> slot_has_active_job st i = false ->
  forall k j, find_job k st = Some j -> j_slot_id j <> i.
Proof.
  intros I N k j F E. unfold slot_has_active_job in N. rewrite existsb_false in N.
  specialize (N j (proj1 (find_key_elem j_job_id k _ _ F))).
  rewrite bool_decide_eq_true_2 in N by done. by destruct (j_phase j).
Qed.

(** ** Updating one slot *)

(** [s'] may stand at slot [i]. *)
Definition slot_fits (st : FleetState) (i : SlotId) (s' : SlotRecord) : Prop :=
  (forall k j, find_job k st = Some j -> j_slot_id j = i ->
     s_generation s' = j_generation j /\ (s_phase s' = Assigned \/ s_phase s' = Fenced)) /\
  (s_phase s' = Assigned -> exists k j, find_job k st = Some j /\ j_slot_id j = i) /\
  (s_phase s' = Ready -> proven s').

Lemma slot_fits_current st i s : JInv st -> find_slot i st = Some s -> slot_fits st i s.
Proof.
  intros I F. split_and!; [|by apply (ji_assigned _ I)|by eapply (ji_ready _ I)].
  intros k j Fj <-. destruct (ji_home _ I k j Fj) as (s' & Fs & G & P). naive_solver.
Qed.

Lemma update_slot_inv st i f s :
  JInv st -> find_slot i st = Some s -> (forall x, s_slot_id (f x) = s_slot_id x) ->
  slot_fits st i (f s) -> JInv (update_slot i f st).
Proof.
  intros I F K (H1 & H2 & H3). split.
  - cbn. rewrite keys_update_first by done. apply I.
  - apply I.
  - apply I.
  - apply (ji_one_job _ I).
  - intros k j Fj. unfold at_home. rewrite find_slot_update by done.
    case_decide as E; [|by apply (ji_home _ I k)]. rewrite F. exists (f s). by destruct (H1 k j Fj E).
  - intros i' s'. rewrite find_slot_update by done.
    case_decide as E; [subst; rewrite F; intros [= <-]; by apply H2|by apply (ji_assigned _ I)].
  - intros i' s'. rewrite find_slot_update by done.
    case_decide as E; [subst; rewrite F; intros [= <-]; by apply H3|by apply (ji_ready _ I)].
  - apply (ji_pending _ I).
  - apply (ji_row _ I).
Qed.

(** A fresh slot appears absent. *)
Lemma find_slot_snoc i st i' :
  find_slot i' (set_slots (slots st ++ [SlotRecord_new i]) st)
  = match find_slot i' st with
    | Some s => Some s
    | None => if decide (i = i') then Some (SlotRecord_new i) else None
    end.
Proof.
  unfold find_slot. cbn [slots set_slots]. rewrite find_key_app. case_match; [done|].
  rewrite find_key_cons. cbn [s_slot_id SlotRecord_new]. by case_decide.
Qed.

Lemma slot_mut_inv i st : JInv st ->
  JInv (slot_mut i st).1 /\ find_slot i (slot_mut i st).1 = Some (slot_mut i st).2.
Proof.
  intros I. unfold slot_mut. destruct (find_slot i st) as [s|] eqn:F; [done|]. cbn [fst snd]. split.
  - split; try apply I.
    + apply NoDup_keys_snoc; [apply I|]. by apply find_key_None.
    + intros k j Fj. destruct (ji_home _ I k j Fj) as (s & Fs & H). exists s.
      by rewrite find_slot_snoc, Fs.
    + intros i' s'. rewrite find_slot_snoc. destruct (find_slot i' st) eqn:E.
      * intros [= <-]. by apply (ji_assigned _ I).
      * case_decide; [|done]. by intros [= <-].
    + intros i' s'. rewrite find_slot_snoc. destruct (find_slot i' st) eqn:E.
      * intros [= <-]. by eapply (ji_ready _ I).
      * case_decide; [|done]. by intros [= <-].
  - rewrite find_slot_snoc, F. by rewrite decide_True.
Qed.

(** [slot_mut] touches nothing but the slots. *)
Lemma slot_mut_rest i st :
  jobs (slot_mut i st).1 = jobs st /\ outbox (slot_mut i st).1 = outbox st.
Proof. unfold slot_mut. by destruct (find_slot i st). Qed.

(** ** Updating one job *)

Lemma update_job_inv st k f :
  JInv st -> (forall x, j_job_id (f x) = j_job_id x /\ j_slot_id (f x) = j_slot_id x /\
    j_generation (f x) = j_generation x /\ j_provisional (f x) = j_provisional x) ->
  JInv (update_job k f st).
Proof.
  intros I K. assert (K' : forall x, j_job_id (f x) = j_job_id x) by (intros; apply K).
  assert (G : forall k' j', find_job k' (update_job k f st) = Some j' ->
    exists j, find_job k' st = Some j /\ j_slot_id j' = j_slot_id j /\
      j_generation j' = j_generation j /\ j_provisional j' = j_provisional j).
  { intros k' j'. rewrite find_job_update by done. case_decide; [subst|by eauto].
    destruct (find_job k st) as [j|]; [|done]. intros [= <-]. exists j. split; [done|]. by apply K. }
  assert (G' : forall k' j, find_job k' st = Some j -> exists j', find_job k' (update_job k f st) = Some j' /\
      j_slot_id j' = j_slot_id j /\ j_generation j' = j_generation j /\ j_provisional j' = j_provisional j).
  { intros k' j Fj. rewrite find_job_update by done. case_decide; [subst|by eauto].
    rewrite Fj. exists (f j). split; [done|]. by apply K. }
  split; try apply I.
  - cbn. rewrite keys_update_first by done. apply I.
  - intros k1 k2 j1 j2 (j1' & F1 & S1 & _)%G (j2' & F2 & S2 & _)%G E.
    apply (ji_one_job _ I k1 k2 j1' j2'); congruence.
  - intros k' j' (j & Fj & S & Ge & _)%G. destruct (ji_home _ I k' j Fj) as (s & Fs & Hs).
    exists s. rewrite S, Ge. done.
  - intros i s Fs P. destruct (ji_assigned _ I i s Fs P) as (k' & j & Fj & E).
    destruct (G' k' j Fj) as (j' & Fj' & S & _). exists k', j'. split; [done|congruence].
  - intros k' r Fr P. destruct (ji_pending _ I k' r Fr P) as (j & Fj & O1 & O2 & O3).
    destruct (G' k' j Fj) as (j' & Fj' & S & Ge & Pr). exists j'. split; [done|].
    unfold owned_by. rewrite S, Ge, Pr. done.
Qed.

(** Replacing one job row by another of the same slot and generation. *)
Lemma replace_job_inv st st' k j j' :
  JInv st -> find_job k st = Some j ->
  slots st' = slots st -> outbox st' = outbox st -> NoDup (keys j_job_id (jobs st')) ->
  (forall k', find_job k' st' = if decide (k' = k) then Some j' else find_job k' st) ->
  j_slot_id j' = j_slot_id j -> j_generation j' = j_generation j ->
  (j_provisional j = false -> j_provisional j' = false) ->
  JInv st'.
Proof.
  intros I F Sl Ou ND J Es Eg Ep.
  assert (FS : forall i, find_slot i st' = find_slot i st) by (intros; unfold find_slot; congruence).
  assert (FO : forall i, find_outbox i st' = find_outbox i st) by (intros; unfold find_outbox; congruence).
  assert (Q : forall k' q, find_job k' st' = Some q -> exists q0, find_job k' st = Some q0 /\
            j_slot_id q = j_slot_id q0 /\ j_generation q = j_generation q0).
  { intros k' q. rewrite J. case_decide; [|by eauto]. subst. intros [= <-]. eauto. }
  split; [rewrite Sl; apply I|done|rewrite Ou; apply I|..].
  - intros k1 k2 j1 j2 (q1 & F1 & S1 & _)%Q (q2 & F2 & S2 & _)%Q E.
    apply (ji_one_job _ I k1 k2 q1 q2); congruence.
  - intros k' q (q0 & F0 & S0 & G0)%Q. destruct (ji_home _ I k' q0 F0) as (s & Fs & G & P).
    exists s. rewrite FS, S0, G0. done.
  - intros i s. rewrite FS. intros Fs P. destruct (ji_assigned _ I i s Fs P) as (k' & q & Fq & E).
    destruct (decide (k' = k)) as [->|N].
    + exists k, j'. rewrite J, decide_True by done. split; [done|congruence].
    + exists k', q. by rewrite J, decide_False.
  - intros i s. rewrite FS. apply (ji_ready _ I).
  - intros k' r. rewrite FO. intros Fr P. destruct (ji_pending _ I k' r Fr P) as (q & Fq & O1 & O2 & O3).
    rewrite J. case_decide; [subst|by exists q]. exists j'. split; [done|].
    simplify_eq. split_and!; [congruence|congruence|auto].
  - intros k' r. rewrite FO. apply (ji_row _ I).
Qed.

(** A job leaves, and its slot is no longer assigned. *)
Lemma job_gone_inv st st' k j s' :
  JInv st -> find_job k st = Some j ->
  (forall r, find_outbox k st = Some r -> is_pending r = false) ->
  jobs st' = List.filter (fun x => negb (job_is k x)) (jobs st) -> outbox st' = outbox st ->
  keys s_slot_id (slots st') = keys s_slot_id (slots st) ->
  (forall i, find_slot i st' = if decide (i = j_slot_id j) then Some s' else find_slot i st) ->
  s_phase s' <> Assigned -> (s_phase s' = Ready -> proven s') ->
  JInv st'.
Proof.
  intros I F NP Ej Ou Sk FS NA NR.
  assert (FJ : forall k', find_job k' st' = if decide (k' = k) then None else find_job k' st)
    by (intros; unfold find_job; rewrite Ej; apply find_key_remove).
  assert (FO : forall i, find_outbox i st' = find_outbox i st) by (intros; unfold find_outbox; congruence).
  assert (Q : forall k' q, find_job k' st' = Some q ->
            k' <> k /\ find_job k' st = Some q /\ j_slot_id q <> j_slot_id j).
  { intros k' q. rewrite FJ. case_decide as N; [done|]. intros Fq. split_and!; [done..|].
    intros E. apply N. by eapply (ji_one_job _ I). }
  split.
  - rewrite Sk. apply I.
  - rewrite Ej. apply NoDup_keys_filter, I.
  - rewrite Ou. apply I.
  - intros k1 k2 j1 j2 (_ & F1 & _)%Q (_ & F2 & _)%Q. by eapply (ji_one_job _ I).
  - intros k' q (_ & Fq & N)%Q. destruct (ji_home _ I k' q Fq) as (s & Fs & H).
    exists s. by rewrite FS, decide_False.
  - intros i s. rewrite FS. case_decide as E; [by intros [= <-]|]. intros Fs P.
    destruct (ji_assigned _ I i s Fs P) as (k' & q & Fq & Eq). exists k', q.
    rewrite FJ, decide_False; [done|]. intros ->. simplify_eq.
  - intros i s. rewrite FS. case_decide; [by intros [= <-]|apply (ji_ready _ I)].
  - intros k' r. rewrite FO. intros Fr P. destruct (ji_pending _ I k' r Fr P) as (q & Fq & O).
    exists q. rewrite FJ, decide_False; [done|]. intros ->. by rewrite (NP r Fr) in P.
  - intros k' r. rewrite FO. apply (ji_row _ I).
Qed.

Lemma restored_phase_not_assigned s : restored_phase s <> Assigned.
Proof. unfold restored_phase. by repeat case_match. Qed.

Lemma restored_phase_ready s :
  restored_phase s = Ready -> proven (slot_set_phase (restored_phase s) s).
Proof.
  unfold restored_phase. destruct (is_ok (ready_proof s)) eqn:O; cbn.
  - destruct (s_registered s) eqn:R; [|done]. intros _. unfold ready_proof in O.
    destruct (try_new _ _ _ _) as [x|] eqn:T; [|done]. apply try_new_ok in T as [(? & ? & ? & ?) _].
    by split_and!.
  - by case_match.
Qed.

Lemma restore_inv st k :
  JInv st -> (forall r, find_outbox k st = Some r -> is_pending r = false) ->
  JInv (restore_slot_after_job_removal st k).1.
Proof.
  intros I NP. unfold restore_slot_after_job_removal. destruct (find_job k st) as [j|] eqn:F; [|done].
  set (st1 := set_jobs _ st). destruct (ji_home _ I k j F) as (s & Fs & G & P).
  assert (Fs1 : find_slot (j_slot_id j) st1 = Some s) by done. rewrite Fs1.
  rewrite (proj2 (Z.eqb_eq _ _) G). cbn [negb]. case_bool_decide as Ph; cbn [fst].
  - apply (job_gone_inv st st1 k j s); try done; try congruence.
    intros i. case_decide; [by subst|done].
  - assert (Inv2 : JInv (update_slot (j_slot_id j) (slot_set_phase (restored_phase s)) st1)).
    { eapply (job_gone_inv st _ k j (slot_set_phase (restored_phase s) s)); try done.
      - cbn. by rewrite keys_update_first.
      - intros i. rewrite find_slot_update by done. case_decide; [|done]. by rewrite Fs1.
      - apply restored_phase_not_assigned.
      - apply restored_phase_ready. }
    by case_match.
Qed.

(** ** Completion rows *)

Lemma update_outbox_inv st k f r :
  JInv st -> find_outbox k st = Some r -> (forall x, o_job_id (f x) = o_job_id x) -> row_ok (f r) ->
  (is_pending (f r) = true -> is_pending r = true /\ o_slot_id (f r) = o_slot_id r /\
     o_generation (f r) = o_generation r) ->
  JInv (update_outbox k f st).
Proof.
  intros I F K R P. split; try apply I.
  - cbn. rewrite keys_update_first by done. apply I.
  - intros k' r'. rewrite find_outbox_update by done. case_decide; [subst|by apply (ji_pending _ I)].
    rewrite F. intros [= <-] (Pr & E1 & E2)%P.
    destruct (ji_pending _ I k r F Pr) as (j & Fj & O1 & O2 & O3).
    exists j. split; [done|]. unfold owned_by. rewrite E1, E2. done.
  - intros k' r'. rewrite find_outbox_update by done. case_decide; [subst|by apply (ji_row _ I)].
    rewrite F. by intros [= <-].
Qed.

(** ** One arm at a time *)

Lemma no_active_job_mut st i i' : JInv st -> slot_has_active_job st i = false ->
  forall k j, find_job k (slot_mut i' st).1 = Some j -> j_slot_id j <> i.
Proof.
  intros I N k j. unfold find_job. rewrite (proj1 (slot_mut_rest i' st)). by apply (no_active_job st).
Qed.

Lemma slot_free st i g : slot_admission_blocked st i g = false -> slot_has_active_job st i = false.
Proof. unfold slot_admission_blocked. by intros [? _]%orb_false_iff. Qed.

(** A slot without a job may take any phase but assigned. *)
Lemma slot_fits_free st i s :
  (forall k j, find_job k st = Some j -> j_slot_id j <> i) -> s_phase s <> Assigned ->
  (s_phase s = Ready -> proven s) -> slot_fits st i s.
Proof. intros N A R. split_and!; [|done|done]. intros k j F E. by destruct (N k j F). Qed.

(** A slot keeps fitting when its generation and phase stay and its proofs do not shrink. *)
Lemma slot_fits_same st i s s' :
  slot_fits st i s -> s_generation s' = s_generation s -> s_phase s' = s_phase s ->
  (proven s -> proven s') -> slot_fits st i s'.
Proof. intros (H1 & H2 & H3) G P R. unfold slot_fits. rewrite G, P. naive_solver. Qed.

(** Enter a slot arm of [reduce]: the state [st1] with the slot present. *)
Ltac slot_arm_as I i I1 F1 Fit NoJob st1 slot :=
  destruct (slot_mut_inv i _ I) as [I1 F1];
  pose proof (slot_fits_current _ _ _ I1 F1) as Fit;
  match goal with |- context [slot_mut i ?st] =>
    pose proof (fun N => no_active_job_mut st i i I N) as NoJob;
    destruct (slot_mut i st) as [st1 slot] end;
  cbn [fst snd] in I1, F1, Fit, NoJob;
  repeat (case_match; cbn [state accept reject]; try exact I1);
  try (eapply update_slot_inv; [exact I1|exact F1|done|]).

Tactic Notation "slot_arm" constr(I) constr(i) "as" ident(I1) ident(F1) ident(Fit) ident(NoJob)
    ident(st1) ident(slot) :=
  slot_arm_as I i I1 F1 Fit NoJob st1 slot.

Lemma fenced_fits st i s : JInv st -> find_slot i st = Some s ->
  slot_fits st i (slot_set_phase Fenced s).
Proof.
  intros I F. destruct (slot_fits_current st i s I F) as (H1 & _ & _).
  split_and!; cbn; try done. intros k j Fj E. destruct (H1 k j Fj E). auto.
Qed.

Lemma permit_reserved_inv st i g : JInv st -> JInv (state (reduce_permit_reserved st i g)).
Proof.
  intros I. unfold reduce_permit_reserved. slot_arm I i as I1 F1 Fit NoJob st1 slot.
  match goal with H : _ || _ || _ || _ = false |- _ => rename H into E end.
  apply orb_false_iff in E as [[[_ B]%orb_false_iff _]%orb_false_iff _].
  apply slot_fits_free; [by apply NoJob, (slot_free _ _ g)| |]; unfold reserved_slot; cbn.
  - case_bool_decide as A; [done|]. destruct (s_generation slot <? g); [done|]. intros P.
    destruct Fit as (_ & As & _). destruct (As P) as (k & j & Fj & Ej).
    by apply (NoJob (slot_free _ _ _ B) k j Fj).
  - destruct (s_generation slot <? g) eqn:N; [by case_bool_decide|].
    case_bool_decide; [done|]. intros P. destruct Fit as (_ & _ & Rd).
    destruct (Rd P) as (_ & ? & ? & ?). by split_and!.
Qed.

Lemma executor_proven_inv st i g : JInv st -> JInv (state (reduce_executor_proven st i g)).
Proof.
  intros I. unfold reduce_executor_proven. slot_arm I i as I1 F1 Fit NoJob st1 slot.
  eapply slot_fits_same; [exact Fit|done..|]. intros (?&?&?&?). by split_and!.
Qed.

Lemma session_live_inv st i g : JInv st -> JInv (state (reduce_session_live st i g)).
Proof.
  intros I. unfold reduce_session_live. slot_arm I i as I1 F1 Fit NoJob st1 slot.
  eapply slot_fits_same; [exact Fit|done..|]. intros (?&?&?&?). by split_and!.
Qed.

Lemma registration_intended_inv st i g : JInv st -> JInv (state (reduce_registration_intended st i g)).
Proof. intros I. unfold reduce_registration_intended. slot_arm I i as I1 F1 Fit NoJob st1 slot. Qed.

Lemma registered_inv st i g : JInv st -> JInv (state (reduce_registered st i g)).
Proof.
  intros I. unfold reduce_registered. slot_arm I i as I1 F1 Fit NoJob st1 slot.
  match goal with H : _ || _ || _ = false |- _ => rename H into E end.
  apply orb_false_iff in E as [[_ B]%orb_false_iff _].
  apply slot_fits_free; [by apply NoJob, (slot_free _ _ g)|done|done].
Qed.

Lemma registration_lost_inv st i g : JInv st -> JInv (state (reduce_registration_lost st i g)).
Proof.
  intros I. unfold reduce_registration_lost. slot_arm I i as I1 F1 Fit NoJob st1 slot.
  destruct (slot_admission_blocked st i g) eqn:B.
  - destruct Fit as (Home & _ & _). split_and!; cbn; try done. intros k j Fj E.
    destruct (Home k j Fj E). auto.
  - apply slot_fits_free; [by apply NoJob, (slot_free _ _ g)|done|done].
Qed.

Lemma is_ok_ready_proof s : is_ok (ready_proof s) = true ->
  s_permit_held s = true /\ s_routing_valid s = true /\ s_session_live s = true /\ s_executor_proven s = true.
Proof.
  unfold ready_proof. destruct (try_new _ _ _ _) as [x|] eqn:T; [|done].
  by apply try_new_ok in T as [? _].
Qed.

Lemma ready_attempt_inv st i g : JInv st -> JInv (state (reduce_ready_attempt st i g)).
Proof.
  intros I. unfold reduce_ready_attempt. slot_arm I i as I1 F1 Fit NoJob st1 slot.
  match goal with H : _ || _ || _ = false |- _ => rename H into E end.
  match goal with H : _ && _ = true |- _ => rename H into P end.
  apply orb_false_iff in E as [[_ B]%orb_false_iff _].
  apply andb_true_iff in P as [(? & ? & ? & ?)%is_ok_ready_proof ?].
  apply slot_fits_free; [by apply NoJob, (slot_free _ _ g)|done|intros _; by split_and!].
Qed.

Lemma heartbeat_inv now st i g pid : JInv st -> JInv (state (reduce_heartbeat now st i g pid)).
Proof.
  intros I. unfold reduce_heartbeat. slot_arm I i as I1 F1 Fit NoJob st1 slot. by eapply slot_fits_same.
Qed.

Lemma slot_stale_inv st i g : JInv st -> JInv (state (reduce_slot_stale st i g)).
Proof. intros I. unfold reduce_slot_stale. slot_arm I i as I1 F1 Fit NoJob st1 slot. by apply fenced_fits. Qed.

Lemma pressure_fence_inv st i g : JInv st -> JInv (state (reduce_pressure_fence st i g)).
Proof. intros I. unfold reduce_pressure_fence. slot_arm I i as I1 F1 Fit NoJob st1 slot. by apply fenced_fits. Qed.

(** ** Jobs *)

(** The row an acquisition intent adds to a ready slot. *)
Lemma occupy_inv st i s j :
  JInv st -> find_slot i st = Some s -> s_phase s = Ready ->
  find_job (j_job_id j) st = None -> j_slot_id j = i -> j_generation j = s_generation s ->
  JInv (set_jobs (jobs st ++ [j]) (update_slot i (slot_set_phase Assigned) st)).
Proof.
  intros I F P Fresh Sl G. set (st' := set_jobs _ _).
  assert (FS : forall i', find_slot i' st' = if decide (i' = i) then Some (slot_set_phase Assigned s) else find_slot i' st).
  { intros i'. change (find_slot i' st') with (find_slot i' (update_slot i (slot_set_phase Assigned) st)).
    rewrite find_slot_update by done. by rewrite F. }
  assert (FJ : forall k, find_job k st' = if decide (k = j_job_id j) then Some j else find_job k st).
  { intros k. unfold st', find_job. cbn [jobs set_jobs]. rewrite find_key_app, find_key_cons.
    change (find_key j_job_id k (jobs st)) with (find_job k st).
    destruct (decide (k = j_job_id j)) as [->|N]; [by rewrite Fresh, decide_True|].
    rewrite decide_False by auto. by destruct (find_job k st). }
  assert (NoJob : forall k q, find_job k st = Some q -> j_slot_id q <> i).
  { intros k q Fq E. destruct (ji_home _ I k q Fq) as (s' & Fs & _ & Ph). rewrite E in Fs.
    simplify_eq. rewrite P in Ph. by destruct Ph. }
  split.
  - cbn. rewrite keys_update_first by done. apply I.
  - cbn. apply NoDup_keys_snoc; [apply I|]. by apply find_key_None.
  - apply I.
  - intros k1 k2 j1 j2. rewrite !FJ. repeat case_decide; intros; simplify_eq; try done.
    + exfalso. by eapply NoJob.
    + exfalso. by eapply NoJob.
    + by eapply (ji_one_job _ I).
  - intros k q. rewrite FJ. unfold at_home. case_decide.
    + intros [= <-]. rewrite FS, decide_True by done. eexists; split; [done|]. auto.
    + intros Fq. destruct (ji_home _ I k q Fq) as (s' & Fs & Hs). exists s'.
      rewrite FS, decide_False; [done|]. by eapply NoJob.
  - intros i' s'. rewrite FS. case_decide; intros; simplify_eq.
    + exists (j_job_id j), j. by rewrite FJ, decide_True.
    + destruct (ji_assigned _ I i' s') as (k & q & Fq & E); [done..|]. exists k, q.
      rewrite FJ, decide_False; [done|]. intros ->. congruence.
  - intros i' s'. rewrite FS. case_decide; [by intros [= <-]|apply (ji_ready _ I)].
  - intros k r Fr Pr. destruct (ji_pending _ I k r Fr Pr) as (q & Fq & O). exists q.
    rewrite FJ, decide_False; [done|]. intros ->. congruence.
  - apply (ji_row _ I).
Qed.

Lemma acquisition_intended_inv st i k g url t :
  JInv st -> JInv (state (reduce_acquisition_intended st i k g url t)).
Proof.
  intros I. unfold reduce_acquisition_intended.
  destruct (slot_mut_inv i _ I) as [I1 F1]. destruct (slot_mut i st) as [st1 s]. cbn [fst snd] in *.
  destruct (_ || _ || _ || _) eqn:E; cbn [state reject accept]; [exact I1|].
  apply orb_false_iff in E as [[[G%negb_false_iff P%bool_decide_eq_false]%orb_false_iff _]%orb_false_iff N].
  apply dec_stable in P. apply Z.eqb_eq in G.
  apply (occupy_inv st1 i s); [done..| |done|by subst].
  destruct (find_job k st1) as [j|] eqn:Fj; [|done]. apply find_key_elem in Fj as [Ej Kj].
  rewrite existsb_false in N. specialize (N j Ej).
  apply (key_is_true j_job_id) in Kj. unfold job_is in N. congruence.
Qed.

(** A provisional row and a search for it. *)
Lemma find_provisional st k g : JInv st ->
  match List.find (provisional_row k g) (jobs st) with
  | Some j => find_job k st = Some j /\ j_generation j = g /\ j_provisional j = true /\
      forall f, update_first (provisional_row k g) f (jobs st) = update_first (job_is k) f (jobs st)
  | None => True
  end.
Proof.
  intros I. pose proof (find_refined j_job_id (provisional_row k g) k (jobs st) (ji_jobs _ I)) as R.
  assert (H : forall x, provisional_row k g x = true -> j_job_id x = k /\ j_generation x = g /\ j_provisional x = true).
  { intros x [[?%key_is_true ?%Z.eqb_eq]%andb_true_iff ?]%andb_true_iff. done. }
  destruct (List.find _ _) as [j|]; [|done]. destruct R as (F & P & U); [intros; by apply H|].
  destruct (H j P) as (_ & ? & ?). done.
Qed.

(** A provisional row takes the identity the acquire reply carried. *)
Lemma retarget_inv st p a f j :
  JInv st -> find_job p st = Some j -> j_provisional j = true -> target_taken st p a = false ->
  (forall x, j_job_id (f x) = a) ->
  j_slot_id (f j) = j_slot_id j -> j_generation (f j) = j_generation j ->
  JInv (set_jobs (update_first (job_is p) f (jobs st)) st).
Proof.
  intros I F Pr T Id Sl G. set (st' := set_jobs _ st).
  assert (Pk : p ∈ keys j_job_id (jobs st)).
  { apply find_key_elem in F as [E <-]. apply list_elem_of_fmap. eauto. }
  assert (Fresh : a = p \/ a ∉ keys j_job_id (jobs st)).
  { destruct (decide (a = p)) as [|N]; [by left|right]. unfold target_taken in T.
    rewrite bool_decide_eq_true_2 in T by done. cbn in T. rewrite existsb_false in T.
    intros (x & Ex & Hx)%list_elem_of_fmap. specialize (T x Hx).
    assert (K : j_job_id x = a) by done. by apply (key_is_true j_job_id) in K; unfold job_is in T; congruence. }
  assert (FJ : forall k, find_job k st' = if decide (k = a) then Some (f j)
                 else if decide (k = p) then None else find_job k st).
  { intros k. unfold st', find_job. cbn [jobs set_jobs]. unfold job_is.
    rewrite (find_key_rename j_job_id p a) by (done || apply I).
    change (find_key j_job_id p (jobs st)) with (find_job p st). by rewrite F. }
  assert (Q : forall k q, find_job k st' = Some q -> exists k0 q0, find_job k0 st = Some q0 /\
     j_slot_id q = j_slot_id q0 /\ j_generation q = j_generation q0 /\
     (k = a /\ k0 = p \/ k = k0 /\ k <> p)).
  { intros k q. rewrite FJ. repeat case_decide; intros; simplify_eq; [|exists k, q; split_and!; [done..|by right]].
    exists p, j. split_and!; [done..|by left]. }
  split; try apply I.
  - apply (NoDup_keys_rename j_job_id p a); [apply I|done..].
  - intros k1 k2 j1 j2 (k3 & j3 & F3 & S3 & _ & D3)%Q (k4 & j4 & F4 & S4 & _ & D4)%Q E.
    assert (k3 = k4) by (apply (ji_one_job _ I k3 k4 j3 j4); congruence). subst.
    destruct D3 as [[-> ?]|[-> ?]], D4 as [[-> ?]|[-> ?]]; congruence.
  - intros k q (k0 & q0 & F0 & S0 & G0 & _)%Q. destruct (ji_home _ I k0 q0 F0) as (s & Fs & Hs).
    exists s. rewrite S0, G0. done.
  - intros i s Fs P. destruct (ji_assigned _ I i s Fs P) as (k & q & Fq & E).
    destruct (decide (k = p)) as [->|N].
    + exists a, (f j). rewrite FJ, decide_True by done. split; [done|]. congruence.
    + exists k, q. rewrite FJ. rewrite decide_False, decide_False; [done..|]. intros ->.
      destruct Fresh as [->|Fr]; [done|]. by apply find_key_None in Fr; unfold find_job in Fq; congruence.
  - intros k r Fr P. destruct (ji_pending _ I k r Fr P) as (q & Fq & O). exists q.
    assert (k <> p) by (intros ->; destruct O as (_ & _ & O); congruence).
    rewrite FJ, decide_False, decide_False; [done..|]. intros ->.
    destruct Fresh as [->|Fr']; [done|]. by apply find_key_None in Fr'; unfold find_job in Fq; congruence.
Qed.

Lemma acquisition_resolved_inv st p a plan g :
  JInv st -> JInv (state (reduce_acquisition_resolved st p a plan g)).
Proof.
  intros I. unfold reduce_acquisition_resolved. pose proof (find_provisional st p g I) as R.
  destruct (List.find _ _) as [j|]; [|exact I]. destruct R as (F & G & Pr & U).
  destruct (target_taken st p a) eqn:T; cbn [negb state accept reject]; [exact I|].
  rewrite U. by apply (retarget_inv st p a _ j).
Qed.

Lemma acquisition_resolved_at_endpoint_inv st p a plan g url :
  JInv st -> JInv (state (reduce_acquisition_resolved_at_endpoint st p a plan g url)).
Proof.
  intros I. unfold reduce_acquisition_resolved_at_endpoint. pose proof (find_provisional st p g I) as R.
  destruct (List.find _ _) as [j|]; [|exact I]. destruct R as (F & G & Pr & U).
  destruct (target_taken st p a) eqn:T; cbn [negb andb state accept reject]; [exact I|].
  case_match; cbn [state accept reject]; [|exact I]. rewrite U. by apply (retarget_inv st p a _ j).
Qed.

Lemma probe_failed_inv st k g : JInv st -> JInv (state (reduce_probe_failed st k g)).
Proof.
  intros I. unfold reduce_probe_failed. pose proof (find_provisional st k g I) as R.
  destruct (List.find _ _) as [j|]; [|exact I]. destruct R as (F & G & Pr & U).
  cbn [state accept]. rewrite U. by apply (update_job_inv st k).
Qed.

Lemma provisional_not_pending st k j r :
  JInv st -> find_job k st = Some j -> j_provisional j = true -> find_outbox k st = Some r ->
  is_pending r = false.
Proof.
  intros I F P Fr. destruct (is_pending r) eqn:E; [|done].
  destruct (ji_pending _ I k r Fr E) as (q & Fq & _ & _ & O). congruence.
Qed.

Lemma acquisition_lost_inv st k g : JInv st -> JInv (state (reduce_acquisition_lost st k g)).
Proof.
  intros I. unfold reduce_acquisition_lost. destruct (existsb _ _) eqn:E; [|exact I].
  apply existsb_elem in E as (j & Ej & [[K%key_is_true _]%andb_true_iff P]%andb_true_iff).
  pose proof (restore_inv st k I) as R. destruct (restore_slot_after_job_removal st k) as [st1 cmds].
  apply R. intros r. apply (provisional_not_pending st k j); [done| |done]. subst k. by apply job_elem.
Qed.

Lemma find_job_owned st k j k' :
  j_job_id j = k ->
  find_job k' (set_jobs (List.filter (fun x => negb (job_is k x)) (jobs st) ++ [j]) st)
  = if decide (k' = k) then Some j else find_job k' st.
Proof.
  intros K. unfold find_job. cbn [jobs set_jobs]. unfold job_is.
  rewrite find_key_app, find_key_remove, find_key_cons, K.
  destruct (decide (k' = k)) as [->|N]; [by rewrite decide_True|].
  destruct (find_key j_job_id k' (jobs st)); [done|]. by rewrite decide_False by auto.
Qed.

(** An owned job was intended on the same slot and generation. *)
Lemma owned_was_intended st k i g worker :
  JInv st -> slot_generation_of i st = Some g ->
  (bool_decide (match find_slot i st with Some s => Some (s_phase s) | None => None end = Some Assigned)
   || (bool_decide (match find_slot i st with Some s => Some (s_phase s) | None => None end = Some Fenced)
       && terminal_handoff_row st k i g worker)) = true ->
  existsb (fun j => bool_decide (j_slot_id j = i) && negb (job_is k j) && occupies_slot (j_phase j))
    (jobs st) = false ->
  exists j, find_job k st = Some j /\ j_slot_id j = i /\ j_generation j = g.
Proof.
  intros I G P O. unfold slot_generation_of in G. destruct (find_slot i st) as [s|] eqn:F; [|done].
  injection G as G. apply orb_true_iff in P as [P|[_ P]%andb_true_iff].
  - apply bool_decide_eq_true in P. injection P as P.
    destruct (ji_assigned _ I i s F P) as (k' & j & Fj & E). rewrite existsb_false in O.
    assert (Ej : j ∈ jobs st) by (by apply (find_key_elem j_job_id k')).
    specialize (O j Ej). rewrite (bool_decide_eq_true_2 _ E) in O. cbn in O.
    destruct (job_is k j) eqn:K; [|by destruct (j_phase j)]. apply key_is_true in K.
    exists j. rewrite <- K, <- job_elem by done. split_and!; [done..|].
    destruct (ji_home _ I k' j Fj) as (s' & Fs & Gs & _). rewrite E in Fs. simplify_eq. done.
  - unfold terminal_handoff_row in P. apply andb_true_iff in P as [_ P].
    apply existsb_elem in P as (j & Ej & H). apply andb_true_iff in H as [H _].
    apply andb_true_iff in H as [H _]. apply andb_true_iff in H as [H Hg%Z.eqb_eq].
    apply andb_true_iff in H as [K%key_is_true Hs%bool_decide_eq_true].
    exists j. split; [|done]. rewrite <- K. by apply job_elem.
Qed.

Lemma job_owned_inv st k i n g w t : JInv st -> JInv (state (reduce_job_owned st k i n g w t)).
Proof.
  intros I. unfold reduce_job_owned. destruct (_ || _ || _ || _) eqn:E; [exact I|].
  apply orb_false_iff in E as [[[_ G%bool_decide_eq_false]%orb_false_iff P%negb_false_iff]%orb_false_iff O].
  apply dec_stable in G. destruct (owned_was_intended st k i g w I G P O) as (j & F & Sl & Ge).
  rewrite F. cbn [state accept].
  eapply (replace_job_inv st _ k j); [exact I|exact F|done|done| | | | |]; cbn.
  - apply NoDup_keys_snoc; [apply NoDup_keys_filter, I|]. apply find_key_None. cbn.
    unfold job_is. rewrite find_key_remove. by rewrite decide_True.
  - intros k'. by apply find_job_owned.
  - done.
  - done.
  - done.
Qed.

Lemma job_started_inv st k g : JInv st -> JInv (state (reduce_job_started st k g)).
Proof.
  intros I. unfold reduce_job_started. repeat (case_match; cbn [state accept reject]; try exact I).
  by apply update_job_inv.
Qed.

Lemma terminal_result_inv st k g c : JInv st -> JInv (state (reduce_terminal_result st k g c)).
Proof.
  intros I. unfold reduce_terminal_result. destruct (find_job k st); [|exact I].
  destruct (_ && _ && _ && _); cbn [state accept reject]; [|exact I]. by apply update_job_inv.
Qed.

(** ** Completions *)

Lemma find_outbox_snoc st k r k' :
  o_job_id r = k -> find_outbox k st = None ->
  find_outbox k' (set_outbox (outbox st ++ [r]) st) = if decide (k' = k) then Some r else find_outbox k' st.
Proof.
  intros K N. unfold find_outbox in *. cbn [outbox set_outbox]. rewrite find_key_app, find_key_cons, K.
  destruct (decide (k' = k)) as [->|D]; [by rewrite N, decide_True|].
  destruct (find_key o_job_id k' (outbox st)); [done|]. by rewrite decide_False by auto.
Qed.

Lemma push_outbox_inv st k r j :
  JInv st -> o_job_id r = k -> find_outbox k st = None -> row_ok r ->
  find_job k st = Some j -> owned_by r j -> JInv (set_outbox (outbox st ++ [r]) st).
Proof.
  intros I K N R F O. split; try apply I.
  - apply NoDup_keys_snoc; [apply I|]. apply find_key_None. by rewrite K.
  - intros k' r'. rewrite (find_outbox_snoc st k) by done.
    case_decide; [|by apply (ji_pending _ I)]. subst. intros [= <-] _. by exists j.
  - intros k' r'. rewrite (find_outbox_snoc st k) by done.
    case_decide; [by intros [= <-]|by apply (ji_row _ I)].
Qed.

Lemma completion_intended_inv now st k g sha :
  JInv st -> JInv (state (reduce_completion_intended now st k g sha)).
Proof.
  intros I. unfold reduce_completion_intended. destruct (find_job k st) as [j|] eqn:F; [|exact I].
  destruct (_ || _ || _) eqn:E; [exact I|].
  apply orb_false_iff in E as [[Pr G%negb_false_iff]%orb_false_iff _]. apply Z.eqb_eq in G.
  destruct (find_outbox k st) as [r|] eqn:Fo.
  - repeat (case_match; cbn [state accept reject]; try exact I). by apply update_job_inv.
  - cbn [state accept]. set (st1 := update_job _ _ _).
    assert (I1 : JInv st1) by (by apply update_job_inv).
    eapply (push_outbox_inv st1 k _ (job_set_phase JobCompleting j)); [done..| | |done]; [done|].
    unfold st1. rewrite find_job_update by done. by rewrite decide_True, F.
Qed.

Lemma send_started_inv st k g : JInv st -> JInv (state (reduce_send_started st k g)).
Proof.
  intros I. unfold reduce_send_started. destruct (find_outbox k st) as [r|] eqn:F; [|exact I].
  destruct (_ && _ && _ && _) eqn:E; cbn [state accept reject]; [|exact I].
  destruct (ji_row _ I k r F) as (R1 & R2 & R3). by eapply update_outbox_inv.
Qed.

Lemma attempt_failed_inv st k g p : JInv st -> JInv (state (reduce_attempt_failed st k g p)).
Proof.
  intros I. unfold reduce_attempt_failed. destruct (find_outbox k st) as [r|] eqn:F; [|exact I].
  destruct (_ && _ && _ && _) eqn:E; cbn [state accept reject]; [|exact I].
  destruct (ji_row _ I k r F) as (R1 & R2 & R3). by eapply update_outbox_inv.
Qed.

(** A row leaves the pending set and its job goes. *)
Lemma settle_inv st k f r :
  JInv st -> find_outbox k st = Some r -> (forall x, o_job_id (f x) = o_job_id x) ->
  row_ok (f r) -> is_pending (f r) = false ->
  JInv (restore_slot_after_job_removal (update_outbox k f st) k).1.
Proof.
  intros I F K R P. apply restore_inv.
  - eapply update_outbox_inv; [done..|]. by rewrite P.
  - intros r'. rewrite find_outbox_update, decide_True, F by done. by intros [= <-].
Qed.

Lemma remote_acked_inv st k g : JInv st -> JInv (state (reduce_remote_acked st k g)).
Proof.
  intros I. unfold reduce_remote_acked. destruct (find_outbox k st) as [r|] eqn:F; [|exact I].
  destruct (_ && _ && _ && _ && _) eqn:E; [|exact I].
  apply andb_true_iff in E as [[[[_ P]%andb_true_iff S]%andb_true_iff _]%andb_true_iff _].
  destruct (ji_row _ I k r F) as (R1 & R2 & R3). unfold is_pending in P.
  apply andb_true_iff in P as [[_ _]%andb_true_iff Ab%negb_true_iff].
  assert (H : JInv (restore_slot_after_job_removal (update_outbox k (outbox_set_remote_acked true) st) k).1).
  { eapply settle_inv; [done..| |]; [by split_and!|]. unfold is_pending. cbn. by rewrite andb_false_r. }
  by destruct (restore_slot_after_job_removal _ k) as [st2 cmds].
Qed.

Lemma abandon_inv st k g r :
  JInv st -> find_outbox k st = Some r -> is_pending r = true -> JInv (state (abandon st k g)).
Proof.
  intros I F P. destruct (ji_row _ I k r F) as (R1 & R2 & R3). unfold is_pending in P.
  apply andb_true_iff in P as [[_ Ra%negb_true_iff]%andb_true_iff _]. unfold abandon.
  assert (H : JInv (restore_slot_after_job_removal (update_outbox k (outbox_set_abandoned true) st) k).1).
  { eapply settle_inv; [done..| |].
    - split_and!; [done..|]. cbn. by rewrite Ra.
    - unfold is_pending. cbn. by rewrite andb_false_r. }
  by destruct (restore_slot_after_job_removal _ k) as [st2 cmds].
Qed.

Lemma unresolvable_inv now st k g : JInv st -> JInv (state (reduce_unresolvable now st k g)).
Proof.
  intros I. unfold reduce_unresolvable. destruct (find_outbox k st) as [r|] eqn:F; [|exact I].
  destruct (_ && _ && _ && _) eqn:E; [|exact I].
  apply andb_true_iff in E as [[[_ P]%andb_true_iff _]%andb_true_iff _]. by eapply abandon_inv.
Qed.

Lemma payload_lost_inv st k g sha : JInv st -> JInv (state (reduce_payload_lost st k g sha)).
Proof.
  intros I. unfold reduce_payload_lost. destruct (find_outbox k st) as [r|] eqn:F; [|exact I].
  destruct (_ && _ && _ && _ && _) eqn:E; [|exact I].
  apply andb_true_iff in E as [[[_ P]%andb_true_iff _]%andb_true_iff _]. by eapply abandon_inv.
Qed.

Lemma worker_lost_inv st k g : JInv st -> JInv (state (reduce_worker_lost st k g)).
Proof.
  intros I. unfold reduce_worker_lost. destruct (find_job k st) as [j|] eqn:F; [|exact I].
  destruct (_ && _) eqn:E; [|exact I]. apply andb_true_iff in E as [G%Z.eqb_eq _].
  destruct (existsb _ _) eqn:P; [exact I|]. cbn [negb].
  pose proof (restore_inv st k I) as R. destruct (restore_slot_after_job_removal st k) as [st1 cmds].
  apply R. intros r Fr. destruct (is_pending r) eqn:Pr; [|done].
  destruct (ji_pending _ I k r Fr Pr) as (q & Fq & _ & O & _). simplify_eq.
  rewrite existsb_false in P. apply find_key_elem in Fr as [Er Kr]. specialize (P r Er).
  apply (key_is_true o_job_id) in Kr. unfold outbox_is in P. rewrite Kr, O, Z.eqb_refl, Pr in P. done.
Qed.

Lemma routing_inv st v g : JInv st -> JInv (state (reduce_routing st v g)).
Proof.
  intros I. unfold reduce_routing. cbn [state accept].
  set (f := slot_set_routing_valid (v && g)). set (st' := set_slots _ _).
  assert (FS : forall i, find_slot i st' = f <$> find_slot i st).
  { intros i. unfold find_slot, st'. cbn [slots set_slots set_routing].
    induction (slots st) as [|s l IH]; [done|]. cbn [map]. rewrite !find_key_cons.
    change (s_slot_id (f s)) with (s_slot_id s). by case_decide. }
  assert (Sk : keys s_slot_id (slots st') = keys s_slot_id (slots st)).
  { unfold st', keys. cbn [slots set_slots set_routing]. rewrite map_map. done. }
  split; try apply I.
  - rewrite Sk. apply I.
  - intros k j F. destruct (ji_home _ I k j F) as (s & Fs & H). exists (f s).
    rewrite FS, Fs. split; [done|exact H].
  - intros i s. rewrite FS. intros (s0 & F0 & ->)%fmap_Some. apply (ji_assigned _ I i s0 F0).
  - intros i s. rewrite FS. intros (s0 & F0 & ->)%fmap_Some. apply (ji_ready _ I i s0 F0).
Qed.

(** Fields outside the three tables do not matter. *)
Lemma JInv_tables st st' :
  slots st' = slots st -> jobs st' = jobs st -> outbox st' = outbox st -> JInv st -> JInv st'.
Proof.
  intros Es Ej Eo I. split; unfold at_home, find_slot, find_job, find_outbox in *;
    rewrite ?Es, ?Ej, ?Eo; apply I.
Qed.

Create HintDb journal.
#[export] Hint Resolve permit_reserved_inv executor_proven_inv session_live_inv
  registration_intended_inv registered_inv registration_lost_inv ready_attempt_inv heartbeat_inv
  slot_stale_inv pressure_fence_inv acquisition_intended_inv acquisition_resolved_inv
  acquisition_resolved_at_endpoint_inv probe_failed_inv acquisition_lost_inv job_owned_inv
  job_started_inv terminal_result_inv completion_intended_inv send_started_inv remote_acked_inv
  attempt_failed_inv unresolvable_inv payload_lost_inv worker_lost_inv routing_inv : journal.

Lemma reduce_inv now st ev : JInv st -> JInv (state (reduce now st ev)).
Proof.
  intros I. destruct ev; cbn [reduce]; auto with journal nocore;
    try (by apply (JInv_tables st)).
  - unfold reduce_cleanup_intended. by case_bool_decide.
  - unfold reduce_package_retire. case_match; [exact I|]. by apply (JInv_tables st).
Qed.
