(* ===== verification/JournalSafety.v ===== *)
(** * Journal: what every event sequence guarantees

    The journal as a state machine: a step applies an accepted event, or
    writes the lifecycle latches (drain, cordon), or reloads the state a
    writer persisted, which drops the completion rows that are settled.
    Safety and progress are proved for every reachable fleet state. *)

From S2P Require Import Prelude NodeModel JournalData JournalReduce JournalInv.
From Stdlib Require Import String.
From stdpp Require Import base list strings.
#[local] Open Scope Z_scope.
#[local] Arguments keys : simpl never.

(** ** The state machine *)

(** [persist_state] keeps the rows that are neither acknowledged nor abandoned. *)
Definition drop_settled (st : FleetState) : FleetState :=
  set_outbox (List.filter (fun r => negb (o_remote_acked r || o_abandoned r)) (outbox st)) st.

Inductive jstep : FleetState -> FleetState -> Prop :=
| step_apply st now ev :
    rejected (reduce now st ev) = false -> jstep st (state (reduce now st ev))
| step_latches st da dv ab av : jstep st (set_latches da dv ab av st)
| step_reload st : jstep st (drop_settled st).

Inductive reachable : FleetState -> Prop :=
| reach_init : reachable FleetState_default
| reach_step st st' : reachable st -> jstep st st' -> reachable st'.

Lemma find_outbox_drop st k r :
  JInv st -> find_outbox k (drop_settled st) = Some r -> find_outbox k st = Some r.
Proof.
  intros I F. apply find_key_elem in F as [E <-]. cbn in E.
  apply find_key_unique; [apply I|]. apply list_elem_of_In, List.filter_In in E as [E _].
  by apply list_elem_of_In.
Qed.

Lemma drop_settled_inv st : JInv st -> JInv (drop_settled st).
Proof.
  intros I. split; try apply I.
  - apply NoDup_keys_filter, I.
  - intros k r F. by apply (ji_pending _ I), find_outbox_drop.
  - intros k r F. by eapply (ji_row _ I), find_outbox_drop.
Qed.

Lemma reachable_inv st : reachable st -> JInv st.
Proof.
  induction 1 as [|st st' _ I S]; [apply JInv_default|]. destruct S.
  - by apply reduce_inv.
  - by apply (JInv_tables st).
  - by apply drop_settled_inv.
Qed.

(** Run a list of timed events, keeping the state on a rejection, as the
    writer does. *)
Definition apply_one (st : FleetState) (ne : Z * Event) : FleetState :=
  let o := reduce ne.1 st ne.2 in if rejected o then st else state o.
Definition run (evs : list (Z * Event)) (st : FleetState) : FleetState := fold_left apply_one evs st.

Lemma run_reachable evs st : reachable st -> reachable (run evs st).
Proof.
  revert st. induction evs as [|[now ev] evs IH]; intros st R; [done|]. cbn. apply IH.
  unfold apply_one. cbn. destruct (rejected _) eqn:E; [done|]. eapply reach_step; [done|]. by constructor.
Qed.

(** ** Consistency *)

(** C9: In every reachable fleet state the slots, jobs and completion rows
    are consistent: identities are unique; a job occupies one slot, which has
    the job's generation and is assigned or fenced; two jobs never share a
    slot; an assigned slot has its job; and a completion row was intended,
    was claimed for sending before it could be acknowledged, and is never
    both acknowledged and abandoned. *)
Theorem reachable_fleet_is_consistent st :
  reachable st ->
  NoDup (keys s_slot_id (slots st)) /\ NoDup (keys j_job_id (jobs st)) /\
  NoDup (keys o_job_id (outbox st)) /\
  (forall k j, find_job k st = Some j -> at_home st j) /\
  (forall k1 k2 j1 j2, find_job k1 st = Some j1 -> find_job k2 st = Some j2 ->
     j_slot_id j1 = j_slot_id j2 -> k1 = k2) /\
  (forall i s, find_slot i st = Some s -> s_phase s = Assigned ->
     exists k j, find_job k st = Some j /\ j_slot_id j = i) /\
  (forall k r, find_outbox k st = Some r -> row_ok r).
Proof. intros []%reachable_inv. split_and!; eauto. Qed.

(** One slot brought to ready, one job acquired, owned and completed. *)
Definition to_ready : list (Z * Event) :=
  [ (100, Ev.ControlLive); (100, Ev.Routing true true); (100, Ev.DesiredCapacity 1);
    (100, Ev.PermitReserved "s1" 1); (100, Ev.ExecutorProven "s1" 1); (100, Ev.SessionLive "s1" 1);
    (100, Ev.RegistrationIntended "s1" 1); (100, Ev.Registered "s1" 1); (100, Ev.ReadyAttempt "s1" 1) ].
Definition to_owned : list (Z * Event) :=
  to_ready ++
  [ (101, Ev.JobAcquisitionIntended "s1" "msg" 1 "msg" "https://run" 101);
    (102, Ev.JobAcquisitionResolvedAtEndpoint "msg" "job" "plan" 1 "https://run/2");
    (103, Ev.JobOwned "job" "s1" 1 1 "w" 103); (104, Ev.JobStarted "job" 1) ].
Definition to_pending : list (Z * Event) :=
  to_owned ++
  [ (105, Ev.JobTerminalResult "job" 1 "succeeded"); (106, Ev.CompletionIntended "job" 1 "sha");
    (107, Ev.CompletionSendStarted "job" 1) ].
Definition ready_fleet : FleetState := run to_ready FleetState_default.
Definition owned_fleet : FleetState := run to_owned FleetState_default.
Definition pending_fleet : FleetState := run to_pending FleetState_default.

Lemma reachable_fleet_is_consistent_witness :
  length (jobs pending_fleet) = 1%nat /\ length (outbox pending_fleet) = 1%nat /\
  NoDup (keys j_job_id (jobs pending_fleet)) /\
  (forall k j, find_job k pending_fleet = Some j -> at_home pending_fleet j).
Proof.
  split; [by vm_compute|]. split; [by vm_compute|].
  pose proof (reachable_fleet_is_consistent pending_fleet (run_reachable _ _ reach_init)) as H.
  split; apply H.
Defined.

(** ** Ready slots *)

(** C26: A ready slot really is ready for a job, in every reachable state: it
    holds a permit, a live session, a proven executor and a registration, no
    job is on it, and no completion of its generation is still owed. *)
Theorem ready_slot_is_proven_and_free st i s :
  reachable st -> find_slot i st = Some s -> s_phase s = Ready ->
  proven s /\ slot_has_active_job st i = false /\
  forall k r, find_outbox k st = Some r -> is_pending r = true -> o_slot_id r <> i.
Proof.
  intros I%reachable_inv F P.
  assert (NJ : forall k j, find_job k st = Some j -> j_slot_id j <> i).
  { intros k j Fj E. destruct (ji_home _ I k j Fj) as (s' & Fs & _ & Ph). rewrite E in Fs.
    simplify_eq. rewrite P in Ph. by destruct Ph. }
  split_and!; [by eapply (ji_ready _ I)| |].
  - apply existsb_false. intros j Ej. apply job_elem in Ej; [|done].
    by rewrite (bool_decide_eq_false_2 _ (NJ _ _ Ej)).
  - intros k r Fr Pr. destruct (ji_pending _ I k r Fr Pr) as (j & Fj & <- & _). by eapply NJ.
Qed.

Lemma ready_slot_is_proven_and_free_witness :
  exists s, find_slot "s1" ready_fleet = Some s /\ proven s /\
    slot_has_active_job ready_fleet "s1" = false.
Proof.
  eexists. split; [by vm_compute|].
  edestruct (ready_slot_is_proven_and_free ready_fleet "s1") as (P & N & _);
    [exact (run_reachable _ _ reach_init)|by vm_compute|reflexivity|]. by split.
Defined.

(** ** Pending completions *)

Lemma pending_owner_proven st k r :
  JInv st -> find_outbox k st = Some r -> is_pending r = true -> outbox_owner_is_proven st r = true.
Proof.
  intros I F P. destruct (ji_pending _ I _ r F P) as (j & Fj & O1 & O2 & O3).
  destruct (ji_home _ I _ j Fj) as (s & Fs & G & _).
  pose proof (find_key_elem j_job_id _ _ _ Fj) as [Ej Kj].
  pose proof (find_key_elem s_slot_id _ _ _ Fs) as [Es Ks].
  pose proof (find_key_elem o_job_id _ _ _ F) as [_ Kr].
  unfold outbox_owner_is_proven. rewrite andb_true_iff, !existsb_elem. split.
  - exists s. split; [done|]. rewrite bool_decide_eq_true_2 by congruence. apply Z.eqb_eq. congruence.
  - exists j. split; [done|]. rewrite !bool_decide_eq_true_2, O3 by congruence.
    rewrite O2, Z.eqb_refl. done.
Qed.

(** A completion that is still owed to the remote service always has a
    proven owner, in every reachable state. So the rule that an unprovable
    owner blocks every slot never fires, and admission to a slot generation
    is blocked exactly by its own pending completion. *)
Theorem pending_completion_has_proven_owner st :
  reachable st ->
  (forall r, r ∈ outbox st -> is_pending r = true -> outbox_owner_is_proven st r = true) /\
  forall i g, pending_outbox_blocks_admission st i g = true <->
    exists r, r ∈ outbox st /\ is_pending r = true /\ o_slot_id r = i /\ o_generation r = g.
Proof.
  intros I%reachable_inv.
  assert (O : forall r, r ∈ outbox st -> is_pending r = true -> outbox_owner_is_proven st r = true).
  { intros r E. eapply pending_owner_proven; [done|]. by apply (find_key_unique o_job_id), E; apply I. }
  split; [done|]. intros i g. unfold pending_outbox_blocks_admission. rewrite existsb_elem. split.
  - intros (r & E & H). destruct (is_pending r) eqn:P; [|done]. cbn in H.
    rewrite (O r E P) in H. case_match; [|done]. exists r.
    match goal with H : _ && _ = true |- _ => apply andb_true_iff in H as [?%bool_decide_eq_true ?%Z.eqb_eq] end.
    done.
  - intros (r & E & P & <- & <-). exists r. rewrite P, bool_decide_eq_true_2, Z.eqb_refl by done. done.
Qed.

Lemma pending_completion_has_proven_owner_witness :
  (forall i g, pending_outbox_blocks_admission pending_fleet i g = true <->
    exists r, r ∈ outbox pending_fleet /\ is_pending r = true /\ o_slot_id r = i /\ o_generation r = g)
  /\ pending_outbox_blocks_admission pending_fleet "s1" 1 = true
  /\ pending_outbox_blocks_admission pending_fleet "s2" 1 = false.
Proof.
  split; [|by vm_compute].
  apply (pending_completion_has_proven_owner pending_fleet (run_reachable _ _ reach_init)).
Defined.
