(* ===== verification/JournalEvolution.v ===== *)
(** * Journal: what one event may change

    How a slot, a completion row and the set of jobs may evolve under any
    event: generations only grow, a fence is only lifted by a newer
    generation, a send claim is never released, and while the fleet is
    drained or cordoned no capacity is created. *)

From S2P Require Import Prelude NodeModel JournalData JournalReduce JournalInv JournalSafety.
From Stdlib Require Import String.
From stdpp Require Import base list strings.
#[local] Open Scope Z_scope.
#[local] Arguments keys : simpl never.

(** ** Rejections *)

(** [slot_mut] may have added an absent slot before the event was refused. *)
Definition unchanged_but_absent (st st' : FleetState) : Prop :=
  st' = st \/ exists i, find_slot i st = None /\ st' = set_slots (slots st ++ [SlotRecord_new i]) st.

Lemma slot_mut_unchanged i st : unchanged_but_absent st (slot_mut i st).1.
Proof.
  unfold slot_mut. destruct (find_slot i st) eqn:F; [by left|]. right. by exists i.
Qed.

Definition refusal (st : FleetState) (o : ReduceOutcome) : Prop :=
  rejected o = true -> commands o = [] /\ unchanged_but_absent st (state o).

Lemma refuse_reject st : refusal st (reject st).
Proof. intros _. split; [done|by left]. Qed.
Lemma refuse_reject_mut i st : refusal st (reject (slot_mut i st).1).
Proof. intros _. split; [done|apply slot_mut_unchanged]. Qed.
Lemma refuse_accept st st' cmds : refusal st (accept st' cmds).
Proof. done. Qed.
#[local] Hint Resolve refuse_reject refuse_reject_mut refuse_accept : journal.

(** Open a slot arm and look at each of its outcomes. *)
Ltac open_slot i st :=
  let st1 := fresh "st1" in let slot := fresh "slot" in let M := fresh "M" in
  destruct (slot_mut i st) as [st1 slot] eqn:M;
  replace st1 with (slot_mut i st).1 in * by (by rewrite M);
  replace slot with (slot_mut i st).2 in * by (by rewrite M); clear M.

Ltac unfold_arms :=
  unfold reduce_routing, reduce_permit_reserved, reduce_executor_proven, reduce_session_live,
    reduce_registration_intended, reduce_registered, reduce_registration_lost, reduce_ready_attempt,
    reduce_acquisition_intended, reduce_acquisition_resolved, reduce_acquisition_resolved_at_endpoint,
    reduce_probe_failed, reduce_acquisition_lost, reduce_job_owned, reduce_job_started,
    reduce_terminal_result, reduce_completion_intended, reduce_send_started, reduce_remote_acked,
    reduce_attempt_failed, reduce_unresolvable, reduce_payload_lost, reduce_worker_lost, abandon,
    reduce_cleanup_intended, reduce_heartbeat, reduce_slot_stale, reduce_pressure_fence,
    reduce_package_retire.

(** Split an arm into its outcomes. *)
Ltac arm_cases :=
  cbn [reduce]; unfold_arms;
  repeat match goal with
  | |- context [slot_mut ?i ?st] =>
      lazymatch goal with |- context [let '(_, _) := slot_mut i st in _] => open_slot i st end
  | |- context [let '(_, _) := restore_slot_after_job_removal ?st ?k in _] =>
      rewrite (surjective_pairing (restore_slot_after_job_removal st k))
  end.

(** A rejected event hands no command to the I/O layer and changes
    nothing, except that a slot it names may now be listed as absent. *)
Theorem rejected_event_changes_nothing now st ev :
  rejected (reduce now st ev) = true ->
  commands (reduce now st ev) = [] /\ unchanged_but_absent st (state (reduce now st ev)).
Proof.
  change (refusal st (reduce now st ev)). destruct ev; arm_cases;
    repeat (auto with journal nocore; case_match); auto with journal nocore.
Qed.

Lemma rejected_event_changes_nothing_witness :
  rejected (reduce 110 ready_fleet (Ev.SlotHeartbeat "s9" 7 42)) = true /\
  unchanged_but_absent ready_fleet (state (reduce 110 ready_fleet (Ev.SlotHeartbeat "s9" 7 42))).
Proof.
  split; [by vm_compute|]. apply (rejected_event_changes_nothing 110 ready_fleet). by vm_compute.
Defined.

(** ** Slots *)

(** A new generation starts without the proofs of the old one. *)
Definition unproven (s : SlotRecord) : Prop :=
  s_session_live s = false /\ s_executor_proven s = false /\ s_registered s = false /\
  s_pid s = None /\ s_phase s = Provisioning.

Definition slot_step (s s' : SlotRecord) : Prop :=
  s_generation s <= s_generation s' /\
  (s_generation s < s_generation s' -> unproven s') /\
  (s_phase s = Fenced -> s_phase s' = Fenced \/ s_generation s < s_generation s').

Definition slots_evolve (st st' : FleetState) : Prop :=
  forall i s, find_slot i st = Some s -> exists s', find_slot i st' = Some s' /\ slot_step s s'.

Lemma slot_step_same s s' :
  s_generation s' = s_generation s -> (s_phase s = Fenced -> s_phase s' = Fenced) -> slot_step s s'.
Proof. intros G P. unfold slot_step. rewrite G. split_and!; [lia|lia|auto]. Qed.

Lemma evolve_same st st' : slots st' = slots st -> slots_evolve st st'.
Proof.
  intros E i s F. exists s. unfold find_slot in *. rewrite E. split; [done|]. by apply slot_step_same.
Qed.

Lemma find_slot_mut i st i' s :
  find_slot i' st = Some s -> find_slot i' (slot_mut i st).1 = Some s /\ (i' = i -> (slot_mut i st).2 = s).
Proof.
  intros F. unfold slot_mut. destruct (find_slot i st) as [s0|] eqn:E; cbn [fst snd].
  - split; [done|]. intros ->. congruence.
  - split; [by rewrite find_slot_snoc, F|]. intros ->. congruence.
Qed.

Lemma evolve_mut i st : slots_evolve st (slot_mut i st).1.
Proof.
  intros i' s F. exists s. split; [by apply find_slot_mut|]. by apply slot_step_same.
Qed.

Lemma evolve_update st st' i f :
  slots st' = slots (update_slot i f (slot_mut i st).1) ->
  (forall x, s_slot_id (f x) = s_slot_id x) ->
  slot_step (slot_mut i st).2 (f (slot_mut i st).2) -> slots_evolve st st'.
Proof.
  intros E K S i' s F. destruct (find_slot_mut i st i' s F) as [F1 E1].
  assert (F2 : find_slot i' st' = find_slot i' (update_slot i f (slot_mut i st).1))
    by (unfold find_slot; congruence).
  rewrite find_slot_update in F2 by done. destruct (decide (i' = i)) as [->|N].
  - rewrite F1 in F2. exists (f s). rewrite <- (E1 eq_refl). split; [by rewrite F2, (E1 eq_refl)|done].
  - exists s. split; [congruence|]. by apply slot_step_same.
Qed.

Lemma evolve_restore st k : slots_evolve st (restore_slot_after_job_removal st k).1.
Proof.
  unfold restore_slot_after_job_removal. destruct (find_job k st) as [j|]; [|by apply evolve_same].
  set (st1 := set_jobs _ st). destruct (find_slot (j_slot_id j) st1) as [s|] eqn:F; [|by apply evolve_same].
  destruct (negb _); [by apply evolve_same|]. case_bool_decide as P; [by apply evolve_same|].
  assert (H : slots_evolve st (update_slot (j_slot_id j) (slot_set_phase (restored_phase s)) st1)).
  { intros i s0 F0. rewrite find_slot_update by done. change (find_slot i st1) with (find_slot i st).
    case_decide; [subst|by exists s0; split; [|apply slot_step_same]].
    change (find_slot (j_slot_id j) st1) with (find_slot (j_slot_id j) st) in *.
    assert (s0 = s) as -> by congruence. rewrite F0. eexists. split; [done|]. by apply slot_step_same. }
  by case_match.
Qed.

Lemma evolve_restore_outbox st k k' f :
  slots_evolve st (restore_slot_after_job_removal (update_outbox k f st) k').1.
Proof. apply (evolve_restore (update_outbox k f st) k'). Qed.

Lemma reserved_slot_step routing g s :
  (g <? s_generation s) = false ->
  (g =? s_generation s) && bool_decide (s_phase s = Fenced) = false ->
  slot_step s (reserved_slot routing g s).
Proof.
  intros G P. apply Z.ltb_ge in G. unfold slot_step, reserved_slot, unproven. cbn.
  destruct (s_generation s <? g) eqn:N; [apply Z.ltb_lt in N|apply Z.ltb_ge in N].
  - split_and!; [lia| |auto]. intros _. by rewrite bool_decide_eq_false_2.
  - assert (E : g = s_generation s) by lia. rewrite E, Z.eqb_refl in P. cbn in P.
    apply bool_decide_eq_false in P. split_and!; [lia|lia|done].
Qed.

Lemma refuses_phase g s : slot_refuses g s = false -> s_phase s <> Fenced.
Proof. unfold slot_refuses. by intros [_ ?%bool_decide_eq_false]%orb_false_iff. Qed.

#[local] Hint Extern 1 (slots_evolve _ _) => (apply evolve_same; reflexivity) : journal.
#[local] Hint Resolve evolve_mut evolve_restore evolve_restore_outbox : journal.
#[local] Hint Extern 3 (slots_evolve _ _) =>
  (eapply evolve_update; [reflexivity|reflexivity|by apply slot_step_same]) : journal.

Lemma evolve_routing st v g : slots_evolve st (state (reduce_routing st v g)).
Proof.
  intros i s F. unfold reduce_routing. cbn [state accept].
  exists (slot_set_routing_valid (v && g) s). split; [|by apply slot_step_same].
  unfold find_slot in *. cbn [slots set_slots set_routing].
  induction (slots st) as [|x l IH]; [done|]. cbn [map]. rewrite find_key_cons in *.
  change (s_slot_id (slot_set_routing_valid (v && g) x)) with (s_slot_id x).
  case_decide; [by simplify_eq|auto].
Qed.

Lemma reduce_evolve now st ev : slots_evolve st (state (reduce now st ev)).
Proof.
  destruct ev; try (cbn [reduce]; apply evolve_routing); arm_cases;
    repeat (cbn [state accept reject]; auto with journal nocore; case_match);
    cbn [state accept reject]; auto with journal nocore.
  all: repeat match goal with
       | H : _ || _ = false |- _ => apply orb_false_iff in H as [? ?]
       | H : slot_refuses _ _ = false |- _ => apply refuses_phase in H
       end.
  all: eapply evolve_update; [reflexivity|reflexivity|].
  all: try (by apply reserved_slot_step).
  all: try (apply slot_step_same; [done|intros; try done]).
  match goal with H : bool_decide (_ <> Ready) = false |- _ =>
    apply bool_decide_eq_false, dec_stable in H; congruence end.
Qed.

(** No event turns a slot back. Its generation never decreases; when it
    increases, the new actor starts provisioning without the session,
    executor proof, registration and process of its predecessor; and a fenced
    slot stays fenced until a newer generation replaces it, whatever proofs,
    heartbeats, registrations or job results arrive for the fenced one. *)
Theorem slot_never_turns_back now st ev i s :
  find_slot i st = Some s ->
  exists s', find_slot i (state (reduce now st ev)) = Some s' /\
    s_generation s <= s_generation s' /\
    (s_generation s < s_generation s' -> unproven s') /\
    (s_phase s = Fenced -> s_phase s' = Fenced \/ s_generation s < s_generation s').
Proof. intros F. apply (reduce_evolve now st ev i s F). Qed.

Lemma slot_never_turns_back_witness :
  let st := state (reduce 110 ready_fleet (Ev.DiskPressureTerminalFence "s1" 1)) in
  exists s s', find_slot "s1" st = Some s /\ s_phase s = Fenced /\
    find_slot "s1" (state (reduce 111 st (Ev.ReadyAttempt "s1" 1))) = Some s' /\
    (s_phase s' = Fenced \/ s_generation s < s_generation s').
Proof.
  cbv zeta. eexists.
  edestruct (slot_never_turns_back 111 (state (reduce 110 ready_fleet (Ev.DiskPressureTerminalFence "s1" 1)))
    (Ev.ReadyAttempt "s1" 1) "s1") as (s' & F & _ & _ & H); [by vm_compute|].
  exists s'. split; [by vm_compute|]. split; [reflexivity|]. split; [exact F|]. apply H. reflexivity.
Defined.

(** ** Completion rows *)

(** The identity of a row is fixed, its claim and its budget only advance. *)
Definition row_step (r r' : OutboxRecord) : Prop :=
  o_job_id r' = o_job_id r /\ o_slot_id r' = o_slot_id r /\ o_generation r' = o_generation r /\
  o_payload_sha256 r' = o_payload_sha256 r /\ o_created_unix r' = o_created_unix r /\
  o_deadline_unix r' = o_deadline_unix r /\
  (o_send_started r = true -> o_send_started r' = true) /\
  (o_remote_acked r = true -> o_remote_acked r' = true) /\
  (o_abandoned r = true -> o_abandoned r' = true) /\
  (o_permanent r = true -> o_permanent r' = true) /\
  Z.min (o_attempts r) u32_max <= o_attempts r'.

Definition rows_evolve (st st' : FleetState) : Prop :=
  forall k r, find_outbox k st = Some r -> exists r', find_outbox k st' = Some r' /\ row_step r r'.

Lemma row_step_refl r : row_step r r.
Proof. unfold row_step. split_and!; auto. lia. Qed.

Lemma rows_same st st' : outbox st' = outbox st -> rows_evolve st st'.
Proof. intros E k r F. exists r. unfold find_outbox in *. rewrite E. split; [done|apply row_step_refl]. Qed.

Lemma rows_update st st' k f :
  outbox st' = outbox (update_outbox k f st) -> (forall x, o_job_id (f x) = o_job_id x) ->
  (forall x, row_step x (f x)) -> rows_evolve st st'.
Proof.
  intros E K S k' r F.
  assert (F2 : find_outbox k' st' = find_outbox k' (update_outbox k f st))
    by (unfold find_outbox; congruence).
  rewrite find_outbox_update in F2 by done. case_decide; [subst; rewrite F in F2; eauto|].
  exists r. split; [congruence|apply row_step_refl].
Qed.

Lemma rows_push st r st' : outbox st' = outbox st ++ [r] -> rows_evolve st st'.
Proof.
  intros E k r0 F. exists r0. unfold find_outbox in *. rewrite E, find_key_app, F.
  split; [done|apply row_step_refl].
Qed.

Lemma restore_outbox st k : outbox (restore_slot_after_job_removal st k).1 = outbox st.
Proof. unfold restore_slot_after_job_removal. by repeat case_match. Qed.

Lemma row_step_sent r : row_step r (outbox_set_send_started true r).
Proof. unfold row_step. cbn. split_and!; auto. lia. Qed.
Lemma row_step_acked r : row_step r (outbox_set_remote_acked true r).
Proof. unfold row_step. cbn. split_and!; auto. lia. Qed.
Lemma row_step_abandoned r : row_step r (outbox_set_abandoned true r).
Proof. unfold row_step. cbn. split_and!; auto. lia. Qed.
Lemma row_step_attempt p r :
  row_step r (outbox_set_attempts (u32_saturating_add (o_attempts r) 1) (o_permanent r || p) r).
Proof.
  unfold row_step, u32_saturating_add. cbn. split_and!; auto; [by intros ->|lia].
Qed.

#[local] Hint Resolve row_step_sent row_step_acked row_step_abandoned row_step_attempt : journal.
#[local] Hint Extern 1 (rows_evolve _ _) => (apply rows_same; reflexivity) : journal.
#[local] Hint Extern 2 (rows_evolve _ _) =>
  (apply rows_same; cbn; apply (slot_mut_rest _ _)) : journal.
#[local] Hint Extern 2 (rows_evolve _ _) => (apply rows_same; apply restore_outbox) : journal.
#[local] Hint Extern 3 (rows_evolve _ _) => (eapply rows_push; reflexivity) : journal.
#[local] Hint Extern 3 (rows_evolve _ _) =>
  (eapply rows_update;
   [first [reflexivity | rewrite restore_outbox; reflexivity]|reflexivity|auto with journal nocore]) : journal.

Lemma reduce_rows now st ev : rows_evolve st (state (reduce now st ev)).
Proof.
  destruct ev; arm_cases;
    repeat (cbn [state accept reject]; auto with journal nocore; case_match);
    cbn [state accept reject]; auto with journal nocore.
  eapply rows_update; [reflexivity|reflexivity|]. intros r. apply row_step_attempt.
Qed.

(** Where a send command comes from. *)
Definition sends_fresh (st : FleetState) (o : ReduceOutcome) : Prop :=
  forall k g sha, Fx.SendCompletion k g sha ∈ commands o ->
    find_outbox k st = None /\ exists r, find_outbox k (state o) = Some r /\
      o_send_started r = false /\ is_pending r = true /\ o_payload_sha256 r = sha /\ o_generation r = g.

Lemma restore_commands st k :
  forall c, c ∈ (restore_slot_after_job_removal st k).2 -> exists n, c = Fx.AdvertiseCapacity n.
Proof.
  unfold restore_slot_after_job_removal. repeat case_match; cbn; intros c;
    rewrite ?elem_of_nil, ?list_elem_of_singleton; naive_solver.
Qed.

(** Resolve membership in the commands of one outcome. *)
Ltac command_cases :=
  repeat match goal with
  | H : _ ∈ [] |- _ => by apply elem_of_nil in H
  | H : _ ∈ [_] |- _ => apply list_elem_of_singleton in H
  | H : _ ∈ _ :: _ |- _ => apply elem_of_cons in H as [H|H]
  | H : _ ∈ (restore_slot_after_job_removal _ _).2 |- _ => apply restore_commands in H as [? H]
  | H : _ ∈ (if ?b then _ else _) |- _ => destruct b
  end.

Lemma reduce_sends_fresh now st ev : sends_fresh st (reduce now st ev).
Proof.
  intros k g sha. destruct ev; arm_cases; repeat case_match; cbn [commands accept reject state]; intros E;
    command_cases; try discriminate.
  injection E as -> -> ->. split; [done|].
  eexists. rewrite (find_outbox_snoc _ job_id) by done. rewrite decide_True by done. done.
Qed.

(** C27: A completion is sent at most once. A send command is only issued
    together with the creation of the completion row, which carries the
    payload checksum and no send claim yet; the row's identity, checksum and
    deadline never change, its send claim, acknowledgement and abandonment
    are never taken back, and its attempt count never drops; and the claim to
    send is granted only to a row whose claim is still free. *)
Theorem completion_is_sent_once now st ev :
  (forall k g sha, Fx.SendCompletion k g sha ∈ commands (reduce now st ev) ->
     find_outbox k st = None /\ exists r, find_outbox k (state (reduce now st ev)) = Some r /\
       o_send_started r = false /\ is_pending r = true /\ o_payload_sha256 r = sha /\ o_generation r = g) /\
  (forall k r, find_outbox k st = Some r ->
     exists r', find_outbox k (state (reduce now st ev)) = Some r' /\ row_step r r') /\
  (forall k g, ev = Ev.CompletionSendStarted k g -> rejected (reduce now st ev) = false ->
     exists r, find_outbox k st = Some r /\ o_send_started r = false /\ is_pending r = true).
Proof.
  split_and!; [apply reduce_sends_fresh|apply reduce_rows|]. intros k g ->. cbn [reduce].
  unfold reduce_send_started. destruct (find_outbox k st) as [r|]; [|done].
  destruct (_ && _ && _ && _) eqn:E; [|done]. intros _. exists r.
  by apply andb_true_iff in E as [[[_ ?]%andb_true_iff ?%negb_true_iff]%andb_true_iff _].
Qed.

(** ** Drained and cordoned fleets *)

(** Commands that create capacity or announce it. *)
Definition creates_capacity (c : SideEffect) : bool :=
  match c with
  | Fx.SpawnSlot _ _ | Fx.RegisterRunner _ _ => true
  | Fx.AdvertiseCapacity n => 0 <? n
  | _ => false
  end.

Lemma blocked_advertises_nothing st : fleet_admission_blocked st = true -> advertised_capacity st = 0.
Proof.
  unfold fleet_admission_blocked, advertised_capacity. intros H.
  by rewrite <- orb_assoc, H, orb_true_r.
Qed.

Lemma restore_latch st k :
  fleet_admission_blocked (restore_slot_after_job_removal st k).1 = fleet_admission_blocked st.
Proof. unfold restore_slot_after_job_removal. by repeat case_match. Qed.

Lemma restore_blocked st k c :
  fleet_admission_blocked st = true -> c ∈ (restore_slot_after_job_removal st k).2 ->
  c = Fx.AdvertiseCapacity 0.
Proof.
  intros B. unfold restore_slot_after_job_removal. repeat case_match; cbn;
    rewrite ?elem_of_nil, ?list_elem_of_singleton; try done.
  intros ->. f_equal. by apply blocked_advertises_nothing.
Qed.

Lemma filter_length_le {A} (p : A -> bool) l : (length (List.filter p l) <= length l)%nat.
Proof. induction l as [|x l IH]; cbn; [done|]. destruct (p x); cbn; lia. Qed.

Lemma update_first_length {A} (p : A -> bool) f (l : list A) : length (update_first p f l) = length l.
Proof. induction l as [|x l IH]; cbn; [done|]. destruct (p x); cbn; lia. Qed.

Lemma filter_length_lt {A} (p : A -> bool) l x :
  x ∈ l -> p x = false -> (length (List.filter p l) < length l)%nat.
Proof.
  induction l as [|y l IH]; [by rewrite elem_of_nil|]. intros [<-|E]%elem_of_cons P; cbn.
  - rewrite P. pose proof (filter_length_le p l). lia.
  - destruct (p y); cbn; specialize (IH E P); lia.
Qed.

Lemma restore_jobs_le st k : (length (jobs (restore_slot_after_job_removal st k).1) <= length (jobs st))%nat.
Proof.
  unfold restore_slot_after_job_removal. repeat case_match; cbn; try done; apply filter_length_le.
Qed.

Lemma job_owned_count st k i n g w t :
  JInv st -> (length (jobs (state (reduce_job_owned st k i n g w t))) <= length (jobs st))%nat.
Proof.
  intros I. unfold reduce_job_owned. destruct (_ || _ || _ || _) eqn:E; [done|].
  apply orb_false_iff in E as [[[_ G%bool_decide_eq_false]%orb_false_iff P%negb_false_iff]%orb_false_iff O].
  apply dec_stable in G. destruct (owned_was_intended st k i g w I G P O) as (j & F & _).
  rewrite F. cbn. rewrite length_app. cbn. apply find_key_elem in F as [E K].
  pose proof (filter_length_lt (fun x => negb (job_is k x)) (jobs st) j E) as L.
  apply (key_is_true j_job_id) in K. unfold job_is in *. rewrite K in L. specialize (L eq_refl). lia.
Qed.


Definition drained_fleet : FleetState := set_latches true 3 false 0 owned_fleet.


(** ** Bounded completion *)

(** The events that move a row's budget forward. *)
Definition attempt_failed (now : Z) (k : JobId) (g : Generation) (st : FleetState) : FleetState :=
  apply_one st (now, Ev.CompletionAttemptFailed k g false).

Lemma attempt_failed_step now st k g r :
  JInv st -> find_outbox k st = Some r -> is_pending r = true -> o_send_started r = true ->
  o_generation r = g ->
  find_outbox k (attempt_failed now k g st)
  = Some (outbox_set_attempts (u32_saturating_add (o_attempts r) 1) (o_permanent r || false) r)
  /\ JInv (attempt_failed now k g st).
Proof.
  intros I F P S G. assert (R : reduce now st (Ev.CompletionAttemptFailed k g false)
    = accept (update_outbox k (fun r => outbox_set_attempts (u32_saturating_add (o_attempts r) 1)
        (o_permanent r || false) r) st) []).
  { cbn [reduce]. unfold reduce_attempt_failed. rewrite F, P, S, G, Z.eqb_refl.
    by rewrite (pending_owner_proven st k r I F P). }
  unfold attempt_failed, apply_one. cbn [fst snd].
  pose proof (reduce_inv now st (Ev.CompletionAttemptFailed k g false) I) as I'. rewrite R in *.
  cbn [rejected accept state] in *. split; [|done].
  rewrite find_outbox_update by done. by rewrite decide_True, F.
Qed.

(** Abandoning frees the slot. *)
Lemma abandon_frees st k g r :
  JInv st -> find_outbox k st = Some r -> is_pending r = true ->
  rejected (abandon st k g) = false /\ find_job k (state (abandon st k g)) = None /\
  slot_has_active_job (state (abandon st k g)) (o_slot_id r) = false.
Proof.
  intros I F P. destruct (ji_pending _ I k r F P) as (j & Fj & O1 & _).
  pose proof (abandon_inv st k g r I F P) as I'.
  assert (FJ : forall k', find_job k' (state (abandon st k g)) = if decide (k' = k) then None else find_job k' st).
  { intros k'. unfold abandon. rewrite (surjective_pairing (restore_slot_after_job_removal _ _)).
    cbn [state accept]. unfold restore_slot_after_job_removal.
    change (find_job k (update_outbox k (outbox_set_abandoned true) st)) with (find_job k st). rewrite Fj.
    transitivity (find_key j_job_id k' (List.filter (fun x => negb (job_is k x)) (jobs st)));
      [by repeat case_match|apply find_key_remove]. }
  split; [unfold abandon; by case_match|]. split; [rewrite FJ; by rewrite decide_True|].
  apply existsb_false. intros q Eq. apply job_elem in Eq; [|done]. rewrite FJ in Eq.
  case_decide as D; [done|]. rewrite bool_decide_eq_false_2; [done|]. intros E. apply D.
  eapply (ji_one_job _ I); [exact Eq|exact Fj|congruence].
Qed.


