(* ===== verification/JournalJobs.v ===== *)
(** * Journal: capacity, health, and the life of a job

    What the fleet advertises against what it has, and what may happen to a
    job this node owns until its completion is settled. *)

From S2P Require Import Prelude NodeModel JournalData JournalReduce JournalInv JournalSafety JournalEvolution.
From Stdlib Require Import String.
From stdpp Require Import base list strings.
#[local] Open Scope Z_scope.
#[local] Arguments keys : simpl never.

(** ** Advertised capacity and health *)

Lemma count_u32_ext {A} (p q : A -> bool) l :
  (forall x, x ∈ l -> p x = q x) -> count_u32 p l = count_u32 q l.
Proof.
  intros E. unfold count_u32. do 3 f_equal. apply List.filter_ext_in. intros x H.
  by apply E, list_elem_of_In.
Qed.

(** What the fleet advertises is what it has. In every reachable state
    the advertised capacity is the number of ready slots of the health
    vector, or zero while the fleet is drained, cordoned or its capacity
    state is invalid; and a drained or cordoned fleet never reports itself
    ready. *)
Theorem advertised_capacity_is_ready_slots now st :
  reachable st ->
  advertised_capacity st =
    (if capacity_invalid st || fleet_admission_blocked st then 0
     else actual_ready_slots (health now st)) /\
  (fleet_admission_blocked st = true -> hd_state (health now st) <> FleetReady).
Proof.
  intros I%reachable_inv. split.
  - unfold advertised_capacity, fleet_admission_blocked, health, with_derived_state.
    rewrite orb_assoc. cbn [actual_ready_slots]. case_match; [done|].
    apply count_u32_ext. intros s E. pose proof (find_key_unique s_slot_id _ s (ji_slots _ I) E) as F.
    destruct (s_phase s) eqn:P; cbn; rewrite ?andb_false_r; try done. rewrite andb_true_r.
    by destruct (ji_ready _ I _ s F P).
  - unfold fleet_admission_blocked. intros B R. unfold health, with_derived_state in R. cbn [hd_state] in R.
    apply derive_state_ready in R as (_ & _ & _ & _ & _ & _ & _ & R). cbn in R. by rewrite B in R.
Qed.

Lemma advertised_capacity_is_ready_slots_witness :
  advertised_capacity ready_fleet = 1 /\
  advertised_capacity ready_fleet =
    (if capacity_invalid ready_fleet || fleet_admission_blocked ready_fleet then 0
     else actual_ready_slots (health 110 ready_fleet)).
Proof.
  split; [by vm_compute|].
  apply (advertised_capacity_is_ready_slots 110 ready_fleet (run_reachable to_ready _ reach_init)).
Defined.

(** ** Jobs *)

(** The events that end a job this node owns. *)
Definition ends_job (k : JobId) (ev : Event) : bool :=
  match ev with
  | Ev.RemoteAcked k' _ | Ev.RemoteObservedTerminal k' _ | Ev.CompletionUnresolvable k' _ _
  | Ev.CompletionPayloadLost k' _ _ _ | Ev.JobWorkerLost k' _ => bool_decide (k' = k)
  | _ => false
  end.

(** Which jobs survive, and with what conclusion. *)
Definition job_kept (owned : bool) (j j' : JobRecord) : Prop :=
  j_slot_id j' = j_slot_id j /\ j_generation j' = j_generation j /\ j_provisional j' = false /\
  (owned = false -> forall c, j_terminal_conclusion j = Some c -> j_terminal_conclusion j' = Some c).

Definition takes_ownership (k : JobId) (ev : Event) : bool :=
  match ev with Ev.JobOwned k' _ _ _ _ _ => bool_decide (k' = k) | _ => false end.

Lemma job_kept_refl b j : j_provisional j = false -> job_kept b j j.
Proof. intros. by split_and!. Qed.

Lemma find_job_restore st k k' :
  k' <> k -> find_job k' (restore_slot_after_job_removal st k).1 = find_job k' st.
Proof.
  intros N. unfold restore_slot_after_job_removal. destruct (find_job k st) as [j|]; [|done].
  set (st1 := set_jobs _ st). assert (E : find_job k' st1 = find_job k' st).
  { unfold find_job, st1, job_is. cbn [jobs set_jobs]. rewrite find_key_remove. by rewrite decide_False. }
  destruct (find_slot _ st1) as [s|]; [|done]. destruct (negb _); [done|].
  destruct (bool_decide _); [done|]. by destruct (_ && _).
Qed.

Lemma find_job_same k st st' : jobs st' = jobs st -> find_job k st' = find_job k st.
Proof. unfold find_job. by intros ->. Qed.

(** Updating the first provisional row leaves an owned row alone. *)
Lemma find_job_provisional_update st p g f k j :
  JInv st -> find_job k st = Some j -> j_provisional j = false ->
  (forall x, j_job_id (f x) = j_job_id x \/ existsb (job_is (j_job_id (f x))) (jobs st) = false) ->
  find_job k (set_jobs (update_first (provisional_row p g) f (jobs st)) st) = Some j.
Proof.
  intros I F P K. unfold find_job in *. cbn [jobs set_jobs].
  assert (NT : forall x, k <> j_job_id (f x) \/ j_job_id (f x) = j_job_id x).
  { intros x. destruct (K x) as [?|E]; [by right|left]. intros ->. rewrite existsb_false in E.
    apply find_key_elem in F as [Ej Kj]. specialize (E j Ej).
    apply (key_is_true j_job_id) in Kj. unfold job_is in E. congruence. }
  clear K. induction (jobs st) as [|x l IH]; [done|]. cbn [update_first]. rewrite find_key_cons in F.
  destruct (provisional_row p g x) eqn:R; rewrite find_key_cons.
  - apply andb_true_iff in R as [_ R]. case_decide as E; [simplify_eq; congruence|].
    destruct (NT x) as [N|N]; [by rewrite decide_False by auto|]. by rewrite decide_False by congruence.
  - case_decide; [done|]. auto.
Qed.

Section JobKept.
Context (st : FleetState) (k : JobId) (j : JobRecord).
Hypothesis (I : JInv st) (F : find_job k st = Some j) (P : j_provisional j = false).

Definition kept (b : bool) (st' : FleetState) : Prop :=
  exists j', find_job k st' = Some j' /\ job_kept b j j'.

Lemma kept_same b st' : find_job k st' = find_job k st -> kept b st'.
Proof. intros E. exists j. rewrite E. split; [done|by apply job_kept_refl]. Qed.

Lemma kept_push b st' l : jobs st' = jobs st ++ l -> kept b st'.
Proof.
  intros E. apply kept_same. unfold find_job in *. by rewrite E, find_key_app, F.
Qed.

Lemma kept_restore b st' k' : jobs st' = jobs st -> k' <> k -> kept b (restore_slot_after_job_removal st' k').1.
Proof. intros E N. apply kept_same. rewrite find_job_restore by done. by apply find_job_same. Qed.

Lemma kept_update b st' k' f :
  jobs st' = jobs (update_job k' f st) -> (forall x, j_job_id (f x) = j_job_id x) ->
  (k' = k -> job_kept b j (f j)) -> kept b st'.
Proof.
  intros E K H. assert (E2 : find_job k st' = find_job k (update_job k' f st))
    by (unfold find_job; congruence).
  rewrite find_job_update in E2 by done. case_decide; [|by apply kept_same].
  subst k'. rewrite F in E2. exists (f j). split; [done|auto].
Qed.

Lemma kept_retarget b p a f :
  target_taken st p a = false -> (forall x, j_job_id (f x) = a) ->
  forall g, kept b (set_jobs (update_first (provisional_row p g) f (jobs st)) st).
Proof.
  intros T K g. apply kept_same. rewrite F. unfold target_taken in T.
  destruct (decide (a = p)) as [->|N].
  - pose proof (find_provisional st p g I) as R. destruct (List.find _ _) as [q|] eqn:Fq.
    + destruct R as (Fp & _ & Pr & ->). change (job_is p) with (key_is j_job_id p).
      unfold find_job in *. cbn [jobs set_jobs].
      rewrite (find_key_rename j_job_id p p) by
        (done || apply I || (by left) || (apply find_key_elem in Fp as [? <-]; apply list_elem_of_fmap; eauto)).
      rewrite decide_False by (intros ->; congruence). by rewrite decide_False by (intros ->; congruence).
    + unfold find_job in *. cbn [jobs set_jobs]. clear -F Fq. revert F.
      assert (H : forall x, x ∈ jobs st -> provisional_row p g x = false).
      { intros x E. by apply (List.find_none _ _ Fq), list_elem_of_In. }
      revert H. induction (jobs st) as [|x l IH]; [done|]. intros H. cbn [update_first].
      rewrite (H x) by (by left). rewrite !find_key_cons. case_decide; [done|].
      apply IH; [by cbn in Fq; rewrite (H x) in Fq by (by left)|]. intros; apply H. by right.
  - rewrite bool_decide_eq_true_2 in T by done. apply find_job_provisional_update; [done..|].
    intros x. right. by rewrite K.
Qed.

Lemma kept_lost g k' : kept false (state (reduce_acquisition_lost st k' g)).
Proof.
  unfold reduce_acquisition_lost. destruct (existsb _ _) eqn:E; [|by apply kept_same].
  rewrite (surjective_pairing (restore_slot_after_job_removal _ _)). apply kept_restore; [done|].
  intros ->. apply existsb_elem in E as (q & Eq & [[K%key_is_true _]%andb_true_iff Pq]%andb_true_iff).
  apply job_elem in Eq; [|done]. rewrite K in Eq. congruence.
Qed.

Lemma kept_owned k' i n g w t :
  kept (bool_decide (k' = k)) (state (reduce_job_owned st k' i n g w t)).
Proof.
  unfold reduce_job_owned. destruct (_ || _ || _ || _) eqn:E; [by apply kept_same|].
  apply orb_false_iff in E as [[[_ G%bool_decide_eq_false]%orb_false_iff Ph%negb_false_iff]%orb_false_iff O].
  apply dec_stable in G. destruct (owned_was_intended st k' i g w I G Ph O) as (q & Fq & Sl & Ge).
  rewrite Fq. unfold kept. cbn [state accept]. rewrite (find_job_owned st k') by done.
  destruct (decide (k = k')) as [<-|N]; [|by apply kept_same].
  eexists. split; [done|]. assert (q = j) as -> by congruence. unfold job_kept. cbn.
  split_and!; [done..|]. by rewrite bool_decide_eq_true_2.
Qed.

End JobKept.

Lemma reduce_job_kept now st ev k j :
  JInv st -> find_job k st = Some j -> j_provisional j = false -> ends_job k ev = false ->
  kept k j (takes_ownership k ev) (state (reduce now st ev)).
Proof.
  intros I F P E.
  assert (Same : forall b st', jobs st' = jobs st -> kept k j b st')
    by (intros; eapply kept_same; [done..|by apply find_job_same]).
  destruct ev; cbn [ends_job takes_ownership] in *;
    rewrite ?bool_decide_eq_false in E;
    try (by apply kept_owned); try (by apply (kept_lost st)); arm_cases;
    repeat (cbn [state accept reject]; first [by auto | by (apply Same; cbn; apply slot_mut_rest) | case_match]);
    cbn [state accept reject]; try (by apply Same); try (by eapply kept_restore).
  - eapply (kept_push st); [done..|]. cbn. by rewrite (proj1 (slot_mut_rest _ _)).
  - eapply (kept_retarget st); [done..|by apply negb_true_iff|done].
  - match goal with H : _ && _ && _ = true |- _ =>
      apply andb_true_iff in H as [[?%negb_true_iff _]%andb_true_iff _] end.
    by eapply (kept_retarget st).
  - eapply (kept_same st); [done..|]. rewrite F.
    by apply find_job_provisional_update; [..|by left].
  - eapply (kept_update st); [done..|]. intros _. by split_and!.
  - eapply (kept_update st); [done..|]. intros ->. simplify_eq. split_and!; [done..|].
    intros _ c Ec. cbn.
    match goal with H : _ && _ = true |- _ => apply andb_true_iff in H as [_ ?%bool_decide_eq_true] end.
    congruence.
  - eapply (kept_update st); [done..|]. intros ->. simplify_eq. split_and!; [done..|].
    intros _ c Ec. congruence.
  - eapply (kept_update st); [done..|]. intros _. by split_and!.
  - eapply (kept_update st); [done..|]. intros _. by split_and!.
Qed.

(** C28: A job this node owns is never forgotten and never re-concluded. It
    leaves the fleet only through an acknowledgement of its completion, an
    abandonment of it, or the loss of its worker; under every other event it
    stays on its slot, in its generation, owned. Its recorded terminal
    conclusion is kept as well, unless the ownership of the very same job is
    recorded anew. *)
Theorem owned_job_is_never_forgotten now st ev k j :
  reachable st -> find_job k st = Some j -> j_provisional j = false -> ends_job k ev = false ->
  exists j', find_job k (state (reduce now st ev)) = Some j' /\
    j_slot_id j' = j_slot_id j /\ j_generation j' = j_generation j /\ j_provisional j' = false /\
    (takes_ownership k ev = false ->
     forall c, j_terminal_conclusion j = Some c -> j_terminal_conclusion j' = Some c).
Proof. intros I%reachable_inv F P E. apply (reduce_job_kept now st ev k j I F P E). Qed.

Lemma owned_job_is_never_forgotten_witness :
  exists j j', find_job "job" pending_fleet = Some j /\ j_terminal_conclusion j = Some "succeeded" /\
    find_job "job" (state (reduce 120 pending_fleet (Ev.JobTerminalResult "job" 1 "failed"))) = Some j' /\
    j_terminal_conclusion j' = Some "succeeded".
Proof.
  eexists.
  edestruct (owned_job_is_never_forgotten 120 pending_fleet (Ev.JobTerminalResult "job" 1 "failed") "job")
    as (j' & F & _ & _ & _ & H);
    [exact (run_reachable to_pending _ reach_init)|by vm_compute|reflexivity|reflexivity|].
  exists j'. split; [by vm_compute|]. split; [reflexivity|]. split; [exact F|].
  apply H; reflexivity.
Defined.

(** Recording the ownership of an owned job again erases its conclusion, so
    that a different one is then accepted. *)
Example ownership_replay_erases_conclusion :
  let st := run (to_owned ++ [(105, Ev.JobTerminalResult "job" 1 "succeeded")]) FleetState_default in
  let st' := run [(106, Ev.JobOwned "job" "s1" 1 1 "w" 106); (107, Ev.JobTerminalResult "job" 1 "failed")] st in
  rejected (reduce 107 st (Ev.JobTerminalResult "job" 1 "failed")) = true /\
  option_map j_terminal_conclusion (find_job "job" st') = Some (Some "failed").
Proof. by vm_compute. Qed.

(** A routing change leaves a ready slot ready, and advertised, although its
    own routing proof is gone. *)
Example ready_without_routing :
  let st := state (reduce 110 ready_fleet (Ev.Routing false false)) in
  option_map (fun s => (s_phase s, s_routing_valid s, is_ok (ready_proof s))) (find_slot "s1" st)
    = Some (Ready, false, false) /\
  advertised_capacity st = 1.
Proof. by vm_compute. Qed.
