(* ===== verification/JournalStore.v ===== *)
(** * Journal: the materialized tables

    [persist_state] and [load_materialized_state] of
    [crates/velnor-control/src/journal.rs]: how a fleet state is written to
    the [slots], [jobs], [outbox] and [meta] tables and read back, with the
    column types of the database ([INTEGER] is an [i64], a flag is 0 or 1, a
    phase is its spelling, a marker of [meta] is text). The lifecycle latches
    ([drain], [admission]) are written and cleared here too. *)

From S2P Require Import Prelude Numerals NodeModel JournalData JournalReduce JournalInv JournalSafety.
From Stdlib Require Import String Ascii DecimalString DecimalN.
From stdpp Require Import base gmap list strings.
#[local] Open Scope Z_scope.
#[local] Open Scope result_scope.
#[local] Arguments keys : simpl never.

(** ** Errors *)

(** [StoreError] by its code, without the remediation text. *)
Inductive StoreError :=
| InvalidMaterialized (field : string)
| OutboxOwnerUnknown (job_id : string)
| ConstraintFailed (table : string).

(** ** Rows *)

Record SlotRow := {
  sr_slot_id : string;
  sr_generation : Z;
  sr_phase : string;
  sr_permit_held : Z;
  sr_routing_valid : Z;
  sr_session_live : Z;
  sr_executor_proven : Z;
  sr_registered : Z;
  sr_pid : option Z;
  sr_heartbeat_unix : Z;
}.

Record JobRow := {
  jr_job_id : string;
  jr_slot_id : string;
  jr_generation : Z;
  jr_attempt : Z;
  jr_worker : string;
  jr_phase : string;
  jr_accepted_unix : Z;
  jr_terminal_conclusion : option string;
  jr_provisional : Z;
  jr_plan_id : string;
  jr_run_service_url : string;
  jr_probe_attempts : Z;
  jr_probe_deadline_unix : Z;
}.

Record OutboxRow := {
  or_job_id : string;
  or_slot_id : option string;
  or_generation : Z;
  or_payload_sha256 : string;
  or_intended : Z;
  or_send_started : Z;
  or_remote_acked : Z;
  or_created_unix : Z;
  or_attempts : Z;
  or_deadline_unix : Z;
  or_permanent : Z;
  or_abandoned : Z;
}.

(** The tables a writer replaces, and [meta]. *)
Record JournalTables := {
  t_slots : list SlotRow;
  t_jobs : list JobRow;
  t_outbox : list OutboxRow;
  t_meta : gmap string string;
}.

(** ** Column conversions *)

Definition i64_of_bool (b : bool) : Z := if b then 1 else 0.

Definition sqlite_bool (value : Z) (field : string) : result bool StoreError :=
  if value =? 0 then Ok false else if value =? 1 then Ok true else Err (InvalidMaterialized field).

Definition i64_u32 (value : Z) (field : string) : result Z StoreError :=
  match u32_try_from value with Some v => Ok v | None => Err (InvalidMaterialized field) end.

Definition i64_u64 (value : Z) (field : string) : result Z StoreError :=
  match u64_try_from value with Some v => Ok v | None => Err (InvalidMaterialized field) end.

Definition parse_slot_phase (value : string) : result SlotPhase2 StoreError :=
  if bool_decide (value = "absent") then Ok Absent
  else if bool_decide (value = "provisioning") then Ok Provisioning
  else if bool_decide (value = "registered") then Ok Registered
  else if bool_decide (value = "ready") then Ok Ready
  else if bool_decide (value = "assigned") then Ok Assigned
  else if bool_decide (value = "fenced") then Ok Fenced
  else Err (InvalidMaterialized "slot phase").

Definition parse_job_phase (value : string) : result JobPhase2 StoreError :=
  if bool_decide (value = "assigned") then Ok JobAssigned
  else if bool_decide (value = "running") then Ok JobRunning
  else if bool_decide (value = "completing") then Ok JobCompleting
  else Err (InvalidMaterialized "job phase").

Definition meta_bool (meta : gmap string string) (key : string) : result bool StoreError :=
  match meta !! key with
  | None => Ok false
  | Some value =>
      if bool_decide (value = "0") then Ok false
      else if bool_decide (value = "1") then Ok true
      else Err (InvalidMaterialized key)
  end.

Definition meta_number (max : Z) (meta : gmap string string) (key : string) : result Z StoreError :=
  match meta !! key with
  | None => Ok 0
  | Some value => match parse_unsigned max value with
                  | Some n => Ok n
                  | None => Err (InvalidMaterialized key)
                  end
  end.
Definition meta_u32 := meta_number u32_max.
Definition meta_u64 := meta_number u64_max.

Definition meta_canary (meta : gmap string string) : result CanaryStatus StoreError :=
  match meta !! "canary" with
  | None => Ok CanaryUnknown
  | Some value =>
      if bool_decide (value = "unknown") then Ok CanaryUnknown
      else if bool_decide (value = "passing") then Ok Passing
      else if bool_decide (value = "failing") then Ok Failing
      else if bool_decide (value = "timeout") then Ok CanaryTimeout
      else Err (InvalidMaterialized "canary")
  end.

Definition parse_drain_value (value : string) : option Z :=
  match str_strip_prefix "requested:" value with
  | Some digits => parse_unsigned u64_max digits
  | None => None
  end.

Definition parse_admission_value (value : string) : option Z :=
  match str_strip_prefix "blocked:" value with
  | Some digits => parse_unsigned u64_max digits
  | None => None
  end.

(** A lifecycle marker: whether it is set, and its version. *)
Definition meta_marker (parse : string -> option Z) (meta : gmap string string) (key : string)
    : result (bool * Z) StoreError :=
  match meta !! key with
  | None => Ok (false, 0)
  | Some value => match parse value with
                  | Some version => Ok (true, version)
                  | None => Err (InvalidMaterialized key)
                  end
  end.

(** ** Writing *)

Definition slot_row (x : SlotRecord) : SlotRow := {|
  sr_slot_id := s_slot_id x;
  sr_generation := i64_wrap (s_generation x);
  sr_phase := SlotPhase2_as_str (s_phase x);
  sr_permit_held := i64_of_bool (s_permit_held x);
  sr_routing_valid := i64_of_bool (s_routing_valid x);
  sr_session_live := i64_of_bool (s_session_live x);
  sr_executor_proven := i64_of_bool (s_executor_proven x);
  sr_registered := i64_of_bool (s_registered x);
  sr_pid := s_pid x;
  sr_heartbeat_unix := i64_wrap (s_heartbeat_unix x);
|}.

Definition job_row (x : JobRecord) : JobRow := {|
  jr_job_id := j_job_id x;
  jr_slot_id := j_slot_id x;
  jr_generation := i64_wrap (j_generation x);
  jr_attempt := j_attempt x;
  jr_worker := j_worker x;
  jr_phase := JobPhase2_as_str (j_phase x);
  jr_accepted_unix := i64_wrap (j_accepted_unix x);
  jr_terminal_conclusion := j_terminal_conclusion x;
  jr_provisional := i64_of_bool (j_provisional x);
  jr_plan_id := j_plan_id x;
  jr_run_service_url := j_run_service_url x;
  jr_probe_attempts := j_probe_attempts x;
  jr_probe_deadline_unix := i64_wrap (j_probe_deadline_unix x);
|}.

Definition outbox_row (x : OutboxRecord) : OutboxRow := {|
  or_job_id := o_job_id x;
  or_slot_id := Some (o_slot_id x);
  or_generation := i64_wrap (o_generation x);
  or_payload_sha256 := o_payload_sha256 x;
  or_intended := i64_of_bool (o_intended x);
  or_send_started := i64_of_bool (o_send_started x);
  or_remote_acked := i64_of_bool (o_remote_acked x);
  or_created_unix := i64_wrap (o_created_unix x);
  or_attempts := o_attempts x;
  or_deadline_unix := i64_wrap (o_deadline_unix x);
  or_permanent := i64_of_bool (o_permanent x);
  or_abandoned := i64_of_bool (o_abandoned x);
|}.

(** [INSERT INTO] a table with a text primary key, row by row. *)
Definition insert_rows {A} (table : string) (key : A -> string) (rows : list A)
    : result (list A) StoreError :=
  if decide (NoDup (map key rows)) then Ok rows else Err (ConstraintFailed table).

(** The rows of [meta] a state is written to, in order. *)
Definition meta_entries (st : FleetState) : list (string * string) :=
  [ ("control_live", to_string (i64_of_bool (control_live st)));
    ("github_reachable", to_string (i64_of_bool (github_reachable st)));
    ("routing_valid", to_string (i64_of_bool (routing_valid st)));
    ("runner_group_valid", to_string (i64_of_bool (runner_group_valid st)));
    ("desired_ready", to_string (desired_ready st));
    ("canary", CanaryStatus_as_str (canary st));
    ("package_generation", to_string (package_generation st));
    ("package_apt_version", package_apt_version st);
    ("capacity_invalid", to_string (i64_of_bool (capacity_invalid st)));
    ("capacity_declared", to_string (i64_of_bool (capacity_declared st))) ]
  ++ (if drain_active st then [("drain", "requested:" ++ to_string (drain_version st))%string] else [])
  ++ (if admission_blocked st
      then [("admission", "blocked:" ++ to_string (admission_version st))%string] else []).

Definition REPLAY_BASELINE_KEY : string := "replay_baseline_v1".
Definition REPLAY_BASELINE_CHECKSUM_KEY : string := "replay_baseline_sha256_v1".

(** [persist_state] after its check that the replay baseline is in place. *)
Definition persist_rows (db : JournalTables) (st : FleetState) : result JournalTables StoreError :=
  let anchors := filter (fun kv : string * string =>
    kv.1 = REPLAY_BASELINE_KEY \/ kv.1 = REPLAY_BASELINE_CHECKSUM_KEY) (t_meta db) in
  let? rows := insert_rows "slots" sr_slot_id (map slot_row (slots st)) in
  let? js := insert_rows "jobs" jr_job_id (map job_row (jobs st)) in
  let? os := insert_rows "outbox" or_job_id
    (map outbox_row (List.filter (fun r => negb (o_remote_acked r || o_abandoned r)) (outbox st))) in
  Ok {| t_slots := rows; t_jobs := js; t_outbox := os;
        t_meta := list_to_map (meta_entries st) ∪ anchors |}.

(** ** Reading *)

Definition load_slot (x : SlotRow) : result SlotRecord StoreError :=
  let? generation := i64_u64 (sr_generation x) "slot generation" in
  let? phase := parse_slot_phase (sr_phase x) in
  let? permit_held := sqlite_bool (sr_permit_held x) "slot permit_held" in
  let? routing_valid := sqlite_bool (sr_routing_valid x) "slot routing_valid" in
  let? session_live := sqlite_bool (sr_session_live x) "slot session_live" in
  let? executor_proven := sqlite_bool (sr_executor_proven x) "slot executor_proven" in
  let? registered := sqlite_bool (sr_registered x) "slot registered" in
  let? pid := match sr_pid x with None => Ok None
    | Some v => let? p := i64_u32 v "slot pid" in Ok (Some p) end in
  let? heartbeat_unix := i64_u64 (sr_heartbeat_unix x) "slot heartbeat_unix" in
  Ok {|
    s_slot_id := sr_slot_id x;
    s_generation := generation;
    s_phase := phase;
    s_permit_held := permit_held;
    s_routing_valid := routing_valid;
    s_session_live := session_live;
    s_executor_proven := executor_proven;
    s_registered := registered;
    s_pid := pid;
    s_heartbeat_unix := heartbeat_unix;
  |}.

Definition load_job (x : JobRow) : result JobRecord StoreError :=
  let? generation := i64_u64 (jr_generation x) "job generation" in
  let? attempt := i64_u32 (jr_attempt x) "job attempt" in
  let? phase := parse_job_phase (jr_phase x) in
  let? accepted_unix := i64_u64 (jr_accepted_unix x) "job accepted_unix" in
  let? probe_attempts := i64_u32 (jr_probe_attempts x) "job probe_attempts" in
  let? probe_deadline_unix := i64_u64 (jr_probe_deadline_unix x) "job probe_deadline_unix" in
  Ok {|
    j_job_id := jr_job_id x;
    j_slot_id := jr_slot_id x;
    j_generation := generation;
    j_attempt := attempt;
    j_worker := jr_worker x;
    j_phase := phase;
    j_accepted_unix := accepted_unix;
    j_terminal_conclusion := jr_terminal_conclusion x;
    j_provisional := negb (jr_provisional x =? 0);
    j_plan_id := jr_plan_id x;
    j_run_service_url := jr_run_service_url x;
    j_probe_attempts := probe_attempts;
    j_probe_deadline_unix := probe_deadline_unix;
  |}.

Definition load_outbox (x : OutboxRow) : result OutboxRecord StoreError :=
  let? slot_id := match or_slot_id x with Some v => Ok v
    | None => Err (OutboxOwnerUnknown (or_job_id x)) end in
  let? generation := i64_u64 (or_generation x) "outbox generation" in
  let? intended := sqlite_bool (or_intended x) "outbox intended" in
  let? send_started := sqlite_bool (or_send_started x) "outbox send_started" in
  let? remote_acked := sqlite_bool (or_remote_acked x) "outbox remote_acked" in
  let? created_unix := i64_u64 (or_created_unix x) "outbox created_unix" in
  let? attempts := i64_u32 (or_attempts x) "outbox attempts" in
  let? deadline_unix := i64_u64 (or_deadline_unix x) "outbox deadline_unix" in
  let? permanent := sqlite_bool (or_permanent x) "outbox permanent" in
  let? abandoned := sqlite_bool (or_abandoned x) "outbox abandoned" in
  Ok {|
    o_job_id := or_job_id x;
    o_slot_id := slot_id;
    o_generation := generation;
    o_payload_sha256 := or_payload_sha256 x;
    o_intended := intended;
    o_send_started := send_started;
    o_remote_acked := remote_acked;
    o_created_unix := created_unix;
    o_attempts := attempts;
    o_deadline_unix := deadline_unix;
    o_permanent := permanent;
    o_abandoned := abandoned;
  |}.

(** Materialized slot rows are the authoritative capacity-bearing set. *)
Definition state_capacity_invalid (st : FleetState) : bool :=
  capacity_declared st && (desired_ready st <? Z.of_nat (length (slots st))).

(** [load_materialized_state]; [legacy] is [legacy_slots_schema(conn)?]. *)
Definition load_materialized_state (legacy : bool) (db : JournalTables)
    : result FleetState StoreError :=
  let meta := t_meta db in
  let? control_live := meta_bool meta "control_live" in
  let? github_reachable := meta_bool meta "github_reachable" in
  let? routing_valid := meta_bool meta "routing_valid" in
  let? runner_group_valid := meta_bool meta "runner_group_valid" in
  let? desired_ready := meta_u32 meta "desired_ready" in
  let? capacity_declared := meta_bool meta "capacity_declared" in
  let? canary := meta_canary meta in
  let? package_generation := meta_u64 meta "package_generation" in
  let package_apt_version := default EmptyString (meta !! "package_apt_version") in
  let? capacity_invalid := meta_bool meta "capacity_invalid" in
  let? drain := meta_marker parse_drain_value meta "drain" in
  let? admission := meta_marker parse_admission_value meta "admission" in
  let? slots := result_map load_slot (t_slots db) in
  let invalid := capacity_invalid
    || (capacity_declared && (desired_ready <? Z.of_nat (length slots))) || legacy in
  let? jobs := result_map load_job (t_jobs db) in
  let? outbox := result_map load_outbox (t_outbox db) in
  Ok {|
    JournalData.control_live := control_live;
    JournalData.journal_writable := true;
    JournalData.github_reachable := github_reachable;
    JournalData.routing_valid := routing_valid;
    JournalData.runner_group_valid := runner_group_valid;
    JournalData.drain_active := drain.1;
    JournalData.drain_version := drain.2;
    JournalData.admission_blocked := admission.1;
    JournalData.admission_version := admission.2;
    JournalData.desired_ready := desired_ready;
    JournalData.canary := canary;
    JournalData.package_generation := package_generation;
    JournalData.package_apt_version := package_apt_version;
    JournalData.execution_backend := Docker;
    JournalData.capacity_declared := capacity_declared;
    JournalData.capacity_invalid := invalid;
    JournalData.slots := slots;
    JournalData.jobs := jobs;
    JournalData.outbox := outbox;
  |}.

(** ** Lifecycle latches *)

Definition set_meta (key value : string) (db : JournalTables) : JournalTables :=
  {| t_slots := t_slots db; t_jobs := t_jobs db; t_outbox := t_outbox db;
     t_meta := <[key := value]> (t_meta db) |}.
Definition delete_meta (key : string) (db : JournalTables) : JournalTables :=
  {| t_slots := t_slots db; t_jobs := t_jobs db; t_outbox := t_outbox db;
     t_meta := delete key (t_meta db) |}.

(** The transaction body of [Journal::set_drain]. *)
Definition set_drain_tx (version : Z) (db : JournalTables) : JournalTables * bool :=
  let existing := t_meta db !! "drain" in
  let effective :=
    match existing with
    | Some value => match parse_drain_value value with
                    | Some current => Z.max current version
                    | None => version
                    end
    | None => version
    end in
  let value := ("requested:" ++ to_string effective)%string in
  if decide (existing = Some value) then (db, false) else (set_meta "drain" value db, true).

(** The transaction body of [Journal::clear_drain]. *)
Definition clear_drain_tx (db : JournalTables) : JournalTables * bool :=
  (delete_meta "drain" db, bool_decide (is_Some (t_meta db !! "drain"))).

(** The transaction body of [Journal::set_admission_blocked]. *)
Definition set_admission_blocked_tx (version : Z) (db : JournalTables)
    : JournalTables * result bool StoreError :=
  let existing := t_meta db !! "admission" in
  let effective :=
    match existing with
    | None => Some version
    | Some value => match parse_admission_value value with
                    | Some current => Some (Z.max current version)
                    | None => None
                    end
    end in
  match effective with
  | None => (db, Err (InvalidMaterialized "admission"))
  | Some effective =>
      let value := ("blocked:" ++ to_string effective)%string in
      if decide (existing = Some value) then (db, Ok false)
      else (set_meta "admission" value db, Ok true)
  end.

(** The transaction body of [Journal::clear_admission_blocked_if]: compare and delete. *)
Definition clear_admission_blocked_if_tx (expected_version : option Z) (db : JournalTables)
    : JournalTables * bool :=
  match expected_version with
  | None => (db, false)
  | Some expected =>
      let value := ("blocked:" ++ to_string expected)%string in
      if decide (t_meta db !! "admission" = Some value) then (delete_meta "admission" db, true)
      else (db, false)
  end.
