(* ===== verification/JournalStoreProofs.v ===== *)
(** * Journal: what the tables keep

    A fleet state written by [persist_state] is read back by
    [load_materialized_state] as it was, less the completion rows that are
    settled; and the lifecycle latches keep the newest version. *)

From S2P Require Import Prelude Numerals NodeModel JournalData JournalReduce JournalInv JournalSafety JournalStore.
From Stdlib Require Import String Ascii DecimalString DecimalN DecimalFacts DecimalPos.
From stdpp Require Import base gmap list strings.
#[local] Open Scope Z_scope.
#[local] Open Scope result_scope.

(** ** Numbers *)

Lemma bool_text b : to_string (i64_of_bool b) = if b then "1" else "0".
Proof. by destruct b. Qed.

(** ** Columns *)

(** A [u64] an [INTEGER] column can hold. *)
Definition fits (x : Z) : Prop := 0 <= x <= i64_max.

Lemma i64_u64_wrap x f : fits x -> i64_u64 (i64_wrap x) f = Ok x.
Proof.
  intros [H1 H2]. unfold i64_u64, u64_try_from, i64_wrap.
  rewrite (proj2 (Z.leb_le x i64_max)) by done. by rewrite (proj2 (Z.leb_le 0 x)).
Qed.
Lemma i64_u32_id x f : is_u32 x -> i64_u32 x f = Ok x.
Proof.
  intros [H1 H2]. unfold i64_u32, u32_try_from.
  by rewrite (proj2 (Z.leb_le 0 x)), (proj2 (Z.leb_le x u32_max)).
Qed.
Lemma sqlite_bool_of b f : sqlite_bool (i64_of_bool b) f = Ok b.
Proof. by destruct b. Qed.
Lemma parse_slot_phase_as_str p : parse_slot_phase (SlotPhase2_as_str p) = Ok p.
Proof. by destruct p. Qed.
Lemma parse_job_phase_as_str p : parse_job_phase (JobPhase2_as_str p) = Ok p.
Proof. by destruct p. Qed.

Create Rewrite HintDb store_db.
#[local] Hint Rewrite sqlite_bool_of parse_slot_phase_as_str parse_job_phase_as_str : store_db.

(** ** Rows *)

Definition slot_storable (s : SlotRecord) : Prop :=
  fits (s_generation s) /\ fits (s_heartbeat_unix s) /\
  match s_pid s with Some p => is_u32 p | None => True end.
Definition job_storable (j : JobRecord) : Prop :=
  fits (j_generation j) /\ fits (j_accepted_unix j) /\ fits (j_probe_deadline_unix j) /\
  is_u32 (j_attempt j) /\ is_u32 (j_probe_attempts j).
Definition outbox_storable (r : OutboxRecord) : Prop :=
  fits (o_generation r) /\ fits (o_created_unix r) /\ fits (o_deadline_unix r) /\ is_u32 (o_attempts r).

Lemma load_slot_row s : slot_storable s -> load_slot (slot_row s) = Ok s.
Proof.
  intros (G & H & P). unfold load_slot, slot_row. cbn. rewrite (i64_u64_wrap _ _ G). cbn.
  autorewrite with store_db. cbn. repeat (autorewrite with store_db; cbn).
  destruct (s_pid s) as [p|] eqn:E; cbn.
  - rewrite i64_u32_id by done. cbn. rewrite (i64_u64_wrap _ _ H). cbn. rewrite <- E. by destruct s.
  - rewrite (i64_u64_wrap _ _ H). cbn. rewrite <- E. by destruct s.
Qed.

Lemma load_job_row j : job_storable j -> load_job (job_row j) = Ok j.
Proof.
  intros (G & A & D & At & Pa). unfold load_job, job_row. cbn.
  rewrite (i64_u64_wrap _ _ G). cbn. rewrite i64_u32_id by done. cbn. autorewrite with store_db. cbn.
  rewrite (i64_u64_wrap _ _ A). cbn. rewrite i64_u32_id by done. cbn. rewrite (i64_u64_wrap _ _ D). cbn.
  destruct j as [? ? ? ? ? ? ? ? pr ? ? ? ?]; cbn. by destruct pr.
Qed.

Lemma load_outbox_row r : outbox_storable r -> load_outbox (outbox_row r) = Ok r.
Proof.
  intros (G & C & D & A). unfold load_outbox, outbox_row. cbn. rewrite (i64_u64_wrap _ _ G). cbn.
  autorewrite with store_db. cbn. repeat (autorewrite with store_db; cbn).
  rewrite (i64_u64_wrap _ _ C). cbn. rewrite i64_u32_id by done. cbn. rewrite (i64_u64_wrap _ _ D). cbn.
  repeat (autorewrite with store_db; cbn). by destruct r.
Qed.

(** ** The whole state *)

Record storable (st : FleetState) : Prop := {
  sb_slots : forall s, s ∈ slots st -> slot_storable s;
  sb_jobs : forall j, j ∈ jobs st -> job_storable j;
  sb_outbox : forall r, r ∈ outbox st -> outbox_storable r;
  sb_desired : is_u32 (desired_ready st);
  sb_package : is_u64 (package_generation st);
  sb_drain : is_u64 (drain_version st);
  sb_admission : is_u64 (admission_version st);
}.

(** What the tables do not carry: an open journal is writable, the backend
    is the packaged one, an absent marker has version zero, and the capacity
    verdict is taken again. *)
Definition materialized (legacy : bool) (st : FleetState) : FleetState := {|
  control_live := control_live st;
  journal_writable := true;
  github_reachable := github_reachable st;
  routing_valid := routing_valid st;
  runner_group_valid := runner_group_valid st;
  drain_active := drain_active st;
  drain_version := if drain_active st then drain_version st else 0;
  admission_blocked := admission_blocked st;
  admission_version := if admission_blocked st then admission_version st else 0;
  desired_ready := desired_ready st;
  canary := canary st;
  package_generation := package_generation st;
  package_apt_version := package_apt_version st;
  execution_backend := Docker;
  capacity_declared := capacity_declared st;
  capacity_invalid := capacity_invalid st || state_capacity_invalid st || legacy;
  slots := slots st;
  jobs := jobs st;
  outbox := List.filter (fun r => negb (o_remote_acked r || o_abandoned r)) (outbox st);
|}.

Lemma insert_rows_Ok {A} table (key : A -> string) rows :
  NoDup (map key rows) -> insert_rows table key rows = Ok rows.
Proof. intros ND. unfold insert_rows. by rewrite decide_True. Qed.

Lemma meta_lookup st k v (m : gmap string string) :
  NoDup ((meta_entries st).*1) -> (k, v) ∈ meta_entries st ->
  ((list_to_map (meta_entries st) : gmap string string) ∪ m) !! k = Some v.
Proof.
  intros ND E. apply lookup_union_Some_l. by apply elem_of_list_to_map.
Qed.

Lemma meta_entries_NoDup st : NoDup ((meta_entries st).*1).
Proof.
  unfold meta_entries. destruct (drain_active st), (admission_blocked st); cbn;
    repeat (constructor; [set_solver|]); constructor.
Qed.

Lemma meta_absent st k (m : gmap string string) :
  k ∉ (meta_entries st).*1 -> m !! k = None ->
  ((list_to_map (meta_entries st) : gmap string string) ∪ m) !! k = None.
Proof. intros E N. apply lookup_union_None. split; [by apply not_elem_of_list_to_map|done]. Qed.

Section Loaded.
Context (st : FleetState) (m : gmap string string).
Hypothesis (St : storable st).
Hypothesis (Anchors : forall k, k <> REPLAY_BASELINE_KEY -> k <> REPLAY_BASELINE_CHECKSUM_KEY -> m !! k = None).

#[local] Abbreviation meta := ((list_to_map (meta_entries st) : gmap string string) ∪ m).

Lemma loaded_bool k b :
  (k, to_string (i64_of_bool b)) ∈ meta_entries st -> meta_bool meta k = Ok b.
Proof.
  intros E. unfold meta_bool. rewrite (meta_lookup st k _ m (meta_entries_NoDup st) E), bool_text.
  by destruct b.
Qed.

Lemma loaded_number max k n :
  (k, to_string n) ∈ meta_entries st -> 0 <= n <= max -> meta_number max meta k = Ok n.
Proof.
  intros E H. unfold meta_number. rewrite (meta_lookup st k _ m (meta_entries_NoDup st) E).
  by rewrite parse_to_string.
Qed.

Lemma loaded_canary : meta_canary meta = Ok (canary st).
Proof.
  unfold meta_canary. rewrite (meta_lookup st _ (CanaryStatus_as_str (canary st)) m (meta_entries_NoDup st)).
  - by destruct (canary st).
  - unfold meta_entries. set_solver.
Qed.

Lemma loaded_drain : meta_marker parse_drain_value meta "drain"
  = Ok (drain_active st, if drain_active st then drain_version st else 0).
Proof.
  unfold meta_marker. destruct (drain_active st) eqn:D.
  - rewrite (meta_lookup st "drain" (String.append "requested:" (to_string (drain_version st))) m
               (meta_entries_NoDup st)).
    + unfold parse_drain_value. rewrite strip_prefix_app, parse_to_string; [done|]. apply St.
    + unfold meta_entries. rewrite D. set_solver.
  - rewrite meta_absent; [done| |by apply Anchors].
    unfold meta_entries. rewrite D. destruct (admission_blocked st); set_solver.
Qed.

Lemma loaded_admission : meta_marker parse_admission_value meta "admission"
  = Ok (admission_blocked st, if admission_blocked st then admission_version st else 0).
Proof.
  unfold meta_marker. destruct (admission_blocked st) eqn:D.
  - rewrite (meta_lookup st "admission" (String.append "blocked:" (to_string (admission_version st))) m
               (meta_entries_NoDup st)).
    + unfold parse_admission_value. rewrite strip_prefix_app, parse_to_string; [done|]. apply St.
    + unfold meta_entries. rewrite D. set_solver.
  - rewrite meta_absent; [done| |by apply Anchors].
    unfold meta_entries. rewrite D. destruct (drain_active st); set_solver.
Qed.

Lemma loaded_apt : meta !! "package_apt_version" = Some (package_apt_version st).
Proof. apply meta_lookup; [apply meta_entries_NoDup|]. unfold meta_entries. set_solver. Qed.

End Loaded.

Lemma map_id_ext {A} (f : A -> A) l : (forall x, f x = x) -> map f l = l.
Proof. intros E. induction l; cbn; [done|]. by rewrite E, IHl. Qed.

Lemma persist_loads legacy db st :
  JInv st -> storable st ->
  exists db', persist_rows db st = Ok db' /\
    load_materialized_state legacy db' = Ok (materialized legacy st).
Proof.
  intros I St. unfold persist_rows.
  rewrite insert_rows_Ok by (rewrite map_map; apply (ji_slots _ I)). cbn [result_bind].
  rewrite insert_rows_Ok by (rewrite map_map; apply (ji_jobs _ I)). cbn [result_bind].
  rewrite insert_rows_Ok by (rewrite map_map; apply (NoDup_keys_filter o_job_id), (ji_outbox _ I)).
  cbn [result_bind]. eexists. split; [reflexivity|].
  unfold load_materialized_state. cbn [t_meta t_slots t_jobs t_outbox].
  set (m := filter _ (t_meta db)).
  assert (Anchors : forall k, k <> REPLAY_BASELINE_KEY -> k <> REPLAY_BASELINE_CHECKSUM_KEY -> m !! k = None).
  { intros k N1 N2. apply map_lookup_filter_None. right. intros v _ [?|?]; done. }
  rewrite (loaded_bool st m "control_live" (control_live st)) by (unfold meta_entries; set_solver).
  rewrite (loaded_bool st m "github_reachable" (github_reachable st)) by (unfold meta_entries; set_solver).
  rewrite (loaded_bool st m "routing_valid" (routing_valid st)) by (unfold meta_entries; set_solver).
  rewrite (loaded_bool st m "runner_group_valid" (runner_group_valid st)) by (unfold meta_entries; set_solver).
  cbn [result_bind]. unfold meta_u32, meta_u64.
  rewrite (loaded_number st m u32_max "desired_ready" (desired_ready st))
    by (apply (sb_desired _ St) || (unfold meta_entries; set_solver)).
  cbn [result_bind].
  rewrite (loaded_bool st m "capacity_declared" (capacity_declared st)) by (unfold meta_entries; set_solver).
  rewrite (loaded_canary st m St Anchors). cbn [result_bind].
  rewrite (loaded_number st m u64_max "package_generation" (package_generation st))
    by (apply (sb_package _ St) || (unfold meta_entries; set_solver)).
  cbn [result_bind].
  rewrite (loaded_bool st m "capacity_invalid" (capacity_invalid st)) by (unfold meta_entries; set_solver).
  rewrite (loaded_drain st m St Anchors), (loaded_admission st m St Anchors), (loaded_apt st m St Anchors).
  cbn [result_bind fst snd default].
  rewrite (result_map_Ok load_slot slot_row id) by (intros; by apply load_slot_row, (sb_slots _ St)).
  rewrite (result_map_Ok load_job job_row id) by (intros; by apply load_job_row, (sb_jobs _ St)).
  rewrite (result_map_Ok load_outbox outbox_row id).
  - cbn [result_bind]. rewrite !map_id_ext by done. done.
  - intros r E. apply load_outbox_row, (sb_outbox _ St).
    apply list_elem_of_In, List.filter_In in E as [E _]. by apply list_elem_of_In.
Qed.

(** Persisting loses nothing that matters. Any reachable fleet state
    whose numbers fit their columns is written without a constraint
    violation, and reading the tables gives back that very state: every slot,
    job and unsettled completion row in order, every flag, the capacity
    declaration and both lifecycle latches, whatever the tables held before. *)
Theorem materialized_state_round_trips legacy db st :
  reachable st -> storable st ->
  exists db', persist_rows db st = Ok db' /\
    load_materialized_state legacy db' = Ok (materialized legacy st).
Proof. intros I%reachable_inv. by apply persist_loads. Qed.

Definition empty_tables : JournalTables :=
  {| t_slots := []; t_jobs := []; t_outbox := []; t_meta := ∅ |}.

Lemma materialized_state_round_trips_witness :
  exists db', persist_rows empty_tables pending_fleet = Ok db' /\
    load_materialized_state false db' = Ok (materialized false pending_fleet).
Proof.
  apply materialized_state_round_trips; [exact (run_reachable to_pending _ reach_init)|].
  split; [| | |by vm_compute|by vm_compute|by vm_compute|by vm_compute]; intros x; revert x; apply Forall_forall.
  - replace (slots pending_fleet) with [slot_set_phase Assigned
      {| s_slot_id := "s1"; s_generation := 1; s_phase := Ready; s_permit_held := true;
         s_routing_valid := true; s_session_live := true; s_executor_proven := true;
         s_registered := true; s_pid := None; s_heartbeat_unix := 0 |}] by (by vm_compute).
    repeat constructor; by vm_compute.
  - replace (jobs pending_fleet) with [job_set_conclusion (Some "succeeded") JobCompleting
      (owned_job "job" "s1" 1 1 "w" 103 "plan" "https://run/2")] by (by vm_compute).
    repeat constructor; by vm_compute.
  - replace (outbox pending_fleet) with
      [outbox_set_send_started true (intended_row 106 "job" "s1" 1 "sha")] by (by vm_compute).
    repeat constructor; by vm_compute.
Defined.

(** ** Latches *)

(** The lifecycle latches are monotone and race free. Setting a drain
    or a cordon makes the marker readable with at least the requested
    version and never lowers a recorded version; setting it again changes
    nothing; and a cordon is cleared only by a caller that saw the version
    still in place, so a newer cordon survives a concurrent uncordon. *)
Theorem latches_keep_the_newest_version db v w seen :
  is_u64 v -> is_u64 w -> is_u64 seen ->
  t_meta db !! "admission" = Some (String.append "blocked:" (to_string w)) ->
  t_meta db !! "drain" = Some (String.append "requested:" (to_string w)) ->
  meta_marker parse_drain_value (t_meta (set_drain_tx v db).1) "drain" = Ok (true, Z.max w v) /\
  meta_marker parse_admission_value (t_meta (set_admission_blocked_tx v db).1) "admission"
    = Ok (true, Z.max w v) /\
  set_drain_tx v (set_drain_tx v db).1 = ((set_drain_tx v db).1, false) /\
  (clear_admission_blocked_if_tx (Some seen) db).2 = bool_decide (seen = w) /\
  (seen <> w -> (clear_admission_blocked_if_tx (Some seen) db).1 = db).
Proof.
  intros V W S A D.
  assert (Mx : is_u64 (Z.max w v)) by (unfold is_u64 in *; lia).
  assert (PD : forall x, is_u64 x -> parse_drain_value (String.append "requested:" (to_string x)) = Some x).
  { intros x X. unfold parse_drain_value. by rewrite strip_prefix_app, parse_to_string. }
  assert (PA : forall x, is_u64 x -> parse_admission_value (String.append "blocked:" (to_string x)) = Some x).
  { intros x X. unfold parse_admission_value. by rewrite strip_prefix_app, parse_to_string. }
  assert (MD : t_meta (set_drain_tx v db).1 !! "drain" = Some (String.append "requested:" (to_string (Z.max w v)))).
  { unfold set_drain_tx. rewrite D, (PD w W). case_decide as E; cbn [fst]; [congruence|].
    cbn [set_meta t_meta]. apply lookup_insert_eq. }
  split_and!.
  - unfold meta_marker. by rewrite MD, PD.
  - unfold meta_marker, set_admission_blocked_tx. rewrite A, (PA w W). case_decide as E; cbn [fst].
    + rewrite A, (PA w W). injection E as E. apply string_app_inj, to_string_inj in E; unfold is_u64 in *; try lia.
      do 2 f_equal. lia.
    + cbn [set_meta t_meta]. rewrite lookup_insert_eq. by rewrite PA.
  - unfold set_drain_tx at 1. rewrite MD, (PD _ Mx). replace (Z.max (Z.max w v) v) with (Z.max w v) by lia. by rewrite decide_True.
  - unfold clear_admission_blocked_if_tx. rewrite A. case_decide as E; cbn [snd].
    + injection E as E. apply string_app_inj, to_string_inj in E; unfold is_u64 in *; try lia.
      by rewrite bool_decide_eq_true_2.
    + rewrite bool_decide_eq_false_2; [done|]. intros ->. done.
  - intros N. unfold clear_admission_blocked_if_tx. rewrite A, decide_False; [done|].
    intros [= E]. apply string_app_inj, to_string_inj in E; unfold is_u64 in *; try lia.
Qed.

Definition cordoned_tables : JournalTables :=
  set_meta "admission" "blocked:7" (set_meta "drain" "requested:7" empty_tables).

Lemma latches_keep_the_newest_version_witness :
  (clear_admission_blocked_if_tx (Some 5) cordoned_tables).1 = cordoned_tables /\
  meta_marker parse_drain_value (t_meta (set_drain_tx 9 cordoned_tables).1) "drain" = Ok (true, Z.max 7 9).
Proof.
  destruct (latches_keep_the_newest_version cordoned_tables 9 7 5) as (D & _ & _ & _ & C);
    [by vm_compute..|]. split; [by apply C|exact D].
Defined.
