(* ===== verification/JournalReplay.v ===== *)
(** * Journal: the event log and its replay

    The durable side of [crates/velnor-control/src/journal.rs]: the event log
    with its checked rows, [apply_many] on a journal handle that carries no
    launch or acquisition fence, the replay baseline, the rebuilding of a
    state from the log, and the projection both are compared by. Serialising
    an event ([serde_json]) and hashing its payload ([sha2]) are arguments of
    the definitions that use them. *)

From S2P Require Import Prelude Numerals NodeModel JournalData JournalReduce JournalInv JournalSafety JournalStore JournalStoreProofs.
From Stdlib Require Import String.
From stdpp Require Import base gmap list strings sorting.
#[local] Open Scope Z_scope.
#[local] Open Scope result_scope.

(** ** Replay baseline *)

Record ReplayBaselineSlot := {
  bs_slot_id : SlotId;
  bs_generation : Generation;
  bs_phase : SlotPhase2;
  bs_permit_held : bool;
  bs_routing_valid : bool;
  bs_session_live : bool;
  bs_executor_proven : bool;
  bs_registered : bool;
  bs_pid : option Z;
  bs_heartbeat_unix : Z;
}.

Record ReplayBaselineJob := {
  bj_job_id : JobId;
  bj_slot_id : SlotId;
  bj_generation : Generation;
  bj_attempt : Z;
  bj_worker : string;
  bj_phase : JobPhase2;
  bj_accepted_unix : Z;
  bj_terminal_conclusion : option string;
  bj_provisional : bool;
  bj_plan_id : string;
  bj_run_service_url : string;
  bj_probe_attempts : Z;
  bj_probe_deadline_unix : Z;
}.

Record ReplayBaselineOutbox := {
  bo_job_id : JobId;
  bo_slot_id : SlotId;
  bo_generation : Generation;
  bo_payload_sha256 : string;
  bo_intended : bool;
  bo_send_started : bool;
  bo_remote_acked : bool;
  bo_created_unix : Z;
  bo_attempts : Z;
  bo_deadline_unix : Z;
  bo_permanent : bool;
  bo_abandoned : bool;
}.

Record ReplayBaselineState := {
  b_control_live : bool;
  b_journal_writable : bool;
  b_github_reachable : bool;
  b_routing_valid : bool;
  b_runner_group_valid : bool;
  b_desired_ready : Z;
  b_canary : CanaryStatus;
  b_package_generation : Z;
  b_package_apt_version : string;
  b_execution_backend : ExecutionBackendKind;
  b_capacity_declared : bool;
  b_capacity_invalid : bool;
  b_slots : list ReplayBaselineSlot;
  b_jobs : list ReplayBaselineJob;
  b_outbox : list ReplayBaselineOutbox;
}.

(** The six [From] conversions. *)
Definition baseline_slot (x : SlotRecord) : ReplayBaselineSlot := {|
  bs_slot_id := s_slot_id x;
  bs_generation := s_generation x;
  bs_phase := s_phase x;
  bs_permit_held := s_permit_held x;
  bs_routing_valid := s_routing_valid x;
  bs_session_live := s_session_live x;
  bs_executor_proven := s_executor_proven x;
  bs_registered := s_registered x;
  bs_pid := s_pid x;
  bs_heartbeat_unix := s_heartbeat_unix x;
|}.
Definition slot_of_baseline (x : ReplayBaselineSlot) : SlotRecord := {|
  s_slot_id := bs_slot_id x;
  s_generation := bs_generation x;
  s_phase := bs_phase x;
  s_permit_held := bs_permit_held x;
  s_routing_valid := bs_routing_valid x;
  s_session_live := bs_session_live x;
  s_executor_proven := bs_executor_proven x;
  s_registered := bs_registered x;
  s_pid := bs_pid x;
  s_heartbeat_unix := bs_heartbeat_unix x;
|}.
Definition baseline_job (x : JobRecord) : ReplayBaselineJob := {|
  bj_job_id := j_job_id x;
  bj_slot_id := j_slot_id x;
  bj_generation := j_generation x;
  bj_attempt := j_attempt x;
  bj_worker := j_worker x;
  bj_phase := j_phase x;
  bj_accepted_unix := j_accepted_unix x;
  bj_terminal_conclusion := j_terminal_conclusion x;
  bj_provisional := j_provisional x;
  bj_plan_id := j_plan_id x;
  bj_run_service_url := j_run_service_url x;
  bj_probe_attempts := j_probe_attempts x;
  bj_probe_deadline_unix := j_probe_deadline_unix x;
|}.
Definition job_of_baseline (x : ReplayBaselineJob) : JobRecord := {|
  j_job_id := bj_job_id x;
  j_slot_id := bj_slot_id x;
  j_generation := bj_generation x;
  j_attempt := bj_attempt x;
  j_worker := bj_worker x;
  j_phase := bj_phase x;
  j_accepted_unix := bj_accepted_unix x;
  j_terminal_conclusion := bj_terminal_conclusion x;
  j_provisional := bj_provisional x;
  j_plan_id := bj_plan_id x;
  j_run_service_url := bj_run_service_url x;
  j_probe_attempts := bj_probe_attempts x;
  j_probe_deadline_unix := bj_probe_deadline_unix x;
|}.
Definition baseline_outbox (x : OutboxRecord) : ReplayBaselineOutbox := {|
  bo_job_id := o_job_id x;
  bo_slot_id := o_slot_id x;
  bo_generation := o_generation x;
  bo_payload_sha256 := o_payload_sha256 x;
  bo_intended := o_intended x;
  bo_send_started := o_send_started x;
  bo_remote_acked := o_remote_acked x;
  bo_created_unix := o_created_unix x;
  bo_attempts := o_attempts x;
  bo_deadline_unix := o_deadline_unix x;
  bo_permanent := o_permanent x;
  bo_abandoned := o_abandoned x;
|}.
Definition outbox_of_baseline (x : ReplayBaselineOutbox) : OutboxRecord := {|
  o_job_id := bo_job_id x;
  o_slot_id := bo_slot_id x;
  o_generation := bo_generation x;
  o_payload_sha256 := bo_payload_sha256 x;
  o_intended := bo_intended x;
  o_send_started := bo_send_started x;
  o_remote_acked := bo_remote_acked x;
  o_created_unix := bo_created_unix x;
  o_attempts := bo_attempts x;
  o_deadline_unix := bo_deadline_unix x;
  o_permanent := bo_permanent x;
  o_abandoned := bo_abandoned x;
|}.

(** [ReplayBaselineState::from_fleet]. *)
Definition from_fleet (state : FleetState) : ReplayBaselineState := {|
  b_control_live := control_live state;
  b_journal_writable := journal_writable state;
  b_github_reachable := github_reachable state;
  b_routing_valid := routing_valid state;
  b_runner_group_valid := runner_group_valid state;
  b_desired_ready := desired_ready state;
  b_canary := canary state;
  b_package_generation := package_generation state;
  b_package_apt_version := package_apt_version state;
  b_execution_backend := execution_backend state;
  b_capacity_declared := capacity_declared state;
  b_capacity_invalid := capacity_invalid state;
  b_slots := map baseline_slot (slots state);
  b_jobs := map baseline_job (jobs state);
  b_outbox := map baseline_outbox (outbox state);
|}.

(** [ReplayBaselineState::into_fleet]: the lifecycle latches are overlays, not part of it. *)
Definition into_fleet (b : ReplayBaselineState) : FleetState := {|
  control_live := b_control_live b;
  journal_writable := b_journal_writable b;
  github_reachable := b_github_reachable b;
  routing_valid := b_routing_valid b;
  runner_group_valid := b_runner_group_valid b;
  drain_active := false;
  drain_version := 0;
  admission_blocked := false;
  admission_version := 0;
  desired_ready := b_desired_ready b;
  canary := b_canary b;
  package_generation := b_package_generation b;
  package_apt_version := b_package_apt_version b;
  execution_backend := b_execution_backend b;
  capacity_declared := b_capacity_declared b;
  capacity_invalid := b_capacity_invalid b;
  slots := map slot_of_baseline (b_slots b);
  jobs := map job_of_baseline (b_jobs b);
  outbox := map outbox_of_baseline (b_outbox b);
|}.

(** ** Event rows *)

Definition event_generation (ev : Event) : Generation :=
  match ev with
  | Ev.PermitReserved _ g | Ev.ExecutorProven _ g | Ev.SessionLive _ g
  | Ev.RegistrationIntended _ g | Ev.Registered _ g | Ev.RegistrationLost _ g
  | Ev.ReadyAttempt _ g | Ev.JobAcquisitionIntended _ _ g _ _ _
  | Ev.JobAcquisitionResolved _ _ _ g | Ev.JobAcquisitionResolvedAtEndpoint _ _ _ g _
  | Ev.AcquisitionProbeFailed _ g | Ev.JobAcquisitionLost _ g _ | Ev.JobOwned _ _ _ g _ _
  | Ev.JobStarted _ g | Ev.JobTerminalResult _ g _ | Ev.CompletionIntended _ g _
  | Ev.CompletionAttemptFailed _ g _ | Ev.CompletionUnresolvable _ g _
  | Ev.CompletionPayloadLost _ g _ _ | Ev.CompletionSendStarted _ g | Ev.RemoteAcked _ g
  | Ev.JobWorkerLost _ g | Ev.RemoteObservedTerminal _ g | Ev.CleanupIntended _ _ g
  | Ev.SlotHeartbeat _ g _ | Ev.SlotStale _ g | Ev.DiskPressureTerminalFence _ g
  | Ev.PackageActivated _ g | Ev.PackageRetireIntended g => g
  | _ => 0
  end.

Definition event_kind (ev : Event) : string :=
  match ev with
  | Ev.ControlLive => "control_live"
  | Ev.JournalWritable => "journal_writable"
  | Ev.JobAcquisitionIntended _ _ _ _ _ _ => "job_acquisition_intended"
  | Ev.JobAcquisitionResolved _ _ _ _ => "job_acquisition_resolved"
  | Ev.JobAcquisitionResolvedAtEndpoint _ _ _ _ _ => "job_acquisition_resolved_at_endpoint"
  | Ev.AcquisitionProbeFailed _ _ => "acquisition_probe_failed"
  | Ev.JobAcquisitionLost _ _ _ => "job_acquisition_lost"
  | Ev.Dependency _ => "dependency"
  | Ev.Routing _ _ => "routing"
  | Ev.DesiredCapacity _ => "desired_capacity"
  | Ev.PermitReserved _ _ => "permit_reserved"
  | Ev.ExecutorProven _ _ => "executor_proven"
  | Ev.SessionLive _ _ => "session_live"
  | Ev.RegistrationIntended _ _ => "registration_intended"
  | Ev.Registered _ _ => "registered"
  | Ev.RegistrationLost _ _ => "registration_lost"
  | Ev.ReadyAttempt _ _ => "ready_attempt"
  | Ev.JobOwned _ _ _ _ _ _ => "job_owned"
  | Ev.JobStarted _ _ => "job_started"
  | Ev.JobTerminalResult _ _ _ => "job_terminal_result"
  | Ev.CompletionIntended _ _ _ => "completion_intended"
  | Ev.CompletionAttemptFailed _ _ _ => "completion_attempt_failed"
  | Ev.CompletionUnresolvable _ _ _ => "completion_unresolvable"
  | Ev.CompletionPayloadLost _ _ _ _ => "completion_payload_lost"
  | Ev.CompletionSendStarted _ _ => "completion_send_started"
  | Ev.RemoteAcked _ _ => "remote_acked"
  | Ev.RemoteObservedTerminal _ _ => "remote_observed_terminal"
  | Ev.JobWorkerLost _ _ => "job_worker_lost"
  | Ev.CleanupIntended _ _ _ => "cleanup_intended"
  | Ev.SlotHeartbeat _ _ _ => "slot_heartbeat"
  | Ev.SlotStale _ _ => "slot_stale"
  | Ev.DiskPressureTerminalFence _ _ => "disk_pressure_terminal_fence"
  | Ev.CanaryObserved _ => "canary_observed"
  | Ev.PackageActivated _ _ => "package_activated"
  | Ev.PackageRetireIntended _ => "package_retire_intended"
  end.

(** A row of [events]; the rows are in the order of their ids. *)
Record EventRow := {
  er_generation : Z;
  er_kind : string;
  er_payload : string;
  er_checksum : string;
}.

Inductive ReplayError :=
| ChecksumMismatch
| EventUnknown
| MetadataMismatch
| EventRejected
| CapacityInvalid
| RecoveryFenced
| ServiceInstanceRequired
| WorkerAuthority
| ServiceInstanceMismatch
| SchemaFenced
| WriteFenceInvalid
| BaselineMissing
| BaselineChecksum
| BaselineInvalid
| BaselineVersion
| PressureStateInvalid
| LaunchFenced
| LaunchPressure
| LaunchStale
| IntentFenced
| ResponseFenced
| AbandonFenced
| ReplayMismatch
| Materialized (error : StoreError).

Definition JOURNAL_SCHEMA_VERSION : Z := 12.

(** ** The database *)

(** The columns of [disk_pressure_episodes] beside its key, the service
    instance and the filesystem id. *)
Record EpisodeRow := {
  e_volume_fingerprint : option string;
  e_episode_id : string;
  e_started_unix : Z;
  e_deadline_unix : Z;
  e_drain_deadline_unix : Z;
  e_last_observed_unix : Z;
  e_reclaim_attempted : Z;
  e_revision : Z;
  e_draining : Z;
  e_terminal : Z;
}.

(** The columns of [disk_pressure_launches] beside its key, the service
    instance and the slot id. *)
Record LaunchRow := {
  l_generation : Z;
  l_launch_nonce : string;
  l_issued_unix : Z;
  l_active : Z;
}.

(** The columns of [disk_pressure_observations] beside its key, the service
    instance and the filesystem id. *)
Record ObservationRow := {
  ob_volume_fingerprint : option string;
  ob_identity_confirmed : Z;
  ob_last_observed_unix : Z;
}.

(** The journal database outside a transaction. [j_fence_exact] is the answer
    of [journal_write_fence_is_exact]: the gate table and the write triggers
    are exactly those of the schema and the gate is closed. [j_identity] is
    the owner row of [journal_identity], [j_legacy] is [legacy_slots_schema]. *)
Record JournalDb := {
  j_user_version : Z;
  j_fence_exact : bool;
  j_legacy : bool;
  j_identity : option string;
  j_episodes : gmap (string * string) EpisodeRow;
  j_launches : gmap (string * SlotId) LaunchRow;
  j_observations : gmap (string * string) ObservationRow;
  j_events : list EventRow;
  j_tables : JournalTables;
}.

Definition set_launches (l : gmap (string * SlotId) LaunchRow) (db : JournalDb) : JournalDb :=
  {| j_user_version := j_user_version db; j_fence_exact := j_fence_exact db; j_legacy := j_legacy db;
     j_identity := j_identity db; j_episodes := j_episodes db; j_launches := l;
     j_observations := j_observations db; j_events := j_events db; j_tables := j_tables db |}.
Definition set_log (rows : list EventRow) (tables : JournalTables) (db : JournalDb) : JournalDb :=
  {| j_user_version := j_user_version db; j_fence_exact := j_fence_exact db; j_legacy := j_legacy db;
     j_identity := j_identity db; j_episodes := j_episodes db; j_launches := j_launches db;
     j_observations := j_observations db; j_events := rows; j_tables := tables |}.

(** [SET active = 0]. *)
Definition inactive (r : LaunchRow) : LaunchRow :=
  {| l_generation := l_generation r; l_launch_nonce := l_launch_nonce r;
     l_issued_unix := l_issued_unix r; l_active := 0 |}.

(** [JournalWriterContext::validate]: the handle's service binding must be the
    database's owner row. *)
Definition validate_writer (requested : option string) (db : JournalDb) : result unit ReplayError :=
  match j_identity db, requested with
  | None, None => Ok tt
  | Some stored, Some requested =>
      if bool_decide (stored = requested) then Ok tt else Err ServiceInstanceMismatch
  | _, _ => Err ServiceInstanceMismatch
  end.

(** [begin_write]: the gate opens only on an exact fence. *)
Definition begin_write (requested : option string) (db : JournalDb) : result unit ReplayError :=
  if negb (j_fence_exact db) then Err WriteFenceInvalid else validate_writer requested db.

Definition require_replay_baseline_keys (meta : gmap string string) : result unit ReplayError :=
  match meta !! REPLAY_BASELINE_KEY, meta !! REPLAY_BASELINE_CHECKSUM_KEY with
  | Some _, Some _ => Ok tt
  | _, _ => Err BaselineMissing
  end.

(** The loop over [launch_deactivations]: a bound handle revokes the lease, an
    unbound one refuses to fence a slot that still holds one. *)
Definition deactivate_launch (service : option string) (fenced : SlotId * Z)
    (l : gmap (string * SlotId) LaunchRow) : result (gmap (string * SlotId) LaunchRow) ReplayError :=
  match service with
  | Some si =>
      Ok (update_rows (fun k r => bool_decide (k = (si, fenced.1)) && (l_generation r =? fenced.2)) inactive l)
  | None =>
      if exists_row (fun k r => bool_decide (k.2 = fenced.1) && (l_generation r =? fenced.2)
                                && (l_active r =? 1)) l
      then Err ServiceInstanceRequired else Ok l
  end.

Fixpoint deactivate_launches (service : option string) (fenced : list (SlotId * Z))
    (l : gmap (string * SlotId) LaunchRow) : result (gmap (string * SlotId) LaunchRow) ReplayError :=
  match fenced with
  | [] => Ok l
  | f :: fenced => let? l' := deactivate_launch service f l in deactivate_launches service fenced l'
  end.

Inductive ReplayBaselineSource := Empty | LegacyMaterialized.

Record ReplayBaseline := {
  b_format_version : Z;
  b_source : ReplayBaselineSource;
  b_state : ReplayBaselineState;
}.

Definition empty_fleet : FleetState := set_journal_writable true FleetState_default.

Section Log.
(** [serde_json] on events and on the baseline, and [sha256_hex]. *)
Context (encode : Event -> string) (decode : string -> option Event).
Context (decode_baseline : string -> option ReplayBaseline) (sha256_hex : string -> string).

(** [load_replay_baseline]. *)
Definition load_replay_baseline (meta : gmap string string) : result (option FleetState) ReplayError :=
  match meta !! REPLAY_BASELINE_KEY, meta !! REPLAY_BASELINE_CHECKSUM_KEY with
  | None, None => Ok None
  | Some serialized, Some checksum =>
      if bool_decide (sha256_hex serialized <> checksum) then Err BaselineChecksum
      else match decode_baseline serialized with
      | None => Err BaselineInvalid
      | Some baseline =>
          if negb (b_format_version baseline =? 1) then Err BaselineVersion
          else
            let state := into_fleet (b_state baseline) in
            match b_source baseline with
            | Empty => if bool_decide (state <> empty_fleet) then Err BaselineInvalid else Ok (Some state)
            | LegacyMaterialized => Ok (Some state)
            end
      end
  | _, _ => Err BaselineInvalid
  end.

Definition validate_replay_baseline_before_write (db : JournalDb) : result unit ReplayError :=
  if negb (j_user_version db =? JOURNAL_SCHEMA_VERSION) then Err SchemaFenced
  else
    let? _ := require_replay_baseline_keys (t_meta (j_tables db)) in
    let? baseline := load_replay_baseline (t_meta (j_tables db)) in
    match baseline with Some _ => Ok tt | None => Err BaselineMissing end.

Definition validate_replay_integrity_before_read (db : JournalDb) : result unit ReplayError :=
  if negb (j_user_version db =? JOURNAL_SCHEMA_VERSION) then Err SchemaFenced
  else
    let? _ := require_replay_baseline_keys (t_meta (j_tables db)) in
    let? baseline := load_replay_baseline (t_meta (j_tables db)) in
    match baseline with
    | Some _ => if negb (j_fence_exact db) then Err WriteFenceInvalid else Ok tt
    | None => Err BaselineMissing
    end.

(** The [INSERT INTO events] of one accepted event. *)
Definition event_row (ev : Event) : EventRow :=
  let payload := encode ev in
  {| er_generation := i64_wrap (event_generation ev);
     er_kind := event_kind ev;
     er_payload := payload;
     er_checksum := sha256_hex payload |}.

Definition decode_checked_event (row : EventRow) : result Event ReplayError :=
  if bool_decide (sha256_hex (er_payload row) <> er_checksum row) then Err ChecksumMismatch
  else match decode (er_payload row) with
  | None => Err EventUnknown
  | Some event =>
      match u64_try_from (er_generation row) with
      | None => Err MetadataMismatch
      | Some stored_generation =>
          if bool_decide (er_kind row <> event_kind event)
             || negb (stored_generation =? event_generation event)
          then Err MetadataMismatch
          else Ok event
      end
  end.

Definition lift {A} (r : result A StoreError) : result A ReplayError :=
  match r with Ok a => Ok a | Err e => Err (Materialized e) end.

(** [persist_state]: the anchor is validated before any row is deleted. *)
Definition persist_state (db : JournalTables) (st : FleetState) : result JournalTables ReplayError :=
  let? baseline := load_replay_baseline (t_meta db) in
  match baseline with
  | None => Err BaselineMissing
  | Some _ => lift (persist_rows db st)
  end.

(** Loop state of [apply_many_inner]. *)
Record Writer := {
  w_state : FleetState;
  w_outcomes : list ReduceOutcome;
  w_pending : list Event;
  w_fenced : list (SlotId * Z);
}.

(** [PermitReserved] and [JobAcquisitionIntended] admit work. *)
Definition admits_work (ev : Event) : bool :=
  match ev with
  | Ev.PermitReserved _ _ | Ev.JobAcquisitionIntended _ _ _ _ _ _ => true
  | _ => false
  end.

(** The ownership only a pressure recovery may take. *)
Definition claims_pressure_recovery (ev : Event) : bool :=
  match ev with
  | Ev.JobOwned _ _ _ _ worker _ => starts_with PRESSURE_TERMINAL_RECOVERY_WORKER_PREFIX worker
  | _ => false
  end.

(** The slot generation whose launch lease an accepted event revokes;
    [disk_pressure_sql_integer] refuses one that is no SQLite integer. *)
Definition revoked_launch (ev : Event) : result (list (SlotId * Z)) ReplayError :=
  match ev with
  | Ev.SlotStale slot_id g | Ev.DiskPressureTerminalFence slot_id g =>
      if g <=? i64_max then Ok [(slot_id, g)] else Err PressureStateInvalid
  | _ => Ok []
  end.

(** One iteration: the event is stamped, reduced unless a pressure episode
    blocks its admission, and logged when it was accepted and did something. *)
Definition reduce_and_log (now : Z) (pressure : bool) (w : Writer) (ev : Event)
    : result Writer ReplayError :=
  let event := stamp_event now ev in
  let outcome := if pressure && admits_work event then reject (w_state w)
                 else reduce now (w_state w) event in
  if rejected outcome then
    Ok {| w_state := w_state w; w_outcomes := w_outcomes w ++ [outcome];
          w_pending := w_pending w; w_fenced := w_fenced w |}
  else
    let? revoked := revoked_launch event in
    let unchanged := bool_decide (commands outcome = []) && bool_decide (state outcome = w_state w) in
    Ok {| w_state := state outcome; w_outcomes := w_outcomes w ++ [outcome];
          w_pending := if unchanged then w_pending w else w_pending w ++ [event];
          w_fenced := w_fenced w ++ revoked |}.

(** One iteration: the checks the loop makes of the event come first. *)
Definition write_one (guard : Event -> result unit ReplayError) (now : Z) (pressure : bool) (w : Writer)
    (ev : Event) : result Writer ReplayError :=
  let? _ := guard ev in reduce_and_log now pressure w ev.

Fixpoint write_all (guard : Event -> result unit ReplayError) (now : Z) (pressure : bool) (w : Writer)
    (evs : list Event) : result Writer ReplayError :=
  match evs with
  | [] => Ok w
  | ev :: evs => let? w' := write_one guard now pressure w ev in write_all guard now pressure w' evs
  end.

(** The checks on a handle without a launch and outside of the recovery of an
    acquisition. *)
Definition plain_guard (ev : Event) : result unit ReplayError :=
  if claims_pressure_recovery ev then Err RecoveryFenced else Ok tt.

(** The episode query: a bound handle asks for its own instance. *)
Definition active_pressure_episode (service : option string) (db : JournalDb) : bool :=
  match service with
  | Some si => exists_row (fun k _ => bool_decide (k.1 = si)) (j_episodes db)
  | None => exists_row (fun _ _ => true) (j_episodes db)
  end.

(** [apply_many] on a controller's or administrative handle: no worker launch
    is bound to it, so no fence is passed. One transaction; an error leaves
    the database as it was. *)
Definition apply_many (now : Z) (service : option string) (evs : list Event) (db : JournalDb)
    : result (JournalDb * list ReduceOutcome) ReplayError :=
  match evs with
  | [] => Ok (db, [])
  | _ =>
      let? _ := validate_replay_baseline_before_write db in
      let? _ := begin_write service db in
      let? st := lift (load_materialized_state (j_legacy db) (j_tables db)) in
      if capacity_invalid st then Err CapacityInvalid
      else
      let? w := write_all plain_guard now (active_pressure_episode service db)
        {| w_state := st; w_outcomes := []; w_pending := []; w_fenced := [] |} evs in
      let? launches := deactivate_launches service (w_fenced w) (j_launches db) in
      let db' := set_launches launches db in
      match w_pending w with
      | [] => Ok (db', w_outcomes w)
      | pending =>
          let? tables := persist_state (j_tables db') (w_state w) in
          Ok (set_log (j_events db' ++ map event_row pending) tables db', w_outcomes w)
      end
  end.

(** *** Latch writes *)

Record WorkerLaunchFence := {
  wl_service_instance : string;
  wl_slot_id : SlotId;
  wl_generation : Z;
  wl_launch_nonce : string;
}.

(** A journal handle: the service it is bound to, or the launch of the worker
    it was opened for. *)
Record Handle := { h_service_instance : option string; h_worker_launch : option WorkerLaunchFence }.

(** [Journal::writer_context]. *)
Definition writer_context (h : Handle) : option string :=
  match h_worker_launch h with Some fence => Some (wl_service_instance fence) | None => h_service_instance h end.

Definition require_controller_authority (h : Handle) (db : JournalDb) : result unit ReplayError :=
  match h_worker_launch h with
  | Some _ => Err WorkerAuthority
  | None => validate_writer (writer_context h) db
  end.

(** The guards every latch write opens with. *)
Definition latch_guards (h : Handle) (db : JournalDb) : result unit ReplayError :=
  let? _ := validate_replay_baseline_before_write db in
  begin_write (writer_context h) db.

Definition set_drain (h : Handle) (version : Z) (db : JournalDb) : result (JournalDb * bool) ReplayError :=
  let? _ := require_controller_authority h db in
  let? _ := latch_guards h db in
  let '(tables, changed) := set_drain_tx version (j_tables db) in
  Ok (set_log (j_events db) tables db, changed).

Definition clear_drain (h : Handle) (db : JournalDb) : result (JournalDb * bool) ReplayError :=
  let? _ := require_controller_authority h db in
  let? _ := latch_guards h db in
  let '(tables, removed) := clear_drain_tx (j_tables db) in
  Ok (set_log (j_events db) tables db, removed).

Definition set_admission_blocked (h : Handle) (version : Z) (db : JournalDb)
    : result (JournalDb * bool) ReplayError :=
  let? _ := require_controller_authority h db in
  let? _ := latch_guards h db in
  let '(tables, changed) := set_admission_blocked_tx version (j_tables db) in
  let? changed := lift changed in
  Ok (set_log (j_events db) tables db, changed).

Definition clear_admission_blocked_if (h : Handle) (expected_version : option Z) (db : JournalDb)
    : result (JournalDb * bool) ReplayError :=
  let? _ := require_controller_authority h db in
  match expected_version with
  | None => Ok (db, false)
  | Some _ =>
      let? _ := latch_guards h db in
      let '(tables, removed) := clear_admission_blocked_if_tx expected_version (j_tables db) in
      Ok (set_log (j_events db) tables db, removed)
  end.

(** *** Replay *)

(** The loop of [load_state_from_conn_seed]. *)
Fixpoint replay (now : Z) (rows : list EventRow) (st : FleetState) : result FleetState ReplayError :=
  match rows with
  | [] => Ok st
  | row :: rows =>
      let? event := decode_checked_event row in
      let outcome := reduce now st event in
      if rejected outcome then Err EventRejected else replay now rows (state outcome)
  end.

Definition load_state_from_conn_seed (now : Z) (db : JournalDb) (seed : FleetState)
    : result FleetState ReplayError :=
  let? st := replay now (j_events db) (set_journal_writable true seed) in
  Ok (set_capacity_invalid (capacity_invalid st || state_capacity_invalid st || j_legacy db) st).

(** [load_state_from_conn_legacy_aware]. *)
Definition load_state_from_conn_legacy_aware (now : Z) (db : JournalDb) : result FleetState ReplayError :=
  let? baseline := load_replay_baseline (t_meta (j_tables db)) in
  load_state_from_conn_seed now db (default empty_fleet baseline).

(** Fields a replay stamps from its own clock. *)
Definition timeless_slot (s : SlotRecord) : SlotRecord := {|
  s_slot_id := s_slot_id s;
  s_generation := s_generation s;
  s_phase := s_phase s;
  s_permit_held := s_permit_held s;
  s_routing_valid := s_routing_valid s;
  s_session_live := s_session_live s;
  s_executor_proven := s_executor_proven s;
  s_registered := s_registered s;
  s_pid := s_pid s;
  s_heartbeat_unix := 0;
|}.
Definition timeless_job (j : JobRecord) : JobRecord := {|
  j_job_id := j_job_id j;
  j_slot_id := j_slot_id j;
  j_generation := j_generation j;
  j_attempt := j_attempt j;
  j_worker := j_worker j;
  j_phase := j_phase j;
  j_accepted_unix := 0;
  j_terminal_conclusion := j_terminal_conclusion j;
  j_provisional := j_provisional j;
  j_plan_id := j_plan_id j;
  j_run_service_url := j_run_service_url j;
  j_probe_attempts := j_probe_attempts j;
  j_probe_deadline_unix := 0;
|}.
Definition timeless_row (r : OutboxRecord) : OutboxRecord := {|
  o_job_id := o_job_id r;
  o_slot_id := o_slot_id r;
  o_generation := o_generation r;
  o_payload_sha256 := o_payload_sha256 r;
  o_intended := o_intended r;
  o_send_started := o_send_started r;
  o_remote_acked := o_remote_acked r;
  o_created_unix := 0;
  o_attempts := o_attempts r;
  o_deadline_unix := 0;
  o_permanent := o_permanent r;
  o_abandoned := o_abandoned r;
|}.

(** [sort_by] identity, then generation. *)
Definition id_le (a b : string * Z) : Prop :=
  String.ltb a.1 b.1 = true \/ (a.1 = b.1 /\ a.2 <= b.2).
#[local] Instance id_le_dec : RelDecision id_le.
Proof. intros a b. unfold id_le. apply _. Defined.

Definition slot_le (a b : SlotRecord) : Prop := id_le (s_slot_id a, s_generation a) (s_slot_id b, s_generation b).
Definition job_le (a b : JobRecord) : Prop := id_le (j_job_id a, j_generation a) (j_job_id b, j_generation b).
Definition row_le (a b : OutboxRecord) : Prop := id_le (o_job_id a, o_generation a) (o_job_id b, o_generation b).
#[local] Instance slot_le_dec : RelDecision slot_le.
Proof. intros a b. unfold slot_le. apply _. Defined.
#[local] Instance job_le_dec : RelDecision job_le.
Proof. intros a b. unfold job_le. apply _. Defined.
#[local] Instance row_le_dec : RelDecision row_le.
Proof. intros a b. unfold row_le. apply _. Defined.

Definition canonical_projection (st : FleetState) : FleetState :=
  let st1 := set_latches false 0 false 0 st in
  let slots := map timeless_slot (slots st1) in
  let jobs := map timeless_job (jobs st1) in
  let rows := List.filter is_pending (map timeless_row (outbox st1)) in
  set_outbox (merge_sort row_le rows) (set_jobs (merge_sort job_le jobs)
    (set_slots (merge_sort slot_le slots) st1)).

(** [load_current_state_checked]. *)
Definition load_current_state_checked (now : Z) (db : JournalDb) : result FleetState ReplayError :=
  let? _ := validate_replay_integrity_before_read db in
  let? replayed := load_state_from_conn_legacy_aware now db in
  let? mat := lift (load_materialized_state (j_legacy db) (j_tables db)) in
  if bool_decide (canonical_projection replayed <> canonical_projection mat)
     && negb (capacity_invalid mat)
  then Err ReplayMismatch
  else Ok (set_latches (drain_active mat) (drain_version mat) (admission_blocked mat)
             (admission_version mat) (if capacity_invalid mat then mat else replayed)).

End Log.

(** ** Round trips *)

Lemma baseline_slot_back s : slot_of_baseline (baseline_slot s) = s.
Proof. by destruct s. Qed.
Lemma baseline_job_back j : job_of_baseline (baseline_job j) = j.
Proof. by destruct j. Qed.
Lemma baseline_outbox_back r : outbox_of_baseline (baseline_outbox r) = r.
Proof. by destruct r. Qed.

(** A replay baseline carries the whole fleet state: converting a state
    to the baseline and back gives the same slots, jobs, completion rows,
    flags and declarations, and clears only the two lifecycle latches, which
    the reader overlays from [meta]. *)
Theorem baseline_round_trips st :
  into_fleet (from_fleet st) = set_latches false 0 false 0 st.
Proof.
  unfold into_fleet, from_fleet, set_latches. cbn. rewrite !map_map. f_equal; apply map_id_ext;
    auto using baseline_slot_back, baseline_job_back, baseline_outbox_back.
Qed.

Lemma stamp_keeps_generation now ev : event_generation (stamp_event now ev) = event_generation ev.
Proof. destruct ev; cbn; repeat case_match; done. Qed.

Section LogProofs.
Context (encode : Event -> string) (decode : string -> option Event).
Context (decode_baseline : string -> option ReplayBaseline) (sha256_hex : string -> string).
(** [serde_json] reads back what it wrote. *)
Hypothesis decode_encode : forall e, decode (encode e) = Some e.

#[local] Abbreviation row := (event_row encode sha256_hex).
#[local] Abbreviation decode_row := (decode_checked_event decode sha256_hex).

Lemma decode_event_row e : fits (event_generation e) -> decode_row (row e) = Ok e.
Proof.
  intros [G1 G2]. unfold decode_checked_event, event_row. cbn.
  rewrite bool_decide_eq_false_2 by (intros N; by apply N). rewrite decode_encode.
  unfold u64_try_from, i64_wrap. rewrite (proj2 (Z.leb_le _ i64_max)) by done.
  rewrite (proj2 (Z.leb_le 0 _)) by done. rewrite bool_decide_eq_false_2 by (intros N; by apply N).
  by rewrite Z.eqb_refl.
Qed.

(** What is decoded is what the row says it is. *)
Lemma decode_row_sound r e : decode_row r = Ok e ->
  sha256_hex (er_payload r) = er_checksum r /\ decode (er_payload r) = Some e /\
  er_kind r = event_kind e /\ er_generation r = event_generation e.
Proof.
  unfold decode_checked_event, u64_try_from. intros H. case_bool_decide as C; [done|].
  destruct (decode (er_payload r)) as [e'|]; [|done].
  destruct (0 <=? er_generation r); [|done].
  destruct (bool_decide _ || _) eqn:B; [done|]. injection H as ->.
  apply orb_false_iff in B as [K%bool_decide_eq_false G%negb_false_iff%Z.eqb_eq].
  apply dec_stable in K. done.
Qed.

(** The event log is read exactly as it was written, or not at all. The
    row of any event whose generation is an SQLite integer decodes to that
    event; and a row decodes to an event only if its checksum is that of its
    payload and its recorded kind and generation are the event's, so a row
    that disagrees with its payload in any of the three stops the replay. *)
Theorem event_rows_round_trip e r e' :
  (fits (event_generation e) -> decode_row (row e) = Ok e) /\
  (decode_row r = Ok e' ->
   er_checksum r = sha256_hex (er_payload r) /\ decode (er_payload r) = Some e' /\
   er_kind r = event_kind e' /\ er_generation r = event_generation e').
Proof.
  split; [apply decode_event_row|]. intros D%decode_row_sound. naive_solver.
Qed.

(** ** A batch and its replay *)

#[local] Abbreviation replay' := (replay decode sha256_hex).

Lemma replay_app now l1 l2 st st1 :
  replay' now l1 st = Ok st1 -> replay' now (l1 ++ l2) st = replay' now l2 st1.
Proof.
  revert st. induction l1 as [|r l1 IH]; intros st; cbn; [by intros [= ->]|].
  destruct (decode_row r) as [e|]; [|done]. cbn. destruct (rejected _); [done|]. apply IH.
Qed.

(** The loop invariant of a writer started in [st0]. *)
Definition writes (now : Z) (st0 : FleetState) (w : Writer) : Prop :=
  replay' now (map row (w_pending w)) st0 = Ok (w_state w) /\
  (w_pending w = [] -> w_state w = st0).

Lemma write_one_writes gd now p st0 w ev w' :
  fits (event_generation ev) -> write_one gd now p w ev = Ok w' -> writes now st0 w -> writes now st0 w'.
Proof.
  intros F H [R N]. unfold write_one in H. destruct (gd ev) as [[]|]; [|done]. cbn [result_bind] in H. unfold reduce_and_log in H.
  set (o := if p && admits_work (stamp_event now ev) then reject (w_state w)
            else reduce now (w_state w) (stamp_event now ev)) in H.
  destruct (rejected o) eqn:Ro; [by injection H as <-|].
  assert (O : o = reduce now (w_state w) (stamp_event now ev)).
  { subst o. by destruct (p && _). }
  destruct (revoked_launch _); [|done]. cbn in H. injection H as <-.
  destruct (bool_decide (commands o = []) && bool_decide (state o = w_state w)) eqn:U.
  - apply andb_true_iff in U as [_ U%bool_decide_eq_true]. split; cbn; rewrite U; [done|by apply N].
  - split; cbn; [|by destruct (w_pending w)].
    rewrite map_app, (replay_app _ _ _ _ _ R). cbn.
    rewrite decode_event_row by (by rewrite stamp_keeps_generation). cbn. by rewrite <- O, Ro.
Qed.

Lemma write_all_writes gd now p st0 evs w w' :
  Forall (fun ev => fits (event_generation ev)) evs ->
  write_all gd now p w evs = Ok w' -> writes now st0 w -> writes now st0 w'.
Proof.
  intros F. revert w. induction F as [|ev evs G _ IH]; intros w H W; cbn in H; [by injection H as <-|].
  destruct (write_one gd now p w ev) as [w1|] eqn:E; [|done]. cbn in H.
  eapply IH; [done|]. by eapply write_one_writes.
Qed.

Lemma write_one_inv gd now p w ev w' : JInv (w_state w) -> write_one gd now p w ev = Ok w' -> JInv (w_state w').
Proof.
  intros I H. unfold write_one in H. destruct (gd ev) as [[]|]; [|done]. cbn [result_bind] in H. unfold reduce_and_log in H.
  destruct (rejected _) eqn:Ro; [by injection H as <-|]. destruct (revoked_launch _); [|done].
  cbn in H. injection H as <-. cbn. destruct (p && _); [done|]. by apply reduce_inv.
Qed.

Lemma write_all_inv gd now p evs w w' : JInv (w_state w) -> write_all gd now p w evs = Ok w' -> JInv (w_state w').
Proof.
  revert w. induction evs as [|ev evs IH]; intros w I H; cbn in H; [by injection H as <-|].
  destruct (write_one gd now p w ev) as [w1|] eqn:E; [|done]. cbn in H.
  eapply IH; [|done]. by eapply write_one_inv.
Qed.

Lemma write_all_outcomes gd now p evs w w' : write_all gd now p w evs = Ok w' ->
  length (w_outcomes w') = (length (w_outcomes w) + length evs)%nat.
Proof.
  revert w. induction evs as [|ev evs IH]; intros w H; cbn in H; [injection H as <-; cbn; lia|].
  destruct (write_one gd now p w ev) as [w1|] eqn:E; [|done]. cbn in H. apply IH in H. rewrite H.
  unfold write_one in E. destruct (gd ev) as [[]|]; [|done]. cbn [result_bind] in E. unfold reduce_and_log in E. destruct (rejected _).
  - injection E as <-. cbn. rewrite length_app. cbn. lia.
  - destruct (revoked_launch _); [|done]. cbn in E. injection E as <-. cbn. rewrite length_app. cbn. lia.
Qed.

#[local] Abbreviation apply := (apply_many encode decode_baseline sha256_hex).

(** What [apply_many] did to the database, read off its code. *)
Lemma apply_many_Ok now service evs db db' outs st :
  load_materialized_state (j_legacy db) (j_tables db) = Ok st ->
  apply now service evs db = Ok (db', outs) ->
  exists w, write_all plain_guard now (active_pressure_episode service db)
      {| w_state := st; w_outcomes := []; w_pending := []; w_fenced := [] |} evs = Ok w /\
    j_events db' = j_events db ++ map row (w_pending w) /\ outs = w_outcomes w /\
    (j_legacy db' = j_legacy db /\ j_user_version db' = j_user_version db /\
     j_fence_exact db' = j_fence_exact db) /\
    (w_pending w = [] -> j_tables db' = j_tables db) /\
    (w_pending w <> [] -> capacity_invalid st = false /\
       persist_rows (j_tables db) (w_state w) = Ok (j_tables db')).
Proof.
  intros L. unfold apply_many. destruct evs as [|ev evs].
  { intros [= <- <-]. eexists. cbn. split; [reflexivity|]. cbn. by rewrite app_nil_r. }
  destruct (validate_replay_baseline_before_write _ _ db) as [[]|]; [|done]. cbn [result_bind].
  destruct (begin_write service db) as [[]|]; [|done]. cbn [result_bind]. rewrite L. cbn [lift result_bind].
  destruct (capacity_invalid st) eqn:Cap; [done|].
  destruct (write_all _ _ _ _ _) as [w|]; [|done]. cbn [result_bind].
  destruct (deactivate_launches _ _ _) as [l|]; [|done]. cbn [result_bind].
  destruct (w_pending w) as [|e pending] eqn:P; intros H; exists w; (split; [done|]); rewrite P.
  - injection H as <- <-. cbn. rewrite app_nil_r. done.
  - cbn [set_launches j_tables] in H. unfold persist_state in H.
    destruct (load_replay_baseline _ _ _) as [[b|]|]; try done. cbn [result_bind] in H.
    destruct (persist_rows _ _) as [t|]; [|done]. cbn [lift result_bind] in H. by injection H as <- <-.
Qed.

(** A committed batch is recorded faithfully. Whatever the events, if
    [apply_many] commits then every event has its outcome, the log grows by
    rows only, replaying just those rows at the batch's clock from the state
    the batch started in gives, without a rejection, the state the batch
    reached, and that state is consistent; when no row was written nothing
    was persisted, and otherwise the tables read back as that state (its
    settled completions dropped), provided its numbers fit their columns. *)
Theorem committed_batch_is_replayable now service evs db db' outs st :
  Forall (fun ev => fits (event_generation ev)) evs ->
  load_materialized_state (j_legacy db) (j_tables db) = Ok st -> JInv st ->
  apply now service evs db = Ok (db', outs) ->
  exists st' rows,
    length outs = length evs /\ j_events db' = j_events db ++ rows /\
    replay' now rows st = Ok st' /\ JInv st' /\
    (rows = [] -> j_tables db' = j_tables db /\ st' = st) /\
    (rows <> [] -> storable st' ->
       load_materialized_state (j_legacy db') (j_tables db') = Ok (materialized (j_legacy db) st')).
Proof.
  intros F L I A. destruct (apply_many_Ok _ _ _ _ _ _ _ L A) as (w & W & E & -> & (Lg & _) & N & P).
  exists (w_state w), (map row (w_pending w)).
  destruct (write_all_writes _ now _ st _ _ _ F W) as [R U]; [done|].
  assert (I' : JInv (w_state w)) by (by eapply write_all_inv; [|exact W]). pose proof (write_all_outcomes _ _ _ _ _ _ W) as O.
  split_and!; try done.
  - intros Z%map_eq_nil. auto.
  - intros Z St. destruct (persist_loads (j_legacy db) (j_tables db) _ I' St) as (t & T & Lt).
    destruct P as [_ P]; [intros X; by rewrite X in Z|]. rewrite P in T. injection T as ->. by rewrite Lg.
Qed.

(** ** Who may write *)

Lemma writer_is_owner requested db : begin_write requested db = Ok tt ->
  j_fence_exact db = true /\ j_identity db = requested.
Proof.
  unfold begin_write, validate_writer. destruct (j_fence_exact db); [|done]. cbn.
  destruct (j_identity db) as [a|], requested as [b|]; try done.
  destruct (bool_decide (a = b)) eqn:E; [|done]. apply bool_decide_eq_true in E as ->. done.
Qed.

(** The database carries the schema and an intact replay baseline. *)
Definition anchored (db : JournalDb) : Prop :=
  j_user_version db = JOURNAL_SCHEMA_VERSION /\
  exists b, load_replay_baseline decode_baseline sha256_hex (t_meta (j_tables db)) = Ok (Some b).

Lemma validated_is_anchored db :
  validate_replay_baseline_before_write decode_baseline sha256_hex db = Ok tt -> anchored db.
Proof.
  unfold validate_replay_baseline_before_write. destruct (_ =? _) eqn:V; [|done]. cbn.
  apply Z.eqb_eq in V. destruct (require_replay_baseline_keys _); [|done]. cbn.
  destruct (load_replay_baseline _ _ _) as [[b|]|] eqn:L; try done. intros _. split; [done|]. by exists b.
Qed.

(** The guards of a latch write passed. *)
Lemma latch_authority h db db' (r : result (JournalDb * bool) ReplayError) :
  (let? _ := require_controller_authority h db in
   let? _ := latch_guards decode_baseline sha256_hex h db in r) = Ok db' ->
  (h_worker_launch h = None /\ anchored db /\ j_fence_exact db = true /\
   j_identity db = h_service_instance h) /\ r = Ok db'.
Proof.
  unfold require_controller_authority, latch_guards, writer_context.
  destruct (h_worker_launch h) as [si|]; [done|].
  destruct (validate_writer _ db) as [[]|]; [|done]. cbn [result_bind].
  destruct (validate_replay_baseline_before_write _ _ db) as [[]|] eqn:V; [|done]. cbn [result_bind].
  destruct (begin_write _ db) as [[]|] eqn:B; [|done]. cbn [result_bind].
  apply writer_is_owner in B as [? ?]. apply validated_is_anchored in V. done.
Qed.

(** Only the owner writes, and only to an intact journal. When a
    non-empty batch of events or a drain or cordon latch is written, the
    database has this schema version, its replay baseline is present with its
    checksum, its write fence is untampered and its owner row is the handle's
    service instance; the latches are moreover never written by a worker's
    handle, and writing them leaves the event log alone. *)
Theorem only_the_owner_writes db now service ev evs h v :
  (forall r, apply now service (ev :: evs) db = Ok r ->
     anchored db /\ j_fence_exact db = true /\ j_identity db = service) /\
  (forall r, set_drain decode_baseline sha256_hex h v db = Ok r \/
             clear_drain decode_baseline sha256_hex h db = Ok r \/
             set_admission_blocked decode_baseline sha256_hex h v db = Ok r \/
             clear_admission_blocked_if decode_baseline sha256_hex h (Some v) db = Ok r ->
     (h_worker_launch h = None /\ anchored db /\ j_fence_exact db = true /\
      j_identity db = h_service_instance h) /\
     j_events r.1 = j_events db).
Proof.
  split.
  - intros r. unfold apply_many.
    destruct (validate_replay_baseline_before_write _ _ db) as [[]|] eqn:V; [|done]. cbn [result_bind].
    destruct (begin_write service db) as [[]|] eqn:B; [|done]. intros _.
    apply writer_is_owner in B as [? ?]. apply validated_is_anchored in V. done.
  - intros r [H|[H|[H|H]]].
    + unfold set_drain in H. apply latch_authority in H as [A H]. split; [done|].
      destruct (set_drain_tx _ _). by injection H as <-.
    + unfold clear_drain in H. apply latch_authority in H as [A H]. split; [done|].
      destruct (clear_drain_tx _). by injection H as <-.
    + unfold set_admission_blocked in H. apply latch_authority in H as [A H]. split; [done|].
      destruct (set_admission_blocked_tx _ _) as [t [c|]]; [|done]. by injection H as <-.
    + unfold clear_admission_blocked_if in H. apply latch_authority in H as [A H]. split; [done|].
      destruct (clear_admission_blocked_if_tx _ _). by injection H as <-.
Qed.

End LogProofs.

(** ** A concrete coding

    An instance of the parameters: an event is written as the decimal
    numeral of its code, a payload is its own checksum, and the baseline is
    the empty fleet. *)
Module Coding.

#[export] Instance canary_countable : Countable CanaryStatus.
Proof.
  refine (inj_countable' (fun c => match c with Passing => 0%nat | Failing => 1%nat | CanaryTimeout => 2%nat
                                             | CanaryUnknown => 3%nat end)
    (fun n => match n with O => Passing | 1%nat => Failing | 2%nat => CanaryTimeout | _ => CanaryUnknown end) _).
  by intros [].
Defined.

Definition field : Type := string + (Z + (bool + CanaryStatus)).
Definition S (x : string) : field := inl x.
Definition N (x : Z) : field := inr (inl x).
Definition B (x : bool) : field := inr (inr (inl x)).
Definition C (x : CanaryStatus) : field := inr (inr (inr x)).

Definition fields (e : Event) : nat * list field :=
  match e with
  | Ev.ControlLive => (0%nat, [])
  | Ev.JournalWritable => (1%nat, [])
  | Ev.Dependency a => (2%nat, [B a])
  | Ev.Routing a b => (3%nat, [B a; B b])
  | Ev.DesiredCapacity a => (4%nat, [N a])
  | Ev.PermitReserved a b => (5%nat, [S a; N b])
  | Ev.ExecutorProven a b => (6%nat, [S a; N b])
  | Ev.SessionLive a b => (7%nat, [S a; N b])
  | Ev.RegistrationIntended a b => (8%nat, [S a; N b])
  | Ev.Registered a b => (9%nat, [S a; N b])
  | Ev.RegistrationLost a b => (10%nat, [S a; N b])
  | Ev.ReadyAttempt a b => (11%nat, [S a; N b])
  | Ev.JobAcquisitionIntended a b c d e f => (12%nat, [S a; S b; N c; S d; S e; N f])
  | Ev.JobAcquisitionResolved a b c d => (13%nat, [S a; S b; S c; N d])
  | Ev.JobAcquisitionResolvedAtEndpoint a b c d e => (14%nat, [S a; S b; S c; N d; S e])
  | Ev.AcquisitionProbeFailed a b => (15%nat, [S a; N b])
  | Ev.JobAcquisitionLost a b c => (16%nat, [S a; N b; S c])
  | Ev.JobOwned a b c d e f => (17%nat, [S a; S b; N c; N d; S e; N f])
  | Ev.JobStarted a b => (18%nat, [S a; N b])
  | Ev.JobTerminalResult a b c => (19%nat, [S a; N b; S c])
  | Ev.CompletionIntended a b c => (20%nat, [S a; N b; S c])
  | Ev.CompletionSendStarted a b => (21%nat, [S a; N b])
  | Ev.RemoteAcked a b => (22%nat, [S a; N b])
  | Ev.RemoteObservedTerminal a b => (23%nat, [S a; N b])
  | Ev.CompletionAttemptFailed a b c => (24%nat, [S a; N b; B c])
  | Ev.CompletionUnresolvable a b c => (25%nat, [S a; N b; S c])
  | Ev.CompletionPayloadLost a b c d => (26%nat, [S a; N b; S c; S d])
  | Ev.JobWorkerLost a b => (27%nat, [S a; N b])
  | Ev.CleanupIntended a b c => (28%nat, [S a; S b; N c])
  | Ev.SlotHeartbeat a b c => (29%nat, [S a; N b; N c])
  | Ev.SlotStale a b => (30%nat, [S a; N b])
  | Ev.DiskPressureTerminalFence a b => (31%nat, [S a; N b])
  | Ev.CanaryObserved a => (32%nat, [C a])
  | Ev.PackageActivated a b => (33%nat, [S a; N b])
  | Ev.PackageRetireIntended a => (34%nat, [N a])
  end.

Definition of_fields (x : nat * list field) : option Event :=
  match x with
  | (0%nat, []) => Some (Ev.ControlLive)
  | (1%nat, []) => Some (Ev.JournalWritable)
  | (2%nat, [inr (inr (inl a))]) => Some (Ev.Dependency a)
  | (3%nat, [inr (inr (inl a)); inr (inr (inl b))]) => Some (Ev.Routing a b)
  | (4%nat, [inr (inl a)]) => Some (Ev.DesiredCapacity a)
  | (5%nat, [inl a; inr (inl b)]) => Some (Ev.PermitReserved a b)
  | (6%nat, [inl a; inr (inl b)]) => Some (Ev.ExecutorProven a b)
  | (7%nat, [inl a; inr (inl b)]) => Some (Ev.SessionLive a b)
  | (8%nat, [inl a; inr (inl b)]) => Some (Ev.RegistrationIntended a b)
  | (9%nat, [inl a; inr (inl b)]) => Some (Ev.Registered a b)
  | (10%nat, [inl a; inr (inl b)]) => Some (Ev.RegistrationLost a b)
  | (11%nat, [inl a; inr (inl b)]) => Some (Ev.ReadyAttempt a b)
  | (12%nat, [inl a; inl b; inr (inl c); inl d; inl e; inr (inl f)]) => Some (Ev.JobAcquisitionIntended a b c d e f)
  | (13%nat, [inl a; inl b; inl c; inr (inl d)]) => Some (Ev.JobAcquisitionResolved a b c d)
  | (14%nat, [inl a; inl b; inl c; inr (inl d); inl e]) => Some (Ev.JobAcquisitionResolvedAtEndpoint a b c d e)
  | (15%nat, [inl a; inr (inl b)]) => Some (Ev.AcquisitionProbeFailed a b)
  | (16%nat, [inl a; inr (inl b); inl c]) => Some (Ev.JobAcquisitionLost a b c)
  | (17%nat, [inl a; inl b; inr (inl c); inr (inl d); inl e; inr (inl f)]) => Some (Ev.JobOwned a b c d e f)
  | (18%nat, [inl a; inr (inl b)]) => Some (Ev.JobStarted a b)
  | (19%nat, [inl a; inr (inl b); inl c]) => Some (Ev.JobTerminalResult a b c)
  | (20%nat, [inl a; inr (inl b); inl c]) => Some (Ev.CompletionIntended a b c)
  | (21%nat, [inl a; inr (inl b)]) => Some (Ev.CompletionSendStarted a b)
  | (22%nat, [inl a; inr (inl b)]) => Some (Ev.RemoteAcked a b)
  | (23%nat, [inl a; inr (inl b)]) => Some (Ev.RemoteObservedTerminal a b)
  | (24%nat, [inl a; inr (inl b); inr (inr (inl c))]) => Some (Ev.CompletionAttemptFailed a b c)
  | (25%nat, [inl a; inr (inl b); inl c]) => Some (Ev.CompletionUnresolvable a b c)
  | (26%nat, [inl a; inr (inl b); inl c; inl d]) => Some (Ev.CompletionPayloadLost a b c d)
  | (27%nat, [inl a; inr (inl b)]) => Some (Ev.JobWorkerLost a b)
  | (28%nat, [inl a; inl b; inr (inl c)]) => Some (Ev.CleanupIntended a b c)
  | (29%nat, [inl a; inr (inl b); inr (inl c)]) => Some (Ev.SlotHeartbeat a b c)
  | (30%nat, [inl a; inr (inl b)]) => Some (Ev.SlotStale a b)
  | (31%nat, [inl a; inr (inl b)]) => Some (Ev.DiskPressureTerminalFence a b)
  | (32%nat, [inr (inr (inr a))]) => Some (Ev.CanaryObserved a)
  | (33%nat, [inl a; inr (inl b)]) => Some (Ev.PackageActivated a b)
  | (34%nat, [inr (inl a)]) => Some (Ev.PackageRetireIntended a)
  | _ => None
  end.

Lemma of_fields_fields e : of_fields (fields e) = Some e.
Proof. by destruct e. Qed.

Definition encode (e : Event) : string := to_string (Z.pos (countable.encode (fields e))).
Definition decode (s : string) : option Event :=
  match digits_value s with
  | Some (Z.pos p) => countable.decode p ≫= of_fields
  | _ => None
  end.
Definition sha256_hex (s : string) : string := s.
Definition decode_baseline (s : string) : option ReplayBaseline :=
  if bool_decide (s = "empty")
  then Some {| b_format_version := 1; b_source := Empty; b_state := from_fleet empty_fleet |}
  else None.

Lemma decode_encode e : decode (encode e) = Some e.
Proof.
  unfold decode, encode. rewrite digits_value_to_string by done. rewrite decode_encode. cbn.
  apply of_fields_fields.
Qed.

End Coding.

(** The schema's fresh database, unbound, and the nine events that bring its
    first slot to ready. *)
Definition fresh_tables : JournalTables :=
  {| t_slots := []; t_jobs := []; t_outbox := [];
     t_meta := {[ REPLAY_BASELINE_KEY := "empty"; REPLAY_BASELINE_CHECKSUM_KEY := "empty" ]} |}.
Definition fresh_db : JournalDb :=
  {| j_user_version := JOURNAL_SCHEMA_VERSION; j_fence_exact := true; j_legacy := false;
     j_identity := None; j_episodes := ∅; j_launches := ∅; j_observations := ∅; j_events := []; j_tables := fresh_tables |}.

Definition committed (now : Z) (evs : list Event) (db : JournalDb) : JournalDb :=
  match apply_many Coding.encode Coding.decode_baseline Coding.sha256_hex now None evs db with
  | Ok (db', _) => db'
  | Err _ => db
  end.
(** Successive batches, each at its own clock. *)
Definition journal (batches : list (Z * Event)) : JournalDb :=
  fold_left (fun db b => committed b.1 [b.2] db) batches fresh_db.
Definition checked_read (now : Z) (db : JournalDb) : result FleetState ReplayError :=
  load_current_state_checked Coding.decode Coding.decode_baseline Coding.sha256_hex now db.

Lemma event_rows_round_trip_witness :
  decode_checked_event Coding.decode Coding.sha256_hex
    (event_row Coding.encode Coding.sha256_hex (Ev.RemoteAcked "job" 3)) = Ok (Ev.RemoteAcked "job" 3).
Proof.
  apply (event_rows_round_trip Coding.encode Coding.decode Coding.sha256_hex Coding.decode_encode
    (Ev.RemoteAcked "job" 3) (event_row Coding.encode Coding.sha256_hex Ev.ControlLive) Ev.ControlLive).
  by vm_compute.
Defined.

Lemma committed_batch_is_replayable_witness :
  exists st' rows,
    j_events (committed 100 (map snd to_ready) fresh_db) = [] ++ rows /\ length rows = 9%nat /\
    replay Coding.decode Coding.sha256_hex 100 rows empty_fleet = Ok st' /\ JInv st'.
Proof.
  assert (J : JInv empty_fleet) by (apply (JInv_tables FleetState_default); done || apply JInv_default).
  destruct (apply_many Coding.encode Coding.decode_baseline Coding.sha256_hex 100 None
              (map snd to_ready) fresh_db) as [[db' outs]|] eqn:A; [|by vm_compute in A].
  destruct (committed_batch_is_replayable Coding.encode Coding.decode Coding.decode_baseline
              Coding.sha256_hex Coding.decode_encode 100 None (map snd to_ready) fresh_db db' outs empty_fleet)
    as (st' & rows & _ & E & R & I & _);
    [repeat constructor; by vm_compute|by vm_compute|exact J|exact A|].
  exists st', rows. unfold committed. rewrite A. split_and!; [exact E| |exact R|exact I].
  change (j_events fresh_db) with (@nil EventRow) in E. rewrite app_nil_l in E. rewrite <- E.
  replace db' with (committed 100 (map snd to_ready) fresh_db) by (unfold committed; by rewrite A).
  by vm_compute.
Defined.

(** ** Logs a later read accepts or refuses *)

(** A job taken from acquisition to acknowledgement is read back. *)
Example settled_journal_reads :
  is_ok (checked_read 200 (journal (to_pending ++ [(108, Ev.RemoteAcked "job" 1)]))) = true.
Proof. by vm_compute. Qed.

(** A job identity that is delivered again after its completion settled: the
    writer, whose tables no longer hold the settled row, accepts the second
    completion intent and logs it; a replay, which still holds the row, refuses
    it, and the journal cannot be read any more. *)
Example redelivered_job_poisons_the_log :
  let db := journal (to_pending ++
    [ (108, Ev.RemoteAcked "job" 1); (109, Ev.ReadyAttempt "s1" 1);
      (111, Ev.JobAcquisitionIntended "s1" "msg2" 1 "msg2" "https://run" 111);
      (112, Ev.JobAcquisitionResolvedAtEndpoint "msg2" "job" "plan" 1 "https://run/2");
      (113, Ev.JobOwned "job" "s1" 2 1 "w" 113); (114, Ev.JobStarted "job" 1);
      (115, Ev.JobTerminalResult "job" 1 "succeeded"); (116, Ev.CompletionIntended "job" 1 "sha2") ]) in
  length (j_events db) = 24%nat /\
  is_ok (load_materialized_state false (j_tables db)) = true /\
  checked_read 200 db = Err EventRejected.
Proof. by vm_compute. Qed.

(** A completion given up because its deadline had passed: a replay stamps the
    deadline from its own clock, so the budget is not yet spent when the
    give-up is replayed, and the journal cannot be read at that time. *)
Example deadline_give_up_poisons_the_log :
  let late := 106 + COMPLETION_RESOLUTION_SECONDS in
  let db := journal (to_pending ++ [(late, Ev.CompletionUnresolvable "job" 1 "deadline")]) in
  length (j_events db) = 17%nat /\
  is_ok (load_materialized_state false (j_tables db)) = true /\
  checked_read (late + 1) db = Err EventRejected.
Proof. by vm_compute. Qed.
