(* ===== verification/JournalRefine.v ===== *)
(** * Journal: the replay refines the tables

    The checked read replays the whole log and compares the result with the
    materialized tables. This file proves that the comparison succeeds for
    every history the writer commits, at whatever time it is read, as long as
    no job identity is completed again after it settled and no completion is
    given up on its deadline alone.

    Two states are the same to the comparison when their [core] is: the state
    without its clocks, its settled completions and its latches. The proof is
    a simulation: an event acts on a state as it acts on the core. *)

From S2P Require Import Prelude Numerals NodeModel JournalData JournalReduce JournalInv JournalSafety JournalEvolution JournalStore JournalStoreProofs JournalReplay.
From Stdlib Require Import String.
From stdpp Require Import base gmap list strings sorting.
#[local] Open Scope Z_scope.
#[local] Open Scope result_scope.
#[local] Arguments keys : simpl never.

(** ** Cores *)

Definition core (st : FleetState) : FleetState := {|
  control_live := control_live st;
  journal_writable := journal_writable st;
  github_reachable := github_reachable st;
  routing_valid := routing_valid st;
  runner_group_valid := runner_group_valid st;
  drain_active := false;
  drain_version := 0;
  admission_blocked := false;
  admission_version := 0;
  desired_ready := desired_ready st;
  canary := canary st;
  package_generation := package_generation st;
  package_apt_version := package_apt_version st;
  execution_backend := execution_backend st;
  capacity_declared := capacity_declared st;
  capacity_invalid := capacity_invalid st;
  slots := map timeless_slot (slots st);
  jobs := map timeless_job (jobs st);
  outbox := map timeless_row (List.filter is_pending (outbox st));
|}.

(** The fields outside the three tables that a core keeps. *)
Definition scalars (st : FleetState) :=
  ((control_live st, journal_writable st, github_reachable st, routing_valid st, runner_group_valid st, desired_ready st),
   (canary st, package_generation st, package_apt_version st, execution_backend st, capacity_declared st, capacity_invalid st)).

Lemma core_eq st st' :
  scalars st = scalars st' ->
  map timeless_slot (slots st) = map timeless_slot (slots st') ->
  map timeless_job (jobs st) = map timeless_job (jobs st') ->
  map timeless_row (List.filter is_pending (outbox st))
    = map timeless_row (List.filter is_pending (outbox st')) ->
  core st = core st'.
Proof. unfold scalars. intros [= ] **. unfold core. by f_equal. Qed.

Lemma existsb_map {A B} (p : B -> bool) (f : A -> B) l : existsb p (map f l) = existsb (fun x => p (f x)) l.
Proof. induction l; cbn; [done|]. by rewrite IHl. Qed.
Lemma existsb_filter {A} (p q : A -> bool) l :
  existsb p (List.filter q l) = existsb (fun x => q x && p x) l.
Proof. induction l as [|x l IH]; cbn; [done|]. destruct (q x); cbn; by rewrite IH. Qed.
Lemma existsb_ext {A} (p q : A -> bool) l : (forall x, p x = q x) -> existsb p l = existsb q l.
Proof. intros E. induction l; cbn; [done|]. by rewrite E, IHl. Qed.
Lemma find_key_map {A} (key : A -> string) (f : A -> A) k l :
  (forall x, key (f x) = key x) -> find_key key k (map f l) = option_map f (find_key key k l).
Proof.
  intros E. induction l as [|x l IH]; [done|]. cbn [map]. rewrite !find_key_cons, E. by case_decide.
Qed.
Lemma find_map {A} (p : A -> bool) (f : A -> A) l :
  (forall x, p (f x) = p x) -> List.find p (map f l) = option_map f (List.find p l).
Proof. intros E. induction l as [|x l IH]; cbn; [done|]. rewrite E. by destruct (p x). Qed.
Lemma filter_map {A} (p : A -> bool) (f : A -> A) l :
  (forall x, p (f x) = p x) -> List.filter p (map f l) = map f (List.filter p l).
Proof. intros E. induction l as [|x l IH]; cbn; [done|]. rewrite E. destruct (p x); cbn; by rewrite IH. Qed.
Lemma filter_idem {A} (p : A -> bool) l : List.filter p (List.filter p l) = List.filter p l.
Proof. induction l as [|x l IH]; cbn; [done|]. destruct (p x) eqn:E; cbn; rewrite ?E; by rewrite IH. Qed.

(** Updating the first match, up to an erasure [e]. *)
Lemma map_update_first {A} (p : A -> bool) (e f g : A -> A) l :
  (forall x, p (e x) = p x) -> (forall x, e (f x) = e (g (e x))) -> (forall x, e (e x) = e x) ->
  map e (update_first p f l) = map e (update_first p g (map e l)).
Proof.
  intros P F I. induction l as [|x l IH]; cbn; [done|]. rewrite P. destruct (p x); cbn.
  - rewrite F, map_map. f_equal. apply map_ext. done.
  - by rewrite I, IH.
Qed.

Lemma timeless_slot_idem s : timeless_slot (timeless_slot s) = timeless_slot s.
Proof. done. Qed.
Lemma timeless_job_idem j : timeless_job (timeless_job j) = timeless_job j.
Proof. done. Qed.
Lemma timeless_row_idem r : timeless_row (timeless_row r) = timeless_row r.
Proof. done. Qed.

Lemma core_idem st : core (core st) = core st.
Proof.
  apply core_eq; [done|cbn; by rewrite map_map..|].
  cbn. by rewrite (filter_map is_pending timeless_row), filter_idem, map_map by done.
Qed.

(** *** Reads *)

Lemma core_find_slot i st : find_slot i (core st) = option_map timeless_slot (find_slot i st).
Proof. apply (find_key_map s_slot_id timeless_slot). done. Qed.
Lemma core_find_job k st : find_job k (core st) = option_map timeless_job (find_job k st).
Proof. apply (find_key_map j_job_id timeless_job). done. Qed.
Lemma core_find_outbox k st : JInv st ->
  find_outbox k (core st) = match find_outbox k st with
                            | Some r => if is_pending r then Some (timeless_row r) else None
                            | None => None
                            end.
Proof.
  intros I. unfold find_outbox. cbn [outbox core].
  rewrite (find_key_map o_job_id timeless_row) by done.
  assert (N : NoDup (keys o_job_id (outbox st))) by apply I. revert N.
  induction (outbox st) as [|r l IH]; intros N; [done|]. cbn [List.filter].
  apply NoDup_cons in N as [N1 N2]. rewrite find_key_cons. case_decide as E.
  - destruct (is_pending r); [rewrite find_key_cons, decide_True by done; done|].
    rewrite (proj2 (find_key_None _ k _)); [done|]. subst k. intros X. apply N1.
    unfold keys in *. apply list_elem_of_fmap in X as (y & -> & Y).
    apply list_elem_of_In, List.filter_In in Y as [Y _]. apply list_elem_of_fmap. exists y.
    split; [done|]. by apply list_elem_of_In.
  - rewrite <- (IH N2). destruct (is_pending r); [|done]. rewrite find_key_cons, decide_False by done. done.
Qed.

Lemma core_slot_generation i st : slot_generation_of i (core st) = slot_generation_of i st.
Proof. unfold slot_generation_of. rewrite core_find_slot. by destruct (find_slot i st). Qed.
Lemma core_job_slot_generation k st : job_slot_generation (core st) k = job_slot_generation st k.
Proof.
  unfold job_slot_generation. rewrite core_find_job. destruct (find_job k st); [|done].
  apply core_slot_generation.
Qed.
Lemma core_active i st : slot_has_active_job (core st) i = slot_has_active_job st i.
Proof. unfold slot_has_active_job. cbn [jobs core]. by rewrite existsb_map. Qed.
Lemma core_proven st r : outbox_owner_is_proven (core st) r = outbox_owner_is_proven st r.
Proof.
  unfold outbox_owner_is_proven. cbn [slots jobs core].
  by rewrite !existsb_map.
Qed.
Lemma core_blocks i g st : pending_outbox_blocks_admission (core st) i g = pending_outbox_blocks_admission st i g.
Proof.
  unfold pending_outbox_blocks_admission at 1. cbn [outbox core].
  rewrite existsb_map, existsb_filter. apply existsb_ext. intros r.
  change (is_pending (timeless_row r)) with (is_pending r). rewrite core_proven.
  by destruct (is_pending r).
Qed.
Lemma core_slot_blocked i g st : slot_admission_blocked (core st) i g = slot_admission_blocked st i g.
Proof. unfold slot_admission_blocked. by rewrite core_active, core_blocks. Qed.
Lemma core_admits st : fleet_admission_blocked (core st) = false.
Proof. done. Qed.
Lemma core_jobs st : jobs (core st) = map timeless_job (jobs st).
Proof. done. Qed.
Lemma core_slot_mut i st :
  slot_mut i (core st) = (core (slot_mut i st).1, timeless_slot (slot_mut i st).2).
Proof.
  unfold slot_mut. rewrite core_find_slot. destruct (find_slot i st) as [s|]; [done|]. cbn [option_map fst snd].
  unfold core. cbn. by rewrite map_app.
Qed.

(** *** Writes *)

Lemma core_outbox st :
  map timeless_row (List.filter is_pending (outbox st))
  = map timeless_row (List.filter is_pending (outbox (core st))).
Proof. cbn [outbox core]. by rewrite (filter_map is_pending timeless_row), filter_idem, map_map by done. Qed.
Lemma core_slots st : map timeless_slot (slots st) = map timeless_slot (slots (core st)).
Proof. cbn [slots core]. by rewrite map_map. Qed.
Lemma core_jobs_map st : map timeless_job (jobs st) = map timeless_job (jobs (core st)).
Proof. cbn [jobs core]. by rewrite map_map. Qed.

(** One table is replaced by one with the same core. *)
Lemma core_set_slots ss ss' st :
  map timeless_slot ss = map timeless_slot ss' -> core (set_slots ss st) = core (set_slots ss' (core st)).
Proof. intros E. apply core_eq; [done|exact E|apply core_jobs_map|apply core_outbox]. Qed.
Lemma core_set_jobs js js' st :
  map timeless_job js = map timeless_job js' -> core (set_jobs js st) = core (set_jobs js' (core st)).
Proof. intros E. apply core_eq; [done|apply core_slots|exact E|apply core_outbox]. Qed.
Lemma core_set_outbox rows rows' st :
  map timeless_row (List.filter is_pending rows) = map timeless_row (List.filter is_pending rows') ->
  core (set_outbox rows st) = core (set_outbox rows' (core st)).
Proof. intros E. apply core_eq; [done|apply core_slots|apply core_jobs_map|exact E]. Qed.

Lemma core_update_slot i f g st :
  (forall s, timeless_slot (f s) = timeless_slot (g (timeless_slot s))) ->
  core (update_slot i f st) = core (update_slot i g (core st)).
Proof. intros F. apply core_set_slots. by apply map_update_first. Qed.
Lemma core_update_jobs p f g st :
  (forall j, p (timeless_job j) = p j) ->
  (forall j, timeless_job (f j) = timeless_job (g (timeless_job j))) ->
  core (set_jobs (update_first p f (jobs st)) st)
  = core (set_jobs (update_first p g (jobs (core st))) (core st)).
Proof. intros P F. apply core_set_jobs. by apply map_update_first. Qed.
Lemma core_update_job k f g st :
  (forall j, timeless_job (f j) = timeless_job (g (timeless_job j))) ->
  core (update_job k f st) = core (update_job k g (core st)).
Proof. intros F. by apply core_update_jobs. Qed.

(** Updating a pending row. *)
Lemma core_update_outbox k f g r st :
  find_outbox k st = Some r -> is_pending r = true ->
  (forall x, timeless_row (f x) = timeless_row (g (timeless_row x))) ->
  core (update_outbox k f st) = core (update_outbox k g (core st)).
Proof.
  intros F P E. unfold update_outbox. apply core_set_outbox. cbn [outbox core].
  assert (Pe : forall x, is_pending (f x) = is_pending (g (timeless_row x))).
  { intros x. change (is_pending (timeless_row (f x)) = is_pending (timeless_row (g (timeless_row x)))).
    by rewrite E. }
  unfold find_outbox in F. induction (outbox st) as [|x l IH]; [done|].
  rewrite find_key_cons in F. cbn [update_first]. unfold outbox_is, key_is in *. case_decide as K.
  - injection F as ->. rewrite bool_decide_eq_true_2 by done. cbn [List.filter]. rewrite P. cbn [map update_first].
    change (o_job_id (timeless_row r)) with (o_job_id r). rewrite bool_decide_eq_true_2 by done.
    cbn [List.filter]. rewrite <- Pe. rewrite (filter_map is_pending timeless_row), filter_idem by done.
    destruct (is_pending (f r)); cbn [map]; rewrite ?E, ?map_map; done.
  - rewrite bool_decide_eq_false_2 by done. cbn [List.filter].
    destruct (is_pending x) eqn:Px; cbn [map update_first]; [|by apply IH].
    change (o_job_id (timeless_row x)) with (o_job_id x). rewrite bool_decide_eq_false_2 by done.
    cbn [List.filter]. change (is_pending (timeless_row x)) with (is_pending x). rewrite Px. cbn [map].
    f_equal. by apply IH.
Qed.

Lemma core_restore st k :
  core (restore_slot_after_job_removal st k).1 = core (restore_slot_after_job_removal (core st) k).1.
Proof.
  unfold restore_slot_after_job_removal. rewrite core_find_job.
  destruct (find_job k st) as [j|]; cbn [option_map fst]; [|by rewrite core_idem].
  change (j_slot_id (timeless_job j)) with (j_slot_id j).
  change (j_generation (timeless_job j)) with (j_generation j).
  set (js := List.filter (fun item => negb (job_is k item)) (jobs st)).
  set (js' := List.filter (fun item => negb (job_is k item)) (jobs (core st))).
  assert (E : core (set_jobs js st) = core (set_jobs js' (core st))).
  { apply core_set_jobs. subst js js'. rewrite core_jobs, filter_map by done. by rewrite map_map. }
  change (find_slot (j_slot_id j) (set_jobs js' (core st))) with (find_slot (j_slot_id j) (core st)).
  change (find_slot (j_slot_id j) (set_jobs js st)) with (find_slot (j_slot_id j) st).
  rewrite core_find_slot. destruct (find_slot (j_slot_id j) st) as [s|]; cbn [option_map]; [|done].
  change (s_generation (timeless_slot s)) with (s_generation s).
  change (s_phase (timeless_slot s)) with (s_phase s).
  change (ready_proof (timeless_slot s)) with (ready_proof s).
  change (s_registered (timeless_slot s)) with (s_registered s).
  change (restored_phase (timeless_slot s)) with (restored_phase s).
  destruct (negb _); [done|]. destruct (bool_decide _); [done|].
  assert (U : core (update_slot (j_slot_id j) (slot_set_phase (restored_phase s)) (set_jobs js st))
            = core (update_slot (j_slot_id j) (slot_set_phase (restored_phase s)) (set_jobs js' (core st)))).
  { rewrite (core_update_slot _ _ (slot_set_phase (restored_phase s)) (set_jobs js st)) by done.
    rewrite E. symmetry. by apply core_update_slot. }
  by destruct (is_ok _ && _).
Qed.

(** ** The simulation *)

(** Two outcomes of the same event: on a state whose admission may be
    [blocked], and on its core. *)
Inductive agree (blocked : bool) : ReduceOutcome -> ReduceOutcome -> Prop :=
| agree_accept st st' cmds cmds' :
    core st = core st' -> agree blocked (accept st cmds) (accept st' cmds')
| agree_reject st st' : agree blocked (reject st) (reject st')
| agree_blocked st o : blocked = true -> agree blocked (reject st) o.

Lemma agree_if b (c : bool) o1 o2 o1' o2' :
  agree b o1 o1' -> agree b o2 o2' -> agree b (if c then o1 else o2) (if c then o1' else o2').
Proof. by destruct c. Qed.

(** The budget without its deadline. *)
Definition spent (r : OutboxRecord) : bool := o_permanent r || (MAX_COMPLETION_ATTEMPTS <=? o_attempts r).

(** The two events whose fate a core does not determine. *)
Definition determined (now : Z) (st : FleetState) (ev : Event) : Prop :=
  match ev with
  | Ev.CompletionIntended k _ _ => forall r, find_outbox k st = Some r -> is_pending r = true
  | Ev.CompletionUnresolvable k _ _ =>
      forall r, find_outbox k st = Some r -> budget_exhausted now r = spent r
  | _ => True
  end.

Section Arms.
Context (st : FleetState) (I : JInv st).
#[local] Abbreviation blocked := (fleet_admission_blocked st).

(** Read through the erasure of a slot, a job or a completion row. *)
Ltac see_through :=
  repeat match goal with
  | |- context [s_generation (timeless_slot ?s)] =>
      change (s_generation (timeless_slot s)) with (s_generation s)
  | |- context [s_phase (timeless_slot ?s)] => change (s_phase (timeless_slot s)) with (s_phase s)
  | |- context [s_registered (timeless_slot ?s)] =>
      change (s_registered (timeless_slot s)) with (s_registered s)
  | |- context [ready_proof (timeless_slot ?s)] =>
      change (ready_proof (timeless_slot s)) with (ready_proof s)
  | |- context [slot_refuses ?g (timeless_slot ?s)] =>
      change (slot_refuses g (timeless_slot s)) with (slot_refuses g s)
  | |- context [j_generation (timeless_job ?j)] =>
      change (j_generation (timeless_job j)) with (j_generation j)
  | |- context [j_slot_id (timeless_job ?j)] => change (j_slot_id (timeless_job j)) with (j_slot_id j)
  | |- context [j_phase (timeless_job ?j)] => change (j_phase (timeless_job j)) with (j_phase j)
  | |- context [j_provisional (timeless_job ?j)] =>
      change (j_provisional (timeless_job j)) with (j_provisional j)
  | |- context [j_plan_id (timeless_job ?j)] => change (j_plan_id (timeless_job j)) with (j_plan_id j)
  | |- context [j_run_service_url (timeless_job ?j)] =>
      change (j_run_service_url (timeless_job j)) with (j_run_service_url j)
  | |- context [j_terminal_conclusion (timeless_job ?j)] =>
      change (j_terminal_conclusion (timeless_job j)) with (j_terminal_conclusion j)
  | |- context [o_generation (timeless_row ?r)] =>
      change (o_generation (timeless_row r)) with (o_generation r)
  | |- context [o_slot_id (timeless_row ?r)] => change (o_slot_id (timeless_row r)) with (o_slot_id r)
  | |- context [o_send_started (timeless_row ?r)] =>
      change (o_send_started (timeless_row r)) with (o_send_started r)
  | |- context [o_payload_sha256 (timeless_row ?r)] =>
      change (o_payload_sha256 (timeless_row r)) with (o_payload_sha256 r)
  | |- context [is_pending (timeless_row ?r)] =>
      change (is_pending (timeless_row r)) with (is_pending r)
  | |- context [outbox_owner_is_proven ?x (timeless_row ?r)] =>
      change (outbox_owner_is_proven x (timeless_row r)) with (outbox_owner_is_proven x r)
  end.

Ltac read_core :=
  rewrite ?core_slot_blocked, ?core_active, ?core_slot_generation, ?core_job_slot_generation,
    ?core_find_job, ?core_find_slot, ?core_proven, ?core_jobs, ?existsb_map.

(** An arm that opens a slot: the guards decide alike on the slot and on its
    erasure, apart from the admission latch. *)
Ltac sim_slot i st :=
  read_core; rewrite core_slot_mut;
  let st1 := fresh "st1" in let s := fresh "s" in
  destruct (slot_mut i st) as [st1 s]; cbn [fst snd]; see_through; read_core;
  rewrite ?core_admits;
  try (destruct (fleet_admission_blocked st); [rewrite ?orb_true_r; by constructor|]);
  repeat (apply agree_if); repeat constructor.

Lemma permit_reserved_agrees i g :
  agree blocked (reduce_permit_reserved st i g) (reduce_permit_reserved (core st) i g).
Proof.
  unfold reduce_permit_reserved. sim_slot i st. apply core_update_slot. intros x.
  unfold reserved_slot, timeless_slot. cbn. by destruct (s_generation x <? g).
Qed.
Lemma executor_proven_agrees i g :
  agree blocked (reduce_executor_proven st i g) (reduce_executor_proven (core st) i g).
Proof. unfold reduce_executor_proven. sim_slot i st. by apply core_update_slot. Qed.
Lemma session_live_agrees i g :
  agree blocked (reduce_session_live st i g) (reduce_session_live (core st) i g).
Proof. unfold reduce_session_live. sim_slot i st. by apply core_update_slot. Qed.
Lemma registration_intended_agrees i g :
  agree blocked (reduce_registration_intended st i g) (reduce_registration_intended (core st) i g).
Proof. unfold reduce_registration_intended. sim_slot i st. by rewrite core_idem. Qed.
Lemma registered_agrees i g :
  agree blocked (reduce_registered st i g) (reduce_registered (core st) i g).
Proof. unfold reduce_registered. sim_slot i st. by apply core_update_slot. Qed.
Lemma registration_lost_agrees i g :
  agree blocked (reduce_registration_lost st i g) (reduce_registration_lost (core st) i g).
Proof. unfold reduce_registration_lost. sim_slot i st. by apply core_update_slot. Qed.
Lemma ready_attempt_agrees i g :
  agree blocked (reduce_ready_attempt st i g) (reduce_ready_attempt (core st) i g).
Proof. unfold reduce_ready_attempt. sim_slot i st. by apply core_update_slot. Qed.
Lemma heartbeat_agrees now i g pid :
  agree blocked (reduce_heartbeat now st i g pid) (reduce_heartbeat 0 (core st) i g pid).
Proof. unfold reduce_heartbeat. sim_slot i st. by apply core_update_slot. Qed.
Lemma slot_stale_agrees i g :
  agree blocked (reduce_slot_stale st i g) (reduce_slot_stale (core st) i g).
Proof. unfold reduce_slot_stale. sim_slot i st. by apply core_update_slot. Qed.
Lemma pressure_fence_agrees i g :
  agree blocked (reduce_pressure_fence st i g) (reduce_pressure_fence (core st) i g).
Proof. unfold reduce_pressure_fence. sim_slot i st. by apply core_update_slot. Qed.

Lemma acquisition_intended_agrees i k g url t :
  agree blocked (reduce_acquisition_intended st i k g url t) (reduce_acquisition_intended (core st) i k g url t).
Proof.
  unfold reduce_acquisition_intended. sim_slot i st. apply core_eq; [done| | |apply core_outbox].
  - by apply map_update_first.
  - cbn [jobs set_jobs update_slot set_slots core]. by rewrite !map_app, map_map.
Qed.

(** *** Jobs *)

Lemma core_target_taken p a : target_taken (core st) p a = target_taken st p a.
Proof. unfold target_taken. by rewrite core_jobs, existsb_map. Qed.
Lemma core_find_provisional k g :
  List.find (provisional_row k g) (jobs (core st)) = option_map timeless_job (List.find (provisional_row k g) (jobs st)).
Proof. rewrite core_jobs. by apply find_map. Qed.

Lemma acquisition_resolved_agrees p a plan g :
  agree blocked (reduce_acquisition_resolved st p a plan g) (reduce_acquisition_resolved (core st) p a plan g).
Proof.
  unfold reduce_acquisition_resolved. rewrite core_find_provisional, core_target_taken.
  destruct (List.find _ _); cbn [option_map]; [|constructor]. apply agree_if; constructor. by apply core_update_jobs.
Qed.
Lemma acquisition_resolved_at_endpoint_agrees p a plan g url :
  agree blocked (reduce_acquisition_resolved_at_endpoint st p a plan g url)
    (reduce_acquisition_resolved_at_endpoint (core st) p a plan g url).
Proof.
  unfold reduce_acquisition_resolved_at_endpoint. rewrite core_find_provisional, core_target_taken.
  destruct (List.find _ _); cbn [option_map]; [|constructor]. apply agree_if; constructor. by apply core_update_jobs.
Qed.
Lemma probe_failed_agrees k g :
  agree blocked (reduce_probe_failed st k g) (reduce_probe_failed (core st) k g).
Proof.
  unfold reduce_probe_failed. rewrite core_find_provisional.
  destruct (List.find _ _); cbn [option_map]; constructor. by apply core_update_jobs.
Qed.

Lemma restore_agrees st1 st1' k cmds cmds' : core st1 = core st1' ->
  agree blocked (let '(st2, c) := restore_slot_after_job_removal st1 k in accept st2 (cmds ++ c))
    (let '(st2, c) := restore_slot_after_job_removal st1' k in accept st2 (cmds' ++ c)).
Proof.
  intros E. rewrite (surjective_pairing (restore_slot_after_job_removal st1 k)).
  rewrite (surjective_pairing (restore_slot_after_job_removal st1' k)).
  constructor. by rewrite core_restore, E, <- core_restore.
Qed.

Lemma acquisition_lost_agrees k g :
  agree blocked (reduce_acquisition_lost st k g) (reduce_acquisition_lost (core st) k g).
Proof.
  unfold reduce_acquisition_lost. read_core. apply agree_if; [|constructor].
  apply (restore_agrees st (core st) k [] []). by rewrite core_idem.
Qed.

Lemma job_owned_agrees k i n g w t :
  agree blocked (reduce_job_owned st k i n g w t) (reduce_job_owned (core st) k i n g w t).
Proof.
  unfold reduce_job_owned, terminal_handoff_row. read_core.
  replace (match option_map timeless_slot (find_slot i st) with Some s => Some (s_phase s) | None => None end)
    with (match find_slot i st with Some s => Some (s_phase s) | None => None end) by (by destruct (find_slot i st)).
  apply agree_if; [constructor|].
  destruct (find_job k st) as [j|]; cbn [option_map]; see_through; constructor; apply core_set_jobs;
    rewrite !map_app; f_equal; by rewrite filter_map, map_map.
Qed.

Lemma job_started_agrees k g :
  agree blocked (reduce_job_started st k g) (reduce_job_started (core st) k g).
Proof.
  unfold reduce_job_started. read_core. destruct (find_job k st) as [j|]; cbn [option_map]; [|constructor].
  see_through. apply agree_if; constructor. by apply core_update_job.
Qed.
Lemma terminal_result_agrees k g c :
  agree blocked (reduce_terminal_result st k g c) (reduce_terminal_result (core st) k g c).
Proof.
  unfold reduce_terminal_result. read_core. destruct (find_job k st) as [j|]; cbn [option_map]; [|constructor].
  see_through. apply agree_if; constructor. by apply core_update_job.
Qed.
Lemma cleanup_intended_agrees i iso g :
  agree blocked (reduce_cleanup_intended st i iso g) (reduce_cleanup_intended (core st) i iso g).
Proof. unfold reduce_cleanup_intended. read_core. apply agree_if; constructor. by rewrite core_idem. Qed.

(** *** Completions *)

Lemma core_update_settled k f r st1 :
  find_outbox k st1 = Some r -> is_pending r = true ->
  (forall x, timeless_row (f x) = timeless_row (f (timeless_row x))) ->
  core (update_outbox k f st1) = core (update_outbox k f (core st1)).
Proof. intros. by eapply core_update_outbox. Qed.

Lemma completion_intended_agrees now k g sha :
  (forall r, find_outbox k st = Some r -> is_pending r = true) ->
  agree blocked (reduce_completion_intended now st k g sha) (reduce_completion_intended 0 (core st) k g sha).
Proof.
  intros D. unfold reduce_completion_intended. read_core. rewrite (core_find_outbox _ _ I).
  destruct (find_job k st) as [j|]; cbn [option_map]; [|constructor]. see_through. read_core.
  apply agree_if; [constructor|]. destruct (find_outbox k st) as [r|].
  - pose proof (D r eq_refl) as P. rewrite P. see_through. read_core. rewrite P. apply agree_if; [constructor|].
    apply agree_if; constructor; [by apply core_update_job|by rewrite core_idem].
  - constructor. apply core_eq; [done|apply core_slots|by apply map_update_first|].
    cbn [outbox set_outbox]. rewrite !List.filter_app, !map_app. f_equal. apply core_outbox.
Qed.
Lemma send_started_agrees k g :
  agree blocked (reduce_send_started st k g) (reduce_send_started (core st) k g).
Proof.
  unfold reduce_send_started. rewrite (core_find_outbox _ _ I).
  destruct (find_outbox k st) as [r|] eqn:F; [|constructor].
  destruct (is_pending r) eqn:P; [|rewrite andb_false_r; constructor].
  see_through. read_core. rewrite P. apply agree_if; constructor. by eapply core_update_settled.
Qed.
Lemma attempt_failed_agrees k g b :
  agree blocked (reduce_attempt_failed st k g b) (reduce_attempt_failed (core st) k g b).
Proof.
  unfold reduce_attempt_failed. rewrite (core_find_outbox _ _ I).
  destruct (find_outbox k st) as [r|] eqn:F; [|constructor].
  destruct (is_pending r) eqn:P; [|rewrite andb_false_r; constructor].
  see_through. read_core. rewrite P. apply agree_if; constructor. by eapply core_update_settled.
Qed.
Lemma remote_acked_agrees k g :
  agree blocked (reduce_remote_acked st k g) (reduce_remote_acked (core st) k g).
Proof.
  unfold reduce_remote_acked. rewrite (core_find_outbox _ _ I). read_core.
  destruct (find_outbox k st) as [r|] eqn:F; [|constructor].
  destruct (is_pending r) eqn:P; [|rewrite andb_false_r; constructor].
  see_through. read_core. rewrite P.
  replace (match option_map timeless_job (find_job k st) with
           | Some job => match find_slot (j_slot_id job) (core st) with
                         | Some s => Some (j_generation job, s_generation s) | None => None end
           | None => None end)
    with (match find_job k st with
          | Some job => match find_slot (j_slot_id job) st with
                        | Some s => Some (j_generation job, s_generation s) | None => None end
          | None => None end).
  2: { destruct (find_job k st) as [j|]; [|done]. cbn [option_map]. see_through. rewrite core_find_slot.
       by destruct (find_slot (j_slot_id j) st). }
  apply agree_if; [|constructor].
  apply (restore_agrees _ _ k [_] [_]). by eapply core_update_settled.
Qed.
Lemma abandon_agrees k g r :
  find_outbox k st = Some r -> is_pending r = true -> agree blocked (abandon st k g) (abandon (core st) k g).
Proof.
  intros F P. unfold abandon. apply (restore_agrees _ _ k [_] [_]). by eapply core_update_settled.
Qed.
Lemma unresolvable_agrees now k g :
  (forall r, find_outbox k st = Some r -> budget_exhausted now r = spent r) ->
  agree blocked (reduce_unresolvable now st k g) (reduce_unresolvable 0 (core st) k g).
Proof.
  intros D. unfold reduce_unresolvable. rewrite (core_find_outbox _ _ I).
  destruct (find_outbox k st) as [r|] eqn:F; [|constructor].
  destruct (is_pending r) eqn:P; [|rewrite andb_false_r; constructor].
  see_through. read_core. rewrite P, (D r) by done.
  replace (budget_exhausted 0 (timeless_row r)) with (spent r) by (unfold budget_exhausted, spent; cbn; by rewrite orb_false_r).
  apply agree_if; [by eapply abandon_agrees|constructor].
Qed.
Lemma payload_lost_agrees k g sha :
  agree blocked (reduce_payload_lost st k g sha) (reduce_payload_lost (core st) k g sha).
Proof.
  unfold reduce_payload_lost. rewrite (core_find_outbox _ _ I). read_core.
  destruct (find_outbox k st) as [r|] eqn:F; [|constructor].
  destruct (is_pending r) eqn:P; [|rewrite andb_false_r; constructor].
  see_through. read_core. rewrite P. apply agree_if; [by eapply abandon_agrees|constructor].
Qed.
Lemma worker_lost_agrees k g :
  agree blocked (reduce_worker_lost st k g) (reduce_worker_lost (core st) k g).
Proof.
  unfold reduce_worker_lost. read_core. destruct (find_job k st) as [j|]; cbn [option_map]; [|constructor].
  see_through. read_core. apply agree_if; [|constructor].
  replace (existsb (fun row => outbox_is k row && (o_generation row =? g) && is_pending row) (outbox (core st)))
    with (existsb (fun row => outbox_is k row && (o_generation row =? g) && is_pending row) (outbox st)).
  2: { cbn [outbox core]. rewrite existsb_map, existsb_filter. apply existsb_ext. intros r.
       change (is_pending (timeless_row r)) with (is_pending r).
       destruct (is_pending r); [done|by rewrite andb_false_r]. }
  apply agree_if; [|constructor; by rewrite core_idem].
  apply (restore_agrees st (core st) k [] []). by rewrite core_idem.
Qed.

Lemma package_retire_agrees g :
  agree blocked (reduce_package_retire st g) (reduce_package_retire (core st) g).
Proof.
  unfold reduce_package_retire. cbn [package_generation core jobs outbox].
  replace (bool_decide (map timeless_job (jobs st) <> [])) with (bool_decide (jobs st <> []))
    by (apply bool_decide_ext; by destruct (jobs st)).
  rewrite existsb_map, existsb_filter.
  rewrite (existsb_ext (fun r => is_pending r && is_pending (timeless_row r)) is_pending)
    by (intros r; apply andb_diag).
  apply agree_if; constructor. apply core_eq; [done|apply core_slots|apply core_jobs_map|apply core_outbox].
Qed.
Lemma routing_agrees v w : agree blocked (reduce_routing st v w) (reduce_routing (core st) v w).
Proof.
  constructor. apply core_eq; [done| |apply core_jobs_map|apply core_outbox].
  cbn. by rewrite !map_map.
Qed.

(** An event whose fate the core determines acts on a state as on its core. *)
Lemma reduce_agrees now ev :
  determined now st ev -> agree blocked (reduce now st ev) (reduce 0 (core st) ev).
Proof.
  destruct ev; intros D; cbn [reduce determined] in *;
    auto using permit_reserved_agrees, executor_proven_agrees, session_live_agrees,
      registration_intended_agrees, registered_agrees, registration_lost_agrees, ready_attempt_agrees,
      heartbeat_agrees, slot_stale_agrees, pressure_fence_agrees, acquisition_intended_agrees,
      acquisition_resolved_agrees, acquisition_resolved_at_endpoint_agrees, probe_failed_agrees,
      acquisition_lost_agrees, job_owned_agrees, job_started_agrees, terminal_result_agrees,
      cleanup_intended_agrees, completion_intended_agrees, send_started_agrees, attempt_failed_agrees,
      remote_acked_agrees, unresolvable_agrees, payload_lost_agrees, worker_lost_agrees,
      package_retire_agrees, routing_agrees;
    constructor; (apply core_eq; [done|apply core_slots|apply core_jobs_map|apply core_outbox]).
Qed.
End Arms.

Lemma agree_accepted b o o' : agree b o o' -> rejected o = false ->
  rejected o' = false /\ core (state o) = core (state o').
Proof. by intros [] ?. Qed.
Lemma agree_accepted_back b o o' : agree b o o' -> b = false -> rejected o' = false ->
  rejected o = false /\ core (state o) = core (state o').
Proof. intros [] ? ?; cbn in *; [done|done|congruence]. Qed.

(** ** One event, written and replayed *)

(** The completion an event gives up on has spent its budget otherwise than
    by reaching its deadline. *)
Definition timely (st : FleetState) (ev : Event) : Prop :=
  match ev with
  | Ev.CompletionUnresolvable k _ _ => forall r, find_outbox k st = Some r -> spent r = true
  | _ => True
  end.

(** No row of the state settled the job an event intends to complete. *)
Definition unsettled (st : FleetState) (ev : Event) : Prop :=
  match ev with
  | Ev.CompletionIntended k _ _ => forall r, find_outbox k st = Some r -> is_pending r = true
  | _ => True
  end.

Lemma spent_exhausted now r : spent r = true -> budget_exhausted now r = spent r.
Proof. intros S. unfold budget_exhausted, spent in *. by rewrite S. Qed.

Lemma accepted_determined now st ev :
  rejected (reduce now st ev) = false -> timely st ev -> determined now st ev.
Proof.
  destruct ev; intros A T; try done; cbn [determined timely reduce] in *.
  - intros r F. unfold reduce_completion_intended in A. destruct (find_job job_id st); [|done].
    destruct (_ || _); [done|]. rewrite F in A. destruct (is_pending r); [done|].
    rewrite orb_true_r in A. done.
  - intros r F. by apply spent_exhausted, T.
Qed.

Lemma replayed_determined now st ev :
  JInv st -> rejected (reduce 0 (core st) ev) = false -> unsettled st ev -> determined now st ev.
Proof.
  destruct ev; intros I A T; try done. cbn [determined reduce] in *. intros r F.
  unfold reduce_unresolvable in A. rewrite (core_find_outbox _ _ I), F in A.
  destruct (is_pending r); [|done]. destruct (_ && _) eqn:C in A; [|done].
  apply andb_true_iff in C as [_ C]. apply spent_exhausted.
  unfold budget_exhausted in C. cbn in C. by rewrite orb_false_r in C.
Qed.

(** An event the writer accepted is accepted by the replay, and both reach
    states of the same core. *)
Lemma reduce_replays now now' ms rs ev :
  JInv ms -> JInv rs -> core rs = core ms -> fleet_admission_blocked rs = false ->
  timely ms ev -> unsettled rs ev -> rejected (reduce now ms ev) = false ->
  rejected (reduce now' rs ev) = false /\
  core (state (reduce now' rs ev)) = core (state (reduce now ms ev)).
Proof.
  intros Im Ir E B T U A.
  destruct (agree_accepted _ _ _ (reduce_agrees ms Im now ev (accepted_determined _ _ _ A T)) A) as [Ac Ec].
  rewrite <- E in Ac, Ec.
  destruct (agree_accepted_back _ _ _ (reduce_agrees rs Ir now' ev (replayed_determined _ _ _ Ir Ac U)) B Ac)
    as [Ar Er].
  split; [done|congruence].
Qed.

(** ** What a reducer step leaves alone *)

Definition latches (st : FleetState) := (drain_active st, admission_blocked st, execution_backend st).

Lemma restore_frame st k :
  latches (restore_slot_after_job_removal st k).1 = latches st /\
  journal_writable (restore_slot_after_job_removal st k).1 = journal_writable st.
Proof. unfold restore_slot_after_job_removal. by repeat case_match. Qed.
Lemma slot_mut_frame i st :
  latches (slot_mut i st).1 = latches st /\ journal_writable (slot_mut i st).1 = journal_writable st.
Proof. unfold slot_mut. by case_match. Qed.

Lemma reduce_frame now st ev :
  latches (state (reduce now st ev)) = latches st /\
  (journal_writable st = true -> journal_writable (state (reduce now st ev)) = true).
Proof.
  destruct ev; arm_cases; repeat case_match; cbn [state accept reject];
    try match goal with |- context [slot_mut ?i ?s] => pose proof (slot_mut_frame i s) as [<- <-] end;
    try match goal with |- context [restore_slot_after_job_removal ?s ?k] =>
      pose proof (restore_frame s k) as [-> ->] end;
    (split; [reflexivity|intros W; first [exact W|reflexivity]]).
Qed.

(** ** Settled completions *)

(** The events that settle the completion of a job. *)
Definition settles (k : JobId) (ev : Event) : bool :=
  match ev with
  | Ev.RemoteAcked k' _ | Ev.RemoteObservedTerminal k' _ | Ev.CompletionUnresolvable k' _ _
  | Ev.CompletionPayloadLost k' _ _ _ => bool_decide (k' = k)
  | _ => false
  end.

Definition settled (k : JobId) (st : FleetState) : Prop :=
  exists r, find_outbox k st = Some r /\ is_pending r = false.

Lemma settled_same k st st' : outbox st' = outbox st -> settled k st' -> settled k st.
Proof. intros E. unfold settled, find_outbox. by rewrite E. Qed.
Lemma settled_update k k' f st st' :
  outbox st' = update_first (outbox_is k') f (outbox st) -> (forall x, o_job_id (f x) = o_job_id x) ->
  (forall x, is_pending (f x) = is_pending x) \/ k' <> k -> settled k st' -> settled k st.
Proof.
  intros E K P (r & F & S). change (find_outbox k st' = Some r) in F.
  replace (find_outbox k st') with (find_outbox k (update_outbox k' f st)) in F
    by (unfold find_outbox, update_outbox; cbn; by rewrite E).
  rewrite find_outbox_update in F by done. case_decide as D; [|by exists r].
  destruct (find_outbox k' st) as [r0|] eqn:F0; [|by subst]. cbn in F. injection F as <-. subst k'.
  destruct P as [P|]; [|done]. exists r0. by rewrite <- P.
Qed.

Lemma reduce_settled now st ev k :
  settled k (state (reduce now st ev)) -> settles k ev = true \/ settled k st.
Proof.
  destruct ev; arm_cases; repeat case_match; cbn [state accept reject settles]; intros S;
    try (right; exact S);
    try (right; revert S; apply settled_same; first [reflexivity | cbn; apply slot_mut_rest | apply restore_outbox]).
  all: try (destruct (decide (job_id = k)); [left; by apply bool_decide_eq_true_2|right]).
  all: try (revert S; eapply settled_update;
    [rewrite restore_outbox; reflexivity|reflexivity|by right]).
  - right. destruct S as (r & F & P). rewrite (find_outbox_snoc _ job_id) in F by done.
    case_decide; [|by exists r]. by injection F as <-.
  - right. revert S. eapply settled_update; [reflexivity|reflexivity|by left].
  - right. revert S. eapply settled_update; [reflexivity|reflexivity|by left].
Qed.

(** ** Batches *)

(** No job identity is completed again after its completion settled. *)
Definition completes_once (log : list Event) : Prop :=
  forall l1 k g sha l2, log = l1 ++ Ev.CompletionIntended k g sha :: l2 ->
    Forall (fun e => settles k e = false) l1.

(** Every give-up of a batch is timely in the state it meets. *)
Fixpoint timely_batch (gd : Event -> result unit ReplayError) (now : Z) (pressure : bool) (w : Writer) (evs : list Event) : Prop :=
  match evs with
  | [] => True
  | ev :: evs =>
      timely (w_state w) ev /\
      match write_one gd now pressure w ev with
      | Ok w' => timely_batch gd now pressure w' evs
      | Err _ => True
      end
  end.

(** A state the replay of [log] reaches, beside the writer's. *)
Record follows (log : list Event) (ms rs : FleetState) : Prop := {
  fo_core : core rs = core ms;
  fo_writer : JInv ms;
  fo_replay : JInv rs;
  fo_open : latches rs = (false, false, Docker);
  fo_settled : forall k, settled k rs -> Exists (fun e => settles k e = true) log;
}.

Lemma follows_admits log ms rs : follows log ms rs -> fleet_admission_blocked rs = false.
Proof. intros F. pose proof (fo_open _ _ _ F) as [= D A _]. unfold fleet_admission_blocked. by rewrite D, A. Qed.

Lemma completes_once_unsettled log ev l2 ms rs :
  follows log ms rs -> completes_once (log ++ ev :: l2) -> unsettled rs ev.
Proof.
  intros F C. destruct ev; try done. intros r E. destruct (is_pending r) eqn:P; [done|].
  specialize (C log _ _ _ l2 eq_refl).
  assert (S : settled job_id rs) by (by exists r). apply (fo_settled _ _ _ F) in S.
  exfalso. apply Exists_exists in S as (e & E1 & E2). eapply Forall_forall in C; [|done].
  cbn in C. congruence.
Qed.

Lemma timely_stamp now st ev : timely st ev -> timely st (stamp_event now ev).
Proof. destruct ev; try done. cbn. by case_match. Qed.

(** One accepted event extends the log and the replay. *)
Lemma follows_step now now' log ms rs ev :
  follows log ms rs -> timely ms ev -> unsettled rs ev -> rejected (reduce now ms ev) = false ->
  rejected (reduce now' rs ev) = false /\
  follows (log ++ [ev]) (state (reduce now ms ev)) (state (reduce now' rs ev)).
Proof.
  intros F T U A.
  destruct (reduce_replays now now' ms rs ev (fo_writer _ _ _ F) (fo_replay _ _ _ F) (fo_core _ _ _ F)
    (follows_admits _ _ _ F) T U A) as [Ar E].
  split; [done|]. split; [done| | | |].
  - apply reduce_inv, F.
  - apply reduce_inv, F.
  - rewrite (proj1 (reduce_frame now' rs ev)). apply F.
  - intros k S%reduce_settled. apply Exists_app. destruct S as [S|S]; [right; by constructor|left].
    by apply (fo_settled _ _ _ F).
Qed.

Section History.
Context (encode : Event -> string) (decode : string -> option Event).
Context (decode_baseline : string -> option ReplayBaseline) (sha256_hex : string -> string).
Hypothesis decode_encode : forall e, decode (encode e) = Some e.

#[local] Abbreviation row := (event_row encode sha256_hex).
#[local] Abbreviation replay' := (replay decode sha256_hex).

(** The replay of the log so far and of the batch's own rows. *)
Definition replayed (now' : Z) (seed : FleetState) (log : list Event) (w : Writer) : Prop :=
  exists rs, replay' now' (map row (log ++ w_pending w)) seed = Ok rs /\
    follows (log ++ w_pending w) (w_state w) rs.

Lemma replay_one now st e : fits (event_generation e) -> rejected (reduce now st e) = false ->
  replay' now [row e] st = Ok (state (reduce now st e)).
Proof. intros G R. cbn. rewrite (decode_event_row _ _ _ decode_encode) by done. cbn. by rewrite R. Qed.

Lemma write_one_replayed gd now now' p seed log w ev w' :
  fits (event_generation ev) -> timely (w_state w) ev ->
  write_one gd now p w ev = Ok w' -> completes_once (log ++ w_pending w') ->
  replayed now' seed log w -> replayed now' seed log w'.
Proof.
  intros G T H C (rs & R & F). unfold write_one in H. destruct (gd ev) as [[]|]; [|done]. cbn [result_bind] in H. unfold reduce_and_log in H.
  set (ev' := stamp_event now ev) in *.
  destruct (p && admits_work ev') eqn:P; cbn [rejected reject] in H; [injection H as <-; by exists rs|].
  destruct (rejected (reduce now (w_state w) ev')) eqn:A; [injection H as <-; by exists rs|].
  destruct (revoked_launch ev'); [|done]. cbn [result_bind] in H. injection H as <-.
  cbn [w_pending w_state] in *.
  destruct (bool_decide _ && bool_decide _) eqn:U.
  { apply andb_true_iff in U as [_ U%bool_decide_eq_true]. exists rs. cbn [w_pending w_state].
    rewrite U. done. }
  rewrite app_assoc in C.
  destruct (follows_step now now' _ _ _ ev' F (timely_stamp _ _ _ T)
    (completes_once_unsettled _ _ [] _ _ F C) A) as [Ar F'].
  exists (state (reduce now' rs ev')). cbn [w_pending w_state]. rewrite app_assoc. split; [|done].
  rewrite map_app. erewrite replay_app by exact R. apply replay_one; [|done].
  subst ev'. by rewrite stamp_keeps_generation.
Qed.

Lemma write_one_pending gd now p w ev w' : write_one gd now p w ev = Ok w' ->
  exists l, w_pending w' = w_pending w ++ l.
Proof.
  unfold write_one. intros H. destruct (gd ev) as [[]|]; [|done]. cbn [result_bind] in H. unfold reduce_and_log in H.
  destruct (rejected _); [injection H as <-; exists []; by rewrite app_nil_r|].
  destruct (revoked_launch _); [|done]. cbn [result_bind] in H. injection H as <-. cbn [w_pending].
  destruct (_ && _); [exists []; by rewrite app_nil_r|by eexists].
Qed.
Lemma write_all_pending gd now p evs w w' : write_all gd now p w evs = Ok w' ->
  exists l, w_pending w' = w_pending w ++ l.
Proof.
  revert w. induction evs as [|ev evs IH]; intros w H; cbn in H.
  { injection H as <-. exists []. by rewrite app_nil_r. }
  destruct (write_one gd now p w ev) as [w1|] eqn:E; [|done]. cbn in H.
  apply IH in H as [l2 ->]. apply write_one_pending in E as [l1 ->]. exists (l1 ++ l2). by rewrite app_assoc.
Qed.

Lemma completes_once_prefix l1 l2 : completes_once (l1 ++ l2) -> completes_once l1.
Proof.
  intros C a k g sha b ->. apply (C a k g sha (b ++ l2)). by rewrite <- app_assoc.
Qed.

Lemma write_all_replayed gd now now' p seed log evs w w' :
  Forall (fun ev => fits (event_generation ev)) evs -> timely_batch gd now p w evs ->
  write_all gd now p w evs = Ok w' -> completes_once (log ++ w_pending w') ->
  replayed now' seed log w -> replayed now' seed log w'.
Proof.
  intros G. revert w. induction G as [|ev evs G _ IH]; intros w T H C R; cbn in H; [by injection H as <-|].
  destruct T as [T Ts]. destruct (write_one gd now p w ev) as [w1|] eqn:E; [|done]. cbn in H.
  eapply IH; [done..|]. eapply write_one_replayed; [done..| |done].
  destruct (write_all_pending _ _ _ _ _ _ H) as [l L]. rewrite L, app_assoc in C. by eapply completes_once_prefix.
Qed.

Lemma write_all_frame gd now p evs w w' : write_all gd now p w evs = Ok w' ->
  latches (w_state w') = latches (w_state w) /\
  (journal_writable (w_state w) = true -> journal_writable (w_state w') = true).
Proof.
  revert w. induction evs as [|ev evs IH]; intros w H; cbn in H; [by injection H as <-|].
  destruct (write_one gd now p w ev) as [w1|] eqn:E; [|done]. cbn in H. apply IH in H as [H1 H2].
  assert (S : latches (w_state w1) = latches (w_state w) /\
    (journal_writable (w_state w) = true -> journal_writable (w_state w1) = true)).
  { unfold write_one in E. destruct (gd ev) as [[]|]; [|done]. cbn [result_bind] in E. unfold reduce_and_log in E.
    destruct (p && _); cbn [rejected reject] in E; [by injection E as <-|].
    destruct (rejected _); [by injection E as <-|]. destruct (revoked_launch _); [|done].
    cbn in E. injection E as <-. apply reduce_frame. }
  destruct S as [S1 S2]. split; [congruence|auto].
Qed.
End History.

(** ** The database *)

(** The verdict [load_state_from_conn_seed] takes after the replay. *)
Definition finish (legacy : bool) (st : FleetState) : FleetState :=
  set_capacity_invalid (capacity_invalid st || state_capacity_invalid st || legacy) st.

Lemma core_field {A} (f : FleetState -> A) st st' :
  (forall x, f (core x) = f x) -> core st = core st' -> f st = f st'.
Proof. intros F E. by rewrite <- (F st), <- (F st'), E. Qed.

Lemma core_scalars st st' : core st = core st' -> scalars st = scalars st'.
Proof. by apply core_field. Qed.

Lemma core_capacity st st' : core st = core st' -> state_capacity_invalid st = state_capacity_invalid st'.
Proof.
  apply core_field. intros x. unfold state_capacity_invalid. cbn [capacity_declared desired_ready slots core].
  by rewrite length_map.
Qed.

(** Settled rows are not pending. *)
Lemma pending_kept rows :
  List.filter is_pending (List.filter (fun r => negb (o_remote_acked r || o_abandoned r)) rows)
  = List.filter is_pending rows.
Proof.
  induction rows as [|r rows IH]; cbn [List.filter]; [done|]. unfold is_pending in *.
  destruct (o_remote_acked r) eqn:A, (o_abandoned r) eqn:B; cbn [negb orb List.filter];
    rewrite ?A, ?B, ?andb_false_r; cbn [negb andb]; try done.
  destruct (o_intended r); cbn [andb negb]; by rewrite IH.
Qed.

Lemma core_materialized legacy ms rs :
  core rs = core ms -> journal_writable ms = true -> execution_backend ms = Docker ->
  core (finish legacy rs) = core (materialized legacy ms).
Proof.
  intros E W X. pose proof (core_scalars _ _ E) as S. pose proof (core_capacity _ _ E) as Q.
  unfold scalars in S. injection S as S1 S2 S3 S4 S5 S6 S7 S8 S9 S10 S11 S12.
  apply core_eq.
  - unfold scalars, finish. cbn. by rewrite S1, S2, S3, S4, S5, S6, S7, S8, S9, S10, S11, S12, Q, W, X.
  - apply (f_equal slots E).
  - apply (f_equal jobs E).
  - cbn [outbox materialized]. rewrite pending_kept. apply (f_equal outbox E).
Qed.

Lemma finish_valid legacy st : capacity_invalid (finish legacy st) = false -> finish legacy st = st.
Proof.
  intros H. cbn in H. unfold finish. rewrite H. apply orb_false_iff in H as [H _].
  apply orb_false_iff in H as [H _]. destruct st; cbn in *. by subst.
Qed.

Lemma materialized_inv legacy st : JInv st -> JInv (materialized legacy st).
Proof. intros I. apply (JInv_tables (drop_settled st)); try done. by apply drop_settled_inv. Qed.

Lemma loaded_fixed legacy t ms : load_materialized_state legacy t = Ok ms ->
  journal_writable ms = true /\ execution_backend ms = Docker.
Proof.
  unfold load_materialized_state. intros H.
  repeat match type of H with
  | (let? _ := ?r in _) = _ => destruct r; cbn [result_bind] in H; [|done]
  end.
  by injection H as <-.
Qed.

(** The anchors survive every write. *)
Definition same_anchors (m m' : gmap string string) : Prop :=
  m' !! REPLAY_BASELINE_KEY = m !! REPLAY_BASELINE_KEY /\
  m' !! REPLAY_BASELINE_CHECKSUM_KEY = m !! REPLAY_BASELINE_CHECKSUM_KEY.

Lemma kept_anchor st (m : gmap string string) k :
  k = REPLAY_BASELINE_KEY \/ k = REPLAY_BASELINE_CHECKSUM_KEY -> k ∉ (meta_entries st).*1 ->
  ((list_to_map (meta_entries st) : gmap string string)
     ∪ filter (fun kv : string * string => kv.1 = REPLAY_BASELINE_KEY \/ kv.1 = REPLAY_BASELINE_CHECKSUM_KEY) m)
    !! k = m !! k.
Proof.
  intros K N. rewrite lookup_union_r by (by apply not_elem_of_list_to_map).
  destruct (m !! k) as [v|] eqn:E.
  - by apply map_lookup_filter_Some.
  - apply map_lookup_filter_None. by left.
Qed.

Lemma persist_anchors t st t' : persist_rows t st = Ok t' -> same_anchors (t_meta t) (t_meta t').
Proof.
  unfold persist_rows. intros H.
  destruct (insert_rows "slots" _ _); [|done]. destruct (insert_rows "jobs" _ _); [|done].
  destruct (insert_rows "outbox" _ _); [|done]. cbn [result_bind] in H. injection H as <-. cbn [t_meta].
  split; apply kept_anchor; auto; unfold meta_entries;
    destruct (drain_active st), (admission_blocked st); set_solver.
Qed.

(** *** Latch writes *)

Lemma parse_unsigned_range max s n : parse_unsigned max s = Some n -> 0 <= n <= max.
Proof.
  assert (D : forall t m, digits_value t = Some m -> 0 <= m).
  { unfold digits_value. intros t m. case_match; [|done]. intros [= <-]. lia. }
  unfold parse_unsigned. destruct (digits_value _) as [m|] eqn:E; [|done]. apply D in E.
  destruct (Z.leb_spec m max); [|done]. intros [= <-]. lia.
Qed.
Lemma parse_drain_range s n : parse_drain_value s = Some n -> is_u64 n.
Proof. unfold parse_drain_value. case_match; [|done]. apply parse_unsigned_range. Qed.
Lemma parse_admission_range s n : parse_admission_value s = Some n -> is_u64 n.
Proof. unfold parse_admission_value. case_match; [|done]. apply parse_unsigned_range. Qed.

(** Tables that differ in the two markers only. *)
Definition marker_write (t t' : JournalTables) : Prop :=
  t_slots t' = t_slots t /\ t_jobs t' = t_jobs t /\ t_outbox t' = t_outbox t /\
  (forall k, k <> "drain" -> k <> "admission" -> t_meta t' !! k = t_meta t !! k) /\
  (forall x, meta_marker parse_drain_value (t_meta t) "drain" = Ok x ->
     exists y, meta_marker parse_drain_value (t_meta t') "drain" = Ok y) /\
  (forall x, meta_marker parse_admission_value (t_meta t) "admission" = Ok x ->
     exists y, meta_marker parse_admission_value (t_meta t') "admission" = Ok y).

Lemma marker_write_refl t : marker_write t t.
Proof. split_and!; eauto. Qed.

Lemma marker_written parse t key other other_parse value n t' :
  key <> other -> (key = "drain" \/ key = "admission") -> parse value = Some n ->
  t' = set_meta key value t ->
  (forall k, k <> "drain" -> k <> "admission" -> t_meta t' !! k = t_meta t !! k) /\
  meta_marker parse (t_meta t') key = Ok (true, n) /\
  meta_marker other_parse (t_meta t') other = meta_marker other_parse (t_meta t) other.
Proof.
  intros N K P ->. cbn [set_meta t_meta]. unfold meta_marker. rewrite lookup_insert_eq, P.
  rewrite lookup_insert_ne by done. split_and!; try done. intros k K1 K2. apply lookup_insert_ne.
  destruct K; congruence.
Qed.
Lemma marker_deleted parse t key other other_parse t' :
  key <> other -> (key = "drain" \/ key = "admission") -> t' = delete_meta key t ->
  (forall k, k <> "drain" -> k <> "admission" -> t_meta t' !! k = t_meta t !! k) /\
  meta_marker parse (t_meta t') key = Ok (false, 0) /\
  meta_marker other_parse (t_meta t') other = meta_marker other_parse (t_meta t) other.
Proof.
  intros N K ->. cbn [delete_meta t_meta]. unfold meta_marker. rewrite lookup_delete_eq.
  rewrite lookup_delete_ne by done. split_and!; try done. intros k K1 K2. apply lookup_delete_ne.
  destruct K; congruence.
Qed.

Lemma set_drain_marker v t : is_u64 v -> marker_write t (set_drain_tx v t).1.
Proof.
  intros V. unfold set_drain_tx. set (eff := match t_meta t !! "drain" with Some _ => _ | None => _ end).
  assert (E : is_u64 eff).
  { subst eff. destruct (t_meta t !! "drain") as [s|]; [|done]. destruct (parse_drain_value s) eqn:P; [|done].
    apply parse_drain_range in P. unfold is_u64 in *. lia. }
  case_decide; cbn [fst]; [apply marker_write_refl|].
  destruct (marker_written parse_drain_value t "drain" "admission" parse_admission_value
    (String.append "requested:" (to_string eff)) eff _ ltac:(done) ltac:(auto)
    ltac:(unfold parse_drain_value; by rewrite strip_prefix_app, parse_to_string) eq_refl) as (M & D & A).
  split_and!; try done; intros x X; eauto. rewrite <- A in X. eauto.
Qed.
Lemma clear_drain_marker t : marker_write t (clear_drain_tx t).1.
Proof.
  destruct (marker_deleted parse_drain_value t "drain" "admission" parse_admission_value _
    ltac:(done) ltac:(auto) eq_refl) as (M & D & A).
  split_and!; try done; intros x X; eauto. rewrite <- A in X. eauto.
Qed.
Lemma set_admission_marker v t : is_u64 v -> marker_write t (set_admission_blocked_tx v t).1.
Proof.
  intros V. unfold set_admission_blocked_tx.
  set (eff := match t_meta t !! "admission" with Some _ => _ | None => _ end).
  assert (E : forall e, eff = Some e -> is_u64 e).
  { subst eff. intros e. destruct (t_meta t !! "admission") as [s|]; [|by intros [= <-]].
    destruct (parse_admission_value s) eqn:P; [|done]. apply parse_admission_range in P.
    intros [= <-]. unfold is_u64 in *. lia. }
  destruct eff as [e|]; [|apply marker_write_refl]. specialize (E e eq_refl).
  case_decide; cbn [fst]; [apply marker_write_refl|].
  destruct (marker_written parse_admission_value t "admission" "drain" parse_drain_value
    (String.append "blocked:" (to_string e)) e _ ltac:(done) ltac:(auto)
    ltac:(unfold parse_admission_value; by rewrite strip_prefix_app, parse_to_string) eq_refl) as (M & D & A).
  split_and!; try done; intros x X; eauto. rewrite <- A in X. eauto.
Qed.
Lemma clear_admission_marker v t : marker_write t (clear_admission_blocked_if_tx (Some v) t).1.
Proof.
  unfold clear_admission_blocked_if_tx. case_decide; cbn [fst]; [|apply marker_write_refl].
  destruct (marker_deleted parse_admission_value t "admission" "drain" parse_drain_value _
    ltac:(done) ltac:(auto) eq_refl) as (M & D & A).
  split_and!; try done; intros x X; eauto. rewrite <- A in X. eauto.
Qed.

(** Such a write changes the latches of the loaded state and nothing else. *)
Lemma load_marker_write legacy t t' ms :
  marker_write t t' -> load_materialized_state legacy t = Ok ms ->
  exists da dv ab av, load_materialized_state legacy t' = Ok (set_latches da dv ab av ms).
Proof.
  intros (Es & Ej & Eo & M & D & A). unfold load_materialized_state.
  assert (B : forall k, k <> "drain" -> k <> "admission" -> meta_bool (t_meta t') k = meta_bool (t_meta t) k)
    by (intros; unfold meta_bool; by rewrite M).
  assert (N : forall mx k, k <> "drain" -> k <> "admission" ->
    meta_number mx (t_meta t') k = meta_number mx (t_meta t) k) by (intros; unfold meta_number; by rewrite M).
  unfold meta_u32, meta_u64. unfold meta_canary. rewrite Es, Ej, Eo, !B, !N, !M by done. intros H.
  repeat match type of H with
  | (let? _ := meta_marker parse_drain_value _ _ in _) = _ =>
      let x := fresh "x" in destruct (meta_marker parse_drain_value _ _) as [x|];
      [destruct (D x eq_refl) as [[? ?] ->]; cbn [result_bind] in *|done]
  | (let? _ := meta_marker parse_admission_value _ _ in _) = _ =>
      let x := fresh "x" in destruct (meta_marker parse_admission_value _ _) as [x|];
      [destruct (A x eq_refl) as [[? ?] ->]; cbn [result_bind] in *|done]
  | (let? _ := ?r in _) = _ => destruct r; cbn [result_bind] in *; [|done]
  end.
  injection H as <-. by repeat eexists.
Qed.

(** ** Histories *)

Section Checked.
Context (encode : Event -> string) (decode : string -> option Event).
Context (decode_baseline : string -> option ReplayBaseline) (sha256_hex : string -> string).
Hypothesis decode_encode : forall e, decode (encode e) = Some e.

#[local] Abbreviation row := (event_row encode sha256_hex).
#[local] Abbreviation replay' := (replay decode sha256_hex).
#[local] Abbreviation baseline := (load_replay_baseline decode_baseline sha256_hex).
#[local] Abbreviation readable := (validate_replay_integrity_before_read decode_baseline sha256_hex).

(** A latch write through a handle. *)
Definition latched (h : Handle) (v : Z) (db db' : JournalDb) (b : bool) : Prop :=
  set_drain decode_baseline sha256_hex h v db = Ok (db', b) \/
  clear_drain decode_baseline sha256_hex h db = Ok (db', b) \/
  set_admission_blocked decode_baseline sha256_hex h v db = Ok (db', b) \/
  clear_admission_blocked_if decode_baseline sha256_hex h (Some v) db = Ok (db', b).

(** What one history does to the journal: it is opened with tables that hold
    its replay baseline, then batches of events and latches are written. Of a
    batch it is asked that the numbers it stores fit their columns, that its
    give-ups are timely and that the log completes no job twice. *)
Inductive history (seed : FleetState) : JournalDb -> list Event -> Prop :=
| history_open db :
    j_events db = [] -> readable db = Ok tt -> baseline (t_meta (j_tables db)) = Ok (Some seed) ->
    JInv seed -> execution_backend seed = Docker -> (forall k, ~ settled k seed) ->
    load_materialized_state (j_legacy db) (j_tables db)
      = Ok (materialized (j_legacy db) (set_journal_writable true seed)) ->
    history seed db []
| history_batch db log now service evs db' outs st w :
    history seed db log ->
    Forall (fun ev => fits (event_generation ev)) evs ->
    apply_many encode decode_baseline sha256_hex now service evs db = Ok (db', outs) ->
    load_materialized_state (j_legacy db) (j_tables db) = Ok st ->
    write_all plain_guard now (active_pressure_episode service db)
      {| w_state := st; w_outcomes := []; w_pending := []; w_fenced := [] |} evs = Ok w ->
    timely_batch plain_guard now (active_pressure_episode service db)
      {| w_state := st; w_outcomes := []; w_pending := []; w_fenced := [] |} evs ->
    storable (w_state w) -> completes_once (log ++ w_pending w) ->
    history seed db' (log ++ w_pending w)
| history_latch db log h v db' b :
    history seed db log -> is_u64 v -> latched h v db db' b ->
    history seed db' log.

(** The invariant of a history: whenever the log is replayed, the replay
    succeeds and reaches the core of what the tables hold. *)
Definition replays (seed : FleetState) (legacy : bool) (log : list Event) (ms : FleetState) : Prop :=
  JInv ms /\ forall now, exists rs,
    replay' now (map row log) (set_journal_writable true seed) = Ok rs /\
    core (finish legacy rs) = core ms /\ JInv rs /\ latches rs = (false, false, Docker) /\
    (forall k, settled k rs -> Exists (fun e => settles k e = true) log).

Record tracks (seed : FleetState) (db : JournalDb) (log : list Event) : Prop := {
  tr_log : j_events db = map row log;
  tr_readable : readable db = Ok tt;
  tr_seed : baseline (t_meta (j_tables db)) = Ok (Some seed);
  tr_state : exists ms, load_materialized_state (j_legacy db) (j_tables db) = Ok ms /\
    replays seed (j_legacy db) log ms;
}.

Lemma readable_same db db' :
  j_user_version db' = j_user_version db -> j_fence_exact db' = j_fence_exact db ->
  same_anchors (t_meta (j_tables db)) (t_meta (j_tables db')) ->
  readable db' = readable db /\ baseline (t_meta (j_tables db')) = baseline (t_meta (j_tables db)).
Proof.
  intros V F [A1 A2].
  unfold validate_replay_integrity_before_read, require_replay_baseline_keys, load_replay_baseline.
  by rewrite V, F, A1, A2.
Qed.

Lemma baseline_latches m seed : baseline m = Ok (Some seed) ->
  drain_active seed = false /\ admission_blocked seed = false.
Proof.
  unfold load_replay_baseline. intros H. repeat case_match; try done; by injection H as <-.
Qed.

Lemma tracks_open seed db :
  j_events db = [] -> readable db = Ok tt -> baseline (t_meta (j_tables db)) = Ok (Some seed) ->
  JInv seed -> execution_backend seed = Docker -> (forall k, ~ settled k seed) ->
  load_materialized_state (j_legacy db) (j_tables db)
    = Ok (materialized (j_legacy db) (set_journal_writable true seed)) ->
  tracks seed db [].
Proof.
  intros E R B I X S L. split; [done..|]. eexists. split; [exact L|].
  assert (I' : JInv (set_journal_writable true seed)) by (by apply (JInv_tables seed)).
  split; [by apply materialized_inv|]. intros now. exists (set_journal_writable true seed).
  destruct (baseline_latches _ _ B) as [D A]. split_and!; [done| |done| |].
  - by apply core_materialized.
  - unfold latches. cbn. by rewrite D, A, X.
  - intros k K. by destruct (S k).
Qed.

(** Rows written, tables read back: whatever wrote the batch, through whatever
    guard. *)
Lemma tracks_written seed db log gd p now evs db' st w :
  tracks seed db log ->
  Forall (fun ev => fits (event_generation ev)) evs ->
  load_materialized_state (j_legacy db) (j_tables db) = Ok st ->
  write_all gd now p {| w_state := st; w_outcomes := []; w_pending := []; w_fenced := [] |} evs = Ok w ->
  timely_batch gd now p {| w_state := st; w_outcomes := []; w_pending := []; w_fenced := [] |} evs ->
  storable (w_state w) -> completes_once (log ++ w_pending w) ->
  j_events db' = j_events db ++ map row (w_pending w) ->
  (j_legacy db', j_user_version db', j_fence_exact db') = (j_legacy db, j_user_version db, j_fence_exact db) ->
  (w_pending w = [] /\ j_tables db' = j_tables db) \/
  (capacity_invalid st = false /\ persist_rows (j_tables db) (w_state w) = Ok (j_tables db')) ->
  tracks seed db' (log ++ w_pending w).
Proof.
  intros [E R B (ms & L & I & Rp)] G L' W T St C Ev [= Lg V Fe] P.
  rewrite L in L'. injection L' as ->.
  assert (Ev' : j_events db' = map row (log ++ w_pending w)) by (by rewrite Ev, E, map_app).
  destruct P as [[Z T']|[Cap Pr]].
  { rewrite Z, app_nil_r in *. destruct (readable_same db db' V Fe) as [R' B']; [by rewrite T'|].
    split; [done|by rewrite R'|by rewrite B'|]. exists st. rewrite T', Lg. done. }
  destruct (readable_same db db' V Fe (persist_anchors _ _ _ Pr)) as [R' B'].
  split; [done|by rewrite R'|by rewrite B'|].
  destruct (loaded_fixed _ _ _ L) as [Jw Xb]. destruct (write_all_frame _ _ _ _ _ _ W) as [Fr Fw].
  assert (Iw : JInv (w_state w)) by (eapply write_all_inv; [|exact W]; exact I).
  destruct (persist_loads (j_legacy db) (j_tables db) (w_state w) Iw St) as (t & Pt & Lt).
  rewrite Pr in Pt. injection Pt as <-. exists (materialized (j_legacy db) (w_state w)). rewrite Lg.
  split; [done|]. split; [by apply materialized_inv|]. intros now'.
  destruct (Rp now') as (rs & Rs & Co & Ir & La & Se).
  assert (Fin : finish (j_legacy db) rs = rs).
  { apply finish_valid. change (capacity_invalid (core (finish (j_legacy db) rs)) = false). by rewrite Co. }
  rewrite Fin in Co.
  destruct (write_all_replayed encode decode sha256_hex decode_encode gd now now' _
    (set_journal_writable true seed) log evs _ w G T W C) as (rs' & Rs' & F').
  { exists rs. cbn [w_pending w_state]. rewrite app_nil_r. done. }
  exists rs'. split; [done|]. destruct F' as [F1 F2 F3 F4 F5]. split_and!; [|done..].
  apply core_materialized; [done| |].
  - by apply Fw.
  - change (execution_backend (w_state w)) with ((latches (w_state w)).2). by rewrite Fr.
Qed.

Lemma tracks_batch seed db log now service evs db' outs st w :
  tracks seed db log ->
  Forall (fun ev => fits (event_generation ev)) evs ->
  apply_many encode decode_baseline sha256_hex now service evs db = Ok (db', outs) ->
  load_materialized_state (j_legacy db) (j_tables db) = Ok st ->
  write_all plain_guard now (active_pressure_episode service db)
    {| w_state := st; w_outcomes := []; w_pending := []; w_fenced := [] |} evs = Ok w ->
  timely_batch plain_guard now (active_pressure_episode service db)
    {| w_state := st; w_outcomes := []; w_pending := []; w_fenced := [] |} evs ->
  storable (w_state w) -> completes_once (log ++ w_pending w) ->
  tracks seed db' (log ++ w_pending w).
Proof.
  intros Tr G A L W T St C.
  destruct (apply_many_Ok _ _ _ _ _ _ _ _ _ _ L A) as (w' & W' & Ev & _ & (Lg & V & Fe) & N & P).
  rewrite W in W'. injection W' as <-. eapply tracks_written; try done; [by rewrite Lg, V, Fe|].
  destruct (decide (w_pending w = [])) as [Z|Z]; [left; auto|right; auto].
Qed.

Lemma tracks_latch seed db log db' :
  tracks seed db log -> marker_write (j_tables db) (j_tables db') ->
  db' = set_log (j_events db) (j_tables db') db -> tracks seed db' log.
Proof.
  intros [E R B (ms & L & I & Rp)] M D.
  assert (A : same_anchors (t_meta (j_tables db)) (t_meta (j_tables db'))).
  { destruct M as (_ & _ & _ & M & _). split; by apply M. }
  destruct (readable_same db db') as [R' B']; [by rewrite D|by rewrite D|done|].
  assert (Lg : j_legacy db' = j_legacy db) by (by rewrite D).
  split; [by rewrite D|by rewrite R'|by rewrite B'|].
  destruct (load_marker_write _ _ _ _ M L) as (da & dv & ab & av & L'). rewrite Lg.
  eexists. split; [exact L'|]. split; [by apply (JInv_tables ms)|]. exact Rp.
Qed.

Lemma tracks_latched seed db log h v db' b :
  tracks seed db log -> is_u64 v -> latched h v db db' b -> tracks seed db' log.
Proof.
  intros IH V [H|[H|[H|H]]];
    [unfold set_drain in H|unfold clear_drain in H|unfold set_admission_blocked in H
    |unfold clear_admission_blocked_if in H]; apply latch_authority in H as [_ H].
  - pose proof (set_drain_marker v (j_tables db) V) as M. destruct (set_drain_tx v _) as [t c].
    injection H as <- <-. by eapply tracks_latch.
  - pose proof (clear_drain_marker (j_tables db)) as M. destruct (clear_drain_tx _) as [t c].
    injection H as <- <-. by eapply tracks_latch.
  - pose proof (set_admission_marker v (j_tables db) V) as M.
    destruct (set_admission_blocked_tx v _) as [t [c|]]; [|done].
    injection H as <- <-. by eapply tracks_latch.
  - pose proof (clear_admission_marker v (j_tables db)) as M.
    destruct (clear_admission_blocked_if_tx _ _) as [t c]. injection H as <- <-. by eapply tracks_latch.
Qed.

Lemma history_tracks seed db log : history seed db log -> tracks seed db log.
Proof.
  induction 1 as [db E R B I X S L|db log now service evs db' outs st w _ IH G A L W T St C
                 |db log h v db' b _ IH V H].
  - by apply tracks_open.
  - by eapply tracks_batch.
  - by eapply tracks_latched.
Qed.

Lemma canonical_core st st' : core st = core st' -> canonical_projection st = canonical_projection st'.
Proof.
  apply core_field. intros x. unfold canonical_projection. cbn [slots jobs outbox core set_latches].
  rewrite !(filter_map is_pending timeless_row) by done. rewrite filter_idem, !map_map. reflexivity.
Qed.

(** A journal whose log replays to its tables is read as the tables. *)
Lemma tracks_read seed db log now : tracks seed db log ->
  exists st ms,
    load_current_state_checked decode decode_baseline sha256_hex now db = Ok st /\
    load_materialized_state (j_legacy db) (j_tables db) = Ok ms /\
    canonical_projection st = canonical_projection ms /\
    (drain_active st, drain_version st, admission_blocked st, admission_version st)
    = (drain_active ms, drain_version ms, admission_blocked ms, admission_version ms).
Proof.
  intros [E R B (ms & L & I & Rp)]. destruct (Rp now) as (rs & Rs & Co & _).
  unfold load_current_state_checked, load_state_from_conn_legacy_aware, load_state_from_conn_seed.
  rewrite R. cbn [result_bind]. rewrite B. cbn [result_bind]. cbn [default]. unfold id.
  rewrite E, Rs, L. cbn [result_bind lift]. fold (finish (j_legacy db) rs).
  rewrite (bool_decide_eq_false_2 (canonical_projection (finish (j_legacy db) rs) <> canonical_projection ms))
    by (intros N; apply N; by apply canonical_core).
  cbn [andb]. eexists _, ms. split; [reflexivity|]. split; [done|]. split; [|done].
  apply canonical_core. change (core (set_latches ?da ?dv ?ab ?av ?x)) with (core x).
  by destruct (capacity_invalid ms).
Qed.
(** The checked read never contradicts the tables. After any history of
    committed batches and latch writes, by any handles and at any clocks, in
    which no job identity is completed again after its completion settled and
    no completion is given up on its deadline alone, reading the journal at
    any time succeeds: every logged event is accepted again by the replay, and
    the state returned has the canonical projection and the latches of the
    materialized tables. *)
Theorem checked_read_refines_tables seed db log now :
  history seed db log ->
  exists st ms,
    load_current_state_checked decode decode_baseline sha256_hex now db = Ok st /\
    load_materialized_state (j_legacy db) (j_tables db) = Ok ms /\
    canonical_projection st = canonical_projection ms /\
    (drain_active st, drain_version st, admission_blocked st, admission_version st)
    = (drain_active ms, drain_version ms, admission_blocked ms, admission_version ms).
Proof. intros T%history_tracks. by eapply tracks_read. Qed.
End Checked.

(** *** An instance *)

(** The database after the batch that brings the first slot to ready. *)
Definition ready_db : JournalDb := committed 100 (map snd to_ready) fresh_db.

Lemma intends_nothing log :
  Forall (fun e => match e with Ev.CompletionIntended _ _ _ => False | _ => True end) log -> completes_once log.
Proof. intros F l1 k g sha l2 ->. apply Forall_app in F as [_ F]. by apply Forall_cons in F as [[] _]. Qed.

Lemma ready_history :
  history Coding.encode Coding.decode_baseline Coding.sha256_hex empty_fleet ready_db (map snd to_ready).
Proof.
  set (w0 := {| w_state := empty_fleet; w_outcomes := []; w_pending := []; w_fenced := [] |}).
  destruct (apply_many Coding.encode Coding.decode_baseline Coding.sha256_hex 100 None
              (map snd to_ready) fresh_db) as [[db' outs]|] eqn:A; [|by vm_compute in A].
  destruct (write_all plain_guard 100 false w0 (map snd to_ready)) as [w|] eqn:W; [|by vm_compute in W].
  assert (Pe : w_pending w = map snd to_ready) by (vm_compute in W; by injection W as <-).
  replace ready_db with db' by (unfold ready_db, committed; by rewrite A).
  replace (map snd to_ready) with ([] ++ w_pending w) at 1 by done.
  eapply history_batch; [| |exact A|by vm_compute|exact W| | |].
  - apply history_open; [reflexivity|by vm_compute|by vm_compute| |reflexivity| |by vm_compute].
    + apply (JInv_tables FleetState_default); try reflexivity. apply JInv_default.
    + intros k (r & F & _). discriminate F.
  - repeat constructor; by vm_compute.
  - vm_compute. by repeat (split; [exact Logic.I|]).
  - vm_compute in W. injection W as <-. clear A Pe. cbn [w_state].
    split; [intros x|intros x|intros x|by vm_compute..]; cbn [slots jobs outbox];
      rewrite ?elem_of_nil, ?list_elem_of_singleton; [intros ->|by intros []..].
    repeat split; by vm_compute.
  - rewrite Pe. apply intends_nothing. repeat constructor.
Qed.

Lemma checked_read_refines_tables_witness :
  exists st, checked_read 100000 ready_db = Ok st /\ advertised_capacity st = 1.
Proof.
  destruct (checked_read_refines_tables Coding.encode Coding.decode Coding.decode_baseline Coding.sha256_hex
    Coding.decode_encode empty_fleet ready_db (map snd to_ready) 100000 ready_history) as (st & ms & R & _).
  exists st. split; [exact R|]. unfold ready_db in R. vm_compute in R. injection R as <-. by vm_compute.
Defined.
