(* ===== verification/ExprText.v ===== *)
(** * Text and numbers of the expression engine

    Characters are Unicode scalar values, strings are lists of them, and
    numbers are IEEE 754 binary64 values in the representation of the standard
    library's [SpecFloat]. The first part models what the engine uses of
    Rust's [char], [str] and [f64]; the second is [parse_number] and
    [format_number] of [crates/velnor-runner/src/expression/value.rs]; the
    third is the ordinal, case-insensitive comparison of
    [crates/velnor-model/src/context_value.rs]. The Unicode case table of the
    [icu_casemap] package is the class [CaseMapper]. *)

From Stdlib Require Import ZArith Lia SpecFloat Ascii.
From stdpp Require Import base list strings.
From S2P Require Import Prelude.

#[local] Open Scope N_scope.

(** ** Characters and strings *)

Definition char : Type := N.
Definition text : Type := list char.

Definition chr (a : ascii) : char := N_of_ascii a.
Fixpoint txt (s : string) : text :=
  match s with
  | EmptyString => []
  | String a s => chr a :: txt s
  end.

(** [c == 'a'] for an ASCII literal. *)
Definition is_chr (a : ascii) (c : char) : bool := c =? chr a.
#[global] Arguments chr : simpl never.
#[global] Arguments is_chr : simpl never.
#[global] Arguments txt : simpl never.

Lemma is_chr_true a c : is_chr a c = true <-> c = chr a.
Proof. apply N.eqb_eq. Qed.
Lemma is_chr_refl a : is_chr a (chr a) = true.
Proof. by apply is_chr_true. Qed.

#[export] Instance char_eq_dec : EqDecision char.
Proof. unfold char. apply _. Defined.
#[export] Instance text_eq_dec : EqDecision text.
Proof. unfold text. apply _. Defined.

Definition in_range (lo hi c : char) : bool := (lo <=? c) && (c <=? hi).
Definition is_ascii_digit (c : char) : bool := in_range 48 57 c.
Definition is_ascii_alphabetic (c : char) : bool := in_range 65 90 c || in_range 97 122 c.
Definition is_ascii_alphanumeric (c : char) : bool := is_ascii_alphabetic c || is_ascii_digit c.
Definition is_ascii_hexdigit (c : char) : bool :=
  is_ascii_digit c || in_range 65 70 c || in_range 97 102 c.

(** [char::is_whitespace]: the Unicode property [White_Space]. *)
Definition is_whitespace (c : char) : bool :=
  in_range 9 13 c || (c =? 32) || (c =? 133) || (c =? 160) || (c =? 5760) ||
  in_range 8192 8202 c || (c =? 8232) || (c =? 8233) || (c =? 8239) || (c =? 8287) || (c =? 12288).

Definition to_ascii_lowercase (c : char) : char := if in_range 65 90 c then c + 32 else c.

(** [str::to_ascii_lowercase] and [str::eq_ignore_ascii_case]. *)
Definition ascii_lowercase (s : text) : text := map to_ascii_lowercase s.
Definition eq_ignore_ascii_case (a b : text) : bool :=
  bool_decide (ascii_lowercase a = ascii_lowercase b).

(** [trim_start], [trim_end], [trim], and [trim_end_matches(c)]. *)
Fixpoint trim_start_by (p : char -> bool) (s : text) : text :=
  match s with
  | [] => []
  | c :: s' => if p c then trim_start_by p s' else s
  end.
Definition trim_end_by (p : char -> bool) (s : text) : text := rev (trim_start_by p (rev s)).
Definition trim (s : text) : text := trim_end_by is_whitespace (trim_start_by is_whitespace s).

(** The longest prefix whose characters satisfy [p], and what is left. *)
Fixpoint span (p : char -> bool) (s : text) : text * text :=
  match s with
  | [] => ([], [])
  | c :: s' => if p c then (fun '(a, b) => (c :: a, b)) (span p s') else ([], s)
  end.

(** ** Decimal digits *)

Definition digit_value (c : char) : Z := Z.of_N c - 48.
Definition digit_char (d : Z) : char := Z.to_N (d + 48).

(** The number a run of ASCII digits denotes. *)
Definition digits_value (s : text) : Z :=
  fold_left (fun acc c => 10 * acc + digit_value c)%Z s 0%Z.

(** The decimal digits of [n >= 0], at least [width] of them. The fuel is the
    number of binary digits, which no decimal rendering exceeds. *)
Fixpoint decimal_go (fuel : nat) (n : Z) (acc : text) : text :=
  match fuel with
  | O => acc
  | S fuel =>
      let acc := digit_char (n mod 10) :: acc in
      if (n <? 10)%Z then acc else decimal_go fuel (n / 10) acc
  end.
Definition decimal (n : Z) : text := decimal_go (S (Z.to_nat (Z.log2 n))) n [].

Definition pad_left (width : nat) (s : text) : text := repeat (chr "0") (width - length s) ++ s.

(** ** Binary64 *)

Definition f64 : Type := spec_float.
Definition f64_round := binary_round 53 1024.

Definition f64_zero : f64 := S754_zero false.
Definition f64_nan : f64 := S754_nan.
Definition f64_infinity (negative : bool) : f64 := S754_infinity negative.
(** [f64::from(i32)]. *)
Definition f64_of_Z (n : Z) : f64 := binary_normalize 53 1024 n 0 false.
Definition f64_one : f64 := f64_of_Z 1.

Definition f64_is_nan (x : f64) : bool := match x with S754_nan => true | _ => false end.
Definition f64_is_infinite (x : f64) : bool := match x with S754_infinity _ => true | _ => false end.
Definition f64_is_sign_negative (x : f64) : bool :=
  match x with S754_zero s | S754_infinity s | S754_finite s _ _ => s | S754_nan => false end.
Definition f64_eq (x y : f64) : bool := SFeqb x y.
Definition f64_lt (x y : f64) : bool := SFltb x y.
Definition f64_gt (x y : f64) : bool := SFltb y x.

(** The binary64 value nearest to [(-1)^negative * m * 10^e], ties to even:
    one rounding of the exact quotient. *)
Definition f64_of_decimal (negative : bool) (m e : Z) : f64 :=
  match m with
  | Zpos p =>
      if (0 <=? e)%Z then f64_round negative (Z.to_pos (m * 10 ^ e)) 0
      else
        let '(q, e', l) := SFdiv_core_binary 53 1024 m 0 (10 ^ (- e)) 0 in
        binary_round_aux 53 1024 negative q e' l
  | _ => S754_zero negative
  end.

(** [str::parse::<f64>]: an optional sign, then [inf], [infinity] or [nan] in
    any case, or digits with an optional point and an optional exponent, with
    a digit on at least one side of the point. *)
Definition split_sign (s : text) : bool * text :=
  match s with
  | c :: s' => if is_chr "-" c then (true, s') else if is_chr "+" c then (false, s') else (false, s)
  | [] => (false, [])
  end.

Definition parse_exponent (s : text) : option Z :=
  match s with
  | [] => Some 0%Z
  | c :: s' =>
      if is_chr "e" c || is_chr "E" c then
        let '(negative, s') := split_sign s' in
        let '(digits, rest) := span is_ascii_digit s' in
        match digits, rest with
        | [], _ => None
        | _, [] => Some (if negative then - digits_value digits else digits_value digits)%Z
        | _, _ => None
        end
      else None
  end.

Definition f64_from_str (s : text) : option f64 :=
  let '(negative, s) := split_sign s in
  if eq_ignore_ascii_case s (txt "inf") || eq_ignore_ascii_case s (txt "infinity")
  then Some (f64_infinity negative)
  else if eq_ignore_ascii_case s (txt "nan") then Some f64_nan
  else
    let '(whole, s) := span is_ascii_digit s in
    let '(fraction, s) :=
      match s with
      | c :: s' => if is_chr "." c then span is_ascii_digit s' else ([], s)
      | [] => ([], [])
      end in
    match whole ++ fraction with
    | [] => None
    | digits =>
        e ← parse_exponent s;
        Some (f64_of_decimal negative (digits_value digits) (e - Z.of_nat (length fraction)))
    end.

(** ** Rendering a float

    The exact value of a finite, nonzero float as a fraction of integers, the
    decimal exponent [k] with [10^k <= num/den < 10^(k+1)], and Rust's
    formatting with a given precision, which rounds the exact value half to
    even. *)
Definition fraction_of (m : positive) (e : Z) : Z * Z :=
  if (0 <=? e)%Z then (Zpos m * 2 ^ e, 1)%Z else (Zpos m, 2 ^ (- e))%Z.

(** [num / den] rounded to an integer, half to even. *)
Definition round_half_even (num den : Z) : Z :=
  let q := (num / den)%Z in
  let r := (num mod den)%Z in
  match (2 * r ?= den)%Z with
  | Lt => q
  | Gt => (q + 1)%Z
  | Eq => if Z.even q then q else (q + 1)%Z
  end.

Fixpoint shift_exponent (fuel : nat) (num den k : Z) : Z :=
  match fuel with
  | O => k
  | S fuel => if (num <? den)%Z then shift_exponent fuel (num * 10)%Z den (k - 1)%Z else k
  end.
(** Binary64 values are at least [2^-1074], so 400 steps reach any exponent. *)
Definition decimal_exponent (num den : Z) : Z :=
  if (den <=? num)%Z then (Z.of_nat (length (decimal (num / den))) - 1)%Z
  else shift_exponent 400 num den 0.

Definition scale10 (num den k : Z) : Z * Z :=
  if (0 <=? k)%Z then (num * 10 ^ k, den)%Z else (num, den * 10 ^ (- k))%Z.

(** [format!("{:.p$e}", value)] as the digits of the mantissa, without point,
    and the exponent. *)
Definition scientific_digits (p : Z) (m : positive) (e : Z) : Z * Z :=
  let '(num, den) := fraction_of m e in
  let k := decimal_exponent num den in
  let '(n, d) := scale10 num den (p - k) in
  let digits := round_half_even n d in
  if (10 ^ (p + 1) <=? digits)%Z then (digits / 10, k + 1)%Z else (digits, k).

Definition put_point (digits : text) (decimals : nat) : text :=
  match decimals with
  | O => digits
  | _ => let s := pad_left (S decimals) digits in
         take (length s - decimals) s ++ chr "." :: drop (length s - decimals) s
  end.

(** [format!("{value:.decimals$}")] of a finite value. *)
Definition fixed_text (negative : bool) (m : positive) (e : Z) (decimals : Z) : text :=
  let '(num, den) := fraction_of m e in
  let '(n, d) := scale10 num den decimals in
  (if negative then [chr "-"] else []) ++
  put_point (decimal (round_half_even n d)) (Z.to_nat decimals).

Definition trim_trailing_zeros (value : text) : text :=
  if existsb (is_chr ".") value then
    trim_end_by (is_chr ".") (trim_end_by (is_chr "0") value)
  else value.

Definition SIGNIFICANT_DIGITS : Z := 15.

(** [format_number]: .NET's [G15]. *)
Definition format_number (value : f64) : text :=
  match value with
  | S754_nan => txt "NaN"
  | S754_infinity negative => if negative then txt "-Infinity" else txt "Infinity"
  | S754_zero negative => if negative then txt "-0" else txt "0"
  | S754_finite negative m e =>
      let '(digits, exponent) := scientific_digits (SIGNIFICANT_DIGITS - 1) m e in
      if (exponent <=? -5)%Z || (SIGNIFICANT_DIGITS <=? exponent)%Z then
        let mantissa := (if negative then [chr "-"] else []) ++
          put_point (decimal digits) (Z.to_nat (SIGNIFICANT_DIGITS - 1)) in
        trim_trailing_zeros mantissa ++ chr "E" ::
        (if (exponent <? 0)%Z then chr "-" else chr "+") :: pad_left 2 (decimal (Z.abs exponent))
      else
        trim_trailing_zeros
          (fixed_text negative m e (Z.max (SIGNIFICANT_DIGITS - 1 - exponent) 0))
  end.

(** ** Parsing a number *)

(** [is_dotnet_double]. *)
Fixpoint mantissa_scan (s : text) (digits : nat) (seen_point : bool) : nat * text :=
  match s with
  | [] => (digits, [])
  | c :: s' =>
      if is_ascii_digit c then mantissa_scan s' (S digits) seen_point
      else if is_chr "." c && negb seen_point then mantissa_scan s' digits true
      else (digits, s)
  end.

Definition skip_sign (s : text) : text :=
  match s with
  | c :: s' => if is_chr "+" c || is_chr "-" c then s' else s
  | [] => []
  end.

Definition is_dotnet_double (value : text) : bool :=
  let '(mantissa_digits, rest) := mantissa_scan (skip_sign value) 0 false in
  match mantissa_digits with
  | O => false
  | S _ =>
      match rest with
      | [] => true
      | c :: rest =>
          if negb (is_chr "e" c) && negb (is_chr "E" c) then false
          else
            let rest := skip_sign rest in
            forallb is_ascii_digit rest && negb (bool_decide (rest = []))
      end
  end.

Definition hex_value (c : char) : Z :=
  if is_ascii_digit c then digit_value c
  else if in_range 97 102 c then Z.of_N c - 87
  else Z.of_N c - 55.

(** [i32::from_str_radix] of a run of digits of that radix, then [f64::from];
    out of range is NaN. *)
Definition radix_number (radix : Z) (digits : text) : f64 :=
  let n := fold_left (fun acc c => radix * acc + hex_value c)%Z digits 0%Z in
  if (n <=? 2 ^ 31 - 1)%Z then f64_of_Z n else f64_nan.

Definition parse_number (value : text) : f64 :=
  let value := trim value in
  if bool_decide (value = []) then f64_zero
  else
    match (if is_dotnet_double value then f64_from_str value else None) with
    | Some parsed => parsed
    | None =>
        match value with
        | z :: x :: _ :: _ =>
            if is_chr "0" z && is_chr "x" x && forallb is_ascii_hexdigit (drop 2 value)
            then radix_number 16 (drop 2 value)
            else if is_chr "0" z && is_chr "o" x && forallb (in_range 48 55) (drop 2 value)
            then radix_number 8 (drop 2 value)
            else if bool_decide (value = txt "Infinity") then f64_infinity false
            else if bool_decide (value = txt "-Infinity") then f64_infinity true
            else f64_nan
        | _ => f64_nan
        end
    end.

(** ** Ordinal comparison ignoring case *)

(** [icu_casemap::CaseMapper::simple_uppercase]. *)
Class CaseMapper := simple_uppercase : char -> char.

Section Ordinal.
Context `{CaseMapper}.

Definition simple_ordinal_uppercase (c : char) : char :=
  if (c =? 305) || (c =? 383) then c else simple_uppercase c.
Definition ordinal_uppercase (s : text) : text := map simple_ordinal_uppercase s.

Fixpoint ordinal_ignore_case_cmp (left right : text) : comparison :=
  match left, right with
  | [], [] => Eq
  | [], _ :: _ => Lt
  | _ :: _, [] => Gt
  | l :: ls, r :: rs =>
      match simple_ordinal_uppercase l ?= simple_ordinal_uppercase r with
      | Eq => ordinal_ignore_case_cmp ls rs
      | order => order
      end
  end.

Definition ordinal_ignore_case_eq (left right : text) : bool :=
  match ordinal_ignore_case_cmp left right with Eq => true | _ => false end.

Definition ordinal_ignore_case_starts_with (haystack prefix : text) : bool :=
  (length prefix <=? length haystack)%nat &&
  bool_decide (take (length prefix) (ordinal_uppercase haystack) = ordinal_uppercase prefix).

Definition ordinal_ignore_case_ends_with (haystack suffix : text) : bool :=
  (length suffix <=? length haystack)%nat &&
  bool_decide (drop (length haystack - length suffix) (ordinal_uppercase haystack) =
               ordinal_uppercase suffix).

(** [windows(n)] for [n > 0]: the consecutive sublists of length [n]. *)
Fixpoint windows (n : nat) (s : text) : list text :=
  match s with
  | [] => []
  | _ :: s' => if (n <=? length s)%nat then take n s :: windows n s' else []
  end.

Definition ordinal_ignore_case_contains (haystack needle : text) : bool :=
  bool_decide (needle = []) ||
  (length needle <=? length haystack)%nat &&
  existsb (fun window => bool_decide (window = ordinal_uppercase needle))
    (windows (length needle) (ordinal_uppercase haystack)).

End Ordinal.

(** ** Laws of decimal rendering *)

Lemma digits_value_app a b :
  digits_value (a ++ b) = fold_left (fun acc c => 10 * acc + digit_value c)%Z b (digits_value a).
Proof. unfold digits_value. apply fold_left_app. Qed.

Lemma digits_value_snoc a c : digits_value (a ++ [c]) = (10 * digits_value a + digit_value c)%Z.
Proof. by rewrite digits_value_app. Qed.

Lemma digit_char_value d : (0 <= d < 10)%Z ->
  digit_value (digit_char d) = d /\ is_ascii_digit (digit_char d) = true.
Proof.
  intros D. unfold digit_value, digit_char. rewrite Z2N.id by lia. split; [lia|].
  unfold is_ascii_digit, in_range. apply andb_true_iff. split; apply N.leb_le; lia.
Qed.

(** The digits come out most significant first, in front of the accumulator. *)
Lemma decimal_go_spec fuel n acc : (0 <= n < 10 ^ Z.of_nat (S fuel))%Z ->
  exists ds, decimal_go (S fuel) n acc = ds ++ acc /\ ds <> [] /\ digits_value ds = n /\
    Forall (fun c => is_ascii_digit c = true) ds.
Proof.
  revert n acc. induction fuel as [|fuel IH]; intros n acc B.
  - cbn. assert (n < 10)%Z by (change (10 ^ Z.of_nat 1)%Z with 10%Z in B; lia).
    rewrite (proj2 (Z.ltb_lt _ _)) by done. rewrite Z.mod_small by lia.
    destruct (digit_char_value n) as [V D]; [lia|]. exists [digit_char n]. split_and!; [done|done| |by constructor].
    by unfold digits_value; cbn.
  - pose proof (Z.mod_pos_bound n 10 ltac:(lia)) as M.
    destruct (digit_char_value (n mod 10) M) as [V D].
    cbn [decimal_go]. destruct (Z.ltb_spec n 10) as [L|L].
    + exists [digit_char (n mod 10)]. split_and!; [done|done| |by constructor].
      unfold digits_value. cbn. rewrite V. apply Z.mod_small. lia.
    + destruct (IH (n / 10)%Z (digit_char (n mod 10) :: acc)) as (ds & E & NE & DV & F).
      { split; [apply Z.div_pos; lia|]. apply Z.div_lt_upper_bound; [lia|].
        rewrite (Nat2Z.inj_succ (S fuel)), Z.pow_succ_r in B by lia. lia. }
      exists (ds ++ [digit_char (n mod 10)]). split_and!.
      * cbn [decimal_go] in E. rewrite E. by rewrite <- app_assoc.
      * by destruct ds.
      * rewrite digits_value_snoc, DV, V. pose proof (Z.div_mod n 10). lia.
      * apply Forall_app_2; [done|by constructor].
Qed.

Lemma decimal_spec n : (0 <= n)%Z ->
  decimal n <> [] /\ digits_value (decimal n) = n /\ Forall (fun c => is_ascii_digit c = true) (decimal n).
Proof.
  intros N. unfold decimal. destruct (decimal_go_spec (Z.to_nat (Z.log2 n)) n []) as (ds & E & NE & V & F).
  { split; [done|]. rewrite Nat2Z.inj_succ, Z2Nat.id by apply Z.log2_nonneg.
    destruct (Z.eq_dec n 0%Z) as [->|]; [reflexivity|].
    pose proof (Z.log2_spec n ltac:(lia)) as [_ L]. eapply Z.lt_le_trans; [exact L|].
    apply Z.pow_le_mono_l. pose proof (Z.log2_nonneg n). lia. }
  rewrite E, app_nil_r. auto.
Qed.
