(* ===== verification/ExprValue.v ===== *)
(** * The value union of the expression engine

    [crates/velnor-runner/src/expression/value.rs]. Arrays and objects live
    behind an [Arc] and are equal only when they are the same allocation, so
    they carry the address of the allocation; [alloc] hands out a fresh one
    per [Arc::new]. *)

From Stdlib Require Import ZArith Lia SpecFloat Ascii.
From stdpp Require Import base list strings.
From S2P Require Import Prelude ExprText.

#[local] Open Scope N_scope.

(** ** Values *)

Definition address : Type := N.

Record ArrayValue (V : Type) : Type := {
  array_ptr : address;
  items : list V;
  filtered : bool;
}.
Arguments array_ptr {V}.
Arguments items {V}.
Arguments filtered {V}.

Record ObjectValue (V : Type) : Type := {
  object_ptr : address;
  entries : list (text * V);
  case_sensitive : bool;
}.
Arguments object_ptr {V}.
Arguments entries {V}.
Arguments case_sensitive {V}.

Inductive Value : Type :=
| VNull
| VBoolean (b : bool)
| VNumber (n : f64)
| VString (s : text)
| VArray (a : ArrayValue Value)
| VObject (o : ObjectValue Value).

Inductive ValueKind : Type :=
| KArray | KBoolean | KNull | KNumber | KObject | KString.

#[export] Instance ValueKind_eq_dec : EqDecision ValueKind.
Proof. solve_decision. Defined.

Definition kind_as_str (k : ValueKind) : text :=
  match k with
  | KArray => txt "Array"
  | KBoolean => txt "Boolean"
  | KNull => txt "Null"
  | KNumber => txt "Number"
  | KObject => txt "Object"
  | KString => txt "String"
  end.

Definition kind (v : Value) : ValueKind :=
  match v with
  | VNull => KNull
  | VBoolean _ => KBoolean
  | VNumber _ => KNumber
  | VString _ => KString
  | VArray _ => KArray
  | VObject _ => KObject
  end.

Definition is_primitive (v : Value) : bool :=
  match v with
  | VNull | VBoolean _ | VNumber _ | VString _ => true
  | VArray _ | VObject _ => false
  end.

Definition is_falsy (v : Value) : bool :=
  match v with
  | VNull => true
  | VBoolean value => negb value
  | VNumber value => f64_eq value f64_zero || f64_is_nan value
  | VString value => bool_decide (value = [])
  | VArray _ | VObject _ => false
  end.
Definition is_truthy (v : Value) : bool := negb (is_falsy v).

Definition convert_to_string (v : Value) : text :=
  match v with
  | VNull => []
  | VBoolean value => if value then txt "true" else txt "false"
  | VNumber value => format_number value
  | VString value => value
  | other => kind_as_str (kind other)
  end.

Definition convert_to_number (v : Value) : f64 :=
  match v with
  | VNull => f64_zero
  | VBoolean value => if value then f64_one else f64_zero
  | VNumber value => value
  | VString value => parse_number value
  | VArray _ | VObject _ => f64_nan
  end.

(** ** Comparison *)

Definition array_same_instance (a b : ArrayValue Value) : bool := array_ptr a =? array_ptr b.
Definition object_same_instance (a b : ObjectValue Value) : bool := object_ptr a =? object_ptr b.

(** [coerce_types] calls itself after turning a boolean or a null into a
    number, at most once per side: two levels of recursion. *)
Fixpoint coerce_go (depth : nat) (left right : Value) : Value * Value :=
  match depth with
  | O => (left, right)
  | S depth =>
      if bool_decide (kind left = kind right) then (left, right)
      else
        match kind left, kind right with
        | KNumber, KString => (left, VNumber (convert_to_number right))
        | KString, KNumber => (VNumber (convert_to_number left), right)
        | (KBoolean | KNull), _ => coerce_go depth (VNumber (convert_to_number left)) right
        | _, (KBoolean | KNull) => coerce_go depth left (VNumber (convert_to_number right))
        | _, _ => (left, right)
        end
  end.
Definition coerce_types : Value -> Value -> Value * Value := coerce_go 3.

Section Compare.
Context `{CaseMapper}.

Definition object_get (o : ObjectValue Value) (key : text) : option Value :=
  snd <$> List.find (fun entry : text * Value =>
    if case_sensitive o then bool_decide (entry.1 = key)
    else ordinal_ignore_case_eq entry.1 key) (entries o).

Definition abstract_equal (left right : Value) : bool :=
  match coerce_types left right with
  | (VNull, VNull) => true
  | (VNumber l, VNumber r) => if f64_is_nan l || f64_is_nan r then false else f64_eq l r
  | (VString l, VString r) => ordinal_ignore_case_eq l r
  | (VBoolean l, VBoolean r) => eqb l r
  | (VObject l, VObject r) => object_same_instance l r
  | (VArray l, VArray r) => array_same_instance l r
  | _ => false
  end.

Definition abstract_not_equal (left right : Value) : bool := negb (abstract_equal left right).

Definition abstract_greater_than (left right : Value) : bool :=
  match coerce_types left right with
  | (VNumber l, VNumber r) => if f64_is_nan l || f64_is_nan r then false else f64_gt l r
  | (VString l, VString r) =>
      match ordinal_ignore_case_cmp l r with Gt => true | _ => false end
  | (VBoolean l, VBoolean r) => l && negb r
  | _ => false
  end.

Definition abstract_less_than (left right : Value) : bool :=
  match coerce_types left right with
  | (VNumber l, VNumber r) => if f64_is_nan l || f64_is_nan r then false else f64_lt l r
  | (VString l, VString r) =>
      match ordinal_ignore_case_cmp l r with Lt => true | _ => false end
  | (VBoolean l, VBoolean r) => negb l && r
  | _ => false
  end.

Definition abstract_greater_than_or_equal (left right : Value) : bool :=
  abstract_equal left right || abstract_greater_than left right.
Definition abstract_less_than_or_equal (left right : Value) : bool :=
  abstract_equal left right || abstract_less_than left right.

End Compare.

(** ** Laws of the comparison *)

Lemma SFcompare_antisym x y : SFcompare y x = CompOpp <$> SFcompare x y.
Proof.
  destruct x as [[]|[]| |[] m e], y as [[]|[]| |[] m' e']; cbn; try done.
  all: rewrite (Z.compare_antisym e e');
    change (Pos.compare_cont Eq m' m) with (m' ?= m)%positive;
    change (Pos.compare_cont Eq m m') with (m ?= m')%positive;
    rewrite (Pos.compare_antisym m m'); by destruct (e ?= e')%Z, (m ?= m')%positive.
Qed.

Lemma SFcompare_None x y : SFcompare x y = None <-> f64_is_nan x || f64_is_nan y = true.
Proof. destruct x as [[]|[]| |[] m e], y as [[]|[]| |[] m' e']; cbn; done. Qed.

Lemma CompOpp_Gt c : CompOpp c = Gt <-> c = Lt.
Proof. by destruct c. Qed.

(** The second level of the recursion never changes anything more: the
    coerced pair is a fixed point. *)
Lemma coerce_types_fixpoint l r :
  let '(l', r') := coerce_types l r in coerce_types l' r' = (l', r').
Proof. destruct l, r; reflexivity. Qed.

(** The bound on the recursion is never reached. *)
Lemma coerce_go_enough n l r : coerce_go (3 + n) l r = coerce_types l r.
Proof. destruct l, r; reflexivity. Qed.

Lemma coerce_types_swap l r :
  coerce_types r l = ((coerce_types l r).2, (coerce_types l r).1).
Proof. destruct l, r; reflexivity. Qed.

Section CompareLaws.
Context `{CaseMapper}.

Lemma ordinal_cmp_antisym l r : ordinal_ignore_case_cmp r l = CompOpp (ordinal_ignore_case_cmp l r).
Proof.
  revert r. induction l as [|a l IH]; intros [|b r]; cbn; try done.
  rewrite (N.compare_antisym (simple_ordinal_uppercase a)).
  destruct (simple_ordinal_uppercase a ?= simple_ordinal_uppercase b); cbn; auto.
Qed.

Lemma ordinal_cmp_Eq l r :
  ordinal_ignore_case_cmp l r = Eq <-> ordinal_uppercase l = ordinal_uppercase r.
Proof.
  revert r. induction l as [|a l IH]; intros [|b r]; cbn; try done.
  destruct (N.compare_spec (simple_ordinal_uppercase a) (simple_ordinal_uppercase b)) as [E|E|E].
  - rewrite IH, E. unfold ordinal_uppercase. split; [congruence|by intros [= ?]].
  - split; [done|]. intros [= E2 _]. lia.
  - split; [done|]. intros [= E2 _]. lia.
Qed.

Lemma ordinal_eq_true l r :
  ordinal_ignore_case_eq l r = true <-> ordinal_uppercase l = ordinal_uppercase r.
Proof.
  rewrite <- ordinal_cmp_Eq. unfold ordinal_ignore_case_eq. by destruct (ordinal_ignore_case_cmp l r).
Qed.

Lemma ordinal_eq_sym l r : ordinal_ignore_case_eq r l = ordinal_ignore_case_eq l r.
Proof.
  unfold ordinal_ignore_case_eq. rewrite ordinal_cmp_antisym. by destruct (ordinal_ignore_case_cmp l r).
Qed.

Lemma f64_eq_sym x y : f64_eq y x = f64_eq x y.
Proof. unfold f64_eq, SFeqb. rewrite SFcompare_antisym. by destruct (SFcompare x y) as [[]|]. Qed.

(** Kinds whose values a comparison can order. *)
Definition comparable (l r : Value) : bool :=
  match coerce_types l r with
  | (VNumber l, VNumber r) => negb (f64_is_nan l || f64_is_nan r)
  | (VString _, VString _) | (VBoolean _, VBoolean _) => true
  | _ => false
  end.

Lemma greater_is_less_swapped l r : abstract_greater_than l r = abstract_less_than r l.
Proof.
  unfold abstract_greater_than, abstract_less_than. rewrite (coerce_types_swap l r).
  destruct (coerce_types l r) as [l' r']. cbn.
  destruct l', r'; try done.
  - by destruct b, b0.
  - by rewrite orb_comm.
  - rewrite ordinal_cmp_antisym. by destruct (ordinal_ignore_case_cmp _ _).
Qed.

Lemma equal_sym l r : abstract_equal l r = abstract_equal r l.
Proof.
  unfold abstract_equal. rewrite (coerce_types_swap l r).
  destruct (coerce_types l r) as [l' r']. cbn. destruct l', r'; try done.
  - by destruct b, b0.
  - by rewrite orb_comm, f64_eq_sym.
  - by rewrite ordinal_eq_sym.
  - apply N.eqb_sym.
  - apply N.eqb_sym.
Qed.

(** Exactly one of less, equal and greater holds of comparable operands, and
    neither order holds of any other pair. *)
Lemma comparison_trichotomy l r :
  if comparable l r then
    (Nat.b2n (abstract_less_than l r) + Nat.b2n (abstract_equal l r) +
     Nat.b2n (abstract_greater_than l r))%nat = 1%nat
  else abstract_less_than l r = false /\ abstract_greater_than l r = false.
Proof.
  unfold comparable, abstract_less_than, abstract_equal, abstract_greater_than.
  destruct (coerce_types l r) as [l' r']. destruct l', r'; try done.
  - by destruct b, b0.
  - destruct (f64_is_nan n || f64_is_nan n0) eqn:E; cbn; [done|].
    unfold f64_lt, f64_eq, f64_gt, SFltb, SFeqb. rewrite (SFcompare_antisym n n0).
    destruct (SFcompare n n0) as [[]|] eqn:C; try done.
    apply SFcompare_None in C. congruence.
  - unfold ordinal_ignore_case_eq. by destruct (ordinal_ignore_case_cmp _ _).
Qed.

End CompareLaws.

(** The comparison operators are coherent: equality is symmetric, [>] is [<]
    with its operands exchanged, exactly one of [<], [==] and [>] holds of
    operands that coerce to comparable values, and neither order holds of any
    other pair (mismatched kinds, NaN, arrays, objects, nulls). *)
Theorem comparisons_are_coherent `{CaseMapper} (l r : Value) :
  abstract_equal l r = abstract_equal r l /\
  abstract_greater_than l r = abstract_less_than r l /\
  if comparable l r then
    (Nat.b2n (abstract_less_than l r) + Nat.b2n (abstract_equal l r) +
     Nat.b2n (abstract_greater_than l r))%nat = 1%nat
  else abstract_less_than l r = false /\ abstract_greater_than l r = false.
Proof.
  split; [apply equal_sym|]. split; [apply greater_is_less_swapped|apply comparison_trichotomy].
Qed.
