(* ===== verification/ExprLexer.v ===== *)
(** * Lexical analyzer of the expression engine

    [crates/velnor-runner/src/expression/lexer.rs] and the argument splitter
    of [spans.rs]. The analyzer is a record threaded through its methods; the
    stack of unclosed tokens has its top first. A [while] loop that advances
    the index over characters with a property is [scan]. *)

From Stdlib Require Import ZArith Lia SpecFloat Ascii.
From stdpp Require Import base list strings.
From S2P Require Import Prelude ExprText ExprValue.

Inductive TokenKind : Type :=
| StartGroup | StartIndex | StartParameters
| EndGroup | EndIndex | EndParameters
| Separator | Dereference | Wildcard | LogicalOperator
| TNull | TBoolean | TNumber | TString
| PropertyName | TFunction | TNamedValue
| Unexpected.

#[export] Instance TokenKind_eq_dec : EqDecision TokenKind.
Proof. solve_decision. Defined.

Inductive Associativity : Type := ANone | LeftToRight | RightToLeft.

Record Token : Type := {
  tk_kind : TokenKind;
  raw_value : text;
  tk_index : nat;
  parsed_value : option Value;
}.

Definition mk_token (k : TokenKind) (raw : text) (i : nat) (v : option Value) : Token :=
  {| tk_kind := k; raw_value := raw; tk_index := i; parsed_value := v |}.

(** [self.raw_value == "..."]. *)
Definition raw_is (t : Token) (s : string) : bool := bool_decide (raw_value t = txt s).

Definition is_operator (t : Token) : bool :=
  match tk_kind t with
  | StartGroup | StartIndex | StartParameters | EndGroup | EndIndex | EndParameters
  | Separator | Dereference | LogicalOperator => true
  | _ => false
  end.

Definition associativity (t : Token) : Associativity :=
  match tk_kind t with
  | StartGroup => ANone
  | LogicalOperator => if raw_is t "!" then RightToLeft else LeftToRight
  | _ => if is_operator t then LeftToRight else ANone
  end.

Definition precedence (t : Token) : nat :=
  match tk_kind t with
  | StartGroup => 20
  | StartIndex | StartParameters | Dereference => 19
  | LogicalOperator =>
      if raw_is t "!" then 16
      else if raw_is t ">" || raw_is t ">=" || raw_is t "<" || raw_is t "<=" then 11
      else if raw_is t "==" || raw_is t "!=" then 10
      else if raw_is t "&&" then 6
      else if raw_is t "||" then 5
      else 0
  | EndGroup | EndIndex | EndParameters | Separator => 1
  | _ => 0
  end.

Definition operand_count (t : Token) : nat :=
  match tk_kind t with
  | StartIndex | Dereference => 2
  | LogicalOperator =>
      if raw_is t "!" then 1
      else if raw_is t ">" || raw_is t ">=" || raw_is t "<" || raw_is t "<=" || raw_is t "==" ||
              raw_is t "!=" || raw_is t "&&" || raw_is t "||" then 2
      else 0
  | _ => 0
  end.

Definition is_legal_keyword (value : text) : bool :=
  match value with
  | [] => false
  | first :: chars =>
      (is_ascii_alphabetic first || is_chr "_" first) &&
      forallb (fun c => is_ascii_alphanumeric c || is_chr "_" c || is_chr "-" c) chars
  end.

(** [matches!(c, 'a' | 'b' | ...)]. *)
Definition one_of (chars : string) (c : char) : bool := existsb (N.eqb c) (txt chars).

Definition is_token_boundary (c : char) : bool := one_of "([)],.!><=&|" c || is_whitespace c.

(** ** The analyzer *)

Record LexicalAnalyzer : Type := {
  lx_expression : text;
  lx_index : nat;
  lx_last_token : option Token;
  unclosed_tokens : list Token;
}.

Definition new_lexer (expression : text) : LexicalAnalyzer :=
  {| lx_expression := expression; lx_index := 0; lx_last_token := None; unclosed_tokens := [] |}.

Definition set_index (i : nat) (l : LexicalAnalyzer) : LexicalAnalyzer :=
  {| lx_expression := lx_expression l; lx_index := i; lx_last_token := lx_last_token l;
     unclosed_tokens := unclosed_tokens l |}.
Definition set_last (t : Token) (l : LexicalAnalyzer) : LexicalAnalyzer :=
  {| lx_expression := lx_expression l; lx_index := lx_index l; lx_last_token := Some t;
     unclosed_tokens := unclosed_tokens l |}.
Definition set_unclosed (u : list Token) (l : LexicalAnalyzer) : LexicalAnalyzer :=
  {| lx_expression := lx_expression l; lx_index := lx_index l; lx_last_token := lx_last_token l;
     unclosed_tokens := u |}.

Definition has_unclosed_tokens (l : LexicalAnalyzer) : bool :=
  match unclosed_tokens l with [] => false | _ => true end.
Definition peek_unclosed (l : LexicalAnalyzer) : option TokenKind :=
  tk_kind <$> head (unclosed_tokens l).
Definition last_kind (l : LexicalAnalyzer) : option TokenKind := tk_kind <$> lx_last_token l.

Definition char_at (e : text) (i : nat) : option char := e !! i.
Definition substring (e : text) (start stop : nat) : text := take (stop - start) (drop start e).

(** [while self.char_at(i).is_some_and(p) { i += 1 }]. *)
Definition scan (p : char -> bool) (e : text) (i : nat) : nat := i + length (span p (drop i e)).1.

Definition check_last_token (l : LexicalAnalyzer) (allowed : list (option TokenKind)) : bool :=
  bool_decide (last_kind l ∈ allowed).

Definition AFTER_OPERAND : list (option TokenKind) :=
  [Some EndGroup; Some EndParameters; Some EndIndex; Some Wildcard; Some TNull; Some TBoolean;
   Some TNumber; Some TString; Some PropertyName; Some TNamedValue].
Definition BEFORE_OPERAND : list (option TokenKind) :=
  [None; Some Separator; Some StartGroup; Some StartParameters; Some StartIndex;
   Some LogicalOperator].
(** What an index or a dereference may follow. *)
Definition INDEXABLE : list (option TokenKind) :=
  [Some EndGroup; Some EndParameters; Some EndIndex; Some Wildcard; Some PropertyName;
   Some TNamedValue].

Definition legal_here (l : LexicalAnalyzer) (k : TokenKind) (raw : text) : bool :=
  match k with
  | StartGroup => check_last_token l BEFORE_OPERAND
  | StartIndex => check_last_token l INDEXABLE
  | StartParameters => check_last_token l [Some TFunction]
  | EndGroup | EndIndex => check_last_token l AFTER_OPERAND
  | EndParameters => check_last_token l [Some StartParameters] || check_last_token l AFTER_OPERAND
  | Separator => check_last_token l AFTER_OPERAND
  | Dereference => check_last_token l INDEXABLE
  | Wildcard => check_last_token l [Some StartIndex; Some Dereference]
  | LogicalOperator =>
      if bool_decide (raw = txt "!") then check_last_token l BEFORE_OPERAND
      else check_last_token l AFTER_OPERAND
  | TNull | TBoolean | TNumber | TString | TFunction | TNamedValue =>
      check_last_token l
        [None; Some Separator; Some StartIndex; Some StartGroup; Some StartParameters;
         Some LogicalOperator]
  | PropertyName => check_last_token l [Some Dereference]
  | Unexpected => false
  end.

Definition create_token (l : LexicalAnalyzer) (k : TokenKind) (raw : text) (i : nat)
    (v : option Value) : Token * LexicalAnalyzer :=
  let unexpected := mk_token Unexpected raw i None in
  if negb (legal_here l k raw) then (unexpected, l)
  else
    let token := mk_token k raw i v in
    let close (open : TokenKind) :=
      if bool_decide (peek_unclosed l = Some open)
      then (token, set_unclosed (tail (unclosed_tokens l)) l)
      else (unexpected, l) in
    match k with
    | StartGroup | StartIndex | StartParameters => (token, set_unclosed (token :: unclosed_tokens l) l)
    | EndGroup => close StartGroup
    | EndIndex => close StartIndex
    | EndParameters => close StartParameters
    | Separator =>
        if bool_decide (peek_unclosed l = Some StartParameters) then (token, l) else (unexpected, l)
    | _ => (token, l)
    end.

Definition read_number_token (l : LexicalAnalyzer) : Token * LexicalAnalyzer :=
  let start := lx_index l in
  let stop := scan (fun c => negb (is_token_boundary c) || is_chr "." c) (lx_expression l) (S start) in
  let l := set_index stop l in
  let raw := substring (lx_expression l) start stop in
  let parsed := parse_number raw in
  if f64_is_nan parsed then create_token l Unexpected raw start None
  else create_token l TNumber raw start (Some (VNumber parsed)).

Definition read_keyword_token (l : LexicalAnalyzer) : Token * LexicalAnalyzer :=
  let e := lx_expression l in
  let start := lx_index l in
  let stop := scan (fun c => negb (is_token_boundary c)) e (S start) in
  let l := set_index stop l in
  let raw := substring e start stop in
  if negb (is_legal_keyword raw) then create_token l Unexpected raw start None
  else if bool_decide (last_kind l = Some Dereference) then create_token l PropertyName raw start None
  else if bool_decide (raw = txt "null") then create_token l TNull raw start (Some VNull)
  else if bool_decide (raw = txt "true") then create_token l TBoolean raw start (Some (VBoolean true))
  else if bool_decide (raw = txt "false") then create_token l TBoolean raw start (Some (VBoolean false))
  else if bool_decide (raw = txt "NaN") then create_token l TNumber raw start (Some (VNumber f64_nan))
  else if bool_decide (raw = txt "Infinity")
  then create_token l TNumber raw start (Some (VNumber (f64_infinity false)))
  else
    let lookahead := scan is_whitespace e stop in
    let k := if bool_decide (char_at e lookahead = Some (chr "(")) then TFunction else TNamedValue in
    create_token l k raw start None.

(** The loop of [read_string_token] after the leading quote: the value, the
    number of characters read and whether the closing quote was met. *)
Fixpoint string_body (s : text) : text * nat * bool :=
  match s with
  | [] => ([], 0, false)
  | c :: s' =>
      if is_chr "'" c then
        match s' with
        | c' :: s'' =>
            if is_chr "'" c' then
              let '(value, n, closed) := string_body s'' in (c :: value, S (S n), closed)
            else ([], 1, true)
        | [] => ([], 1, true)
        end
      else let '(value, n, closed) := string_body s' in (c :: value, S n, closed)
  end.

Definition read_string_token (l : LexicalAnalyzer) : Token * LexicalAnalyzer :=
  let start := lx_index l in
  let '(value, n, closed) := string_body (drop (S start) (lx_expression l)) in
  let l := set_index (S start + n) l in
  let raw := substring (lx_expression l) start (S start + n) in
  if (closed : bool) then create_token l TString raw start (Some (VString value))
  else create_token l Unexpected raw start None.

Definition is_operator2 (raw : text) : bool :=
  existsb (fun s => bool_decide (raw = txt s)) ["!="; ">="; "<="; "=="; "&&"; "||"]%string.
Definition is_operator1 (raw : text) : bool :=
  existsb (fun s => bool_decide (raw = txt s)) ["!"; ">"; "<"]%string.

Definition read_operator (l : LexicalAnalyzer) : Token * LexicalAnalyzer :=
  let e := lx_expression l in
  let start := lx_index l in
  let raw2 := substring e start (start + 2) in
  if (S start <? length e)%nat && is_operator2 raw2
  then create_token (set_index (start + 2) l) LogicalOperator raw2 start None
  else
    let raw1 := substring e start (start + 1) in
    if is_operator1 raw1 then create_token (set_index (S start) l) LogicalOperator raw1 start None
    else
      let stop := scan (fun c => negb (is_token_boundary c)) e (S start) in
      create_token (set_index stop l) Unexpected (substring e start stop) start None.

(** A token of one character. *)
Definition single (l : LexicalAnalyzer) (k : TokenKind) (c : char) : Token * LexicalAnalyzer :=
  create_token (set_index (S (lx_index l)) l) k [c] (lx_index l) None.

Definition starts_number (last : option TokenKind) : bool :=
  match last with
  | None | Some (Separator | StartGroup | StartIndex | StartParameters | LogicalOperator) => true
  | Some _ => false
  end.

(** The dispatch of [next_token] on the first character that is not white space. *)
Definition read_token (l : LexicalAnalyzer) (c : char) : Token * LexicalAnalyzer :=
  if is_chr "(" c then
    single l (if bool_decide (last_kind l = Some TFunction) then StartParameters else StartGroup) c
  else if is_chr "[" c then single l StartIndex c
  else if is_chr ")" c then
    single l (if bool_decide (peek_unclosed l = Some StartParameters) then EndParameters
              else EndGroup) c
  else if is_chr "]" c then single l EndIndex c
  else if is_chr "," c then single l Separator c
  else if is_chr "*" c then single l Wildcard c
  else if is_chr "'" c then read_string_token l
  else if one_of "!><=&|" c then read_operator l
  else if is_chr "." c then
    if starts_number (last_kind l) then read_number_token l else single l Dereference c
  else if is_chr "-" c || is_chr "+" c || is_ascii_digit c then read_number_token l
  else read_keyword_token l.

Definition next_token (l : LexicalAnalyzer) : option Token * LexicalAnalyzer :=
  let l := set_index (scan is_whitespace (lx_expression l) (lx_index l)) l in
  match char_at (lx_expression l) (lx_index l) with
  | None => (None, l)
  | Some c => let '(token, l) := read_token l c in (Some token, set_last token l)
  end.

(** ** Splitting a call into its arguments ([spans.rs]) *)

Definition span_text (chars : text) (start stop : nat) : option text :=
  if (start <=? stop)%nat && (stop <=? length chars)%nat then
    let trimmed := trim (substring chars start stop) in
    if bool_decide (trimmed = []) then None else Some trimmed
  else None.

(** [start.get_or_insert(i)]. *)
Definition get_or_insert (start : option nat) (i : nat) : option nat :=
  match start with Some _ => start | None => Some i end.

(** The loop over the tokens after the opening parenthesis, returning the
    spans and the analyzer once the call is closed. An iteration consumes at
    least one character, so the length of the expression bounds the loop. *)
Fixpoint spans_loop (fuel : nat) (chars : text) (l : LexicalAnalyzer) (spans : list text)
    (depth : nat) (start : option nat) : option (list text * LexicalAnalyzer) :=
  match fuel with
  | O => None
  | S fuel =>
      let '(token, l) := next_token l in
      match token with
      | None => None
      | Some token =>
          match tk_kind token with
          | Unexpected => None
          | StartGroup | StartIndex | StartParameters =>
              spans_loop fuel chars l spans (S depth) (get_or_insert start (tk_index token))
          | EndGroup | EndIndex | EndParameters =>
              match depth with
              | O => None
              | S O =>
                  match start with
                  | Some begin =>
                      text ← span_text chars begin (tk_index token); Some (spans ++ [text], l)
                  | None => Some (spans, l)
                  end
              | S depth => spans_loop fuel chars l spans depth start
              end
          | Separator =>
              match depth with
              | S O =>
                  begin ← start;
                  text ← span_text chars begin (tk_index token);
                  spans_loop fuel chars l (spans ++ [text]) depth None
              | _ => spans_loop fuel chars l spans depth (get_or_insert start (tk_index token))
              end
          | _ => spans_loop fuel chars l spans depth (get_or_insert start (tk_index token))
          end
      end
  end.

Definition function_call_argument_spans (expression : text) : option (text * list text) :=
  let '(first, l) := next_token (new_lexer expression) in
  match first with
  | Some token =>
      if bool_decide (tk_kind token = TFunction) then
        let '(second, l) := next_token l in
        match second with
        | Some paren =>
            if bool_decide (tk_kind paren = StartParameters) then
              '(spans, l) ← spans_loop (S (length expression)) expression l [] 1 None;
              match next_token l with
              | (None, _) => Some (raw_value token, spans)
              | (Some _, _) => None
              end
            else None
        | None => None
        end
      else None
  | None => None
  end.
