(* ===== verification/ExprParser.v ===== *)
(** * Parser of the expression engine

    [crates/velnor-runner/src/expression/parser.rs], with the syntax tree and
    the errors of [mod.rs]. The operand and operator stacks have their top
    first. A Rust panic (an [expect] that fails) is the failure [Panic]; the
    two loops that pop operators take the height of the stack as fuel, and the
    token loop the length of the expression. *)

From Stdlib Require Import ZArith Lia SpecFloat Ascii.
From stdpp Require Import base list strings.
From S2P Require Import Prelude ExprText ExprValue ExprLexer.

#[local] Open Scope result_scope.

(** ** Syntax tree *)

Inductive BinaryOperator : Type :=
| Equal | NotEqual | GreaterThan | GreaterThanOrEqual | LessThan | LessThanOrEqual.

#[export] Instance BinaryOperator_eq_dec : EqDecision BinaryOperator.
Proof. solve_decision. Defined.

Inductive Node : Type :=
| NLiteral (v : Value)
| NWildcard
| NNamedValue (name : text)
| NIndex (target index : Node)
| NNot (inner : Node)
| NAnd (nodes : list Node)
| NOr (nodes : list Node)
| NBinary (op : BinaryOperator) (left right : Node)
| NFunction (name : text) (args : list Node).

Definition children (n : Node) : list Node :=
  match n with
  | NLiteral _ | NWildcard | NNamedValue _ => []
  | NNot inner => [inner]
  | NIndex l r | NBinary _ l r => [l; r]
  | NAnd nodes | NOr nodes => nodes
  | NFunction _ args => args
  end.

(** Induction over trees: the claim for a node from the claim for its
    children. *)
Lemma Node_children_ind (P : Node -> Prop) :
  (forall n, Forall P (children n) -> P n) -> forall n, P n.
Proof.
  intros IH. fix go 1. intros n. apply IH.
  assert (L : forall l : list Node, Forall P l).
  { fix all 1. intros [|x l]; constructor; [apply go|apply all]. }
  destruct n; cbn; repeat constructor; try apply go; apply L.
Qed.

(** The number of nodes on the longest path from the root. *)
Fixpoint height (n : Node) : nat :=
  S match n with
    | NLiteral _ | NWildcard | NNamedValue _ => 0
    | NNot inner => height inner
    | NIndex l r | NBinary _ l r => height l `max` height r
    | NAnd nodes | NOr nodes | NFunction _ nodes => foldr max 0 (map height nodes)
    end.

(** ** Errors *)

Inductive ParseErrorKind : Type :=
| ExceededMaxDepth | ExceededMaxLength | TooFewParameters | TooManyParameters | EvenParameters
| UnexpectedEndOfExpression | UnexpectedSymbol | UnrecognizedFunction | UnrecognizedNamedValue
| Internal.

#[export] Instance ParseErrorKind_eq_dec : EqDecision ParseErrorKind.
Proof. solve_decision. Defined.

Record ParseError : Type := { pe_kind : ParseErrorKind; pe_message : text }.

Definition MAX_DEPTH : nat := 50.
Definition MAX_LENGTH : N := 21000.

Definition description (k : ParseErrorKind) : text :=
  match k with
  | ExceededMaxDepth => txt "Exceeded max expression depth 50"
  | ExceededMaxLength => txt "Exceeded max expression length 21000"
  | TooFewParameters => txt "Too few parameters supplied"
  | TooManyParameters => txt "Too many parameters supplied"
  | EvenParameters =>
      txt "Even number of parameters supplied, requires an odd number of parameters"
  | UnexpectedEndOfExpression => txt "Unexpected end of expression"
  | UnexpectedSymbol => txt "Unexpected symbol"
  | UnrecognizedFunction => txt "Unrecognized function"
  | UnrecognizedNamedValue => txt "Unrecognized named-value"
  | Internal => txt "Invalid expression"
  end.

Definition with_token (k : ParseErrorKind) (t : Token) (expression : text) : ParseError :=
  {| pe_kind := k;
     pe_message := description k ++ txt ": '" ++ raw_value t ++ txt "'. Located at position " ++
       decimal (Z.of_nat (tk_index t + 1)) ++ txt " within expression: " ++ expression |}.
Definition without_token (k : ParseErrorKind) : ParseError :=
  {| pe_kind := k; pe_message := description k |}.
Definition internal (expression detail : text) : ParseError :=
  {| pe_kind := Internal;
     pe_message := txt "Invalid expression: " ++ detail ++ txt ". Expression: " ++ expression |}.

Inductive parse_failure : Type :=
| PError (e : ParseError)
| Panic.

Definition parsing (A : Type) : Type := result A parse_failure.
Definition fail {A} (e : ParseError) : parsing A := Err (PError e).

(** [{:?}] of a token kind. *)
Definition debug_kind (k : TokenKind) : text :=
  match k with
  | StartGroup => txt "StartGroup" | StartIndex => txt "StartIndex"
  | StartParameters => txt "StartParameters" | EndGroup => txt "EndGroup"
  | EndIndex => txt "EndIndex" | EndParameters => txt "EndParameters"
  | Separator => txt "Separator" | Dereference => txt "Dereference" | Wildcard => txt "Wildcard"
  | LogicalOperator => txt "LogicalOperator" | TNull => txt "Null" | TBoolean => txt "Boolean"
  | TNumber => txt "Number" | TString => txt "String" | PropertyName => txt "PropertyName"
  | TFunction => txt "Function" | TNamedValue => txt "NamedValue" | Unexpected => txt "Unexpected"
  end.

(** ** The environment of a parse *)

Class ParseEnvironment := {
  is_named_value : text -> bool;
  function_arity : text -> option (nat * nat);
}.

Definition WELL_KNOWN_FUNCTIONS : list (text * nat * nat) :=
  [(txt "case", 3, 255); (txt "contains", 2, 2); (txt "endsWith", 2, 2); (txt "format", 1, 255);
   (txt "join", 1, 2); (txt "startsWith", 2, 2); (txt "toJson", 1, 1); (txt "fromJson", 1, 1)].

Record ParseContext : Type := {
  px_expression : text;
  px_lexer : LexicalAnalyzer;
  operands : list Node;
  operators : list Token;
  px_last_token : option Token;
}.

Definition set_lexer (l : LexicalAnalyzer) (c : ParseContext) : ParseContext :=
  {| px_expression := px_expression c; px_lexer := l; operands := operands c;
     operators := operators c; px_last_token := px_last_token c |}.
Definition set_stacks (nodes : list Node) (ops : list Token) (c : ParseContext) : ParseContext :=
  {| px_expression := px_expression c; px_lexer := px_lexer c; operands := nodes;
     operators := ops; px_last_token := px_last_token c |}.
Definition set_last_token (t : Token) (c : ParseContext) : ParseContext :=
  {| px_expression := px_expression c; px_lexer := px_lexer c; operands := operands c;
     operators := operators c; px_last_token := Some t |}.
Definition push_node (n : Node) (c : ParseContext) : ParseContext :=
  set_stacks (n :: operands c) (operators c) c.

Definition new_context (expression : text) : ParseContext :=
  {| px_expression := expression; px_lexer := new_lexer expression; operands := [];
     operators := []; px_last_token := None |}.

Definition raise {A} (c : ParseContext) (detail : text) : parsing A :=
  fail (internal (px_expression c) detail).

Section Parser.
Context `{ParseEnvironment}.

Definition lookup_function (name : text) : option (text * nat * nat) :=
  match List.find (fun f : text * nat * nat => eq_ignore_ascii_case f.1.1 name) WELL_KNOWN_FUNCTIONS with
  | Some f => Some f
  | None => '(lo, hi) ← function_arity name; Some ([], lo, hi)
  end.

Definition pop_operands (c : ParseContext) (count : nat) : parsing (list Node * ParseContext) :=
  if (count <=? length (operands c))%nat then
    Ok (rev (take count (operands c)), set_stacks (drop count (operands c)) (operators c) c)
  else raise c (txt "operand stack underflow").

Definition pop_operator (c : ParseContext) (expected : TokenKind) : parsing (Token * ParseContext) :=
  match operators c with
  | [] => raise c (txt "operator stack underflow")
  | token :: ops =>
      if bool_decide (tk_kind token = expected) then Ok (token, set_stacks (operands c) ops c)
      else raise c (txt "expected operator " ++ debug_kind expected ++ txt " to be popped, found " ++
                    debug_kind (tk_kind token))
  end.

(** [operands.next().expect(..)], twice. *)
Definition two_operands (nodes : list Node) : parsing (Node * Node) :=
  match nodes with
  | l :: r :: _ => Ok (l, r)
  | _ => Err Panic
  end.

Definition flush_top_end_index (c : ParseContext) : parsing ParseContext :=
  let? '(_, c) := pop_operator c EndIndex in
  let? '(operator, c) := pop_operator c StartIndex in
  let? '(nodes, c) := pop_operands c (operand_count operator) in
  let? '(l, r) := two_operands nodes in
  Ok (push_node (NIndex l r) c).

(** The loop that counts and pops the separators on top of the stack. *)
Fixpoint pop_separators (ops : list Token) : nat * list Token :=
  match ops with
  | t :: ops' =>
      if bool_decide (tk_kind t = Separator)
      then (fun '(n, rest) => (S n, rest)) (pop_separators ops')
      else (0, ops)
  | [] => (0, [])
  end.

Definition is_multiple_of_2 (n : nat) : bool := Nat.even n.

(** The second half of [flush_top_end_parameters]: the parameters become the
    arguments of the function below them. *)
Definition attach_parameters (c : ParseContext) (parameters : list Node) : parsing ParseContext :=
  match operands c with
  | NFunction name args :: rest =>
      let args := args ++ parameters in
      let arg_count := length args in
      let c := set_stacks (NFunction name args :: rest) (operators c) c in
      let? '(start, c) := pop_operator c StartParameters in
      match lookup_function name with
      | None => fail (with_token UnrecognizedFunction start (px_expression c))
      | Some (_, lo, hi) =>
          if (arg_count <? lo)%nat then fail (with_token TooFewParameters start (px_expression c))
          else if (hi <? arg_count)%nat then fail (with_token TooManyParameters start (px_expression c))
          else if eq_ignore_ascii_case name (txt "case") && is_multiple_of_2 arg_count
          then fail (with_token EvenParameters start (px_expression c))
          else Ok c
      end
  | _ => raise c (txt "expected a function node on the operand stack")
  end.

Definition flush_top_end_parameters (c : ParseContext) : parsing ParseContext :=
  let? '(_, c) := pop_operator c EndParameters in
  let? '(parameters, c) :=
    (if bool_decide (tk_kind <$> px_last_token c = Some StartParameters) then Ok ([], c)
     else
       let '(separators, ops) := pop_separators (operators c) in
       pop_operands (set_stacks (operands c) ops c) (1 + separators)) in
  attach_parameters c parameters.

(** The flattening of nested [&&] and [||]. *)
Definition and_parameters (operand : Node) : list Node :=
  match operand with NAnd nested => nested | _ => [operand] end.
Definition or_parameters (operand : Node) : list Node :=
  match operand with NOr nested => nested | _ => [operand] end.

Definition binary_operator (operator : Token) : option BinaryOperator :=
  if raw_is operator "==" then Some Equal
  else if raw_is operator "!=" then Some NotEqual
  else if raw_is operator ">" then Some GreaterThan
  else if raw_is operator ">=" then Some GreaterThanOrEqual
  else if raw_is operator "<" then Some LessThan
  else if raw_is operator "<=" then Some LessThanOrEqual
  else None.

Definition logical_node (c : ParseContext) (operator : Token) (nodes : list Node) : parsing Node :=
  if raw_is operator "!" then
    match nodes with
    | n :: _ => Ok (NNot n)
    | [] => Err Panic
    end
  else if raw_is operator "&&" then Ok (NAnd (flat_map and_parameters nodes))
  else if raw_is operator "||" then Ok (NOr (flat_map or_parameters nodes))
  else
    match binary_operator operator with
    | Some op => let? '(l, r) := two_operands nodes in Ok (NBinary op l r)
    | None => raise c (txt "unexpected logical operator '" ++ raw_value operator ++ txt "'")
    end.

Definition flush_top_operator (c : ParseContext) : parsing ParseContext :=
  match tk_kind <$> head (operators c) with
  | Some EndIndex => flush_top_end_index c
  | Some EndGroup =>
      let? '(_, c) := pop_operator c EndGroup in
      let? '(_, c) := pop_operator c StartGroup in
      Ok c
  | Some EndParameters => flush_top_end_parameters c
  | _ =>
      match operators c with
      | [] => raise c (txt "operator stack underflow")
      | operator :: ops =>
          let? '(nodes, c) := pop_operands (set_stacks (operands c) ops c) (operand_count operator) in
          let? node :=
            match tk_kind operator with
            | LogicalOperator => logical_node c operator nodes
            | Dereference | StartIndex =>
                let? '(l, r) := two_operands nodes in Ok (NIndex l r)
            | other => raise c (txt "unexpected operator kind " ++ debug_kind other)
            end in
          Ok (push_node node c)
      end
  end.

(** Openers and separators stop the loop of [push_operator]. *)
Definition is_fence (k : TokenKind) : bool :=
  match k with
  | StartGroup | StartIndex | StartParameters | Separator => true
  | _ => false
  end.

Fixpoint flush_while (fuel : nat) (p : nat) (c : ParseContext) : parsing ParseContext :=
  match fuel with
  | O => Ok c
  | S fuel =>
      match operators c with
      | top :: _ =>
          if (p <=? precedence top)%nat && negb (is_fence (tk_kind top)) then
            let? c := flush_top_operator c in
            flush_while fuel p c
          else Ok c
      | [] => Ok c
      end
  end.

Definition push_operator (c : ParseContext) (token : Token) : parsing ParseContext :=
  let? c :=
    match associativity token with
    | LeftToRight => flush_while (length (operators c)) (precedence token) c
    | _ => Ok c
    end in
  let c := set_stacks (operands c) (token :: operators c) c in
  match tk_kind token with
  | EndGroup | EndIndex | EndParameters => flush_top_operator c
  | _ => Ok c
  end.

Definition push_operand (c : ParseContext) (token : Token) : parsing ParseContext :=
  let? node :=
    match tk_kind token with
    | TFunction =>
        match lookup_function (raw_value token) with
        | None => fail (with_token UnrecognizedFunction token (px_expression c))
        | Some (canonical, _, _) =>
            Ok (NFunction (match canonical with [] => raw_value token | _ => canonical end) [])
        end
    | TNamedValue =>
        if is_named_value (raw_value token) then Ok (NNamedValue (raw_value token))
        else fail (with_token UnrecognizedNamedValue token (px_expression c))
    | Wildcard => Ok NWildcard
    | PropertyName => Ok (NLiteral (VString (raw_value token)))
    | TNull | TBoolean | TNumber | TString => Ok (NLiteral (default VNull (parsed_value token)))
    | other => raise c (txt "token kind " ++ debug_kind other ++ txt " is not an operand")
    end in
  Ok (push_node node c).

(** The body of the token loop of [parse]. *)
Definition parse_token (c : ParseContext) (token : Token) : parsing ParseContext :=
  let? c :=
    (if bool_decide (tk_kind token = Unexpected)
     then fail (with_token UnexpectedSymbol token (px_expression c))
     else if is_operator token then push_operator c token
     else push_operand c token) in
  Ok (set_last_token token c).

Fixpoint parse_loop (fuel : nat) (c : ParseContext) : parsing ParseContext :=
  match fuel with
  | O => Ok c
  | S fuel =>
      let '(token, l) := next_token (px_lexer c) in
      let c := set_lexer l c in
      match token with
      | None => Ok c
      | Some token =>
          let? c := parse_token c token in
          parse_loop fuel c
      end
  end.

Fixpoint flush_all (fuel : nat) (c : ParseContext) : parsing ParseContext :=
  match fuel with
  | O => Ok c
  | S fuel =>
      match operators c with
      | [] => Ok c
      | _ => let? c := flush_top_operator c in flush_all fuel c
      end
  end.

Fixpoint check_max_depth (node : Node) (depth : nat) : parsing () :=
  if (MAX_DEPTH <? depth)%nat then fail (without_token ExceededMaxDepth)
  else
    let fix check_all (nodes : list Node) : parsing () :=
      match nodes with
      | [] => Ok tt
      | n :: nodes => let? _ := check_max_depth n (S depth) in check_all nodes
      end in
    match node with
    | NLiteral _ | NWildcard | NNamedValue _ => Ok tt
    | NNot inner => check_max_depth inner (S depth)
    | NIndex l r | NBinary _ l r =>
        let? _ := check_max_depth l (S depth) in
        check_max_depth r (S depth)
    | NAnd nodes | NOr nodes | NFunction _ nodes => check_all nodes
    end.

Definition unexpected_last_token (last_token : Token) : bool :=
  match tk_kind last_token with
  | EndGroup | EndIndex | EndParameters => false
  | TFunction => true
  | _ => is_operator last_token
  end.

(** [parse] after its token loop. *)
Definition finish (c : ParseContext) : parsing (option Node) :=
  match px_last_token c with
  | None => Ok None
  | Some last_token =>
      let unexpected_end := with_token UnexpectedEndOfExpression last_token (px_expression c) in
      if negb (bool_decide (operators c = [])) &&
         (unexpected_last_token last_token || has_unclosed_tokens (px_lexer c))
      then fail unexpected_end
      else
        let? c := flush_all (length (operators c)) c in
        match operands c with
        | [result] => let? _ := check_max_depth result 1 in Ok (Some result)
        | _ => fail unexpected_end
        end
  end.

Definition parse (expression : text) : parsing (option Node) :=
  if (MAX_LENGTH <? N.of_nat (length expression))%N then fail (without_token ExceededMaxLength)
  else
    let? c := parse_loop (S (length expression)) (new_context expression) in
    finish c.

End Parser.

#[global] Arguments pop_operator : simpl never.
#[global] Arguments pop_operands : simpl never.
#[global] Arguments attach_parameters : simpl never.
#[global] Arguments flush_top_operator : simpl never.
#[global] Arguments flush_top_end_parameters : simpl never.
#[global] Arguments flush_top_end_index : simpl never.
#[global] Arguments push_operator : simpl never.
#[global] Arguments push_operand : simpl never.

(** ** Trees that read the running job ([mod.rs]) *)

Definition ROOT_CONTEXTS : list text :=
  [txt "github"; txt "env"; txt "job"; txt "jobs"; txt "runner"; txt "steps"; txt "secrets";
   txt "strategy"; txt "matrix"; txt "needs"; txt "inputs"; txt "vars"].

Definition RUNNER_FUNCTIONS : list (text * nat * nat) :=
  [(txt "success", 0, 0); (txt "failure", 0, 0); (txt "always", 0, 0); (txt "cancelled", 0, 0);
   (txt "hashFiles", 1, 255)].

Definition is_runtime_name (name : text) : bool :=
  bool_decide (ascii_lowercase name ∈
    [txt "env"; txt "steps"; txt "job"; txt "jobs"; txt "runner"]).
Definition is_runner_function (name : text) : bool :=
  existsb (fun f : text * nat * nat => eq_ignore_ascii_case f.1.1 name) RUNNER_FUNCTIONS.

Fixpoint reads_runtime_context (n : Node) : bool :=
  match n with
  | NNamedValue name => is_runtime_name name
  | NFunction name args => is_runner_function name || existsb reads_runtime_context args
  | NLiteral _ | NWildcard => false
  | NNot inner => reads_runtime_context inner
  | NIndex l r | NBinary _ l r => reads_runtime_context l || reads_runtime_context r
  | NAnd nodes | NOr nodes => existsb reads_runtime_context nodes
  end.
