(* ===== verification/ExprEval.v ===== *)
(** * Evaluator of the expression engine

    [crates/velnor-runner/src/expression/eval.rs]. An evaluation threads the
    next free address, because wildcard indexing and [fromJson] allocate new
    collections and collections are compared by address. Its failures are the
    errors the code returns and [EPanic], an out-of-range access to the
    argument list. The arguments of a call are passed as unevaluated
    computations, which is how the code evaluates them: on demand.

    The runner's contexts and functions are the class [EvaluationContext] (a
    trait in the source); the [serde_json] package is the class [SerdeJson]. *)

From Stdlib Require Import ZArith Lia SpecFloat Ascii.
From stdpp Require Import base list strings.
From S2P Require Import Prelude ExprText ExprValue ExprLexer ExprParser.

(** ** Evaluations *)

Inductive ExpressionError : Type :=
| EParse (e : ParseError)
| EEvaluation (message : text).

Inductive eval_failure : Type :=
| EError (e : ExpressionError)
| EPanic.

Definition ev (A : Type) : Type := address -> result A eval_failure * address.

Definition ev_ret {A} (a : A) : ev A := fun next => (Ok a, next).
Definition ev_fail {A} (e : eval_failure) : ev A := fun next => (Err e, next).
Definition ev_bind {A B} (m : ev A) (k : A -> ev B) : ev B := fun next =>
  match m next with
  | (Ok a, next) => k a next
  | (Err e, next) => (Err e, next)
  end.
Definition evaluation {A} (message : text) : ev A := ev_fail (EError (EEvaluation message)).

Declare Scope ev_scope.
Delimit Scope ev_scope with ev.
Notation "'let!' x ':=' c 'in' k" := (ev_bind c (fun x => k))
  (at level 10, x binder, c at level 100, k at level 200,
   format "'[v' 'let!'  x  ':='  c  'in' '/' k ']'") : ev_scope.
#[local] Open Scope ev_scope.

(** [Arc::new]. *)
Definition alloc : ev address := fun next => (Ok next, N.succ next).
Definition new_array (values : list Value) : ev Value :=
  let! p := alloc in ev_ret (VArray {| array_ptr := p; items := values; filtered := false |}).
Definition filtered_array (values : list Value) : ev Value :=
  let! p := alloc in ev_ret (VArray {| array_ptr := p; items := values; filtered := true |}).
Definition new_object (sensitive : bool) (fields : list (text * Value)) : ev Value :=
  let! p := alloc in
  ev_ret (VObject {| object_ptr := p; entries := fields; case_sensitive := sensitive |}).

(** A loop that evaluates every element in order. *)
Fixpoint ev_all {A} (l : list (ev A)) : ev (list A) :=
  match l with
  | [] => ev_ret []
  | m :: l => let! a := m in let! rest := ev_all l in ev_ret (a :: rest)
  end.

(** ** Interfaces *)

Class EvaluationContext `{ParseEnvironment} := {
  named_value : text -> address -> Value * address;
  call_function : text -> list Value -> address -> result Value ExpressionError * address;
}.

Definition ev_named `{EvaluationContext} (name : text) : ev Value := fun next =>
  let '(v, next) := named_value name next in (Ok v, next).
Definition ev_call `{EvaluationContext} (name : text) (args : list Value) : ev Value := fun next =>
  match call_function name args next with
  | (Ok v, next) => (Ok v, next)
  | (Err e, next) => (Err (EError e), next)
  end.

(** [serde_json::Value] over the package's number type. *)
Inductive Json (number : Type) : Type :=
| JNull
| JBool (b : bool)
| JNumber (n : number)
| JString (s : text)
| JArray (l : list (Json number))
| JObject (l : list (text * Json number)).
Arguments JNull {number}.
Arguments JBool {number} b.
Arguments JNumber {number} n.
Arguments JString {number} s.
Arguments JArray {number} l.
Arguments JObject {number} l.

Class SerdeJson := {
  number : Type;
  as_f64 : number -> option f64;
  (** [serde_json::Value::String(s).to_string()]. *)
  json_string : text -> text;
  (** [serde_json::from_str], or the rendering of its error. *)
  json_from_str : text -> result (Json number) text;
}.

(** ** Indexing *)

Definition f64_floor (negative : bool) (m : positive) (e : Z) : Z :=
  let z := if negative then Zneg m else Zpos m in
  if (0 <=? e)%Z then (z * 2 ^ e)%Z else (z / 2 ^ (- e))%Z.

Definition i32_max : Z := 2 ^ 31 - 1.

Definition integer_index (value : Value) : option nat :=
  let index := convert_to_number value in
  if f64_is_nan index || f64_lt index f64_zero then None
  else
    match index with
    | S754_zero _ => Some 0
    | S754_finite s m e =>
        let index := f64_floor s m e in
        if (i32_max <? index)%Z then None else Some (Z.to_nat index)
    | _ => None
    end.

Definition string_index (value : Value) : option text :=
  if is_primitive value then Some (convert_to_string value) else None.

Section Evaluator.
Context {CM : CaseMapper} {SJ : SerdeJson}.

(** One element of a filtered array under the index ([None] is a wildcard). *)
Definition filtered_step (index_value : option Value) (item : Value) : list Value :=
  match item with
  | VObject nested =>
      match index_value with
      | None => map snd (entries nested)
      | Some index =>
          match string_index index with
          | Some key => match object_get nested key with Some v => [v] | None => [] end
          | None => []
          end
      end
  | VArray nested =>
      match index_value with
      | None => items nested
      | Some index =>
          match integer_index index with
          | Some position => match items nested !! position with Some v => [v] | None => [] end
          | None => []
          end
      end
  | _ => []
  end.

Definition index_collection (collection : Value) (index_value : option Value) : ev Value :=
  match collection with
  | VArray array =>
      if filtered array then filtered_array (flat_map (filtered_step index_value) (items array))
      else
        match index_value with
        | None => filtered_array (items array)
        | Some index =>
            ev_ret (match integer_index index with
                    | Some position => default VNull (items array !! position)
                    | None => VNull
                    end)
        end
  | VObject object =>
      match index_value with
      | None => filtered_array (map snd (entries object))
      | Some index =>
          ev_ret (match string_index index with
                  | Some key => default VNull (object_get object key)
                  | None => VNull
                  end)
      end
  | _ => ev_ret VNull
  end.

Definition evaluate_index (target : ev Value) (is_wildcard : bool) (index : ev Value) : ev Value :=
  let! lhs := target in
  match lhs with
  | VArray _ | VObject _ =>
      let! index_value :=
        (if is_wildcard then ev_ret None else let! i := index in ev_ret (Some i)) in
      index_collection lhs index_value
  | _ => if is_wildcard then filtered_array [] else ev_ret VNull
  end.

(** ** Well-known functions *)

(** [args[i]]. *)
Definition arg (args : list (ev Value)) (i : nat) : ev Value :=
  match args !! i with Some m => m | None => ev_fail EPanic end.

Fixpoint case_loop (args : list (ev Value)) : ev Value :=
  match args with
  | predicate :: value :: rest =>
      let! p := predicate in
      match p with
      | VBoolean matched => if matched : bool then value else case_loop rest
      | _ => evaluation (txt "case predicate must evaluate to a boolean value")
      end
  | [otherwise] => otherwise
  | [] => ev_fail EPanic
  end.

Definition evaluate_case (args : list (ev Value)) : ev Value :=
  if Nat.even (length args) then evaluation (txt "case requires an odd number of arguments")
  else case_loop args.

Definition evaluate_contains (args : list (ev Value)) : ev Value :=
  let! lhs := arg args 0 in
  if is_primitive lhs then
    let! rhs := arg args 1 in
    ev_ret (VBoolean (is_primitive rhs &&
      ordinal_ignore_case_contains (convert_to_string lhs) (convert_to_string rhs)))
  else
    match lhs with
    | VArray array =>
        match items array with
        | [] => ev_ret (VBoolean false)
        | items =>
            let! rhs := arg args 1 in
            ev_ret (VBoolean (existsb (abstract_equal rhs) items))
        end
    | _ => ev_ret (VBoolean false)
    end.

Definition evaluate_affix_args (args : list (ev Value)) : ev (option text * option text) :=
  let! lhs := arg args 0 in
  if negb (is_primitive lhs) then ev_ret (None, None)
  else
    let! rhs := arg args 1 in
    if negb (is_primitive rhs) then ev_ret (Some (convert_to_string lhs), None)
    else ev_ret (Some (convert_to_string lhs), Some (convert_to_string rhs)).

Definition evaluate_affix (test : text -> text -> bool) (args : list (ev Value)) : ev Value :=
  let! affix := evaluate_affix_args args in
  ev_ret (VBoolean (match affix with
                    | (Some l, Some r) => test l r
                    | _ => false
                    end)).

(** *** [format] *)

Definition find_from (c : char) (chars : text) (i : nat) : option nat :=
  (fun '(p, _) => i + p) <$> list_find (eq c) (drop i chars).

Definition read_arg_index (chars : text) (start : nat) : option (nat * nat) :=
  let digits := (span is_ascii_digit (drop start chars)).1 in
  match digits with
  | [] => None
  | _ =>
      if (digits_value digits <=? 255)%Z
      then Some (Z.to_nat (digits_value digits), start + length digits - 1)
      else None
  end.

(** The loop of [read_format_specifiers] from its first character, and the
    distance of the closing brace. *)
Fixpoint specifiers_loop (s : text) : option (text * nat) :=
  match s with
  | [] => None
  | c :: s' =>
      if negb (is_chr "}" c) then
        '(specifiers, n) ← specifiers_loop s'; Some (c :: specifiers, S n)
      else
        match s' with
        | c' :: s'' =>
            if is_chr "}" c' then
              '(specifiers, n) ← specifiers_loop s''; Some (c :: specifiers, S (S n))
            else Some ([], 0)
        | [] => Some ([], 0)
        end
  end.

Definition read_format_specifiers (chars : text) (start : nat) : option (text * nat) :=
  match chars !! start with
  | Some c =>
      if is_chr "}" c then Some ([], start)
      else if is_chr ":" c then
        '(specifiers, n) ← specifiers_loop (drop (S start) chars); Some (specifiers, S start + n)
      else None
  | None => None
  end.

Section Format.
Context (format : text) (argument_count : nat) (resolve : nat -> ev Value).

Definition invalid {A} : ev A := evaluation (txt "Invalid format string: " ++ format).

(** A placeholder whose left brace is at [lbrace]: the text it expands to, the
    updated cache and the position of its right brace. *)
Definition placeholder (cache : list (option text)) (lbrace : nat) (rbrace : option nat) :
    ev (text * list (option text) * nat) :=
  if match rbrace with Some r => (r <=? lbrace + 1)%nat | None => true end then invalid
  else
    match read_arg_index format (lbrace + 1) with
    | None => invalid
    | Some (arg_index, end_arg_index) =>
        match read_format_specifiers format (end_arg_index + 1) with
        | None => invalid
        | Some (specifiers, rbrace) =>
            if (argument_count <=? arg_index)%nat then
              evaluation (txt "The following format string references more arguments than were supplied: "
                          ++ format)
            else if negb (bool_decide (specifiers = [])) then
              let! v := resolve arg_index in
              evaluation (txt "The format specifiers '" ++ specifiers ++
                          txt "' are not valid for objects of type '" ++ kind_as_str (kind v) ++ txt "'")
            else
              match cache !! arg_index with
              | None => ev_fail EPanic
              | Some (Some cached) => ev_ret (cached, cache, rbrace)
              | Some None =>
                  let! v := resolve arg_index in
                  ev_ret (convert_to_string v, <[arg_index := Some (convert_to_string v)]> cache, rbrace)
              end
        end
    end.

Fixpoint format_loop (fuel : nat) (cache : list (option text)) (result : text) (index : nat) : ev text :=
  match fuel with
  | O => ev_ret result
  | S fuel =>
      if (length format <=? index)%nat then ev_ret result
      else
        let lbrace := find_from (chr "{") format index in
        let rbrace := find_from (chr "}") format index in
        let right_only (rbrace : nat) :=
          if bool_decide (format !! (rbrace + 1) = Some (chr "}")) then
            format_loop fuel cache (result ++ substring format index (rbrace + 1)) (rbrace + 2)
          else invalid in
        match lbrace, rbrace with
        | Some lb, _ =>
            if match rbrace with Some r => (lb <? r)%nat | None => true end then
              if bool_decide (format !! (lb + 1) = Some (chr "{")) then
                format_loop fuel cache (result ++ substring format index (lb + 1)) (lb + 2)
              else
                let! '(expansion, cache, rb) := placeholder cache lb rbrace in
                format_loop fuel cache (result ++ substring format index lb ++ expansion) (rb + 1)
            else
              match rbrace with
              | Some r => right_only r
              | None => ev_ret (result ++ drop index format)
              end
        | None, Some r => right_only r
        | None, None => ev_ret (result ++ drop index format)
        end
  end.

(** Every iteration moves the index forward, so the length bounds the loop. *)
Definition format_template : ev text :=
  format_loop (S (length format)) (repeat None argument_count) [] 0.

End Format.

Definition evaluate_format (args : list (ev Value)) : ev Value :=
  let! format := arg args 0 in
  let! s := format_template (convert_to_string format) (length args - 1) (fun i => arg args (i + 1)) in
  ev_ret (VString s).

(** *** [join] *)

(** [slice::join]. *)
Fixpoint join_texts (separator : text) (l : list text) : text :=
  match l with
  | [] => []
  | [s] => s
  | s :: l => s ++ separator ++ join_texts separator l
  end.

Definition evaluate_join (args : list (ev Value)) : ev Value :=
  let! values := arg args 0 in
  match values with
  | VArray array =>
      match items array with
      | [] => ev_ret (VString [])
      | items =>
          let! separator :=
            (if (1 <? length args)%nat && (1 <? length items)%nat then
               let! separator := arg args 1 in
               ev_ret (if is_primitive separator then convert_to_string separator else txt ",")
             else ev_ret (txt ",")) in
          ev_ret (VString (join_texts separator (map convert_to_string items)))
      end
  | VObject _ => ev_ret (VString [])
  | _ => ev_ret (VString (convert_to_string values))
  end.

(** *** [toJson] and [fromJson] *)

Inductive JsonPrefix : Type := Root | MappingValue | Element (first : bool).

Definition newline : char := 10%N.
Definition indentation (level : nat) : text := repeat (chr " ") (2 * level).

Definition prefix_text (p : JsonPrefix) (level : nat) : text :=
  match p with
  | Root => []
  | MappingValue => txt ": "
  | Element first => (if first then [] else txt ",") ++ newline :: indentation level
  end.

Fixpoint write_json (value : Value) (level : nat) (p : JsonPrefix) : text :=
  let prefix := prefix_text p level in
  match value with
  | VObject {| entries := (_ :: _) as fields |} =>
      let fix write_entries (first : bool) (l : list (text * Value)) : text :=
        match l with
        | [] => []
        | (key, entry) :: l =>
            prefix_text (Element first) (S level) ++ json_string key ++
            write_json entry (S level) MappingValue ++ write_entries false l
        end in
      prefix ++ chr "{" :: write_entries true fields ++ newline :: indentation level ++ [chr "}"]
  | VArray {| items := (_ :: _) as values |} =>
      let fix write_items (first : bool) (l : list Value) : text :=
        match l with
        | [] => []
        | item :: l => write_json item (S level) (Element first) ++ write_items false l
        end in
      prefix ++ chr "[" :: write_items true values ++ newline :: indentation level ++ [chr "]"]
  | VNull => prefix ++ txt "null"
  | VBoolean b => prefix ++ (if b then txt "true" else txt "false")
  | VNumber n => prefix ++ format_number n
  | VString s => prefix ++ json_string s
  | VArray _ => prefix ++ txt "[]"
  | VObject _ => prefix ++ txt "{}"
  end.

Definition to_json (value : Value) : text := write_json value 0 Root.

Fixpoint from_serde_json (value : Json number) : ev Value :=
  match value with
  | JNull => ev_ret VNull
  | JBool b => ev_ret (VBoolean b)
  | JNumber n => ev_ret (VNumber (default f64_nan (as_f64 n)))
  | JString s => ev_ret (VString s)
  | JArray l => let! values := ev_all (map from_serde_json l) in new_array values
  | JObject l =>
      let! fields := ev_all (map (fun '(key, value) =>
        let! v := from_serde_json value in ev_ret (key, v)) l) in
      new_object false fields
  end.

Definition from_json (json : text) : ev Value :=
  match json_from_str json with
  | Ok parsed => from_serde_json parsed
  | Err error => evaluation (txt "Unable to parse JSON: " ++ error)
  end.

(** ** Nodes *)

Context {PE : ParseEnvironment} {EC : EvaluationContext}.

Definition evaluate_function (name : text) (args : list (ev Value)) : ev Value :=
  if bool_decide (name = txt "case") then evaluate_case args
  else if bool_decide (name = txt "contains") then evaluate_contains args
  else if bool_decide (name = txt "startsWith") then
    evaluate_affix ordinal_ignore_case_starts_with args
  else if bool_decide (name = txt "endsWith") then evaluate_affix ordinal_ignore_case_ends_with args
  else if bool_decide (name = txt "format") then evaluate_format args
  else if bool_decide (name = txt "join") then evaluate_join args
  else if bool_decide (name = txt "toJson") then
    let! value := arg args 0 in ev_ret (VString (to_json value))
  else if bool_decide (name = txt "fromJson") then
    let! json := arg args 0 in from_json (convert_to_string json)
  else let! values := ev_all args in ev_call name values.

(** The loops of [And] and [Or] with the value of the last operand so far. *)
Fixpoint evaluate_and (result : Value) (l : list (ev Value)) : ev Value :=
  match l with
  | [] => ev_ret result
  | m :: l => let! v := m in if is_falsy v then ev_ret v else evaluate_and v l
  end.
Fixpoint evaluate_or (result : Value) (l : list (ev Value)) : ev Value :=
  match l with
  | [] => ev_ret result
  | m :: l => let! v := m in if is_truthy v then ev_ret v else evaluate_or v l
  end.

Definition compare_values (op : BinaryOperator) (left right : Value) : bool :=
  match op with
  | Equal => abstract_equal left right
  | NotEqual => abstract_not_equal left right
  | GreaterThan => abstract_greater_than left right
  | GreaterThanOrEqual => abstract_greater_than_or_equal left right
  | LessThan => abstract_less_than left right
  | LessThanOrEqual => abstract_less_than_or_equal left right
  end.

Definition is_wildcard_node (n : Node) : bool := match n with NWildcard => true | _ => false end.

Fixpoint evaluate_node (node : Node) : ev Value :=
  match node with
  | NLiteral value => ev_ret value
  | NWildcard => ev_ret (VString (txt "*"))
  | NNamedValue name => ev_named name
  | NNot inner => let! value := evaluate_node inner in ev_ret (VBoolean (is_falsy value))
  | NAnd parameters => evaluate_and VNull (map evaluate_node parameters)
  | NOr parameters => evaluate_or VNull (map evaluate_node parameters)
  | NBinary op lhs rhs =>
      let! l := evaluate_node lhs in
      let! r := evaluate_node rhs in
      ev_ret (VBoolean (compare_values op l r))
  | NIndex target index =>
      evaluate_index (evaluate_node target) (is_wildcard_node index) (evaluate_node index)
  | NFunction name args => evaluate_function name (map evaluate_node args)
  end.

Definition evaluate (expression : text) : ev Value :=
  match parse expression with
  | Err (PError e) => ev_fail (EError (EParse e))
  | Err Panic => ev_fail EPanic
  | Ok None => ev_ret VNull
  | Ok (Some node) => evaluate_node node
  end.

End Evaluator.

(** ** Host contexts as expression values

    The context tree of [crates/velnor-model/src/context_value.rs]. *)

Inductive NonFinite : Type := NotANumber | PositiveInfinity | NegativeInfinity.

Inductive ContextValue (number : Type) : Type :=
| CNull
| CUndefined
| CBool (b : bool)
| CNumber (n : number)
| CBigInteger (digits : text)
| CNonFinite (n : NonFinite)
| CString (s : text)
| CArray (l : list (ContextValue number))
| CConstructor (name : text) (arguments : list (ContextValue number))
| CObject (sensitive : bool) (l : list (text * ContextValue number)).
Arguments CNull {number}.
Arguments CUndefined {number}.
Arguments CBool {number} b.
Arguments CNumber {number} n.
Arguments CBigInteger {number} digits.
Arguments CNonFinite {number} n.
Arguments CString {number} s.
Arguments CArray {number} l.
Arguments CConstructor {number} name arguments.
Arguments CObject {number} sensitive l.

(** [strip_prefix('-').unwrap_or(value)]. *)
Definition strip_minus (value : text) : text :=
  match value with c :: rest => if is_chr "-" c then rest else value | [] => [] end.
Definition starts_with_minus (value : text) : bool :=
  match value with c :: _ => is_chr "-" c | [] => false end.

Definition big_integer_to_f64 (value : text) : f64 :=
  match f64_from_str value with
  | Some number => number
  | None =>
      let digits := strip_minus value in
      if negb (bool_decide (digits = [])) && forallb is_ascii_digit digits
      then f64_infinity (starts_with_minus value)
      else f64_nan
  end.

Fixpoint from_context_value `{SerdeJson} (value : ContextValue number) : ev Value :=
  match value with
  | CNull | CUndefined | CConstructor _ _ => ev_ret VNull
  | CBool b => ev_ret (VBoolean b)
  | CNumber n => ev_ret (VNumber (default f64_nan (as_f64 n)))
  | CBigInteger digits => ev_ret (VNumber (big_integer_to_f64 digits))
  | CNonFinite n =>
      ev_ret (VNumber (match n with
                       | NotANumber => f64_nan
                       | PositiveInfinity => f64_infinity false
                       | NegativeInfinity => f64_infinity true
                       end))
  | CString s => ev_ret (VString s)
  | CArray l => let! values := ev_all (map from_context_value l) in new_array values
  | CObject sensitive l =>
      let! fields := ev_all (map (fun '(key, value) =>
        let! v := from_context_value value in ev_ret (key, v)) l) in
      new_object sensitive fields
  end.
