(* ===== verification/ExprLexProofs.v ===== *)
(** * What the lexical analyzer guarantees

    Every token is a nonempty piece of the expression, the tokens and the white
    space between them tile it, a token other than [Unexpected] is legal after
    its predecessor and keeps the brackets balanced, and a keyword read as a
    function is followed by its opening parenthesis. *)

From Stdlib Require Import ZArith Lia SpecFloat Ascii.
From stdpp Require Import base list strings.
From S2P Require Import Prelude ExprText ExprValue ExprLexer.

(** ** Scanning *)

Lemma span_app p s : (span p s).1 ++ (span p s).2 = s.
Proof. induction s as [|c s IH]; cbn; [done|]. destruct (p c); [|done]. destruct (span p s). cbn in *. congruence. Qed.

Lemma span_Forall p s : Forall (fun c => p c = true) (span p s).1.
Proof.
  induction s as [|c s IH]; cbn; [done|]. destruct (p c) eqn:P; [|done]. destruct (span p s). by constructor.
Qed.

Lemma span_rest p s : match (span p s).2 with [] => True | c :: _ => p c = false end.
Proof. induction s as [|c s IH]; cbn; [done|]. destruct (p c) eqn:P; [|done]. by destruct (span p s). Qed.

Lemma span_length p s : length (span p s).1 <= length s.
Proof. rewrite <- (span_app p s) at 2. rewrite length_app. lia. Qed.

Lemma scan_ge p e i : i <= scan p e i.
Proof. unfold scan. lia. Qed.

Lemma scan_le p e i : i <= length e -> scan p e i <= length e.
Proof. unfold scan. intros. pose proof (span_length p (drop i e)). rewrite length_drop in *. lia. Qed.

Lemma drop_scan p e i : drop (scan p e i) e = (span p (drop i e)).2.
Proof.
  unfold scan. rewrite <- drop_drop. rewrite <- (span_app p (drop i e)) at 2.
  by rewrite drop_app_length.
Qed.

Lemma substring_scan p e i : substring e i (scan p e i) = (span p (drop i e)).1.
Proof.
  unfold substring, scan. replace (i + _ - i) with (length (span p (drop i e)).1) by lia.
  rewrite <- (span_app p (drop i e)) at 2. by rewrite take_app_length.
Qed.

Lemma scan_stop p e i c : e !! scan p e i = Some c -> p c = false.
Proof.
  intros H. pose proof (span_rest p (drop i e)) as R. rewrite <- drop_scan in R.
  by rewrite (drop_S _ _ _ H) in R.
Qed.

(** ** Pieces of the expression *)

Lemma substring_app e i j k : i <= j -> j <= k -> substring e i j ++ substring e j k = substring e i k.
Proof.
  intros. unfold substring. replace (k - i) with ((j - i) + (k - j)) by lia.
  rewrite <- take_take_drop, drop_drop. do 3 f_equal. lia.
Qed.

Lemma substring_full e : substring e 0 (length e) = e.
Proof. unfold substring. rewrite drop_0, Nat.sub_0_r. apply firstn_all. Qed.

Lemma substring_length e i j : j <= length e -> length (substring e i j) = j - i.
Proof. intros. unfold substring. rewrite length_take, length_drop. lia. Qed.

Lemma substring_single e i c : e !! i = Some c -> substring e i (S i) = [c].
Proof. intros H. unfold substring. rewrite (drop_S _ _ _ H). replace (S i - i) with 1 by lia. done. Qed.

(** ** Creating a token *)

(** The stack of unclosed tokens after a token, if the token may close or
    separate there. *)
Definition unclosed_step (u : list Token) (t : Token) : option (list Token) :=
  let close open := if bool_decide (tk_kind <$> head u = Some open) then Some (tail u) else None in
  match tk_kind t with
  | StartGroup | StartIndex | StartParameters => Some (t :: u)
  | EndGroup => close StartGroup
  | EndIndex => close StartIndex
  | EndParameters => close StartParameters
  | Separator => if bool_decide (tk_kind <$> head u = Some StartParameters) then Some u else None
  | _ => Some u
  end.

(** A token is accepted when its kind may follow the last one and it respects
    the brackets. *)
Definition accepted (l : LexicalAnalyzer) (t : Token) (u : list Token) : Prop :=
  legal_here l (tk_kind t) (raw_value t) = true /\ unclosed_step (unclosed_tokens l) t = Some u.

Lemma create_token_spec l k raw i v t l' :
  create_token l k raw i v = (t, l') ->
  raw_value t = raw /\ tk_index t = i /\
  lx_expression l' = lx_expression l /\ lx_index l' = lx_index l /\
  lx_last_token l' = lx_last_token l /\
  (tk_kind t = Unexpected \/
   tk_kind t = k /\ parsed_value t = v /\ accepted l t (unclosed_tokens l')).
Proof.
  unfold create_token, accepted, unclosed_step, peek_unclosed.
  destruct (legal_here l k raw) eqn:L; cbn; [|intros [= <- <-]; cbn; auto 10].
  destruct k; cbn; try (intros [= <- <-]; cbn; auto 10).
  all: case_bool_decide; intros [= <- <-]; cbn; repeat (split; [done|]); auto.
  all: right; repeat (split; [done|]); by rewrite bool_decide_eq_true_2.
Qed.

(** Every branch of the dispatch creates one token from the piece of the
    expression it consumed. *)
Definition reads (l : LexicalAnalyzer) (r : Token * LexicalAnalyzer) : Prop :=
  let e := lx_expression l in
  let i := lx_index l in
  exists j k v, r = create_token (set_index j l) k (substring e i j) i v /\ i < j <= length e /\
    (k = TFunction -> exists m, scan is_whitespace e j = m /\ e !! m = Some (chr "(")) /\
    (k = LogicalOperator -> is_operator1 (substring e i j) = true \/ is_operator2 (substring e i j) = true) /\
    (k = PropertyName -> last_kind l = Some Dereference).

Lemma single_reads l k c :
  lx_expression l !! lx_index l = Some c -> k <> TFunction -> k <> LogicalOperator -> k <> PropertyName ->
  reads l (single l k c).
Proof.
  intros C K1 K2 K3. pose proof (lookup_lt_Some _ _ _ C). unfold reads, single. exists (S (lx_index l)), k, None.
  rewrite (substring_single _ _ _ C). split_and!; try done; lia.
Qed.

Ltac reads_ok := split_and!; try done; try lia.

Lemma number_reads l : lx_index l < length (lx_expression l) -> reads l (read_number_token l).
Proof.
  intros I. unfold reads, read_number_token. set (j := scan _ _ (S (lx_index l))).
  assert (lx_index l < j <= length (lx_expression l)).
  { subst j. split; [apply scan_ge|apply scan_le; lia]. }
  destruct (f64_is_nan _); do 3 eexists; reads_ok.
Qed.

Lemma keyword_reads l : lx_index l < length (lx_expression l) -> reads l (read_keyword_token l).
Proof.
  intros I. unfold reads, read_keyword_token. set (j := scan _ _ (S (lx_index l))).
  assert (lx_index l < j <= length (lx_expression l)).
  { subst j. split; [apply scan_ge|apply scan_le; lia]. }
  destruct (negb _); [do 3 eexists; reads_ok|].
  case_bool_decide as D; [do 3 eexists; reads_ok|].
  do 5 (case_bool_decide; [do 3 eexists; reads_ok|]).
  case_bool_decide; do 3 eexists; reads_ok; eauto.
Qed.

Lemma string_body_length s : (string_body s).1.2 <= length s.
Proof.
  induction s as [s IH] using (induction_ltof1 _ length). destruct s as [|c s]; cbn; [done|].
  destruct (is_chr "'" c).
  - destruct s as [|c' s]; cbn; [lia|]. destruct (is_chr "'" c'); [|cbn; lia].
    specialize (IH s). destruct (string_body s) as [[v n] b]. unfold ltof in IH. cbn in *. lia.
  - specialize (IH s). destruct (string_body s) as [[v n] b]. unfold ltof in IH. cbn in *. lia.
Qed.

Lemma string_reads l : lx_index l < length (lx_expression l) -> reads l (read_string_token l).
Proof.
  intros I. unfold reads, read_string_token.
  pose proof (string_body_length (drop (S (lx_index l)) (lx_expression l))) as B.
  rewrite length_drop in B. destruct (string_body _) as [[v n] b]. cbn in B.
  destruct b; exists (S (lx_index l) + n); do 2 eexists; reads_ok.
Qed.

Lemma operator_reads l : lx_index l < length (lx_expression l) -> reads l (read_operator l).
Proof.
  intros I. unfold reads, read_operator.
  destruct (_ && _) eqn:E.
  { apply andb_true_iff in E as [L%Nat.ltb_lt E]. exists (lx_index l + 2). do 2 eexists. reads_ok. auto. }
  replace (S (lx_index l)) with (lx_index l + 1) by lia.
  destruct (is_operator1 _) eqn:E1.
  { exists (lx_index l + 1). do 2 eexists. reads_ok. auto. }
  pose proof (scan_ge (fun c => negb (is_token_boundary c)) (lx_expression l) (lx_index l + 1)).
  pose proof (scan_le (fun c => negb (is_token_boundary c)) (lx_expression l) (lx_index l + 1)).
  eexists; do 2 eexists; reads_ok.
Qed.

Lemma read_token_reads l c : lx_expression l !! lx_index l = Some c -> reads l (read_token l c).
Proof.
  intros C. pose proof (lookup_lt_Some _ _ _ C) as I. unfold read_token.
  repeat lazymatch goal with
  | |- reads _ (if ?b then _ else _) => destruct b
  end; auto using number_reads, keyword_reads, string_reads, operator_reads.
  all: apply single_reads; try done; by case_bool_decide.
Qed.

(** ** The next token *)

(** What one call of [next_token] gives: the white space it skipped, the piece
    of the expression the token is, and its legality. *)
Record next_spec (l : LexicalAnalyzer) (t : Token) (l' : LexicalAnalyzer) : Prop := {
  ns_expression : lx_expression l' = lx_expression l;
  ns_start : lx_index l <= tk_index t;
  ns_forward : tk_index t < lx_index l' <= length (lx_expression l);
  ns_space : Forall (fun c => is_whitespace c = true)
    (substring (lx_expression l) (lx_index l) (tk_index t));
  ns_raw : raw_value t = substring (lx_expression l) (tk_index t) (lx_index l');
  ns_last : lx_last_token l' = Some t;
  ns_accepted : tk_kind t <> Unexpected -> accepted l t (unclosed_tokens l');
  ns_function : tk_kind t = TFunction ->
    lx_expression l !! scan is_whitespace (lx_expression l) (lx_index l') = Some (chr "(");
  ns_logical : tk_kind t = LogicalOperator ->
    is_operator1 (raw_value t) = true \/ is_operator2 (raw_value t) = true;
}.

Lemma legal_here_last l l' k raw :
  lx_last_token l = lx_last_token l' -> legal_here l k raw = legal_here l' k raw.
Proof. unfold legal_here, check_last_token, last_kind. by intros ->. Qed.

Lemma next_token_spec l t l' : next_token l = (Some t, l') -> next_spec l t l'.
Proof.
  unfold next_token, char_at. set (i := scan is_whitespace (lx_expression l) (lx_index l)).
  cbn [lx_expression lx_index set_index].
  destruct (lx_expression l !! i) as [c|] eqn:C; [|done].
  destruct (read_token (set_index i l) c) as [t0 l0] eqn:R. intros [= <- <-].
  pose proof (read_token_reads (set_index i l) c C) as (j & k & v & E & J & F & O & _).
  rewrite R in E. symmetry in E. cbn in *.
  apply create_token_spec in E as (Hr & Hi & He & Hj & Hl & Hk). cbn in *.
  constructor; cbn; rewrite ?Hi, ?Hj, ?Hr; try done.
  - apply scan_ge.
  - unfold i. rewrite substring_scan. apply span_Forall.
  - intros U. destruct Hk as [?|(Hk & _ & A)]; [done|]. destruct A as [A1 A2]. split; [|done].
    by rewrite <- A1.
  - intros U. destruct Hk as [?|(Hk & _)]; [congruence|]. rewrite U in Hk. destruct F as (m & <- & M); [done|done].
  - intros U. destruct Hk as [?|(Hk & _)]; [congruence|]. apply O. congruence.
Qed.

Lemma next_token_end l l' : next_token l = (None, l') ->
  lx_index l <= length (lx_expression l) ->
  Forall (fun c => is_whitespace c = true) (drop (lx_index l) (lx_expression l)) /\
  unclosed_tokens l' = unclosed_tokens l /\ lx_last_token l' = lx_last_token l.
Proof.
  unfold next_token, char_at. cbn.
  destruct (_ !! _) eqn:C; [by destruct (read_token _ _)|]. intros [= <-] I. cbn. split; [|done].
  apply lookup_ge_None in C. pose proof (drop_scan is_whitespace (lx_expression l) (lx_index l)) as D.
  rewrite drop_ge in D by done. pose proof (span_app is_whitespace (drop (lx_index l) (lx_expression l))) as A.
  rewrite <- D, app_nil_r in A. rewrite <- A. apply span_Forall.
Qed.

(** A keyword is read as a function only when its parenthesis follows. *)
Lemma function_then_paren l t l' : next_token l = (Some t, l') -> tk_kind t = TFunction ->
  exists p l'', next_token l' = (Some p, l'').
Proof.
  intros [? ? ? ? ? ? ? F ?]%next_token_spec K. specialize (F K).
  unfold next_token, char_at. cbn. rewrite ns_expression0, F.
  destruct (read_token _ _) as [p l'']. eauto.
Qed.

(** ** All tokens *)

Fixpoint lex (fuel : nat) (l : LexicalAnalyzer) : list Token * LexicalAnalyzer :=
  match fuel with
  | O => ([], l)
  | S fuel =>
      match next_token l with
      | (None, l') => ([], l')
      | (Some t, l') => let '(ts, l'') := lex fuel l' in (t :: ts, l'')
      end
  end.

(** The tokens of an expression; one more step than it has characters. *)
Definition tokens (e : text) : list Token := (lex (S (length e)) (new_lexer e)).1.
Definition final_lexer (e : text) : LexicalAnalyzer := (lex (S (length e)) (new_lexer e)).2.

(** More fuel than characters left changes nothing: the loop has ended. *)
Lemma lex_enough n m l :
  lx_index l <= length (lx_expression l) ->
  length (lx_expression l) - lx_index l < n -> n <= m -> lex m l = lex n l.
Proof.
  revert m l. induction n as [|n IH]; intros m l I N M; [lia|]. destruct m as [|m]; [lia|]. cbn.
  destruct (next_token l) as [[t|] l'] eqn:T; [|done].
  apply next_token_spec in T as []. rewrite (IH m l'); [done|..]; rewrite ?ns_expression0; lia.
Qed.

(** Tokens and the white space around them tile the rest of the expression. *)
Inductive tiles : nat -> list Token -> text -> Prop :=
| tiles_end i space : Forall (fun c => is_whitespace c = true) space -> tiles i [] space
| tiles_token i space t ts rest :
    Forall (fun c => is_whitespace c = true) space ->
    tk_index t = i + length space -> raw_value t <> [] ->
    tiles (tk_index t + length (raw_value t)) ts rest ->
    tiles i (t :: ts) (space ++ raw_value t ++ rest).

Lemma lex_tiles n l :
  lx_index l <= length (lx_expression l) -> length (lx_expression l) - lx_index l < n ->
  tiles (lx_index l) (lex n l).1 (drop (lx_index l) (lx_expression l)).
Proof.
  revert l. induction n as [|n IH]; intros l I N; [lia|]. cbn.
  destruct (next_token l) as [[t|] l'] eqn:T.
  2: { constructor. by eapply next_token_end. }
  apply next_token_spec in T as []. specialize (IH l'). destruct (lex n l') as [ts l'']. cbn in *.
  rewrite ns_expression0 in IH.
  assert (S : forall i j, i <= j -> j <= length (lx_expression l) ->
    drop i (lx_expression l) = substring (lx_expression l) i j ++ drop j (lx_expression l)).
  { intros i j A B. unfold substring. rewrite <- (take_drop (j - i) (drop i _)) at 1.
    rewrite drop_drop. do 2 f_equal. lia. }
  rewrite (S (lx_index l) (tk_index t)), (S (tk_index t) (lx_index l')) by lia. rewrite <- ns_raw0.
  assert (L : length (raw_value t) = lx_index l' - tk_index t).
  { rewrite ns_raw0. apply substring_length. lia. }
  constructor; [done|rewrite substring_length; lia|intros E; rewrite E in L; cbn in L; lia|].
  replace (tk_index t + length (raw_value t)) with (lx_index l') by lia. apply IH; lia.
Qed.

(** ** Literals *)

(** How a string is written in an expression. *)
Definition escape_quotes (s : text) : text :=
  flat_map (fun c => if is_chr "'" c then [c; c] else [c]) s.
Definition quote (s : text) : text := chr "'" :: escape_quotes s ++ [chr "'"].

Lemma string_body_escape s rest :
  match rest with [] => True | c :: _ => is_chr "'" c = false end ->
  string_body (escape_quotes s ++ chr "'" :: rest) = (s, S (length (escape_quotes s)), true).
Proof.
  intros R. unfold escape_quotes. induction s as [|c s IH]; cbn.
  - rewrite is_chr_refl. destruct rest as [|c rest]; [done|]. by rewrite R.
  - destruct (is_chr "'" c) eqn:C; cbn; rewrite C; cbn; rewrite ?C, IH; done.
Qed.

Lemma quote_length s : length (quote s) = S (S (length (escape_quotes s))).
Proof. unfold quote. cbn. rewrite length_app. cbn. lia. Qed.

Lemma quote_next s : next_token (new_lexer (quote s)) =
  (Some (mk_token TString (quote s) 0 (Some (VString s))),
   set_last (mk_token TString (quote s) 0 (Some (VString s)))
     (set_index (length (quote s)) (new_lexer (quote s)))).
Proof.
  assert (B : string_body (drop 1 (quote s)) = (s, S (length (escape_quotes s)), true)).
  { by apply (string_body_escape s []). }
  unfold next_token. change (scan _ _ _) with 0. change (char_at _ _) with (Some (chr "'")). cbv iota.
  change (read_token _ _) with (read_string_token (new_lexer (quote s))).
  unfold read_string_token. cbn [lx_index lx_expression new_lexer]. rewrite B. cbv iota zeta.
  cbn [lx_expression set_index]. rewrite quote_length.
  by rewrite <- quote_length, substring_full, quote_length.
Qed.

Lemma next_token_none l : length (lx_expression l) <= lx_index l -> (next_token l).1 = None.
Proof.
  intros L. unfold next_token, char_at. cbn.
  destruct (_ !! _) as [c|] eqn:C; [|done]. apply lookup_lt_Some in C.
  pose proof (scan_ge is_whitespace (lx_expression l) (lx_index l)). lia.
Qed.

(** A string written in an expression with its quotes doubled lexes to one
    literal that holds exactly that string. *)
Theorem string_literal_round_trips (s : text) :
  tokens (quote s) = [mk_token TString (quote s) 0 (Some (VString s))].
Proof.
  unfold tokens. rewrite quote_length. cbn [lex]. rewrite quote_next. set (l := set_last _ _).
  destruct (next_token l) as [o l'] eqn:N.
  assert (o = None) as ->; [|done]. change o with (o, l').1. rewrite <- N. by apply next_token_none.
Qed.

(** The tokens of an expression and the white space around them tile it:
    each token is the nonempty piece of the text at its index, nothing but
    white space lies between two tokens, and nothing is left over. *)
Theorem tokens_tile_the_expression (e : text) : tiles 0 (tokens e) e.
Proof. apply (lex_tiles (S (length e)) (new_lexer e)); cbn; lia. Qed.
