(* ===== verification/ExprGrammar.v ===== *)
(** * The grammar of expressions, and the parser against it

    [Derives p ts n] is a reference grammar: the tokens [ts] form an expression
    whose outermost operator binds at least as tightly as [p], with tree [n].
    Operators associate to the left and are ranked by [precedence]; nested
    [&&] and [||] are flattened as the trees are built. This file proves that
    the shunting-yard parser of [ExprParser] accepts every derivation of the
    grammar and builds its tree. *)

From Stdlib Require Import ZArith Lia SpecFloat Ascii.
From stdpp Require Import base list strings sets.
From S2P Require Import Prelude ExprText ExprValue ExprLexer ExprParser ExprLexProofs.

#[local] Open Scope result_scope.

(** ** Tokens of the grammar *)

(** The tree of a binary operator. *)
Definition binary_node (t : Token) (l r : Node) : option Node :=
  if raw_is t "&&" then Some (NAnd (and_parameters l ++ and_parameters r))
  else if raw_is t "||" then Some (NOr (or_parameters l ++ or_parameters r))
  else (fun op => NBinary op l r) <$> binary_operator t.

(** A negation and an operator between two operands. *)
Definition is_not (t : Token) : Prop := tk_kind t = LogicalOperator /\ raw_value t = txt "!".
Definition is_binary (t : Token) : Prop :=
  tk_kind t = LogicalOperator /\
  raw_value t ∈ [txt "=="; txt "!="; txt ">"; txt ">="; txt "<"; txt "<="; txt "&&"; txt "||"].

(** What follows a dereference. *)
Definition member (t : Token) (n : Node) : Prop :=
  tk_kind t = PropertyName /\ n = NLiteral (VString (raw_value t)) \/
  tk_kind t = Wildcard /\ n = NWildcard.

Definition is_literal (k : TokenKind) : bool :=
  match k with TNull | TBoolean | TNumber | TString => true | _ => false end.

Section Grammar.
Context `{ParseEnvironment}.

(** A function with a fitting number of arguments, and its canonical name. *)
Definition function_name (raw canonical : text) : text :=
  match canonical with [] => raw | _ => canonical end.
Definition arity_fits (name : text) (lo hi count : nat) : Prop :=
  lo <= count <= hi /\ (eq_ignore_ascii_case name (txt "case") = true -> Nat.even count = false).

Inductive Derives : nat -> list Token -> Node -> Prop :=
| D_literal p t :
    is_literal (tk_kind t) = true -> Derives p [t] (NLiteral (default VNull (parsed_value t)))
| D_named p t :
    tk_kind t = TNamedValue -> is_named_value (raw_value t) = true ->
    Derives p [t] (NNamedValue (raw_value t))
| D_wildcard p t : tk_kind t = Wildcard -> Derives p [t] NWildcard
| D_group p o ts c n :
    tk_kind o = StartGroup -> tk_kind c = EndGroup ->
    Derives 1 ts n -> Derives p (o :: ts ++ [c]) n
| D_call p f o ts c canonical lo hi ns :
    tk_kind f = TFunction -> tk_kind o = StartParameters -> tk_kind c = EndParameters ->
    lookup_function (raw_value f) = Some (canonical, lo, hi) ->
    Arguments ts ns -> arity_fits (function_name (raw_value f) canonical) lo hi (length ns) ->
    Derives p (f :: o :: ts ++ [c]) (NFunction (function_name (raw_value f) canonical) ns)
| D_index p a l o ts c r :
    p <= 19 -> tk_kind o = StartIndex -> tk_kind c = EndIndex ->
    Derives 19 a l -> Derives 1 ts r -> Derives p (a ++ o :: ts ++ [c]) (NIndex l r)
| D_member p a l d t r :
    p <= 19 -> tk_kind d = Dereference -> member t r ->
    Derives 19 a l -> Derives p (a ++ [d; t]) (NIndex l r)
| D_not p t ts n :
    p <= 16 -> is_not t -> Derives 16 ts n -> Derives p (t :: ts) (NNot n)
| D_binary p a l t b r n :
    p <= precedence t -> is_binary t -> binary_node t l r = Some n ->
    Derives (precedence t) a l -> Derives (S (precedence t)) b r -> Derives p (a ++ t :: b) n
with Arguments : list Token -> list Node -> Prop :=
| A_none : Arguments [] []
| A_some ts ns : Arguments1 ts ns -> Arguments ts ns
with Arguments1 : list Token -> list Node -> Prop :=
| A_one ts n : Derives 1 ts n -> Arguments1 ts [n]
| A_more ts ns s ts' n :
    Arguments1 ts ns -> tk_kind s = Separator -> Derives 1 ts' n ->
    Arguments1 (ts ++ s :: ts') (ns ++ [n]).

Scheme Derives_mut := Minimality for Derives Sort Prop
  with Arguments_mut := Minimality for Arguments Sort Prop
  with Arguments1_mut := Minimality for Arguments1 Sort Prop.
Combined Scheme Derives_Arguments_ind from Derives_mut, Arguments_mut, Arguments1_mut.

Lemma Derives_weaken p q ts n : Derives p ts n -> q <= p -> Derives q ts n.
Proof.
  intros D Q. destruct D; solve [econstructor; (eassumption || lia)].
Qed.

(** ** Facts about tokens *)

Lemma raw_is_true t s : raw_is t s = true <-> raw_value t = txt s.
Proof. unfold raw_is. apply bool_decide_eq_true. Qed.

Lemma is_not_precedence t : is_not t ->
  precedence t = 16 /\ operand_count t = 1 /\ associativity t = RightToLeft.
Proof. intros [K R]. unfold precedence, operand_count, associativity, raw_is. by rewrite K, R. Qed.

Ltac binary_cases B :=
  let K := fresh "K" in let R := fresh "R" in
  destruct B as [K R]; rewrite !elem_of_cons in R; destruct_or! R; [..|by apply elem_of_nil in R].

Lemma is_binary_precedence t : is_binary t ->
  precedence t ∈ [5; 6; 10; 11] /\ operand_count t = 2 /\ associativity t = LeftToRight /\
  raw_is t "!" = false.
Proof.
  intros B. binary_cases B;
    unfold precedence, operand_count, associativity, raw_is; rewrite K, R; repeat split; cbn; set_solver.
Qed.

Lemma binary_node_Some t l r : is_binary t -> exists n, binary_node t l r = Some n.
Proof.
  intros B. binary_cases B; unfold binary_node, binary_operator, raw_is; rewrite R; cbn; eauto.
Qed.

(** ** The lexer plays no part in the stacks *)

Definition relex (l : LexicalAnalyzer) (r : parsing ParseContext) : parsing ParseContext :=
  match r with Ok c => Ok (set_lexer l c) | Err e => Err e end.
Definition relex2 {A} (l : LexicalAnalyzer) (r : parsing (A * ParseContext)) : parsing (A * ParseContext) :=
  match r with Ok (a, c) => Ok (a, set_lexer l c) | Err e => Err e end.

Lemma pop_operator_relex l c k : pop_operator (set_lexer l c) k = relex2 l (pop_operator c k).
Proof. unfold pop_operator. cbn. destruct (operators c); [done|]. by case_bool_decide. Qed.

Lemma pop_operands_relex l c n : pop_operands (set_lexer l c) n = relex2 l (pop_operands c n).
Proof. unfold pop_operands. cbn. by destruct (n <=? _). Qed.

Lemma attach_relex l c ps : attach_parameters (set_lexer l c) ps = relex l (attach_parameters c ps).
Proof.
  unfold attach_parameters. cbn. destruct (operands c) as [|[] ?]; try done.
  change (set_stacks ?a ?b (set_lexer l c)) with (set_lexer l (set_stacks a b c)).
  rewrite pop_operator_relex. destruct (pop_operator _ _) as [[s c3]|]; [|done]. cbn.
  destruct (lookup_function name) as [[[? ?] ?]|]; [|done]. by repeat case_match.
Qed.

Lemma end_parameters_relex l c :
  flush_top_end_parameters (set_lexer l c) = relex l (flush_top_end_parameters c).
Proof.
  unfold flush_top_end_parameters. rewrite pop_operator_relex.
  destruct (pop_operator c EndParameters) as [[t c1]|]; [|done]. cbn.
  case_bool_decide; cbn; [apply attach_relex|]. destruct (pop_separators (operators c1)) as [k ops].
  change (set_stacks _ ops (set_lexer l c1)) with (set_lexer l (set_stacks (operands c1) ops c1)).
  rewrite pop_operands_relex. destruct (pop_operands _ _) as [[ps c2]|]; [|done]. apply attach_relex.
Qed.

Lemma end_index_relex l c : flush_top_end_index (set_lexer l c) = relex l (flush_top_end_index c).
Proof.
  unfold flush_top_end_index. rewrite pop_operator_relex.
  destruct (pop_operator c EndIndex) as [[t c1]|]; [|done]. cbn. rewrite pop_operator_relex.
  destruct (pop_operator c1 StartIndex) as [[t2 c2]|]; [|done]. cbn. rewrite pop_operands_relex.
  destruct (pop_operands _ _) as [[ns c3]|]; [|done]. cbn. by destruct (two_operands ns) as [[]|].
Qed.

Lemma logical_relex l c t ns : logical_node (set_lexer l c) t ns = logical_node c t ns.
Proof. done. Qed.

Lemma flush_top_relex l c : flush_top_operator (set_lexer l c) = relex l (flush_top_operator c).
Proof.
  unfold flush_top_operator. cbn. destruct (operators c) as [|t ops] eqn:O; [done|]. cbn.
  change (set_stacks _ ops (set_lexer l c)) with (set_lexer l (set_stacks (operands c) ops c)).
  rewrite !pop_operands_relex, end_index_relex, end_parameters_relex, pop_operator_relex.
  destruct (tk_kind t); try done.
  all: lazymatch goal with
    | |- context [pop_operands] =>
        destruct (pop_operands _ _) as [[ns c1]|]; [|done]; cbn; rewrite ?logical_relex; try done;
        lazymatch goal with
        | |- context [logical_node ?a ?b ?d] => by destruct (logical_node a b d)
        | |- context [two_operands ?a] => by destruct (two_operands a) as [[]|]
        end
    | |- _ =>
        destruct (pop_operator c EndGroup) as [[t1 c1]|]; [|done]; cbn; rewrite pop_operator_relex;
        by destruct (pop_operator c1 StartGroup) as [[t2 c2]|]
    end.
Qed.

Lemma flush_while_relex n l q c : flush_while n q (set_lexer l c) = relex l (flush_while n q c).
Proof.
  revert c. induction n as [|n IH]; intros c; [done|]. cbn. destruct (operators c); [done|].
  destruct (_ && _); [|done]. rewrite flush_top_relex. destruct (flush_top_operator c); [|done]. apply IH.
Qed.

Lemma push_operator_relex l c t : push_operator (set_lexer l c) t = relex l (push_operator c t).
Proof.
  assert (G : forall c1, result_bind (Ok (set_lexer l c1)) (fun c =>
      let c := set_stacks (operands c) (t :: operators c) c in
      match tk_kind t with EndGroup | EndIndex | EndParameters => flush_top_operator c | _ => Ok c end) =
    relex l (result_bind (Ok c1) (fun c =>
      let c := set_stacks (operands c) (t :: operators c) c in
      match tk_kind t with EndGroup | EndIndex | EndParameters => flush_top_operator c | _ => Ok c end))).
  { intros c1. cbn. change (set_stacks ?a ?b (set_lexer l c1)) with (set_lexer l (set_stacks a b c1)).
    rewrite flush_top_relex. by destruct (tk_kind t). }
  unfold push_operator. cbn [operators set_lexer].
  destruct (associativity t); try apply G. rewrite flush_while_relex.
  destruct (flush_while _ _ c); [apply G|done].
Qed.

Lemma parse_token_relex l c t : parse_token (set_lexer l c) t = relex l (parse_token c t).
Proof.
  unfold parse_token. cbn. case_bool_decide; [done|]. destruct (is_operator t).
  - rewrite push_operator_relex. by destruct (push_operator c t).
  - unfold push_operand. cbn. destruct (tk_kind t); try done.
    + by destruct (lookup_function _) as [[[? ?] ?]|].
    + by destruct (is_named_value _).
Qed.

(** ** Running the parser over a list of tokens *)

Fixpoint parse_all (c : ParseContext) (ts : list Token) : parsing ParseContext :=
  match ts with
  | [] => Ok c
  | t :: ts => let? c := parse_token c t in parse_all c ts
  end.

Lemma parse_all_app c a b : parse_all c (a ++ b) = let? c := parse_all c a in parse_all c b.
Proof. revert c. induction a as [|t a IH]; intros c; [done|]. cbn. destruct (parse_token c t); [apply IH|done]. Qed.

Lemma parse_all_relex l c ts : parse_all (set_lexer l c) ts = relex l (parse_all c ts).
Proof.
  revert c. induction ts as [|t ts IH]; intros c; [done|]. cbn. rewrite parse_token_relex.
  destruct (parse_token c t); [apply IH|done].
Qed.

(** The token loop of [parse] runs the parser over the tokens of the lexer. *)
Lemma parse_loop_lex n c :
  parse_loop n c = relex (lex n (px_lexer c)).2 (parse_all c (lex n (px_lexer c)).1).
Proof.
  revert c. induction n as [|n IH]; intros c; cbn; [by destruct c|].
  destruct (next_token (px_lexer c)) as [[t|] l]; [|done].
  rewrite parse_token_relex. destruct (lex n l) as [ts l'] eqn:L. cbn.
  destruct (parse_token c t) as [c1|]; [|done]. cbn. rewrite IH. cbn. rewrite L. cbn.
  rewrite parse_all_relex. by destruct (parse_all c1 ts).
Qed.

End Grammar.
