(* ===== verification/ExprComplete.v ===== *)
(** * The parser accepts every derivation

    Running the parser over the tokens of a derivation leaves the derived tree
    on the operand stack, up to the operators the next token would flush. *)

From Stdlib Require Import ZArith Lia SpecFloat Ascii.
From stdpp Require Import base list strings sets.
From S2P Require Import Prelude ExprText ExprValue ExprLexer ExprParser ExprLexProofs ExprGrammar.

#[local] Open Scope result_scope.

Section Complete.
Context `{ParseEnvironment}.

(** The loop of [push_operator], with the fuel it is given there. *)
Definition flush (q : nat) (c : ParseContext) : parsing ParseContext :=
  flush_while (length (operators c)) q c.
#[local] Arguments flush : simpl never.

(** An operand at level [p] may be read on these operators: the top is a fence
    or binds less tightly, or both are negations. *)
Definition guard (p : nat) (ops : list Token) : Prop :=
  match ops with
  | [] => True
  | t :: _ =>
      is_fence (tk_kind t) = true \/ precedence t < p /\ precedence t < 19 \/
      p = 16 /\ precedence t = 16
  end.

(** The loop stops at these operators. *)
Definition stops (q : nat) (ops : list Token) : Prop :=
  match ops with
  | [] => True
  | t :: _ => is_fence (tk_kind t) = true \/ precedence t < q
  end.

Lemma flush_stops q c : stops q (operators c) -> flush q c = Ok c.
Proof.
  unfold flush. destruct (operators c) as [|t ops] eqn:O; [done|]. cbn. rewrite O. intros [F|L].
  - by rewrite F, andb_false_r.
  - by rewrite (proj2 (Nat.leb_gt _ _) L).
Qed.

Lemma flush_step q c c1 t ops :
  operators c = t :: ops -> q <= precedence t -> is_fence (tk_kind t) = false ->
  flush_top_operator c = Ok c1 -> operators c1 = ops -> flush q c = flush q c1.
Proof.
  intros O Q F T O1. unfold flush. rewrite O1, O. cbn [length flush_while]. rewrite O, F.
  rewrite (proj2 (Nat.leb_le _ _) Q). cbn. by rewrite T.
Qed.

(** ** Flushing one operator *)

Lemma flush_top_plain c t ops os ns node :
  operators c = t :: ops -> operands c = rev ns ++ os -> operand_count t = length ns ->
  tk_kind t <> EndIndex -> tk_kind t <> EndGroup -> tk_kind t <> EndParameters ->
  match tk_kind t with
  | LogicalOperator => forall c', logical_node c' t ns = Ok node
  | Dereference | StartIndex => exists l r, ns = [l; r] /\ node = NIndex l r
  | _ => False
  end ->
  flush_top_operator c = Ok (set_stacks (node :: os) ops c).
Proof.
  intros O N C K1 K2 K3 M. unfold flush_top_operator. rewrite O. cbn.
  unfold pop_operands. cbn. rewrite C, N, length_app, length_rev.
  rewrite (proj2 (Nat.leb_le (length ns) _)) by lia. cbn.
  rewrite <- (length_rev ns), take_app_length, drop_app_length, rev_involutive.
  destruct (tk_kind t); try done.
  - destruct M as (l & r & -> & ->). done.
  - destruct M as (l & r & -> & ->). done.
  - by rewrite M.
Qed.

Lemma flush_top_not c t ops os n :
  is_not t -> operators c = t :: ops -> operands c = n :: os ->
  flush_top_operator c = Ok (set_stacks (NNot n :: os) ops c).
Proof.
  intros N O E. pose proof (is_not_precedence t N) as (_ & C & _). destruct N as [K R].
  apply (flush_top_plain c t ops os [n]); rewrite ?K; try done.
  intros c'. unfold logical_node, raw_is. by rewrite R.
Qed.

Lemma flush_top_binary c t ops os l r n :
  is_binary t -> binary_node t l r = Some n -> operators c = t :: ops -> operands c = r :: l :: os ->
  flush_top_operator c = Ok (set_stacks (n :: os) ops c).
Proof.
  intros B N O E. pose proof (is_binary_precedence t B) as (_ & C & _ & NB).
  apply (flush_top_plain c t ops os [l; r]); rewrite ?(proj1 B); try done.
  intros c'. unfold logical_node. rewrite NB. unfold binary_node in N. cbn. rewrite !app_nil_r.
  destruct (raw_is t "&&"); [by simplify_eq|]. destruct (raw_is t "||"); [by simplify_eq|].
  destruct (binary_operator t); [|done]. by simplify_eq/=.
Qed.

Lemma flush_top_member c t ops os l r :
  tk_kind t = Dereference -> operators c = t :: ops -> operands c = r :: l :: os ->
  flush_top_operator c = Ok (set_stacks (NIndex l r :: os) ops c).
Proof.
  intros K O E. apply (flush_top_plain c t ops os [l; r]); rewrite ?K; try done; [|eauto].
  unfold operand_count. by rewrite K.
Qed.

Lemma binary_bounds t : is_binary t -> 5 <= precedence t <= 11 /\ is_fence (tk_kind t) = false.
Proof.
  intros B. pose proof (is_binary_precedence t B) as (P & _). destruct B as [K _]. rewrite K.
  split; [|done]. rewrite !elem_of_cons in P. destruct_or! P; [lia..|by apply elem_of_nil in P].
Qed.

(** ** Closing brackets *)

(** A closing token with the operands already flushed. *)
Lemma push_closer c c1 t :
  precedence t = 1 -> associativity t = LeftToRight -> flush 1 c = Ok c1 ->
  match tk_kind t with EndGroup | EndIndex | EndParameters => true | _ => false end = true ->
  push_operator c t = flush_top_operator (set_stacks (operands c1) (t :: operators c1) c1).
Proof.
  intros P A F K. unfold push_operator. rewrite A, P. unfold flush in F. rewrite F. cbn.
  by destruct (tk_kind t).
Qed.

Lemma closer_facts t :
  match tk_kind t with EndGroup | EndIndex | EndParameters | Separator => true | _ => false end = true ->
  precedence t = 1 /\ associativity t = LeftToRight /\ is_operator t = true /\ tk_kind t <> Unexpected.
Proof. unfold precedence, associativity, is_operator. by destruct (tk_kind t). Qed.

Lemma pop_operator_top c t ops k :
  operators c = t :: ops -> tk_kind t = k -> pop_operator c k = Ok (t, set_stacks (operands c) ops c).
Proof. intros O K. unfold pop_operator. by rewrite O, bool_decide_eq_true_2. Qed.

Lemma parse_token_operator c t :
  is_operator t = true -> tk_kind t <> Unexpected ->
  parse_token c t = let? c := push_operator c t in Ok (set_last_token t c).
Proof. intros O U. unfold parse_token. by rewrite bool_decide_eq_false_2, O. Qed.

Lemma parse_token_operand c t :
  is_operator t = false -> tk_kind t <> Unexpected ->
  parse_token c t = let? c := push_operand c t in Ok (set_last_token t c).
Proof. intros O U. unfold parse_token. by rewrite bool_decide_eq_false_2, O. Qed.

Lemma close_group c c1 o t ops :
  tk_kind o = StartGroup -> tk_kind t = EndGroup ->
  flush 1 c = Ok c1 -> operators c1 = o :: ops ->
  parse_token c t = Ok (set_last_token t (set_stacks (operands c1) ops c1)).
Proof.
  intros KO KT F O. destruct (closer_facts t) as (P & A & I & U); [by rewrite KT|].
  rewrite parse_token_operator by done. rewrite (push_closer c c1) by (done || by rewrite KT).
  unfold flush_top_operator. cbn. rewrite KT, O.
  rewrite (pop_operator_top _ t (o :: ops)) by done. cbn.
  by rewrite (pop_operator_top _ o ops).
Qed.

Lemma close_index c c1 o t ops l r os :
  tk_kind o = StartIndex -> tk_kind t = EndIndex ->
  flush 1 c = Ok c1 -> operators c1 = o :: ops -> operands c1 = r :: l :: os ->
  parse_token c t = Ok (set_last_token t (set_stacks (NIndex l r :: os) ops c1)).
Proof.
  intros KO KT F O N. destruct (closer_facts t) as (P & A & I & U); [by rewrite KT|].
  rewrite parse_token_operator by done. rewrite (push_closer c c1) by (done || by rewrite KT).
  unfold flush_top_operator. cbn. rewrite KT, O. unfold flush_top_end_index.
  rewrite (pop_operator_top _ t (o :: ops)) by done. cbn.
  rewrite (pop_operator_top _ o ops) by done. cbn. unfold operand_count. rewrite KO.
  unfold pop_operands. cbn. by rewrite N.
Qed.

Lemma pop_separators_all seps o ops :
  Forall (fun s => tk_kind s = Separator) seps -> tk_kind o = StartParameters ->
  pop_separators (seps ++ o :: ops) = (length seps, o :: ops).
Proof.
  intros S K. induction S as [|s seps E S IH]; cbn.
  - by rewrite bool_decide_eq_false_2 by congruence.
  - by rewrite bool_decide_eq_true_2, IH.
Qed.

Lemma lookup_canonical raw canonical lo hi :
  lookup_function raw = Some (canonical, lo, hi) ->
  exists canonical', lookup_function (function_name raw canonical) = Some (canonical', lo, hi).
Proof.
  unfold lookup_function at 1. destruct (List.find _ _) as [f|] eqn:F.
  - intros [= ->]. apply List.find_some in F as [I _]. cbn in I.
    destruct_or! I; simplify_eq; eexists; reflexivity.
  - destruct (function_arity raw) as [[a b]|] eqn:A; [|done]. cbn. intros [= <- <- <-]. cbn.
    exists []. unfold lookup_function. by rewrite F, A.
Qed.

(** ** Reading an operand *)

Definition runs (p : nat) (ts : list Token) (n : Node) : Prop :=
  forall c, guard p (operators c) ->
  exists c', parse_all c ts = Ok c' /\ px_last_token c' = last ts /\
    forall q, 1 <= q <= p -> flush q c' = flush q (set_stacks (n :: operands c) (operators c) c').

Lemma runs_operand p t n :
  is_operator t = false -> tk_kind t <> Unexpected ->
  (forall c, push_operand c t = Ok (push_node n c)) -> runs p [t] n.
Proof.
  intros O U E c _. cbn. rewrite parse_token_operand, E by done. cbn. eexists. split_and!; [done..|].
  by intros q _.
Qed.

Lemma guard_stops p q ops : guard p ops -> (p <= q /\ q <= 11 \/ q = 19) -> p <= 19 -> stops q ops.
Proof. destruct ops as [|t ops]; cbn; [done|]. intros G Q P. destruct G as [G|[G|G]]; [auto|right; lia|right; lia]. Qed.

Lemma stops_guard q ops : stops q ops -> q <= 19 -> guard q ops.
Proof. destruct ops as [|t ops]; cbn; [done|]. intros [S|S] Q; [auto|]. right. left. lia. Qed.

Lemma last_snoc_cons {A} (a b : list A) x : last (a ++ x :: b) = last (x :: b).
Proof. rewrite last_app_cons. done. Qed.

(** Pushing an operator that associates to the left after a flush. *)
Lemma push_left c c1 t :
  is_operator t = true -> tk_kind t <> Unexpected -> associativity t = LeftToRight ->
  match tk_kind t with EndGroup | EndIndex | EndParameters => false | _ => true end = true ->
  flush (precedence t) c = Ok c1 ->
  parse_token c t = Ok (set_last_token t (set_stacks (operands c1) (t :: operators c1) c1)).
Proof.
  intros O U A K F. rewrite parse_token_operator by done. unfold push_operator. rewrite A.
  unfold flush in F. rewrite F. cbn. by destruct (tk_kind t).
Qed.

(** A negation and an opening parenthesis flush nothing. *)
Lemma push_prefix c t : is_not t \/ tk_kind t = StartGroup ->
  parse_token c t = Ok (set_last_token t (set_stacks (operands c) (t :: operators c) c)).
Proof.
  intros [N|K].
  - pose proof (is_not_precedence t N) as (_ & _ & A). destruct N as [K _].
    rewrite parse_token_operator; [|unfold is_operator; by rewrite K|by rewrite K].
    unfold push_operator. rewrite A. cbn. by rewrite K.
  - rewrite parse_token_operator; [|unfold is_operator; by rewrite K|by rewrite K].
    unfold push_operator, associativity. by rewrite K.
Qed.

Lemma runs_not p t ts n : p <= 16 -> is_not t -> runs 16 ts n -> runs p (t :: ts) (NNot n).
Proof.
  intros P N R c _. pose proof (is_not_precedence t N) as (P16 & _ & A).
  cbn. rewrite push_prefix by auto. cbn.
  destruct (R (set_last_token t (set_stacks (operands c) (t :: operators c) c))) as (c' & E & L & F).
  { cbn. right. right. by rewrite P16. }
  exists c'. rewrite E. split_and!; [done| |].
  { rewrite L. destruct ts as [|t' ts]; [|done]. cbn in E. injection E as <-. cbn in L. done. }
  intros q Q. rewrite F by lia. cbn.
  eapply flush_step; [done|lia|by rewrite (proj1 N)|exact (flush_top_not (set_stacks (n :: operands c) (t :: operators c) c') t (operators c) (operands c) n N eq_refl eq_refl)|done].
Qed.

Lemma runs_binary p a l t b r n :
  p <= precedence t -> is_binary t -> binary_node t l r = Some n -> b <> [] ->
  runs (precedence t) a l -> runs (S (precedence t)) b r -> p <= 19 -> runs p (a ++ t :: b) n.
Proof.
  intros P B N NB RA RB P19 c G. pose proof (binary_bounds t B) as [BB FT].
  pose proof (is_binary_precedence t B) as (_ & _ & A & _).
  assert (S : stops (precedence t) (operators c)) by (eapply guard_stops; [done|lia..]).
  destruct (RA c) as (c1 & E1 & _ & F1); [apply stops_guard; [done|lia]|].
  rewrite parse_all_app, E1. cbn.
  rewrite (push_left c1 (set_stacks (l :: operands c) (operators c) c1)).
  2: { unfold is_operator. by rewrite (proj1 B). }
  2: { by rewrite (proj1 B). }
  2: done.
  2: { by rewrite (proj1 B). }
  2: { rewrite F1 by lia. by apply flush_stops. }
  cbn. set (c2 := set_last_token _ _). destruct (RB c2) as (c' & E & L & F).
  { cbn. right. left. lia. }
  exists c'. split; [done|]. split.
  { rewrite L, last_snoc_cons. by destruct b. }
  intros q Q. rewrite F by lia.
  eapply flush_step; [done|lia|done|exact (flush_top_binary (set_stacks (r :: l :: operands c) (t :: operators c) c') t (operators c) (operands c) l r n B N eq_refl eq_refl)|done].
Qed.

(** Reading what stands between brackets, opened by a token just pushed. *)
Lemma runs_inside ts n c :
  runs 1 ts n -> match operators c with o :: _ => is_fence (tk_kind o) = true | [] => False end ->
  exists c', parse_all c ts = Ok c' /\ px_last_token c' = last ts /\
    flush 1 c' = Ok (set_stacks (n :: operands c) (operators c) c').
Proof.
  intros R F. destruct (R c) as (c' & E & L & Q).
  { destruct (operators c); [done|]. by left. }
  exists c'. split_and!; [done..|]. rewrite Q by lia. apply flush_stops. cbn.
  destruct (operators c); [done|]. by left.
Qed.

Lemma runs_group p o ts t n :
  tk_kind o = StartGroup -> tk_kind t = EndGroup -> runs 1 ts n -> runs p (o :: ts ++ [t]) n.
Proof.
  intros KO KT R c _.
  cbn. rewrite push_prefix by auto. cbn. rewrite parse_all_app. set (c1 := set_last_token _ _).
  destruct (runs_inside ts n c1 R) as (c2 & E & _ & F); [cbn; by rewrite KO|].
  rewrite E. cbn. rewrite (close_group c2 _ o t (operators c) KO KT F) by done. cbn.
  eexists. split_and!; [done| |by intros].
  exact (eq_sym (last_snoc t (o :: ts))).
Qed.

Lemma runs_index p a l o ts t r :
  p <= 19 -> tk_kind o = StartIndex -> tk_kind t = EndIndex ->
  runs 19 a l -> runs 1 ts r -> runs p (a ++ o :: ts ++ [t]) (NIndex l r).
Proof.
  intros P KO KT RA RT c G.
  assert (S : stops 19 (operators c)) by (eapply guard_stops; [done|lia..]).
  destruct (RA c) as (c1 & E1 & _ & F1); [apply stops_guard; [done|lia]|].
  rewrite parse_all_app, E1. cbn.
  assert (PO : precedence o = 19) by (unfold precedence; by rewrite KO).
  rewrite (push_left c1 (set_stacks (l :: operands c) (operators c) c1)).
  2: { unfold is_operator. by rewrite KO. }
  2: { by rewrite KO. }
  2: { unfold associativity, is_operator. by rewrite KO. }
  2: { by rewrite KO. }
  2: { rewrite PO, F1 by lia. by apply flush_stops. }
  cbn. set (c2 := set_last_token _ _). rewrite parse_all_app.
  destruct (runs_inside ts r c2 RT) as (c3 & E & _ & F); [cbn; by rewrite KO|].
  rewrite E. cbn.
  rewrite (close_index c3 _ o t (operators c) l r (operands c) KO KT F) by done. cbn.
  eexists. split_and!; [done| |by intros].
  cbn. replace (a ++ o :: ts ++ [t]) with ((a ++ o :: ts) ++ [t]) by by rewrite <- app_assoc.
  by rewrite last_snoc.
Qed.

Lemma runs_member p a l d t r :
  p <= 19 -> tk_kind d = Dereference -> member t r -> runs 19 a l -> runs p (a ++ [d; t]) (NIndex l r).
Proof.
  intros P KD M RA c G.
  assert (S : stops 19 (operators c)) by (eapply guard_stops; [done|lia..]).
  destruct (RA c) as (c1 & E1 & _ & F1); [apply stops_guard; [done|lia]|].
  rewrite parse_all_app, E1. cbn.
  assert (PD : precedence d = 19) by (unfold precedence; by rewrite KD).
  rewrite (push_left c1 (set_stacks (l :: operands c) (operators c) c1)).
  2: { unfold is_operator. by rewrite KD. }
  2: { by rewrite KD. }
  2: { unfold associativity, is_operator. by rewrite KD. }
  2: { by rewrite KD. }
  2: { rewrite PD, F1 by lia. by apply flush_stops. }
  cbn. set (c2 := set_last_token _ _).
  assert (T : parse_token c2 t = Ok (set_last_token t (push_node r c2))).
  { destruct M as [[K ->]|[K ->]]; rewrite parse_token_operand;
      unfold push_operand, is_operator; by rewrite K. }
  rewrite T. cbn. eexists. split; [done|]. split.
  { cbn. by rewrite last_app_cons. }
  intros q Q. eapply flush_step; [done|lia|by rewrite KD| |done].
  exact (flush_top_member (set_last_token t (push_node r c2)) d (operators c) (operands c) l r KD eq_refl eq_refl).
Qed.

(** ** Calls *)

Definition runs_args (ts : list Token) (ns : list Node) : Prop :=
  forall c, match operators c with o :: _ => is_fence (tk_kind o) = true | [] => False end ->
  exists c' seps, parse_all c ts = Ok c' /\ px_last_token c' = last ts /\
    Forall (fun s => tk_kind s = Separator) seps /\ S (length seps) = length ns /\
    flush 1 c' = Ok (set_stacks (rev ns ++ operands c) (seps ++ operators c) c').

Lemma runs_args_one ts n : runs 1 ts n -> runs_args ts [n].
Proof.
  intros R c F. destruct (runs_inside ts n c R F) as (c' & E & L & Q). exists c', []. split_and!; done.
Qed.

Lemma runs_args_more ts ns s ts' n :
  runs_args ts ns -> tk_kind s = Separator -> ts' <> [] -> runs 1 ts' n ->
  runs_args (ts ++ s :: ts') (ns ++ [n]).
Proof.
  intros RA KS NT R c F. destruct (RA c F) as (c1 & seps & E & _ & S & L & Q).
  rewrite parse_all_app, E. cbn. destruct (closer_facts s) as (P & A & I & U); [by rewrite KS|].
  rewrite (push_left c1 _ s I U A ltac:(by rewrite KS) ltac:(rewrite P; exact Q)). cbn.
  set (c2 := set_last_token _ _).
  destruct (runs_inside ts' n c2 R) as (c' & E' & L' & Q'); [cbn; by rewrite KS|].
  exists c', (s :: seps). split_and!; [done| |by constructor| |].
  - rewrite L', last_snoc_cons. by destruct ts'.
  - rewrite length_app. cbn. lia.
  - rewrite Q'. cbn. by rewrite rev_app_distr.
Qed.

(** The closing parenthesis of a call gathers the arguments. *)
Lemma close_call_attach c c1 o t ops seps ns name os :
  tk_kind o = StartParameters -> tk_kind t = EndParameters ->
  flush 1 c = Ok c1 -> operators c1 = seps ++ o :: ops ->
  Forall (fun s => tk_kind s = Separator) seps ->
  operands c1 = rev ns ++ NFunction name [] :: os ->
  (if bool_decide (tk_kind <$> px_last_token c1 = Some StartParameters)
   then ns = [] /\ seps = [] else S (length seps) = length ns) ->
  parse_token c t =
    let? c := attach_parameters (set_stacks (NFunction name [] :: os) (o :: ops) c1) ns in
    Ok (set_last_token t c).
Proof.
  intros KO KT F O S N SN. destruct (closer_facts t) as (P & A & I & U); [by rewrite KT|].
  rewrite parse_token_operator by done. rewrite (push_closer c c1) by (done || by rewrite KT).
  unfold flush_top_operator. cbn. rewrite KT. unfold flush_top_end_parameters.
  rewrite (pop_operator_top _ t (operators c1)) by done. cbn.
  case_bool_decide as LT; cbn.
  - destruct SN as [-> ->]. cbn in *. by rewrite N, O.
  - rewrite O, (pop_separators_all seps o ops S KO). unfold pop_operands. cbn -[take drop length Nat.leb].
    rewrite N, SN. rewrite length_app, length_rev. rewrite (proj2 (Nat.leb_le (length ns) _)) by lia.
    cbn -[take drop length]. by rewrite <- (length_rev ns), take_app_length, drop_app_length, rev_involutive.
Qed.

(** The arguments either fit the arity of the function or are refused. *)
Lemma attach_cases c ns name os o ops canonical lo hi :
  tk_kind o = StartParameters -> operands c = NFunction name [] :: os -> operators c = o :: ops ->
  lookup_function name = Some (canonical, lo, hi) ->
  attach_parameters c ns = Ok (set_stacks (NFunction name ns :: os) ops c) /\
    arity_fits name lo hi (length ns) \/
  ~ arity_fits name lo hi (length ns) /\
    exists e, attach_parameters c ns = fail e /\ pe_kind e <> Internal.
Proof.
  intros KO E O LK. unfold attach_parameters, arity_fits. rewrite E. cbv zeta. cbn [app].
  rewrite (pop_operator_top _ o ops) by done. cbn [result_bind]. rewrite LK.
  destruct (Nat.ltb_spec (length ns) lo); [right; split; [lia|eauto]|].
  destruct (Nat.ltb_spec hi (length ns)); [right; split; [lia|eauto]|].
  unfold is_multiple_of_2. destruct (eq_ignore_ascii_case name (txt "case")); [|left; by split_and!].
  destruct (Nat.even (length ns)); [right; split; [|eauto]|left; by split_and!]. by intros [_ X]; specialize (X eq_refl).
Qed.

Lemma runs_call p f o ts t canonical lo hi ns :
  tk_kind f = TFunction -> tk_kind o = StartParameters -> tk_kind t = EndParameters ->
  lookup_function (raw_value f) = Some (canonical, lo, hi) ->
  (ts = [] /\ ns = [] \/ runs_args ts ns /\ exists t', last ts = Some t' /\ tk_kind t' <> StartParameters) ->
  arity_fits (function_name (raw_value f) canonical) lo hi (length ns) -> p <= 19 ->
  runs p (f :: o :: ts ++ [t]) (NFunction (function_name (raw_value f) canonical) ns).
Proof.
  intros KF KO KT LK RA AF P c G. set (name := function_name _ _).
  destruct (lookup_canonical _ _ _ _ LK) as [canonical' LK'].
  assert (TF : parse_token c f = Ok (set_last_token f (push_node (NFunction name []) c))).
  { rewrite parse_token_operand; [|unfold is_operator; by rewrite KF|by rewrite KF].
    unfold push_operand. by rewrite KF, LK. }
  cbn. rewrite TF. cbn. set (c1 := set_last_token _ _).
  assert (S : stops 19 (operators c)) by (eapply guard_stops; [done|lia..]).
  rewrite (push_left c1 c1).
  2: { unfold is_operator. by rewrite KO. }
  2: { by rewrite KO. }
  2: { unfold associativity, is_operator. by rewrite KO. }
  2: { by rewrite KO. }
  2: { unfold precedence. rewrite KO. by apply flush_stops. }
  cbn. set (c2 := set_last_token _ _). rewrite parse_all_app.
  assert (R : exists c3 seps, parse_all c2 ts = Ok c3 /\
    Forall (fun s => tk_kind s = Separator) seps /\
    flush 1 c3 = Ok (set_stacks (rev ns ++ operands c2) (seps ++ operators c2) c3) /\
    if bool_decide (tk_kind <$> px_last_token c3 = Some StartParameters)
    then ns = [] /\ seps = [] else Datatypes.S (length seps) = length ns).
  { destruct RA as [[-> ->]|(RA & t' & L & K)].
    - exists c2, []. split_and!; [done|done| |].
      + apply flush_stops. cbn. left. by rewrite KO.
      + rewrite bool_decide_eq_true_2; [done|]. cbn. by rewrite KO.
    - destruct (RA c2) as (c3 & seps & E & L3 & S3 & N3 & F3); [cbn; by rewrite KO|].
      exists c3, seps. split_and!; [done..|]. rewrite bool_decide_eq_false_2; [done|].
      rewrite L3, L. cbn. congruence. }
  destruct R as (c3 & seps & E & SS & F & C). rewrite E. cbn.
  rewrite (close_call_attach c3 _ o t (operators c) seps ns name (operands c) KO KT F) by done.
  set (c4 := set_stacks (NFunction name [] :: _) _ _).
  destruct (attach_cases c4 ns name (operands c) o (operators c) _ _ _ KO eq_refl eq_refl LK')
    as [[AT _]|[NF _]]; [rewrite AT|done].
  cbn. eexists. split_and!; [done| |by intros].
  exact (eq_sym (last_snoc t (f :: o :: ts))).
Qed.

(** ** Whole derivations *)

(** Kinds of the last token of an expression. *)
Definition ends_operand (k : TokenKind) : bool :=
  match k with
  | EndGroup | EndIndex | EndParameters | Wildcard | TNull | TBoolean | TNumber | TString
  | PropertyName | TNamedValue => true
  | _ => false
  end.
Definition ends (ts : list Token) : Prop :=
  exists t, last ts = Some t /\ ends_operand (tk_kind t) = true.

Lemma ends_snoc ts t : ends_operand (tk_kind t) = true -> ends (ts ++ [t]).
Proof. intros K. exists t. by rewrite last_snoc. Qed.

Lemma ends_app a t b : ends b -> ends (a ++ t :: b).
Proof.
  intros (t' & L & K). exists t'. split; [|done]. rewrite last_snoc_cons. by destruct b.
Qed.

Lemma ends_nonempty ts : ends ts -> ts <> [].
Proof. intros (t & L & _) ->. done. Qed.

Lemma Derives_ends p ts n : Derives p ts n -> ends ts.
Proof.
  apply (Derives_mut (fun _ ts _ => ends ts) (fun _ _ => True) (fun ts _ => True)); intros; try done.
  - exists t. split; [done|]. by destruct (tk_kind t).
  - exists t. by rewrite H0.
  - exists t. by rewrite H0.
  - apply (ends_snoc (o :: ts0)). by rewrite H1.
  - apply (ends_snoc (f :: o :: ts0)). by rewrite H2.
  - replace (a ++ o :: ts0 ++ [c]) with ((a ++ o :: ts0) ++ [c]) by by rewrite <- app_assoc.
    apply ends_snoc. by rewrite H2.
  - replace (a ++ [d; t]) with ((a ++ [d]) ++ [t]) by by rewrite <- app_assoc.
    apply ends_snoc. by destruct H2 as [[-> _]|[-> _]].
  - by apply (ends_app [] t ts0).
  - by apply ends_app.
Qed.

Lemma Arguments1_ends ts ns : Arguments1 ts ns -> ends ts.
Proof. intros A. destruct A as [ts n D|ts ns s ts' n A K D]; [|apply ends_app]; by eapply Derives_ends. Qed.

Lemma Derives_runs p ts n : Derives p ts n -> p <= 19 -> runs p ts n.
Proof.
  apply (Derives_mut (fun p ts n => p <= 19 -> runs p ts n)
    (fun ts ns => ts = [] /\ ns = [] \/ runs_args ts ns /\ ends ts) runs_args).
  - intros q t K _. apply runs_operand; [unfold is_operator; by destruct (tk_kind t)|by destruct (tk_kind t)|].
    intros c. unfold push_operand. by destruct (tk_kind t).
  - intros q t K NV _. apply runs_operand; [unfold is_operator; by rewrite K|by rewrite K|].
    intros c. unfold push_operand. by rewrite K, NV.
  - intros q t K _. apply runs_operand; [unfold is_operator; by rewrite K|by rewrite K|].
    intros c. unfold push_operand. by rewrite K.
  - intros q o ts0 t n0 KO KT D IH _. apply runs_group; auto with lia.
  - intros q f o ts0 t canonical lo hi ns KF KO KT LK A IH AF Q.
    eapply runs_call; try done. destruct IH as [?|[IH (t' & L & K)]]; [by left|right].
    split; [done|]. exists t'. split; [done|]. by intros E; rewrite E in K.
  - intros. apply runs_index; auto with lia.
  - intros. apply runs_member; auto with lia.
  - intros. apply runs_not; auto with lia.
  - intros q a l t b r n0 P B N DA IHA DB IHB Q. pose proof (binary_bounds t B).
    eapply runs_binary; try done; [|apply IHA; lia|apply IHB; lia].
    eapply ends_nonempty, Derives_ends, DB.
  - auto.
  - intros ts0 ns A IH. right. split; [done|]. by eapply Arguments1_ends.
  - intros ts0 n0 D IH. apply runs_args_one. auto with lia.
  - intros ts0 ns s ts' n0 A IHA K D IH. apply runs_args_more; auto with lia.
    eapply ends_nonempty, Derives_ends, D.
Qed.

(** A derivation closes every bracket it opens. *)
Fixpoint unclosed_after (u : list Token) (ts : list Token) : option (list Token) :=
  match ts with
  | [] => Some u
  | t :: ts => u ← unclosed_step u t; unclosed_after u ts
  end.

Lemma unclosed_after_app u a b :
  unclosed_after u (a ++ b) = unclosed_after u a ≫= fun u => unclosed_after u b.
Proof. revert u. induction a as [|t a IH]; intros u; [done|]. cbn. destruct (unclosed_step u t); [apply IH|done]. Qed.

Definition neutral (k : TokenKind) : bool :=
  match k with
  | StartGroup | StartIndex | StartParameters | EndGroup | EndIndex | EndParameters | Separator => false
  | _ => true
  end.

Lemma unclosed_neutral u t ts : neutral (tk_kind t) = true ->
  unclosed_after u (t :: ts) = unclosed_after u ts.
Proof. intros K. cbn. unfold unclosed_step. by destruct (tk_kind t). Qed.

Lemma unclosed_bracket u o ts t rest :
  (tk_kind o = StartGroup /\ tk_kind t = EndGroup \/ tk_kind o = StartIndex /\ tk_kind t = EndIndex \/
   tk_kind o = StartParameters /\ tk_kind t = EndParameters) ->
  unclosed_after (o :: u) ts = Some (o :: u) ->
  unclosed_after u (o :: ts ++ t :: rest) = unclosed_after u rest.
Proof.
  intros K E. cbn.
  assert (unclosed_step u o = Some (o :: u)) as ->.
  { unfold unclosed_step. by destruct K as [[-> _]|[[-> _]|[-> _]]]. }
  cbn. rewrite unclosed_after_app, E. cbn. unfold unclosed_step.
  destruct K as [[K ->]|[[K ->]|[K ->]]]; cbn; by rewrite K.
Qed.

Lemma Derives_balanced p ts n : Derives p ts n -> forall u, unclosed_after u ts = Some u.
Proof.
  apply (Derives_mut (fun _ ts _ => forall u, unclosed_after u ts = Some u)
    (fun ts _ => forall o u, tk_kind o = StartParameters -> unclosed_after (o :: u) ts = Some (o :: u))
    (fun ts _ => forall o u, tk_kind o = StartParameters -> unclosed_after (o :: u) ts = Some (o :: u)));
    auto.
  - intros q t K u. rewrite unclosed_neutral; [done|by destruct (tk_kind t)].
  - intros q t K _ u. by rewrite unclosed_neutral by by rewrite K.
  - intros q t K u. by rewrite unclosed_neutral by by rewrite K.
  - intros q o ts0 t n0 KO KT _ IH u. rewrite (unclosed_bracket u o ts0 t []); auto.
  - intros q f o ts0 t ? ? ? ns KF KO KT _ _ IH _ u. rewrite unclosed_neutral by by rewrite KF.
    rewrite (unclosed_bracket u o ts0 t []); auto.
  - intros q a l o ts0 t r _ KO KT _ IHA _ IH u. rewrite unclosed_after_app, IHA. cbn [mbind option_bind].
    rewrite (unclosed_bracket u o ts0 t []); auto.
  - intros q a l d t r _ KD M _ IHA u. rewrite unclosed_after_app, IHA. cbn [mbind option_bind].
    rewrite !unclosed_neutral; [done|by destruct M as [[-> _]|[-> _]]|by rewrite KD].
  - intros q t ts0 n0 _ [K _] _ IH u. by rewrite unclosed_neutral by by rewrite K.
  - intros q a l t b0 r n0 _ [K _] _ _ IHA _ IHB u. rewrite unclosed_after_app, IHA. cbn [mbind option_bind].
    by rewrite unclosed_neutral by by rewrite K.
  - intros ts0 ns s ts' n0 _ IHA K _ IH o u KO. rewrite unclosed_after_app, IHA by done.
    cbn. unfold unclosed_step. rewrite K. cbn. rewrite KO. cbn. apply IH.
Qed.

(** The final loop of [parse] pops what the loop of [push_operator] pops, when
    no bracket is left. *)
Lemma flush_all_while n c c1 :
  flush_while n 1 c = Ok c1 -> operators c1 = [] -> flush_all n c = Ok c1.
Proof.
  revert c. induction n as [|n IH]; intros c; [done|]. cbn.
  destruct (operators c) as [|t ops] eqn:O; [done|]. destruct (_ && _).
  - destruct (flush_top_operator c); [|done]. cbn. apply IH.
  - intros [= <-]. by rewrite O.
Qed.

Lemma finish_derived c c1 t n :
  px_last_token c = Some t -> ends_operand (tk_kind t) = true -> unclosed_tokens (px_lexer c) = [] ->
  flush 1 c = Ok c1 -> operators c1 = [] -> operands c1 = [n] ->
  finish c = let? _ := check_max_depth n 1 in Ok (Some n).
Proof.
  intros L K U F O N. unfold finish. rewrite L. unfold has_unclosed_tokens. rewrite U.
  assert (unexpected_last_token t = false) as ->.
  { unfold unexpected_last_token, is_operator. by destruct (tk_kind t). }
  rewrite andb_false_r. unfold flush in F. rewrite (flush_all_while _ _ _ F O). cbn. by rewrite N.
Qed.

(** A derivation of the tokens of an expression is what [parse] returns,
    unless the tree is too deep. *)
Lemma parse_derived e n :
  (N.of_nat (length e) <= MAX_LENGTH)%N -> Forall (fun t => tk_kind t <> Unexpected) (tokens e) ->
  unclosed_tokens (final_lexer e) = [] -> Derives 1 (tokens e) n ->
  parse e = let? _ := check_max_depth n 1 in Ok (Some n).
Proof.
  intros ML UX U D. unfold parse. rewrite (proj2 (N.ltb_ge _ _) ML).
  rewrite parse_loop_lex. cbn [px_lexer new_context].
  change (lex (S (length e)) (new_lexer e)).1 with (tokens e).
  change (lex (S (length e)) (new_lexer e)).2 with (final_lexer e).
  destruct (Derives_runs _ _ _ D ltac:(lia) (new_context e) I) as (c' & E & L & F).
  destruct (Derives_ends _ _ _ D) as (t & LT & K). rewrite E. cbn [relex result_bind].
  specialize (F 1 ltac:(lia)). unfold flush in F. cbn in F.
  apply (finish_derived _ (set_lexer (final_lexer e) (set_stacks [n] [] c')) t n); [cbn; by rewrite L, LT|done|done| |done|done].
  unfold flush. rewrite flush_while_relex. cbn [operators set_lexer]. by rewrite F.
Qed.

End Complete.
