(* ===== verification/ExprSound.v ===== *)
(** * The parser accepts derivations only

    The stacks of the parser always spell a prefix of a derivation: below each
    operator lie the operands it waits with, and on top a finished operand or
    the place of the next one. Every token the lexer admits keeps this shape,
    so that the parser's internal errors and panics cannot happen, and what it
    finally returns is derived by the grammar. *)

From Stdlib Require Import ZArith Lia SpecFloat Ascii.
From stdpp Require Import base list strings sets.
From S2P Require Import Prelude ExprText ExprValue ExprLexer ExprParser ExprLexProofs ExprGrammar ExprComplete.

#[local] Open Scope result_scope.

Section Sound.
Context `{ParseEnvironment}.

(** ** The shape of the stacks *)

(** [Stack w os ops]: after the tokens [w] the parser waits for an operand, on
    the operands [os] and the operators [ops]. *)
Inductive Stack : list Token -> list Node -> list Token -> Prop :=
| S_nil : Stack [] [] []
| S_group w os ops o :
    Stack w os ops -> guard 19 ops -> tk_kind o = StartGroup -> Stack (w ++ [o]) os (o :: ops)
| S_not w os ops t :
    Stack w os ops -> guard 19 ops -> is_not t -> Stack (w ++ [t]) os (t :: ops)
| S_binary w os ops a l t :
    Stack w os ops -> guard (precedence t) ops -> is_binary t -> Derives (precedence t) a l ->
    Stack (w ++ a ++ [t]) (l :: os) (t :: ops)
| S_index w os ops a l o :
    Stack w os ops -> guard 19 ops -> tk_kind o = StartIndex -> Derives 19 a l ->
    Stack (w ++ a ++ [o]) (l :: os) (o :: ops)
| S_member w os ops a l d :
    Stack w os ops -> guard 19 ops -> tk_kind d = Dereference -> Derives 19 a l ->
    Stack (w ++ a ++ [d]) (l :: os) (d :: ops)
| S_call w os ops f o canonical lo hi :
    Stack w os ops -> guard 19 ops -> tk_kind f = TFunction -> tk_kind o = StartParameters ->
    lookup_function (raw_value f) = Some (canonical, lo, hi) ->
    Stack (w ++ [f; o]) (NFunction (function_name (raw_value f) canonical) [] :: os) (o :: ops)
| S_sep w os ops f o canonical lo hi ts ns s seps :
    Stack w os ops -> guard 19 ops -> tk_kind f = TFunction -> tk_kind o = StartParameters ->
    lookup_function (raw_value f) = Some (canonical, lo, hi) ->
    Arguments1 ts ns -> tk_kind s = Separator -> Forall (fun s => tk_kind s = Separator) seps ->
    S (length seps) = length ns ->
    Stack (w ++ f :: o :: ts ++ [s])
      (rev ns ++ NFunction (function_name (raw_value f) canonical) [] :: os) (s :: seps ++ o :: ops).

(** An operand stands on top: a finished one, or the member after a
    dereference. *)
Inductive Top : list Token -> ParseContext -> Prop :=
| T_have w os a n c :
    Stack w os (operators c) -> operands c = n :: os -> Derives 19 a n ->
    guard 19 (operators c) -> Top (w ++ a) c
| T_member w os ops a l d t n c :
    Stack w os ops -> guard 19 ops -> tk_kind d = Dereference -> Derives 19 a l -> member t n ->
    operators c = d :: ops -> operands c = n :: l :: os -> Top (w ++ a ++ [d; t]) c.

Inductive Conf : list Token -> ParseContext -> Prop :=
| C_need w c :
    Stack w (operands c) (operators c) -> px_last_token c = head (operators c) -> Conf w c
| C_top w c t :
    Top w c -> px_last_token c = Some t -> ends_operand (tk_kind t) = true -> Conf w c
| C_function w f os canonical lo hi c :
    Stack w os (operators c) -> guard 19 (operators c) -> tk_kind f = TFunction ->
    lookup_function (raw_value f) = Some (canonical, lo, hi) ->
    operands c = NFunction (function_name (raw_value f) canonical) [] :: os ->
    px_last_token c = Some f -> Conf (w ++ [f]) c.

(** The brackets on the operator stack are the unclosed ones of the lexer. *)
Definition is_opener (t : Token) : bool :=
  match tk_kind t with StartGroup | StartIndex | StartParameters => true | _ => false end.
Definition openers (ops : list Token) : list Token := List.filter is_opener ops.
#[local] Arguments openers : simpl never.

Lemma separators_no_opener seps : Forall (fun s => tk_kind s = Separator) seps -> openers seps = [].
Proof. unfold openers. induction 1 as [|s seps K S IH]; cbn; [done|]. unfold is_opener at 1. by rewrite K. Qed.

Lemma openers_app a b : openers (a ++ b) = openers a ++ openers b.
Proof. apply List.filter_app. Qed.

Lemma openers_open t ops : is_opener t = true -> openers (t :: ops) = t :: openers ops.
Proof. intros K. unfold openers. cbn. by rewrite K. Qed.
Lemma openers_skip t ops : is_opener t = false -> openers (t :: ops) = openers ops.
Proof. intros K. unfold openers. cbn. by rewrite K. Qed.

Lemma guard16 ops : guard 19 ops -> guard 16 ops.
Proof.
  destruct ops as [|t ops]; cbn; [done|]. intros [G|[[G _]|[G _]]]; [auto| |done].
  destruct (decide (precedence t = 16)); [auto|]. right. left.
  assert (precedence t <= 16); [|lia]. revert G. unfold precedence.
  destruct (tk_kind t); try lia. repeat (case_match; try lia).
Qed.

(** The cases of a stack by its top operator. *)
Lemma Stack_top w os t ops : Stack w os (t :: ops) ->
  is_fence (tk_kind t) = true \/ is_not t \/ is_binary t \/ tk_kind t = Dereference.
Proof.
  intros S. inversion S; subst; auto; left; match goal with K : tk_kind ?x = _ |- is_fence (tk_kind ?x) = _ =>
    by rewrite K end.
Qed.

Lemma Stack_guard w os ops t : Stack w os (t :: ops) -> tk_kind t <> Dereference -> guard 19 (t :: ops).
Proof.
  intros S D. destruct (Stack_top _ _ _ _ S) as [F|[N|[B|K]]]; cbn; [by left| | |done].
  - pose proof (is_not_precedence t N). lia.
  - pose proof (binary_bounds t B). lia.
Qed.

Lemma Stack_precedence w os t ops :
  Stack w os (t :: ops) -> is_fence (tk_kind t) = true \/ 5 <= precedence t.
Proof.
  intros S. destruct (Stack_top _ _ _ _ S) as [F|[N|[B|K]]]; [by left| | |]; right.
  - pose proof (is_not_precedence t N). lia.
  - pose proof (binary_bounds t B). lia.
  - unfold precedence. rewrite K. lia.
Qed.

(** ** Flushing keeps the shape *)

(** What a flush at level [q] leaves: an operand at that level on operators
    that stop the loop, with the same brackets. *)
Definition flushed (q : nat) (w : list Token) (c c' : ParseContext) : Prop :=
  exists w' os' ops' a' n',
    c' = set_stacks (n' :: os') ops' c /\ Stack w' os' ops' /\ w = w' ++ a' /\
    Derives q a' n' /\ stops q ops' /\ openers ops' = openers (operators c).

Lemma flushed_step q w c c1 c' :
  flushed q w c1 c' -> openers (operators c1) = openers (operators c) ->
  (forall a b, set_stacks a b c1 = set_stacks a b c) -> flushed q w c c'.
Proof.
  intros (w' & os' & ops' & a' & n' & -> & S & E & D & St & O) OO SS.
  exists w', os', ops', a', n'. rewrite SS, <- OO. by split_and!.
Qed.

Lemma flushed_here q w os a n p c :
  Stack w os (operators c) -> operands c = n :: os -> Derives p a n -> q <= p -> stops q (operators c) ->
  exists c', flush q c = Ok c' /\ flushed q (w ++ a) c c'.
Proof.
  intros S N D Q St. exists c. split; [by apply flush_stops|].
  exists w, os, (operators c), a, n. split_and!; try done; [|by eapply Derives_weaken].
  destruct c. cbn in *. by subst.
Qed.

Lemma not_opener t : is_fence (tk_kind t) = false -> is_opener t = false.
Proof. unfold is_opener. by destruct (tk_kind t). Qed.

Lemma flush_have q w os a n p c :
  Stack w os (operators c) -> operands c = n :: os -> Derives p a n -> guard p (operators c) ->
  p <= 19 -> 1 <= q <= p -> exists c', flush q c = Ok c' /\ flushed q (w ++ a) c c'.
Proof.
  remember (operators c) as ops eqn:O. revert w os a n p c O.
  induction ops as [|t ops IH]; intros w os a n p c O S N D G P Q.
  { eapply flushed_here; rewrite <- ?O; try done. lia. }
  destruct (is_fence (tk_kind t)) eqn:F; [|destruct (decide (precedence t < q))].
  1,2: eapply flushed_here; rewrite <- ?O; try done; [lia|cbn; auto].
  assert (OP : openers (t :: ops) = openers ops) by (by apply openers_skip, not_opener).
  assert (R : forall c1 w1 os1 a1 n1 p1, flush_top_operator c = Ok c1 ->
    c1 = set_stacks (n1 :: os1) ops c -> Stack w1 os1 ops -> Derives p1 a1 n1 -> guard p1 ops ->
    p1 <= 19 -> q <= p1 -> w1 ++ a1 = w ++ a ->
    exists c', flush q c = Ok c' /\ flushed q (w ++ a) c c').
  { intros c1 w1 os1 a1 n1 p1 T -> S1 D1 G1 P1 Q1 <-.
    rewrite (flush_step q c _ t ops) by (done || lia).
    destruct (IH w1 os1 a1 n1 p1 (set_stacks (n1 :: os1) ops c)) as (c' & E & FL); try done; [lia|].
    exists c'. split; [done|]. eapply flushed_step; [done| |done]. cbn. by rewrite <- O. }
  inversion S; subst;
    try (match goal with K : tk_kind ?x = _, F : is_fence (tk_kind ?x) = false |- _ => by rewrite K in F end).
  - (* negation *)
    pose proof (is_not_precedence t ltac:(done)) as (P16 & _).
    eapply (R _ w0 os (t :: a) (NNot n) 16); [by apply (flush_top_not c t ops os n)|done|done| | |lia|lia|].
    + apply D_not; [lia|done|]. eapply Derives_weaken; [done|]. cbn in G. destruct G as [G|[G|G]]; lia || congruence.
    + by apply guard16.
    + by rewrite <- app_assoc.
  - (* binary operator *)
    destruct (binary_node_Some t l n ltac:(done)) as [n' E]. pose proof (binary_bounds t ltac:(done)).
    eapply (R _ w0 os0 (a0 ++ t :: a) n' (precedence t));
      [by apply (flush_top_binary c t ops os0 l n n')|done|done| |done|lia|lia|].
    + eapply D_binary; try done. eapply Derives_weaken; [done|]. cbn in G. destruct G as [G|[G|G]]; lia || congruence.
    + by rewrite <- !app_assoc.
  - (* dereference *)
    match goal with K : tk_kind t = Dereference |- _ =>
      cbn in G; unfold precedence in G; rewrite K in G; cbn in G; lia || naive_solver lia end.
Qed.

Lemma flush_Top q w c : Top w c -> 1 <= q <= 19 -> exists c', flush q c = Ok c' /\ flushed q w c c'.
Proof.
  intros T Q. destruct T as [w os a n c S N D G|w os ops a l d t n c S G K D M O N].
  - by apply (flush_have q w os a n 19).
  - assert (PD : precedence d = 19) by (unfold precedence; by rewrite K).
    rewrite (flush_step q c (set_stacks (NIndex l n :: os) ops c) d ops); try done.
    2: lia. 2: by rewrite K. 2: by apply (flush_top_member c d).
    destruct (flush_have q w os (a ++ [d; t]) (NIndex l n) 19 (set_stacks (NIndex l n :: os) ops c))
      as (c' & E & F); try done; [by apply D_member|].
    exists c'. split; [done|]. eapply flushed_step; [done| |done]. cbn. rewrite O.
    rewrite openers_skip; [done|apply not_opener; by rewrite K].
Qed.

(** ** One token *)

(** The outcome of a token: the shape again, or an error that is the user's. *)
Definition good (w : list Token) (u : list Token) (r : parsing ParseContext) : Prop :=
  match r with
  | Ok c => Conf w c /\ openers (operators c) = u
  | Err (PError e) => pe_kind e <> Internal
  | Err Panic => False
  end.

(** Which modes a legal token leaves. *)
Lemma mode_before w c k allowed :
  Conf w c -> tk_kind <$> px_last_token c = k -> k ∈ allowed ->
  Forall (fun k => match k with
    | Some TFunction => False
    | Some k => ends_operand k = false
    | None => True end) allowed ->
  Stack w (operands c) (operators c) /\ px_last_token c = head (operators c).
Proof.
  intros C <- I F. rewrite Forall_forall in F. specialize (F _ I).
  destruct C as [|w' c' t' T L E|w' f os ca lo hi c' S G K LK N L]; [auto|exfalso..]; rewrite L in F; cbn in F.
  - by destruct (tk_kind t').
  - by rewrite K in F.
Qed.

Lemma mode_after w c k allowed :
  Conf w c -> tk_kind <$> px_last_token c = k -> k ∈ allowed ->
  Forall (fun k => match k with Some k => ends_operand k = true | None => False end) allowed -> Top w c.
Proof.
  intros C <- I F. rewrite Forall_forall in F. specialize (F _ I).
  destruct C as [w' c' S L|w' c' t' T L E|w' f os ca lo hi c' S G K LK N L]; [exfalso|done|exfalso]; rewrite L in F.
  - inversion S; subst; rewrite <- ?H2 in F;
      match goal with O : _ = operators _ |- _ => rewrite <- O in F end; cbn in F;
      repeat match goal with
      | K : tk_kind _ = _ |- _ => rewrite K in F
      | K : is_not _ |- _ => destruct K as [K _]
      | K : is_binary _ |- _ => destruct K as [K _]
      end; done.
  - cbn in F. by rewrite K in F.
Qed.

(** A new operand where one is awaited. *)
Lemma operand_good w c t n :
  Stack w (operands c) (operators c) -> guard 19 (operators c) -> Derives 19 [t] n ->
  ends_operand (tk_kind t) = true -> is_operator t = false ->
  push_operand c t = Ok (push_node n c) -> good (w ++ [t]) (openers (operators c)) (parse_token c t).
Proof.
  intros S G D E O P. rewrite parse_token_operand; [|done|by destruct (tk_kind t)]. rewrite P. cbn.
  split; [|done]. eapply C_top; [|done|done]. by apply (T_have w (operands c) [t] n).
Qed.

(** An operator between operands, an index or a dereference. *)
Lemma infix_good w c t :
  Top w c -> is_operator t = true -> associativity t = LeftToRight -> 1 <= precedence t <= 19 ->
  match tk_kind t with EndGroup | EndIndex | EndParameters => false | _ => true end = true ->
  (forall w' os' ops' a' n', Stack w' os' ops' -> stops (precedence t) ops' -> w = w' ++ a' ->
     openers ops' = openers (operators c) ->
     Derives (precedence t) a' n' -> Stack (w' ++ a' ++ [t]) (n' :: os') (t :: ops')) ->
  good (w ++ [t]) (openers (t :: operators c)) (parse_token c t).
Proof.
  intros T O A P K S. destruct (flush_Top (precedence t) w c T P) as (c' & F & FL).
  rewrite (push_left c c' t); [|done| |done..].
  2: { unfold is_operator in O. by destruct (tk_kind t). }
  destruct FL as (w' & os' & ops' & a' & n' & -> & S' & E & D & St & OP). cbn.
  split; [|unfold openers in *; cbn; by rewrite OP]. apply C_need; [|done]. cbn. rewrite E, <- app_assoc. by apply S.
Qed.

(** ** Closing tokens *)

Ltac kind_clash :=
  match goal with
  | K : tk_kind ?x = _, K' : tk_kind ?x = _ |- _ => rewrite K in K'; discriminate
  | K : is_not ?x, K' : tk_kind ?x = _ |- _ => destruct K as [K _]; rewrite K in K'; discriminate
  | K : is_binary ?x, K' : tk_kind ?x = _ |- _ => destruct K as [K _]; rewrite K in K'; discriminate
  end.

Lemma Stack_group_inv w os o ops : Stack w os (o :: ops) -> tk_kind o = StartGroup ->
  exists w0, w = w0 ++ [o] /\ Stack w0 os ops /\ guard 19 ops.
Proof. intros S K. inversion S; subst; try kind_clash. eauto. Qed.

Lemma Stack_index_inv w os o ops : Stack w os (o :: ops) -> tk_kind o = StartIndex ->
  exists w0 a l os0, w = w0 ++ a ++ [o] /\ os = l :: os0 /\ Stack w0 os0 ops /\ guard 19 ops /\ Derives 19 a l.
Proof. intros S K. inversion S; subst; try kind_clash. eauto 10. Qed.

Lemma Stack_member_inv w os d ops : Stack w os (d :: ops) -> tk_kind d = Dereference ->
  exists w0 a l os0, w = w0 ++ a ++ [d] /\ os = l :: os0 /\ Stack w0 os0 ops /\ guard 19 ops /\ Derives 19 a l.
Proof. intros S K. inversion S; subst; try kind_clash. eauto 10. Qed.

(** The call in whose parameters the parser stands, with the arguments so far
    ([seps] may be empty). *)
Definition in_call (w : list Token) (os : list Node) (ops : list Token)
    (f o : Token) (canonical : text) (lo hi : nat)
    (w0 : list Token) (os0 : list Node) (ops0 seps : list Token) (ts : list Token) (ns : list Node) : Prop :=
  ops = seps ++ o :: ops0 /\ w = w0 ++ f :: o :: ts /\
  os = rev ns ++ NFunction (function_name (raw_value f) canonical) [] :: os0 /\
  Stack w0 os0 ops0 /\ guard 19 ops0 /\ tk_kind f = TFunction /\ tk_kind o = StartParameters /\
  lookup_function (raw_value f) = Some (canonical, lo, hi) /\
  Forall (fun s => tk_kind s = Separator) seps /\ length seps = length ns /\
  (ts = [] /\ ns = [] \/ exists ts' s, ts = ts' ++ [s] /\ Arguments1 ts' ns /\ tk_kind s = Separator).

Lemma Stack_call_inv w os t ops :
  Stack w os (t :: ops) -> tk_kind t = StartParameters \/ tk_kind t = Separator ->
  exists f o canonical lo hi w0 os0 ops0 seps ts ns,
    in_call w os (t :: ops) f o canonical lo hi w0 os0 ops0 seps ts ns /\
    openers (t :: ops) = o :: openers ops0 /\
    (tk_kind t = StartParameters -> t = o /\ seps = []).
Proof.
  intros S [K|K]; inversion S; subst; try kind_clash.
  - exists f, t, canonical, lo, hi, w0, os0, ops, [], [], []. unfold in_call.
    rewrite openers_open by (unfold is_opener; by rewrite K). split_and!; try done. by left.
  - exists f, o, canonical, lo, hi, w0, os0, ops0, (t :: seps), (ts ++ [t]), ns. unfold in_call.
    split; [split_and!; try done; [by constructor|right; eauto]|]. split; [|congruence].
    rewrite openers_skip by (unfold is_opener; by rewrite K).
    rewrite openers_app, separators_no_opener by done. cbn [app].
    apply openers_open. unfold is_opener. match goal with K : tk_kind o = _ |- _ => by rewrite K end.
Qed.

(** A closing token flushes down to the bracket it closes, or to the last
    separator of the call it closes. *)
Lemma closes_top w os ops o u :
  Stack w os ops -> stops 1 ops -> openers ops = o :: u ->
  exists t rest, ops = t :: rest /\
    (t = o /\ openers rest = u \/ tk_kind t = Separator /\ tk_kind o = StartParameters).
Proof.
  intros S St O. destruct ops as [|t rest]; [done|]. exists t, rest. split; [done|].
  assert (F : is_fence (tk_kind t) = true).
  { destruct (Stack_precedence _ _ _ _ S) as [F|P]; [done|]. cbn in St. destruct St; [done|lia]. }
  destruct (decide (tk_kind t = Separator)) as [K|K].
  - right. split; [done|]. destruct (Stack_call_inv w os t rest S ltac:(auto))
      as (f & o' & ? & ? & ? & ? & ? & ? & ? & ? & ? & C & O' & _).
    destruct C as (_ & _ & _ & _ & _ & _ & KO & _). congruence.
  - left. rewrite openers_open in O; [by injection O as -> ->|].
    unfold is_opener. by destruct (tk_kind t).
Qed.

Lemma closed_good w c t w0 os a n c1 u :
  parse_token c t = Ok (set_last_token t c1) -> ends_operand (tk_kind t) = true ->
  Stack w0 os (operators c1) -> guard 19 (operators c1) -> operands c1 = n :: os ->
  Derives 19 a n -> w ++ [t] = w0 ++ a -> openers (operators c1) = u ->
  good (w ++ [t]) u (parse_token c t).
Proof.
  intros -> E S G N D -> U. cbn. split; [|done]. eapply C_top; [|done|done]. by eapply T_have.
Qed.

Lemma group_good w c t o u :
  Top w c -> tk_kind t = EndGroup -> openers (operators c) = o :: u -> tk_kind o = StartGroup ->
  good (w ++ [t]) u (parse_token c t).
Proof.
  intros T K O KO. destruct (flush_Top 1 w c T) as (c' & F & FL); [lia|].
  destruct FL as (w' & os' & ops' & a' & n' & -> & S & -> & D & St & OP). rewrite O in OP.
  destruct (closes_top _ _ _ _ _ S St OP) as (t' & rest & -> & [[-> U]|[_ KO']]); [|congruence].
  destruct (Stack_group_inv _ _ _ _ S KO) as (w0 & -> & S0 & G0).
  eapply (closed_good _ _ _ w0 os' (o :: a' ++ [t]) n' (set_stacks (n' :: os') rest c));
    [by rewrite (close_group c _ o t rest KO K F)|by rewrite K|done|done|done| | |done].
  - by apply D_group.
  - by rewrite <- !app_assoc.
Qed.

Lemma index_good w c t o u :
  Top w c -> tk_kind t = EndIndex -> openers (operators c) = o :: u -> tk_kind o = StartIndex ->
  good (w ++ [t]) u (parse_token c t).
Proof.
  intros T K O KO. destruct (flush_Top 1 w c T) as (c' & F & FL); [lia|].
  destruct FL as (w' & os' & ops' & a' & n' & -> & S & -> & D & St & OP). rewrite O in OP.
  destruct (closes_top _ _ _ _ _ S St OP) as (t' & rest & -> & [[-> U]|[_ KO']]); [|congruence].
  destruct (Stack_index_inv _ _ _ _ S KO) as (w0 & a & l & os0 & -> & -> & S0 & G0 & DA).
  eapply (closed_good _ _ _ w0 os0 (a ++ o :: a' ++ [t]) (NIndex l n') (set_stacks (NIndex l n' :: os0) rest c));
    [by rewrite (close_index c _ o t rest l n' os0 KO K F)|by rewrite K|done|done|done| | |done].
  - by apply D_index.
  - by rewrite <- !app_assoc.
Qed.

(** The closing parenthesis of a call, with all its arguments read. *)
Lemma call_good c t f o canonical lo hi w0 os0 ops0 seps ts ns c1 :
  tk_kind t = EndParameters -> flush 1 c = Ok c1 ->
  operators c1 = seps ++ o :: ops0 ->
  operands c1 = rev ns ++ NFunction (function_name (raw_value f) canonical) [] :: os0 ->
  Stack w0 os0 ops0 -> guard 19 ops0 -> tk_kind f = TFunction -> tk_kind o = StartParameters ->
  lookup_function (raw_value f) = Some (canonical, lo, hi) ->
  Forall (fun s => tk_kind s = Separator) seps -> Arguments ts ns ->
  (if bool_decide (tk_kind <$> px_last_token c1 = Some StartParameters)
   then ns = [] /\ seps = [] else S (length seps) = length ns) ->
  good (w0 ++ f :: o :: ts ++ [t]) (openers ops0) (parse_token c t).
Proof.
  intros K F O N S0 G0 KF KO LK SS A SN. set (name := function_name _ _) in *.
  rewrite (close_call_attach c c1 o t ops0 seps ns name os0 KO K F) by done.
  destruct (lookup_canonical _ _ _ _ LK) as [canonical' LK'].
  destruct (attach_cases (set_stacks (NFunction name [] :: os0) (o :: ops0) c1) ns name os0 o ops0
    canonical' lo hi KO eq_refl eq_refl LK') as [[AT AF]|(_ & e & AT & NI)]; rewrite AT; [|done].
  cbn. split; [|done]. eapply C_top; [|done|by rewrite K]. eapply T_have; [done|done| |done].
  by eapply D_call.
Qed.

(** ** Every token the lexer admits *)

Lemma check_last_true l c allowed :
  lx_last_token l = px_last_token c -> check_last_token l allowed = true ->
  tk_kind <$> px_last_token c ∈ allowed.
Proof. unfold check_last_token, last_kind. intros ->. apply bool_decide_eq_true_1. Qed.

Definition is_before (k : option TokenKind) : bool :=
  match k with
  | None | Some (Separator | StartGroup | StartParameters | StartIndex | LogicalOperator) => true
  | _ => false
  end.

(** Where an operand is awaited, other than after a dereference. *)
Lemma awaiting w c allowed :
  Conf w c -> tk_kind <$> px_last_token c ∈ allowed -> Forall (fun k => is_before k = true) allowed ->
  Stack w (operands c) (operators c) /\ guard 19 (operators c).
Proof.
  intros C I F. destruct (mode_before w c _ allowed C eq_refl I) as [S L].
  { eapply Forall_impl; [done|]. intros [[]|]; done. }
  split; [done|]. rewrite Forall_forall in F. specialize (F _ I). rewrite L in F.
  destruct (operators c) as [|t ops]; [done|]. eapply Stack_guard; [done|]. intros K. cbn in F. by rewrite K in F.
Qed.

Lemma prefix_good w c t :
  (is_not t \/ tk_kind t = StartGroup) -> Stack w (operands c) (operators c) -> guard 19 (operators c) ->
  good (w ++ [t]) (openers (t :: operators c)) (parse_token c t).
Proof.
  intros P S G. rewrite push_prefix by done. cbn. split; [|done]. apply C_need; [|done]. cbn.
  destruct P; [by apply S_not|by apply S_group].
Qed.

Lemma index_open_good w c t :
  Top w c -> tk_kind t = StartIndex \/ tk_kind t = Dereference ->
  good (w ++ [t]) (openers (t :: operators c)) (parse_token c t).
Proof.
  intros T K. assert (P : precedence t = 19) by (unfold precedence; by destruct K as [-> | ->]).
  apply infix_good; try done.
  - unfold is_operator. by destruct K as [-> | ->].
  - unfold associativity, is_operator. by destruct K as [-> | ->].
  - lia.
  - by destruct K as [-> | ->].
  - rewrite P. intros w' os' ops' a' n' S St _ _ D. apply stops_guard in St; [|lia].
    destruct K; [by apply S_index|by apply S_member].
Qed.

Lemma binary_good w c t :
  Top w c -> is_binary t -> good (w ++ [t]) (openers (operators c)) (parse_token c t).
Proof.
  intros T B. pose proof (binary_bounds t B) as [P F]. pose proof (is_binary_precedence t B) as (_ & _ & A & _).
  rewrite <- (openers_skip t) by by apply not_opener. destruct B as [K R].
  apply infix_good; try done; rewrite ?K; try done; [unfold is_operator; by rewrite K|lia|].
  intros w' os' ops' a' n' S St _ _ D. apply S_binary; try done. apply stops_guard; [done|lia].
Qed.

Lemma separator_good w c t o u :
  Top w c -> tk_kind t = Separator -> openers (operators c) = o :: u -> tk_kind o = StartParameters ->
  good (w ++ [t]) (o :: u) (parse_token c t).
Proof.
  intros T K O KO. destruct (closer_facts t) as (P & A & I & U); [by rewrite K|].
  rewrite <- O, <- (openers_skip t) by (unfold is_opener; by rewrite K).
  apply infix_good; rewrite ?K; try done; [lia|]. rewrite P.
  intros w' os' ops' a' n' S St _ OP D. rewrite O in OP.
  destruct (closes_top _ _ _ _ _ S St OP) as (t' & rest & -> & C).
  destruct (Stack_call_inv _ _ _ _ S) as (f & o' & canonical & lo & hi & w0 & os0 & ops0 & seps & ts & ns & IC & _).
  { destruct C as [[-> _]|[? _]]; auto. }
  destruct IC as (-> & -> & -> & S0 & G0 & KF & KO' & LK & SS & L & A1).
  destruct A1 as [[-> ->]|(ts' & s & -> & A1 & KS)].
  - destruct seps; [|done]. cbn.
    replace ((w0 ++ [f; o']) ++ a' ++ [t]) with (w0 ++ f :: o' :: a' ++ [t]) by by rewrite <- app_assoc.
    apply (S_sep w0 os0 ops0 f o' canonical lo hi a' [n'] t []); try done. by apply A_one.
  - replace ((w0 ++ f :: o' :: ts' ++ [s]) ++ a' ++ [t]) with (w0 ++ f :: o' :: (ts' ++ s :: a') ++ [t]).
    2: { rewrite <- !app_assoc. cbn. by rewrite <- ?app_assoc. }
    change (n' :: rev ns ++ ?x) with ((n' :: rev ns) ++ x). rewrite <- (rev_unit ns n').
    apply (S_sep w0 os0 ops0 f o' canonical lo hi _ (ns ++ [n']) t seps); try done; [by apply A_more|].
    rewrite length_app. cbn. lia.
Qed.

(** A call closed after its last argument. *)
Lemma call_args_good w c t o u :
  Top w c -> (forall t', px_last_token c = Some t' -> tk_kind t' <> StartParameters) ->
  tk_kind t = EndParameters -> openers (operators c) = o :: u ->
  tk_kind o = StartParameters -> good (w ++ [t]) u (parse_token c t).
Proof.
  intros T LT K O KO. destruct (flush_Top 1 w c T) as (c' & F & FL); [lia|].
  destruct FL as (w' & os' & ops' & a' & n' & -> & S & -> & D & St & OP). rewrite O in OP.
  destruct (closes_top _ _ _ _ _ S St OP) as (t' & rest & -> & C).
  destruct (Stack_call_inv _ _ _ _ S)
    as (f & o' & canonical & lo & hi & w0 & os0 & ops0 & seps & ts & ns & IC & OO & _).
  { destruct C as [[-> _]|[? _]]; auto. }
  rewrite OP in OO. injection OO as <- ->.
  destruct IC as (EO & -> & -> & S0 & G0 & KF & _ & LK & SS & L & A1). rewrite EO in F.
  replace ((w0 ++ f :: o :: ts) ++ a') with (w0 ++ f :: o :: ts ++ a') by by rewrite <- app_assoc.
  replace ((w0 ++ f :: o :: ts ++ a') ++ [t]) with (w0 ++ f :: o :: (ts ++ a') ++ [t])
    by (rewrite <- !app_assoc; cbn; by rewrite <- ?app_assoc).
  eapply (call_good c t f o canonical lo hi w0 os0 ops0 seps (ts ++ a') (ns ++ [n'])); try done.
  - cbn. by rewrite rev_unit.
  - apply A_some. destruct A1 as [[-> ->]|(ts' & s & -> & A1 & KS)]; [by apply A_one|].
    rewrite <- app_assoc. by apply A_more.
  - rewrite bool_decide_eq_false_2; [rewrite length_app; cbn; lia|]. cbn.
    destruct (px_last_token c) as [x|]; [|done]. cbn. intros [= E]. by apply (LT x).
Qed.

(** A call without arguments. *)
Lemma call_empty_good w c t :
  Stack w (operands c) (operators c) -> px_last_token c = head (operators c) ->
  tk_kind <$> px_last_token c = Some StartParameters -> tk_kind t = EndParameters ->
  good (w ++ [t]) (tail (openers (operators c))) (parse_token c t).
Proof.
  intros S L KL K. destruct (operators c) as [|o ops] eqn:O; [by rewrite L in KL|].
  rewrite L in KL. cbn in KL. injection KL as KO.
  destruct (Stack_call_inv _ _ _ _ S ltac:(auto))
    as (f & o' & canonical & lo & hi & w0 & os0 & ops0 & seps & ts & ns & IC & OO & EQ).
  rewrite OO. destruct (EQ KO) as [<- ->]. clear EQ.
  destruct IC as (EO & -> & N & S0 & G0 & KF & _ & LK & SS & LN & A1). cbn in EO. injection EO as ->.
  destruct ns; [|done]. destruct A1 as [[-> _]|(ts' & s & -> & A1 & KS)]; [|by inversion A1; subst; destruct ns].
  rewrite <- app_assoc. cbn [app tail].
  eapply (call_good c t f o canonical lo hi w0 os0 ops0 [] [] [] c); try done.
  - apply flush_stops. rewrite O. left. by rewrite KO.
  - apply A_none.
  - rewrite bool_decide_eq_true_2; [done|]. rewrite L. cbn. by rewrite KO.
Qed.

Lemma parameters_good w c t :
  Conf w c -> tk_kind <$> px_last_token c = Some TFunction -> tk_kind t = StartParameters ->
  good (w ++ [t]) (openers (t :: operators c)) (parse_token c t).
Proof.
  intros C L K.
  destruct C as [w c S LS|w c t' T LT E|w f os canonical lo hi c S G KF LK N LF].
  - exfalso. rewrite LS in L. destruct (operators c) as [|x ops]; [done|]. cbn in L. injection L as L.
    destruct (Stack_top _ _ _ _ S) as [F|[[N _]|[[B _]|D]]]; [by rewrite L in F|congruence..].
  - rewrite LT in L. cbn in L. injection L as L. by rewrite L in E.
  - rewrite (push_left c c t).
    2: { unfold is_operator. by rewrite K. }
    2: { by rewrite K. }
    2: { unfold associativity, is_operator. by rewrite K. }
    2: { by rewrite K. }
    2: { apply flush_stops. unfold precedence. rewrite K. eapply guard_stops; [done|lia..]. }
    cbn. split; [|done]. apply C_need; [|done]. cbn. rewrite N, <- app_assoc. by eapply S_call.
Qed.

Lemma function_good w c t :
  Stack w (operands c) (operators c) -> guard 19 (operators c) -> tk_kind t = TFunction ->
  good (w ++ [t]) (openers (operators c)) (parse_token c t).
Proof.
  intros S G K. rewrite parse_token_operand; [|unfold is_operator; by rewrite K|by rewrite K].
  unfold push_operand. rewrite K. destruct (lookup_function (raw_value t)) as [[[canonical lo] hi]|] eqn:LK; [|done].
  cbn. split; [|done]. by eapply (C_function w t (operands c) canonical lo hi).
Qed.

Lemma member_good w c t n :
  Stack w (operands c) (operators c) -> px_last_token c = head (operators c) ->
  tk_kind <$> px_last_token c = Some Dereference -> member t n ->
  good (w ++ [t]) (openers (operators c)) (parse_token c t).
Proof.
  intros S L KL M. destruct (operators c) as [|d ops] eqn:O; [by rewrite L in KL|].
  rewrite L in KL. cbn in KL. injection KL as KD.
  destruct (Stack_member_inv _ _ _ _ S KD) as (w0 & a & l & os0 & -> & N & S0 & G0 & D).
  assert (T : parse_token c t = Ok (set_last_token t (push_node n c))).
  { destruct M as [[K ->]|[K ->]]; rewrite parse_token_operand;
      unfold push_operand, is_operator; by rewrite K. }
  rewrite T. cbn. rewrite O. split; [|done].
  eapply C_top; [|done|by destruct M as [[-> _]|[-> _]]]. rewrite <- !app_assoc. cbn [app].
  eapply T_member; try done; cbn; by rewrite ?N.
Qed.

Lemma literal_good w c t :
  Stack w (operands c) (operators c) -> guard 19 (operators c) -> is_literal (tk_kind t) = true ->
  good (w ++ [t]) (openers (operators c)) (parse_token c t).
Proof.
  intros S G K. eapply operand_good; [done|done|by apply D_literal|..].
  - by destruct (tk_kind t).
  - unfold is_operator. by destruct (tk_kind t).
  - unfold push_operand. by destruct (tk_kind t).
Qed.

Lemma logical_kinds t : tk_kind t = LogicalOperator ->
  is_operator1 (raw_value t) = true \/ is_operator2 (raw_value t) = true ->
  raw_value t <> txt "!" -> is_binary t.
Proof.
  intros K R N. split; [done|].
  assert (E : exists s, s ∈ ["!"; ">"; "<"; "!="; ">="; "<="; "=="; "&&"; "||"]%string /\ raw_value t = txt s).
  { destruct R as [R|R]; apply existsb_elem in R as (s & I & R%bool_decide_eq_true_1); exists s;
      (split; [|done]); set_solver. }
  destruct E as (s & I & R'). rewrite R' in *. set_solver.
Qed.

(** A token the lexer accepts keeps the shape. *)
Lemma token_good w c t l u :
  Conf w c -> lx_last_token l = px_last_token c -> unclosed_tokens l = openers (operators c) ->
  accepted l t u ->
  (tk_kind t = LogicalOperator ->
     is_operator1 (raw_value t) = true \/ is_operator2 (raw_value t) = true) ->
  good (w ++ [t]) u (parse_token c t).
Proof.
  intros C L U [LG ST] LO. unfold legal_here in LG. unfold unclosed_step in ST. rewrite U in ST.
  pose proof (fun a => check_last_true l c a L) as CL.
  assert (B : forall a, check_last_token l a = true -> Forall (fun k => is_before k = true) a ->
    Stack w (operands c) (operators c) /\ guard 19 (operators c)).
  { intros a I F. eapply awaiting; eauto. }
  assert (A : forall a, check_last_token l a = true ->
    Forall (fun k => match k with Some k => ends_operand k = true | None => False end) a -> Top w c).
  { intros a I F. eapply mode_after; eauto. }
  assert (CB : forall k, bool_decide (tk_kind <$> head (openers (operators c)) = Some k) = true ->
    exists o, openers (operators c) = o :: tail (openers (operators c)) /\ tk_kind o = k).
  { intros k E%bool_decide_eq_true_1. destruct (openers (operators c)) as [|o u']; [done|].
    injection E as E. eauto. }
  destruct (tk_kind t) eqn:K; try (injection ST as <-); try discriminate LG.
  - destruct (B _ LG) as [S G]; [by repeat constructor|]. rewrite <- openers_open by (unfold is_opener; by rewrite K).
    apply prefix_good; auto.
  - rewrite <- openers_open by (unfold is_opener; by rewrite K). apply index_open_good; [|auto].
    eapply A; [done|by repeat constructor].
  - rewrite <- openers_open by (unfold is_opener; by rewrite K). apply parameters_good; [done| |done].
    apply CL, list_elem_of_singleton in LG. done.
  - case_bool_decide as E; [|done]. injection ST as <-. destruct (CB StartGroup) as (o & O & KO); [by apply bool_decide_eq_true_2|].
    eapply group_good; [eapply A; [done|by repeat constructor]|done|done|done].
  - case_bool_decide as E; [|done]. injection ST as <-. destruct (CB StartIndex) as (o & O & KO); [by apply bool_decide_eq_true_2|].
    eapply index_good; [eapply A; [done|by repeat constructor]|done|done|done].
  - case_bool_decide as E; [|done]. injection ST as <-.
    destruct (CB StartParameters) as (o & O & KO); [by apply bool_decide_eq_true_2|].
    apply orb_true_iff in LG as [LG|LG].
    + destruct (B _ LG) as [S G]; [by repeat constructor|]. apply CL, list_elem_of_singleton in LG.
      apply call_empty_good; try done.
      by destruct (mode_before w c _ [Some StartParameters] C LG ltac:(by left) ltac:(by repeat constructor)).
    + eapply call_args_good; try done; [eapply A; [done|by repeat constructor]|].
      intros t' LT KT. apply CL in LG. rewrite LT in LG. cbn in LG. rewrite KT in LG.
      unfold AFTER_OPERAND in LG. set_solver.
  - case_bool_decide as E; [|done]. injection ST as <-.
    destruct (CB StartParameters) as (o & O & KO); [by apply bool_decide_eq_true_2|]. rewrite O.
    eapply separator_good; try done. eapply A; [done|by repeat constructor].
  - rewrite <- (openers_skip t) by (unfold is_opener; by rewrite K). apply index_open_good; [|auto].
    eapply A; [done|by repeat constructor].
  - apply CL in LG as LW. rewrite !elem_of_cons, elem_of_nil in LW. destruct LW as [LW|[LW|[]]].
    + destruct (awaiting w c [Some StartIndex] C) as [S G]; [by rewrite LW; left|by repeat constructor|].
      apply (operand_good w c t NWildcard); try done; [by apply D_wildcard|by rewrite K|unfold is_operator; by rewrite K|].
      unfold push_operand. by rewrite K.
    + destruct (mode_before w c _ [Some Dereference] C LW) as [S LH]; [by left|by repeat constructor|].
      apply (member_good w c t NWildcard); try done. by right.
  - destruct (bool_decide (raw_value t = txt "!")) eqn:E.
    + apply bool_decide_eq_true_1 in E. destruct (B _ LG) as [S G]; [by repeat constructor|].
      rewrite <- (openers_skip t) by (unfold is_opener; by rewrite K). apply prefix_good; try done. by left.
    + apply bool_decide_eq_false_1 in E. apply binary_good; [eapply A; [done|by repeat constructor]|].
      by apply logical_kinds; [|apply LO|].
  - destruct (B _ LG) as [S G]; [by repeat constructor|]. apply literal_good; try done. by rewrite K.
  - destruct (B _ LG) as [S G]; [by repeat constructor|]. apply literal_good; try done. by rewrite K.
  - destruct (B _ LG) as [S G]; [by repeat constructor|]. apply literal_good; try done. by rewrite K.
  - destruct (B _ LG) as [S G]; [by repeat constructor|]. apply literal_good; try done. by rewrite K.
  - apply CL, list_elem_of_singleton in LG.
    destruct (mode_before w c _ [Some Dereference] C LG) as [S LH]; [by left|by repeat constructor|].
    eapply member_good; try done. by left.
  - destruct (B _ LG) as [S G]; [by repeat constructor|]. by apply function_good.
  - destruct (B _ LG) as [S G]; [by repeat constructor|]. destruct (is_named_value (raw_value t)) eqn:NV.
    + eapply operand_good; try done; [by apply D_named|by rewrite K|unfold is_operator; by rewrite K|].
      unfold push_operand. by rewrite K, NV.
    + rewrite parse_token_operand; [|unfold is_operator; by rewrite K|by rewrite K].
      unfold push_operand. by rewrite K, NV.
Qed.

(** ** The token loop *)

Definition agrees (c : ParseContext) : Prop :=
  lx_last_token (px_lexer c) = px_last_token c /\
  unclosed_tokens (px_lexer c) = openers (operators c) /\
  lx_index (px_lexer c) <= length (lx_expression (px_lexer c)) /\
  (tk_kind <$> px_last_token c = Some TFunction -> exists p l, next_token (px_lexer c) = (Some p, l)).

Lemma Conf_lexer w c l : Conf w c -> Conf w (set_lexer l c).
Proof.
  intros C. destruct C as [w c S L|w c t T L E|w f os canonical lo hi c S G K LK N L].
  - by apply C_need.
  - eapply C_top; [|done|done]. destruct T; [by eapply T_have|by eapply T_member].
  - by eapply (C_function w f os canonical lo hi).
Qed.

(** Only the user's errors leave the parser. *)
Definition clean {A} (P : A -> Prop) (r : parsing A) : Prop :=
  match r with
  | Ok a => P a
  | Err (PError e) => pe_kind e <> Internal
  | Err Panic => False
  end.

Lemma parse_token_lexer c t c' : parse_token c t = Ok c' -> px_last_token c' = Some t.
Proof. unfold parse_token. destruct (if bool_decide _ then _ else _); [|done]. by intros [= <-]. Qed.

Lemma parse_token_keeps c t l c' : parse_token (set_lexer l c) t = Ok c' -> px_lexer c' = l.
Proof. rewrite parse_token_relex. destruct (parse_token c t); [|done]. by intros [= <-]. Qed.

Lemma loop_good n w c :
  Conf w c -> agrees c -> length (lx_expression (px_lexer c)) - lx_index (px_lexer c) < n ->
  clean (fun c' => Conf (w ++ (lex n (px_lexer c)).1) c' /\
    openers (operators c') = unclosed_tokens (px_lexer c') /\
    tk_kind <$> px_last_token c' <> Some TFunction /\
    Forall (fun t => tk_kind t <> Unexpected) (lex n (px_lexer c)).1) (parse_loop n c).
Proof.
  revert w c. induction n as [|n IH]; intros w c C (LL & LU & LI & LF) N; [lia|]. cbn.
  destruct (next_token (px_lexer c)) as [[t|] l] eqn:T.
  2: { cbn. rewrite app_nil_r. split_and!; [by apply Conf_lexer| | |done].
       - rewrite <- LU. symmetry. by eapply next_token_end.
       - intros F. destruct (LF F) as (? & ? & ?). congruence. }
  pose proof (next_token_spec _ _ _ T) as NS. pose proof (function_then_paren _ _ _ T) as FP. destruct NS.
  destruct (lex n l) as [ts l'] eqn:LX. cbn.
  destruct (decide (tk_kind t = Unexpected)) as [UX|UX].
  { unfold parse_token. rewrite bool_decide_eq_true_2 by done. done. }
  pose proof (token_good w (set_lexer l c) t (px_lexer c) _ (Conf_lexer _ _ l C) LL LU (ns_accepted UX) ns_logical) as G.
  destruct (parse_token (set_lexer l c) t) as [c1|[e|]] eqn:P; cbn in *; try done.
  destruct G as [C1 O1]. pose proof (parse_token_lexer _ _ _ P) as LT. pose proof (parse_token_keeps _ _ _ _ P) as LK.
  specialize (IH (w ++ [t]) c1 C1). rewrite LK, LX in IH. rewrite <- app_assoc in IH. cbn in IH.
  assert (A1 : agrees c1).
  { split_and!; rewrite ?LK, ?LT; [done|done|rewrite ns_expression; lia|].
    cbn. intros [= F]. by apply FP. }
  specialize (IH A1). rewrite ns_expression in IH. specialize (IH ltac:(lia)).
  destruct (parse_loop n c1) as [c'|[e|]]; cbn in *; try done.
  destruct IH as (? & ? & ? & ?). split_and!; try done. by constructor.
Qed.

(** ** The end of the expression *)

Lemma check_max_depth_spec n d :
  check_max_depth n d =
  if (d + height n <=? S MAX_DEPTH)%nat then Ok tt else fail (without_token ExceededMaxDepth).
Proof.
  revert d. induction n as [n IH] using Node_children_ind. intros d.
  assert (L : forall l, Forall (fun n => forall d, check_max_depth n d =
      if (d + height n <=? S MAX_DEPTH)%nat then Ok tt else fail (without_token ExceededMaxDepth)) l ->
    d <= MAX_DEPTH ->
    (fix check_all (nodes : list Node) : parsing () :=
      match nodes with
      | [] => Ok tt
      | n :: nodes => let? _ := check_max_depth n (S d) in check_all nodes
      end) l =
    if (d + S (foldr max 0 (map height l)) <=? S MAX_DEPTH)%nat then Ok tt
    else fail (without_token ExceededMaxDepth)).
  { intros l F D. induction F as [|x l E F IHl]; cbn [map foldr].
    - destruct (Nat.leb_spec (d + 1) (S MAX_DEPTH)); [done|lia].
    - rewrite E, IHl. clear E F IHl.
      repeat match goal with |- context [(?a <=? ?b)%nat] => destruct (Nat.leb_spec a b) end; cbn; done || lia. }
  assert (T : forall r, (MAX_DEPTH < d -> d + height n <= S MAX_DEPTH -> False) ->
    (d <= MAX_DEPTH -> r = if (d + height n <=? S MAX_DEPTH)%nat then Ok tt
      else fail (without_token ExceededMaxDepth)) ->
    (if (MAX_DEPTH <? d)%nat then fail (without_token ExceededMaxDepth) else r) =
    if (d + height n <=? S MAX_DEPTH)%nat then Ok tt else fail (without_token ExceededMaxDepth)).
  { intros r H1 H2. destruct (Nat.ltb_spec MAX_DEPTH d); [|auto].
    destruct (Nat.leb_spec (d + height n) (S MAX_DEPTH)); [|done]. exfalso. auto. }
  destruct n; cbn [check_max_depth]; apply T; try (cbn [height]; lia); intros D;
    cbn [height children] in *; try (by apply L).
  1-3: by rewrite (proj2 (Nat.leb_le _ _)) by lia.
  all: repeat match goal with F : Forall _ (_ :: _) |- _ => apply Forall_cons in F as [? F] end.
  all: repeat match goal with E : forall d, check_max_depth ?x d = _ |- _ => rewrite E; clear E end.
  all: repeat match goal with |- context [(?a <=? ?b)%nat] => destruct (Nat.leb_spec a b) end; cbn; done || lia.
Qed.

Lemma finish_good w c :
  Conf w c -> openers (operators c) = unclosed_tokens (px_lexer c) ->
  tk_kind <$> px_last_token c <> Some TFunction ->
  clean (fun r => match r with
    | None => w = []
    | Some n => Derives 1 w n /\ height n <= MAX_DEPTH
    end) (finish c).
Proof.
  intros C O LF. unfold finish.
  destruct C as [w c S L|w c t T L E|w f os canonical lo hi c S G K LK N L].
  - rewrite L. destruct (operators c) as [|t ops] eqn:OP; [by inversion S|]. cbn [head].
    assert (unexpected_last_token t = true) as ->.
    { unfold unexpected_last_token, is_operator.
      destruct (Stack_top _ _ _ _ S) as [F|[[-> _]|[[-> _]| ->]]]; [by destruct (tk_kind t)|done..]. }
    by rewrite bool_decide_eq_false_2.
  - rewrite L.
    assert (unexpected_last_token t = false) as ->.
    { unfold unexpected_last_token, is_operator. by destruct (tk_kind t). }
    cbn [orb]. unfold has_unclosed_tokens. rewrite <- O.
    destruct (openers (operators c)) as [|o u] eqn:OP.
    2: { rewrite bool_decide_eq_false_2; [done|]. intros E'. by rewrite E' in OP. }
    rewrite andb_false_r.
    destruct (flush_Top 1 w c T) as (c' & F & FL); [lia|].
    destruct FL as (w' & os' & ops' & a' & n' & -> & S & -> & D & St & OP'). rewrite OP in OP'.
    assert (ops' = []) as ->.
    { destruct ops' as [|t' rest]; [done|]. exfalso. cbn in St.
      destruct (Stack_precedence _ _ _ _ S) as [F'|P]; [|destruct St; [|lia]].
      1,2: destruct (decide (tk_kind t' = Separator)) as [KS|KS];
        [destruct (Stack_call_inv _ _ _ _ S ltac:(auto)) as (? & ? & ? & ? & ? & ? & ? & ? & ? & ? & ? & _ & OO & _); congruence
        |rewrite openers_open in OP'; [done|unfold is_opener; by destruct (tk_kind t')]]. }
    inversion S; subst. unfold flush in F. rewrite (flush_all_while _ _ _ F eq_refl). cbn [result_bind operands set_stacks].
    rewrite check_max_depth_spec. destruct (Nat.leb_spec (1 + height n') (Datatypes.S MAX_DEPTH)); cbn; [|done].
    split; [done|lia].
  - rewrite L in LF. cbn in LF. by rewrite K in LF.
Qed.

Lemma new_Conf e : Conf [] (new_context e).
Proof. apply C_need; [apply S_nil|done]. Qed.

Lemma parse_clean e :
  clean (fun r => Forall (fun t => tk_kind t <> Unexpected) (tokens e) /\
    (N.of_nat (length e) <= MAX_LENGTH)%N /\
    match r with
    | None => tokens e = []
    | Some n => Derives 1 (tokens e) n /\ height n <= MAX_DEPTH
    end) (parse e).
Proof.
  unfold parse. destruct (N.ltb_spec MAX_LENGTH (N.of_nat (length e))); [done|].
  assert (A : agrees (new_context e)) by (split_and!; cbn; try done; lia).
  pose proof (loop_good (S (length e)) [] (new_context e) (new_Conf e) A ltac:(cbn; lia)) as G.
  change (lex _ (px_lexer _)).1 with (tokens e) in G.
  destruct (parse_loop (S (length e)) (new_context e)) as [c'|[?|]]; cbn [clean result_bind] in *; try done.
  destruct G as (C & O & LF & UX). pose proof (finish_good _ _ C O LF) as F.
  destruct (finish c') as [[n|]|[?|]]; cbn in *; auto.
Qed.

(** ** Brackets of the lexer *)

Lemma lex_unclosed n l :
  Forall (fun t => tk_kind t <> Unexpected) (lex n l).1 ->
  lx_index l <= length (lx_expression l) ->
  unclosed_after (unclosed_tokens l) (lex n l).1 = Some (unclosed_tokens (lex n l).2).
Proof.
  revert l. induction n as [|n IH]; intros l F I; [done|]. cbn in *.
  destruct (next_token l) as [[t|] l'] eqn:T.
  - apply next_token_spec in T as []. specialize (IH l'). destruct (lex n l') as [ts l'']. cbn in *.
    apply Forall_cons in F as [U F]. destruct (ns_accepted U) as [_ A]. rewrite A. apply IH; [done|].
    rewrite ns_expression. lia.
  - cbn. f_equal. symmetry. by eapply next_token_end.
Qed.

(** ** The theorems *)

(** An expression the lexer reads without an unexpected symbol. *)
Definition well_lexed (e : text) : Prop := Forall (fun t => tk_kind t <> Unexpected) (tokens e).

Lemma parse_iff (e : text) (n : Node) :
  parse e = Ok (Some n) <->
  (N.of_nat (length e) <= MAX_LENGTH)%N /\ well_lexed e /\ Derives 1 (tokens e) n /\
  height n <= MAX_DEPTH.
Proof.
  split.
  - intros P. pose proof (parse_clean e) as C. rewrite P in C. cbn in C. naive_solver.
  - intros (L & W & D & HT).
    assert (U : unclosed_tokens (final_lexer e) = []).
    { pose proof (lex_unclosed (S (length e)) (new_lexer e) W ltac:(cbn; lia)) as E.
      change (lex _ (new_lexer e)).1 with (tokens e) in E. change (lex _ (new_lexer e)).2 with (final_lexer e) in E.
      rewrite (Derives_balanced _ _ _ D) in E. by injection E. }
    rewrite (parse_derived e n L W U D), check_max_depth_spec.
    by rewrite (proj2 (Nat.leb_le _ _)) by lia.
Qed.

(** C10: the shunting-yard parser is equivalent to the grammar: it returns a tree
    exactly when the expression is not too long, lexes without an unexpected
    symbol, its tokens derive that tree in the reference grammar (precedence,
    left associativity, arity and known names included) and the tree is not
    deeper than the limit. *)
Theorem parser_matches_grammar (e : text) (n : Node) :
  parse e = Ok (Some n) <->
  (N.of_nat (length e) <= MAX_LENGTH)%N /\ well_lexed e /\ Derives 1 (tokens e) n /\
  height n <= MAX_DEPTH.
Proof. apply parse_iff. Qed.

(** Parsing never panics and never ends in one of the parser's internal
    errors: every failure is one the expression's author can act on. *)
Theorem parse_errors_are_external (e : text) :
  match parse e with
  | Ok _ => True
  | Err (PError err) => pe_kind err <> Internal
  | Err Panic => False
  end.
Proof. pose proof (parse_clean e) as C. by destruct (parse e) as [?|[?|]]. Qed.

(** The empty tree is returned for blank expressions only. *)
Lemma parse_blank e : parse e = Ok None -> tokens e = [].
Proof. intros P. pose proof (parse_clean e) as C. rewrite P in C. naive_solver. Qed.

(** The tokens of an expression have at most one tree. *)
Lemma grammar_unambiguous e n n' :
  (N.of_nat (length e) <= MAX_LENGTH)%N -> well_lexed e -> height n <= MAX_DEPTH -> height n' <= MAX_DEPTH ->
  Derives 1 (tokens e) n -> Derives 1 (tokens e) n' -> n = n'.
Proof.
  intros. assert (parse e = Ok (Some n)) by (by apply parse_iff).
  assert (parse e = Ok (Some n')) by (by apply parse_iff). congruence.
Qed.

End Sound.
