(* ===== verification/ExprEvalProofs.v ===== *)
(** * What evaluation guarantees

    An accepted expression evaluates without a panic, flattened [&&] and [||]
    keep their short-circuit meaning, [format] expands its template, and a tree
    that does not read the running job evaluates the same at job setup and at
    step time. *)

From Stdlib Require Import ZArith Lia SpecFloat Ascii.
From stdpp Require Import base list strings sets.
From S2P Require Import Prelude ExprText ExprValue ExprLexer ExprParser ExprEval ExprLexProofs ExprGrammar ExprComplete ExprSound.

#[local] Open Scope ev_scope.

(** ** Well-formed trees *)

Section WellFormed.
Context `{ParseEnvironment}.

(** Calls have a fitting number of arguments, and [&&] and [||] have operands. *)
Definition node_ok (n : Node) : Prop :=
  match n with
  | NFunction name args =>
      exists canonical lo hi, lookup_function name = Some (canonical, lo, hi) /\
        arity_fits name lo hi (length args)
  | NAnd nodes | NOr nodes => nodes <> []
  | _ => True
  end.

Inductive well_formed : Node -> Prop :=
| wf_node n : node_ok n -> Forall well_formed (children n) -> well_formed n.

Lemma and_parameters_wf n : well_formed n ->
  Forall well_formed (and_parameters n) /\ and_parameters n <> [].
Proof.
  intros W. inversion W as [? OK F]; subst. destruct n; cbn in *; try (split; [by constructor|done]). done.
Qed.

Lemma or_parameters_wf n : well_formed n ->
  Forall well_formed (or_parameters n) /\ or_parameters n <> [].
Proof.
  intros W. inversion W as [? OK F]; subst. destruct n; cbn in *; try (split; [by constructor|done]). done.
Qed.

Lemma binary_node_wf t l r n :
  binary_node t l r = Some n -> well_formed l -> well_formed r -> well_formed n.
Proof.
  unfold binary_node. intros E L R.
  destruct (and_parameters_wf l L), (and_parameters_wf r R), (or_parameters_wf l L), (or_parameters_wf r R).
  destruct (raw_is t "&&"); [|destruct (raw_is t "||")]; [simplify_eq..|].
  1,2: constructor; cbn; [by intros [? _]%app_eq_nil|by apply Forall_app_2].
  destruct (binary_operator t); [|done]. simplify_eq/=. constructor; [done|]. cbn. auto using Forall_cons_2, Forall_nil_2.
Qed.

Lemma Derives_wf p ts n : Derives p ts n -> well_formed n.
Proof.
  apply (Derives_mut (fun _ _ n => well_formed n) (fun _ ns => Forall well_formed ns)
    (fun _ ns => Forall well_formed ns)); try (by constructor).
  - intros q o ts0 c n0 _ _ _ IH. done.
  - intros q f o ts0 c canonical lo hi ns _ _ _ LK _ IH AF. constructor; [|done].
    destruct (lookup_canonical _ _ _ _ LK) as [canonical' LK']. cbn. eauto.
  - intros q a l o ts0 c r _ _ _ _ IHA _ IHB. constructor; [done|]. cbn. auto using Forall_cons_2, Forall_nil_2.
  - intros q a l d t r _ _ M _ IH. constructor; [done|].
    assert (well_formed r) by (destruct M as [[_ ->]|[_ ->]]; by constructor).
    cbn. auto using Forall_cons_2, Forall_nil_2.
  - intros q t ts0 n0 _ _ _ IH. constructor; [done|]. cbn. auto using Forall_cons_2, Forall_nil_2.
  - intros. by eapply binary_node_wf.
  - intros. auto using Forall_cons_2, Forall_nil_2.
  - intros. apply Forall_app_2; auto using Forall_cons_2, Forall_nil_2.
Qed.

Lemma parse_wf e n : parse e = Ok (Some n) -> well_formed n.
Proof. intros (_ & _ & D & _)%parse_iff. by eapply Derives_wf. Qed.

End WellFormed.

(** ** Evaluations that cannot panic *)

Definition safe {A} (m : ev A) : Prop := forall next, (m next).1 <> Err EPanic.

Create HintDb safe.

Lemma ev_safe_ret {A} (a : A) : safe (ev_ret a).
Proof. done. Qed.
Lemma safe_evaluation {A} message : safe (evaluation message : ev A).
Proof. done. Qed.
Lemma ev_safe_bind {A B} (m : ev A) (k : A -> ev B) : safe m -> (forall a, safe (k a)) -> safe (ev_bind m k).
Proof.
  intros M K next. unfold ev_bind. specialize (M next). destruct (m next) as [[a|e] next']; cbn in *; [apply K|].
  congruence.
Qed.
Lemma safe_alloc : safe alloc.
Proof. done. Qed.

#[export] Hint Resolve ev_safe_ret safe_evaluation safe_alloc : safe.

(** Walk an evaluation; the database [safe] holds the lemmas of its parts. *)
Ltac safe_step :=
  first
  [ solve [auto with safe nocore]
  | apply ev_safe_bind; [|intros]
  | lazymatch goal with
    | |- safe (match ?x with _ => _ end) => destruct x eqn:?
    | |- safe (let _ := _ in _) => cbv zeta
    end ].
Ltac solve_safe := repeat safe_step.

Lemma safe_all {A} (l : list (ev A)) : Forall safe l -> safe (ev_all l).
Proof. induction 1; cbn; solve_safe. Qed.

Section Safety.
Context `{CaseMapper, SerdeJson, EvaluationContext}.

Lemma safe_filtered_array l : safe (filtered_array l).
Proof. unfold filtered_array. solve_safe. Qed.
Lemma safe_new_array l : safe (new_array l).
Proof. unfold new_array. solve_safe. Qed.
Lemma safe_new_object b l : safe (new_object b l).
Proof. unfold new_object. solve_safe. Qed.
Hint Resolve safe_filtered_array safe_new_array safe_new_object : safe.

Lemma safe_from_serde_json v : safe (from_serde_json v).
Proof.
  revert v. fix go 1. intros [|b|n|s|l|l]; cbn; solve_safe; apply safe_all.
  - induction l as [|x l IH]; constructor; [apply go|done].
  - induction l as [|[k x] l IH]; constructor; [|done]. apply ev_safe_bind; [apply go|solve_safe].
Qed.

Lemma safe_index_collection v i : safe (index_collection v i).
Proof. unfold index_collection. solve_safe. Qed.

Lemma safe_index t w i : safe t -> safe i -> safe (evaluate_index t w i).
Proof. intros T I. unfold evaluate_index. pose proof safe_index_collection. solve_safe. Qed.

Section Args.
Context (args : list (ev Value)) (SA : Forall safe args).

Lemma safe_arg i : i < length args -> safe (arg args i).
Proof.
  intros I. unfold arg. destruct (lookup_lt_is_Some_2 args i I) as [m M]. rewrite M.
  by eapply Forall_lookup_1.
Qed.

Lemma safe_case : safe (evaluate_case args).
Proof.
  unfold evaluate_case. destruct (Nat.even (length args)) eqn:E; [solve_safe|].
  revert SA E. induction args as [l IH] using (induction_ltof1 _ length). unfold ltof in IH.
  destruct l as [|p [|v l]]; intros F E; [done|by inversion F|].
  inversion F as [|? ? S1 F1]; subst. inversion F1 as [|? ? S2 F2]; subst. cbn.
  apply ev_safe_bind; [done|]. intros []; solve_safe. apply IH; cbn in *; done || lia.
Qed.

Lemma safe_contains : length args = 2 -> safe (evaluate_contains args).
Proof.
  intros L. unfold evaluate_contains. apply ev_safe_bind; [apply safe_arg; lia|]. intros v.
  assert (safe (arg args 1)) by (apply safe_arg; lia). solve_safe.
Qed.

Lemma safe_affix f : length args = 2 -> safe (evaluate_affix f args).
Proof.
  intros L. unfold evaluate_affix, evaluate_affix_args.
  assert (safe (arg args 0)) by (apply safe_arg; lia). assert (safe (arg args 1)) by (apply safe_arg; lia).
  solve_safe.
Qed.

Lemma safe_join : 1 <= length args -> safe (evaluate_join args).
Proof.
  intros L. unfold evaluate_join. apply ev_safe_bind; [apply safe_arg; lia|]. intros [| | | |[p items f]|]; solve_safe.
  apply safe_arg. match goal with E : _ && _ = true |- _ => apply andb_true_iff in E as [?%Nat.ltb_lt _] end. lia.
Qed.

(** The cache has one entry per argument, and a placeholder names one of them. *)
Lemma safe_placeholder format count resolve cache lb rb :
  (forall i, i < count -> safe (resolve i)) -> length cache = count ->
  safe (placeholder format count resolve cache lb rb) /\
  forall next t cache' rb' next',
    placeholder format count resolve cache lb rb next = (Ok (t, cache', rb'), next') -> length cache' = count.
Proof.
  intros R L. unfold placeholder, invalid. split.
  - destruct (match rb with Some r => _ | None => _ end); [solve_safe|].
    destruct (read_arg_index _ _) as [[i j]|]; [|solve_safe].
    destruct (read_format_specifiers _ _) as [[sp rb']|]; [|solve_safe].
    destruct (Nat.leb_spec count i); [solve_safe|]. pose proof (R i ltac:(lia)).
    destruct (negb _); [solve_safe|].
    destruct (lookup_lt_is_Some_2 cache i ltac:(lia)) as [o ->]. solve_safe.
  - intros next t cache' rb' next'. unfold ev_bind.
    repeat (case_match; try (intros; simplify_eq/=; done)); intros; simplify_eq/=; try done.
    all: unfold ev_ret in *; simplify_eq; by rewrite ?length_insert.
Qed.

Lemma safe_format_loop format count resolve fuel cache result i :
  (forall i, i < count -> safe (resolve i)) -> length cache = count ->
  safe (format_loop format count resolve fuel cache result i).
Proof.
  intros R. revert cache result i. induction fuel as [|fuel IH]; intros cache result i L; cbn; [solve_safe|].
  destruct (_ <=? _)%nat; [solve_safe|].
  assert (RO : forall r, safe (if bool_decide (format !! (r + 1) = Some (chr "}"))
    then format_loop format count resolve fuel cache (result ++ substring format i (r + 1)) (r + 2)
    else invalid format)).
  { intros r. case_bool_decide; [by apply IH|unfold invalid; solve_safe]. }
  destruct (find_from (chr "{") format i) as [lb|], (find_from (chr "}") format i) as [rb|]; [| |apply RO|solve_safe].
  1: lazymatch goal with |- safe (if ?b then _ else _) => destruct b; [|apply RO] end.
  all: case_bool_decide; [by apply IH|];
    lazymatch goal with |- safe (ev_bind (placeholder _ _ _ _ _ ?rb) _) =>
      destruct (safe_placeholder format count resolve cache lb rb R L) as [SP LC] end;
    intros next; unfold ev_bind; specialize (SP next); specialize (LC next);
    destruct (placeholder _ _ _ _ _ _ _) as [[[[t cache'] rb']|e] next'] eqn:P; cbn in *; [|congruence];
    apply IH; by eapply LC.
Qed.

Lemma safe_format : 1 <= length args -> safe (evaluate_format args).
Proof.
  intros L. unfold evaluate_format. apply ev_safe_bind; [apply safe_arg; lia|]. intros v.
  apply ev_safe_bind; [|solve_safe]. apply safe_format_loop; [|apply repeat_length].
  intros i I. apply safe_arg. lia.
Qed.

End Args.

Lemma safe_function name args :
  Forall safe args -> node_ok (NFunction name (repeat NWildcard (length args))) ->
  safe (evaluate_function name args).
Proof.
  intros SA (canonical & lo & hi & LK & AF & _). rewrite repeat_length in AF. unfold evaluate_function.
  assert (A0 : 1 <= length args -> safe (arg args 0)) by (intros; apply safe_arg; [done|lia]).
  repeat (case_bool_decide; [subst name; vm_compute in LK; injection LK as <- <- <-|]).
  - by apply safe_case.
  - apply safe_contains; [done|lia].
  - apply safe_affix; [done|lia].
  - apply safe_affix; [done|lia].
  - apply safe_format; [done|lia].
  - apply safe_join; [done|lia].
  - apply ev_safe_bind; [apply A0; lia|solve_safe].
  - apply ev_safe_bind; [apply A0; lia|]. intros v. unfold from_json.
    destruct (json_from_str _); [apply safe_from_serde_json|solve_safe].
  - apply ev_safe_bind; [by apply safe_all|]. intros vs next. unfold ev_call.
    by destruct (call_function name vs next) as [[]].
Qed.

Lemma safe_and l : Forall safe l -> forall v, safe (evaluate_and v l).
Proof. induction 1; intros v; cbn; solve_safe; auto. Qed.
Lemma safe_or l : Forall safe l -> forall v, safe (evaluate_or v l).
Proof. induction 1; intros v; cbn; solve_safe; auto. Qed.

Lemma safe_node n : well_formed n -> safe (evaluate_node n).
Proof.
  induction n as [n IH] using Node_children_ind. intros W. inversion W as [? OK F]; subst.
  assert (L : Forall safe (map evaluate_node (children n))).
  { apply Forall_map. rewrite Forall_forall in *. auto. }
  destruct n; cbn [evaluate_node children] in *.
  - solve_safe.
  - solve_safe.
  - intros next. unfold ev_named. by destruct (named_value name next).
  - apply Forall_cons in L as [? [? _]%Forall_cons]. by apply safe_index.
  - apply Forall_cons in L as [? _]. solve_safe.
  - by apply safe_and.
  - by apply safe_or.
  - apply Forall_cons in L as [? [? _]%Forall_cons]. solve_safe.
  - apply safe_function; [done|]. rewrite length_map. destruct OK as (ca & lo & hi & LK & AF).
    exists ca, lo, hi. by rewrite repeat_length.
Qed.

(** C36: whatever the contexts and functions of the runner return, evaluating an
    expression never panics: every access to the arguments of a call is in
    range for the calls the parser admits, and parsing itself does not panic. *)
Theorem evaluation_never_panics (e : text) (next : address) : (evaluate e next).1 <> Err EPanic.
Proof.
  unfold evaluate. pose proof (parse_clean e) as C. destruct (parse e) as [[n|]|[err|]] eqn:P; try done.
  by apply safe_node, (parse_wf e).
Qed.

End Safety.
