(* ===== verification/ExprMeaning.v ===== *)
(** * The meaning of operators, deferral and [format]

    The rest of the evaluator's guarantees. Evaluations are compared
    pointwise ([ev_eq]), with congruence lemmas in the database [ev_eq].
    Before them a concrete runner: instances of the engine's interfaces on
    which expressions evaluate. *)

From Stdlib Require Import ZArith Lia SpecFloat Ascii Morphisms.
From stdpp Require Import base list strings sets.
From S2P Require Import Prelude ExprText ExprValue ExprLexer ExprParser ExprEval ExprLexProofs ExprGrammar ExprComplete ExprSound ExprEvalProofs.

(** ** A concrete runner

    ASCII case mapping, integers as JSON numbers, GitHub's root contexts and
    the runner's functions. The examples show the pipeline at work. *)

Definition ascii_mapper : CaseMapper := fun c =>
  if in_range 97%N 122%N c then (c - 32)%N else c.

Definition integer_json : SerdeJson := {|
  number := Z;
  as_f64 n := Some (f64_of_Z n);
  json_string s := 34%N :: s ++ [34%N];
  json_from_str s := if bool_decide (s = txt "[1,2]") then Ok (JArray [JNumber 1%Z; JNumber 2%Z]) else Err (txt "syntax");
|}.

Definition github_names : ParseEnvironment := {|
  is_named_value name := existsb (eq_ignore_ascii_case name) ROOT_CONTEXTS;
  function_arity name :=
    '(_, lo, hi) ← List.find (fun f : text * nat * nat => eq_ignore_ascii_case f.1.1 name) RUNNER_FUNCTIONS;
    Some (lo, hi);
|}.

(** A runner whose contexts hold their own name, and a given [env]. *)
Definition runner (env : text) : @EvaluationContext github_names := {|
  named_value name next :=
    if bool_decide (name = txt "env") then (VString env, next) else (VString name, next);
  call_function name args next := (Ok (VBoolean true), next);
|}.

Definition sample_value (env expression : string) : result Value eval_failure :=
  (@evaluate ascii_mapper integer_json github_names (runner (txt env)) (txt expression) 0%N).1.

Example precedence_sample :
  sample_value "prod" "!(1 > 2 || github == 'GITHUB' && false) && env" = Ok (VString (txt "prod")).
Proof. vm_compute. reflexivity. Qed.

Example format_sample :
  sample_value "prod" "format('{{{0}}} is {1}', join(fromJson('[1,2]'), '-'), case(success(), 1 == 1.0, 0))" =
  Ok (VString (txt "{1-2} is true")).
Proof. vm_compute. reflexivity. Qed.

Example identity_sample :
  sample_value "prod" "fromJson('[1,2]') == fromJson('[1,2]')" = Ok (VBoolean false).
Proof. vm_compute. reflexivity. Qed.

#[local] Open Scope ev_scope.

(** ** Pointwise equality *)

Definition ev_eq {A} (m m' : ev A) : Prop := forall next, m next = m' next.

#[export] Instance ev_eq_equivalence A : Equivalence (@ev_eq A).
Proof.
  split; [by intros m next|by intros m m' E next; rewrite E|by intros a b c E F next; rewrite E].
Qed.

#[export] Instance ev_bind_proper A B :
  Proper (ev_eq ==> pointwise_relation A ev_eq ==> ev_eq) (@ev_bind A B).
Proof.
  intros m m' E k k' F next. unfold ev_bind. rewrite E. destruct (m' next) as [[a|e] next']; [apply F|done].
Qed.

Lemma ev_bind_cong {A B} (m m' : ev A) (k k' : A -> ev B) :
  ev_eq m m' -> (forall a, ev_eq (k a) (k' a)) -> ev_eq (ev_bind m k) (ev_bind m' k').
Proof. intros E F. by apply ev_bind_proper. Qed.

Lemma ev_bind_assoc {A B C} (m : ev A) (k : A -> ev B) (h : B -> ev C) :
  ev_eq (ev_bind (ev_bind m k) h) (ev_bind m (fun a => ev_bind (k a) h)).
Proof. intros next. unfold ev_bind. by destruct (m next) as [[a|e] next']. Qed.

Lemma ev_bind_ret {A} (m : ev A) : ev_eq (ev_bind m ev_ret) m.
Proof. intros next. unfold ev_bind. by destruct (m next) as [[a|e] next']. Qed.

Lemma ev_ret_bind {A B} (a : A) (k : A -> ev B) : ev_eq (ev_bind (ev_ret a) k) (k a).
Proof. done. Qed.

Create HintDb ev_eq.
Lemma ev_eq_refl {A} (m : ev A) : ev_eq m m.
Proof. done. Qed.
#[export] Hint Resolve ev_eq_refl : ev_eq.

(** Walk two evaluations of the same shape. *)
Ltac ev_eq_step :=
  first
  [ solve [auto with ev_eq nocore]
  | apply ev_bind_cong; [|intros]
  | lazymatch goal with
    | |- ev_eq (match ?x with _ => _ end) (match ?x with _ => _ end) => destruct x
    end ].
Ltac solve_ev_eq := repeat ev_eq_step.

(** ** Flattened operators *)

Section Flattening.
Context `{CaseMapper, SerdeJson, EvaluationContext}.

(** The meaning of an operator between two operands. *)
Definition binary_meaning (t : Token) (l r : ev Value) : ev Value :=
  if raw_is t "&&" then let! v := l in if is_falsy v then ev_ret v else r
  else if raw_is t "||" then let! v := l in if is_truthy v then ev_ret v else r
  else
    let! a := l in
    let! b := r in
    ev_ret (VBoolean (match binary_operator t with Some op => compare_values op a b | None => false end)).

Lemma evaluate_and_app a b v : a <> [] -> b <> [] ->
  ev_eq (evaluate_and v (a ++ b))
    (let! x := evaluate_and v a in if is_falsy x then ev_ret x else evaluate_and VNull b).
Proof.
  revert v. induction a as [|m a IH]; intros v NA NB; [done|]. cbn. rewrite ev_bind_assoc.
  apply ev_bind_cong; [done|]. intros x. destruct (is_falsy x) eqn:F; [by rewrite ev_ret_bind, F|].
  destruct a as [|m' a]; [|by apply IH]. cbn. rewrite ev_ret_bind, F. by destruct b.
Qed.

Lemma evaluate_or_app a b v : a <> [] -> b <> [] ->
  ev_eq (evaluate_or v (a ++ b))
    (let! x := evaluate_or v a in if is_truthy x then ev_ret x else evaluate_or VNull b).
Proof.
  revert v. induction a as [|m a IH]; intros v NA NB; [done|]. cbn. rewrite ev_bind_assoc.
  apply ev_bind_cong; [done|]. intros x. destruct (is_truthy x) eqn:F; [by rewrite ev_ret_bind, F|].
  destruct a as [|m' a]; [|by apply IH]. cbn. rewrite ev_ret_bind, F. by destruct b.
Qed.

Lemma evaluate_and_parameters n :
  ev_eq (evaluate_and VNull (map evaluate_node (and_parameters n))) (evaluate_node n).
Proof.
  destruct n; try done; cbn [and_parameters map evaluate_and]; rewrite <- (ev_bind_ret (evaluate_node _)) at 2;
    apply ev_bind_cong; try done; intros x; by destruct (is_falsy x).
Qed.

Lemma evaluate_or_parameters n :
  ev_eq (evaluate_or VNull (map evaluate_node (or_parameters n))) (evaluate_node n).
Proof.
  destruct n; try done; cbn [or_parameters map evaluate_or]; rewrite <- (ev_bind_ret (evaluate_node _)) at 2;
    apply ev_bind_cong; try done; intros x; by destruct (is_truthy x).
Qed.

Lemma flattening_meaning t l r n :
  well_formed l -> well_formed r -> binary_node t l r = Some n ->
  ev_eq (evaluate_node n) (binary_meaning t (evaluate_node l) (evaluate_node r)).
Proof.
  intros L R. unfold binary_node, binary_meaning.
  destruct (and_parameters_wf l L) as [_ AL], (and_parameters_wf r R) as [_ AR].
  destruct (or_parameters_wf l L) as [_ OL], (or_parameters_wf r R) as [_ OR].
  assert (M : forall (f : Node -> list Node) n, f n <> [] -> map evaluate_node (f n) <> []).
  { intros f m. by destruct (f m). }
  destruct (raw_is t "&&"); [|destruct (raw_is t "||")].
  - intros [= <-]. cbn [evaluate_node]. rewrite map_app, evaluate_and_app by auto.
    rewrite evaluate_and_parameters. apply ev_bind_cong; [done|]. intros x.
    destruct (is_falsy x); [done|apply evaluate_and_parameters].
  - intros [= <-]. cbn [evaluate_node]. rewrite map_app, evaluate_or_app by auto.
    rewrite evaluate_or_parameters. apply ev_bind_cong; [done|]. intros x.
    destruct (is_truthy x); [done|apply evaluate_or_parameters].
  - destruct (binary_operator t) as [op|]; [|done]. intros [= <-]. done.
Qed.

(** The n-ary trees the parser builds by flattening nested [&&] and [||]
    mean what the binary operators mean: the second operand is evaluated only
    when the first does not decide, and the value of the deciding operand is
    returned; the comparisons evaluate both sides in order. *)
Theorem flattening_preserves_short_circuit (t : Token) (l r n : Node) (next : address) :
  well_formed l -> well_formed r -> binary_node t l r = Some n ->
  evaluate_node n next = binary_meaning t (evaluate_node l) (evaluate_node r) next.
Proof. intros. by apply flattening_meaning. Qed.

End Flattening.

(** ** Trees that do not read the running job *)

Section Deferral.
Context `{CaseMapper, SerdeJson, ParseEnvironment}.

Section Cong.
Context (args args' : list (ev Value)) (EA : Forall2 ev_eq args args').

Lemma arg_cong i : ev_eq (arg args i) (arg args' i).
Proof.
  unfold arg. pose proof (proj1 (Forall2_lookup _ _ _) EA i) as E. by destruct E.
Qed.
Hint Resolve arg_cong : ev_eq.

Lemma all_cong : ev_eq (ev_all args) (ev_all args').
Proof. induction EA; cbn; solve_ev_eq; auto. Qed.

Lemma case_cong : ev_eq (evaluate_case args) (evaluate_case args').
Proof.
  unfold evaluate_case. rewrite (Forall2_length _ _ _ EA). destruct (Nat.even _); [done|].
  clear -EA. revert args' EA. induction args as [l IH] using (induction_ltof1 _ length). unfold ltof in IH.
  intros l' E. destruct E as [|p p' l l' P E]; [done|]. destruct E as [|v v' l l' V E]; [done|]. cbn.
  apply ev_bind_cong; [done|]. intros []; try done. destruct b; [done|]. apply IH; [cbn; lia|done].
Qed.

Lemma contains_cong : ev_eq (evaluate_contains args) (evaluate_contains args').
Proof. unfold evaluate_contains. solve_ev_eq. Qed.

Lemma affix_cong f : ev_eq (evaluate_affix f args) (evaluate_affix f args').
Proof. unfold evaluate_affix, evaluate_affix_args. solve_ev_eq. Qed.

Lemma join_cong : ev_eq (evaluate_join args) (evaluate_join args').
Proof. unfold evaluate_join. rewrite (Forall2_length _ _ _ EA). solve_ev_eq. Qed.

Lemma placeholder_cong format count f f' cache lb rb : (forall i, ev_eq (f i) (f' i)) ->
  ev_eq (placeholder format count f cache lb rb) (placeholder format count f' cache lb rb).
Proof. intros E. unfold placeholder, invalid. solve_ev_eq. Qed.

Lemma format_cong format count f f' : (forall i, ev_eq (f i) (f' i)) ->
  ev_eq (format_template format count f) (format_template format count f').
Proof.
  intros E. unfold format_template. generalize (repeat (None (A := text)) count) (@nil char) 0.
  induction (S (length format)) as [|fuel IH]; intros cache result i; cbn; [done|].
  pose proof (fun c l r => placeholder_cong format count f f' c l r E). solve_ev_eq.
Qed.

Lemma evaluate_format_cong : ev_eq (evaluate_format args) (evaluate_format args').
Proof.
  unfold evaluate_format. rewrite (Forall2_length _ _ _ EA).
  apply ev_bind_cong; [apply arg_cong|]. intros v. apply ev_bind_cong; [|done].
  apply format_cong. intros i. apply arg_cong.
Qed.

Lemma and_cong v : ev_eq (evaluate_and v args) (evaluate_and v args').
Proof. revert v. induction EA; intros v; cbn; solve_ev_eq; auto. Qed.
Lemma or_cong v : ev_eq (evaluate_or v args) (evaluate_or v args').
Proof. revert v. induction EA; intros v; cbn; solve_ev_eq; auto. Qed.

End Cong.

(** Two views of the runner that agree on everything a job knows at its setup. *)
Definition agree_at_setup (K K' : EvaluationContext) : Prop :=
  (forall name next, is_runtime_name name = false ->
     @named_value _ K name next = @named_value _ K' name next) /\
  (forall name args next, is_runner_function name = false ->
     @call_function _ K name args next = @call_function _ K' name args next).

Section Agree.
Context (K K' : EvaluationContext) (AG : agree_at_setup K K').

Lemma function_cong name args args' :
  is_runner_function name = false -> Forall2 ev_eq args args' ->
  ev_eq (evaluate_function (EC := K) name args) (evaluate_function (EC := K') name args').
Proof.
  destruct AG as [_ C]. intros R EA. unfold evaluate_function. pose proof (arg_cong args args' EA).
  repeat (case_bool_decide;
    [auto using case_cong, contains_cong, affix_cong, join_cong, evaluate_format_cong, ev_bind_cong, ev_eq_refl|]).
  apply ev_bind_cong; [by apply all_cong|]. intros vs next. unfold ev_call. by rewrite C.
Qed.

Lemma node_agrees n : reads_runtime_context n = false ->
  ev_eq (evaluate_node (EC := K) n) (evaluate_node (EC := K') n).
Proof.
  induction n as [n IH] using Node_children_ind. intros R.
  assert (L : existsb reads_runtime_context (children n) = false ->
    Forall2 ev_eq (map (evaluate_node (EC := K)) (children n)) (map (evaluate_node (EC := K')) (children n))).
  { intros E. rewrite existsb_false in E. rewrite Forall_forall in IH. apply Forall2_fmap, Forall_Forall2_diag.
    rewrite Forall_forall. auto. }
  destruct n; cbn [evaluate_node reads_runtime_context children existsb map] in *; try done.
  - intros next. unfold ev_named. destruct AG as [N _]. by rewrite N.
  - rewrite orb_false_r in L. specialize (L R). inversion L as [|? ? ? ? E1 L1]; subst. inversion L1; subst.
    unfold evaluate_index. apply ev_bind_cong; [done|]. intros v. solve_ev_eq.
  - rewrite orb_false_r in L. specialize (L R). inversion L; subst. solve_ev_eq.
  - by apply and_cong, L.
  - by apply or_cong, L.
  - rewrite orb_false_r in L. specialize (L R). inversion L as [|? ? ? ? E1 L1]; subst. inversion L1; subst. solve_ev_eq.
  - apply orb_false_iff in R as [R1 R2]. apply function_cong; auto.
Qed.

End Agree.

(** A tree that [reads_runtime_context] clears evaluates to the same value,
    with the same allocations, under any two runners that agree on what is
    known at job setup: rendering it early instead of at step time changes
    nothing. *)
Theorem setup_rendering_is_final (K K' : EvaluationContext) (n : Node) (next : address) :
  agree_at_setup K K' -> reads_runtime_context n = false ->
  evaluate_node (EC := K) n next = evaluate_node (EC := K') n next.
Proof. intros AG R. by apply node_agrees. Qed.

End Deferral.

(** ** Witnesses *)

Definition and_token : Token := mk_token LogicalOperator (txt "&&") 0 None.

Lemma flattening_preserves_short_circuit_witness :
  @evaluate_node ascii_mapper integer_json github_names (runner (txt "x"))
    (NAnd [NNamedValue (txt "env"); NLiteral (VBoolean true); NNamedValue (txt "job")]) 0%N =
  @binary_meaning ascii_mapper and_token
    (@evaluate_node ascii_mapper integer_json github_names (runner (txt "x"))
       (NAnd [NNamedValue (txt "env"); NLiteral (VBoolean true)]))
    (@evaluate_node ascii_mapper integer_json github_names (runner (txt "x")) (NNamedValue (txt "job"))) 0%N.
Proof.
  apply (@flattening_preserves_short_circuit ascii_mapper integer_json github_names (runner (txt "x"))).
  - constructor; [done|]. repeat (apply Forall_cons_2 || apply Forall_nil_2); by constructor.
  - by constructor.
  - reflexivity.
Defined.

Lemma setup_rendering_is_final_witness :
  @evaluate_node ascii_mapper integer_json github_names (runner (txt "setup"))
    (NFunction (txt "format") [NLiteral (VString (txt "{0}")); NNamedValue (txt "github")]) 0%N =
  @evaluate_node ascii_mapper integer_json github_names (runner (txt "step"))
    (NFunction (txt "format") [NLiteral (VString (txt "{0}")); NNamedValue (txt "github")]) 0%N.
Proof.
  apply (@setup_rendering_is_final ascii_mapper integer_json github_names (runner (txt "setup")) (runner (txt "step"))).
  - split; [|done]. intros name next R. cbn. case_bool_decide as E; [|done]. subst name. by vm_compute in R.
  - reflexivity.
Defined.
