(* ===== verification/ExprFormat.v ===== *)
(** * Templates of [format]

    A template is a list of characters and placeholders; written out, its
    braces are doubled. [format_template] of the written template is the
    template with every placeholder replaced by its argument, each argument
    evaluated at its first use and cached after. *)

From Stdlib Require Import ZArith Lia SpecFloat Ascii.
From stdpp Require Import base list strings sets.
From S2P Require Import Prelude ExprText ExprValue ExprLexer ExprParser ExprEval ExprLexProofs ExprMeaning.

#[local] Open Scope ev_scope.

(** ** Templates *)

Inductive atom : Type := Ch (c : char) | Arg (i : nat).

Definition is_brace (c : char) : bool := is_chr "{" c || is_chr "}" c.

Definition write_atom (a : atom) : text :=
  match a with
  | Ch c => if is_brace c then [c; c] else [c]
  | Arg i => chr "{" :: decimal (Z.of_nat i) ++ [chr "}"]
  end.
Definition write_template (l : list atom) : text := flat_map write_atom l.

(** The expansion of a template, with the arguments resolved so far. *)
Fixpoint expand (resolve : nat -> ev Value) (cache : list (option text)) (l : list atom) : ev text :=
  match l with
  | [] => ev_ret []
  | Ch c :: l => let! r := expand resolve cache l in ev_ret (c :: r)
  | Arg i :: l =>
      match cache !! i with
      | Some (Some t) => let! r := expand resolve cache l in ev_ret (t ++ r)
      | _ =>
          let! v := resolve i in
          let! r := expand resolve (<[i := Some (convert_to_string v)]> cache) l in
          ev_ret (convert_to_string v ++ r)
      end
  end.

Definition refers (count : nat) (a : atom) : Prop :=
  match a with Ch _ => True | Arg i => i < count /\ i <= 255 end.

(** ** Finding braces *)

Lemma chr_braces : chr "{" <> chr "}".
Proof. done. Qed.

Lemma find_from_app c pre p q : c ∉ p ->
  find_from c (pre ++ p ++ q) (length pre) =
  (fun '(k, _) => length pre + (length p + k)) <$> list_find (eq c) q.
Proof.
  intros N. unfold find_from. rewrite drop_app_length.
  rewrite list_find_app_r.
  2: { apply list_find_None. rewrite Forall_forall. intros x X ->. done. }
  destruct (list_find (eq c) q) as [[k x]|]; cbn; [|done]. f_equal. lia.
Qed.

Lemma find_here (c : char) q : list_find (eq c) (c :: q) = Some (0, c).
Proof. cbn. by rewrite decide_True. Qed.

Lemma find_skip (c d : char) q : c <> d ->
  list_find (eq c) (d :: q) = prod_map S id <$> list_find (eq c) q.
Proof. intros N. cbn. by rewrite decide_False. Qed.

(** A template splits at its first brace or placeholder. *)
Lemma template_split (l : list atom) :
  exists p rest, l = map Ch p ++ rest /\ Forall (fun c => is_brace c = false) p /\
    match rest with
    | [] => True
    | Ch c :: _ => is_brace c = true
    | Arg _ :: _ => True
    end.
Proof.
  induction l as [|[c|i] l (p & rest & -> & F & R)].
  - by exists [], [].
  - destruct (is_brace c) eqn:B; [by exists [], (Ch c :: map Ch p ++ rest)|].
    exists (c :: p), rest. split_and!; [done|by constructor|done].
  - by exists [], (Arg i :: map Ch p ++ rest).
Qed.

Lemma write_plain p : Forall (fun c => is_brace c = false) p -> write_template (map Ch p) = p.
Proof. unfold write_template. induction 1 as [|c p B F IH]; cbn; [done|]. rewrite B. cbn. congruence. Qed.

Lemma write_app a b : write_template (a ++ b) = write_template a ++ write_template b.
Proof. apply flat_map_app. Qed.

Lemma plain_no_brace c p : Forall (fun c => is_brace c = false) p -> is_brace c = true -> c ∉ p.
Proof. rewrite Forall_forall. intros F B I. specialize (F c I). congruence. Qed.

Lemma digits_no_brace i : Forall (fun c => is_brace c = false) (decimal (Z.of_nat i)).
Proof.
  destruct (decimal_spec (Z.of_nat i)) as (_ & _ & F); [lia|]. eapply Forall_impl; [exact F|].
  intros c D. unfold is_brace. destruct (is_chr "{" c) eqn:E; [apply is_chr_true in E; by subst|].
  destruct (is_chr "}" c) eqn:E2; [apply is_chr_true in E2; by subst|done].
Qed.

Lemma expand_plain resolve cache p l :
  ev_eq (expand resolve cache (map Ch p ++ l)) (let! r := expand resolve cache l in ev_ret (p ++ r)).
Proof.
  induction p as [|c p IH]; cbn; [by rewrite ev_bind_ret|].
  rewrite IH, ev_bind_assoc. by apply ev_bind_cong.
Qed.

Section Loop.
Context (count : nat) (resolve : nat -> ev Value).

(** The loop from the position after [pre], for every template still to come. *)
Definition loop_expands (l : list atom) : Prop :=
  forall pre fuel cache result, length (write_template l) < fuel -> length cache = count ->
  ev_eq (format_loop (pre ++ write_template l) count resolve fuel cache result (length pre))
    (let! r := expand resolve cache l in ev_ret (result ++ r)).

Lemma substring_middle (pre p q : text) : substring (pre ++ p ++ q) (length pre) (length pre + length p) = p.
Proof.
  unfold substring. rewrite drop_app_length. replace (_ - _) with (length p) by lia. apply take_app_length.
Qed.

Lemma lookup_after (pre : text) k (q : text) : (pre ++ q) !! (length pre + k) = q !! k.
Proof. rewrite lookup_app_r by lia. f_equal. lia. Qed.

(** The end of the template. *)
Lemma loop_end p : Forall (fun c => is_brace c = false) p -> loop_expands (map Ch p).
Proof.
  intros F pre fuel cache result L LC. rewrite write_plain in * by done.
  rewrite <- (app_nil_r (map Ch p)), expand_plain. cbn [expand]. rewrite ev_bind_assoc, !ev_ret_bind, app_nil_r.
  destruct fuel as [|fuel]; [lia|]. cbn [format_loop].
  destruct (Nat.leb_spec (length (pre ++ p)) (length pre)) as [E|E].
  { rewrite length_app in E. destruct p; [by rewrite app_nil_r|cbn in E; lia]. }
  pose proof (find_from_app (chr "{") pre p []) as F1. pose proof (find_from_app (chr "}") pre p []) as F2.
  rewrite app_nil_r in F1, F2. rewrite F1, F2 by by apply plain_no_brace.
  cbn. by rewrite drop_app_length.
Qed.

(** A doubled left brace. *)
Lemma loop_lbrace p l :
  Forall (fun c => is_brace c = false) p -> loop_expands l -> loop_expands (map Ch p ++ Ch (chr "{") :: l).
Proof.
  intros F IH pre fuel cache result L LC.
  rewrite expand_plain. cbn [expand]. rewrite !ev_bind_assoc.
  assert (W : write_template (map Ch p ++ Ch (chr "{") :: l) = p ++ chr "{" :: chr "{" :: write_template l).
  { by rewrite write_app, write_plain. }
  rewrite W in *. destruct fuel as [|fuel]; [lia|]. cbn [format_loop].
  destruct (Nat.leb_spec (length (pre ++ p ++ chr "{" :: chr "{" :: write_template l)) (length pre)) as [E|_].
  { rewrite !length_app in E. cbn in E. lia. }
  rewrite !find_from_app by by apply plain_no_brace. rewrite find_here, !find_skip by done. cbn [fmap option_fmap option_map].
  set (lb := length pre + (length p + 0)).
  assert (LB : lb = length pre + length p) by (subst lb; lia). rewrite LB. clear lb LB.
  assert (C : forall o : option (nat * char), match (fun '(k, _) => length pre + (length p + k)) <$>
      (prod_map S id <$> (prod_map S id <$> o)) with
    | Some r => (length pre + length p <? r)%nat | None => true end = true).
  { intros [[k x]|]; cbn -[Nat.ltb]; [apply Nat.ltb_lt; lia|done]. }
  rewrite C. rewrite bool_decide_eq_true_2.
  2: { by rewrite app_assoc, <- length_app, lookup_after. }
  replace (pre ++ p ++ chr "{" :: chr "{" :: write_template l)
    with ((pre ++ p ++ [chr "{"; chr "{"]) ++ write_template l) by by rewrite <- !app_assoc.
  replace (length pre + length p + 2) with (length (pre ++ p ++ [chr "{"; chr "{"])) by (rewrite !length_app; cbn; lia).
  etransitivity; [apply IH; [rewrite !length_app in L; cbn in L; lia|done]|].
  replace ((pre ++ p ++ [chr "{"; chr "{"]) ++ write_template l)
    with (pre ++ (p ++ [chr "{"]) ++ chr "{" :: write_template l) by by rewrite <- !app_assoc.
  replace (length pre + length p + 1) with (length pre + length (p ++ [chr "{"])) by (rewrite length_app; cbn; lia).
  rewrite substring_middle. apply ev_bind_cong; [done|]. intros r. rewrite !ev_ret_bind.
  by rewrite <- !app_assoc.
Qed.

(** A doubled right brace. *)
Lemma loop_rbrace p l :
  Forall (fun c => is_brace c = false) p -> loop_expands l -> loop_expands (map Ch p ++ Ch (chr "}") :: l).
Proof.
  intros F IH pre fuel cache result L LC.
  rewrite expand_plain. cbn [expand]. rewrite !ev_bind_assoc.
  assert (W : write_template (map Ch p ++ Ch (chr "}") :: l) = p ++ chr "}" :: chr "}" :: write_template l).
  { by rewrite write_app, write_plain. }
  rewrite W in *. destruct fuel as [|fuel]; [lia|]. cbn [format_loop].
  destruct (Nat.leb_spec (length (pre ++ p ++ chr "}" :: chr "}" :: write_template l)) (length pre)) as [E|_].
  { rewrite !length_app in E. cbn in E. lia. }
  rewrite !find_from_app by by apply plain_no_brace. rewrite find_here, !find_skip by done.
  set (T := pre ++ p ++ chr "}" :: chr "}" :: write_template l).
  set (right_only := fun rb : nat =>
    if bool_decide (T !! (rb + 1) = Some (chr "}"))
    then format_loop T count resolve fuel cache (result ++ substring T (length pre) (rb + 1)) (rb + 2)
    else invalid T).
  assert (R : ev_eq (right_only (length pre + length p))
    (let! x := expand resolve cache l in ev_ret ((result ++ p ++ [chr "}"]) ++ x))).
  { subst right_only T. cbv beta. rewrite bool_decide_eq_true_2.
    2: { by rewrite app_assoc, <- length_app, lookup_after. }
    replace (pre ++ p ++ chr "}" :: chr "}" :: write_template l)
      with ((pre ++ p ++ [chr "}"; chr "}"]) ++ write_template l) by by rewrite <- !app_assoc.
    replace (length pre + length p + 2) with (length (pre ++ p ++ [chr "}"; chr "}"])) by (rewrite !length_app; cbn; lia).
    etransitivity; [apply IH; [rewrite !length_app in L; cbn in L; lia|done]|].
    replace ((pre ++ p ++ [chr "}"; chr "}"]) ++ write_template l)
      with (pre ++ (p ++ [chr "}"]) ++ chr "}" :: write_template l) by by rewrite <- !app_assoc.
    replace (length pre + length p + 1) with (length pre + length (p ++ [chr "}"])) by (rewrite length_app; cbn; lia).
    by rewrite substring_middle. }
  transitivity (right_only (length pre + length p)).
  { replace (length pre + length p) with (length pre + (length p + 0)) by lia.
    destruct (list_find (eq (chr "{")) (write_template l)) as [[k x]|]; [|done].
    cbn -[Nat.ltb right_only]. rewrite (proj2 (Nat.ltb_ge _ _)) by lia. done. }
  rewrite R. apply ev_bind_cong; [done|]. intros r. rewrite !ev_ret_bind. by rewrite <- !app_assoc.
Qed.

(** A placeholder. *)
Lemma placeholder_expands pre i l cache :
  i < count -> i <= 255 -> length cache = count ->
  ev_eq (placeholder (pre ++ chr "{" :: decimal (Z.of_nat i) ++ chr "}" :: l) count resolve cache
           (length pre) (Some (length pre + S (length (decimal (Z.of_nat i))))))
    (match cache !! i with
     | Some (Some t) => ev_ret (t, cache, length pre + S (length (decimal (Z.of_nat i))))
     | _ => let! v := resolve i in
            ev_ret (convert_to_string v, <[i := Some (convert_to_string v)]> cache,
                    length pre + S (length (decimal (Z.of_nat i))))
     end).
Proof.
  intros I B LC. destruct (decimal_spec (Z.of_nat i)) as (NE & V & D); [lia|].
  set (ds := decimal (Z.of_nat i)) in *. unfold placeholder.
  rewrite (proj2 (Nat.leb_gt _ _)) by (destruct ds; [done|cbn; lia]).
  assert (SP : span is_ascii_digit (drop (length pre + 1) (pre ++ chr "{" :: ds ++ chr "}" :: l)) = (ds, chr "}" :: l)).
  { rewrite <- drop_drop, drop_app_length. change (drop 1 (_ :: ?x)) with x. clear -D.
    induction D as [|c ds C D IH]; cbn; [done|]. by rewrite C, IH. }
  assert (RI : read_arg_index (pre ++ chr "{" :: ds ++ chr "}" :: l) (length pre + 1) =
    Some (i, length pre + 1 + length ds - 1)).
  { unfold read_arg_index. rewrite SP. cbn [fst]. destruct ds as [|c ds']; [done|].
    rewrite V. rewrite (proj2 (Z.leb_le _ _)) by lia. by rewrite Nat2Z.id. }
  rewrite RI.
  assert (P : length pre + 1 + length ds - 1 + 1 = length pre + S (length ds)) by lia. rewrite P.
  assert (RS : read_format_specifiers (pre ++ chr "{" :: ds ++ chr "}" :: l) (length pre + S (length ds)) =
    Some ([], length pre + S (length ds))).
  { unfold read_format_specifiers. rewrite lookup_after.
    change ((chr "{" :: ?x) !! S ?k) with (x !! k). by rewrite list_lookup_middle. }
  rewrite RS. rewrite (proj2 (Nat.leb_gt _ _)) by lia. cbn [bool_decide negb decide].
  rewrite (bool_decide_eq_true_2 (@nil char = [])) by done. cbn.
  destruct (lookup_lt_is_Some_2 cache i ltac:(lia)) as [[t|] ->]; done.
Qed.

Lemma loop_arg p i l :
  Forall (fun c => is_brace c = false) p -> i < count -> i <= 255 ->
  loop_expands l -> loop_expands (map Ch p ++ Arg i :: l).
Proof.
  intros F I B IH pre fuel cache result L LC.
  rewrite expand_plain. cbn [expand].
  destruct (decimal_spec (Z.of_nat i)) as (NE & _ & D); [lia|]. pose proof (digits_no_brace i) as DB.
  pose proof (placeholder_expands (pre ++ p) i (write_template l) cache I B LC) as PE.
  set (ds := decimal (Z.of_nat i)) in *.
  assert (W : write_template (map Ch p ++ Arg i :: l) = p ++ chr "{" :: ds ++ chr "}" :: write_template l).
  { rewrite write_app, write_plain by done. cbn. by rewrite <- app_assoc. }
  rewrite W in *. clearbody ds. destruct fuel as [|fuel]; [lia|]. cbn [format_loop].
  destruct (Nat.leb_spec (length (pre ++ p ++ chr "{" :: ds ++ chr "}" :: write_template l)) (length pre)) as [E|_].
  { rewrite !length_app in E. cbn in E. lia. }
  rewrite (find_from_app (chr "{")), find_here by by apply plain_no_brace.
  assert (RB : find_from (chr "}") (pre ++ p ++ chr "{" :: ds ++ chr "}" :: write_template l) (length pre) =
    Some (length pre + length p + S (length ds))).
  { replace (pre ++ p ++ chr "{" :: ds ++ chr "}" :: write_template l)
      with (pre ++ (p ++ chr "{" :: ds) ++ chr "}" :: write_template l) by by rewrite <- !app_assoc.
    rewrite find_from_app, find_here.
    - cbn. rewrite length_app. cbn. f_equal. lia.
    - rewrite elem_of_app, elem_of_cons. intros [X|[X|X]];
        [by apply (plain_no_brace (chr "}") p) in X|by apply chr_braces|by apply (plain_no_brace (chr "}") ds) in X]. }
  rewrite RB. cbn [fmap option_fmap option_map]. rewrite Nat.add_0_r.
  rewrite (proj2 (Nat.ltb_lt _ _)) by lia. rewrite bool_decide_eq_false_2.
  2: { rewrite app_assoc, <- length_app, lookup_after. cbn. destruct ds as [|c ds']; [done|]. cbn.
       intros [= ->]. by inversion DB. }
  rewrite app_assoc, <- length_app. etransitivity; [apply ev_bind_cong; [exact PE|intros a; apply ev_eq_refl]|].
  assert (N : forall t cache', length cache' = count ->
    ev_eq (format_loop ((pre ++ p) ++ chr "{" :: ds ++ chr "}" :: write_template l) count resolve fuel cache'
        (result ++ substring ((pre ++ p) ++ chr "{" :: ds ++ chr "}" :: write_template l) (length pre) (length (pre ++ p)) ++ t)
        (length (pre ++ p) + S (length ds) + 1))
      (let! r := expand resolve cache' l in ev_ret (result ++ p ++ t ++ r))).
  { intros t cache' LC'.
    replace (substring _ _ _) with p.
    2: { rewrite length_app, <- app_assoc. by rewrite substring_middle. }
    replace ((pre ++ p) ++ chr "{" :: ds ++ chr "}" :: write_template l)
      with (((pre ++ p) ++ chr "{" :: ds ++ [chr "}"]) ++ write_template l).
    2: { rewrite <- !app_assoc. cbn. by rewrite <- !app_assoc. }
    replace (length (pre ++ p) + S (length ds) + 1) with (length ((pre ++ p) ++ chr "{" :: ds ++ [chr "}"])).
    2: { rewrite !length_app. cbn. rewrite length_app. cbn. lia. }
    etransitivity; [apply IH; [rewrite !length_app in L; cbn in L; rewrite length_app in L; cbn in L; lia|done]|].
    apply ev_bind_cong; [done|]. intros r. by rewrite <- !app_assoc. }
  destruct (cache !! i) as [[t|]|]; rewrite ?ev_ret_bind, ?ev_bind_assoc; cbv beta iota.
  - rewrite N by done. by apply ev_bind_cong.
  - apply ev_bind_cong; [done|]. intros v. rewrite ev_ret_bind. cbv beta iota.
    rewrite N by by rewrite length_insert. rewrite ev_bind_assoc. by apply ev_bind_cong.
  - apply ev_bind_cong; [done|]. intros v. rewrite ev_ret_bind. cbv beta iota.
    rewrite N by by rewrite length_insert. rewrite ev_bind_assoc. by apply ev_bind_cong.
Qed.

Lemma loop_all l : Forall (refers count) l -> loop_expands l.
Proof.
  induction l as [l IH] using (induction_ltof1 _ length). unfold ltof in IH. intros R.
  destruct (template_split l) as (p & rest & -> & F & S).
  apply Forall_app in R as [_ R]. rewrite length_app, length_map in IH.
  destruct rest as [|[c|i] rest].
  - rewrite app_nil_r. by apply loop_end.
  - inversion R; subst. assert (loop_expands rest) by (apply IH; [cbn; lia|done]).
    unfold is_brace in S. apply orb_true_iff in S as [->%is_chr_true| ->%is_chr_true]; [by apply loop_lbrace|by apply loop_rbrace].
  - inversion R as [|? ? IB R']; subst. destruct IB as [I B]. apply loop_arg; try done. apply IH; [cbn; lia|done].
Qed.

End Loop.

(** C37: [format] expands every template: characters stand for themselves, a
    doubled brace for the brace, and [{i}] for the [i]th argument converted to
    a string; an argument is evaluated when a placeholder first names it, and
    only then. *)
Theorem format_expands_templates (l : list atom) (count : nat) (resolve : nat -> ev Value) (next : address) :
  Forall (refers count) l ->
  format_template (write_template l) count resolve next = expand resolve (repeat None count) l next.
Proof.
  intros R. unfold format_template.
  pose proof (loop_all count resolve l R [] (S (length (write_template l))) (repeat None count) []
    ltac:(lia) (repeat_length _ _) next) as E. cbn [app length] in E. rewrite E. apply ev_bind_ret.
Qed.

Lemma format_expands_templates_witness :
  format_template (write_template [Ch (chr "{"); Arg 0; Ch (chr "a"); Arg 0]) 1
    (fun _ next => (Ok (VString (txt "x")), N.succ next)) 0%N = (Ok (txt "{xax"), 1%N).
Proof.
  rewrite (format_expands_templates [Ch (chr "{"); Arg 0; Ch (chr "a"); Arg 0] 1
    (fun _ next => (Ok (VString (txt "x")), N.succ next)) 0%N).
  - reflexivity.
  - repeat (apply Forall_cons_2 || apply Forall_nil_2); cbn; lia.
Defined.

(** A placeholder with a format specifier resolves its argument again, even
    when an earlier placeholder has cached it. *)
Example specifier_resolves_again :
  (format_template (txt "{0}{0:x}") 1 (fun _ next => (Ok VNull, N.succ next)) 0%N).2 = 2%N.
Proof. reflexivity. Qed.
