(* ===== verification/ScaleIds.v ===== *)
(** * Scale sets: identities and the trust gate

    The identifiers the scale-set controller derives for one acquisition
    ([crates/velnor-runner/src/scaleset/intents.rs]), the request identity and
    trust verdict of an offered job ([scaleset/demand.rs]) and the message
    types they read ([crates/velnor-model/src/scheduler.rs]). SHA-256 is the
    [sha2] crate's and a parameter. *)

From S2P Require Import Prelude Numerals.
From Stdlib Require Import ZArith Lia String Ascii.
From stdpp Require Import base list strings sorting.
#[local] Open Scope string_scope.
#[local] Open Scope Z_scope.

Definition i32_max : Z := 2 ^ 31 - 1.
Definition i32_min : Z := - 2 ^ 31.
Definition is_i32 (x : Z) : Prop := i32_min <= x <= i32_max.

(** The reasons for which a store refuses a call: an [anyhow::bail!] with its
    message, a column whose text is no state, or a violated SQL constraint. *)
Inductive StoreFailure :=
| Refused (why : string)
| UnknownStateText (raw : string)
| SqlConstraint.

(** ** Keys *)

Definition permit_holder (scale_set_id request_id : Z) : string :=
  "scaleset/" +:+ signed_to_string scale_set_id +:+ "/" +:+ signed_to_string request_id.

Definition parse_permit_holder (holder : string) : result (Z * Z) StoreFailure :=
  match str_strip_prefix "scaleset/" holder with
  | None => Err (Refused "permit holder is not a scale-set holder")
  | Some rest =>
      match split_once "/" rest with
      | None => Err (Refused "permit holder has no request part")
      | Some (set, request) =>
          match parse_signed i32_min i32_max set with
          | None => Err (Refused "permit holder has a bad scale-set part")
          | Some set =>
              match parse_signed i64_min i64_max request with
              | None => Err (Refused "permit holder has a bad request part")
              | Some request => Ok (set, request)
              end
          end
      end
  end.

Definition mint_batch_id (scale_set_id process_id unix_nanos : Z) : string :=
  "acq-" +:+ signed_to_string scale_set_id +:+ "-" +:+ signed_to_string process_id +:+ "-" +:+
  signed_to_string unix_nanos.

Definition runner_name (scale_set_id request_id : Z) : string :=
  "velnor-" +:+ signed_to_string scale_set_id +:+ "-" +:+ signed_to_string request_id.

Definition parse_runner_name (name : string) : option (Z * Z) :=
  match split_at "-" name with
  | [velnor; set; request] =>
      if String.eqb velnor "velnor" then
        match parse_signed i32_min i32_max set with
        | None => None
        | Some set_id =>
            match parse_signed i64_min i64_max request with
            | None => None
            | Some req_id =>
                if (0 <? set_id) && (0 <? req_id) && String.eqb (runner_name set_id req_id) name
                then Some (set_id, req_id) else None
            end
        end
      else None
  | _ => None
  end.

Definition request_id_for_runner (scale_set_id : Z) (name : string) (fallback_request_id : Z)
    : option Z :=
  if String.eqb name "" then Some fallback_request_id
  else
  match parse_runner_name name with
  | None => None
  | Some (event_scale_set_id, request_id) =>
      if event_scale_set_id =? scale_set_id then Some request_id else None
  end.

Definition provision_operation_id (scale_set_id request_id attempt : Z) : string :=
  "prov-op-" +:+ signed_to_string scale_set_id +:+ "-" +:+ signed_to_string request_id +:+ "-" +:+
  signed_to_string attempt.

Definition provision_ownership_id (scale_set_id : Z) (name : string) : string :=
  "prov-own-" +:+ signed_to_string scale_set_id +:+ "-" +:+ name.

(** ** Digests *)

(** [Sha256::digest]: thirty-two bytes, as numbers below 256. *)
Class Sha256 := sha256 : list Z -> list Z.

Definition bytes_of (s : string) : list Z :=
  (fun c => Z.of_N (N_of_ascii c)) <$> list_ascii_of_string s.

(** [u64::to_be_bytes] and [u64::from_be_bytes]. *)
Definition to_be_bytes (n : Z) : list Z :=
  (fun k => Z.land (Z.shiftr n (8 * k)) 255) <$> [7; 6; 5; 4; 3; 2; 1; 0].
Definition from_be_bytes (bytes : list Z) : Z :=
  foldl (fun acc b => Z.lor (Z.shiftl acc 8) b) 0 bytes.

Definition hex_digit (n : Z) : ascii :=
  ascii_of_N (Z.to_N (if n <? 10 then 48 + n else 87 + n)).
Definition hex_encode (bytes : list Z) : string :=
  string_of_list_ascii (mjoin ((fun b => [hex_digit (Z.shiftr b 4); hex_digit (Z.land b 15)]) <$> bytes)).

(** The byte order of Rust strings. *)
Definition string_order (a b : string) : Prop := String.leb a b = true.
#[export] Instance string_order_dec : RelDecision string_order.
Proof. intros a b. unfold string_order. apply _. Defined.

Section Digests.
Context `{SHA : Sha256}.

Definition labels_hash (labels : list string) : string :=
  hex_encode (sha256 (mjoin
    ((fun label => (to_be_bytes (Z.of_nat (String.length label)) ++ bytes_of label)%list)
       <$> merge_sort string_order labels))).

Definition jit_fingerprint (encoded_jit_config : string) : string :=
  hex_encode (sha256 (bytes_of encoded_jit_config)).

(** [i64::from_be_bytes(..) & i64::MAX]: masking the sign bit of the two's
    complement keeps the low 63 bits of the unsigned value. *)
Definition stable_i64 (value : string) : Z :=
  Z.max (Z.land (from_be_bytes (take 8 (sha256 (bytes_of value)))) i64_max) 0.

(** ** Messages *)

(** The fields of [ScaleSetJobMessage] the controller reads. *)
Record ScaleSetJobMessage := {
  runner_request_id : Z;
  repository_name : string;
  owner_name : string;
  job_id : string;
  workflow_run_id : Z;
  event_name : string;
  request_labels : list string;
}.

Definition resolve_job_request_id (base : ScaleSetJobMessage) : Z :=
  if negb (runner_request_id base =? 0) then runner_request_id base
  else if negb (String.eqb (job_id base) "") then
    let val := stable_i64 (job_id base) in
    if negb (val =? 0) then val else 1
  else if negb (workflow_run_id base =? 0) then workflow_run_id base
  else 1.

End Digests.

Record ScaleSetJobStarted := { started_runner_name : string; started_base : ScaleSetJobMessage }.
Record ScaleSetJobCompleted := {
  completed_result : string;
  completed_runner_name : string;
  completed_base : ScaleSetJobMessage;
}.

(** [RunnerScaleSetStatistic], of which the loop reads one count. *)
Record RunnerScaleSetStatistic := { total_assigned_jobs : Z }.

(** [u32::try_from(self.total_assigned_jobs.max(0)).unwrap_or(0)] of an [i32]. *)
Definition desired_runners (s : RunnerScaleSetStatistic) : Z :=
  match u32_try_from (Z.max (total_assigned_jobs s) 0) with Some n => n | None => 0 end.

Record RunnerScaleSetMessage := {
  message_id : Z;
  statistics : option RunnerScaleSetStatistic;
  job_available_messages : list ScaleSetJobMessage;
  job_assigned_messages : list ScaleSetJobMessage;
  job_started_messages : list ScaleSetJobStarted;
  job_completed_messages : list ScaleSetJobCompleted;
}.

(** [TaskResult::parse_wire]. *)
Inductive TaskResult := Succeeded | Failed | Canceled | Skipped | Abandoned.
#[export] Instance TaskResult_eq_dec : EqDecision TaskResult.
Proof. solve_decision. Defined.
Definition parse_wire (raw : string) : option TaskResult :=
  if String.eqb raw "succeeded" || String.eqb raw "Succeeded" then Some Succeeded
  else if String.eqb raw "failed" || String.eqb raw "Failed" then Some Failed
  else if String.eqb raw "canceled" || String.eqb raw "Canceled" then Some Canceled
  else if String.eqb raw "skipped" || String.eqb raw "Skipped" then Some Skipped
  else if String.eqb raw "abandoned" || String.eqb raw "Abandoned" then Some Abandoned
  else None.

(** ** Trust *)

(** UTF-8 encodings of the characters [str::trim] removes. *)
Definition WHITE_SPACE : list (list Z) :=
  [[9]; [10]; [11]; [12]; [13]; [32]; [194; 133]; [194; 160]; [225; 154; 128];
   [226; 128; 128]; [226; 128; 129]; [226; 128; 130]; [226; 128; 131]; [226; 128; 132];
   [226; 128; 133]; [226; 128; 134]; [226; 128; 135]; [226; 128; 136]; [226; 128; 137];
   [226; 128; 138]; [226; 128; 168]; [226; 128; 169]; [226; 128; 175]; [226; 129; 159];
   [227; 128; 128]].

Fixpoint drop_prefix (prefix s : list Z) : option (list Z) :=
  match prefix, s with
  | [], _ => Some s
  | a :: prefix, b :: s => if a =? b then drop_prefix prefix s else None
  | _ :: _, [] => None
  end.

Definition drop_first (spaces : list (list Z)) (s : list Z) : option (list Z) :=
  foldr (fun space rest => match drop_prefix space s with Some s' => Some s' | None => rest end)
    None spaces.

Fixpoint trim_front (fuel : nat) (spaces : list (list Z)) (s : list Z) : list Z :=
  match fuel with
  | O => s
  | S fuel => match drop_first spaces s with
              | Some s' => trim_front fuel spaces s'
              | None => s
              end
  end.

(** [str::trim]: every pass removes at least one byte. *)
Definition trim (s : list Z) : list Z :=
  let start := trim_front (length s) WHITE_SPACE s in
  reverse (trim_front (length start) (reverse <$> WHITE_SPACE) (reverse start)).

Definition to_lower (b : Z) : Z := if (65 <=? b) && (b <=? 90) then b + 32 else b.
Definition eq_ignore_ascii_case (a b : list Z) : bool :=
  bool_decide ((to_lower <$> a) = (to_lower <$> b)).

Definition is_ascii_alphanumeric (b : Z) : bool :=
  ((48 <=? b) && (b <=? 57)) || ((65 <=? b) && (b <=? 90)) || ((97 <=? b) && (b <=? 122)).

Inductive OfferTrust :=
| Trusted
| Unknown (reason : string).
#[export] Instance OfferTrust_eq_dec : EqDecision OfferTrust.
Proof. solve_decision. Defined.

Record OfferProbe := {
  probe_event_name : string;
  probe_owner_name : string;
  probe_repository_name : string;
}.

Definition PULL_REQUEST_PREFIX : list Z := bytes_of "pull_request".

Definition is_pull_request_event (event : list Z) : bool :=
  (length PULL_REQUEST_PREFIX <=? length event)%nat
  && eq_ignore_ascii_case (take (length PULL_REQUEST_PREFIX) event) PULL_REQUEST_PREFIX.

Definition is_workflow_run_event (event : list Z) : bool :=
  eq_ignore_ascii_case event (bytes_of "workflow_run").

Definition classify_probe (probe : OfferProbe) : OfferTrust :=
  let event := trim (bytes_of (probe_event_name probe)) in
  if bool_decide (event = []) || negb (forallb (fun b => is_ascii_alphanumeric b || (b =? 95)) event)
  then Unknown "event-unparseable"
  else if bool_decide (trim (bytes_of (probe_owner_name probe)) = [])
          || bool_decide (trim (bytes_of (probe_repository_name probe)) = [])
  then Unknown "repo-missing"
  else if is_pull_request_event event || is_workflow_run_event event
  then Unknown "trust-inputs-missing"
  else Trusted.

Definition probe_of (base : ScaleSetJobMessage) : OfferProbe := {|
  probe_event_name := event_name base;
  probe_owner_name := owner_name base;
  probe_repository_name := repository_name base;
|}.

Definition classify_offer (offer : ScaleSetJobMessage) : OfferTrust := classify_probe (probe_of offer).

(** ** The keys determine the work *)

Lemma permit_holder_parse s r :
  is_i32 s -> is_i64 r -> parse_permit_holder (permit_holder s r) = Ok (s, r).
Proof.
  intros S R. unfold parse_permit_holder, permit_holder.
  rewrite strip_prefix_app.
  change ("/" +:+ signed_to_string r) with (String "/" (signed_to_string r)).
  rewrite split_once_app by (by apply signed_to_string_no_sep).
  by rewrite !parse_signed_to_string by done.
Qed.

Lemma permit_holder_inj s r s' r' :
  permit_holder s r = permit_holder s' r' -> s = s' /\ r = r'.
Proof.
  unfold permit_holder. intros E%string_app_inj.
  change ("/" +:+ signed_to_string r) with (String "/" (signed_to_string r)) in E.
  change ("/" +:+ signed_to_string r') with (String "/" (signed_to_string r')) in E.
  apply (f_equal (split_once "/")) in E.
  rewrite !split_once_app in E by (by apply signed_to_string_no_sep).
  injection E as E1 E2. split; by apply signed_to_string_inj.
Qed.

Lemma runner_name_split s r :
  0 < s -> 0 < r ->
  split_at "-" (runner_name s r) = ["velnor"; signed_to_string s; signed_to_string r].
Proof.
  intros S R. unfold runner_name, signed_to_string.
  rewrite (proj2 (Z.ltb_ge s 0)), (proj2 (Z.ltb_ge r 0)) by lia.
  change ("velnor-" +:+ to_string s +:+ "-" +:+ to_string r)
    with ("velnor" +:+ String "-" (to_string s +:+ String "-" (to_string r))).
  rewrite (split_at_app "-" "velnor") by done.
  rewrite split_at_app by (by apply to_string_no_sep).
  by rewrite split_at_none by (by apply to_string_no_sep).
Qed.

Lemma parse_runner_name_iff name s r :
  parse_runner_name name = Some (s, r) <->
  0 < s <= i32_max /\ 0 < r <= i64_max /\ name = runner_name s r.
Proof.
  assert (M : forall v, 0 < v <= i32_max -> i32_min <= v) by (unfold i32_min, i32_max; lia).
  assert (M' : forall v, 0 < v <= i64_max -> i64_min <= v) by (unfold i64_min, i64_max; lia).
  split.
  - unfold parse_runner_name. destruct (split_at "-" name) as [|v [|a [|b [|]]]]; try done.
    destruct (String.eqb v "velnor"); [|done].
    destruct (parse_signed i32_min i32_max a) as [s'|] eqn:A; [|done].
    destruct (parse_signed i64_min i64_max b) as [r'|] eqn:B; [|done].
    destruct ((0 <? s') && (0 <? r') && _) eqn:C; [|done]. intros [= -> ->].
    rewrite !andb_true_iff, !Z.ltb_lt, String.eqb_eq in C. destruct C as ((C1 & C2) & <-).
    apply parse_signed_bound in A; [|done..]. apply parse_signed_bound in B; [|done..].
    split_and!; [lia..|done].
  - intros (S & R & ->). unfold parse_runner_name. rewrite runner_name_split by lia.
    rewrite String.eqb_refl, !parse_signed_to_string by (split; [auto|lia]).
    rewrite (proj2 (Z.ltb_lt 0 s)), (proj2 (Z.ltb_lt 0 r)), String.eqb_refl by lia. done.
Qed.
