(* ===== verification/ScaleData.v ===== *)
(** * Scale sets: the state database

    The vocabulary of [scaleset/demand.rs] and [scaleset/intents.rs]
    ([crates/velnor-runner/src]) and the tables of the state database they
    read and write ([crates/velnor-control/src/store/migrations.rs], versions
    21 to 28), with one definition per kind of SQL statement. A JSON column is
    the value it encodes; a state column keeps its text, since a row may hold
    a text that is no state. *)

From S2P Require Import Prelude Numerals LedgerData ScaleIds.
From Stdlib Require Import ZArith Lia String.
From stdpp Require Import base gmap list strings sorting.
#[local] Open Scope string_scope.
#[local] Open Scope Z_scope.

(** ** Demand states *)

Inductive OfferState :=
| DObserved | DEligible | DGranted | DAcquireIntent | DAcquired | DUncertain
| DCanceledPending | DCanceledAcquired | DCanceledDone | DProvisionIntent | DDeclined | DTerminal.
#[export] Instance OfferState_eq_dec : EqDecision OfferState.
Proof. solve_decision. Defined.

Definition OfferState_as_str (s : OfferState) : string :=
  match s with
  | DObserved => "observed"
  | DEligible => "eligible"
  | DGranted => "granted"
  | DAcquireIntent => "acquire_intent"
  | DAcquired => "acquired"
  | DUncertain => "uncertain"
  | DCanceledPending => "canceled_pending"
  | DCanceledAcquired => "canceled_acquired"
  | DCanceledDone => "canceled_done"
  | DProvisionIntent => "provision_intent"
  | DDeclined => "declined"
  | DTerminal => "terminal"
  end.

Definition OfferState_parse (raw : string) : result OfferState StoreFailure :=
  if String.eqb raw "observed" then Ok DObserved
  else if String.eqb raw "eligible" then Ok DEligible
  else if String.eqb raw "granted" then Ok DGranted
  else if String.eqb raw "acquire_intent" then Ok DAcquireIntent
  else if String.eqb raw "acquired" then Ok DAcquired
  else if String.eqb raw "uncertain" then Ok DUncertain
  else if String.eqb raw "canceled_pending" then Ok DCanceledPending
  else if String.eqb raw "canceled_acquired" then Ok DCanceledAcquired
  else if String.eqb raw "canceled_done" then Ok DCanceledDone
  else if String.eqb raw "provision_intent" then Ok DProvisionIntent
  else if String.eqb raw "declined" then Ok DDeclined
  else if String.eqb raw "terminal" then Ok DTerminal
  else Err (UnknownStateText raw).

Definition holds_permit (s : OfferState) : bool :=
  match s with
  | DGranted | DAcquireIntent | DAcquired | DUncertain
  | DCanceledPending | DCanceledAcquired | DProvisionIntent => true
  | _ => false
  end.

Definition permit_demand_state_name (s : DemandState) : string :=
  match s with
  | Eligible => "eligible"
  | Cancelled => "cancelled"
  | Terminal => "terminal"
  | Granted => "granted"
  | Waiting => "waiting"
  end.

Definition parse_permit_demand_state (raw : string) : result DemandState StoreFailure :=
  if String.eqb raw "eligible" then Ok Eligible
  else if String.eqb raw "cancelled" then Ok Cancelled
  else if String.eqb raw "terminal" then Ok Terminal
  else Err (Refused "staged permit release has invalid ledger demand state").

Inductive BatchState := Intended | Resolved | BatchUncertain.
#[export] Instance BatchState_eq_dec : EqDecision BatchState.
Proof. solve_decision. Defined.

Definition BatchState_as_str (s : BatchState) : string :=
  match s with Intended => "intended" | Resolved => "resolved" | BatchUncertain => "uncertain" end.

Definition BatchState_parse (raw : string) : result BatchState StoreFailure :=
  if String.eqb raw "intended" then Ok Intended
  else if String.eqb raw "resolved" then Ok Resolved
  else if String.eqb raw "uncertain" then Ok BatchUncertain
  else Err (Refused "acquire batch holds unknown state").

Inductive SubmitOutcome :=
| Inserted (sequence : Z)
| Redelivered (state : OfferState)
| ReofferedTerminal.

(** ** Rows *)

(** [scaleset_demand], by [request_id]. *)
Record OfferRow := {
  o_scale_set_id : Z;
  o_first_seen_at : string;
  o_sequence : Z;
  o_state : string;
  o_decline_reason : option string;
  o_repo_owner : string;
  o_repo_name : string;
  o_job_id : Z;
  o_labels_hash : string;
  o_generation : Z;
  o_updated_at : string;
  o_event_name : string;
  o_permit_attempt_token : option string;
}.

(** [Demand]: a row with its state read. *)
Record Demand := {
  dm_request_id : Z;
  dm_scale_set_id : Z;
  dm_first_seen_at : string;
  dm_sequence : Z;
  dm_state : OfferState;
  dm_decline_reason : option string;
  dm_repo_owner : string;
  dm_repo_name : string;
  dm_job_id_hash : Z;
  dm_generation : Z;
  dm_updated_at : string;
  dm_event_name : string;
  dm_permit_attempt_token : option string;
}.

Definition row_to_demand (request_id : Z) (o : OfferRow) : result Demand StoreFailure :=
  match OfferState_parse (o_state o) with
  | Err e => Err e
  | Ok state => Ok {|
      dm_request_id := request_id;
      dm_scale_set_id := o_scale_set_id o;
      dm_first_seen_at := o_first_seen_at o;
      dm_sequence := o_sequence o;
      dm_state := state;
      dm_decline_reason := o_decline_reason o;
      dm_repo_owner := o_repo_owner o;
      dm_repo_name := o_repo_name o;
      dm_job_id_hash := o_job_id o;
      dm_generation := u64_of_i64 (o_generation o);
      dm_updated_at := o_updated_at o;
      dm_event_name := o_event_name o;
      dm_permit_attempt_token := o_permit_attempt_token o;
    |}
  end.

(** [scaleset_acquire_batches], by [batch_id]. *)
Record BatchRow := {
  b_scale_set_id : Z;
  b_request_ids : list Z;
  b_holders : list string;
  b_state : string;
  b_uncertain : bool;
  b_generation : Z;
  b_created_at : string;
  b_updated_at : string;
  b_attempt_tokens : option (list (option string));
}.

Record AcquireBatch := {
  ab_batch_id : string;
  ab_scale_set_id : Z;
  ab_request_ids : list Z;
  ab_holders : list string;
  ab_attempt_tokens : option (list (option string));
  ab_state : BatchState;
  ab_uncertain : bool;
  ab_generation : Z;
  ab_created_at : string;
  ab_updated_at : string;
}.

Definition row_to_batch (batch_id : string) (b : BatchRow) : result AcquireBatch StoreFailure :=
  match BatchState_parse (b_state b) with
  | Err e => Err e
  | Ok state => Ok {|
      ab_batch_id := batch_id;
      ab_scale_set_id := b_scale_set_id b;
      ab_request_ids := b_request_ids b;
      ab_holders := b_holders b;
      ab_attempt_tokens := b_attempt_tokens b;
      ab_state := state;
      ab_uncertain := b_uncertain b;
      ab_generation := u64_of_i64 (b_generation b);
      ab_created_at := b_created_at b;
      ab_updated_at := b_updated_at b;
    |}
  end.

(** [scaleset_provision_intents], by [operation_id]. *)
Record ProvisionIntent := {
  pi_ownership_id : string;
  pi_scale_set_id : Z;
  pi_request_id : Z;
  pi_runner_name : string;
  pi_runner_digest : string;
  pi_dind_digest : string;
  pi_jit_fingerprint : string;
  pi_permit_attempt_token : option string;
  pi_generation : Z;
  pi_created_at : string;
  pi_updated_at : string;
}.

(** The columns of [scaleset_workers] that a release reads and writes. *)
Record WorkerRow := {
  wk_request_id : option Z;
  wk_worker_state : string;
  wk_generation : Z;
  wk_updated_at : string;
  wk_permit_attempt_token : option string;
}.

(** [scaleset_attempt_releases], [scaleset_attempt_release_batches] and
    [scaleset_attempt_acquires], by [holder]. *)
Record ReleaseRow := {
  rl_scale_set_id : Z;
  rl_request_id : Z;
  rl_attempt_token : string;
  rl_ledger_demand_state : string;
  rl_next_demand_state : option string;
  rl_worker_ownership_id : option string;
}.
#[export] Instance ReleaseRow_eq_dec : EqDecision ReleaseRow.
Proof. solve_decision. Defined.

Record ReleaseBatchRow := { rb_batch_id : string; rb_resolve_uncertain : bool }.

Record AcquireRow := {
  aq_scale_set_id : Z;
  aq_request_id : Z;
  aq_previous_attempt_token : option string;
  aq_target_attempt_token : string;
}.
#[export] Instance AcquireRow_eq_dec : EqDecision AcquireRow.
Proof. solve_decision. Defined.

Record StagedAttemptRelease := {
  sr_holder : string;
  sr_scale_set_id : Z;
  sr_request_id : Z;
  sr_attempt_token : string;
  sr_ledger_demand_state : DemandState;
  sr_next_demand_state : option OfferState;
  sr_worker_ownership_id : option string;
  sr_batch_id : option string;
  sr_batch_uncertain : bool;
}.

Record StagedAttemptAcquire := {
  sa_holder : string;
  sa_scale_set_id : Z;
  sa_request_id : Z;
  sa_previous_attempt_token : option string;
  sa_target_attempt_token : string;
}.

(** The state database. Of a staged rotation the modelled operations only see
    whether the holder has one. *)
Record StateDb := {
  offers : gmap Z OfferRow;
  batches : gmap string BatchRow;
  intents : gmap string ProvisionIntent;
  workers : gmap string WorkerRow;
  releases : gmap string ReleaseRow;
  release_batches : gmap string ReleaseBatchRow;
  acquires : gmap string AcquireRow;
  rotations : gset string;
}.

Definition empty_state : StateDb := {|
  offers := ∅; batches := ∅; intents := ∅; workers := ∅;
  releases := ∅; release_batches := ∅; acquires := ∅; rotations := ∅;
|}.

Definition with_offers v (db : StateDb) : StateDb := {|
  offers := v; batches := batches db; intents := intents db; workers := workers db;
  releases := releases db; release_batches := release_batches db;
  acquires := acquires db; rotations := rotations db |}.
Definition with_batches v (db : StateDb) : StateDb := {|
  offers := offers db; batches := v; intents := intents db; workers := workers db;
  releases := releases db; release_batches := release_batches db;
  acquires := acquires db; rotations := rotations db |}.
Definition with_intents v (db : StateDb) : StateDb := {|
  offers := offers db; batches := batches db; intents := v; workers := workers db;
  releases := releases db; release_batches := release_batches db;
  acquires := acquires db; rotations := rotations db |}.
Definition with_workers v (db : StateDb) : StateDb := {|
  offers := offers db; batches := batches db; intents := intents db; workers := v;
  releases := releases db; release_batches := release_batches db;
  acquires := acquires db; rotations := rotations db |}.
Definition with_releases v (db : StateDb) : StateDb := {|
  offers := offers db; batches := batches db; intents := intents db; workers := workers db;
  releases := v; release_batches := release_batches db;
  acquires := acquires db; rotations := rotations db |}.
Definition with_release_batches v (db : StateDb) : StateDb := {|
  offers := offers db; batches := batches db; intents := intents db; workers := workers db;
  releases := releases db; release_batches := v;
  acquires := acquires db; rotations := rotations db |}.
Definition with_acquires v (db : StateDb) : StateDb := {|
  offers := offers db; batches := batches db; intents := intents db; workers := workers db;
  releases := releases db; release_batches := release_batches db;
  acquires := v; rotations := rotations db |}.

(** Column updates of a row. *)
Definition offer_set_state (state : string) (reason : option string) (generation : Z) (now : string)
    (o : OfferRow) : OfferRow := {|
  o_scale_set_id := o_scale_set_id o;
  o_first_seen_at := o_first_seen_at o;
  o_sequence := o_sequence o;
  o_state := state;
  o_decline_reason := reason;
  o_repo_owner := o_repo_owner o;
  o_repo_name := o_repo_name o;
  o_job_id := o_job_id o;
  o_labels_hash := o_labels_hash o;
  o_generation := i64_clamp generation;
  o_updated_at := now;
  o_event_name := o_event_name o;
  o_permit_attempt_token := o_permit_attempt_token o;
|}.

Definition offer_set_token (token : string) (now : option string) (o : OfferRow) : OfferRow := {|
  o_scale_set_id := o_scale_set_id o;
  o_first_seen_at := o_first_seen_at o;
  o_sequence := o_sequence o;
  o_state := o_state o;
  o_decline_reason := o_decline_reason o;
  o_repo_owner := o_repo_owner o;
  o_repo_name := o_repo_name o;
  o_job_id := o_job_id o;
  o_labels_hash := o_labels_hash o;
  o_generation := o_generation o;
  o_updated_at := default (o_updated_at o) now;
  o_event_name := o_event_name o;
  o_permit_attempt_token := Some token;
|}.

Definition batch_set_state (state : BatchState) (uncertain : bool) (now : string) (b : BatchRow)
    : BatchRow := {|
  b_scale_set_id := b_scale_set_id b;
  b_request_ids := b_request_ids b;
  b_holders := b_holders b;
  b_state := BatchState_as_str state;
  b_uncertain := uncertain;
  b_generation := b_generation b;
  b_created_at := b_created_at b;
  b_updated_at := now;
  b_attempt_tokens := b_attempt_tokens b;
|}.

Definition batch_set_tokens (tokens : list (option string)) (b : BatchRow) : BatchRow := {|
  b_scale_set_id := b_scale_set_id b;
  b_request_ids := b_request_ids b;
  b_holders := b_holders b;
  b_state := b_state b;
  b_uncertain := b_uncertain b;
  b_generation := b_generation b;
  b_created_at := b_created_at b;
  b_updated_at := b_updated_at b;
  b_attempt_tokens := Some tokens;
|}.

Definition worker_set_released (generation : Z) (now : string) (w : WorkerRow) : WorkerRow := {|
  wk_request_id := wk_request_id w;
  wk_worker_state := "permit_released";
  wk_generation := i64_clamp generation;
  wk_updated_at := now;
  wk_permit_attempt_token := wk_permit_attempt_token w;
|}.

(** ** Statements *)

Abbreviation stx R A := (tx StateDb StoreFailure R A).

(** [anyhow::bail!]. *)
Abbreviation bail why := (throw (Refused why)).

Section Statements.
Context {R : Type}.

(** [.. FROM scaleset_demand WHERE scale_set_id = ? AND request_id = ?]. *)
Definition select_offer (scale_set_id request_id : Z) : stx R (option OfferRow) :=
  fun db => Go (match offers db !! request_id with
                | Some o => if decide (o_scale_set_id o = scale_set_id) then Some o else None
                | None => None
                end) db.

(** [UPDATE scaleset_demand SET .. WHERE request_id = ? AND cond]. *)
Definition update_offer (request_id : Z) (cond : OfferRow -> Prop) `{forall o, Decision (cond o)}
    (f : OfferRow -> OfferRow) : stx R Z :=
  fun db =>
    match offers db !! request_id with
    | Some o => if decide (cond o)
                then Go 1 (with_offers (<[request_id := f o]> (offers db)) db)
                else Go 0 db
    | None => Go 0 db
    end.

(** [SELECT COALESCE(MAX(sequence), 0) + 1 FROM scaleset_demand]; a sum that
    overflows is a [REAL], which is not an [i64]. *)
Definition max_offer_sequence (db : StateDb) : option Z :=
  map_fold (fun _ o acc =>
    Some (match acc with Some m => Z.max m (o_sequence o) | None => o_sequence o end))
    None (offers db).

Definition next_offer_sequence : stx R Z :=
  fun db =>
    let next := default 0 (max_offer_sequence db) + 1 in
    if decide (next <= i64_max) then Go next db else Throw SqlConstraint.

(** [INSERT OR IGNORE INTO scaleset_demand ..]: the number of rows written. *)
Definition insert_offer (request_id : Z) (o : OfferRow) : stx R Z :=
  fun db =>
    match offers db !! request_id with
    | Some _ => Go 0 db
    | None =>
        if decide (map_Exists (fun _ o' => o_sequence o' = o_sequence o) (offers db)) then Go 0 db
        else Go 1 (with_offers (<[request_id := o]> (offers db)) db)
    end.

(** [INSERT INTO scaleset_attempt_releases ..]: primary key, the unique pair,
    and the checks of the columns. *)
Definition insert_release (holder : string) (r : ReleaseRow) : stx R unit :=
  fun db =>
    if decide (is_Some (releases db !! holder)
       ∨ map_Exists (fun _ r' => rl_scale_set_id r' = rl_scale_set_id r
                                 ∧ rl_request_id r' = rl_request_id r) (releases db)
       ∨ rl_attempt_token r = "")
    then Throw SqlConstraint
    else Go tt (with_releases (<[holder := r]> (releases db)) db).

Definition delete_release (holder attempt_token : string) : stx R Z :=
  fun db =>
    match releases db !! holder with
    | Some r => if decide (rl_attempt_token r = attempt_token)
                then Go 1 (with_releases (delete holder (releases db)) db)
                else Go 0 db
    | None => Go 0 db
    end.

Definition insert_release_batch (holder : string) (r : ReleaseBatchRow) : stx R unit :=
  fun db =>
    match release_batches db !! holder with
    | Some _ => Throw SqlConstraint
    | None => Go tt (with_release_batches (<[holder := r]> (release_batches db)) db)
    end.

Definition delete_release_batch (holder batch_id : string) (uncertain : bool) : stx R Z :=
  fun db =>
    match release_batches db !! holder with
    | Some r => if decide (rb_batch_id r = batch_id ∧ rb_resolve_uncertain r = uncertain)
                then Go 1 (with_release_batches (delete holder (release_batches db)) db)
                else Go 0 db
    | None => Go 0 db
    end.

Definition insert_acquire (holder : string) (a : AcquireRow) : stx R unit :=
  fun db =>
    if decide (is_Some (acquires db !! holder)
       ∨ map_Exists (fun _ a' => aq_scale_set_id a' = aq_scale_set_id a
                                 ∧ aq_request_id a' = aq_request_id a) (acquires db)
       ∨ aq_target_attempt_token a = "")
    then Throw SqlConstraint
    else Go tt (with_acquires (<[holder := a]> (acquires db)) db).

Definition delete_acquire (holder target_attempt_token : string) : stx R Z :=
  fun db =>
    match acquires db !! holder with
    | Some a => if decide (aq_target_attempt_token a = target_attempt_token)
                then Go 1 (with_acquires (delete holder (acquires db)) db)
                else Go 0 db
    | None => Go 0 db
    end.

(** [UPDATE scaleset_acquire_batches SET state, uncertain, updated_at ..]. *)
Definition update_batch_state (batch_id : string) (state : BatchState) (uncertain : bool)
    (now : string) : stx R Z :=
  fun db =>
    match batches db !! batch_id with
    | Some b => Go 1 (with_batches (<[batch_id := batch_set_state state uncertain now b]> (batches db)) db)
    | None => Go 0 db
    end.

(** [UPDATE scaleset_workers SET worker_state = 'permit_released' ..]. *)
Definition update_worker_released (ownership_id : string) (request_id : Z) (attempt_token : string)
    (generation : Z) (now : string) : stx R Z :=
  fun db =>
    match workers db !! ownership_id with
    | Some w =>
        if decide (wk_request_id w = Some request_id ∧ wk_permit_attempt_token w = Some attempt_token
                   ∧ wk_worker_state w = "owned_cleanup")
        then Go 1 (with_workers (<[ownership_id := worker_set_released generation now w]> (workers db)) db)
        else Go 0 db
    | None => Go 0 db
    end.

End Statements.

(** [iter().position(|id| *id == request)]. *)
Fixpoint position (request : Z) (ids : list Z) : option nat :=
  match ids with
  | [] => None
  | id :: ids => if id =? request then Some O
                 else match position request ids with Some n => Some (S n) | None => None end
  end.

(** ** Ordered queries *)

(** [ORDER BY first_seen_at, sequence] over rows with their key. *)
Definition offer_le (a b : Z * OfferRow) : Prop :=
  let (fa, fb) := (o_first_seen_at a.2, o_first_seen_at b.2) in
  (fa ≠ fb ∧ string_order fa fb) ∨ (fa = fb ∧ o_sequence a.2 <= o_sequence b.2).
#[export] Instance offer_le_dec : RelDecision offer_le.
Proof. intros a b. unfold offer_le. apply _. Defined.

(** [ORDER BY request_id]. *)
Definition request_le (a b : Z * OfferRow) : Prop := a.1 <= b.1.
#[export] Instance request_le_dec : RelDecision request_le.
Proof. intros a b. unfold request_le. apply _. Defined.

(** [ORDER BY holder]. *)
Definition key_le {A} (a b : string * A) : Prop := string_order a.1 b.1.
#[export] Instance key_le_dec {A} : RelDecision (key_le (A := A)).
Proof. intros a b. unfold key_le. apply _. Defined.

(** [ORDER BY created_at, batch_id]. *)
Definition batch_le (a b : string * BatchRow) : Prop :=
  let (ca, cb) := (b_created_at a.2, b_created_at b.2) in
  (ca ≠ cb ∧ string_order ca cb) ∨ (ca = cb ∧ string_order a.1 b.1).
#[export] Instance batch_le_dec : RelDecision batch_le.
Proof. intros a b. unfold batch_le. apply _. Defined.
