(* ===== verification/ScaleStores.v ===== *)
(** * Scale sets: the stores

    [DemandStore], [AcquireBatchStore] and [ProvisionIntentStore] of
    [crates/velnor-runner/src/scaleset/demand.rs] and [intents.rs]: one
    definition per method. A method that opens an immediate transaction is
    that transaction; a method of one statement, or of one statement and
    reads, commits the same way. [now] is the RFC 3339 clock of the call. *)

From Stdlib Require Import ZArith Lia.
From stdpp Require Import base gmap sets list strings sorting.
From S2P Require Import Prelude Numerals LedgerData ScaleIds ScaleData.
#[local] Open Scope string_scope.
#[local] Open Scope Z_scope.
#[local] Open Scope tx_scope.

(** A read that parses its rows: [?] on the parser's error. *)
Definition parsed {R A} (x : result A StoreFailure) : stx R A :=
  match x with Ok a => tx_ret a | Err e => throw e end.

(** ** Staged releases *)

Definition verify_release_batch_member {R} (batch_id : string) (scale_set_id request_id : Z)
    (attempt_token : string) : stx R unit :=
  let* db := get in
  match (match batches db !! batch_id with
         | Some b => if decide (b_scale_set_id b = scale_set_id) then Some b else None
         | None => None
         end) with
  | None => bail "release batch is missing"
  | Some b =>
      match position request_id (b_request_ids b) with
      | None => bail "release request is not in batch"
      | Some index =>
          match b_attempt_tokens b with
          | None => bail "release batch has no attempt tokens"
          | Some tokens =>
              if decide (length tokens ≠ length (b_request_ids b)
                         ∨ tokens !! index ≠ Some (Some attempt_token))
              then bail "release request token differs from batch"
              else tx_ret tt
          end
      end
  end.

(** The shape an argument list must have before the transaction opens. *)
Definition valid_release (holder : string) (scale_set_id request_id : Z) (attempt_token : string)
    (ledger_demand_state : DemandState) (next_demand_state : option OfferState)
    (worker_ownership_id batch_id : option string) : Prop :=
  holder = permit_holder scale_set_id request_id
  ∧ attempt_token ≠ ""
  ∧ (ledger_demand_state = Eligible ∨ ledger_demand_state = Cancelled
     ∨ ledger_demand_state = Terminal)
  ∧ (next_demand_state = None ∨ next_demand_state = Some DEligible
     ∨ next_demand_state = Some DCanceledDone ∨ next_demand_state = Some DTerminal)
  ∧ worker_ownership_id ≠ Some ""
  ∧ (batch_id = None
     ∨ (ledger_demand_state = Eligible ∧ next_demand_state = Some DEligible
        ∧ worker_ownership_id = None)).
#[export] Instance valid_release_dec h s r t l n w b : Decision (valid_release h s r t l n w b).
Proof. unfold valid_release. apply _. Defined.

(** [SELECT EXISTS(SELECT 1 FROM .. WHERE holder = ?)]. *)
Definition staged_acquire (db : StateDb) (holder : string) : Prop := is_Some (acquires db !! holder).
Definition staged_rotation (db : StateDb) (holder : string) : Prop := holder ∈ rotations db.
Definition staged_release (db : StateDb) (holder : string) : Prop :=
  is_Some (releases db !! holder) ∨ is_Some (release_batches db !! holder).
#[export] Instance staged_acquire_dec db h : Decision (staged_acquire db h).
Proof. unfold staged_acquire. apply _. Defined.
#[export] Instance staged_rotation_dec db h : Decision (staged_rotation db h).
Proof. unfold staged_rotation. apply _. Defined.
#[export] Instance staged_release_dec db h : Decision (staged_release db h).
Proof. unfold staged_release. apply _. Defined.

(** The demand projection the release will move must still be this attempt's. *)
Definition check_demand_projection {R} (scale_set_id request_id : Z) (attempt_token : string)
    (next_demand_state : option OfferState) : stx R unit :=
  match next_demand_state with
  | None => tx_ret tt
  | Some _ =>
      let* recorded := select_offer scale_set_id request_id in
      if decide ((recorded ≫= o_permit_attempt_token) ≠ Some attempt_token)
      then bail "demand projection has another attempt token"
      else tx_ret tt
  end.

Definition cleanup_ready (state : string) : Prop := state = "owned_cleanup" ∨ state = "permit_released".
#[export] Instance cleanup_ready_dec s : Decision (cleanup_ready s).
Proof. unfold cleanup_ready. apply _. Defined.

(** [.. FROM scaleset_workers WHERE ownership_id = ? AND request_id = ?]. *)
Definition select_worker {R} (ownership_id : string) (request_id : Z) : stx R (option WorkerRow) :=
  fun db => Go (match workers db !! ownership_id with
                | Some w => if decide (wk_request_id w = Some request_id) then Some w else None
                | None => None
                end) db.

Definition check_worker_projection {R} (request_id : Z) (attempt_token : string)
    (worker_ownership_id : option string) : stx R unit :=
  match worker_ownership_id with
  | None => tx_ret tt
  | Some ownership_id =>
      let* recorded := select_worker ownership_id request_id in
      match recorded with
      | None => bail "worker projection is missing"
      | Some w =>
          if decide (wk_permit_attempt_token w ≠ Some attempt_token
                     ∨ ~ cleanup_ready (wk_worker_state w))
          then bail "worker projection is not cleanup-ready"
          else tx_ret tt
      end
  end.

(** The sidecar row that ties a release to its acquire batch. *)
Definition stage_release_batch {R} (holder : string) (batch_id : option string) : stx R unit :=
  let* db := get in
  match batch_id, release_batches db !! holder with
  | Some batch_id, Some recorded =>
      if decide (rb_batch_id recorded = batch_id ∧ rb_resolve_uncertain recorded = false)
      then tx_ret tt else bail "release batch stage changed"
  | Some batch_id, None =>
      insert_release_batch holder {| rb_batch_id := batch_id; rb_resolve_uncertain := false |}
  | None, None => tx_ret tt
  | None, Some _ => bail "release batch stage changed"
  end.

Definition stage_attempt_release_inner (holder : string) (scale_set_id request_id : Z)
    (attempt_token : string) (ledger_demand_state : DemandState)
    (next_demand_state : option OfferState) (worker_ownership_id batch_id : option string)
    : stx StagedAttemptRelease Empty_set :=
  if decide (~ valid_release holder scale_set_id request_id attempt_token ledger_demand_state
               next_demand_state worker_ownership_id batch_id)
  then bail "invalid staged Scale Set permit release"
  else
  let* db := get in
  when (staged_acquire db holder) (bail "fresh acquire is pending; release is fenced");;;
  when (staged_rotation db holder) (bail "recovery rotation is pending; release is fenced");;;
  check_demand_projection scale_set_id request_id attempt_token next_demand_state;;;
  check_worker_projection request_id attempt_token worker_ownership_id;;;
  match batch_id with
  | Some batch_id => verify_release_batch_member batch_id scale_set_id request_id attempt_token
  | None => tx_ret tt
  end;;;
  let row := {|
    rl_scale_set_id := scale_set_id;
    rl_request_id := request_id;
    rl_attempt_token := attempt_token;
    rl_ledger_demand_state := permit_demand_state_name ledger_demand_state;
    rl_next_demand_state := OfferState_as_str <$> next_demand_state;
    rl_worker_ownership_id := worker_ownership_id |} in
  match releases db !! holder with
  | Some existing =>
      when (existing ≠ row) (bail "staged release belongs to another attempt")
  | None => insert_release holder row
  end;;;
  stage_release_batch holder batch_id;;;
  commit {|
    sr_holder := holder;
    sr_scale_set_id := scale_set_id;
    sr_request_id := request_id;
    sr_attempt_token := attempt_token;
    sr_ledger_demand_state := ledger_demand_state;
    sr_next_demand_state := next_demand_state;
    sr_worker_ownership_id := worker_ownership_id;
    sr_batch_id := batch_id;
    sr_batch_uncertain := false |}.

Definition stage_attempt_release (holder : string) (scale_set_id request_id : Z)
    (attempt_token : string) (ledger_demand_state : DemandState)
    (next_demand_state : option OfferState) (worker_ownership_id : option string)
    : stx StagedAttemptRelease Empty_set :=
  stage_attempt_release_inner holder scale_set_id request_id attempt_token ledger_demand_state
    next_demand_state worker_ownership_id None.

Definition stage_attempt_release_for_batch (holder : string) (scale_set_id request_id : Z)
    (attempt_token : string) (ledger_demand_state : DemandState)
    (next_demand_state : option OfferState) (batch_id : string)
    : stx StagedAttemptRelease Empty_set :=
  if decide (batch_id = "") then bail "release batch id cannot be empty"
  else stage_attempt_release_inner holder scale_set_id request_id attempt_token
         ledger_demand_state next_demand_state None (Some batch_id).

(** One member of [stage_attempt_releases_for_batch]. *)
Definition stage_missing_member {R} (scale_set_id : Z) (batch_id : string) (request_id : Z)
    (attempt_token : string) : stx R StagedAttemptRelease :=
  let holder := permit_holder scale_set_id request_id in
  when (attempt_token = "") (bail "release token cannot be empty");;;
  let* db := get in
  when (staged_acquire db holder ∨ staged_rotation db holder)
    (bail "permit transition already has another stage");;;
  let* current := select_offer scale_set_id request_id in
  match current with
  | None => bail "missing request has no demand row"
  | Some o =>
      let* state := parsed (OfferState_parse (o_state o)) in
      when (state ≠ DAcquireIntent ∨ o_permit_attempt_token o ≠ Some attempt_token)
        (bail "missing request changed before release staging")
  end;;;
  verify_release_batch_member batch_id scale_set_id request_id attempt_token;;;
  match releases db !! holder with
  | Some existing =>
      when (~ (rl_attempt_token existing = attempt_token
               ∧ rl_next_demand_state existing = Some "eligible"
               ∧ rl_worker_ownership_id existing = None))
        (bail "release stage changed")
  | None =>
      insert_release holder {|
        rl_scale_set_id := scale_set_id;
        rl_request_id := request_id;
        rl_attempt_token := attempt_token;
        rl_ledger_demand_state := "eligible";
        rl_next_demand_state := Some "eligible";
        rl_worker_ownership_id := None |}
  end;;;
  stage_release_batch holder (Some batch_id);;;
  tx_ret {|
    sr_holder := holder;
    sr_scale_set_id := scale_set_id;
    sr_request_id := request_id;
    sr_attempt_token := attempt_token;
    sr_ledger_demand_state := Eligible;
    sr_next_demand_state := Some DEligible;
    sr_worker_ownership_id := None;
    sr_batch_id := Some batch_id;
    sr_batch_uncertain := false |}.

Fixpoint stage_missing_members {R} (scale_set_id : Z) (batch_id : string) (seen : gset Z)
    (missing : list (Z * string)) : stx R (list StagedAttemptRelease) :=
  match missing with
  | [] => tx_ret []
  | (request_id, attempt_token) :: missing =>
      when (request_id ∈ seen) (bail "duplicate missing request in release batch");;;
      let* stage := stage_missing_member scale_set_id batch_id request_id attempt_token in
      let* stages := stage_missing_members scale_set_id batch_id ({[request_id]} ∪ seen) missing in
      tx_ret (stage :: stages)
  end.

Definition stage_attempt_releases_for_batch (scale_set_id : Z) (batch_id : string)
    (missing : list (Z * string)) : stx (list StagedAttemptRelease) Empty_set :=
  if decide (batch_id = "") then bail "release batch id cannot be empty"
  else
  let* stages := stage_missing_members scale_set_id batch_id ∅ missing in
  commit stages.

(** A release row joined with its batch sidecar. *)
Definition parse_release (db : StateDb) (holder : string) (r : ReleaseRow)
    : result StagedAttemptRelease StoreFailure :=
  result_bind (parse_permit_demand_state (rl_ledger_demand_state r)) (fun ledger_state =>
  result_bind (match rl_next_demand_state r with
               | None => Ok None
               | Some value => result_bind (OfferState_parse value) (fun s => Ok (Some s))
               end) (fun state =>
  Ok {|
    sr_holder := holder;
    sr_scale_set_id := rl_scale_set_id r;
    sr_request_id := rl_request_id r;
    sr_attempt_token := rl_attempt_token r;
    sr_ledger_demand_state := ledger_state;
    sr_next_demand_state := state;
    sr_worker_ownership_id := rl_worker_ownership_id r;
    sr_batch_id := rb_batch_id <$> release_batches db !! holder;
    sr_batch_uncertain := match release_batches db !! holder with
                          | Some b => rb_resolve_uncertain b | None => false end |})).

Definition pending_attempt_releases (db : StateDb) : result (list StagedAttemptRelease) StoreFailure :=
  result_map (fun '(holder, r) => parse_release db holder r)
    (merge_sort key_le (map_to_list (releases db))).

(** Where a staged release may move its demand row. *)
Definition release_allowed (current next : OfferState) : bool :=
  match next with
  | DEligible => holds_permit current
  | DCanceledDone => bool_decide (current = DCanceledPending)
  | DTerminal => true
  | _ => false
  end.

Definition project_release_demand {R} (stage : StagedAttemptRelease) (generation : Z) (now : string)
    : stx R unit :=
  match sr_next_demand_state stage with
  | None => tx_ret tt
  | Some next =>
      let* current := select_offer (sr_scale_set_id stage) (sr_request_id stage) in
      match current with
      | None => bail "demand projection vanished"
      | Some o =>
          when (o_permit_attempt_token o ≠ Some (sr_attempt_token stage))
            (bail "demand projection changed attempt");;;
          let* current_state := parsed (OfferState_parse (o_state o)) in
          if decide (current_state = next) then tx_ret tt
          else
          when (release_allowed current_state next = false)
            (bail "demand projection cannot move to the staged state");;;
          let* changed :=
            update_offer (sr_request_id stage)
              (fun o' => o_scale_set_id o' = sr_scale_set_id stage
                         ∧ o_permit_attempt_token o' = Some (sr_attempt_token stage)
                         ∧ o_state o' = o_state o)
              (offer_set_state (OfferState_as_str next) None generation now) in
          when (changed ≠ 1) (bail "demand projection moved during release")
      end
  end.

Definition project_release_worker {R} (stage : StagedAttemptRelease) (generation : Z) (now : string)
    : stx R unit :=
  match sr_worker_ownership_id stage with
  | None => tx_ret tt
  | Some ownership_id =>
      let* current := select_worker ownership_id (sr_request_id stage) in
      match current with
      | None => bail "worker projection vanished"
      | Some w =>
          when (wk_permit_attempt_token w ≠ Some (sr_attempt_token stage)
                ∨ ~ cleanup_ready (wk_worker_state w))
            (bail "worker projection changed during release");;;
          if decide (wk_worker_state w = "permit_released") then tx_ret tt
          else
          let* changed :=
            update_worker_released ownership_id (sr_request_id stage) (sr_attempt_token stage)
              generation now in
          when (changed ≠ 1) (bail "worker projection moved during release")
      end
  end.

Definition batch_has_remaining_stages (db : StateDb) (batch_id : string) : Prop :=
  map_Exists (fun _ r => rb_batch_id r = batch_id) (release_batches db).
#[export] Instance batch_has_remaining_stages_dec db b : Decision (batch_has_remaining_stages db b).
Proof. unfold batch_has_remaining_stages. apply _. Defined.

Definition project_release_batch {R} (stage : StagedAttemptRelease) (now : string) : stx R unit :=
  match sr_batch_id stage with
  | None => tx_ret tt
  | Some batch_id =>
      verify_release_batch_member batch_id (sr_scale_set_id stage) (sr_request_id stage)
        (sr_attempt_token stage);;;
      let* removed := delete_release_batch (sr_holder stage) batch_id (sr_batch_uncertain stage) in
      when (removed ≠ 1) (bail "release batch stage moved");;;
      let* db := get in
      if decide (batch_has_remaining_stages db batch_id) then tx_ret tt
      else
      let* changed :=
        update_batch_state batch_id
          (if sr_batch_uncertain stage then BatchUncertain else Resolved)
          (sr_batch_uncertain stage) now in
      when (changed ≠ 1) (bail "release batch vanished during completion")
  end.

Definition finish_attempt_release (holder : string) (generation : Z) (now : string)
    : stx bool Empty_set :=
  let* db := get in
  match releases db !! holder with
  | None => commit false
  | Some r =>
      let* stage := parsed (parse_release db holder r) in
      project_release_demand stage generation now;;;
      project_release_worker stage generation now;;;
      project_release_batch stage now;;;
      let* removed := delete_release (sr_holder stage) (sr_attempt_token stage) in
      when (removed ≠ 1) (bail "staged permit release moved");;;
      commit true
  end.

(** ** Offers *)

Section Submit.
Context `{SHA : Sha256}.

(** [DemandStore::get]. *)
Definition get_demand (request_id : Z) (db : StateDb) : result (option Demand) StoreFailure :=
  match offers db !! request_id with
  | None => Ok None
  | Some o => result_bind (row_to_demand request_id o) (fun d => Ok (Some d))
  end.

Definition offer_row (scale_set_id : Z) (base : ScaleSetJobMessage) (sequence : Z)
    (state : OfferState) (reason : option string) (generation : Z) (now : string) : OfferRow := {|
  o_scale_set_id := scale_set_id;
  o_first_seen_at := now;
  o_sequence := sequence;
  o_state := OfferState_as_str state;
  o_decline_reason := reason;
  o_repo_owner := owner_name base;
  o_repo_name := repository_name base;
  o_job_id := stable_i64 (job_id base);
  o_labels_hash := labels_hash (request_labels base);
  o_generation := i64_clamp generation;
  o_updated_at := now;
  o_event_name := event_name base;
  o_permit_attempt_token := None;
|}.

Definition resubmitted (state : OfferState) : SubmitOutcome :=
  if decide (state = DTerminal) then ReofferedTerminal else Redelivered state.

(** [submit_offer]: the lookup, and when it finds no row the insert with the
    next sequence number. The lookup runs before the transaction opens; the
    adapter is the only writer of its set's offers, so both are one step. *)
Definition submit_offer (scale_set_id : Z) (offer : ScaleSetJobMessage) (generation : Z)
    (now : string) : stx SubmitOutcome Empty_set :=
  let request_id := resolve_job_request_id offer in
  let* db := get in
  let* existing := parsed (get_demand request_id db) in
  match existing with
  | Some existing => commit (resubmitted (dm_state existing))
  | None =>
      let '(initial, reason) :=
        match classify_offer offer with
        | Trusted => (DEligible, None)
        | Unknown reason => (DObserved, Some reason)
        end in
      let* sequence := next_offer_sequence in
      let* inserted :=
        insert_offer request_id
          (offer_row scale_set_id offer sequence initial reason generation now) in
      if decide (inserted = 0) then
        let* db := get in
        let* row := parsed (get_demand request_id db) in
        commit (resubmitted (match row with Some row => dm_state row | None => DObserved end))
      else commit (Inserted sequence)
  end.

Definition submit_assigned (scale_set_id : Z) (assigned : ScaleSetJobMessage) (generation : Z)
    (now : string) : stx (Z * OfferState) Empty_set :=
  let request_id := resolve_job_request_id assigned in
  let* db := get in
  let* existing := parsed (get_demand request_id db) in
  match existing with
  | Some existing => commit (request_id, dm_state existing)
  | None =>
      let* sequence := next_offer_sequence in
      insert_offer request_id
        (offer_row scale_set_id assigned sequence DAcquired None generation now);;;
      commit (request_id, DAcquired)
  end.

End Submit.

(** ** Owner tokens *)

Definition set_permit_attempt_token (request_id : Z) (expected_previous : option string)
    (attempt_token : string) : stx unit Empty_set :=
  if decide (attempt_token = "") then bail "permit attempt token cannot be empty"
  else
  let* updated :=
    update_offer request_id (fun o => o_permit_attempt_token o = expected_previous)
      (offer_set_token attempt_token None) in
  if decide (updated = 1) then commit tt
  else
  let* db := get in
  let* row := parsed (get_demand request_id db) in
  match row with
  | Some row => if decide (dm_permit_attempt_token row = Some attempt_token) then commit tt
                else bail "permit attempt token changed before the owner token was persisted"
  | None => bail "permit attempt token changed before the owner token was persisted"
  end.

(** ** Staged acquisitions *)

Definition stage_attempt_acquire (holder : string) (scale_set_id request_id : Z)
    (previous_attempt_token : option string) (target_attempt_token : string)
    : stx StagedAttemptAcquire Empty_set :=
  if decide (holder ≠ permit_holder scale_set_id request_id ∨ target_attempt_token = ""
             ∨ previous_attempt_token = Some target_attempt_token)
  then bail "invalid staged Scale Set acquire"
  else
  let* db := get in
  when (staged_release db holder) (bail "Scale Set release is pending; acquire is fenced");;;
  when (staged_rotation db holder) (bail "recovery rotation is pending; acquire is fenced");;;
  let* current := select_offer scale_set_id request_id in
  match current with
  | None => bail "acquire demand is missing"
  | Some o =>
      let* state := parsed (OfferState_parse (o_state o)) in
      when (state ≠ DGranted ∨ o_permit_attempt_token o ≠ previous_attempt_token)
        (bail "acquire projection changed before claim")
  end;;;
  let row := {|
    aq_scale_set_id := scale_set_id;
    aq_request_id := request_id;
    aq_previous_attempt_token := previous_attempt_token;
    aq_target_attempt_token := target_attempt_token |} in
  match acquires db !! holder with
  | Some existing => when (existing ≠ row) (bail "staged acquire belongs to another attempt")
  | None => insert_acquire holder row
  end;;;
  commit {|
    sa_holder := holder;
    sa_scale_set_id := scale_set_id;
    sa_request_id := request_id;
    sa_previous_attempt_token := previous_attempt_token;
    sa_target_attempt_token := target_attempt_token |}.

Definition pending_attempt_acquires (db : StateDb) : list StagedAttemptAcquire :=
  (fun '(holder, a) => {|
     sa_holder := holder;
     sa_scale_set_id := aq_scale_set_id a;
     sa_request_id := aq_request_id a;
     sa_previous_attempt_token := aq_previous_attempt_token a;
     sa_target_attempt_token := aq_target_attempt_token a |})
  <$> merge_sort key_le (map_to_list (acquires db)).

(** The batches of a set in the order the scan meets them. The query has no
    [ORDER BY]; the index on [(scale_set_id, state)] answers it, so the rows
    come by state, and the rows of one state in an order left to the map. *)
Definition by_state (a b : string * BatchRow) : Prop := string_order (b_state a.2) (b_state b.2).
#[export] Instance by_state_dec : RelDecision by_state.
Proof. intros a b. unfold by_state. apply _. Defined.
Definition batches_of_set (scale_set_id : Z) (db : StateDb) : list (string * BatchRow) :=
  merge_sort by_state (filter (fun kb => b_scale_set_id kb.2 = scale_set_id) (map_to_list (batches db))).

Lemma batches_of_set_elem set db kb :
  kb ∈ batches_of_set set db <-> batches db !! kb.1 = Some kb.2 ∧ b_scale_set_id kb.2 = set.
Proof.
  unfold batches_of_set. rewrite merge_sort_Permutation, list_elem_of_filter. destruct kb.
  rewrite elem_of_map_to_list. naive_solver.
Qed.

Fixpoint scan_batches (rows : list (string * BatchRow)) (request_id : Z) (attempt_token : string)
    : result bool StoreFailure :=
  match rows with
  | [] => Ok false
  | (_, b) :: rows =>
      match position request_id (b_request_ids b) with
      | None => scan_batches rows request_id attempt_token
      | Some index =>
          match b_attempt_tokens b with
          | None => Err (Refused "acquire batch has no attempt tokens")
          | Some tokens =>
              if decide (length tokens ≠ length (b_request_ids b))
              then Err (Refused "acquire batch tokens are misaligned with requests")
              else if decide (tokens !! index ≠ Some (Some attempt_token))
              then Err (Refused "acquire batch request belongs to another attempt")
              else Ok true
          end
      end
  end.

Definition acquire_batch_contains_attempt (scale_set_id request_id : Z) (attempt_token : string)
    (db : StateDb) : result bool StoreFailure :=
  scan_batches (batches_of_set scale_set_id db) request_id attempt_token.

Definition has_acquire_batch_attempt := acquire_batch_contains_attempt.

(** The stage a caller holds must still be the recorded one. *)
Definition recorded_stage (db : StateDb) (stage : StagedAttemptAcquire) : Prop :=
  (fun a => (aq_previous_attempt_token a, aq_target_attempt_token a)) <$> acquires db !! sa_holder stage
  = Some (sa_previous_attempt_token stage, sa_target_attempt_token stage).
#[export] Instance recorded_stage_dec db stage : Decision (recorded_stage db stage).
Proof. unfold recorded_stage. apply _. Defined.

(** [UPDATE scaleset_demand SET permit_attempt_token = target ..
    WHERE .. state = 'granted' AND permit_attempt_token IS previous]. *)
Definition project_acquire_token {R} (stage : StagedAttemptAcquire) (now : string) : stx R Z :=
  update_offer (sa_request_id stage)
    (fun o => o_scale_set_id o = sa_scale_set_id stage ∧ o_state o = "granted"
              ∧ o_permit_attempt_token o = sa_previous_attempt_token stage)
    (offer_set_token (sa_target_attempt_token stage) (Some now)).

Definition remove_acquire_stage {R} (stage : StagedAttemptAcquire) : stx R unit :=
  let* removed := delete_acquire (sa_holder stage) (sa_target_attempt_token stage) in
  when (removed ≠ 1) (bail "staged acquire moved during completion").

Definition finish_attempt_acquire (stage : StagedAttemptAcquire) (acquired : bool) (now : string)
    : stx bool Empty_set :=
  let* db := get in
  when (~ recorded_stage db stage) (bail "staged acquire changed before completion");;;
  let* current := select_offer (sa_scale_set_id stage) (sa_request_id stage) in
  match current with
  | None => bail "acquire demand vanished"
  | Some o =>
      let* state := parsed (OfferState_parse (o_state o)) in
      when (state ≠ DGranted) (bail "acquire demand changed state during recovery");;;
      if acquired then
        if decide (o_permit_attempt_token o = Some (sa_target_attempt_token stage)) then tx_ret tt
        else if decide (o_permit_attempt_token o = sa_previous_attempt_token stage) then
          let* changed := project_acquire_token stage now in
          when (changed ≠ 1) (bail "acquire demand changed during token projection")
        else bail "acquire demand belongs to another attempt"
      else
        when (o_permit_attempt_token o ≠ sa_previous_attempt_token stage)
          (bail "absent acquire changed its previous token")
  end;;;
  if acquired then commit true
  else
  let* exists_ := parsed (acquire_batch_contains_attempt (sa_scale_set_id stage)
                            (sa_request_id stage) (sa_target_attempt_token stage) db) in
  when (exists_ = true) (bail "batch for staged acquire already exists");;;
  remove_acquire_stage stage;;;
  commit true.

Definition finish_attempt_acquire_batch (stage : StagedAttemptAcquire) : stx bool Empty_set :=
  let* current := select_offer (sa_scale_set_id stage) (sa_request_id stage) in
  when ((match current with
         | Some o => if decide (o_state o = "granted") then o_permit_attempt_token o else None
         | None => None
         end) ≠ Some (sa_target_attempt_token stage))
    (bail "acquire batch projection has another token");;;
  let* db := get in
  let* durable := parsed (acquire_batch_contains_attempt (sa_scale_set_id stage)
                            (sa_request_id stage) (sa_target_attempt_token stage) db) in
  when (durable = false) (bail "acquire batch is not durable");;;
  remove_acquire_stage stage;;;
  commit true.

Definition finish_staged_acquire_as_release (stage : StagedAttemptAcquire) (now : string)
    : stx StagedAttemptRelease Empty_set :=
  let* db := get in
  when (~ recorded_stage db stage) (bail "staged acquire changed before rollback");;;
  let* durable := parsed (acquire_batch_contains_attempt (sa_scale_set_id stage)
                            (sa_request_id stage) (sa_target_attempt_token stage) db) in
  when (durable = true) (bail "acquire has a durable batch; cannot roll back");;;
  let* current := select_offer (sa_scale_set_id stage) (sa_request_id stage) in
  match current with
  | None => bail "acquire demand vanished"
  | Some o =>
      let* state := parsed (OfferState_parse (o_state o)) in
      when (state ≠ DGranted
            ∨ (o_permit_attempt_token o ≠ sa_previous_attempt_token stage
               ∧ o_permit_attempt_token o ≠ Some (sa_target_attempt_token stage)))
        (bail "acquire demand changed before rollback");;;
      if decide (o_permit_attempt_token o = Some (sa_target_attempt_token stage)) then tx_ret tt
      else
      let* changed := project_acquire_token stage now in
      when (changed ≠ 1) (bail "acquire demand changed during rollback")
  end;;;
  insert_release (sa_holder stage) {|
    rl_scale_set_id := sa_scale_set_id stage;
    rl_request_id := sa_request_id stage;
    rl_attempt_token := sa_target_attempt_token stage;
    rl_ledger_demand_state := "eligible";
    rl_next_demand_state := Some "eligible";
    rl_worker_ownership_id := None |};;;
  remove_acquire_stage stage;;;
  commit {|
    sr_holder := sa_holder stage;
    sr_scale_set_id := sa_scale_set_id stage;
    sr_request_id := sa_request_id stage;
    sr_attempt_token := sa_target_attempt_token stage;
    sr_ledger_demand_state := Eligible;
    sr_next_demand_state := Some DEligible;
    sr_worker_ownership_id := None;
    sr_batch_id := None;
    sr_batch_uncertain := false |}.

(** ** Queue reads and state changes *)

Definition oldest_in_state (state : string) (scale_set_id : Z) (limit : nat) (db : StateDb)
    : result (list Demand) StoreFailure :=
  result_map (fun '(request_id, o) => row_to_demand request_id o)
    (take limit (merge_sort offer_le
       (filter (fun ko : Z * OfferRow => o_scale_set_id ko.2 = scale_set_id ∧ o_state ko.2 = state)
          (map_to_list (offers db))))).

Definition oldest_offers_eligible := oldest_in_state "eligible".
Definition oldest_granted := oldest_in_state "granted".

Definition set_state (request_id : Z) (state : OfferState) (decline_reason : option string)
    (generation : Z) (now : string) : stx unit Empty_set :=
  let* updated :=
    update_offer request_id (fun o => o_permit_attempt_token o = None)
      (offer_set_state (OfferState_as_str state) decline_reason generation now) in
  if decide (updated = 0) then
    let* db := get in
    let* row := parsed (get_demand request_id db) in
    match row with
    | Some _ => bail "demand has a permit attempt token; state mutation requires the owner token"
    | None => bail "demand holds no row for request"
    end
  else commit tt.

Definition set_state_owned (request_id : Z) (state : OfferState) (decline_reason : option string)
    (generation : Z) (attempt_token : string) (now : string) : stx unit Empty_set :=
  if decide (attempt_token = "") then bail "demand permit attempt token cannot be empty"
  else
  let* updated :=
    update_offer request_id (fun o => o_permit_attempt_token o = Some attempt_token)
      (offer_set_state (OfferState_as_str state) decline_reason generation now) in
  if decide (updated ≠ 1) then bail "demand is missing or belongs to a different permit attempt"
  else commit tt.

(** The rows [reset_stale_grants] voids. *)
Definition stale_grants (scale_set_id generation : Z) (db : StateDb) : list (Z * option string) :=
  (fun ko : Z * OfferRow => (ko.1, o_permit_attempt_token ko.2))
  <$> filter (fun ko : Z * OfferRow => o_scale_set_id ko.2 = scale_set_id
        ∧ o_generation ko.2 ≠ i64_clamp generation
        ∧ (o_state ko.2 = "granted" ∨ o_state ko.2 = "acquire_intent")) (map_to_list (offers db)).

Definition in_states (states : list OfferState) (raw : string) : Prop :=
  raw ∈ (OfferState_as_str <$> states).
#[export] Instance in_states_dec states raw : Decision (in_states states raw).
Proof. unfold in_states. apply _. Defined.

Definition count_in_states (scale_set_id : Z) (states : list OfferState) (db : StateDb) : Z :=
  if decide (states = []) then 0
  else Z.of_nat (size (filter (fun ko : Z * OfferRow =>
         o_scale_set_id ko.2 = scale_set_id ∧ in_states states (o_state ko.2)) (offers db))).

Definition list_in_states (scale_set_id : Z) (states : list OfferState) (db : StateDb)
    : result (list (Z * OfferState)) StoreFailure :=
  if decide (states = []) then Ok []
  else result_map (fun '(request_id, o) =>
         result_bind (OfferState_parse (o_state o)) (fun s => Ok (request_id, s)))
       (merge_sort request_le
          (filter (fun ko : Z * OfferRow =>
             o_scale_set_id ko.2 = scale_set_id ∧ in_states states (o_state ko.2))
             (map_to_list (offers db)))).

(** ** Acquire batches *)

Definition reconcile_returned_ids (requested returned : list Z) : list Z * list Z :=
  foldl (fun '(acquired, missing) request =>
           if decide (request ∈ returned) then ((acquired ++ [request])%list, missing)
           else (acquired, (missing ++ [request])%list)) ([], []) requested.

Definition get_batch (batch_id : string) (db : StateDb) : result (option AcquireBatch) StoreFailure :=
  match batches db !! batch_id with
  | None => Ok None
  | Some b => result_bind (row_to_batch batch_id b) (fun b => Ok (Some b))
  end.

Definition record_intended (batch_id : string) (scale_set_id : Z) (request_ids : list Z)
    (holders attempt_tokens : list string) (generation : Z) (now : string)
    : stx AcquireBatch Empty_set :=
  if decide (length request_ids ≠ length holders ∨ length request_ids ≠ length attempt_tokens)
  then bail "acquire batch requests, holders, and attempt tokens must align"
  else if decide ("" ∈ attempt_tokens) then bail "acquire batch attempt tokens cannot be empty"
  else
  let expected_tokens := Some <$> attempt_tokens in
  let* db := get in
  when (batches db !! batch_id = None)
    (modify (with_batches (<[batch_id := {|
       b_scale_set_id := scale_set_id;
       b_request_ids := request_ids;
       b_holders := holders;
       b_state := "intended";
       b_uncertain := false;
       b_generation := i64_clamp generation;
       b_created_at := now;
       b_updated_at := now;
       b_attempt_tokens := Some expected_tokens |}]> (batches db))));;;
  let* db := get in
  let* batch := parsed (get_batch batch_id db) in
  match batch with
  | None => bail "acquire intent vanished after insert"
  | Some batch =>
      if decide (ab_attempt_tokens batch ≠ Some expected_tokens)
      then bail "acquire intent belongs to a different permit attempt"
      else commit batch
  end.

Definition resolve_batch (batch_id : string) (uncertain : bool) (now : string) : stx unit Empty_set :=
  let* updated :=
    update_batch_state batch_id (if uncertain then BatchUncertain else Resolved) uncertain now in
  if decide (updated = 0) then bail "acquire batch does not exist" else commit tt.

Definition batch_is_open (b : BatchRow) : Prop := b_state b = "intended" ∨ b_state b = "uncertain".
#[export] Instance batch_is_open_dec b : Decision (batch_is_open b).
Proof. unfold batch_is_open. apply _. Defined.

(** One open batch of [AcquireBatchStore::rotate_attempt_token]. *)
Definition rotate_batch_tokens (request_id : Z) (old_token new_token : string) (b : BatchRow)
    : result (option (list (option string))) StoreFailure :=
  match position request_id (b_request_ids b) with
  | None => Ok None
  | Some index =>
      match b_attempt_tokens b with
      | None => Err (Refused "acquire batch has no attempt token; refusing ownership rotation")
      | Some tokens =>
          if decide (length tokens ≠ length (b_request_ids b))
          then Err (Refused "acquire batch has misaligned attempt tokens")
          else match tokens !! index with
               | Some (Some token) =>
                   if String.eqb token old_token then Ok (Some (<[index := Some new_token]> tokens))
                   else if String.eqb token new_token then Ok None
                   else Err (Refused "acquire batch token moved")
               | _ => Err (Refused "acquire batch has no owner token")
               end
      end
  end.

Fixpoint rotate_open_batches (rows : list (string * BatchRow)) (request_id : Z)
    (old_token new_token : string) (acc : gmap string BatchRow)
    : result (gmap string BatchRow) StoreFailure :=
  match rows with
  | [] => Ok acc
  | (batch_id, b) :: rows =>
      match rotate_batch_tokens request_id old_token new_token b with
      | Err e => Err e
      | Ok None => rotate_open_batches rows request_id old_token new_token acc
      | Ok (Some tokens) =>
          rotate_open_batches rows request_id old_token new_token
            (<[batch_id := batch_set_tokens tokens b]> acc)
      end
  end.

Definition rotate_batch_attempt_token (scale_set_id request_id : Z) (old_token new_token : string)
    : stx unit Empty_set :=
  if decide (old_token = "" ∨ new_token = "" ∨ old_token = new_token)
  then bail "attempt token rotation requires distinct non-empty tokens"
  else
  let* db := get in
  let* rotated := parsed (rotate_open_batches
    (filter (fun kb => batch_is_open kb.2) (batches_of_set scale_set_id db))
    request_id old_token new_token (batches db)) in
  modify (with_batches rotated);;;
  commit tt.

Definition open_batches (scale_set_id : Z) (limit : nat) (db : StateDb)
    : result (list AcquireBatch) StoreFailure :=
  result_map (fun '(batch_id, b) => row_to_batch batch_id b)
    (take limit (merge_sort batch_le
       (filter (fun kb => batch_is_open kb.2) (batches_of_set scale_set_id db)))).

Definition contains_request (scale_set_id request_id : Z) (db : StateDb) : bool :=
  existsb (fun kb => bool_decide (request_id ∈ b_request_ids kb.2)) (batches_of_set scale_set_id db).

(** ** Provision intents *)

Definition get_intent (operation_id : string) (db : StateDb) : option ProvisionIntent :=
  (fun p => {|
     pi_ownership_id := pi_ownership_id p;
     pi_scale_set_id := pi_scale_set_id p;
     pi_request_id := pi_request_id p;
     pi_runner_name := pi_runner_name p;
     pi_runner_digest := pi_runner_digest p;
     pi_dind_digest := pi_dind_digest p;
     pi_jit_fingerprint := pi_jit_fingerprint p;
     pi_permit_attempt_token := pi_permit_attempt_token p;
     pi_generation := u64_of_i64 (pi_generation p);
     pi_created_at := pi_created_at p;
     pi_updated_at := pi_updated_at p |}) <$> intents db !! operation_id.

Definition record_intent (operation_id ownership_id : string) (scale_set_id request_id : Z)
    (name runner_digest dind_digest attempt_token : string) (generation : Z) (now : string)
    : stx ProvisionIntent Empty_set :=
  if decide (attempt_token = "") then bail "provision intent attempt token cannot be empty"
  else
  let* db := get in
  when (~ (is_Some (intents db !! operation_id)
           ∨ map_Exists (fun _ p => pi_ownership_id p = ownership_id
                                    ∨ pi_runner_name p = name) (intents db)))
    (modify (with_intents (<[operation_id := {|
       pi_ownership_id := ownership_id;
       pi_scale_set_id := scale_set_id;
       pi_request_id := request_id;
       pi_runner_name := name;
       pi_runner_digest := runner_digest;
       pi_dind_digest := dind_digest;
       pi_jit_fingerprint := "";
       pi_permit_attempt_token := Some attempt_token;
       pi_generation := i64_clamp generation;
       pi_created_at := now;
       pi_updated_at := now |}]> (intents db))));;;
  let* db := get in
  match get_intent operation_id db with
  | None => bail "provision intent vanished after insert"
  | Some intent =>
      if decide (pi_permit_attempt_token intent ≠ Some attempt_token)
      then bail "provision intent belongs to another permit attempt"
      else commit intent
  end.

Definition record_jit_fingerprint (operation_id fingerprint : string) (now : string)
    : stx unit Empty_set :=
  let* db := get in
  match intents db !! operation_id with
  | None => bail "provision intent does not exist"
  | Some p =>
      modify (with_intents (<[operation_id := {|
        pi_ownership_id := pi_ownership_id p;
        pi_scale_set_id := pi_scale_set_id p;
        pi_request_id := pi_request_id p;
        pi_runner_name := pi_runner_name p;
        pi_runner_digest := pi_runner_digest p;
        pi_dind_digest := pi_dind_digest p;
        pi_jit_fingerprint := fingerprint;
        pi_permit_attempt_token := pi_permit_attempt_token p;
        pi_generation := pi_generation p;
        pi_created_at := pi_created_at p;
        pi_updated_at := now |}]> (intents db)));;;
      commit tt
  end.

(** [ORDER BY created_at], and [ORDER BY created_at, operation_id]. *)
Definition intent_created_le (a b : string * ProvisionIntent) : Prop :=
  string_order (pi_created_at a.2) (pi_created_at b.2).
#[export] Instance intent_created_le_dec : RelDecision intent_created_le.
Proof. intros a b. unfold intent_created_le. apply _. Defined.
Definition intent_le (a b : string * ProvisionIntent) : Prop :=
  let (ca, cb) := (pi_created_at a.2, pi_created_at b.2) in
  (ca ≠ cb ∧ string_order ca cb) ∨ (ca = cb ∧ string_order a.1 b.1).
#[export] Instance intent_le_dec : RelDecision intent_le.
Proof. intros a b. unfold intent_le. apply _. Defined.

Definition intents_of_request (scale_set_id request_id : Z) (db : StateDb)
    : list (string * ProvisionIntent) :=
  filter (fun kp : string * ProvisionIntent => pi_scale_set_id kp.2 = scale_set_id
                     ∧ pi_request_id kp.2 = request_id) (map_to_list (intents db)).

(** [ProvisionIntentStore::get_by_request]: the newest row; rows of one
    instant are in no order. *)
Definition get_by_request (scale_set_id request_id : Z) (db : StateDb) : option ProvisionIntent :=
  match last (merge_sort intent_created_le (intents_of_request scale_set_id request_id db)) with
  | Some (operation_id, _) => get_intent operation_id db
  | None => None
  end.

Definition list_for_set (scale_set_id : Z) (db : StateDb) : list (string * ProvisionIntent) :=
  merge_sort intent_created_le
    (filter (fun kp : string * ProvisionIntent => pi_scale_set_id kp.2 = scale_set_id)
       (map_to_list (intents db))).

Definition intent_set_token (token : string) (p : ProvisionIntent) : ProvisionIntent := {|
  pi_ownership_id := pi_ownership_id p;
  pi_scale_set_id := pi_scale_set_id p;
  pi_request_id := pi_request_id p;
  pi_runner_name := pi_runner_name p;
  pi_runner_digest := pi_runner_digest p;
  pi_dind_digest := pi_dind_digest p;
  pi_jit_fingerprint := pi_jit_fingerprint p;
  pi_permit_attempt_token := Some token;
  pi_generation := pi_generation p;
  pi_created_at := pi_created_at p;
  pi_updated_at := pi_updated_at p |}.

Definition rotate_intent_attempt_token (scale_set_id request_id : Z) (old_token new_token : string)
    : stx unit Empty_set :=
  if decide (old_token = "" ∨ new_token = "" ∨ old_token = new_token)
  then bail "attempt token rotation requires distinct non-empty tokens"
  else
  let* db := get in
  match last (merge_sort intent_le (intents_of_request scale_set_id request_id db)) with
  | None => commit tt
  | Some (operation_id, latest) =>
      if decide (pi_permit_attempt_token latest = Some new_token) then commit tt
      else if decide (pi_permit_attempt_token latest = Some old_token) then
        modify (with_intents (<[operation_id := intent_set_token new_token latest]> (intents db)));;;
        commit tt
      else bail "provision intent token moved"
  end.
