(* ===== verification/ScaleProg.v ===== *)
(** * Scale sets: programs over two databases

    The controller writes two SQLite files that no transaction spans: the host
    permit ledger and its own state database. Its methods are programs whose
    atomic steps are single transactions; between two steps the process may
    stop for good, and other processes may change the ledger. This file holds
    the program monad, its step relation, and the rule with which a property
    of every visited pair of databases is proved. *)

From Stdlib Require Import ZArith Lia.
From stdpp Require Import base gmap sets list strings.
From S2P Require Import Prelude LedgerData ScaleIds ScaleData.
#[local] Open Scope Z_scope.

(** [ScaleError] of [scaleset/scale.rs]; an [anyhow] error keeps its message. *)
Inductive ScaleError :=
| EStore (e : StoreFailure)
| ELedger (why : string)
| ELane (why : string)
| EMissingInitialStats
| EOfferWithoutRow (request_id : Z).

(** The two databases, and what the worker lane keeps. *)
Record world (L W : Type) := World { w_ledger : L; w_state : StateDb; w_lane : W }.
Arguments World {L W}.
Arguments w_ledger {L W}.
Arguments w_state {L W}.
Arguments w_lane {L W}.

(** A program: a transaction on either database, a call of the worker lane, a
    request to the job queue (whose answer may be a transport failure), a
    fresh UUID, a minted batch identifier. The clock and the process of a
    transaction are inputs of it. *)
Inductive prog (L W LErr A : Type) : Type :=
| Ret (a : A)
| Failed_ (e : ScaleError)
| OnState (R : Type) (f : string -> StateDb -> StateDb * result R StoreFailure)
    (k : result R StoreFailure -> prog L W LErr A)
| OnLedger (R : Type) (f : Env -> L -> L * result R LErr)
    (k : result R LErr -> prog L W LErr A)
| OnLane (R : Type) (f : W -> W * R) (k : R -> prog L W LErr A)
| AcquireJobs (request_ids : list Z) (k : option (list Z) -> prog L W LErr A)
| FreshToken (k : string -> prog L W LErr A)
| MintBatch (k : string -> prog L W LErr A).
Arguments Ret {L W LErr A}.
Arguments Failed_ {L W LErr A}.
Arguments OnState {L W LErr A} {R}.
Arguments OnLedger {L W LErr A} {R}.
Arguments OnLane {L W LErr A} {R}.
Arguments AcquireJobs {L W LErr A}.
Arguments FreshToken {L W LErr A}.
Arguments MintBatch {L W LErr A}.

Section Prog.
Context {L W LErr : Type}.

#[export] Instance prog_ret : MRet (prog L W LErr) := fun A => Ret.
#[export] Instance prog_bind : MBind (prog L W LErr) :=
  fun A B k =>
    fix go p := match p with
                | Ret a => k a
                | Failed_ e => Failed_ e
                | OnState f k' => OnState f (fun r => go (k' r))
                | OnLedger f k' => OnLedger f (fun r => go (k' r))
                | OnLane f k' => OnLane f (fun r => go (k' r))
                | AcquireJobs ids k' => AcquireJobs ids (fun r => go (k' r))
                | FreshToken k' => FreshToken (fun r => go (k' r))
                | MintBatch k' => MintBatch (fun r => go (k' r))
                end.

(** A store call, with its failure turned into [ScaleError::Store]. *)
Definition store {R} (m : string -> tx StateDb StoreFailure R Empty_set) : prog L W LErr R :=
  OnState (fun now db => run_tx (m now) db)
    (fun r => match r with Ok a => Ret a | Err e => Failed_ (EStore e) end).

(** A store read. *)
Definition read {R} (f : StateDb -> result R StoreFailure) : prog L W LErr R :=
  OnState (fun _ db => (db, f db))
    (fun r => match r with Ok a => Ret a | Err e => Failed_ (EStore e) end).

(** A ledger call, with its failure turned into [ScaleError::Ledger]. *)
Definition ledger_call {R} (why : string) (f : Env -> L -> L * result R LErr) : prog L W LErr R :=
  OnLedger f (fun r => match r with Ok a => Ret a | Err _ => Failed_ (ELedger why) end).

(** A ledger read. *)
Definition ledger_read {R} (why : string) (f : L -> result R LErr) : prog L W LErr R :=
  ledger_call why (fun _ l => (l, f l)).

(** [for x in xs { body(x)?; }]. *)
Fixpoint for_each {X} (body : X -> prog L W LErr unit) (xs : list X) : prog L W LErr unit :=
  match xs with
  | [] => Ret tt
  | x :: xs => body x;; for_each body xs
  end.

(** A loop that threads a value. *)
Fixpoint for_fold {X S} (body : S -> X -> prog L W LErr S) (xs : list X) (s : S)
    : prog L W LErr S :=
  match xs with
  | [] => Ret s
  | x :: xs => s' ← body s x; for_fold body xs s'
  end.

(** [ensure!]-style guards. *)
Definition refuse_when (P : Prop) `{Decision P} (e : ScaleError) : prog L W LErr unit :=
  if decide P then Failed_ e else Ret tt.

(** ** Running *)

Abbreviation world := (ScaleProg.world L W).

Definition set_ledger (l : L) (w : world) : world := World l (w_state w) (w_lane w).
Definition set_state_db (s : StateDb) (w : world) : world := World (w_ledger w) s (w_lane w).
Definition set_lane (x : W) (w : world) : world := World (w_ledger w) (w_state w) x.

(** What other processes may do to the ledger between two steps. *)
Context (rely : L -> L -> Prop).

Inductive pstep {A} : world * prog L W LErr A -> world * prog L W LErr A -> Prop :=
| PState R f k now w :
    pstep (w, OnState (R := R) f k)
      (set_state_db (f now (w_state w)).1 w, k (f now (w_state w)).2)
| PLedger R f k env w :
    pstep (w, OnLedger (R := R) f k)
      (set_ledger (f env (w_ledger w)).1 w, k (f env (w_ledger w)).2)
| PLane R f k w :
    pstep (w, OnLane (R := R) f k) (set_lane (f (w_lane w)).1 w, k (f (w_lane w)).2)
| PAcquire ids k answer w : pstep (w, AcquireJobs ids k) (w, k answer)
| PFresh k token w : token <> ""%string -> pstep (w, FreshToken k) (w, k token)
| PMint k batch_id w : pstep (w, MintBatch k) (w, k batch_id)
| POther p l w : rely (w_ledger w) l -> pstep (w, p) (set_ledger l w, p).

(** The configurations a program passes through; any of them may be the last
    one before the process dies. *)
Definition visits {A} (p : prog L W LErr A) (w : world) : world * prog L W LErr A -> Prop :=
  rtc pstep (w, p).

(** ** The proof rule *)

Context (Inv : world -> Prop) (Ask : list Z -> world -> Prop).

(** [P] after any interference. *)
Definition interfered (P : world -> Prop) (w : world) : Prop :=
  forall l, rely (w_ledger w) l -> P (set_ledger l w).

(** [wp p Q w]: from [w], every world [p] visits satisfies [Inv], every
    request to the queue satisfies [Ask], and [p] ends in [Q]. *)
Fixpoint wp {A} (p : prog L W LErr A) (Q : result A ScaleError -> world -> Prop) (w : world) : Prop :=
  interfered (fun w => Inv w /\
    match p with
    | Ret a => Q (Ok a) w
    | Failed_ e => Q (Err e) w
    | OnState f k => forall now, wp (k (f now (w_state w)).2) Q (set_state_db (f now (w_state w)).1 w)
    | OnLedger f k => forall env, wp (k (f env (w_ledger w)).2) Q (set_ledger (f env (w_ledger w)).1 w)
    | OnLane f k => wp (k (f (w_lane w)).2) Q (set_lane (f (w_lane w)).1 w)
    | AcquireJobs ids k => Ask ids w /\ forall answer, wp (k answer) Q w
    | FreshToken k => forall token, token <> ""%string -> wp (k token) Q w
    | MintBatch k => forall batch_id, wp (k batch_id) Q w
    end) w.

Context `{!PreOrder rely}.

Lemma set_ledger_set l l' w : set_ledger l (set_ledger l' w) = set_ledger l w.
Proof. done. Qed.
Lemma set_ledger_same w : set_ledger (w_ledger w) w = w.
Proof. by destruct w. Qed.

Lemma interfered_now P w : interfered P w -> P w.
Proof. intros H. rewrite <- (set_ledger_same w). apply H. reflexivity. Qed.

Lemma interfered_again P l w : interfered P w -> rely (w_ledger w) l -> interfered P (set_ledger l w).
Proof. intros H R l' R'. rewrite set_ledger_set. apply H. etransitivity; [done|exact R']. Qed.

Lemma wp_inv {A} (p : prog L W LErr A) Q w : wp p Q w -> Inv w.
Proof. destruct p; intros H; by destruct (interfered_now _ _ H). Qed.

Lemma wp_again {A} (p : prog L W LErr A) Q l w :
  wp p Q w -> rely (w_ledger w) l -> wp p Q (set_ledger l w).
Proof. destruct p; intros H Rl; exact (interfered_again _ _ _ H Rl). Qed.

Lemma wp_step {A} (p p' : prog L W LErr A) Q w w' : wp p Q w -> pstep (w, p) (w', p') -> wp p' Q w'.
Proof.
  intros H S. inversion S; subst; clear S; try (destruct (interfered_now _ _ H) as [_ H']; by try apply H').
  by apply wp_again.
Qed.

(** Adequacy: whatever the program visits is safe, and every request it makes
    was allowed. *)
Lemma wp_visits {A} (p p' : prog L W LErr A) Q w w' :
  wp p Q w -> visits p w (w', p') ->
  Inv w' /\ (forall ids k, p' = AcquireJobs ids k -> Ask ids w') /\ (forall a, p' = Ret a -> Q (Ok a) w').
Proof.
  intros H V. unfold visits in V. remember (w, p) as c eqn:C. remember (w', p') as c' eqn:C'.
  revert w p C H w' p' C'.
  induction V as [c|c [w1 p1] c' S _ IH]; intros w p -> H w' p' E.
  - injection E as <- <-. split_and!; [by eapply wp_inv| |].
    + intros ids k ->. destruct (interfered_now _ _ H) as (_ & A1 & _). exact A1.
    + intros a ->. destruct (interfered_now _ _ H) as (_ & A1). exact A1.
  - eapply IH; [reflexivity| |exact E]. eapply wp_step; [exact H|exact S].
Qed.

Lemma wp_mono {A} (p : prog L W LErr A) Q Q' w :
  (forall r w, Inv w -> Q r w -> Q' r w) -> wp p Q w -> wp p Q' w.
Proof.
  intros I. revert w. induction p as [a|e|R f k IH|R f k IH|R f k IH|ids k IH|k IH|k IH];
    intros w H l Rl; destruct (H l Rl) as [HI H']; (split; [exact HI|]).
  all: try (destruct H' as [HA H']; split; [exact HA|]).
  all: first [apply I; assumption | intros; apply IH; apply H'; assumption].
Qed.

Lemma wp_bind {A B} (p : prog L W LErr A) (k : A -> prog L W LErr B) Q w :
  wp p (fun r w => match r with Ok a => wp (k a) Q w | Err e => Q (Err e) w end) w ->
  wp (p ≫= k) Q w.
Proof.
  revert w. induction p as [a|e|R f k' IH|R f k' IH|R f k' IH|ids k' IH|k' IH|k' IH]; intros w H.
  - destruct (interfered_now _ _ H) as [_ H']. exact H'.
  - exact H.
  - intros l Rl. destruct (H l Rl) as [HI H']. split; [exact HI|]. intros now. apply IH, H'.
  - intros l Rl. destruct (H l Rl) as [HI H']. split; [exact HI|]. intros env. apply IH, H'.
  - intros l Rl. destruct (H l Rl) as [HI H']. split; [exact HI|]. apply IH, H'.
  - intros l Rl. destruct (H l Rl) as [HI [HA H']]. split; [exact HI|]. split; [exact HA|].
    intros answer. apply IH, H'.
  - intros l Rl. destruct (H l Rl) as [HI H']. split; [exact HI|]. intros token N. by apply IH, H'.
  - intros l Rl. destruct (H l Rl) as [HI H']. split; [exact HI|]. intros b. apply IH, H'.
Qed.

End Prog.

(** The rule is monotone in what it demands of worlds and requests. *)
Lemma wp_weaken {L W LErr A} (rely : L -> L -> Prop) (Inv Inv' : world L W -> Prop)
    (Ask Ask' : list Z -> world L W -> Prop) (p : prog L W LErr A) Q w :
  (forall w, Inv w -> Inv' w) -> (forall ids w, Ask ids w -> Ask' ids w) ->
  wp rely Inv Ask p Q w -> wp rely Inv' Ask' p Q w.
Proof.
  intros HI HA. revert w. induction p as [a|e|R f k IH|R f k IH|R f k IH|ids k IH|k IH|k IH];
    intros w H l Rl; destruct (H l Rl) as [I H']; (split; [by apply HI|]).
  all: try (destruct H' as [A1 H']; split; [by apply HA|]).
  all: first [assumption | intros; apply IH; apply H'; assumption].
Qed.
