(* ===== verification/ScaleCapacity.v ===== *)
(** * Scale sets: the capacity authority

    [CapacityLedger] of [crates/velnor-runner/src/scaleset/capacity.rs], the
    interface through which the scale-set lane sees the host permit ledger,
    as a class; its two implementations, the in-memory [MemLedger] and the
    adapter [SharedLedger] ([scaleset/shared_ledger.rs]) over the modelled
    [PermitLedger]; the contract both keep; and the reservation of a permit. *)

From Stdlib Require Import ZArith Lia.
From stdpp Require Import base gmap sets list strings sorting.
From S2P Require Import Prelude LedgerData LedgerOps LedgerReconcile LedgerInv LedgerSteps ScaleIds ScaleData ScaleProg.
#[local] Open Scope Z_scope.

(** ** Vocabulary *)

Inductive LedgerLane := LaneNative | LaneScaleSet.
#[export] Instance LedgerLane_eq_dec : EqDecision LedgerLane.
Proof. solve_decision. Defined.

Inductive LedgerPermitState :=
| PReserved | PAcquiring | PProvisioning | PAssignable | PRunning | PCleaning | PUncertain.
#[export] Instance LedgerPermitState_eq_dec : EqDecision LedgerPermitState.
Proof. solve_decision. Defined.

Record LedgerHolder := {
  lh_holder : string;
  lh_lane : LedgerLane;
  lh_state : LedgerPermitState;
  lh_generation : Z;
  lh_pid : option Z;
}.

Inductive AcquireOutcome :=
| CapAcquired (attempt_token : string)
| CapAlreadyHeld
| CapFull
| CapStaleGeneration
| CapNotConfigured.

Record CapReport := { cap_marked_uncertain : list string; cap_confirmed : list string }.

(** [trait CapacityLedger]. A mutation is given the clock, process and UUID
    of its call. *)
Class CapacityLedger (L : Type) := {
  ledger_error : Type;
  is_stale_generation : ledger_error -> bool;
  cl_generation : L -> result Z ledger_error;
  cl_advertised_free : L -> result (option Z) ledger_error;
  cl_occupied : L -> result Z ledger_error;
  cl_holders : L -> result (list LedgerHolder) ledger_error;
  cl_holder_state : string -> L -> result (option LedgerPermitState) ledger_error;
  cl_is_current_attempt : string -> string -> L -> result bool ledger_error;
  cl_observe_demand : Env -> string -> LedgerLane -> string -> Z -> Z -> L -> L * result unit ledger_error;
  cl_cancel_demand : Env -> string -> L -> L * result bool ledger_error;
  cl_acquire : Env -> string -> LedgerLane -> LedgerPermitState -> Z -> L ->
               L * result AcquireOutcome ledger_error;
  cl_acquire_with_attempt_token : Env -> string -> LedgerPermitState -> Z -> string -> L ->
               L * result AcquireOutcome ledger_error;
  cl_transition : Env -> string -> LedgerPermitState -> Z -> string -> L -> L * result unit ledger_error;
  cl_release_staged : Env -> string -> string -> DemandState -> L ->
               L * result OwnedReleaseOutcome ledger_error;
  cl_retain_uncertain : Env -> string -> Z -> string -> L -> L * result unit ledger_error;
  cl_reconcile_attempts : Env -> list (string * LedgerLane * string) -> L ->
               L * result CapReport ledger_error;
}.

(** ** The in-memory ledger *)

Module Mem.

Inductive MemError :=
| UnknownHolder (holder : string)
| StaleGeneration (expected seen : Z)
| StaleAttempt (holder : string).

Record MemPermit := {
  m_lane : LedgerLane;
  m_state : LedgerPermitState;
  m_permit_generation : Z;
  m_attempt_token : string;
  m_pid : option Z;
}.

Record MemLedger := {
  m_max_jobs : option Z;
  m_generation : Z;
  m_reconciled_generation : option Z;
  m_holders : gmap string MemPermit;
  m_demand_states : gmap string DemandState;
}.

Definition new : MemLedger := {|
  m_max_jobs := None; m_generation := 0; m_reconciled_generation := None;
  m_holders := ∅; m_demand_states := ∅ |}.

Definition with_holders h d (l : MemLedger) : MemLedger := {|
  m_max_jobs := m_max_jobs l; m_generation := m_generation l;
  m_reconciled_generation := m_reconciled_generation l;
  m_holders := h; m_demand_states := d |}.

Definition set_max_jobs (max : Z) (l : MemLedger) : MemLedger := {|
  m_max_jobs := Some max; m_generation := m_generation l;
  m_reconciled_generation := m_reconciled_generation l;
  m_holders := m_holders l; m_demand_states := m_demand_states l |}.

Definition begin_epoch (l : MemLedger) : MemLedger * Z :=
  let next := u64_saturating_add (m_generation l) 1 in
  ({| m_max_jobs := m_max_jobs l; m_generation := next;
      m_reconciled_generation := m_reconciled_generation l;
      m_holders := m_holders l; m_demand_states := m_demand_states l |}, next).

Definition occupied (l : MemLedger) : Z :=
  match u32_try_from (Z.of_nat (size (m_holders l))) with Some n => n | None => u32_max end.

Definition advertised_free (l : MemLedger) : option Z :=
  if decide (m_reconciled_generation l ≠ Some (m_generation l)) then None
  else match m_max_jobs l with
       | None => None
       | Some max => Some (u32_saturating_sub max (occupied l))
       end.

Definition holder_le (a b : string * MemPermit) : Prop := string_order a.1 b.1.
#[export] Instance holder_le_dec : RelDecision holder_le.
Proof. intros a b. unfold holder_le. apply _. Defined.

Definition holders (l : MemLedger) : list LedgerHolder :=
  (fun '(holder, p) => {|
     lh_holder := holder; lh_lane := m_lane p; lh_state := m_state p;
     lh_generation := m_permit_generation p; lh_pid := m_pid p |})
  <$> merge_sort holder_le (map_to_list (m_holders l)).

Definition is_current_attempt (holder attempt_token : string) (l : MemLedger) : bool :=
  match m_holders l !! holder with
  | Some p => bool_decide (m_attempt_token p = attempt_token)
  | None => false
  end.

(** The insert both acquisitions end with; [entry().or_insert(Granted)]. *)
Definition insert (env : Env) (holder : string) (lane : LedgerLane) (state : LedgerPermitState)
    (generation : Z) (attempt_token : string) (l : MemLedger) : MemLedger :=
  with_holders
    (<[holder := {| m_lane := lane; m_state := state; m_permit_generation := generation;
                    m_attempt_token := attempt_token; m_pid := Some (process_id env) |}]> (m_holders l))
    (match lane, m_demand_states l !! holder with
     | LaneScaleSet, None => <[holder := Granted]> (m_demand_states l)
     | _, _ => m_demand_states l
     end) l.

Definition acquire (env : Env) (holder : string) (lane : LedgerLane) (state : LedgerPermitState)
    (generation : Z) (l : MemLedger) : MemLedger * result AcquireOutcome MemError :=
  if decide (m_generation l ≠ generation) then (l, Ok CapStaleGeneration)
  else match m_max_jobs l with
  | None => (l, Ok CapNotConfigured)
  | Some max =>
      if decide (is_Some (m_holders l !! holder)) then (l, Ok CapAlreadyHeld)
      else if decide (max <= Z.of_nat (size (m_holders l))) then (l, Ok CapFull)
      else (insert env holder lane state generation (new_uuid env) l, Ok (CapAcquired (new_uuid env)))
  end.

Definition acquire_with_attempt_token (env : Env) (holder : string) (state : LedgerPermitState)
    (generation : Z) (attempt_token : string) (l : MemLedger)
    : MemLedger * result AcquireOutcome MemError :=
  if decide (attempt_token = ""%string) then (l, Err (StaleAttempt holder))
  else if decide (m_generation l ≠ generation) then (l, Ok CapStaleGeneration)
  else match m_max_jobs l with
  | None => (l, Ok CapNotConfigured)
  | Some max =>
      match m_holders l !! holder with
      | Some p =>
          if decide (m_lane p = LaneScaleSet ∧ m_attempt_token p = attempt_token)
          then (l, Ok (CapAcquired attempt_token)) else (l, Ok CapAlreadyHeld)
      | None =>
          if decide (max <= Z.of_nat (size (m_holders l))) then (l, Ok CapFull)
          else (insert env holder LaneScaleSet state generation attempt_token l,
                Ok (CapAcquired attempt_token))
      end
  end.

(** [holders.get_mut(holder)] with the fence of an owned mutation. *)
Definition owned (holder : string) (generation : Z) (attempt_token : string) (l : MemLedger)
    : result MemPermit MemError :=
  if decide (m_generation l ≠ generation) then Err (StaleGeneration (m_generation l) generation)
  else match m_holders l !! holder with
       | None => Err (UnknownHolder holder)
       | Some p => if decide (m_attempt_token p ≠ attempt_token) then Err (StaleAttempt holder)
                   else Ok p
       end.

Definition set_permit (holder : string) (p : MemPermit) (l : MemLedger) : MemLedger :=
  with_holders (<[holder := p]> (m_holders l)) (m_demand_states l) l.

Definition transition (env : Env) (holder : string) (state : LedgerPermitState) (generation : Z)
    (attempt_token : string) (l : MemLedger) : MemLedger * result unit MemError :=
  match owned holder generation attempt_token l with
  | Err e => (l, Err e)
  | Ok p => (set_permit holder {| m_lane := m_lane p; m_state := state;
               m_permit_generation := generation; m_attempt_token := m_attempt_token p;
               m_pid := Some (process_id env) |} l, Ok tt)
  end.

Definition release_staged (holder attempt_token : string) (target : DemandState) (l : MemLedger)
    : MemLedger * result OwnedReleaseOutcome MemError :=
  if decide (~ (target = Eligible ∨ target = Cancelled ∨ target = Terminal))
  then (l, Ok ReleaseStaleAttempt)
  else match m_holders l !! holder with
  | Some p =>
      if decide (m_lane p ≠ LaneScaleSet ∨ m_attempt_token p ≠ attempt_token)
      then (l, Ok ReleaseStaleAttempt)
      else if decide (target = Eligible ∧ m_demand_states l !! holder ≠ Some Eligible
                      ∧ m_demand_states l !! holder ≠ Some Granted)
      then (l, Ok ReleaseStaleAttempt)
      else (with_holders (delete holder (m_holders l)) (<[holder := target]> (m_demand_states l)) l,
            Ok Released)
  | None =>
      if decide (m_demand_states l !! holder = Some target) then (l, Ok AlreadyAbsent)
      else (l, Ok ReleaseStaleAttempt)
  end.

Definition retain_uncertain (holder : string) (generation : Z) (attempt_token : string)
    (l : MemLedger) : MemLedger * result unit MemError :=
  match owned holder generation attempt_token l with
  | Err e => (l, Err e)
  | Ok p =>
      if decide (m_state p = PCleaning) then (l, Ok tt)
      else
      (with_holders
         (<[holder := {| m_lane := m_lane p; m_state := PUncertain;
              m_permit_generation := generation; m_attempt_token := m_attempt_token p;
              m_pid := m_pid p |}]> (m_holders l))
         (if decide (m_demand_states l !! holder = Some Eligible
                     ∨ m_demand_states l !! holder = Some Granted)
          then <[holder := Terminal]> (m_demand_states l) else m_demand_states l) l, Ok tt)
  end.

(** The exact-token confirmations of [reconcile_attempts]. *)
Fixpoint confirm (alive : list (string * LedgerLane * string)) (l : MemLedger)
    : result (list string) MemError :=
  match alive with
  | [] => Ok []
  | (holder, lane, attempt_token) :: alive =>
      match m_holders l !! holder with
      | None => Err (StaleAttempt holder)
      | Some p =>
          if decide (m_lane p ≠ lane) then Err (StaleAttempt holder)
          else if decide (attempt_token = ""%string ∨ m_attempt_token p ≠ attempt_token)
          then Err (StaleAttempt holder)
          else result_bind (confirm alive l) (fun rest => Ok (holder :: rest))
      end
  end.

Definition mark (alive : gset string) (generation : Z) (holder : string) (p : MemPermit) : MemPermit :=
  if decide (holder ∈ alive ∨ m_state p = PCleaning) then p
  else {| m_lane := m_lane p; m_state := PUncertain; m_permit_generation := generation;
          m_attempt_token := m_attempt_token p; m_pid := m_pid p |}.

Definition reconcile_attempts (alive : list (string * LedgerLane * string)) (l : MemLedger)
    : MemLedger * result CapReport MemError :=
  match confirm alive l with
  | Err e => (l, Err e)
  | Ok confirmed =>
      let live := list_to_set (alive.*1.*1) in
      ({| m_max_jobs := m_max_jobs l; m_generation := m_generation l;
          m_reconciled_generation := Some (m_generation l);
          m_holders := map_imap (fun h p => Some (mark live (m_generation l) h p)) (m_holders l);
          m_demand_states := m_demand_states l |},
       Ok {| cap_marked_uncertain :=
               merge_sort string_order (elements (dom (m_holders l) ∖ live));
             cap_confirmed := merge_sort string_order confirmed |})
  end.

End Mem.

#[export] Instance mem_ledger : CapacityLedger Mem.MemLedger := {|
  ledger_error := Mem.MemError;
  is_stale_generation e := match e with Mem.StaleGeneration _ _ => true | _ => false end;
  cl_generation l := Ok (Mem.m_generation l);
  cl_advertised_free l := Ok (Mem.advertised_free l);
  cl_occupied l := Ok (Mem.occupied l);
  cl_holders l := Ok (Mem.holders l);
  cl_holder_state holder l := Ok (Mem.m_state <$> Mem.m_holders l !! holder);
  cl_is_current_attempt holder token l := Ok (Mem.is_current_attempt holder token l);
  cl_observe_demand _ _ _ _ _ _ l := (l, Ok tt);
  cl_cancel_demand _ _ l := (l, Ok false);
  cl_acquire := Mem.acquire;
  cl_acquire_with_attempt_token := Mem.acquire_with_attempt_token;
  cl_transition := Mem.transition;
  cl_release_staged _ := Mem.release_staged;
  cl_retain_uncertain _ := Mem.retain_uncertain;
  cl_reconcile_attempts _ := Mem.reconcile_attempts;
|}.

(** ** The shared ledger *)

Module Shared.

Definition to_control_lane (lane : LedgerLane) : PermitLane :=
  match lane with LaneNative => Native | LaneScaleSet => ScaleSet end.
Definition from_control_lane (lane : PermitLane) : LedgerLane :=
  match lane with Native => LaneNative | ScaleSet => LaneScaleSet end.

Definition to_control_state (state : LedgerPermitState) : PermitState :=
  match state with
  | PReserved => Reserved
  | PAcquiring => Acquiring
  | PProvisioning => Provisioning
  | PAssignable => Assignable
  | PRunning => Running
  | PCleaning => Cleaning
  | PUncertain => Uncertain
  end.
Definition from_control_state (state : PermitState) : LedgerPermitState :=
  match state with
  | Reserved => PReserved
  | Acquiring => PAcquiring
  | Provisioning => PProvisioning
  | Assignable => PAssignable
  | Running => PRunning
  | Cleaning => PCleaning
  | Uncertain => PUncertain
  end.

Definition from_control_outcome (outcome : AcquireAttemptOutcome) : AcquireOutcome :=
  match outcome with
  | AttemptAcquired attempt_token => CapAcquired attempt_token
  | AlreadyHeld => CapAlreadyHeld
  | Full | Deferred | Closed => CapFull
  | AcquireStaleGeneration => CapStaleGeneration
  | NotConfigured => CapNotConfigured
  end.

Definition from_control_report (report : ReconcileReport) : CapReport := {|
  cap_marked_uncertain := marked_uncertain report;
  cap_confirmed := confirmed report |}.

Definition from_control_holder (h : PermitHolder) : LedgerHolder := {|
  lh_holder := ph_holder h;
  lh_lane := from_control_lane (ph_lane h);
  lh_state := from_control_state (ph_state h);
  lh_generation := ph_generation h;
  lh_pid := ph_pid h |}.

(** [Ok(f(self.inner.call()?))]. *)
Definition mapped {R S} (f : R -> S) (x : LedgerDb * result R LedgerError)
    : LedgerDb * result S LedgerError :=
  (x.1, match x.2 with Ok r => Ok (f r) | Err e => Err e end).

End Shared.

#[export] Instance shared_ledger : CapacityLedger LedgerDb := {|
  ledger_error := LedgerError;
  is_stale_generation e := match e with StaleGeneration _ _ => true | _ => false end;
  cl_generation db := Ok (generation db);
  cl_advertised_free db := Ok (advertised_free db);
  cl_occupied db := Ok (occupied db);
  cl_holders db := match holders db with
                   | Ok hs => Ok (Shared.from_control_holder <$> hs)
                   | Err e => Err e
                   end;
  cl_holder_state holder db := match holder_state holder db with
                               | Ok s => Ok (Shared.from_control_state <$> s)
                               | Err e => Err e
                               end;
  cl_is_current_attempt holder token db := Ok (is_current_attempt holder token db);
  cl_observe_demand _ holder lane scope first_seen observed db :=
    Shared.mapped (fun _ => tt)
      (run_tx (observe_demand holder (Shared.to_control_lane lane) scope first_seen observed) db);
  cl_cancel_demand env holder db := run_tx (cancel_demand env holder) db;
  cl_acquire env holder lane state generation db :=
    Shared.mapped Shared.from_control_outcome
      (run_tx (acquire_attempt env holder (Shared.to_control_lane lane)
                 (Shared.to_control_state state) generation (Some (process_id env))) db);
  cl_acquire_with_attempt_token env holder state generation token db :=
    Shared.mapped Shared.from_control_outcome
      (run_tx (acquire_scaleset_attempt_with_token env holder (Shared.to_control_state state)
                 generation (Some (process_id env)) token) db);
  cl_transition env holder state generation token db :=
    run_tx (transition_owned env holder (Shared.to_control_state state) generation token) db;
  cl_release_staged env holder token target db :=
    run_tx (release_scaleset_staged_owned env holder token target) db;
  cl_retain_uncertain env holder generation token db :=
    run_tx (retain_uncertain_owned env holder generation token) db;
  cl_reconcile_attempts env alive db :=
    Shared.mapped Shared.from_control_report
      (run_tx (reconcile_attempts env
         ((fun '(holder, lane, token) => (holder, Shared.to_control_lane lane, token)) <$> alive)) db);
|}.

(** ** Reserving a permit *)

Inductive ReserveOutcome :=
| Reserved_ (attempt_token : string)
| ReserveAlreadyHeld
| CapacityExhausted
| ReserveNotConfigured.

Section Reserve.
Context {L W : Type} `{CL : CapacityLedger L}.
Abbreviation cprog := (prog L W ledger_error).

(** What an acquire outcome means for the reservation; [None] is the stale
    generation. *)
Definition reserve_outcome (o : AcquireOutcome) : option ReserveOutcome :=
  match o with
  | CapAcquired attempt_token => Some (Reserved_ attempt_token)
  | CapAlreadyHeld => Some ReserveAlreadyHeld
  | CapFull => Some CapacityExhausted
  | CapNotConfigured => Some ReserveNotConfigured
  | CapStaleGeneration => None
  end.

(** The retry both reservations share: a moved epoch is read again once. *)
Definition reserve_with (attempt : Z -> cprog AcquireOutcome) (generation : Z)
    : cprog (ReserveOutcome * Z) :=
  outcome ← attempt generation;
  match reserve_outcome outcome with
  | Some reserved => mret (reserved, generation)
  | None =>
      fresh ← ledger_read "reserve permit" cl_generation;
      outcome ← attempt fresh;
      match reserve_outcome outcome with
      | Some reserved => mret (reserved, fresh)
      | None => Failed_ (ELedger "permit ledger epoch moved twice during one reserve")
      end
  end.

Definition reserve_for_offer (holder : string) (generation : Z) : cprog (ReserveOutcome * Z) :=
  reserve_with (fun generation =>
    ledger_call "reserve permit" (fun env l =>
      cl_acquire env holder LaneScaleSet PReserved generation l)) generation.

Definition reserve_for_offer_with_token (holder : string) (generation : Z) (attempt_token : string)
    : cprog (ReserveOutcome * Z) :=
  reserve_with (fun generation =>
    ledger_call "reserve permit" (fun env l =>
      cl_acquire_with_attempt_token env holder PReserved generation attempt_token l)) generation.

Definition advertise_free (l : L) : Z :=
  match cl_advertised_free l with
  | Ok (Some free) => free
  | Ok None | Err _ => 0
  end.

End Reserve.
