(* ===== verification/ScaleContract.v ===== *)
(** * Scale sets: the contract of the capacity authority

    What the scale-set controller relies on about whichever ledger it was
    given: who holds a permit under which token, and what each call may do to
    that. The in-memory ledger and the shared ledger both keep it; the
    controller's theorems are proved against the contract. *)

From Stdlib Require Import ZArith Lia.
From stdpp Require Import base gmap sets list strings sorting.
From S2P Require Import Prelude Numerals LedgerData LedgerOps LedgerReconcile LedgerInv LedgerSteps LedgerSafety LedgerQueue LedgerFence LedgerRecovery ScaleIds ScaleData ScaleProg ScaleCapacity.
#[local] Open Scope Z_scope.

(** The demand states a staged release may leave behind. *)
Definition release_target (target : DemandState) : Prop :=
  target = Eligible ∨ target = Cancelled ∨ target = Terminal.

Class CapacityContract (L : Type) `{CL : CapacityLedger L} := {
  (** What the calls of the ledger keep of it. *)
  ledger_ok : L -> Prop;
  (** The lane and owner token of a holder's permit. *)
  held : L -> string -> option (LedgerLane * string);
  (** The state of a scale-set holder's demand. *)
  demand_of : L -> string -> option DemandState;

  law_current holder token l b :
    ledger_ok l -> cl_is_current_attempt holder token l = Ok b ->
    b = true <-> exists lane, held l holder = Some (lane, token);
  law_holder_state holder l s :
    ledger_ok l -> cl_holder_state holder l = Ok s -> is_Some s <-> is_Some (held l holder);
  law_observe env holder lane scope first observed l :
    ledger_ok l ->
    let l' := (cl_observe_demand env holder lane scope first observed l).1 in
    ledger_ok l' /\ forall h, held l' h = held l h;
  law_cancel env holder l :
    ledger_ok l ->
    let l' := (cl_cancel_demand env holder l).1 in
    ledger_ok l' /\ forall h, held l' h = held l h;
  law_transition env holder state generation token l :
    ledger_ok l ->
    let l' := (cl_transition env holder state generation token l).1 in
    ledger_ok l' /\ forall h, held l' h = held l h;
  law_retain env holder generation token l :
    ledger_ok l ->
    let l' := (cl_retain_uncertain env holder generation token l).1 in
    ledger_ok l' /\ forall h, held l' h = held l h;
  law_reconcile env alive l :
    ledger_ok l ->
    let l' := (cl_reconcile_attempts env alive l).1 in
    ledger_ok l' /\ forall h, held l' h = held l h;
  law_acquire env holder state generation token l :
    ledger_ok l ->
    let '(l', r) := cl_acquire_with_attempt_token env holder state generation token l in
    ledger_ok l' /\ (forall h, h <> holder -> held l' h = held l h) /\
    match r with
    | Ok (CapAcquired t) => t = token /\ held l' holder = Some (LaneScaleSet, token)
    | Ok CapAlreadyHeld => held l' holder = held l holder /\ is_Some (held l holder)
    | Ok CapFull | Ok CapNotConfigured | Ok CapStaleGeneration | Err _ =>
        held l' holder = held l holder
    end /\
    match r with
    | Ok CapFull | Ok CapNotConfigured => held l holder = None
    | _ => True
    end;
  law_release env holder token target l :
    ledger_ok l ->
    let '(l', r) := cl_release_staged env holder token target l in
    ledger_ok l' /\ (forall h, h <> holder -> held l' h = held l h /\ demand_of l' h = demand_of l h) /\
    match r with
    | Ok Released =>
        held l holder = Some (LaneScaleSet, token) /\ held l' holder = None
        /\ demand_of l' holder = Some target /\ release_target target
    | Ok AlreadyAbsent => held l holder = None /\ demand_of l holder = Some target /\ l' = l
    | Ok ReleaseStaleAttempt | Err _ => l' = l
    end;
  law_release_again env holder token target l :
    ledger_ok l -> token <> ""%string -> release_target target ->
    held l holder = None -> demand_of l holder = Some target ->
    cl_release_staged env holder token target l = (l, Ok AlreadyAbsent);
}.

(** ** The in-memory ledger keeps the contract *)

#[local] Ltac mem_close :=
  repeat match goal with H : decide _ = _ |- _ => clear H end;
  destruct_and?; first [done | congruence | eexists; reflexivity | naive_solver].

(** No permit is held before the ledger has a size. *)
Definition mem_ok (l : Mem.MemLedger) : Prop := Mem.m_max_jobs l = None -> Mem.m_holders l = ∅.

#[local] Ltac mem_ok_close :=
  first [assumption | let M := fresh in intros M; cbn in M; exfalso;
  match goal with
  | O : mem_ok _ |- _ => specialize (O M);
    match goal with
    | H : Mem.m_holders _ !! _ = Some _ |- _ => by rewrite O, lookup_empty in H
    end
  | _ => congruence
  end].

#[export, refine] Instance mem_contract : CapacityContract Mem.MemLedger := {|
  ledger_ok := mem_ok;
  held l h := (fun p => (Mem.m_lane p, Mem.m_attempt_token p)) <$> Mem.m_holders l !! h;
  demand_of l h := Mem.m_demand_states l !! h;
|}.
Proof.
  - intros h t l b _ [= <-]. unfold Mem.is_current_attempt.
    destruct (Mem.m_holders l !! h) as [p|]; cbn; [|naive_solver].
    rewrite bool_decide_eq_true. naive_solver.
  - intros h l s _ [= <-]. by rewrite !fmap_is_Some.
  - done.
  - done.
  - intros env h st g t l O. cbn. unfold Mem.transition, Mem.owned.
    repeat case_match; simplify_eq; (split; [mem_ok_close|]); try done.
    intros h'. cbn. destruct (decide (h' = h)) as [->|];
      [rewrite lookup_insert_eq|by rewrite lookup_insert_ne]. by simplify_option_eq.
  - intros env h g t l O. cbn. unfold Mem.retain_uncertain, Mem.owned.
    repeat case_match; simplify_eq; (split; [mem_ok_close|]); try done.
    all: intros h'; cbn; destruct (decide (h' = h)) as [->|];
      [rewrite lookup_insert_eq|by rewrite lookup_insert_ne]; by simplify_option_eq.
  - intros env alive l O. cbn. unfold Mem.reconcile_attempts. destruct (Mem.confirm alive l); [|done]. cbn. split.
    + intros M. cbn. rewrite (O M). apply map_eq. intros h. by rewrite map_lookup_imap, lookup_empty.
    + intros h. rewrite map_lookup_imap. destruct (Mem.m_holders l !! h); cbn; [|done].
      unfold Mem.mark. by case_decide.
  - intros env h st g t l O. cbn. unfold Mem.acquire_with_attempt_token.
    repeat case_match; simplify_eq; split_and!; try mem_ok_close; try done; cbn.
    all: try by intros h' N; rewrite lookup_insert_ne.
    all: try by rewrite lookup_insert_eq.
    all: try match goal with H : Mem.m_holders _ !! _ = _ |- _ => rewrite H; cbn; mem_close end.
    all: by rewrite (O ltac:(done)), lookup_empty.
  - intros env h t target l O. cbn. unfold Mem.release_staged.
    repeat case_match; simplify_eq; split_and!; try mem_ok_close; try done; cbn.
    all: try by intros h' N; rewrite lookup_delete_ne, lookup_insert_ne.
    all: try by rewrite lookup_delete_eq.
    all: try by rewrite lookup_insert_eq.
    all: try match goal with H : Mem.m_holders _ !! _ = _ |- _ => rewrite H; cbn; mem_close end.
    2: by apply dec_stable.
    match goal with N : ~ (?A ∨ ?B) |- _ =>
      destruct (decide A); [by destruct N; left|]; destruct (decide B); [by destruct N; right|] end.
    do 2 f_equal; by apply dec_stable.
  - intros env h t target l _ T RT N D. cbn. unfold Mem.release_staged.
    rewrite decide_False by (unfold release_target in RT; tauto).
    apply fmap_None in N. by rewrite N, decide_True.
Defined.

(** ** The shared ledger keeps the contract *)

(** The lane and token columns of a holder's permit row. *)
Definition owner (db : LedgerDb) (h : string) : option (string * string) :=
  (fun p => (p_lane p, p_attempt_token p)) <$> permits db !! h.

Definition shared_held (db : LedgerDb) (h : string) : option (LedgerLane * string) :=
  '(lane, token) ← owner db h;
  lane ← PermitLane_parse lane;
  Some (Shared.from_control_lane lane, token).

Definition shared_demand (db : LedgerDb) (h : string) : option DemandState :=
  d ← permit_demands db !! h;
  match PermitLane_parse (d_lane d) with
  | Some ScaleSet => DemandState_parse (d_state d)
  | _ => None
  end.

Lemma shared_held_owner db db' h : owner db' h = owner db h -> shared_held db' h = shared_held db h.
Proof. unfold shared_held. by intros ->. Qed.

Lemma owner_None db h : permits db !! h = None <-> owner db h = None.
Proof. unfold owner. by rewrite fmap_None. Qed.

(** A recorded permit has one of the two lanes. *)
Lemma shared_held_None db h : LedgerInv.Inv db -> shared_held db h = None -> permits db !! h = None.
Proof.
  intros I. pose proof (inv_coupled _ I h) as C. unfold shared_held, owner.
  destruct (permits db !! h) as [p|] eqn:P; [|done]. cbn.
  destruct (permit_demands db !! h) as [d|]; [|done]. cbn in C. destruct C as ((l & E) & LE & _).
  rewrite LE, E. by destruct l.
Qed.

(** Rows looked up through the updates of one call. *)
#[local] Ltac rows_at h' :=
  unfold owner in *; ledger_simpl;
  repeat match goal with
  | |- context [<[?k := _]> _ !! h'] =>
      destruct (decide (h' = k)) as [->|];
      [rewrite lookup_insert_eq|rewrite lookup_insert_ne by congruence]
  | |- context [delete ?k _ !! h'] =>
      destruct (decide (h' = k)) as [->|];
      [rewrite lookup_delete_eq|rewrite lookup_delete_ne by congruence]
  end;
  ledger_simpl; simplify_option_eq; try done; try congruence.

(** Calls that leave every permit with its owner. *)
Definition keeps_owners (db db' : LedgerDb) : Prop := forall h, owner db' h = owner db h.

#[local] Ltac owner_call :=
  apply (run_tx_post _ (keeps_owners _)); [done|]; repeat tx_step; ledger_rows; try done;
  let h' := fresh "h'" in intros h'; rows_at h'.

Section SharedOwners.
Context (db : LedgerDb).

Lemma observe_owner h lane scope t u :
  keeps_owners db (run_tx (observe_demand h lane scope t u) db).1.
Proof. unfold observe_demand. owner_call. Qed.

Lemma cancel_owner env h : keeps_owners db (run_tx (cancel_demand env h) db).1.
Proof. unfold cancel_demand. owner_call. Qed.

Lemma transition_owner env h st g t : keeps_owners db (run_tx (transition_owned env h st g t) db).1.
Proof. unfold transition_owned, transition_for_attempt. owner_call. Qed.

Lemma retain_owner env h g t : keeps_owners db (run_tx (retain_uncertain_owned env h g t) db).1.
Proof. unfold retain_uncertain_owned, retain_uncertain_for_attempt, close_open_demand. owner_call. Qed.

Lemma reconcile_owner env alive : keeps_owners db (run_tx (reconcile_attempts env alive) db).1.
Proof.
  change (reconcile_attempts env alive) with (reconcile_attempts_with_staged_acquisitions env alive [] [] []).
  apply (run_tx_post _ (keeps_owners db)); [by intros h|].
  eapply post_weaken; [apply reconcile_rows|done|]. intros ? db' (_ & _ & H) h.
  specialize (H h). unfold owner.
  destruct (permits db !! h) as [p|], (permits db' !! h) as [p'|]; try done.
  destruct H as (T & La & _). cbn. congruence.
Qed.

Lemma reconcile_inv env alive : LedgerInv.Inv db -> LedgerInv.Inv (run_tx (reconcile_attempts env alive) db).1.
Proof.
  change (reconcile_attempts env alive) with (reconcile_attempts_with_staged_acquisitions env alive [] [] []).
  intros I. by apply (so_inv _ _ _ (reconcile_step env alive [] [] [] db I)).
Qed.

End SharedOwners.

(** Run a call with its rollbacks. *)
#[local] Ltac spec_step :=
  lazymatch goal with
  | |- flow_spec _ _ _ (tx_bind _ _ _) => apply spec_bind
  | |- flow_spec _ _ _ (get _) => cbn [flow_spec get]
  | |- flow_spec _ _ _ (tx_ret _ _) => cbn [flow_spec tx_ret]
  | |- flow_spec _ _ _ (commit _ _) => cbn [flow_spec commit]
  | |- flow_spec _ _ _ (rollback _ _) => cbn [flow_spec rollback]
  | |- flow_spec _ _ _ (throw _ _) => exact I
  | |- flow_spec _ _ _ (when _ _ _) => apply spec_when; intros
  | |- flow_spec _ _ _ (select_permit _ _) => cbn [flow_spec select_permit]
  | |- flow_spec _ _ _ (update_permit _ _ _ _) =>
      apply spec_statement; [apply no_rollback_update_permit|apply post_update_permit; intros]
  | |- flow_spec _ _ _ (insert_permit _ _ _) =>
      apply spec_statement; [apply no_rollback_insert_permit|apply post_insert_permit; intros]
  | |- flow_spec _ _ _ (delete_permit _ _ _) =>
      apply spec_statement; [apply no_rollback_delete_permit|apply post_delete_permit; intros]
  | |- flow_spec _ _ _ (update_demand _ _ _ _) =>
      apply spec_statement; [apply no_rollback_update_demand|apply post_update_demand; intros]
  | |- flow_spec _ _ _ (read_demand _ _) =>
      apply spec_statement; [apply no_rollback_read_demand|apply post_read_demand; intros]
  | |- flow_spec _ _ _ (check_demand_lane _ _ _ _) =>
      apply spec_statement; [apply no_rollback_check_lane|apply post_check_demand_lane; intros]
  | |- flow_spec _ _ _ (lane_mismatch _ _ _ _) =>
      apply spec_statement; [apply no_rollback_lane_mismatch|apply post_lane_mismatch; intros]
  | |- flow_spec _ _ _ (ensure_demand_tx _ _ _ _ _ _ _) =>
      apply spec_statement; [apply no_rollback_ensure|apply post_ensure_demand; intros]
  | |- flow_spec _ _ _ ((if decide _ then _ else _) _) => apply spec_decide; intros
  | |- flow_spec _ _ _ ((match ?x with _ => _ end) _) => destruct x eqn:?
  | |- flow_spec _ _ _ ((let _ := _ in _) _) => cbv zeta
  end.

(** Acquiring inserts at most the caller's own permit, under its token. *)
Definition acquire_spec (h tok : string) (db : LedgerDb)
    (x : LedgerDb * result AcquireAttemptOutcome LedgerError) : Prop :=
  (forall h', h' <> h -> owner x.1 h' = owner db h') /\
  match x.2 with
  | Ok (AttemptAcquired t) => t = tok /\ owner x.1 h = Some (PermitLane_as_str ScaleSet, tok)
  | Ok AlreadyHeld => owner x.1 h = owner db h /\ permits db !! h <> None
  | Ok (Full | Deferred | Closed | NotConfigured) =>
      owner x.1 h = owner db h /\ permits db !! h = None
  | Ok AcquireStaleGeneration | Err _ => owner x.1 h = owner db h
  end.

#[local] Ltac acquire_close :=
  unfold acquire_spec, owner; cbn [fst snd]; ledger_simpl; split;
  [ intros; rewrite ?lookup_insert_ne by congruence; done
  | rewrite ?lookup_insert_eq; cbn; destruct_and?; simplify_eq;
    repeat match goal with H : permits _ !! _ = _ |- _ => rewrite !H end; cbn;
    first [done | split; congruence | naive_solver congruence] ].

Lemma acquire_owner env h st g pid tok db :
  acquire_spec h tok db (run_tx (acquire_scaleset_attempt_with_token env h st g pid tok) db).
Proof.
  apply run_tx_spec; [|done].
  unfold acquire_scaleset_attempt_with_token, acquire_attempt_with_token, acquire_held, requeue_demand,
    grant_permit.
  repeat spec_step; ledger_rows; acquire_close.
Qed.

(** Releasing removes at most the caller's own permit. *)
Definition release_spec (h tok : string) (target : DemandState) (db : LedgerDb)
    (x : LedgerDb * result OwnedReleaseOutcome LedgerError) : Prop :=
  (forall h', h' <> h -> owner x.1 h' = owner db h' /\ shared_demand x.1 h' = shared_demand db h') /\
  match x.2 with
  | Ok Released =>
      owner db h = Some (PermitLane_as_str ScaleSet, tok) /\ owner x.1 h = None
      /\ shared_demand x.1 h = Some target /\ release_target target
  | Ok AlreadyAbsent => permits db !! h = None /\ shared_demand db h = Some target /\ x.1 = db
  | Ok ReleaseStaleAttempt | Err _ => x.1 = db
  end.

#[local] Ltac release_close :=
  first
  [ by split
  | exfalso; ledger_rows; naive_solver congruence
  | unfold release_spec, owner, shared_demand; cbn [fst snd]; ledger_simpl; split;
    [ intros; rewrite ?lookup_delete_ne, ?lookup_insert_ne by congruence; done
    | rewrite ?lookup_insert_eq, ?lookup_delete_eq; cbn; ledger_simpl;
      repeat match goal with
      | H : permits _ !! _ = _ |- _ => rewrite !H
      | H : permit_demands _ !! _ = _ |- _ => rewrite !H; cbn
      | H : d_lane _ = _ |- _ => rewrite !H
      | H : d_state _ = _ |- _ => rewrite !H
      | H : pd_lane _ = _ |- _ => rewrite !H
      | H : p_lane _ = _ |- _ => rewrite !H
      end; cbn; unfold release_target;
      repeat match goal with |- context [pd_state ?d] => destruct (pd_state d) end; cbn;
      first [done | naive_solver congruence] ] ].

Lemma release_owner env h tok target db :
  release_spec h tok target db (run_tx (release_scaleset_staged_owned env h tok target) db).
Proof.
  apply run_tx_spec; [|done]. unfold release_scaleset_staged_owned.
  repeat spec_step; ledger_rows; release_close. Qed.

Lemma release_owner_again env h tok target db :
  tok <> ""%string -> release_target target -> permits db !! h = None ->
  shared_demand db h = Some target ->
  run_tx (release_scaleset_staged_owned env h tok target) db = (db, Ok AlreadyAbsent).
Proof.
  intros T RT P D. unfold release_scaleset_staged_owned, shared_demand in *.
  rewrite decide_False by (unfold release_target in RT; naive_solver).
  tx_unfold. unfold select_permit. rewrite P. unfold read_demand.
  destruct (permit_demands db !! h) as [d|]; [|done]. cbn in D. unfold parse_demand.
  destruct (PermitLane_parse (d_lane d)) as [[]|]; try done. rewrite D. unfold check_demand_lane.
  cbn. by rewrite !decide_True.
Qed.

#[export, refine] Instance shared_contract : CapacityContract LedgerDb := {|
  ledger_ok := LedgerInv.Inv;
  held := shared_held;
  demand_of := shared_demand;
|}.
Proof.
  - intros h t db b I. cbn. intros [= <-]. unfold is_current_attempt.
    pose proof (inv_coupled _ I h) as C. unfold shared_held, owner.
    destruct (permits db !! h) as [p|]; cbn; [|naive_solver]. rewrite bool_decide_eq_true.
    destruct (permit_demands db !! h) as [d|]; [|done]. cbn in C. destruct C as ((l & E) & LE & _).
    rewrite LE, E, PermitLane_parse_as_str. cbn. naive_solver.
  - intros h db s I. cbn. unfold holder_state. intros E.
    destruct (permits db !! h) as [p|] eqn:P.
    + destruct (shared_held db h) eqn:Hd; [|by apply shared_held_None in Hd; [rewrite P in Hd|]].
      destruct (PermitState_parse (p_state p)); [|done]. injection E as <-. cbn. split; eauto.
    + injection E as <-. unfold shared_held, owner. rewrite P. cbn. split; intros []%is_Some_None.
  - intros env h lane scope f o db I. cbn. split.
    + eapply so_inv, observe_demand_step, I.
    + intros h'. apply shared_held_owner, observe_owner.
  - intros env h db I. cbn. split; [eapply so_inv, cancel_demand_step, I|].
    intros h'. apply shared_held_owner, cancel_owner.
  - intros env h st g t db I. cbn. split; [eapply so_inv, transition_step, I|].
    intros h'. apply shared_held_owner, transition_owner.
  - intros env h g t db I. cbn. split; [eapply so_inv, retain_uncertain_step, I|].
    intros h'. apply shared_held_owner, retain_owner.
  - intros env alive db I. split; [exact (reconcile_inv db env _ I)|].
    intros h'. apply shared_held_owner. exact (reconcile_owner db env _ h').
  - intros env h st g t db I. cbn. unfold Shared.mapped.
    set (x := run_tx (acquire_scaleset_attempt_with_token _ _ _ _ _ _) _).
    assert (S : LedgerInv.Inv x.1).
    { subst x. unfold acquire_scaleset_attempt_with_token. case_decide; [done|].
      eapply so_inv, acquire_step, I. }
    pose proof (acquire_owner env h (Shared.to_control_state st) g (Some (process_id env)) t db : acquire_spec h t db x)
      as [O R].
    split; [exact S|]. split; [intros h' N; by apply shared_held_owner, O|].
    assert (Hn : permits db !! h = None -> shared_held db h = None).
    { intros P. unfold shared_held, owner. by rewrite P. }
    assert (Hs : permits db !! h <> None -> is_Some (shared_held db h)).
    { intros P. destruct (shared_held db h) eqn:Hd; [eauto|]. by apply shared_held_None in Hd. }
    destruct x as [db' [[]|]]; cbn in *; destruct_and?; split; auto using shared_held_owner.
    split; [done|]. unfold shared_held. match goal with H : owner db' h = _ |- _ => rewrite H end. done.
  - intros env h t target db I. cbn.
    pose proof (release_owner env h t target db) as R.
    pose proof (so_inv _ _ _ (release_scaleset_step db I env h t target)) as S.
    destruct (run_tx _ db) as [db' r]. cbn in S. destruct R as [O R]. cbn in *.
    split; [exact S|]. split; [intros h' N; destruct (O h' N); split; [by apply shared_held_owner|done]|].
    destruct r as [[]|]; cbn in R; try done.
    + destruct R as (R1 & R2 & R3 & R4). unfold shared_held at 1 2. rewrite R1, R2. done.
    + destruct R as (R1 & R2 & ->). split_and!; try done. unfold shared_held, owner. by rewrite R1.
  - intros env h t target db I T RT N D. cbn. apply release_owner_again; [done..| |done].
    by apply shared_held_None.
Defined.
