(* ===== verification/ScaleProcessor.v ===== *)
(** * Scale sets: the step function

    [Processor::scale] of [crates/velnor-runner/src/scaleset/scale.rs] and
    everything it calls: observations of assigned, started and completed jobs,
    the offer queue and its trust gate ([scaleset/demand.rs]), the reserve and
    acquire pass, provisioning and convergence ([scaleset/converge.rs]). Each
    method is a program over the permit ledger and the state database; the
    ledger is any [CapacityLedger], the worker lane any [WorkerLane]. Metrics
    and log lines are left out. *)

From Stdlib Require Import ZArith Lia.
From stdpp Require Import base gmap sets list strings sorting.
From S2P Require Import Prelude Numerals LedgerData ScaleIds ScaleData ScaleStores ScaleProg ScaleCapacity.
#[local] Open Scope Z_scope.

Definition INITIAL_MESSAGE_ID : Z := -1.
Definition MAX_ACQUIRE_BATCH : nat := 50.

Record ProcessorConfig := {
  cfg_scale_set_id : Z;
  cfg_runner_digest : string;
  cfg_dind_digest : string;
  cfg_max_acquire_batch : nat;
}.

(** [trait WorkerLane]: its methods are programs of their own. *)
Class WorkerLane (L W LErr : Type) := {
  lane_provision : string -> ProvisionIntent -> prog L W LErr unit;
  lane_note_assigned : ScaleSetJobMessage -> string -> prog L W LErr unit;
  lane_note_started : ScaleSetJobStarted -> string -> prog L W LErr unit;
  lane_note_terminal : ScaleSetJobCompleted -> string -> prog L W LErr unit;
  lane_note_canceled : Z -> string -> prog L W LErr unit;
}.

(** [Timestamp::parse(..).as_offset_datetime().unix_timestamp()], by the
    [time] crate. *)
Class Rfc3339 := parse_unix : string -> option Z.

Inductive PopulationDecision :=
| AcquireMore (desired local headroom : Z)
| Hold (desired local : Z).

Definition reconcile_population (stats : RunnerScaleSetStatistic) (local : Z) : PopulationDecision :=
  let desired := desired_runners stats in
  if local <? desired then AcquireMore desired local (desired - local) else Hold desired local.

Definition POPULATION_STATES : list OfferState :=
  [DAcquireIntent; DAcquired; DUncertain; DCanceledPending; DCanceledAcquired; DProvisionIntent].

Definition local_population (scale_set_id : Z) (db : StateDb) : Z :=
  match u32_try_from (count_in_states scale_set_id POPULATION_STATES db) with
  | Some n => n | None => u32_max end.

Inductive OwnedReleaseKind := KEligible | KCanceled | KTerminal.
Definition kind_target (kind : OwnedReleaseKind) : DemandState :=
  match kind with KEligible => Eligible | KCanceled => Cancelled | KTerminal => Terminal end.

Inductive ScaleKind := KInitial | KNil | KMessage (message_id : Z).

Record ScaleOutcome := {
  out_kind : ScaleKind;
  out_assigned : nat;
  out_started : nat;
  out_completed : nat;
  out_offers_seen : nat;
  out_offers_submitted : nat;
  out_granted : nat;
  out_acquired : list Z;
  out_missing : list Z;
  out_uncertain : list Z;
  out_provisioned : list Z;
  out_decision : option PopulationDecision;
}.

Section Processor.
Context {L W : Type} `{CL : CapacityLedger L} `{WL : !WorkerLane L W ledger_error}.
Context `{SHA : Sha256} `{RFC : Rfc3339} (config : ProcessorConfig).
Abbreviation cprog := (prog L W ledger_error).
Abbreviation set_id := (cfg_scale_set_id config).
Abbreviation store_refused why := (EStore (Refused why)).

Definition read_generation : cprog Z := ledger_read "read ledger generation" cl_generation.

Definition get_row (request_id : Z) : cprog (option Demand) := read (get_demand request_id).

(** A row that another statement of this process has just seen. *)
Definition get_present (why : string) (request_id : Z) : cprog Demand :=
  row ← get_row request_id;
  match row with Some row => mret row | None => Failed_ (store_refused why) end.

Definition held_now (holder : string) : cprog bool :=
  state ← ledger_read "read holder state" (cl_holder_state holder);
  mret (match state with Some _ => true | None => false end).

Definition required_attempt_token (row : Demand) : cprog string :=
  match dm_permit_attempt_token row with
  | Some token => if decide (token = ""%string)
                  then Failed_ (store_refused "held request has no permit attempt token")
                  else mret token
  | None => Failed_ (store_refused "held request has no permit attempt token")
  end.

(** [set_state_owned] when the row carries a token, [set_state] otherwise. *)
Definition set_row_state (request_id : Z) (token : option string) (state : OfferState)
    (reason : option string) (generation : Z) : cprog unit :=
  match token with
  | Some token => store (set_state_owned request_id state reason generation token)
  | None => store (set_state request_id state reason generation)
  end.

(** ** Releases *)

Definition release_attempt (holder attempt_token : string) (kind : OwnedReleaseKind) : cprog bool :=
  if decide (attempt_token = ""%string)
  then Failed_ (ELedger "refusing tokenless permit release")
  else
  outcome ← ledger_call "release permit"
    (fun env l => cl_release_staged env holder attempt_token (kind_target kind) l);
  match outcome with
  | Released => mret true
  | AlreadyAbsent => mret false
  | ReleaseStaleAttempt => Failed_ (ELedger "permit is held by a different attempt token")
  end.

Definition finish_release (holder : string) : cprog unit :=
  generation ← read_generation;
  store (finish_attempt_release holder generation);;
  mret tt.

Definition release_with_projection_batch (request_id : Z) (attempt_token : string)
    (kind : OwnedReleaseKind) (next_state : OfferState) (batch_id : option string) : cprog bool :=
  let holder := permit_holder set_id request_id in
  match batch_id with
  | Some batch_id =>
      store (fun _ => stage_attempt_release_for_batch holder set_id request_id attempt_token
                        (kind_target kind) (Some next_state) batch_id)
  | None =>
      store (fun _ => stage_attempt_release holder set_id request_id attempt_token
                        (kind_target kind) (Some next_state) None)
  end;;
  released ← release_attempt holder attempt_token kind;
  finish_release holder;;
  mret released.

Definition release_with_projection (request_id : Z) (attempt_token : string)
    (kind : OwnedReleaseKind) (next_state : OfferState) : cprog bool :=
  release_with_projection_batch request_id attempt_token kind next_state None.

Definition stage_kind (stage : StagedAttemptRelease) : option OwnedReleaseKind :=
  match sr_ledger_demand_state stage with
  | Eligible => Some KEligible
  | Cancelled => Some KCanceled
  | Terminal => Some KTerminal
  | Granted | Waiting => None
  end.

Definition recover_stage (stage : StagedAttemptRelease) : cprog unit :=
  match sr_worker_ownership_id stage with
  | Some _ => mret tt
  | None =>
      match stage_kind stage with
      | None => Failed_ (store_refused "staged release has invalid ledger demand state")
      | Some kind =>
          release_attempt (sr_holder stage) (sr_attempt_token stage) kind;;
          finish_release (sr_holder stage)
      end
  end.

Definition recover_demand_release_stages : cprog unit :=
  stages ← read pending_attempt_releases;
  for_each recover_stage stages.

Definition require_no_pending_worker_releases : cprog unit :=
  stages ← read pending_attempt_releases;
  if existsb (fun stage => match sr_worker_ownership_id stage with Some _ => true | None => false end)
       stages
  then Failed_ (store_refused "Scale Set worker release awaits lane recovery; refusing new work")
  else mret tt.

(** ** The host-wide demand queue *)

Definition observe_global_demand (row : Demand) : cprog unit :=
  match parse_unix (dm_first_seen_at row) with
  | None => Failed_ (store_refused "parse durable Scale Set first-seen time")
  | Some first_seen =>
      if first_seen <? 0
      then Failed_ (store_refused "Scale Set first-seen time predates Unix epoch")
      else ledger_call "observe demand" (fun env l =>
        cl_observe_demand env (permit_holder (dm_scale_set_id row) (dm_request_id row)) LaneScaleSet
          ("scaleset/" +:+ signed_to_string (dm_scale_set_id row)) first_seen (unix_now env) l)
  end.

Definition cancel_global_demand (holder : string) : cprog unit :=
  ledger_call "cancel demand" (fun env l => cl_cancel_demand env holder l);; mret tt.

Definition sync_global_demand (row : Demand) : cprog unit :=
  let holder := permit_holder (dm_scale_set_id row) (dm_request_id row) in
  match dm_state row with
  | DObserved | DDeclined =>
      held ← held_now holder;
      if (held : bool) then Failed_ (store_refused "non-permit demand still has a held permit")
      else cancel_global_demand holder
  | DTerminal | DCanceledPending | DCanceledAcquired => mret tt
  | DCanceledDone =>
      match dm_permit_attempt_token row with
      | Some attempt_token =>
          release_with_projection (dm_request_id row) attempt_token KCanceled DCanceledDone;; mret tt
      | None =>
          held ← held_now holder;
          if (held : bool) then Failed_ (store_refused "canceled demand has a permit but no attempt token")
          else cancel_global_demand holder
      end
  | DEligible | DGranted | DAcquireIntent | DAcquired | DUncertain | DProvisionIntent =>
      observe_global_demand row
  end.

Definition ensure_attempt_token (row : Demand) : cprog string :=
  let holder := permit_holder (dm_scale_set_id row) (dm_request_id row) in
  match dm_permit_attempt_token row with
  | None => Failed_ (store_refused "active demand has no captured attempt token")
  | Some attempt_token =>
      if decide (attempt_token = ""%string)
      then Failed_ (store_refused "active demand has no captured attempt token")
      else
      current ← ledger_read "check current attempt" (cl_is_current_attempt holder attempt_token);
      if (current : bool) then mret attempt_token
      else Failed_ (store_refused "persisted permit token is stale")
  end.

(** [fenced_transition]: a stale generation is read again and retried once. *)
Definition fenced_transition (wrap : string -> ScaleError) (holder : string)
    (state : LedgerPermitState) (generation : Z) (attempt_token : string) : cprog Z :=
  OnLedger (fun env l => cl_transition env holder state generation attempt_token l)
    (fun r => match r with
     | Ok _ => mret generation
     | Err error =>
         if is_stale_generation error then
           OnLedger (fun _ l => (l, cl_generation l)) (fun r =>
             match r with
             | Err _ => Failed_ (wrap "re-read ledger generation"%string)
             | Ok fresh =>
                 OnLedger (fun env l => cl_transition env holder state fresh attempt_token l)
                   (fun r => match r with
                    | Ok _ => mret fresh
                    | Err _ => Failed_ (wrap "transition ledger holder"%string)
                    end)
             end)
         else Failed_ (wrap "transition ledger holder"%string)
     end).

Definition as_store (why : string) : ScaleError := store_refused why.

(** ** Cancellations *)

Definition drain_one_canceled (completed : nat) (entry : Z * OfferState) : cprog nat :=
  let '(request_id, state) := entry in
  row ← get_present "canceled demand row vanished" request_id;
  attempt_token ← required_attempt_token row;
  (if decide (state = DCanceledAcquired) then lane_note_canceled request_id attempt_token
   else mret tt);;
  release_with_projection request_id attempt_token KCanceled DTerminal;;
  mret (S completed).

Definition drain_canceled_acquisitions : cprog nat :=
  canceled ← read (list_in_states set_id [DCanceledAcquired; DCanceledDone]);
  for_fold drain_one_canceled canceled O.

Definition close_canceled_unacquired (request_id : Z) : cprog unit :=
  generation ← read_generation;
  row ← get_present "canceled demand row vanished" request_id;
  let holder := permit_holder set_id request_id in
  held ← held_now holder;
  let attempt_token := dm_permit_attempt_token row in
  (if (held : bool) then
     token ← required_attempt_token row;
     release_with_projection request_id token KCanceled DTerminal;;
     mret tt
   else
     set_row_state request_id attempt_token DCanceledDone None generation;;
     cancel_global_demand holder);;
  set_row_state request_id attempt_token DTerminal None generation.

(** ** Observations *)

Definition observe_assigned (assigned : ScaleSetJobMessage) : cprog bool :=
  generation ← read_generation;
  '(request_id, state) ← store (submit_assigned set_id assigned generation);
  match state with
  | DAcquired | DProvisionIntent | DCanceledAcquired =>
      row ← get_present "assigned demand row vanished" request_id;
      attempt_token ← ensure_attempt_token row;
      observe_global_demand row;;
      fenced_transition as_store (permit_holder set_id request_id) PAcquiring generation attempt_token;;
      lane_note_assigned assigned attempt_token;;
      mret true
  | _ => mret true
  end.

Definition observe_started (started : ScaleSetJobStarted) : cprog bool :=
  match request_id_for_runner set_id (started_runner_name started)
          (resolve_job_request_id (started_base started)) with
  | None => mret false
  | Some request_id =>
      found ← get_row request_id;
      match found with
      | None => mret false
      | Some row =>
          let holder := permit_holder set_id request_id in
          match dm_state row with
          | DTerminal | DDeclined => mret true
          | DCanceledPending =>
              generation ← read_generation;
              attempt_token ← required_attempt_token row;
              store (set_state_owned request_id DCanceledAcquired None generation attempt_token);;
              fenced_transition as_store holder PAcquiring generation attempt_token;;
              lane_note_started started attempt_token;;
              mret true
          | DCanceledAcquired =>
              attempt_token ← required_attempt_token row;
              lane_note_started started attempt_token;;
              mret true
          | DObserved | DEligible | DCanceledDone => mret true
          | DGranted | DAcquireIntent | DUncertain | DAcquired | DProvisionIntent =>
              generation ← read_generation;
              observe_global_demand row;;
              attempt_token ← ensure_attempt_token row;
              (match dm_state row with
               | DGranted | DAcquireIntent | DUncertain =>
                   store (set_state_owned request_id DProvisionIntent None generation attempt_token)
               | _ => mret tt
               end);;
              fenced_transition as_store holder PAcquiring generation attempt_token;;
              lane_note_started started attempt_token;;
              mret true
          end
      end
  end.

(** The end of [observe_completed]: the row goes terminal, a held permit goes
    to cleaning, and staked work is handed to the lane. *)
Definition complete_row (completed : ScaleSetJobCompleted) (request_id : Z) (row : Demand)
    (held canceled : bool) : cprog bool :=
  let holder := permit_holder set_id request_id in
  let attempt_token := dm_permit_attempt_token row in
  let staked := holds_permit (dm_state row) || held in
  generation ← read_generation;
  (if decide (dm_state row = DTerminal) then mret tt
   else set_row_state request_id attempt_token DTerminal None generation);;
  (if (held : bool) then
     match attempt_token with
     | None => Failed_ (store_refused "held request has no permit attempt token")
     | Some attempt_token =>
         fenced_transition ELedger holder PCleaning generation attempt_token;; mret tt
     end
   else mret tt);;
  (if staked then
     match attempt_token with
     | None => Failed_ (store_refused "owned request has no permit attempt token")
     | Some attempt_token => lane_note_terminal completed attempt_token
     end
   else if canceled then cancel_global_demand holder
   else mret tt);;
  mret true.

(** A canceled completion of a row whose acquire is not yet resolved. *)
Definition cancel_unresolved (request_id : Z) (row : Demand) : cprog bool :=
  let holder := permit_holder set_id request_id in
  batched ← (if decide (dm_state row = DAcquireIntent)
             then read (fun db => Ok (contains_request set_id request_id db)) else mret true);
  if negb (batched : bool) then
    observe_global_demand row;;
    close_canceled_unacquired request_id;;
    mret true
  else
  generation ← read_generation;
  match dm_permit_attempt_token row with
  | None => Failed_ (store_refused "canceled held request has no permit attempt token")
  | Some attempt_token =>
      fenced_transition ELedger holder PUncertain generation attempt_token;;
      store (set_state_owned request_id DCanceledPending None generation attempt_token);;
      mret true
  end.

Definition observe_completed (completed : ScaleSetJobCompleted) : cprog bool :=
  match request_id_for_runner set_id (completed_runner_name completed)
          (resolve_job_request_id (completed_base completed)) with
  | None => mret false
  | Some request_id =>
      found ← get_row request_id;
      match found with
      | None => mret false
      | Some row =>
          let holder := permit_holder set_id request_id in
          held ← held_now holder;
          let canceled := bool_decide (parse_wire (completed_result completed) = Some Canceled) in
          if bool_decide (dm_state row = DTerminal) && negb (held : bool) then
            (if (canceled : bool) then
               match dm_permit_attempt_token row with
               | Some attempt_token =>
                   release_with_projection request_id attempt_token KCanceled DTerminal;; mret tt
               | None =>
                   held ← held_now holder;
                   if (held : bool)
                   then Failed_ (store_refused "canceled terminal demand has a permit but no attempt token")
                   else cancel_global_demand holder
               end
             else mret tt);;
            mret true
          else if canceled then
            match dm_state row with
            | DObserved | DDeclined | DCanceledDone =>
                close_canceled_unacquired request_id;; mret true
            | DEligible | DGranted =>
                observe_global_demand row;;
                close_canceled_unacquired request_id;;
                mret true
            | DAcquireIntent | DUncertain | DCanceledPending => cancel_unresolved request_id row
            | DCanceledAcquired | DAcquired | DProvisionIntent | DTerminal =>
                complete_row completed request_id row held canceled
            end
          else complete_row completed request_id row held canceled
      end
  end.

(** ** Granting *)

Definition reset_stale_grants (scale_set_id generation : Z) : cprog nat :=
  stale ← read (fun db => Ok (stale_grants scale_set_id generation db));
  for_each (fun '(request_id, token) => set_row_state request_id token DEligible None generation) stale;;
  mret (length stale).

Definition row_probe (row : Demand) : OfferProbe := {|
  probe_event_name := dm_event_name row;
  probe_owner_name := dm_repo_owner row;
  probe_repository_name := dm_repo_name row |}.

Definition grant_one (generation : Z) (granted : list Demand) (candidate : Demand)
    : cprog (list Demand) :=
  match classify_probe (row_probe candidate) with
  | Trusted =>
      set_row_state (dm_request_id candidate) (dm_permit_attempt_token candidate) DGranted None
        generation;;
      mret (granted ++ [candidate])
  | Unknown reason =>
      set_row_state (dm_request_id candidate) (dm_permit_attempt_token candidate) DObserved
        (Some reason) generation;;
      mret granted
  end.

Definition grant_oldest (generation : Z) : cprog (list Demand) :=
  reset_stale_grants set_id generation;;
  candidates ← read (oldest_offers_eligible set_id 512);
  for_fold (grant_one generation) candidates [].

(** ** The reserve and acquire pass *)

Record Taken := { tk_request_id : Z; tk_holder : string; tk_attempt_token : string }.

(** Reserve oldest first; the first exhausted permit ends the loop. *)
Fixpoint reserve_candidates (candidates : list Demand) (generation : Z) (taken : list Taken)
    (staged : list StagedAttemptAcquire) : cprog (Z * list Taken * list StagedAttemptAcquire) :=
  match candidates with
  | [] => mret (generation, taken, staged)
  | candidate :: candidates =>
      let request_id := dm_request_id candidate in
      let holder := permit_holder set_id request_id in
      attempt_token ← FreshToken mret;
      stage ← store (fun _ => stage_attempt_acquire holder set_id request_id
                                (dm_permit_attempt_token candidate) attempt_token);
      reserved ← reserve_for_offer_with_token holder generation attempt_token;
      match reserved with
      | (Reserved_ acquired_token, landed) =>
          if decide (acquired_token ≠ attempt_token)
          then Failed_ (store_refused "ledger returned a different token for staged acquire")
          else
          store (finish_attempt_acquire stage true);;
          reserve_candidates candidates landed
            (taken ++ [{| tk_request_id := request_id; tk_holder := holder;
                          tk_attempt_token := acquired_token |}])
            (staged ++ [stage])
      | (ReserveAlreadyHeld, _) =>
          Failed_ (store_refused "ledger already holds the offer without transferring ownership")
      | (CapacityExhausted, landed) | (ReserveNotConfigured, landed) =>
          store (finish_attempt_acquire stage false);;
          mret (landed, taken, staged)
      end
  end.

(** [taken.iter().find(|(id, _, _)| id == request_id)]. *)
Definition taken_token (taken : list Taken) (request_id : Z) : cprog string :=
  match List.find (fun t => tk_request_id t =? request_id) taken with
  | Some t => mret (tk_attempt_token t)
  | None => Failed_ (store_refused "reserved request has no captured permit token")
  end.

Definition set_taken_state (taken : list Taken) (state : OfferState) (generation : Z)
    (request_id : Z) : cprog unit :=
  attempt_token ← taken_token taken request_id;
  store (set_state_owned request_id state None generation attempt_token).

Definition settle_acquired (taken : list Taken) (generation : Z) (request_id : Z) : cprog unit :=
  set_taken_state taken DAcquired generation request_id;;
  attempt_token ← taken_token taken request_id;
  fenced_transition ELedger (permit_holder set_id request_id) PAcquiring generation attempt_token;;
  mret tt.

Definition stage_missing (taken : list Taken) (staged : list (Z * string)) (request_id : Z)
    : cprog (list (Z * string)) :=
  attempt_token ← taken_token taken request_id;
  mret (staged ++ [(request_id, attempt_token)]).

Definition release_missing (taken : list Taken) (batch_id : string) (request_id : Z) : cprog unit :=
  attempt_token ← taken_token taken request_id;
  release_with_projection_batch request_id attempt_token KEligible DEligible (Some batch_id);;
  mret tt.

(** Step 4: the answer of [acquirejobs] reconciled as sets. *)
Definition settle_answer (taken : list Taken) (batch_id : string) (request_ids returned : list Z)
    (generation : Z) : cprog (list Z * list Z * list Z) :=
  let '(acquired, missing) := reconcile_returned_ids request_ids returned in
  for_each (settle_acquired taken generation) acquired;;
  missing_releases ← for_fold (stage_missing taken) missing [];
  store (fun _ => stage_attempt_releases_for_batch set_id batch_id missing_releases);;
  for_each (release_missing taken batch_id) missing;;
  store (resolve_batch batch_id false);;
  mret (acquired, missing, []).

Definition acquire_batch (taken : list Taken) (staged : list StagedAttemptAcquire) (generation : Z)
    : cprog (list Z * list Z * list Z) :=
  let request_ids := tk_request_id <$> taken in
  batch_id ← MintBatch mret;
  store (record_intended batch_id set_id request_ids (tk_holder <$> taken)
           (tk_attempt_token <$> taken) generation);;
  for_each (fun stage => store (fun _ => finish_attempt_acquire_batch stage);; mret tt) staged;;
  for_each (set_taken_state taken DAcquireIntent generation) request_ids;;
  answer ← AcquireJobs request_ids mret;
  match answer with
  | None =>
      for_each (set_taken_state taken DUncertain generation) request_ids;;
      store (resolve_batch batch_id true);;
      mret ([], [], request_ids)
  | Some returned => settle_answer taken batch_id request_ids returned generation
  end.

Definition local_count : cprog Z := read (fun db => Ok (local_population set_id db)).

Definition acquire_pass (stats : option RunnerScaleSetStatistic) : cprog (list Z * list Z * list Z) :=
  match stats with
  | None => mret ([], [], [])
  | Some stats =>
      local ← local_count;
      let headroom := match reconcile_population stats local with
                      | AcquireMore _ _ headroom => headroom
                      | Hold _ _ => 0
                      end in
      if headroom =? 0 then mret ([], [], [])
      else
      candidates ← read (oldest_granted set_id (Nat.min (Z.to_nat headroom) (cfg_max_acquire_batch config)));
      match candidates with
      | [] => mret ([], [], [])
      | _ =>
          for_each observe_global_demand candidates;;
          generation ← read_generation;
          '(generation, taken, staged) ← reserve_candidates candidates generation [] [];
          match taken with
          | [] => mret ([], [], [])
          | _ => acquire_batch taken staged generation
          end
      end
  end.

(** ** Provisioning *)

Definition ensure_provision_intent (request_id attempt generation : Z) (attempt_token : string)
    : cprog unit :=
  let name := runner_name set_id request_id in
  let operation_id := provision_operation_id set_id request_id attempt in
  intent ← store (record_intent operation_id (provision_ownership_id set_id name) set_id request_id
                    name (cfg_runner_digest config) (cfg_dind_digest config) attempt_token generation);
  lane_provision operation_id intent.

Definition provision_one (provisioned : list Z) (entry : Z * OfferState) : cprog (list Z) :=
  let request_id := entry.1 in
  generation ← read_generation;
  row ← get_present "acquired demand row vanished" request_id;
  attempt_token ← required_attempt_token row;
  ensure_provision_intent request_id 0 generation attempt_token;;
  store (set_state_owned request_id DProvisionIntent None generation attempt_token);;
  mret (provisioned ++ [request_id]).

Definition provision_pass : cprog (list Z) :=
  acquired ← read (list_in_states set_id [DAcquired]);
  for_fold provision_one (take (cfg_max_acquire_batch config) acquired) [].

(** ** The step function *)

Definition decide_population (stats : option RunnerScaleSetStatistic)
    : cprog (option PopulationDecision) :=
  match stats with
  | None => mret None
  | Some stats => local ← local_count; mret (Some (reconcile_population stats local))
  end.

Definition scale_idle (cached : option RunnerScaleSetStatistic) : cprog ScaleOutcome :=
  recover_demand_release_stages;;
  require_no_pending_worker_releases;;
  generation ← read_generation;
  eligible ← read (oldest_offers_eligible set_id 512);
  for_each observe_global_demand eligible;;
  granted ← grant_oldest generation;
  for_each observe_global_demand granted;;
  '(acquired, missing, uncertain) ← acquire_pass cached;
  canceled ← drain_canceled_acquisitions;
  provisioned ← provision_pass;
  decision ← decide_population cached;
  mret {|
    out_kind := KNil; out_assigned := 0; out_started := 0; out_completed := canceled;
    out_offers_seen := 0; out_offers_submitted := 0; out_granted := length granted;
    out_acquired := acquired; out_missing := missing; out_uncertain := uncertain;
    out_provisioned := provisioned; out_decision := decision |}.

Definition scale_initial (message : RunnerScaleSetMessage) : cprog ScaleOutcome :=
  match statistics message with
  | None => Failed_ EMissingInitialStats
  | Some stats =>
      local ← local_count;
      mret {|
        out_kind := KInitial; out_assigned := 0; out_started := 0; out_completed := 0;
        out_offers_seen := 0; out_offers_submitted := 0; out_granted := 0;
        out_acquired := []; out_missing := []; out_uncertain := [];
        out_provisioned := []; out_decision := Some (reconcile_population stats local) |}
  end.

(** [if self.observe(x)? { counter += 1 }]. *)
Definition count_if {X} (observe : X -> cprog bool) (n : nat) (x : X) : cprog nat :=
  b ← observe x; mret (if (b : bool) then S n else n).

Definition queue_offer (generation : Z) (submitted : nat) (offer : ScaleSetJobMessage) : cprog nat :=
  outcome ← store (submit_offer set_id offer generation);
  row ← get_row (resolve_job_request_id offer);
  (match row with Some row => sync_global_demand row | None => mret tt end);;
  mret (match outcome with Inserted _ => S submitted | _ => submitted end).

Definition require_row (offer : ScaleSetJobMessage) : cprog unit :=
  let request_id := resolve_job_request_id offer in
  row ← get_row request_id;
  match row with Some _ => mret tt | None => Failed_ (EOfferWithoutRow request_id) end.

(** [message.statistics.or(self.cached_stats)]. *)
Definition stats_or (stats cached : option RunnerScaleSetStatistic) : option RunnerScaleSetStatistic :=
  match stats with Some _ => stats | None => cached end.

Definition scale_message (cached : option RunnerScaleSetStatistic) (message : RunnerScaleSetMessage)
    : cprog ScaleOutcome :=
  let cached := stats_or (statistics message) cached in
  let offered : gset Z := list_to_set (resolve_job_request_id <$> job_available_messages message) in
  let is_offered a := bool_decide (resolve_job_request_id a ∈ offered) in
  assigned ← for_fold (count_if (fun a => if is_offered a then mret false else observe_assigned a))
               (job_assigned_messages message) O;
  started ← for_fold (count_if observe_started) (job_started_messages message) O;
  completed ← for_fold (count_if observe_completed) (job_completed_messages message) O;
  recover_demand_release_stages;;
  require_no_pending_worker_releases;;
  generation ← read_generation;
  submitted ← for_fold (queue_offer generation) (job_available_messages message) O;
  granted ← grant_oldest generation;
  for_each observe_global_demand granted;;
  '(acquired, missing, uncertain) ← acquire_pass (stats_or (statistics message) cached);
  assigned ← for_fold (count_if (fun a => if is_offered a then observe_assigned a else mret false))
               (job_assigned_messages message) assigned;
  canceled ← drain_canceled_acquisitions;
  provisioned ← provision_pass;
  for_each require_row (job_available_messages message);;
  decision ← decide_population (stats_or (statistics message) cached);
  mret {|
    out_kind := KMessage (message_id message);
    out_assigned := assigned; out_started := started; out_completed := completed + canceled;
    out_offers_seen := length (job_available_messages message);
    out_offers_submitted := submitted; out_granted := length granted;
    out_acquired := acquired; out_missing := missing; out_uncertain := uncertain;
    out_provisioned := provisioned; out_decision := decision |}.

Definition scale (cached : option RunnerScaleSetStatistic) (message : option RunnerScaleSetMessage)
    : cprog ScaleOutcome :=
  match message with
  | None => scale_idle cached
  | Some message =>
      if message_id message =? INITIAL_MESSAGE_ID then scale_initial message
      else scale_message cached message
  end.

End Processor.
