(* ===== verification/ScaleReconcile.v ===== *)
(** * Scale sets: recovery

    [crates/velnor-runner/src/scaleset/reconcile.rs]: the recovery a restarted
    adapter runs before it advertises capacity ([startup]) and the bounded
    work of an idle poll ([idle_poll]), as programs over the two databases.
    Metrics and log lines are left out. *)

From Stdlib Require Import ZArith Lia.
From stdpp Require Import base gmap sets list strings sorting.
From S2P Require Import Prelude Numerals LedgerData ScaleIds ScaleData ScaleStores ScaleProg ScaleCapacity ScaleProcessor.
#[local] Open Scope Z_scope.

Definition UNCERTAIN_REACQUIRE_AFTER : Z := 60.

Definition PERMIT_STATES : list OfferState :=
  [DGranted; DAcquireIntent; DAcquired; DUncertain; DCanceledPending; DCanceledAcquired; DProvisionIntent].

Record StartupReport := {
  st_generation : Z;
  st_stale_grants_reset : nat;
  st_unbatched_acquire_intents_recovered : nat;
  st_adopted : list string;
  st_marked_uncertain : list string;
  st_confirmed : list string;
  st_batches_orphaned : nat;
}.

Record IdleReport := {
  id_batches_resolved : nat;
  id_reacquired_batches : nat;
  id_reacquire_failed : bool;
}.

(** What recovery asks of the worker lane and of the process table. *)
Class RecoveryLane (L W LErr : Type) := {
  lane_owns_terminal_cleanup : Z -> prog L W LErr bool;
  lane_worker_released_pending_observation : Z -> prog L W LErr bool;
  pid_alive : Z -> prog L W LErr bool;
}.

(** [batch_attempt_token]. *)
Definition batch_attempt_token (batch : AcquireBatch) (request_id : Z) : result string StoreFailure :=
  match ab_attempt_tokens batch with
  | None => Err (Refused "acquire batch has no attempt tokens; recovery fails closed")
  | Some tokens =>
      if decide (length tokens ≠ length (ab_request_ids batch))
      then Err (Refused "acquire batch has misaligned attempt tokens")
      else match position request_id (ab_request_ids batch) with
      | None => Err (Refused "request is not in batch")
      | Some index =>
          match tokens !! index with
          | Some (Some token) =>
              if decide (token = ""%string) then Err (Refused "acquire batch has an empty attempt token")
              else Ok token
          | _ => Err (Refused "acquire batch member has no owner token")
          end
      end
  end.

Section Reconcile.
Context {L W : Type} `{CL : CapacityLedger L} `{RL : !RecoveryLane L W ledger_error}.
Context `{RFC : Rfc3339} (scale_set_id : Z).
Abbreviation cprog := (prog L W ledger_error).
Abbreviation store_refused why := (EStore (Refused why)).
Abbreviation bail_ why := (Failed_ (store_refused why)).

(** [x?] on a store error. *)
Definition try_ {A} (x : result A StoreFailure) : cprog A :=
  match x with Ok a => mret a | Err e => Failed_ (EStore e) end.

Definition active_attempt_token (row : Demand) : cprog string :=
  match dm_permit_attempt_token row with
  | Some token => if decide (token = ""%string) then bail_ "active demand has no permit attempt token"
                  else mret token
  | None => bail_ "active demand has no permit attempt token"
  end.

Definition is_current (holder token : string) : cprog bool :=
  ledger_read "check current attempt" (cl_is_current_attempt holder token).

(** The holder's record, with the caller's process. *)
Definition require_dead_holder (holder : string) : cprog unit :=
  '(records, own_pid) ← ledger_call "list permit holders" (fun env l =>
     (l, result_bind (cl_holders l) (fun hs => Ok (hs, process_id env))));
  match List.find (fun record => String.eqb (lh_holder record) holder) records with
  | None => bail_ "permit holder disappeared during recovery"
  | Some record =>
      if decide (lh_lane record ≠ LaneScaleSet) then bail_ "permit belongs to another lane"
      else match lh_pid record with
      | None => bail_ "Scale Set permit has no owner pid; recovery fails closed"
      | Some pid =>
          if pid =? own_pid then bail_ "Scale Set permit still has a live owner pid"
          else
          alive ← pid_alive pid;
          if (alive : bool) then bail_ "Scale Set permit still has a live owner pid" else mret tt
      end
  end.

Definition owned_release (set_id request_id : Z) (holder attempt_token : string) (kind : OwnedReleaseKind)
    (next_demand_state : OfferState) : cprog bool :=
  store (fun _ => stage_attempt_release holder set_id request_id attempt_token (kind_target kind)
                    (Some next_demand_state) None);;
  outcome ← ledger_call "release permit"
    (fun env l => cl_release_staged env holder attempt_token (kind_target kind) l);
  released ← (match outcome with
              | Released => mret true
              | AlreadyAbsent => mret false
              | ReleaseStaleAttempt => bail_ "permit belongs to a different attempt token"
              end);
  finish_release holder;;
  mret released.

(** [if !owned_release(..)? { bail!(..) }]. *)
Definition must_release (why : string) (set_id request_id : Z) (holder attempt_token : string)
    (kind : OwnedReleaseKind) (next_demand_state : OfferState) : cprog unit :=
  released ← owned_release set_id request_id holder attempt_token kind next_demand_state;
  if (released : bool) then mret tt else bail_ why.

(** ** [startup] *)

Definition recover_unbatched (recovered : nat) (entry : Z * OfferState) : cprog nat :=
  let '(request_id, state) := entry in
  batched ← read (fun db => Ok (contains_request scale_set_id request_id db));
  if (batched : bool) then mret recovered
  else
  let holder := permit_holder scale_set_id request_id in
  row ← get_present "unbatched demand vanished" request_id;
  attempt_token ← active_attempt_token row;
  require_dead_holder holder;;
  (if decide (state = DCanceledPending)
   then must_release "unbatched canceled permit no longer exists" scale_set_id request_id holder attempt_token
          KCanceled DCanceledDone
   else must_release "unbatched permit no longer exists" scale_set_id request_id holder attempt_token
          KEligible DEligible);;
  mret (S recovered).

(** A member of an open batch must be the attempt on record everywhere. *)
Definition check_member (batch : AcquireBatch) (member : Z * option string) : cprog unit :=
  let '(request_id, batch_token) := member in
  row ← get_present "batch demand vanished" request_id;
  let holder := permit_holder (ab_scale_set_id batch) request_id in
  state ← ledger_read "read holder state" (cl_holder_state holder);
  match batch_token, dm_permit_attempt_token row, state with
  | Some batch_token, Some demand_token, Some _ =>
      if decide (batch_token = demand_token) then
        current ← is_current holder batch_token;
        if (current : bool) then mret tt
        else bail_ "open acquire batch member belongs to another attempt"
      else bail_ "open acquire batch member belongs to another attempt"
  | Some batch_token, Some demand_token, None =>
      if decide (batch_token = demand_token ∧ holds_permit (dm_state row) = false) then mret tt
      else bail_ "open acquire batch member has no matching permit"
  | None, None, None =>
      if holds_permit (dm_state row)
      then bail_ "open acquire batch and demand attempt tokens disagree"
      else mret tt
  | None, None, Some _ => bail_ "open acquire batch member has no matching permit"
  | _, _, _ => bail_ "open acquire batch and demand attempt tokens disagree"
  end.

Definition mark_member (generation : Z) (member : Z * option string) : cprog unit :=
  let '(request_id, batch_token) := member in
  row ← get_row request_id;
  match row with
  | Some row =>
      match dm_state row with
      | DGranted | DAcquireIntent =>
          match batch_token with
          | Some token => store (set_state_owned request_id DUncertain None generation token)
          | None => bail_ "active batch member has no attempt token"
          end
      | _ => mret tt
      end
  | None => mret tt
  end.

Definition orphan_batch (generation : Z) (orphaned : nat) (batch : AcquireBatch) : cprog nat :=
  match ab_attempt_tokens batch with
  | None => bail_ "open acquire batch has no attempt tokens; recovery fails closed"
  | Some tokens =>
      if decide (length tokens ≠ length (ab_request_ids batch))
      then bail_ "open acquire batch has misaligned attempt tokens"
      else
      let members := zip (ab_request_ids batch) tokens in
      for_each (check_member batch) members;;
      if decide (ab_state batch = Intended) then
        store (resolve_batch (ab_batch_id batch) true);;
        for_each (mark_member generation) members;;
        mret (S orphaned)
      else mret orphaned
  end.

Definition release_stale_grant (generation : Z) (entry : Z * OfferState) : cprog unit :=
  let request_id := entry.1 in
  row ← get_present "granted demand vanished" request_id;
  if decide (dm_generation row = generation) then mret tt
  else
  let holder := permit_holder scale_set_id request_id in
  held ← held_now holder;
  if (held : bool) then
    attempt_token ← active_attempt_token row;
    current ← is_current holder attempt_token;
    if (current : bool) then
      require_dead_holder holder;;
      must_release "stale grant permit changed owner during recovery" scale_set_id request_id holder attempt_token
        KEligible DEligible
    else bail_ "stale grant permit belongs to another attempt"
  else mret tt.

Definition confirm_row (holders : list LedgerHolder) (confirmed : list string)
    (entry : Z * OfferState) : cprog (list string) :=
  let '(request_id, state) := entry in
  row ← get_present "active demand vanished" request_id;
  let holder := permit_holder scale_set_id request_id in
  confirmed ← (match List.find (fun record => String.eqb (lh_holder record) holder) holders with
     | Some recorded =>
         attempt_token ← active_attempt_token row;
         if decide (lh_lane recorded ≠ LaneScaleSet)
         then bail_ "active Scale Set demand has a foreign permit lane"
         else
         current ← is_current holder attempt_token;
         if (current : bool) then mret (confirmed ++ [holder])
         else bail_ "active Scale Set demand belongs to another attempt"
     | None =>
         if decide (state = DGranted) then mret confirmed
         else
         released ← lane_worker_released_pending_observation request_id;
         if (released : bool) then mret confirmed
         else bail_ "active demand has no permit row; refusing holder-only adoption"
     end);
  (if decide (state = DUncertain ∨ state = DCanceledPending) then
     batched ← read (fun db => Ok (contains_request scale_set_id request_id db));
     if (batched : bool) then mret tt else bail_ "uncertain demand has no batch evidence"
   else mret tt);;
  mret confirmed.

Definition startup : cprog StartupReport :=
  generation ← read_generation;
  unbatched ← read (list_in_states scale_set_id [DAcquireIntent; DCanceledPending]);
  recovered ← for_fold recover_unbatched unbatched O;
  open ← read (fun db => open_batches scale_set_id (size (batches db)) db);
  orphaned ← for_fold (orphan_batch generation) open O;
  granted ← read (list_in_states scale_set_id [DGranted]);
  for_each (release_stale_grant generation) granted;;
  reset ← reset_stale_grants scale_set_id generation;
  holders ← ledger_read "list ledger holders" cl_holders;
  active ← read (list_in_states scale_set_id PERMIT_STATES);
  confirmed ← for_fold (confirm_row holders) active [];
  (match holders with
   | [] => ledger_call "adopt empty permit ledger" (fun env l => cl_reconcile_attempts env [] l);; mret tt
   | _ => mret tt
   end);;
  mret {|
    st_generation := generation; st_stale_grants_reset := reset;
    st_unbatched_acquire_intents_recovered := recovered; st_adopted := [];
    st_marked_uncertain := []; st_confirmed := confirmed; st_batches_orphaned := orphaned |}.

(** ** [idle_poll] *)

Definition fenced_release_orphan (set_id request_id : Z) (holder : string) (generation : Z)
    (attempt_token : string) : cprog bool :=
  fresh ← read_generation;
  if decide (fresh ≠ generation)
  then bail_ "ledger generation moved during idle resolve; retry under the fresh epoch"
  else owned_release set_id request_id holder attempt_token KTerminal DTerminal.

Definition settle_member (batch : AcquireBatch) (generation : Z) (member : Z * option Demand) : cprog unit :=
  let '(request_id, row) := member in
  match row with
  | None => mret tt
  | Some row =>
      let holder := permit_holder (ab_scale_set_id batch) request_id in
      held ← held_now holder;
      match dm_permit_attempt_token row with
      | Some attempt_token =>
          if decide (attempt_token = ""%string) then
            if holds_permit (dm_state row) || (held : bool)
            then bail_ "active batch member has no attempt token" else mret tt
          else
          batch_token ← try_ (batch_attempt_token batch request_id);
          if decide (batch_token ≠ attempt_token) then bail_ "batch and demand attempt tokens disagree"
          else
          current ← (if (held : bool) then is_current holder attempt_token else mret true);
          if negb (current : bool) then bail_ "batch member belongs to another attempt"
          else if negb (held : bool) && holds_permit (dm_state row)
          then bail_ "active batch member has no permit holder"
          else
          match dm_state row with
          | DAcquired | DCanceledAcquired =>
              fenced_transition ELedger holder PAcquiring generation attempt_token;; mret tt
          | DTerminal =>
              owned ← lane_owns_terminal_cleanup request_id;
              if (owned : bool) then mret tt
              else fenced_release_orphan (ab_scale_set_id batch) request_id holder generation attempt_token;; mret tt
          | _ => mret tt
          end
      | None =>
          if holds_permit (dm_state row) || (held : bool)
          then bail_ "active batch member has no attempt token" else mret tt
      end
  end.

Definition collect_row (rows : list (option Demand)) (request_id : Z) : cprog (list (option Demand)) :=
  row ← get_row request_id; mret (rows ++ [row]).

Definition unsettled (row : option Demand) : bool :=
  match row with
  | Some row => match dm_state row with DUncertain | DCanceledPending => true | _ => false end
  | None => false
  end.

Definition resolve_from_observations (generation : Z) (batch : AcquireBatch) : cprog bool :=
  states ← for_fold collect_row (ab_request_ids batch) [];
  if existsb unsettled states then mret false
  else
  for_each (settle_member batch generation) (zip (ab_request_ids batch) states);;
  store (resolve_batch (ab_batch_id batch) false);;
  mret true.

(** The members a second [acquirejobs] is sent for, and which of them a
    cancellation is pending for. *)
Definition collect_member (batch : AcquireBatch) (acc : list Z * gset Z) (request_id : Z)
    : cprog (list Z * gset Z) :=
  let '(members, canceled_pending) := acc in
  row ← get_row request_id;
  match row with
  | Some row =>
      match dm_state row with
      | DUncertain | DCanceledPending =>
          attempt_token ← active_attempt_token row;
          batch_token ← try_ (batch_attempt_token batch request_id);
          if decide (batch_token ≠ attempt_token) then bail_ "batch and demand attempt tokens disagree"
          else mret (members ++ [request_id],
                     if decide (dm_state row = DCanceledPending)
                     then {[request_id]} ∪ canceled_pending else canceled_pending)
      | _ => mret acc
      end
  | None => mret acc
  end.

(** The row of a member with its token checked against the batch. *)
Definition member_token (why : string) (batch : AcquireBatch) (request_id : Z) : cprog string :=
  row ← get_present why request_id;
  attempt_token ← active_attempt_token row;
  batch_token ← try_ (batch_attempt_token batch request_id);
  if decide (batch_token ≠ attempt_token) then bail_ "batch and demand attempt tokens disagree"
  else mret attempt_token.

Definition reacquired_member (batch : AcquireBatch) (canceled_pending : gset Z) (generation request_id : Z)
    : cprog unit :=
  attempt_token ← member_token "acquired demand vanished" batch request_id;
  store (set_state_owned request_id
    (if decide (request_id ∈ canceled_pending) then DCanceledAcquired else DAcquired)
    None generation attempt_token);;
  fenced_transition ELedger (permit_holder (ab_scale_set_id batch) request_id) PAcquiring generation
    attempt_token;;
  mret tt.

Definition missing_member (batch : AcquireBatch) (canceled_pending : gset Z) (request_id : Z) : cprog unit :=
  let holder := permit_holder (ab_scale_set_id batch) request_id in
  attempt_token ← member_token "missing demand vanished" batch request_id;
  if decide (request_id ∈ canceled_pending)
  then must_release "canceled permit disappeared during batch recovery" (ab_scale_set_id batch) request_id holder
         attempt_token
         KCanceled DCanceledDone
  else must_release "missing permit disappeared during batch recovery" (ab_scale_set_id batch) request_id holder
         attempt_token
         KEligible DEligible.

Definition reacquire_batch (generation : Z) (batch : AcquireBatch) : cprog bool :=
  '(uncertain, canceled_pending) ← for_fold (collect_member batch) (ab_request_ids batch) ([], ∅);
  match uncertain with
  | [] => store (resolve_batch (ab_batch_id batch) false);; mret true
  | _ =>
      answer ← AcquireJobs uncertain mret;
      match answer with
      | None => mret false
      | Some returned =>
          let '(acquired, missing) := reconcile_returned_ids uncertain returned in
          for_each (reacquired_member batch canceled_pending generation) acquired;;
          for_each (missing_member batch canceled_pending) missing;;
          store (resolve_batch (ab_batch_id batch) false);;
          mret true
      end
  end.

Definition clock : cprog Z := ledger_call "clock" (fun env l => (l, Ok (unix_now env))).

(** [batch_age(..).is_none_or(|age| age >= UNCERTAIN_REACQUIRE_AFTER)]. *)
Definition overdue (now : Z) (batch : AcquireBatch) : bool :=
  match parse_unix (ab_created_at batch) with
  | None => true
  | Some created => UNCERTAIN_REACQUIRE_AFTER <=? Z.max (now - created) 0
  end.

Definition count_resolved (generation : Z) (n : nat) (batch : AcquireBatch) : cprog nat :=
  resolved ← resolve_from_observations generation batch;
  mret (if (resolved : bool) then S n else n).

Definition idle_poll (generation : Z) : cprog IdleReport :=
  open ← read (open_batches scale_set_id 16);
  resolved ← for_fold (count_resolved generation) open O;
  now ← clock;
  match List.find (overdue now) open with
  | None => mret {| id_batches_resolved := resolved; id_reacquired_batches := 0; id_reacquire_failed := false |}
  | Some batch =>
      fresh ← read (get_batch (ab_batch_id batch));
      let still_open := match fresh with
                        | Some row => bool_decide (ab_state row = BatchUncertain) | None => false end in
      if still_open then
        reacquired ← reacquire_batch generation batch;
        mret (if (reacquired : bool)
              then {| id_batches_resolved := resolved; id_reacquired_batches := 1; id_reacquire_failed := false |}
              else {| id_batches_resolved := resolved; id_reacquired_batches := 0; id_reacquire_failed := true |})
      else mret {| id_batches_resolved := resolved; id_reacquired_batches := 0; id_reacquire_failed := false |}
  end.

End Reconcile.
