(* ===== verification/ScaleStoreProofs.v ===== *)
(** * Scale sets: what the stores keep

    Every store call keeps the age and the offer of a queued row, keeps an
    untrusted offer ungranted, and never lets a holder have two cross-database
    stages at once; all but the completion of an acquisition leave every owner
    token and every acquisition stage where they were. *)

From Stdlib Require Import ZArith Lia.
From stdpp Require Import base gmap sets list strings sorting.
From S2P Require Import Prelude Numerals LedgerData ScaleIds ScaleData ScaleStores.
#[local] Open Scope Z_scope.
#[local] Open Scope tx_scope.

(** ** Rows over time *)

Definition offer_probe (o : OfferRow) : OfferProbe := {|
  probe_event_name := o_event_name o;
  probe_owner_name := o_repo_owner o;
  probe_repository_name := o_repo_name o |}.

(** What an offer is, and its place in the queue. *)
Definition same_offer (o o' : OfferRow) : Prop :=
  o_scale_set_id o' = o_scale_set_id o ∧ o_first_seen_at o' = o_first_seen_at o
  ∧ o_sequence o' = o_sequence o ∧ offer_probe o' = offer_probe o.
#[export] Instance same_offer_preorder : PreOrder same_offer.
Proof.
  split; unfold same_offer; [done|].
  intros o1 o2 o3 (? & ? & ? & ?) (? & ? & ? & ?). split_and!; congruence.
Qed.

(** Rows are never removed and stay the same offers. *)
Definition offers_kept (s s' : StateDb) : Prop :=
  forall r o, offers s !! r = Some o -> exists o', offers s' !! r = Some o' ∧ same_offer o o'.
#[export] Instance offers_kept_preorder : PreOrder offers_kept.
Proof.
  split.
  - intros s r o E. exists o. split; [done|reflexivity].
  - intros s1 s2 s3 H1 H2 r o E. destruct (H1 r o E) as (o2 & E2 & S2).
    destruct (H2 r o2 E2) as (o3 & E3 & S3). exists o3. split; [done|]. by etransitivity.
Qed.

Lemma offers_kept_same s s' : offers s' = offers s -> offers_kept s s'.
Proof. intros O r o E. exists o. rewrite O. split; [done|reflexivity]. Qed.

(** Owner tokens and acquisition stages stay where they were. *)
Definition tokens_kept (s s' : StateDb) : Prop :=
  (forall r o, offers s !! r = Some o ->
     exists o', offers s' !! r = Some o' ∧ o_scale_set_id o' = o_scale_set_id o
                ∧ o_permit_attempt_token o' = o_permit_attempt_token o)
  ∧ (forall h a, acquires s !! h = Some a -> acquires s' !! h = Some a).
#[export] Instance tokens_kept_preorder : PreOrder tokens_kept.
Proof.
  split.
  - intros s. split; eauto.
  - intros s1 s2 s3 [H1 A1] [H2 A2]. split; [|eauto]. intros r o E.
    destruct (H1 r o E) as (o2 & E2 & S2 & T2). destruct (H2 r o2 E2) as (o3 & E3 & S3 & T3).
    exists o3. split_and!; congruence.
Qed.

(** A recorded batch keeps its members and their owner tokens. *)
Definition same_batch (b b' : BatchRow) : Prop :=
  b_scale_set_id b' = b_scale_set_id b ∧ b_request_ids b' = b_request_ids b
  ∧ b_holders b' = b_holders b ∧ b_attempt_tokens b' = b_attempt_tokens b.
#[export] Instance same_batch_preorder : PreOrder same_batch.
Proof.
  split; unfold same_batch; [done|].
  intros b1 b2 b3 (? & ? & ? & ?) (? & ? & ? & ?). split_and!; congruence.
Qed.

Definition batches_kept (s s' : StateDb) : Prop :=
  forall id b, batches s !! id = Some b -> exists b', batches s' !! id = Some b' ∧ same_batch b b'.
#[export] Instance batches_kept_preorder : PreOrder batches_kept.
Proof.
  split.
  - intros s id b E. exists b. split; [done|reflexivity].
  - intros s1 s2 s3 H1 H2 id b E. destruct (H1 id b E) as (b2 & E2 & S2).
    destruct (H2 id b2 E2) as (b3 & E3 & S3). exists b3. split; [done|]. by etransitivity.
Qed.

Lemma batches_kept_same s s' : batches s' = batches s -> batches_kept s s'.
Proof. intros B id b E. exists b. rewrite B. split; [done|reflexivity]. Qed.

Lemma batches_kept_insert s s' id b' :
  batches s' = <[id := b']> (batches s) ->
  (forall b, batches s !! id = Some b -> same_batch b b') -> batches_kept s s'.
Proof.
  intros B Sm id' b E. rewrite B. destruct (decide (id' = id)) as [->|].
  - rewrite lookup_insert_eq. eauto.
  - rewrite lookup_insert_ne by done. exists b. split; [done|reflexivity].
Qed.

(** What is never forgotten. *)
Definition history_kept (s s' : StateDb) : Prop := offers_kept s s' ∧ batches_kept s s'.
#[export] Instance history_kept_preorder : PreOrder history_kept.
Proof.
  split; [split; reflexivity|]. intros s1 s2 s3 [? ?] [? ?]. split; by etransitivity.
Qed.

(** The invariant of the state database. *)
Record good (s : StateDb) : Prop := {
  good_trust r o : offers s !! r = Some o -> o_state o = "granted"%string ->
                   classify_probe (offer_probe o) = Trusted;
  good_sequence r1 r2 o1 o2 : offers s !! r1 = Some o1 -> offers s !! r2 = Some o2 ->
                   o_sequence o1 = o_sequence o2 -> r1 = r2;
  good_stage h : is_Some (acquires s !! h) -> releases s !! h = None;
}.

Lemma good_empty : good empty_state.
Proof. split; intros *; cbn; rewrite ?lookup_empty; done. Qed.

(** A step of the state database that keeps every token. *)
Definition calm (s s' : StateDb) : Prop := good s -> good s' ∧ history_kept s s' ∧ tokens_kept s s'.

Lemma calm_refl s : calm s s.
Proof. intros G. split_and!; [done|reflexivity..]. Qed.
Lemma calm_trans s1 s2 s3 : calm s1 s2 -> calm s2 s3 -> calm s1 s3.
Proof.
  intros H1 H2 G. destruct (H1 G) as (G2 & K & T). destruct (H2 G2) as (G3 & K' & T').
  split_and!; [done|by etransitivity..].
Qed.
(** Offers and acquisitions stay, releases may go. *)
Lemma calm_fewer s s' :
  offers s' = offers s -> acquires s' = acquires s -> batches_kept s s' ->
  (forall h, releases s !! h = None -> releases s' !! h = None) -> calm s s'.
Proof.
  intros O A B R [G1 G2 G3]. split; [|split].
  - split; rewrite ?O, ?A; auto.
  - split; [by apply offers_kept_same|done].
  - split; rewrite ?O, ?A; eauto.
Qed.

Lemma calm_same s s' :
  offers s' = offers s -> acquires s' = acquires s -> releases s' = releases s ->
  batches_kept s s' -> calm s s'.
Proof. intros O A R B. apply calm_fewer; [done..|]. intros h. by rewrite R. Qed.

(** Only other tables change. *)
Lemma calm_aside s s' :
  offers s' = offers s -> acquires s' = acquires s -> releases s' = releases s -> batches s' = batches s ->
  calm s s'.
Proof. intros. apply calm_same; [done..|]. by apply batches_kept_same. Qed.

(** One row changes its state. *)
Lemma calm_update_offer s r o f :
  offers s !! r = Some o -> same_offer o (f o) ->
  o_permit_attempt_token (f o) = o_permit_attempt_token o ->
  (o_state (f o) = "granted"%string -> o_state o = "granted"%string ∨ classify_probe (offer_probe o) = Trusted) ->
  calm s (with_offers (<[r := f o]> (offers s)) s).
Proof.
  intros E S T Gr [G1 G2 G3]. split; [|split].
  - split; cbn; [| |done].
    + intros r' o'. rewrite lookup_insert_Some. intros [[<- <-]|[N E']]; [|eauto].
      intros St. destruct S as (_ & _ & _ & ->). destruct (Gr St); eauto.
    + intros r1 r2 o1 o2. rewrite !lookup_insert_Some.
      intros [[<- <-]|[N1 E1]] [[<- <-]|[N2 E2]] Q; try done; destruct S as (_ & _ & Sq & _);
        try rewrite Sq in Q; [by apply (G2 r r2 o o2)|by apply (G2 r1 r o1 o)|eauto].
  - split; [|by apply batches_kept_same]. intros r' o' E'. cbn. destruct (decide (r' = r)) as [->|].
    + rewrite lookup_insert_eq. assert (o' = o) as -> by congruence. eauto.
    + rewrite lookup_insert_ne by done. exists o'. split; [done|reflexivity].
  - split; cbn; [|done]. intros r' o' E'. destruct (decide (r' = r)) as [->|].
    + rewrite lookup_insert_eq. assert (o' = o) as -> by congruence. destruct S as (? & _). eauto.
    + rewrite lookup_insert_ne by done. eauto.
Qed.

(** A new offer. *)
Lemma calm_insert_offer s r o :
  offers s !! r = None -> ~ map_Exists (fun _ o' => o_sequence o' = o_sequence o) (offers s) ->
  o_state o ≠ "granted"%string -> calm s (with_offers (<[r := o]> (offers s)) s).
Proof.
  intros E Sq Gr [G1 G2 G3].
  assert (F : forall r' o', offers s !! r' = Some o' -> o_sequence o' ≠ o_sequence o).
  { intros r' o' E' Q. apply Sq. exists r', o'. done. }
  split; [|split].
  - split; cbn; [| |done].
    + intros r' o'. rewrite lookup_insert_Some. intros [[<- <-]|[N E']]; [done|eauto].
    + intros r1 r2 o1 o2. rewrite !lookup_insert_Some.
      intros [[<- <-]|[N1 E1]] [[<- <-]|[N2 E2]] Q; try done; try eauto.
      * by destruct (F _ _ E2).
      * by destruct (F _ _ E1).
  - split; [|by apply batches_kept_same].
    intros r' o' E'. cbn. rewrite lookup_insert_ne by congruence. exists o'. split; [done|reflexivity].
  - split; cbn; [|done]. intros r' o' E'. rewrite lookup_insert_ne by congruence. eauto.
Qed.

(** Stages are added for a holder without another stage. *)
Lemma calm_add_release s h r :
  acquires s !! h = None -> calm s (with_releases (<[h := r]> (releases s)) s).
Proof.
  intros A [G1 G2 G3]. split; [|split; [split; [by apply offers_kept_same|by apply batches_kept_same]|split; eauto]].
  split; cbn; [done..|]. intros h' [a Ea]. rewrite lookup_insert_ne by congruence. eauto.
Qed.

Lemma calm_add_acquire s h a :
  releases s !! h = None -> acquires s !! h = None ->
  calm s (with_acquires (<[h := a]> (acquires s)) s).
Proof.
  intros R A [G1 G2 G3]. split; [|split; [split; [by apply offers_kept_same|by apply batches_kept_same]|split; [eauto|]]].
  - split; cbn; [done..|]. intros h'. destruct (decide (h' = h)) as [->|]; [done|].
    rewrite lookup_insert_ne by done. eauto.
  - intros h' a' E. cbn. rewrite lookup_insert_ne by congruence. done.
Qed.

(** ** Symbolic execution of a store call *)

Section StatementPosts.
Context {R : Type} (C : R -> StateDb -> Prop).

Lemma post_select_offer set r (Q : option OfferRow -> StateDb -> Prop) s :
  (forall o, offers s !! r = Some o -> o_scale_set_id o = set -> Q (Some o) s) -> Q None s ->
  flow_post Q C (select_offer set r s).
Proof. intros H1 H0. unfold select_offer. cbn. repeat case_match; auto. Qed.

Lemma post_update_offer r cond `{forall o, Decision (cond o)} f (Q : Z -> StateDb -> Prop) s :
  (forall o, offers s !! r = Some o -> cond o -> Q 1 (with_offers (<[r := f o]> (offers s)) s)) ->
  Q 0 s -> flow_post Q C (update_offer r cond f s).
Proof. intros H1 H0. unfold update_offer. repeat case_match; cbn; auto. Qed.

Lemma post_insert_offer r o (Q : Z -> StateDb -> Prop) s :
  (offers s !! r = None -> ~ map_Exists (fun _ o' => o_sequence o' = o_sequence o) (offers s) ->
   Q 1 (with_offers (<[r := o]> (offers s)) s)) ->
  Q 0 s -> flow_post Q C (insert_offer r o s).
Proof. intros H1 H0. unfold insert_offer. repeat case_match; cbn; auto. Qed.

Lemma post_next_sequence (Q : Z -> StateDb -> Prop) s :
  (forall n, Q n s) -> flow_post Q C (next_offer_sequence s).
Proof. intros H. unfold next_offer_sequence. case_match; cbn; auto. Qed.

Lemma post_insert_release h r (Q : unit -> StateDb -> Prop) s :
  Q tt (with_releases (<[h := r]> (releases s)) s) -> flow_post Q C (insert_release h r s).
Proof. intros H. unfold insert_release. case_match; cbn; auto. Qed.

Lemma post_delete_release h t (Q : Z -> StateDb -> Prop) s :
  Q 1 (with_releases (delete h (releases s)) s) -> Q 0 s -> flow_post Q C (delete_release h t s).
Proof. intros H1 H0. unfold delete_release. repeat case_match; cbn; auto. Qed.

Lemma post_insert_release_batch h r (Q : unit -> StateDb -> Prop) s :
  Q tt (with_release_batches (<[h := r]> (release_batches s)) s) ->
  flow_post Q C (insert_release_batch h r s).
Proof. intros H. unfold insert_release_batch. case_match; cbn; auto. Qed.

Lemma post_delete_release_batch h b u (Q : Z -> StateDb -> Prop) s :
  Q 1 (with_release_batches (delete h (release_batches s)) s) -> Q 0 s ->
  flow_post Q C (delete_release_batch h b u s).
Proof. intros H1 H0. unfold delete_release_batch. repeat case_match; cbn; auto. Qed.

Lemma post_insert_acquire h a (Q : unit -> StateDb -> Prop) s :
  (acquires s !! h = None -> Q tt (with_acquires (<[h := a]> (acquires s)) s)) ->
  flow_post Q C (insert_acquire h a s).
Proof.
  intros H. unfold insert_acquire. case_decide as D; cbn; auto. apply H.
  destruct (acquires s !! h); [|done]. exfalso. apply D. left. eauto.
Qed.

Lemma post_delete_acquire h t (Q : Z -> StateDb -> Prop) s :
  (forall a, acquires s !! h = Some a -> aq_target_attempt_token a = t ->
   Q 1 (with_acquires (delete h (acquires s)) s)) -> Q 0 s -> flow_post Q C (delete_acquire h t s).
Proof. intros H1 H0. unfold delete_acquire. repeat case_match; cbn; eauto. Qed.

Lemma post_update_batch b st u now (Q : Z -> StateDb -> Prop) s :
  (forall x, batches_kept s (with_batches x s) -> Q 1 (with_batches x s)) -> Q 0 s ->
  flow_post Q C (update_batch_state b st u now s).
Proof.
  intros H1 H0. unfold update_batch_state. case_match eqn:E; cbn; [|done]. apply H1.
  eapply batches_kept_insert; [done|]. intros b' E'. by simplify_eq.
Qed.

Lemma post_update_worker o r t g now (Q : Z -> StateDb -> Prop) s :
  (forall x, Q 1 (with_workers x s)) -> Q 0 s ->
  flow_post Q C (update_worker_released o r t g now s).
Proof. intros H1 H0. unfold update_worker_released. repeat case_match; cbn; auto. Qed.

Lemma post_parsed {A} (x : result A StoreFailure) (Q : A -> StateDb -> Prop) s :
  (forall a, x = Ok a -> Q a s) -> flow_post Q C (parsed x s).
Proof. intros H. unfold parsed. destruct x; cbn; auto. Qed.

End StatementPosts.

Ltac store_step :=
  lazymatch goal with
  | |- flow_post _ _ (tx_bind _ _ _) => apply post_bind
  | |- flow_post _ _ (get _) => cbn [flow_post get]
  | |- flow_post _ _ (tx_ret _ _) => cbn [flow_post tx_ret]
  | |- flow_post _ _ (commit _ _) => cbn [flow_post commit]
  | |- flow_post _ _ (throw _ _) => exact I
  | |- flow_post _ _ (modify _ _) => cbn [flow_post modify]
  | |- flow_post _ _ (when _ _ _) => apply post_when; intros
  | |- flow_post _ _ (parsed _ _) => apply post_parsed; intros
  | |- flow_post _ _ (select_offer _ _ _) => apply post_select_offer; intros
  | |- flow_post _ _ (select_worker _ _ _) => unfold select_worker; cbn [flow_post]
  | |- flow_post _ _ (update_offer _ _ _ _) => apply post_update_offer; intros
  | |- flow_post _ _ (insert_offer _ _ _) => apply post_insert_offer; intros
  | |- flow_post _ _ (next_offer_sequence _) => apply post_next_sequence; intros
  | |- flow_post _ _ (insert_release _ _ _) => apply post_insert_release
  | |- flow_post _ _ (delete_release _ _ _) => apply post_delete_release
  | |- flow_post _ _ (insert_release_batch _ _ _) => apply post_insert_release_batch
  | |- flow_post _ _ (delete_release_batch _ _ _ _) => apply post_delete_release_batch
  | |- flow_post _ _ (insert_acquire _ _ _) => apply post_insert_acquire; intros
  | |- flow_post _ _ (delete_acquire _ _ _) => apply post_delete_acquire; intros
  | |- flow_post _ _ (update_batch_state _ _ _ _ _) => apply post_update_batch; intros
  | |- flow_post _ _ (update_worker_released _ _ _ _ _ _) => apply post_update_worker; intros
  | |- flow_post _ _ ((if decide _ then _ else _) _) => apply post_decide; intros
  | |- flow_post _ _ ((match ?x with _ => _ end) _) => destruct x eqn:?
  | |- flow_post _ _ ((let _ := _ in _) _) => cbv zeta
  end.

(** ** Calls that keep every token *)

Lemma OfferState_parse_Some raw st : OfferState_parse raw = Ok st -> raw = OfferState_as_str st.
Proof.
  unfold OfferState_parse.
  repeat (case_match; [intros [= <-]; by apply String.eqb_eq|]). done.
Qed.

Lemma OfferState_as_str_inj s t : OfferState_as_str s = OfferState_as_str t -> s = t.
Proof. by destruct s, t. Qed.

Lemma OfferState_parse_as_str st : OfferState_parse (OfferState_as_str st) = Ok st.
Proof. by destruct st. Qed.

#[local] Ltac calm_run m := apply (run_tx_post m (calm _)); [apply calm_refl|].

Lemma not_staged_acquire s h : ~ staged_acquire s h -> acquires s !! h = None.
Proof. unfold staged_acquire. destruct (acquires s !! h); naive_solver. Qed.
Lemma not_staged_release s h : ~ staged_release s h -> releases s !! h = None.
Proof. unfold staged_release. destruct (releases s !! h); naive_solver. Qed.

Section Calm.
Context (s : StateDb).

Lemma set_state_calm r st reason g now :
  (st = DGranted -> forall o, offers s !! r = Some o -> classify_probe (offer_probe o) = Trusted) ->
  calm s (run_tx (set_state r st reason g now) s).1.
Proof.
  intros Gr. calm_run (set_state r st reason g now). unfold set_state. repeat store_step; try done.
  all: try apply calm_refl. eapply (calm_update_offer _ _ _ (offer_set_state _ _ _ _)); try done.
  cbn. intros E. right. apply (OfferState_as_str_inj st DGranted) in E. eauto.
Qed.

Lemma set_state_owned_calm r st reason g t now :
  (st = DGranted -> forall o, offers s !! r = Some o -> classify_probe (offer_probe o) = Trusted) ->
  calm s (run_tx (set_state_owned r st reason g t now) s).1.
Proof.
  intros Gr. calm_run (set_state_owned r st reason g t now). unfold set_state_owned.
  repeat store_step; try done.
  all: try apply calm_refl. eapply (calm_update_offer _ _ _ (offer_set_state _ _ _ _)); try done.
  cbn. intros E. right. apply (OfferState_as_str_inj st DGranted) in E. eauto.
Qed.

Lemma submit_offer_calm `{Sha256} set offer g now : calm s (run_tx (submit_offer set offer g now) s).1.
Proof.
  calm_run (submit_offer set offer g now). unfold submit_offer.
  destruct (classify_offer offer); repeat store_step; try apply calm_refl; try done;
    by apply calm_insert_offer.
Qed.

Lemma submit_assigned_calm `{Sha256} set offer g now :
  calm s (run_tx (submit_assigned set offer g now) s).1.
Proof.
  calm_run (submit_assigned set offer g now). unfold submit_assigned.
  repeat store_step; try apply calm_refl; by apply calm_insert_offer.
Qed.

Lemma resolve_batch_calm b u now : calm s (run_tx (resolve_batch b u now) s).1.
Proof.
  calm_run (resolve_batch b u now). unfold resolve_batch.
  repeat store_step; try apply calm_refl; try done; by apply calm_same.
Qed.

Lemma record_intended_calm b set ids hs ts g now :
  calm s (run_tx (record_intended b set ids hs ts g now) s).1.
Proof.
  calm_run (record_intended b set ids hs ts g now). unfold record_intended.
  repeat store_step; try apply calm_refl; (apply calm_same; [done..|]);
    (eapply batches_kept_insert; [done|]); congruence.
Qed.

Lemma record_intent_calm op own set r name rd dd t g now :
  calm s (run_tx (record_intent op own set r name rd dd t g now) s).1.
Proof.
  calm_run (record_intent op own set r name rd dd t g now). unfold record_intent.
  repeat store_step; try apply calm_refl; by apply calm_aside.
Qed.

End Calm.

(** ** Releases *)

(** The checks of a release only read. *)
Section Checks.
Context {R : Type} (C : R -> StateDb -> Prop) (Q : unit -> StateDb -> Prop) (s : StateDb).
Context (QH : Q tt s).

Lemma post_verify_member b set r t : flow_post Q C (verify_release_batch_member b set r t s).
Proof. unfold verify_release_batch_member. by repeat store_step. Qed.

Lemma post_check_demand set r t n : flow_post Q C (check_demand_projection set r t n s).
Proof. unfold check_demand_projection. by repeat store_step. Qed.

Lemma post_check_worker r t w : flow_post Q C (check_worker_projection r t w s).
Proof. unfold check_worker_projection. by repeat store_step. Qed.

Lemma post_stage_release_batch h b :
  (forall x, Q tt (with_release_batches x s)) -> flow_post Q C (stage_release_batch h b s).
Proof. intros Q1. unfold stage_release_batch. by repeat store_step. Qed.

Lemma post_project_worker stage g now :
  (forall x, Q tt (with_workers x s)) -> flow_post Q C (project_release_worker stage g now s).
Proof. intros Q1. unfold project_release_worker. by repeat store_step. Qed.

End Checks.

Lemma post_project_batch {R} (C : R -> StateDb -> Prop) (Q : unit -> StateDb -> Prop) stage now s :
  Q tt s -> (forall x, Q tt (with_release_batches x s)) ->
  (forall x y, batches_kept s (with_batches y (with_release_batches x s)) ->
     Q tt (with_batches y (with_release_batches x s))) ->
  flow_post Q C (project_release_batch stage now s).
Proof.
  intros Q0 Q1 Q2. unfold project_release_batch. store_step; [|done]. apply post_bind, post_verify_member.
  repeat store_step; first [done|lia|by apply Q2].
Qed.

Ltac release_step :=
  lazymatch goal with
  | |- flow_post _ _ (verify_release_batch_member _ _ _ _ _) => apply post_verify_member
  | |- flow_post _ _ (check_demand_projection _ _ _ _ _) => apply post_check_demand
  | |- flow_post _ _ (check_worker_projection _ _ _ _) => apply post_check_worker
  | |- flow_post _ _ (stage_release_batch _ _ _) => apply post_stage_release_batch; intros
  | |- flow_post _ _ (project_release_worker _ _ _ _) => apply post_project_worker; intros
  | |- flow_post _ _ (project_release_batch _ _ _) => apply post_project_batch; intros
  | _ => store_step
  end.

(** What staging a release writes for a holder without an acquisition. *)
Lemma calm_stage_release s0 s h r x :
  calm s0 s -> acquires s !! h = None ->
  calm s0 (with_releases (<[h := r]> (releases s)) s)
  ∧ calm s0 (with_release_batches x s)
  ∧ calm s0 (with_release_batches x (with_releases (<[h := r]> (releases s)) s)).
Proof.
  intros K A. assert (K1 : calm s0 (with_releases (<[h := r]> (releases s)) s)).
  { eapply calm_trans; [exact K|by apply calm_add_release]. }
  split_and!; [done|eapply calm_trans; [exact K|]|eapply calm_trans; [exact K1|]]; by apply calm_aside.
Qed.

Lemma stage_attempt_release_calm s h set r t l n w b :
  calm s (run_tx (stage_attempt_release_inner h set r t l n w b) s).1.
Proof.
  calm_run (stage_attempt_release_inner h set r t l n w b). unfold stage_attempt_release_inner.
  pose proof (not_staged_acquire s h). pose proof (calm_refl s).
  repeat release_step; first [done | eapply (calm_stage_release _ _ h); by eauto].
Qed.

Lemma stage_missing_members_calm {R} set b seen missing s0 s :
  calm s0 s ->
  flow_post (fun _ s' => calm s0 s') (fun (_ : R) _ => False)
    (stage_missing_members set b seen missing s).
Proof.
  revert seen s. induction missing as [|[r t] missing IH]; intros seen s K; cbn [stage_missing_members];
    [done|].
  repeat store_step.
  eapply (post_weaken (fun _ s' => calm s0 s') _ (fun _ _ => False)); [| |done].
  - unfold stage_missing_member. pose proof (not_staged_acquire s (permit_holder set r)).
    assert (forall P, ~ (staged_acquire s (permit_holder set r) ∨ P) -> acquires s !! permit_holder set r = None)
      by naive_solver.
    repeat release_step; first [done | eapply (calm_stage_release _ _ (permit_holder set r)); by eauto].
  - intros stage s' K'. apply post_bind. eapply post_weaken; [by apply IH|done..].
Qed.

Lemma stage_attempt_releases_calm s set b missing :
  calm s (run_tx (stage_attempt_releases_for_batch set b missing) s).1.
Proof.
  calm_run (stage_attempt_releases_for_batch set b missing). unfold stage_attempt_releases_for_batch.
  repeat store_step. eapply post_weaken; [apply stage_missing_members_calm, calm_refl|done..].
Qed.

(** A release never moves a row to [granted]. *)
Lemma post_project_demand {R} (C : R -> StateDb -> Prop) stage g now s0 s :
  calm s0 s -> flow_post (fun _ s' => calm s0 s') C (project_release_demand stage g now s).
Proof.
  intros K. unfold project_release_demand. repeat store_step; try done.
  eapply calm_trans; [exact K|]. eapply (calm_update_offer _ _ _ (offer_set_state _ _ _ _)); try done.
  cbn. intros G. apply (OfferState_as_str_inj _ DGranted) in G as ->.
  match goal with H : ~ (release_allowed _ DGranted = false) |- _ => by destruct H end.
Qed.

Lemma finish_attempt_release_calm s h g now : calm s (run_tx (finish_attempt_release h g now) s).1.
Proof.
  calm_run (finish_attempt_release h g now). unfold finish_attempt_release.
  do 2 store_step. store_step; [|apply calm_refl]. do 3 store_step.
  eapply post_weaken; [apply (post_project_demand (fun _ => calm s)), calm_refl| |done]. intros [] s1 K.
  repeat release_step; try lia; (eapply calm_trans; [exact K|]); apply calm_fewer; try done;
    try (by apply batches_kept_same); intros h' N; cbn; rewrite ?lookup_delete_None; auto.
Qed.

(** ** Acquisitions *)

(** A call that never leaves with a value before its commit. *)
Lemma run_tx_outcome {S E R} (m : tx S E R Empty_set) (P : S * result R E -> Prop) s :
  no_rollback m -> (forall e, P (s, Err e)) ->
  flow_post (fun _ _ => True) (fun r s' => P (s', Ok r)) (m s) -> P (run_tx m s).
Proof.
  intros N F H. apply run_tx_spec; [|done]. specialize (N s). destruct (m s); cbn; try done.
  by destruct (N r).
Qed.

#[local] Ltac no_rollback_step :=
  lazymatch goal with
  | |- no_rollback (tx_bind _ _) => apply no_rollback_bind; [|intros]
  | |- no_rollback (match ?x with _ => _ end) => destruct x
  | |- no_rollback (let _ := _ in _) => cbv zeta
  | |- no_rollback (parsed ?x) => unfold parsed; destruct x
  | |- no_rollback (project_acquire_token _ _) => unfold project_acquire_token
  | |- no_rollback (remove_acquire_stage _) => unfold remove_acquire_stage
  | |- no_rollback _ =>
      let s := fresh in let r := fresh in
      intros s r; unfold get, tx_ret, commit, throw, when, modify, select_offer, update_offer,
        insert_acquire, delete_acquire, insert_release; cbv beta;
      repeat (case_match; try done); done
  end.

Lemma position_lookup r ids i : position r ids = Some i -> ids !! i = Some r.
Proof.
  revert i. induction ids as [|id ids IH]; intros i; cbn; [done|].
  destruct (Z.eqb_spec id r) as [->|]; [by intros [= <-]|].
  destruct (position r ids) as [m|]; [|done]. intros [= <-]. cbn. auto.
Qed.

(** A batch of the set that names the request with this owner token. *)
Definition durable (set r : Z) (t : string) (s : StateDb) : Prop :=
  exists batch_id b i tokens, batches s !! batch_id = Some b ∧ b_scale_set_id b = set
    ∧ b_request_ids b !! i = Some r ∧ b_attempt_tokens b = Some tokens ∧ tokens !! i = Some (Some t).

Lemma contains_attempt_durable set r t s :
  acquire_batch_contains_attempt set r t s = Ok true -> durable set r t s.
Proof.
  unfold acquire_batch_contains_attempt.
  assert (F : forall kb, kb ∈ batches_of_set set s -> batches s !! kb.1 = Some kb.2 ∧ b_scale_set_id kb.2 = set)
    by (intros kb; by rewrite batches_of_set_elem).
  induction (batches_of_set set s) as [|[k b] rows IH]; cbn; [done|].
  destruct (position r (b_request_ids b)) as [i|] eqn:P; [|intros; apply IH; [set_solver|done]].
  destruct (b_attempt_tokens b) as [tokens|] eqn:T; [|done].
  repeat (case_decide; try done). intros _. destruct (F (k, b)) as [B S]; [set_solver|].
  exists k, b, i, tokens. split_and!; eauto using position_lookup.
Qed.

Definition stage_of (set r : Z) (prev : option string) (t : string) : StagedAttemptAcquire := {|
  sa_holder := permit_holder set r; sa_scale_set_id := set; sa_request_id := r;
  sa_previous_attempt_token := prev; sa_target_attempt_token := t |}.

Definition acquire_of (stage : StagedAttemptAcquire) : AcquireRow := {|
  aq_scale_set_id := sa_scale_set_id stage; aq_request_id := sa_request_id stage;
  aq_previous_attempt_token := sa_previous_attempt_token stage;
  aq_target_attempt_token := sa_target_attempt_token stage |}.

Lemma stage_acquire_spec s set r prev t :
  let '(s', result) := run_tx (stage_attempt_acquire (permit_holder set r) set r prev t) s in
  calm s s' ∧ match result with
  | Ok stage => stage = stage_of set r prev t ∧ t ≠ ""%string ∧ offers s' = offers s ∧ batches s' = batches s
                ∧ acquires s' !! permit_holder set r = Some (acquire_of stage)
                ∧ forall h, h ≠ permit_holder set r -> acquires s' !! h = acquires s !! h
  | Err _ => s' = s
  end.
Proof.
  apply (run_tx_outcome _ (fun x => let '(s', result) := x in _)); [| |].
  - unfold stage_attempt_acquire. repeat no_rollback_step.
  - intros e. split; [apply calm_refl|done].
  - unfold stage_attempt_acquire. pose proof (not_staged_release s (permit_holder set r)).
    repeat store_step; split; try apply calm_refl; try (by apply calm_add_acquire; auto); cbn.
    all: split_and!; try done; try (intros ->; by auto).
    + rewrite Heqo0. f_equal. by match goal with H : ~ (_ ≠ _) |- _ => apply dec_stable in H end.
    + by rewrite lookup_insert_eq.
    + intros h N. by rewrite lookup_insert_ne.
Qed.

#[local] Ltac acquire_step :=
  lazymatch goal with
  | |- flow_post _ _ (project_acquire_token _ _ _) => unfold project_acquire_token
  | |- flow_post _ _ (remove_acquire_stage _ _) => unfold remove_acquire_stage
  | _ => store_step
  end.

Lemma parsed_granted o st :
  OfferState_parse (o_state o) = Ok st -> ~ st ≠ DGranted -> o_state o = "granted"%string.
Proof. intros P%OfferState_parse_Some ->%dec_stable. done. Qed.

(** The granted row of a stage. *)
Definition stage_row (stage : StagedAttemptAcquire) (o : OfferRow) (s : StateDb) : Prop :=
  offers s !! sa_request_id stage = Some o ∧ o_scale_set_id o = sa_scale_set_id stage
  ∧ o_state o = "granted"%string.

Lemma finish_acquire_spec s stage acquired now :
  let '(s', result) := run_tx (finish_attempt_acquire stage acquired now) s in
  match result with
  | Ok _ =>
      batches s' = batches s ∧ releases s' = releases s ∧ exists o, stage_row stage o s ∧
      if acquired then
        acquires s' = acquires s ∧ exists o', offers s' = <[sa_request_id stage := o']> (offers s)
          ∧ same_offer o o' ∧ o_state o' = "granted"%string
          ∧ o_permit_attempt_token o' = Some (sa_target_attempt_token stage)
      else offers s' = offers s ∧ acquires s' = delete (sa_holder stage) (acquires s)
  | Err _ => s' = s
  end.
Proof.
  apply (run_tx_outcome _ (fun x => let '(s', result) := x in _)); [|done|].
  - unfold finish_attempt_acquire. repeat no_rollback_step.
  - unfold finish_attempt_acquire. repeat acquire_step; try lia.
    all: try match goal with
      | P : OfferState_parse _ = Ok _, N : ~ _ ≠ DGranted |- _ => pose proof (parsed_granted _ _ P N)
      end.
    all: (split; [done|split; [done|]]); exists o; (split; [done|]); (split; [done|]); try done.
    + exists o. rewrite insert_id by done. split_and!; done.
    + assert (o0 = o) as -> by congruence. eexists. split; [done|]. split_and!; done.
Qed.

Lemma finish_acquire_batch_spec s stage :
  let '(s', result) := run_tx (finish_attempt_acquire_batch stage) s in
  match result with
  | Ok _ =>
      batches s' = batches s ∧ releases s' = releases s ∧ offers s' = offers s
      ∧ acquires s' = delete (sa_holder stage) (acquires s)
      ∧ (exists o, stage_row stage o s ∧ o_permit_attempt_token o = Some (sa_target_attempt_token stage))
      ∧ durable (sa_scale_set_id stage) (sa_request_id stage) (sa_target_attempt_token stage) s
  | Err _ => s' = s
  end.
Proof.
  apply (run_tx_outcome _ (fun x => let '(s', result) := x in _)); [|done|].
  - unfold finish_attempt_acquire_batch. repeat no_rollback_step.
  - unfold finish_attempt_acquire_batch. do 2 acquire_step; repeat acquire_step; try lia; try done.
    + match goal with H : ~ (_ ≠ Some _) |- _ => apply dec_stable in H end.
      case_decide; [|done]. split_and!; try done; [by exists o|].
      apply contains_attempt_durable. by destruct a.
    + by match goal with H : ~ (_ ≠ Some _) |- _ => apply dec_stable in H end.
Qed.

Lemma finish_acquire_as_release_spec s stage now :
  let '(s', result) := run_tx (finish_staged_acquire_as_release stage now) s in
  match result with
  | Ok _ => acquires s' = delete (sa_holder stage) (acquires s)
      ∧ batches s' = batches s
      ∧ exists o o', stage_row stage o s ∧ offers s' = <[sa_request_id stage := o']> (offers s)
          ∧ same_offer o o' ∧ o_state o' = "granted"%string
          ∧ o_permit_attempt_token o' = Some (sa_target_attempt_token stage)
          ∧ exists r, releases s' = <[sa_holder stage := r]> (releases s)
                      ∧ rl_attempt_token r = sa_target_attempt_token stage
  | Err _ => s' = s
  end.
Proof.
  apply (run_tx_outcome _ (fun x => let '(s', result) := x in _)); [|done|].
  - unfold finish_staged_acquire_as_release. repeat no_rollback_step.
  - unfold finish_staged_acquire_as_release. repeat acquire_step; try lia.
    all: match goal with
      | P : OfferState_parse _ = Ok _ |- _ =>
          assert (o_state o = "granted"%string) by (eapply parsed_granted; [exact P|tauto])
      end.
    all: split; [done|split; [done|]]; exists o.
    + exists o. rewrite (insert_id (offers s)) by done. split_and!; try done. eexists. done.
    + assert (o0 = o) as -> by congruence. eexists. split; [done|]. split; [done|].
      split_and!; try done. eexists. done.
Qed.

(** ** A stage that cannot be cleared *)

(** The scan finds no answer when every batch with the request records another
    attempt. *)
Lemma scan_batches_foreign rows r t kb :
  kb ∈ rows -> r ∈ b_request_ids kb.2 ->
  (forall kb i tokens, kb ∈ rows -> b_attempt_tokens kb.2 = Some tokens ->
     position r (b_request_ids kb.2) = Some i -> tokens !! i ≠ Some (Some t)) ->
  exists e, scan_batches rows r t = Err e.
Proof.
  intros E R F. induction rows as [|[id b] rows IH]; [by apply elem_of_nil in E|]. cbn.
  destruct (position r (b_request_ids b)) as [i|] eqn:P.
  - destruct (b_attempt_tokens b) as [tokens|] eqn:T; [|eauto]. case_decide; [eauto|].
    rewrite decide_True; [eauto|]. apply (F (id, b) i tokens); [by left|done..].
  - apply elem_of_cons in E as [->|E].
    + exfalso. clear -R P. cbn in *. induction (b_request_ids b) as [|x ids IH]; [by apply elem_of_nil in R|].
      cbn in P. destruct (Z.eqb_spec x r); [done|]. apply elem_of_cons in R as [->|R]; [done|].
      destruct (position r ids); [done|auto].
    + apply IH; [done|]. intros kb' i tokens E'. apply F. by right.
Qed.

(** C40: A request that was in an earlier acquire batch cannot be put back when
    the host is full. The check for "a batch for this stage already exists"
    also reads resolved batches and refuses when one of them names the request
    with another owner token; such a batch is never deleted and the new
    attempt has no batch yet, so [finish_attempt_acquire] fails whatever the
    clock says, nothing is written, and the stage stays for good. *)
Theorem returned_request_keeps_its_stage s stage id b now :
  batches s !! id = Some b -> b_scale_set_id b = sa_scale_set_id stage ->
  sa_request_id stage ∈ b_request_ids b ->
  ~ durable (sa_scale_set_id stage) (sa_request_id stage) (sa_target_attempt_token stage) s ->
  exists e, run_tx (finish_attempt_acquire stage false now) s = (s, Err e).
Proof.
  intros B Sb R N.
  assert (F : exists e, acquire_batch_contains_attempt (sa_scale_set_id stage) (sa_request_id stage)
                          (sa_target_attempt_token stage) s = Err e).
  { apply (scan_batches_foreign _ _ _ (id, b)); [by apply batches_of_set_elem|done|].
    intros [id' b'] i tokens [B' S']%batches_of_set_elem T P Et. apply N. cbn in *.
    exists id', b', i, tokens. split_and!; try done. by apply position_lookup. }
  destruct F as [e F].
  apply (run_tx_outcome _ (fun x => exists e, x = (s, Err e))); [|eauto|].
  - unfold finish_attempt_acquire. repeat no_rollback_step.
  - unfold finish_attempt_acquire. repeat acquire_step; try done; congruence.
Qed.
