(* ===== verification/ScaleSafety.v ===== *)
(** * Scale sets: safety of every step

    The proof rules with which a program of the controller is shown to keep
    its databases safe at every point where the process may die, against any
    ledger that keeps the capacity contract and any interference of other
    processes with other holders. *)

From Stdlib Require Import ZArith Lia.
From stdpp Require Import base gmap sets list strings sorting.
From S2P Require Import Prelude Numerals LedgerData ScaleIds ScaleData ScaleStores ScaleProg ScaleCapacity ScaleContract ScaleProcessor ScaleStoreProofs.
#[local] Open Scope Z_scope.

Section Safety.
Context {L W : Type} `{CC : CapacityContract L}.
Context (config : ProcessorConfig).
Abbreviation cprog := (prog L W ledger_error).
Abbreviation set_id := (cfg_scale_set_id config).
Abbreviation world := (ScaleProg.world L W).

(** Another process keeps the ledger's invariant and the permits of this set. *)
Definition others (l l' : L) : Prop :=
  (ledger_ok l -> ledger_ok l') ∧ forall r, held l' (permit_holder set_id r) = held l (permit_holder set_id r).
#[export] Instance others_preorder : PreOrder others.
Proof.
  split; [by split|]. intros l1 l2 l3 [O1 H1] [O2 H2]. split; [auto|]. intros r. by rewrite H2, H1.
Qed.

(** The owner token of a permit is on file: in its demand row, or in the stage
    of the acquisition that is taking it. *)
Definition on_file (r : Z) (t : string) (s : StateDb) : Prop :=
  (exists o, offers s !! r = Some o ∧ o_permit_attempt_token o = Some t)
  ∨ (exists a, acquires s !! permit_holder set_id r = Some a ∧ aq_target_attempt_token a = t).

Definition covered (w : world) : Prop :=
  forall r lane t, held (w_ledger w) (permit_holder set_id r) = Some (lane, t) -> on_file r t (w_state w).

(** A request that may be sent to the job queue. *)
Definition backed (w : world) (r : Z) : Prop :=
  exists o t, offers (w_state w) !! r = Some o ∧ o_scale_set_id o = set_id
    ∧ o_state o = "acquire_intent"%string ∧ o_permit_attempt_token o = Some t ∧ t ≠ ""%string
    ∧ classify_probe (offer_probe o) = Trusted
    ∧ held (w_ledger w) (permit_holder set_id r) = Some (LaneScaleSet, t)
    ∧ durable set_id r t (w_state w).

Definition ask (ids : list Z) (w : world) : Prop :=
  NoDup ids ∧ (length ids <= cfg_max_acquire_batch config)%nat ∧ Forall (backed w) ids.

Section From.
(** Where the run started, and what its requests to the queue must satisfy. *)
Context (s0 : StateDb) (Ask : list Z -> world -> Prop).

Record safe (w : world) : Prop := {
  safe_ok : ledger_ok (w_ledger w);
  safe_good : good (w_state w);
  safe_covered : covered w;
  safe_kept : history_kept s0 (w_state w);
}.

Abbreviation wps := (wp others safe Ask).

Lemma safe_others l w : safe w -> others (w_ledger w) l -> safe (set_ledger l w).
Proof.
  intros [O G C K] [OK H]. split; cbn; [auto|done| |done].
  intros r lane t. cbn. rewrite H. apply C.
Qed.

(** ** Rules *)

Lemma wps_ret {A} (a : A) Q w : safe w -> (forall l, others (w_ledger w) l -> Q (Ok a) (set_ledger l w)) -> wps (Ret a : cprog A) Q w.
Proof. intros S H l R. split; [by apply safe_others|auto]. Qed.

Lemma wps_failed {A} e Q w :
  safe w -> (forall l, others (w_ledger w) l -> Q (Err e) (set_ledger l w)) -> wps (Failed_ e : cprog A) Q w.
Proof. intros S H l R. split; [by apply safe_others|auto]. Qed.

Lemma wps_state {A R} f (k : result R StoreFailure -> cprog A) Q w :
  safe w ->
  (forall l now, others (w_ledger w) l ->
    wps (k (f now (w_state w)).2) Q (World l (f now (w_state w)).1 (w_lane w))) ->
  wps (OnState f k) Q w.
Proof. intros S H l Rl. split; [by apply safe_others|]. intros now. by apply H. Qed.

Lemma wps_ledger {A R} f (k : result R ledger_error -> cprog A) Q w :
  safe w ->
  (forall l env, others (w_ledger w) l ->
    wps (k (f env l).2) Q (World (f env l).1 (w_state w) (w_lane w))) ->
  wps (OnLedger f k) Q w.
Proof. intros S H l Rl. split; [by apply safe_others|]. intros env. by apply H. Qed.

Lemma wps_token {A} (k : string -> cprog A) Q w :
  safe w ->
  (forall l token, others (w_ledger w) l -> token ≠ ""%string -> wps (k token) Q (set_ledger l w)) ->
  wps (FreshToken k) Q w.
Proof. intros S H l Rl. split; [by apply safe_others|]. intros token N. by apply H. Qed.

Lemma wps_mint {A} (k : string -> cprog A) Q w :
  safe w -> (forall l b, others (w_ledger w) l -> wps (k b) Q (set_ledger l w)) -> wps (MintBatch k) Q w.
Proof. intros S H l Rl. split; [by apply safe_others|]. intros b. by apply H. Qed.

(** A program that keeps the databases safe. *)
Definition safe_prog {A} (p : cprog A) : Prop := forall w, safe w -> wps p (fun _ => safe) w.

Lemma safe_ret {A} (a : A) : safe_prog (Ret a).
Proof. intros w S. apply wps_ret; [done|]. intros. by apply safe_others. Qed.
Lemma safe_mret {A} (a : A) : safe_prog (mret a).
Proof. apply safe_ret. Qed.
Lemma safe_failed {A} e : safe_prog (Failed_ e : cprog A).
Proof. intros w S. apply wps_failed; [done|]. intros. by apply safe_others. Qed.

Lemma safe_bind {A B} (p : cprog A) (k : A -> cprog B) :
  safe_prog p -> (forall a, safe_prog (k a)) -> safe_prog (p ≫= k).
Proof.
  intros P K w S. apply wp_bind; [apply _|]. eapply wp_mono; [|by apply P].
  intros [a|e] w' _ S'; [by apply K|done].
Qed.

Lemma safe_each {X} (body : X -> cprog unit) xs :
  (forall x, safe_prog (body x)) -> safe_prog (for_each body xs).
Proof. intros B. induction xs; cbn; [apply safe_ret|by apply safe_bind]. Qed.

Lemma safe_fold {X S} (body : S -> X -> cprog S) xs s :
  (forall s x, safe_prog (body s x)) -> safe_prog (for_fold body xs s).
Proof. intros B. revert s. induction xs; intros s; cbn; [apply safe_ret|by apply safe_bind]. Qed.

(** A store call that keeps every token. *)
Lemma safe_calm l s x w :
  safe w -> s = w_state w -> others (w_ledger w) l -> calm s x -> safe (World l x (w_lane w)).
Proof.
  intros S -> R K. destruct (safe_others _ _ S R) as [O G C Kp]. cbn in *.
  destruct (K G) as (G' & Kp' & T & A). split; cbn; [done..| |by etransitivity].
  intros r lane t H. destruct (C r lane t H) as [(o & E & To)|(a & E & Ta)].
  - left. destruct (T r o E) as (o' & E' & _ & T'). exists o'. split; [done|congruence].
  - right. exists a. eauto.
Qed.

Lemma safe_on_state {A R} f (k : result R StoreFailure -> cprog A) :
  (forall now s, calm s (f now s).1) -> (forall r, safe_prog (k r)) -> safe_prog (OnState f k).
Proof. intros F K w S. apply wps_state; [done|]. intros l now R'. apply K. by eapply safe_calm. Qed.

Lemma safe_store {R} (m : string -> tx StateDb StoreFailure R Empty_set) :
  (forall now s, calm s (run_tx (m now) s).1) -> safe_prog (store m).
Proof. intros F. apply safe_on_state; [done|]. intros []; [apply safe_ret|apply safe_failed]. Qed.

Lemma safe_read {R} (f : StateDb -> result R StoreFailure) : safe_prog (read f).
Proof.
  apply safe_on_state; [intros; apply calm_refl|]. intros []; [apply safe_ret|apply safe_failed].
Qed.

(** A ledger call that at most gives permits back. *)
Definition quiet {R} (f : Env -> L -> L * result R ledger_error) : Prop :=
  forall env l, ledger_ok l ->
    ledger_ok (f env l).1 ∧ forall h, held (f env l).1 h = held l h ∨ held (f env l).1 h = None.

Lemma safe_on_ledger {A R} f (k : result R ledger_error -> cprog A) :
  quiet f -> (forall r, safe_prog (k r)) -> safe_prog (OnLedger f k).
Proof.
  intros F K w S. apply wps_ledger; [done|]. intros l env R'. apply K.
  destruct (safe_others _ _ S R') as [O G C Kp]. cbn in *. destruct (F env l O) as [O' H].
  split; cbn; [done..| |done]. intros r lane t E. destruct (H (permit_holder set_id r)) as [H'|H'].
  - apply (C r lane t). cbn. by rewrite <- H'.
  - cbn in E. by rewrite H' in E.
Qed.

Lemma safe_ledger_call {R} why (f : Env -> L -> L * result R ledger_error) :
  quiet f -> safe_prog (ledger_call why f).
Proof. intros F. apply safe_on_ledger; [done|]. intros []; [apply safe_ret|apply safe_failed]. Qed.

Lemma quiet_read {R} (f : L -> result R ledger_error) : quiet (fun _ l => (l, f l)).
Proof. intros env l O. split; [done|]. by left. Qed.

Lemma safe_ledger_read {R} why (f : L -> result R ledger_error) : safe_prog (ledger_read why f).
Proof. apply safe_ledger_call, quiet_read. Qed.

Lemma quiet_observe holder scope first observed :
  quiet (fun env l => cl_observe_demand env holder LaneScaleSet scope first (observed env) l).
Proof.
  intros env l O. destruct (law_observe env holder LaneScaleSet scope first (observed env) l O). eauto.
Qed.
Lemma quiet_cancel holder : quiet (fun env l => cl_cancel_demand env holder l).
Proof. intros env l O. destruct (law_cancel env holder l O). eauto. Qed.
Lemma quiet_transition holder st g t : quiet (fun env l => cl_transition env holder st g t l).
Proof. intros env l O. destruct (law_transition env holder st g t l O). eauto. Qed.
Lemma quiet_release holder t target : quiet (fun env l => cl_release_staged env holder t target l).
Proof.
  intros env l O. pose proof (law_release env holder t target l O) as R.
  destruct (cl_release_staged env holder t target l) as [l' r]. destruct R as (O' & H & R).
  split; [done|]. intros h. cbn. destruct (decide (h = holder)) as [->|N].
  - destruct r as [[]|]; destruct_and?; subst; auto.
  - left. by apply H.
Qed.

Lemma safe_on_lane {A R} (f : W -> W * R) (k : R -> cprog A) :
  (forall r, safe_prog (k r)) -> safe_prog (OnLane f k).
Proof.
  intros K w S l Rl. split; [by apply safe_others|]. apply K.
  destruct (safe_others _ _ S Rl) as [O G C Kp]. by split.
Qed.

(** ** Postconditions of successful runs *)

Definition okay {A} (P : A -> world -> Prop) (r : result A ScaleError) (w : world) : Prop :=
  match r with Ok a => P a w | Err _ => True end.

(** An assertion that other processes cannot break. *)
Definition stable {A} (P : A -> world -> Prop) : Prop :=
  forall a l w, P a w -> others (w_ledger w) l -> P a (set_ledger l w).

Lemma wps_bind {A B} (P : A -> world -> Prop) (Q : B -> world -> Prop) (p : cprog A) (k : A -> cprog B) w :
  wps p (okay P) w -> (forall a w', safe w' -> P a w' -> wps (k a) (okay Q) w') ->
  wps (p ≫= k) (okay Q) w.
Proof.
  intros H K. apply wp_bind; [apply _|]. eapply wp_mono; [|exact H]. intros [a|e] w' I; cbn; auto.
Qed.

(** A safe program establishes nothing more. *)
Lemma wps_safe {A} (p : cprog A) w : safe_prog p -> safe w -> wps p (okay (fun _ _ => True)) w.
Proof. intros P S. eapply wp_mono; [|by apply P]. by intros []. Qed.

Lemma okay_safe {A} (p : cprog A) (P : A -> world -> Prop) w :
  wps p (okay P) w -> wps p (fun _ => safe) w.
Proof. apply wp_mono. auto. Qed.

Lemma wps_mret {A} (a : A) (P : A -> world -> Prop) w :
  stable P -> safe w -> P a w -> wps (mret a : cprog A) (okay P) w.
Proof. intros St S H. apply wps_ret; [done|]. intros l R. cbn. by apply St. Qed.

Lemma wps_fail {A} e (P : A -> world -> Prop) w : safe w -> wps (Failed_ e : cprog A) (okay P) w.
Proof. intros S. apply wps_failed; [done|]. done. Qed.

Lemma wps_store {R} (m : string -> tx StateDb StoreFailure R Empty_set) (P : R -> world -> Prop) w :
  stable P -> safe w ->
  (forall l now, others (w_ledger w) l ->
     let x := run_tx (m now) (w_state w) in
     safe (World l x.1 (w_lane w)) ∧ forall r, x.2 = Ok r -> P r (World l x.1 (w_lane w))) ->
  wps (store m : cprog R) (okay P) w.
Proof.
  intros St S H. apply wps_state; [done|]. intros l now R'. destruct (H l now R') as [S' H'].
  destruct (run_tx (m now) (w_state w)).2 eqn:E; [|by apply wps_fail]. apply wps_mret; auto.
Qed.

Lemma wps_store_calm {R} (m : string -> tx StateDb StoreFailure R Empty_set) (P : R -> world -> Prop) w :
  stable P -> safe w -> (forall now, calm (w_state w) (run_tx (m now) (w_state w)).1) ->
  (forall l now s' r, others (w_ledger w) l -> run_tx (m now) (w_state w) = (s', Ok r) -> calm (w_state w) s' ->
     safe (World l s' (w_lane w)) -> P r (World l s' (w_lane w))) ->
  wps (store m : cprog R) (okay P) w.
Proof.
  intros St S K H. apply wps_store; [done..|]. intros l now R' x.
  assert (S' : safe (World l x.1 (w_lane w))) by (eapply safe_calm; [exact S|reflexivity|exact R'|apply K]). split; [done|].
  intros r E. apply (H l now); [done| |apply K|done]. subst x. by destruct (run_tx _ _); cbn in *; subst.
Qed.

Lemma wps_read {R} (f : StateDb -> result R StoreFailure) (P : R -> world -> Prop) w :
  stable P -> safe w ->
  (forall l r, others (w_ledger w) l -> f (w_state w) = Ok r -> P r (set_ledger l w)) ->
  wps (read f : cprog R) (okay P) w.
Proof.
  intros St S H. apply wps_state; [done|]. intros l now R'. pose proof (safe_others _ _ S R') as S'.
  cbn. destruct (f (w_state w)) eqn:E; [|by apply wps_fail]. apply wps_mret; [done..|by apply H].
Qed.

Lemma wps_fold {X S} (J : S -> list X -> world -> Prop) (body : S -> X -> cprog S) xs s w :
  (forall xs, stable (fun s => J s xs)) ->
  (forall s x xs w, safe w -> J s (x :: xs) w -> wps (body s x) (okay (fun s' => J s' xs)) w) ->
  safe w -> J s xs w -> wps (for_fold body xs s) (okay (fun s' => J s' [])) w.
Proof.
  intros St B. revert s w. induction xs as [|x xs IH]; intros s w Sw H; cbn.
  - apply (wps_mret s (fun s => J s [])); [apply St|done..].
  - eapply wps_bind; [by apply B|]. intros s' w' S' H'. by apply IH.
Qed.

Lemma wps_each {X} (J : list X -> world -> Prop) (body : X -> cprog unit) xs w :
  (forall xs, stable (fun _ : unit => J xs)) ->
  (forall x xs w, safe w -> J (x :: xs) w -> wps (body x) (okay (fun _ => J xs)) w) ->
  safe w -> J xs w -> wps (for_each body xs) (okay (fun _ => J [])) w.
Proof.
  intros St B. revert w. induction xs as [|x xs IH]; intros w Sw H; cbn.
  - apply (wps_mret tt (fun _ => J [])); [apply St|done..].
  - eapply wps_bind; [by apply B|]. intros [] w' S' H'. by apply IH.
Qed.

Lemma wps_acquire {A} ids (k : option (list Z) -> cprog A) Q w :
  safe w -> (forall l, others (w_ledger w) l -> Ask ids (set_ledger l w)) ->
  (forall l answer, others (w_ledger w) l -> wps (k answer) Q (set_ledger l w)) ->
  wps (AcquireJobs ids k) Q w.
Proof. intros S HA H l Rl. split; [by apply safe_others|]. split; [auto|]. intros answer. by apply H. Qed.

End From.
End Safety.

Arguments wps_bind {L W CL CC config s0 Ask A B} P Q p k w.
Arguments wps_mret {L W CL CC config s0 Ask A} a P w.
Arguments wps_fold {L W CL CC config s0 Ask X S} J body xs s w.
Arguments wps_each {L W CL CC config s0 Ask X} J body xs w.
Arguments okay_safe {L W CL CC config s0 Ask A} p P w.

(** * The operations are safe

    Every operation of the step function other than granting and acquiring is
    safe by the shape of its program: its store calls keep every owner token
    and its ledger calls take no permit. *)

Create HintDb calm.
#[export] Hint Resolve calm_refl set_state_calm set_state_owned_calm submit_offer_calm
  submit_assigned_calm resolve_batch_calm record_intended_calm record_intent_calm
  stage_attempt_release_calm stage_attempt_releases_calm finish_attempt_release_calm : calm.
#[export] Hint Extern 1 (classify_probe _ = Trusted) => congruence : calm.

Lemma stage_attempt_release_calm' s h set r t l n w :
  calm s (run_tx (stage_attempt_release h set r t l n w) s).1.
Proof. apply stage_attempt_release_calm. Qed.

Lemma stage_release_for_batch_calm s h set r t l n b :
  calm s (run_tx (stage_attempt_release_for_batch h set r t l n b) s).1.
Proof.
  unfold stage_attempt_release_for_batch. case_decide; [apply calm_refl|]. apply stage_attempt_release_calm.
Qed.
#[export] Hint Resolve stage_attempt_release_calm' stage_release_for_batch_calm : calm.

Create HintDb safe.
#[export] Hint Resolve safe_ret safe_mret safe_failed safe_read safe_ledger_read : safe.
#[export] Hint Resolve quiet_read quiet_observe quiet_cancel quiet_transition quiet_release : safe.

Ltac safe_step :=
  lazymatch goal with
  | |- safe_prog _ _ _ (mbind _ _) => apply safe_bind; [|intros]
  | |- safe_prog _ _ _ (store _) => apply safe_store; intros; solve [auto with calm nocore]
  | |- safe_prog _ _ _ (ledger_call _ _) => apply safe_ledger_call; solve [auto with safe nocore]
  | |- safe_prog _ _ _ (OnLedger _ _) => apply safe_on_ledger; [solve [auto with safe nocore]|intros]
  | |- safe_prog _ _ _ (for_each _ _) => apply safe_each; intros
  | |- safe_prog _ _ _ (for_fold _ _ _) => apply safe_fold; intros
  | |- safe_prog _ _ _ (match ?x with _ => _ end) => destruct x
  | |- safe_prog _ _ _ ((match ?x with _ => _ end) _) => destruct x; cbv beta
  | |- safe_prog _ _ _ (let _ := _ in _) => cbv zeta
  | |- safe_prog _ _ _ _ => solve [auto with safe nocore]
  end.
Ltac solve_safe := repeat safe_step.

(** What the worker lane promises: its methods are safe programs too, and
    leave the job queue alone. *)
Class SafeLane {L W : Type} `{CC : CapacityContract L} (config : ProcessorConfig)
    (WL : WorkerLane L W ledger_error) := {
  safe_provision s0 Ask op intent : safe_prog config s0 Ask (lane_provision op intent);
  safe_note_assigned s0 Ask m t : safe_prog config s0 Ask (lane_note_assigned m t);
  safe_note_started s0 Ask m t : safe_prog config s0 Ask (lane_note_started m t);
  safe_note_terminal s0 Ask m t : safe_prog config s0 Ask (lane_note_terminal m t);
  safe_note_canceled s0 Ask r t : safe_prog config s0 Ask (lane_note_canceled r t);
}.
#[export] Hint Resolve safe_provision safe_note_assigned safe_note_started safe_note_terminal
  safe_note_canceled : safe.

Section Steps.
Context {L W : Type} `{CC : CapacityContract L} (config : ProcessorConfig).
Context `{WL : !WorkerLane L W ledger_error} `{SL : !SafeLane config WL}.
Context `{SHA : Sha256} `{RFC : Rfc3339} (s0 : StateDb) (Ask : list Z -> world L W -> Prop).
Abbreviation ok p := (safe_prog (W := W) config s0 Ask p).

Lemma safe_read_generation : ok read_generation.
Proof. unfold read_generation. solve_safe. Qed.
#[local] Hint Resolve safe_read_generation : safe.

Lemma safe_get_row r : ok (get_row r).
Proof. unfold get_row. solve_safe. Qed.
#[local] Hint Resolve safe_get_row : safe.

Lemma safe_get_present why r : ok (get_present why r).
Proof. unfold get_present. solve_safe. Qed.
Lemma safe_held_now h : ok (held_now h).
Proof. unfold held_now. solve_safe. Qed.
Lemma safe_required_token row : ok (required_attempt_token row).
Proof. unfold required_attempt_token. solve_safe. Qed.
Lemma safe_release_attempt h t k : ok (release_attempt h t k).
Proof. unfold release_attempt. solve_safe. Qed.
Lemma safe_finish_release h : ok (finish_release h).
Proof. unfold finish_release. solve_safe. Qed.
#[local] Hint Resolve safe_get_present safe_held_now safe_required_token safe_release_attempt
  safe_finish_release : safe.

Lemma safe_set_row_state r t st reason g : st ≠ DGranted -> ok (set_row_state r t st reason g).
Proof. intros N. unfold set_row_state. destruct t; apply safe_store; auto with calm. Qed.
#[local] Hint Extern 1 (safe_prog _ _ _ (set_row_state _ _ _ _ _)) => by apply safe_set_row_state : safe.

Lemma safe_release_projection r t k n b : ok (release_with_projection_batch config r t k n b).
Proof. unfold release_with_projection_batch. solve_safe. Qed.
#[local] Hint Resolve safe_release_projection : safe.
Lemma safe_release_projection1 r t k n : ok (release_with_projection config r t k n).
Proof. apply safe_release_projection. Qed.
#[local] Hint Resolve safe_release_projection1 : safe.

Lemma safe_recover_stage stage : ok (recover_stage stage).
Proof. unfold recover_stage. solve_safe. Qed.
#[local] Hint Resolve safe_recover_stage : safe.
Lemma safe_recover_stages : ok recover_demand_release_stages.
Proof. unfold recover_demand_release_stages. solve_safe. Qed.
Lemma safe_require_no_worker_releases : ok require_no_pending_worker_releases.
Proof. unfold require_no_pending_worker_releases. solve_safe. Qed.

Lemma safe_observe_demand row : ok (observe_global_demand row).
Proof. unfold observe_global_demand. solve_safe. Qed.
Lemma safe_cancel_demand h : ok (cancel_global_demand h).
Proof. unfold cancel_global_demand. solve_safe. Qed.
#[local] Hint Resolve safe_observe_demand safe_cancel_demand : safe.
Lemma safe_sync_demand row : ok (sync_global_demand config row).
Proof. unfold sync_global_demand. solve_safe. Qed.
Lemma safe_ensure_token row : ok (ensure_attempt_token row).
Proof. unfold ensure_attempt_token. solve_safe. Qed.
Lemma safe_fenced_transition wrap h st g t : ok (fenced_transition wrap h st g t).
Proof. unfold fenced_transition. solve_safe. Qed.
#[local] Hint Resolve safe_sync_demand safe_ensure_token safe_fenced_transition : safe.

Lemma safe_drain : ok (drain_canceled_acquisitions config).
Proof. unfold drain_canceled_acquisitions, drain_one_canceled. solve_safe. Qed.
Lemma safe_close r : ok (close_canceled_unacquired config r).
Proof. unfold close_canceled_unacquired. solve_safe. Qed.
#[local] Hint Resolve safe_close : safe.

Lemma safe_observe_assigned m : ok (observe_assigned config m).
Proof. unfold observe_assigned. solve_safe. Qed.
Lemma safe_observe_started m : ok (observe_started config m).
Proof. unfold observe_started. solve_safe. Qed.
Lemma safe_complete_row c r row h cn : ok (complete_row config c r row h cn).
Proof. unfold complete_row. solve_safe. Qed.
Lemma safe_cancel_unresolved r row : ok (cancel_unresolved config r row).
Proof. unfold cancel_unresolved. solve_safe. Qed.
#[local] Hint Resolve safe_complete_row safe_cancel_unresolved : safe.
Lemma safe_observe_completed m : ok (observe_completed config m).
Proof. unfold observe_completed. solve_safe. Qed.

Lemma safe_reset_grants set g : ok (reset_stale_grants set g).
Proof. unfold reset_stale_grants. solve_safe. Qed.

Lemma safe_taken_token taken r : ok (taken_token taken r).
Proof. unfold taken_token. solve_safe. Qed.
#[local] Hint Resolve safe_taken_token : safe.
Lemma safe_set_taken taken st g r : st ≠ DGranted -> ok (set_taken_state taken st g r).
Proof. intros N. unfold set_taken_state. solve_safe. Qed.
#[local] Hint Extern 1 (safe_prog _ _ _ (set_taken_state _ _ _ _)) => by apply safe_set_taken : safe.

Lemma safe_settle_answer taken b ids returned g : ok (settle_answer config taken b ids returned g).
Proof.
  unfold settle_answer, settle_acquired, stage_missing, release_missing. solve_safe.
Qed.

Lemma safe_provision_pass : ok (provision_pass config).
Proof. unfold provision_pass, provision_one, ensure_provision_intent. solve_safe. Qed.

Lemma safe_queue_offer g n offer : ok (queue_offer config g n offer).
Proof. unfold queue_offer. solve_safe. Qed.
Lemma safe_require_row offer : ok (require_row offer).
Proof. unfold require_row. solve_safe. Qed.
Lemma safe_local_count : ok (local_count config).
Proof. unfold local_count. solve_safe. Qed.
#[local] Hint Resolve safe_local_count : safe.
Lemma safe_decide_population stats : ok (decide_population config stats).
Proof. unfold decide_population. solve_safe. Qed.

End Steps.

#[export] Hint Resolve safe_read_generation safe_get_row safe_recover_stages
  safe_require_no_worker_releases safe_observe_demand safe_drain safe_observe_assigned
  safe_observe_started safe_observe_completed safe_settle_answer safe_provision_pass
  safe_queue_offer safe_require_row safe_local_count safe_decide_population : safe.
#[export] Hint Extern 1 (safe_prog _ _ _ (set_taken_state _ _ _ _)) => by apply safe_set_taken : safe.
