(* ===== verification/ScaleAcquire.v ===== *)
(** * Scale sets: granting and acquiring

    The two passes whose safety depends on what they know: granting, which may
    only grant trusted offers, and the reserve and acquire pass, which takes
    permits, moves owner tokens, and calls the job queue. *)

From Stdlib Require Import ZArith Lia.
From stdpp Require Import base gmap sets list strings sorting.
From S2P Require Import Prelude Numerals LedgerData ScaleIds ScaleData ScaleStores ScaleProg ScaleCapacity ScaleContract ScaleProcessor ScaleStoreProofs ScaleSafety.
#[local] Open Scope Z_scope.

Section Acquire.
Context {L W : Type} `{CC : CapacityContract L} (config : ProcessorConfig).
Context `{WL : !WorkerLane L W ledger_error} `{SL : !SafeLane config WL}.
Context `{SHA : Sha256} `{RFC : Rfc3339} (s0 : StateDb).
Abbreviation cprog := (prog L W ledger_error).
Abbreviation set_id := (cfg_scale_set_id config).
Abbreviation world := (ScaleProg.world L W).
Abbreviation ph r := (permit_holder set_id r).
Abbreviation safe := (safe (W := W) config s0).
Abbreviation others := (others config).
Abbreviation stable := (stable (W := W) config).
Abbreviation wps := (wp (LErr := ledger_error) others safe (ask config)).

#[local] Ltac of_state := let H := fresh in intros ? ? ? H _; exact H.

(** ** Granting *)

(** A candidate's row is still the offer it was read from. *)
Definition known (s : StateDb) (c : Demand) : Prop :=
  exists o, offers s !! dm_request_id c = Some o ∧ offer_probe o = row_probe c.

Lemma known_kept s s' c : offers_kept s s' -> known s c -> known s' c.
Proof.
  intros K (o & E & P). destruct (K _ _ E) as (o' & E' & _ & _ & _ & P'). exists o'. split; congruence.
Qed.

Lemma row_to_demand_known r o d : row_to_demand r o = Ok d ->
  dm_request_id d = r ∧ offer_probe o = row_probe d.
Proof. unfold row_to_demand. destruct (OfferState_parse _); [|done]. by intros [= <-]. Qed.

Definition oldest_rows (st : string) (limit : nat) (s : StateDb) : list (Z * OfferRow) :=
  take limit (merge_sort offer_le
    (filter (fun ko : Z * OfferRow => o_scale_set_id ko.2 = set_id ∧ o_state ko.2 = st)
       (map_to_list (offers s)))).

Lemma oldest_rows_elem st limit s r o :
  (r, o) ∈ oldest_rows st limit s -> offers s !! r = Some o ∧ o_scale_set_id o = set_id ∧ o_state o = st.
Proof.
  unfold oldest_rows. intros (i & E%list_elem_of_lookup_2 & _)%elem_of_take. rewrite merge_sort_Permutation in E.
  apply list_elem_of_filter in E as [[? ?] E%elem_of_map_to_list]. done.
Qed.

Lemma oldest_known st limit s ds :
  oldest_in_state st set_id limit s = Ok ds ->
  Forall (known s) ds ∧ (dm_request_id <$> ds) = (oldest_rows st limit s).*1
  ∧ (length ds <= limit)%nat ∧ NoDup (dm_request_id <$> ds).
Proof.
  unfold oldest_in_state. fold (oldest_rows st limit s). intros F%result_map_Forall2.
  assert (E : (dm_request_id <$> ds) = (oldest_rows st limit s).*1).
  { clear -F. induction F as [|[r o] d l l' H _ IH]; [done|]. cbn. f_equal; [|done].
    by apply row_to_demand_known in H as [-> _]. }
  split_and!; [|done| |].
  - apply Forall_forall. intros d [i Ei]%list_elem_of_lookup_1.
    destruct (Forall2_lookup_r _ _ _ _ _ F Ei) as ([r o] & Er & H).
    apply list_elem_of_lookup_2, oldest_rows_elem in Er as (Er & _).
    apply row_to_demand_known in H as [Hr P]. exists o. by rewrite Hr.
  - rewrite <- (Forall2_length _ _ _ F). unfold oldest_rows. rewrite length_take. lia.
  - rewrite E. apply NoDup_fmap_fst.
    + intros r o1 o2 (E1 & _)%oldest_rows_elem (E2 & _)%oldest_rows_elem. congruence.
    + unfold oldest_rows. eapply sublist_NoDup; [|apply sublist_take].
      rewrite merge_sort_Permutation. apply NoDup_filter, NoDup_map_to_list.
Qed.

(** Granting keeps the candidates' rows what they were. *)
Lemma set_row_state_known r t st reason g cs w :
  safe w -> Forall (known (w_state w)) cs ->
  (st = DGranted -> forall o, offers (w_state w) !! r = Some o -> classify_probe (offer_probe o) = Trusted) ->
  wps (set_row_state r t st reason g) (okay (fun _ w' => Forall (known (w_state w')) cs)) w.
Proof.
  intros S K T.
  assert (St : stable (fun (_ : unit) w' => Forall (known (w_state w')) cs)) by of_state.
  assert (H : forall s', calm (w_state w) s' -> Forall (known s') cs).
  { intros s' C. destruct (C (safe_good _ _ _ S)) as (_ & Kp & _). eapply Forall_impl; [exact K|].
    intros c. apply known_kept, Kp. }
  unfold set_row_state. destruct t as [t|]; apply wps_store_calm; try done; intros.
  - by apply set_state_owned_calm.
  - by apply H.
  - by apply set_state_calm.
  - by apply H.
Qed.

Lemma safe_grant_oldest g : safe_prog (W := W) config s0 (ask config) (grant_oldest config g).
Proof.
  unfold grant_oldest. apply safe_bind; [apply safe_reset_grants|]. intros _ w S.
  apply (okay_safe _ (fun _ _ => True)).
  eapply (wps_bind (fun cs w => Forall (known (w_state w)) cs)).
  { apply wps_read; [of_state|done|]. intros l cs _ H. by apply oldest_known in H as (? & _). }
  intros cs w' S' K. eapply wp_mono; [|apply (wps_fold (fun _ cs w => Forall (known (w_state w)) cs)); [intro; of_state| |done..]].
  { by intros []. }
  clear. intros gs c cs w S [Kc K]%Forall_cons. unfold grant_one.
  destruct (classify_probe (row_probe c)) eqn:T.
  - eapply wps_bind; [apply set_row_state_known; [done|exact K|]|].
    + intros _ o E. destruct Kc as (o' & E' & P). congruence.
    + intros [] w' S' K'. apply wps_mret; [of_state|done..].
  - eapply wps_bind; [apply set_row_state_known; [done|exact K|done]|].
    intros [] w' S' K'. apply wps_mret; [of_state|done..].
Qed.

(** ** Reserving *)

Definition owned_by (w : world) (r : Z) : option (LedgerLane * string) := held (w_ledger w) (ph r).

(** What an attempt to take the permit of [r] under [t] leaves behind. *)
Definition attempted (r : Z) (t : string) (w : world) (out : option ReserveOutcome) (w' : world) : Prop :=
  w_state w' = w_state w ∧ (forall r', r' ≠ r -> owned_by w' r' = owned_by w r')
  ∧ match out with
    | Some (Reserved_ t') => t' = t ∧ owned_by w' r = Some (LaneScaleSet, t)
    | Some CapacityExhausted | Some ReserveNotConfigured => owned_by w' r = None
    | Some ReserveAlreadyHeld | None => True
    end.

Lemma attempted_stable {A} (f : A -> option ReserveOutcome) r t w :
  stable (fun out => attempted r t w (f out)).
Proof.
  intros out l w' (E & O & H) [_ K]. split; [done|].
  assert (K' : forall r', owned_by (set_ledger l w') r' = owned_by w' r') by apply K.
  split; [intros r' N; rewrite K'; auto|]. destruct (f out) as [[]|]; rewrite ?K'; done.
Qed.

Lemma attempted_trans r t w w1 w2 out :
  attempted r t w None w1 -> attempted r t w1 out w2 -> attempted r t w out w2.
Proof.
  intros (E1 & O1 & _) (E2 & O2 & H). split; [congruence|]. split; [|done].
  intros r' N. rewrite O2, O1; done.
Qed.

Lemma attempt_spec why r g t a w :
  safe w -> acquires (w_state w) !! ph r = Some a -> aq_target_attempt_token a = t ->
  wps (ledger_call why (fun env l => cl_acquire_with_attempt_token env (ph r) PReserved g t l))
    (okay (fun out => attempted r t w (reserve_outcome out))) w.
Proof.
  intros S A T. apply wps_ledger; [done|]. intros l env R.
  destruct (safe_others _ _ _ _ S R) as [O G C K]. destruct R as [_ R]. cbn in *.
  pose proof (law_acquire env (ph r) PReserved g t l O) as H.
  destruct (cl_acquire_with_attempt_token env (ph r) PReserved g t l) as [l' out]. cbn in *.
  destruct H as (O' & F & H1 & H2).
  assert (Oth : forall r', r' ≠ r -> held l' (ph r') = held (w_ledger w) (ph r')).
  { intros r' N. rewrite F; [apply R|]. by intros []%permit_holder_inj. }
  assert (S' : safe (World l' (w_state w) (w_lane w))).
  { split; cbn; [done..| |done]. intros r' lane t' E. cbn in *. destruct (decide (r' = r)) as [->|N].
    - destruct out as [[t1| | | |]|]; destruct_and?; try (rewrite H1 in E; by apply (C r lane t')).
      + right. exists a. split; [done|]. congruence.
      + apply (C r lane t'). cbn. congruence.
    - rewrite Oth in E by done. apply (C r' lane t'). cbn. by rewrite R. }
  destruct out as [out|e]; [|by apply wps_fail]. apply wps_mret; [apply attempted_stable|done|].
  split; [done|]. split; [exact Oth|]. unfold owned_by. cbn.
  destruct out; cbn; destruct_and?; try done; congruence.
Qed.

Lemma reserve_spec r g t a w :
  safe w -> acquires (w_state w) !! ph r = Some a -> aq_target_attempt_token a = t ->
  wps (reserve_for_offer_with_token (ph r) g t)
    (okay (fun out => attempted r t w (Some out.1))) w.
Proof.
  intros S A T. unfold reserve_for_offer_with_token, reserve_with.
  eapply wps_bind; [by eapply attempt_spec|]. intros out w1 S1 H1.
  destruct (reserve_outcome out) eqn:E1; cbv beta in H1; rewrite E1 in H1.
  { apply wps_mret; [apply (attempted_stable (fun out => Some out.1))|done..]. }
  eapply (wps_bind (fun _ => attempted r t w None)).
  { apply wps_ledger; [done|]. intros l env R. pose proof (safe_others _ _ _ _ S1 R) as S2. cbn.
    destruct (cl_generation l); [|by apply wps_fail].
    apply wps_mret; [apply (attempted_stable (fun _ => None))|done|].
    by apply (attempted_stable (fun _ : unit => None) r t w tt l w1). }
  intros fresh w2 S2 H2. assert (A2 : acquires (w_state w2) !! ph r = Some a) by (by destruct H2 as [-> _]).
  eapply wps_bind; [by eapply attempt_spec|]. intros out' w3 S3 H3.
  destruct (reserve_outcome out') eqn:E3; cbv beta in H3; rewrite E3 in H3; [|by apply wps_fail].
  apply wps_mret; [apply (attempted_stable (fun out => Some out.1))|done|]. by eapply attempted_trans.
Qed.

(** A row moves its token, or a stage goes, and the permit stays on file. *)
Lemma safe_move l s s' (x : W) r o o' :
  safe (World l s x) -> offers s !! r = Some o -> same_offer o o' -> o_state o = "granted"%string ->
  offers s' = <[r := o']> (offers s) ->
  (forall h, h ≠ ph r -> acquires s' !! h = acquires s !! h) ->
  (is_Some (acquires s' !! ph r) -> is_Some (acquires s !! ph r)) ->
  releases s' = releases s -> batches s' = batches s ->
  (forall lane t, held l (ph r) = Some (lane, t) -> on_file config r t s') ->
  safe (World l s' x).
Proof.
  intros [O [G1 G2 G3] C K] E Sm Gr Of A A' R B Fl. cbn in *.
  assert (Kp : offers_kept s s').
  { intros r' o1 E1. rewrite Of. destruct (decide (r' = r)) as [->|].
    - rewrite lookup_insert_eq. exists o'. split; [done|]. congruence.
    - rewrite lookup_insert_ne by done. exists o1. split; [done|reflexivity]. }
  pose proof Sm as (_ & _ & Sq & Pr).
  split; cbn; [done| | |etransitivity; [exact K|split; [done|by apply batches_kept_same]]].
  - split; rewrite ?Of.
    + intros r' o1. rewrite lookup_insert_Some. intros [[<- <-]|[N E1]]; [|eauto].
      intros _. rewrite Pr. eauto.
    + intros r1 r2 o1 o2. rewrite !lookup_insert_Some.
      intros [[<- <-]|[N1 E1]] [[<- <-]|[N2 E2]] Q; try done; [| |eauto].
      * apply (G2 r r2 o o2); congruence.
      * apply (G2 r1 r o1 o); congruence.
    + intros h. rewrite R. destruct (decide (h = ph r)) as [->|N]; [auto|]. rewrite A by done. auto.
  - intros r' lane t H. cbn in H. destruct (decide (r' = r)) as [->|N]; [eauto|]. cbn.
    destruct (C r' lane t H) as [(o1 & E1 & T)|(a & E1 & T)].
    + left. exists o1. rewrite Of, lookup_insert_ne; done.
    + right. exists a. rewrite A; [done|]. by intros []%permit_holder_inj.
Qed.

Record taken_ok (w : world) (t : Taken) : Prop := {
  to_holder : tk_holder t = ph (tk_request_id t);
  to_token : tk_attempt_token t ≠ ""%string;
  to_permit : owned_by w (tk_request_id t) = Some (LaneScaleSet, tk_attempt_token t);
  to_row : exists o, offers (w_state w) !! tk_request_id t = Some o ∧ o_scale_set_id o = set_id
             ∧ o_state o = "granted"%string ∧ o_permit_attempt_token o = Some (tk_attempt_token t);
}.

Definition stage_for (t : Taken) (st : StagedAttemptAcquire) : Prop :=
  sa_holder st = ph (tk_request_id t) ∧ sa_scale_set_id st = set_id
  ∧ sa_request_id st = tk_request_id t ∧ sa_target_attempt_token st = tk_attempt_token t.

(** Nothing about [t] changed from [w] to [w']. *)
Lemma taken_ok_same w w' t :
  owned_by w' (tk_request_id t) = owned_by w (tk_request_id t) ->
  offers (w_state w') !! tk_request_id t = offers (w_state w) !! tk_request_id t ->
  taken_ok w t -> taken_ok w' t.
Proof. intros E1 E2 [H1 H2 H3 H4]. split; [done..|congruence|]. by rewrite E2. Qed.

Lemma taken_ok_ledger l w t : others (w_ledger w) l -> taken_ok w t -> taken_ok (set_ledger l w) t.
Proof. intros [_ K]. by apply taken_ok_same; [apply K|]. Qed.

Record pass (w : world) (taken : list Taken) (staged : list StagedAttemptAcquire) (rest : list Z) : Prop := {
  ps_rows : Forall (taken_ok w) taken;
  ps_stages : Forall2 stage_for taken staged;
  ps_distinct : NoDup ((tk_request_id <$> taken) ++ rest);
  ps_bound : (length taken + length rest <= cfg_max_acquire_batch config)%nat;
}.

Lemma pass_ledger l w taken staged rest :
  others (w_ledger w) l -> pass w taken staged rest -> pass (set_ledger l w) taken staged rest.
Proof.
  intros R [H1 H2 H3 H4]. split; [|done..]. eapply Forall_impl; [exact H1|]. intros t. by apply taken_ok_ledger.
Qed.

(** The pass goes on with other requests. *)
Lemma pass_step w w' taken staged r rest :
  pass w taken staged (r :: rest) ->
  (forall r', r' ≠ r -> owned_by w' r' = owned_by w r' ∧ offers (w_state w') !! r' = offers (w_state w) !! r') ->
  pass w' taken staged (r :: rest).
Proof.
  intros [H1 H2 H3 H4] E. split; [|done..]. apply Forall_forall. intros t Et.
  assert (N : tk_request_id t ≠ r).
  { apply NoDup_app in H3 as (_ & D & _). intros <-. apply (D (tk_request_id t)).
    - apply list_elem_of_fmap. eauto.
    - by left. }
  destruct (E _ N). eapply taken_ok_same; [done..|]. by eapply Forall_forall in H1.
Qed.

Lemma pass_taken w taken staged r rest t st :
  pass w taken staged (r :: rest) -> tk_request_id t = r -> taken_ok w t -> stage_for t st ->
  pass w (taken ++ [t]) (staged ++ [st]) rest.
Proof.
  intros [H1 H2 H3 H4] <- T St. split.
  - apply Forall_app. by rewrite Forall_singleton.
  - apply Forall2_app; [done|]. by constructor.
  - rewrite fmap_app, <- (assoc_L (++)). done.
  - rewrite length_app. cbn in *. lia.
Qed.

Lemma pass_done w taken staged rest : pass w taken staged rest -> pass w taken staged [].
Proof.
  intros [H1 H2 H3 H4]. split; [done..| |cbn; lia]. rewrite app_nil_r. by apply NoDup_app in H3 as (? & _).
Qed.

Lemma pass_other l w s' taken staged r rest :
  others (w_ledger w) l -> (forall r', r' ≠ r -> offers s' !! r' = offers (w_state w) !! r') ->
  pass w taken staged (r :: rest) -> pass (World l s' (w_lane w)) taken staged (r :: rest).
Proof. intros [_ K] E P. eapply pass_step; [done|]. intros r' N. split; [apply K|by apply E]. Qed.

Lemma stage_step r prev t taken staged rest w :
  safe w -> pass w taken staged (r :: rest) ->
  wps (store (fun _ => stage_attempt_acquire (ph r) set_id r prev t))
    (okay (fun st w' => st = stage_of set_id r prev t ∧ t ≠ ""%string
             ∧ acquires (w_state w') !! ph r = Some (acquire_of st)
             ∧ pass w' taken staged (r :: rest))) w.
Proof.
  intros S P. pose proof (stage_acquire_spec (w_state w) set_id r prev t) as H.
  destruct (run_tx _ _) as [s' out] eqn:E. destruct H as [C H].
  apply wps_store_calm; [|done|intros _; by rewrite E|].
  - intros st l w' (? & ? & ? & ?) R. split_and!; [done..|by apply pass_ledger].
  - intros l now s1 st R E1 _ _. rewrite E in E1. injection E1 as -> ->.
    destruct H as (-> & T & O & _ & A & _). split_and!; [done..|].
    apply pass_other; [done| |done]. intros. by rewrite O.
Qed.

Lemma finish_taken r prev t taken staged rest w :
  safe w -> pass w taken staged (r :: rest) -> owned_by w r = Some (LaneScaleSet, t) -> t ≠ ""%string ->
  wps (store (finish_attempt_acquire (stage_of set_id r prev t) true))
    (okay (fun _ w' => pass w' (taken ++ [{| tk_request_id := r; tk_holder := ph r; tk_attempt_token := t |}])
                         (staged ++ [stage_of set_id r prev t]) rest)) w.
Proof.
  intros S P Hd T. apply wps_store; [|done|].
  { intros _ l w' P' R. by apply pass_ledger. }
  intros l now R. pose proof (finish_acquire_spec (w_state w) (stage_of set_id r prev t) true now) as F.
  destruct (run_tx _ _) as [s' [b|e]]; cbn in F |- *; [|subst s'; split; [by apply (safe_others _ _ _ _ S)|done]].
  destruct F as (B & Rl & o & (E & Os & Og) & A & o' & Of & Sm & Og' & To').
  cbn in E, Os, Of. assert (Hl : held l (ph r) = Some (LaneScaleSet, t)) by (by destruct R as [_ ->]).
  assert (E' : offers s' !! r = Some o') by (by rewrite Of, lookup_insert_eq).
  split.
  - eapply (safe_move l (w_state w)); try done; [by apply (safe_others _ _ _ _ S)|by rewrite A..|].
    intros lane t' H. left. exists o'. split; [done|]. rewrite To'. cbn. congruence.
  - intros _ _. eapply pass_taken; [|done| |done].
    + apply (pass_other l w s' taken staged r rest); [done| |done].
      intros r' N. by rewrite Of, lookup_insert_ne.
    + split; cbn; [done..|]. exists o'. destruct Sm as (Ss & _). split_and!; [done|congruence|done..].
Qed.

Lemma finish_absent r prev t taken staged rest w :
  safe w -> pass w taken staged (r :: rest) -> owned_by w r = None ->
  wps (store (finish_attempt_acquire (stage_of set_id r prev t) false))
    (okay (fun _ w' => pass w' taken staged (r :: rest))) w.
Proof.
  intros S P Hd. apply wps_store; [|done|].
  { intros _ l w' P' R. by apply pass_ledger. }
  intros l now R. pose proof (finish_acquire_spec (w_state w) (stage_of set_id r prev t) false now) as F.
  destruct (run_tx _ _) as [s' [b|e]]; cbn in F |- *; [|subst s'; split; [by apply (safe_others _ _ _ _ S)|done]].
  destruct F as (B & Rl & o & (E & Os & Og) & Of & A). cbn in E, Os, A.
  assert (Hl : held l (ph r) = None) by (by destruct R as [_ ->]).
  split.
  - eapply (safe_move l (w_state w) s' _ r o o); try done; [by apply (safe_others _ _ _ _ S)| | | |].
    + by rewrite insert_id.
    + intros h N. by rewrite A, lookup_delete_ne.
    + rewrite A, lookup_delete_eq. by intros [].
    + intros lane t'. congruence.
  - intros _ _. apply pass_other; [done| |done]. intros. by rewrite Of.
Qed.

Lemma reserve_candidates_spec candidates g taken staged w :
  safe w -> pass w taken staged (dm_request_id <$> candidates) ->
  wps (reserve_candidates config candidates g taken staged)
    (okay (fun x w' => pass w' x.1.2 x.2 [])) w.
Proof.
  assert (St : stable (fun (x : Z * list Taken * list StagedAttemptAcquire) w' => pass w' x.1.2 x.2 []))
    by (intros x l w' P R; by apply pass_ledger).
  revert g taken staged w. induction candidates as [|c cs IH]; intros g taken staged w S P; cbn [reserve_candidates].
  { by apply wps_mret. }
  set (r := dm_request_id c) in *. change (dm_request_id <$> c :: cs) with (r :: (dm_request_id <$> cs)) in P.
  eapply (wps_bind (fun t w' => t ≠ ""%string ∧ pass w' taken staged (r :: (dm_request_id <$> cs)))).
  { apply wps_token; [done|]. intros l t R T. pose proof (safe_others _ _ _ _ S R) as S'.
    apply wps_mret; [|done|split; [done|by apply pass_ledger]].
    intros t' l' w' [? ?] R'. split; [done|by apply pass_ledger]. }
  clear w S P. intros t w S [T P]. eapply wps_bind; [by apply stage_step|].
  clear w S P. intros st w S (-> & _ & A & P). eapply wps_bind; [by eapply reserve_spec|].
  intros [out landed] w1 S1 (Ew & Ot & H). cbn in H.
  assert (P1 : pass w1 taken staged (r :: (dm_request_id <$> cs))).
  { eapply pass_step; [exact P|]. intros r' N. rewrite Ew. auto. }
  destruct out.
  - destruct H as [-> Hd]. rewrite decide_False by (intros []; done).
    eapply wps_bind; [by eapply finish_taken|]. intros b w2 S2 P2. by apply IH.
  - by apply wps_fail.
  - eapply wps_bind; [by eapply finish_absent|]. intros b w2 S2 P2. apply wps_mret; [done..|eapply pass_done, P2].
  - eapply wps_bind; [by eapply finish_absent|]. intros b w2 S2 P2. apply wps_mret; [done..|eapply pass_done, P2].
Qed.

(** ** The batch and the call *)

Lemma record_intended_offers b set ids hs ts g now s :
  offers (run_tx (record_intended b set ids hs ts g now) s).1 = offers s.
Proof.
  apply (run_tx_post _ (fun s' => offers s' = offers s)); [done|]. unfold record_intended.
  by repeat store_step.
Qed.

Lemma set_state_owned_spec r st reason g t now s s' :
  run_tx (set_state_owned r st reason g t now) s = (s', Ok tt) ->
  exists o, offers s !! r = Some o ∧ o_permit_attempt_token o = Some t
    ∧ s' = with_offers (<[r := offer_set_state (OfferState_as_str st) reason g now o]> (offers s)) s.
Proof.
  unfold set_state_owned, update_offer, run_tx, tx_bind, commit, throw.
  repeat (case_match; try done). all: intros [= <-]; simplify_eq; eauto.
Qed.

(** A reserved request on its way to the queue, with its row in state [st]. *)
Record member (w : world) (st : string) (t : Taken) : Prop := {
  mb_token : tk_attempt_token t ≠ ""%string;
  mb_permit : owned_by w (tk_request_id t) = Some (LaneScaleSet, tk_attempt_token t);
  mb_durable : durable set_id (tk_request_id t) (tk_attempt_token t) (w_state w);
  mb_row : exists o, offers (w_state w) !! tk_request_id t = Some o ∧ o_scale_set_id o = set_id
             ∧ o_state o = st ∧ o_permit_attempt_token o = Some (tk_attempt_token t)
             ∧ classify_probe (offer_probe o) = Trusted;
}.

Lemma member_backed w t : member w "acquire_intent" t -> backed config w (tk_request_id t).
Proof. intros [H1 H2 H3 (o & E & ? & ? & ? & ?)]. exists o, (tk_attempt_token t). done. Qed.

Lemma member_same w w' st t :
  owned_by w' (tk_request_id t) = owned_by w (tk_request_id t) -> batches (w_state w') = batches (w_state w) ->
  offers (w_state w') !! tk_request_id t = offers (w_state w) !! tk_request_id t ->
  member w st t -> member w' st t.
Proof.
  intros E1 E2 E3 [H1 H2 H3 H4]. split; [done|congruence| |by rewrite E3].
  unfold durable in *. by rewrite E2.
Qed.

Lemma taken_member w t :
  safe w -> taken_ok w t -> durable set_id (tk_request_id t) (tk_attempt_token t) (w_state w) ->
  member w "granted" t.
Proof.
  intros S [H1 H2 H3 (o & E & ? & ? & ?)] D. split; [done..|]. exists o. split_and!; try done.
  by apply (good_trust _ (safe_good _ _ _ S) _ _ E).
Qed.

(** Completing the stages proves that the batch is on disk. *)
Definition recorded (taken : list Taken) (staged : list StagedAttemptAcquire) (w : world) : Prop :=
  Forall (fun t => taken_ok w t ∧ (durable set_id (tk_request_id t) (tk_attempt_token t) (w_state w)
                                   ∨ exists st, st ∈ staged ∧ stage_for t st)) taken.

Lemma recorded_stable taken (staged : list StagedAttemptAcquire) :
  stable (fun _ : unit => recorded taken staged).
Proof.
  intros _ l w H R. eapply Forall_impl; [exact H|]. intros t [? ?]. split; [by apply taken_ok_ledger|done].
Qed.

Lemma finish_batch_step taken st staged w :
  safe w -> recorded taken (st :: staged) w ->
  (exists t, t ∈ taken ∧ stage_for t st) ->
  wps (store (fun _ => finish_attempt_acquire_batch st);; mret tt) (okay (fun _ => recorded taken staged)) w.
Proof.
  intros S H (t0 & E0 & Hh & Hs & Hr & Ht).
  pose proof (proj1 (Forall_forall _ _) H t0 E0) as [T0 _].
  eapply (wps_bind (fun _ => recorded taken staged)).
  2:{ intros _ w' S' H'. apply wps_mret; [apply recorded_stable|done..]. }
  apply wps_store; [|done|].
  { intros _. apply (recorded_stable _ _ tt). }
  intros l now R. pose proof (finish_acquire_batch_spec (w_state w) st) as F. cbv zeta.
  destruct (run_tx _ _) as [s' [b|e]]; cbn in F |- *; [|subst s'; split; [by apply (safe_others _ _ _ _ S)|done]].
  destruct F as (B & Rl & Of & A & (o & (E & Os & Og) & To) & D). rewrite Hr in E.
  assert (D' : durable (sa_scale_set_id st) (sa_request_id st) (sa_target_attempt_token st) s').
  { unfold durable in *. by rewrite B. }
  split.
  - eapply (safe_move l (w_state w) s' _ _ o o); [by apply (safe_others _ _ _ _ S)|done..| | | | | |].
    + by rewrite Of, insert_id.
    + intros h N. by rewrite A, Hh, lookup_delete_ne.
    + rewrite A, Hh, lookup_delete_eq. by intros [].
    + done.
    + done.
    + intros lane t' Hl. destruct R as [_ R]. rewrite R in Hl.
      pose proof (to_permit _ _ T0) as Hp. unfold owned_by in Hp. rewrite Hp in Hl. injection Hl as _ <-.
      left. exists o. rewrite Of. split; [done|]. by rewrite To, Ht.
  - intros _ _. eapply Forall_impl; [exact H|]. intros t [T Dt]. split.
    + eapply taken_ok_same; [| |exact T]; [apply R|by cbn; rewrite Of].
    + destruct Dt as [Dt|(st' & [->|E']%elem_of_cons & (S1 & S2 & S3 & S4))].
      * left. cbn. unfold durable in *. by rewrite B.
      * left. cbn. by rewrite <- S2, <- S3, <- S4.
      * right. exists st'. by split_and!.
Qed.

(** Moving the rows to [acquire_intent], one by one. *)
Lemma find_taken taken t :
  NoDup (tk_request_id <$> taken) -> t ∈ taken ->
  List.find (fun x => tk_request_id x =? tk_request_id t) taken = Some t.
Proof.
  induction taken as [|x taken IH]; cbn; [by intros _ ?%elem_of_nil|].
  intros [N ND]%NoDup_cons [->|E]%elem_of_cons; [by rewrite Z.eqb_refl|].
  destruct (Z.eqb_spec (tk_request_id x) (tk_request_id t)) as [Q|]; [|auto].
  destruct N. rewrite Q. apply list_elem_of_fmap. eauto.
Qed.

Definition intent_text (rest : list Z) (t : Taken) : string :=
  if decide (tk_request_id t ∈ rest) then "granted" else "acquire_intent".

Definition intending (taken : list Taken) (rest : list Z) (w : world) : Prop :=
  NoDup (tk_request_id <$> taken) ∧ NoDup rest ∧ rest ⊆ (tk_request_id <$> taken)
  ∧ Forall (fun t => member w (intent_text rest t) t) taken.

Lemma intending_stable taken rest : stable (fun _ : unit => intending taken rest).
Proof.
  intros _ l w (N & N' & Sb & F) [_ R]. split_and!; [done..|]. eapply Forall_impl; [exact F|].
  intros t. by apply member_same; [apply R|..].
Qed.

Lemma intent_step taken g r rest w :
  safe w -> intending taken (r :: rest) w ->
  wps (set_taken_state taken DAcquireIntent g r) (okay (fun _ => intending taken rest)) w.
Proof.
  intros S (N & [Nr N']%NoDup_cons & Sb & F).
  assert (Er : r ∈ tk_request_id <$> taken) by (apply Sb; by left).
  apply list_elem_of_fmap in Er as (t & -> & Et).
  unfold set_taken_state, taken_token. rewrite find_taken by done.
  eapply (wps_bind (fun tok w' => tok = tk_attempt_token t ∧ intending taken (tk_request_id t :: rest) w')).
  { apply wps_mret; [|done|]. 
    - intros tok l w' [-> H] R. split; [done|]. by apply (intending_stable _ _ tt).
    - split; [done|]. split_and!; [done| |done..]. by apply NoDup_cons. }
  clear w S F. intros tok w S (-> & _ & _ & _ & F).
  apply wps_store_calm; [apply intending_stable|done|intros; by apply set_state_owned_calm|].
  intros l now s' [] R (o & E & To & ->)%set_state_owned_spec _ _. split_and!; [done..| |].
  { set_solver. }
  apply Forall_forall. intros x Ex. pose proof (proj1 (Forall_forall _ _) F x Ex) as M.
  destruct (decide (tk_request_id x = tk_request_id t)) as [Q|Nq].
  - assert (x = t) as ->.
    { pose proof (find_taken taken x N Ex) as F1. rewrite Q, find_taken in F1 by done. congruence. }
    destruct M as [M1 M2 M3 (o' & E' & M4 & M5 & M6 & M7)]. split; [done| |done|].
    + unfold owned_by in *. cbn. by rewrite (proj2 R).
    + cbn. rewrite lookup_insert_eq. eexists. split; [done|]. assert (o' = o) as -> by congruence. cbn.
      unfold intent_text. rewrite decide_False by done. done.
  - assert (Tx : intent_text rest x = intent_text (tk_request_id t :: rest) x).
    { unfold intent_text. repeat case_decide; set_solver. }
    rewrite Tx. eapply member_same; [apply R|done| |exact M]. cbn. by rewrite lookup_insert_ne.
Qed.

(** The four stretches of [acquire_batch]. *)
Lemma record_batch taken staged b g w :
  safe w -> Forall (taken_ok w) taken -> Forall2 stage_for taken staged ->
  wps (store (record_intended b set_id (tk_request_id <$> taken) (tk_holder <$> taken)
                (tk_attempt_token <$> taken) g)) (okay (fun _ => recorded taken staged)) w.
Proof.
  intros S F Sg.
  apply wps_store_calm; [intros ?; apply (recorded_stable _ _ tt)|done|intros; apply record_intended_calm|].
  intros l now s' r R E _ _. pose proof (record_intended_offers b set_id (tk_request_id <$> taken)
    (tk_holder <$> taken) (tk_attempt_token <$> taken) g now (w_state w)) as O. rewrite E in O. cbn in O.
  apply Forall_forall. intros t Et. split.
  - eapply taken_ok_same; [apply R|by cbn; rewrite O|]. by apply (proj1 (Forall_forall _ _) F).
  - right. apply list_elem_of_lookup_1 in Et as [i Ei].
    destruct (Forall2_lookup_l _ _ _ _ _ Sg Ei) as (st & Es & H). exists st. split; [|done].
    by eapply list_elem_of_lookup_2.
Qed.

Lemma finish_stages taken staged w :
  safe w -> recorded taken staged w -> Forall2 stage_for taken staged ->
  wps (for_each (fun stage => store (fun _ => finish_attempt_acquire_batch stage);; mret tt) staged)
    (okay (fun _ => recorded taken [])) w.
Proof.
  intros S F Sg.
  assert (Fr : Forall (fun st => exists t, t ∈ taken ∧ stage_for t st) staged).
  { apply Forall_forall. intros st [i Ei]%list_elem_of_lookup_1.
    destruct (Forall2_lookup_r _ _ _ _ _ Sg Ei) as (t & Et & H). exists t. split; [|done].
    by eapply list_elem_of_lookup_2. }
  eapply wp_mono; [|apply (wps_each (fun rest w => recorded taken rest w
      ∧ Forall (fun st => exists t, t ∈ taken ∧ stage_for t st) rest)); [| |exact S|done]].
  - intros [[]|] w' _; cbn; [by intros [? _]|done].
  - intros rest [] l w' [H1 H2] R. split; [|done]. by apply (recorded_stable _ _ tt).
  - clear w S F Fr Sg. intros st rest w S [F [E Fr]%Forall_cons].
    eapply wp_mono; [|by apply (finish_batch_step taken st rest)]. intros [[]|]; cbn; auto.
Qed.

Lemma mark_intended taken g w :
  safe w -> recorded taken [] w -> NoDup (tk_request_id <$> taken) ->
  wps (for_each (set_taken_state taken DAcquireIntent g) (tk_request_id <$> taken))
    (okay (fun _ => intending taken [])) w.
Proof.
  intros S F N. apply (wps_each (intending taken)); [apply intending_stable| |done|].
  - intros. by apply intent_step.
  - split_and!; [done..|]. apply Forall_forall. intros t Et.
    destruct (proj1 (Forall_forall _ _) F t Et) as [T [D|(st & ?%elem_of_nil & _)]]; [|done].
    unfold intent_text. rewrite decide_True; [by apply taken_member|]. apply list_elem_of_fmap. eauto.
Qed.

Lemma intending_ask taken l w :
  intending taken [] w -> (length taken <= cfg_max_acquire_batch config)%nat -> others (w_ledger w) l ->
  ask config (tk_request_id <$> taken) (set_ledger l w).
Proof.
  intros H B R. apply (intending_stable _ _ tt l w) in H as (N & _ & _ & F); [|done].
  split; [done|]. split; [by rewrite length_fmap|]. apply Forall_fmap. eapply Forall_impl; [exact F|].
  intros t. apply member_backed.
Qed.

Lemma safe_acquire_batch taken staged g w :
  safe w -> pass w taken staged [] -> wps (acquire_batch config taken staged g) (okay (fun _ _ => True)) w.
Proof.
  intros S [F Sg N Bd]. rewrite app_nil_r in N. cbn in Bd. rewrite Nat.add_0_r in Bd. unfold acquire_batch.
  assert (St : forall A, stable (fun (_ : A) w' => Forall (taken_ok w') taken)).
  { intros A _ l' w' H R'. eapply Forall_impl; [exact H|]. intros t. by apply taken_ok_ledger. }
  eapply (wps_bind (fun _ w' => Forall (taken_ok w') taken)).
  { apply wps_mint; [done|]. intros l b R. pose proof (safe_others _ _ _ _ S R).
    apply wps_mret; [apply St|done|by apply (St unit tt)]. }
  clear w S F. intros b w S F. eapply wps_bind; [apply record_batch; [exact S|exact F|exact Sg]|].
  clear w S F. intros ? w S F. eapply wps_bind; [apply finish_stages; [exact S|exact F|exact Sg]|].
  clear w S F. intros ? w S F. eapply wps_bind; [apply mark_intended; [exact S|exact F|exact N]|].
  clear w S F. intros ? w S F. eapply (wps_bind (fun _ _ => True)).
  { apply wps_acquire; [done|intros; by apply intending_ask|]. intros l answer R.
    apply wps_mret; [done|by apply safe_others|done]. }
  clear w S F. intros answer w S _. apply wps_safe; [|done]. clear w S. solve_safe.
Qed.

Lemma safe_acquire_pass stats : safe_prog (W := W) config s0 (ask config) (acquire_pass config stats).
Proof.
  unfold acquire_pass. destruct stats as [stats|]; [|apply safe_mret].
  apply safe_bind; [solve_safe|]. intros local. cbv zeta.
  set (headroom := match reconcile_population stats local with AcquireMore _ _ h => h | Hold _ _ => 0 end).
  destruct (headroom =? 0); [apply safe_mret|]. intros w S. apply (okay_safe _ (fun _ _ => True)).
  eapply (wps_bind (fun cs _ => NoDup (dm_request_id <$> cs)
                                ∧ (length cs <= cfg_max_acquire_batch config)%nat)).
  { apply wps_read; [of_state|done|]. intros l cs _ (_ & _ & B & N)%oldest_known. split; [done|lia]. }
  clear w S. intros cs w S [N B]. destruct cs as [|c cs]; [by apply wps_mret|].
  eapply (wps_bind (fun _ _ => True)); [apply wps_safe; [solve_safe|done]|].
  clear w S. intros _ w S _.
  eapply (wps_bind (fun _ _ => True)); [apply wps_safe; [solve_safe|done]|].
  clear w S. intros g w S _. eapply wps_bind; [apply reserve_candidates_spec; [exact S|]|].
  { split; [constructor|constructor|exact N|]. cbn in *. by rewrite length_fmap. }
  clear w S. intros [[g' taken] staged] w S P. cbn in P. destruct taken as [|t taken]; [by apply wps_mret|].
  by apply safe_acquire_batch.
Qed.

Lemma safe_scale cached message : safe_prog (W := W) config s0 (ask config) (scale config cached message).
Proof.
  pose proof safe_acquire_pass. pose proof safe_grant_oldest.
  unfold scale, scale_idle, scale_initial, scale_message, count_if. solve_safe; auto.
Qed.

End Acquire.
