(* ===== verification/ScaleRecovery.v ===== *)
(** * Scale sets: recovery is safe

    [startup] and [idle_poll] keep the databases safe at every point where
    they may be cut short; [startup] sends nothing to the job queue, and
    [idle_poll] only repeats a request that a durable batch records under the
    row's own token. *)

From Stdlib Require Import ZArith Lia.
From stdpp Require Import base gmap sets list strings sorting.
From S2P Require Import Prelude Numerals LedgerData ScaleIds ScaleData ScaleStores ScaleProg ScaleCapacity ScaleContract ScaleProcessor ScaleReconcile ScaleStoreProofs ScaleSafety.
#[local] Open Scope Z_scope.

(** What recovery needs of the worker lane and the process table. *)
Class SafeRecovery {L W : Type} `{CC : CapacityContract L} (config : ProcessorConfig)
    (RL : RecoveryLane L W ledger_error) := {
  safe_owns_cleanup s0 Ask r : safe_prog config s0 Ask (lane_owns_terminal_cleanup r);
  safe_released_pending s0 Ask r : safe_prog config s0 Ask (lane_worker_released_pending_observation r);
  safe_pid_alive s0 Ask pid : safe_prog config s0 Ask (pid_alive pid);
}.
#[export] Hint Resolve safe_owns_cleanup safe_released_pending safe_pid_alive : safe.
#[export] Hint Resolve safe_get_present safe_held_now safe_finish_release safe_fenced_transition
  safe_reset_grants : safe.

Lemma quiet_reconcile {L : Type} `{CC : CapacityContract L} alive :
  quiet (fun env l => cl_reconcile_attempts env alive l).
Proof. intros env l O. destruct (law_reconcile env alive l O). eauto. Qed.
Lemma quiet_answer {L R : Type} `{CC : CapacityContract L} (f : Env -> L -> result R ledger_error) :
  quiet (fun env l => (l, f env l)).
Proof. intros env l O. split; [done|]. by left. Qed.
#[export] Hint Resolve quiet_reconcile quiet_answer : safe.

Section Recovery.
Context {L W : Type} `{CC : CapacityContract L} (config : ProcessorConfig).
Context `{RL : !RecoveryLane L W ledger_error} `{SR : !SafeRecovery config RL} `{RFC : Rfc3339}.
Abbreviation set_id := (cfg_scale_set_id config).
Abbreviation world := (ScaleProg.world L W).

Section Quiet.
Context (s0 : StateDb) (Ask : list Z -> world -> Prop).
Abbreviation ok p := (safe_prog (W := W) config s0 Ask p).

Lemma safe_try {A} (x : result A StoreFailure) : ok (try_ x).
Proof. unfold try_. solve_safe. Qed.
Lemma safe_active_token row : ok (active_attempt_token row).
Proof. unfold active_attempt_token. solve_safe. Qed.
Lemma safe_is_current h t : ok (is_current h t).
Proof. unfold is_current. solve_safe. Qed.
Lemma safe_dead_holder h : ok (require_dead_holder h).
Proof. unfold require_dead_holder. solve_safe. Qed.
Lemma safe_owned_release set r h t k n : ok (owned_release set r h t k n).
Proof. unfold owned_release. solve_safe. Qed.
#[local] Hint Resolve safe_try safe_active_token safe_is_current safe_dead_holder safe_owned_release : safe.

Lemma safe_must_release why set r h t k n : ok (must_release why set r h t k n).
Proof. unfold must_release. solve_safe. Qed.
#[local] Hint Resolve safe_must_release : safe.

Lemma safe_startup : ok (startup set_id).
Proof.
  unfold startup, recover_unbatched, orphan_batch, check_member, mark_member, release_stale_grant,
    confirm_row. solve_safe.
Qed.

Lemma safe_resolve g batch : ok (resolve_from_observations g batch).
Proof.
  unfold resolve_from_observations, collect_row, settle_member, fenced_release_orphan. solve_safe.
Qed.

Lemma safe_member_token why batch r : ok (member_token why batch r).
Proof. unfold member_token. solve_safe. Qed.
#[local] Hint Resolve safe_member_token : safe.

Lemma safe_reacquired batch canceled g r : ok (reacquired_member batch canceled g r).
Proof. unfold reacquired_member. case_decide; solve_safe. Qed.
Lemma safe_missing batch canceled r : ok (missing_member batch canceled r).
Proof. unfold missing_member. solve_safe. Qed.

End Quiet.

(** ** Requests that are sent again *)

Definition resendable (w : world) (r : Z) : Prop :=
  exists o t, offers (w_state w) !! r = Some o
    ∧ (o_state o = "uncertain"%string ∨ o_state o = "canceled_pending"%string)
    ∧ o_permit_attempt_token o = Some t ∧ t ≠ ""%string ∧ durable set_id r t (w_state w).

Definition resend (ids : list Z) (w : world) : Prop := Forall (resendable w) ids.

(** A batch read from the store is still there, with its members. *)
Definition known_batch (batch : AcquireBatch) (s : StateDb) : Prop :=
  exists b, batches s !! ab_batch_id batch = Some b ∧ b_scale_set_id b = set_id
    ∧ b_request_ids b = ab_request_ids batch ∧ b_attempt_tokens b = ab_attempt_tokens batch.

Lemma known_batch_kept batch s s' : history_kept s s' -> known_batch batch s -> known_batch batch s'.
Proof.
  intros [_ K] (b & E & ? & ? & ?). destruct (K _ _ E) as (b' & E' & ? & ? & ? & ?).
  exists b'. split_and!; congruence.
Qed.

Lemma open_batches_known limit s open :
  open_batches set_id limit s = Ok open -> Forall (fun batch => known_batch batch s) open.
Proof.
  unfold open_batches. intros F%result_map_Forall2. apply Forall_forall.
  intros batch [i Ei]%list_elem_of_lookup_1. destruct (Forall2_lookup_r _ _ _ _ _ F Ei) as ([id b] & Er & H).
  apply list_elem_of_lookup_2 in Er. apply elem_of_take in Er as (j & Er%list_elem_of_lookup_2 & _).
  rewrite merge_sort_Permutation, list_elem_of_filter, batches_of_set_elem in Er.
  destruct Er as (_ & E & S). cbn in *.
  unfold row_to_batch in H. destruct (BatchState_parse _); [|done]. injection H as <-. exists b. done.
Qed.

Lemma batch_token_durable batch r t s :
  known_batch batch s -> batch_attempt_token batch r = Ok t -> t ≠ ""%string ∧ durable set_id r t s.
Proof.
  intros (b & E & Sb & I & T). unfold batch_attempt_token.
  destruct (ab_attempt_tokens batch) as [tokens|]; [|done]. case_decide; [done|].
  destruct (position r (ab_request_ids batch)) as [i|] eqn:P; [|done].
  destruct (tokens !! i) as [[t'|]|] eqn:Et; try done. case_decide; [done|]. intros [= ->].
  split; [done|]. exists (ab_batch_id batch), b, i, tokens. split_and!; try done.
  rewrite I. by apply position_lookup.
Qed.

Section Resend.
Context (s0 : StateDb).
Abbreviation safe := (safe (W := W) config s0).
Abbreviation wps := (wp (LErr := ledger_error) (others config) safe resend).
#[local] Ltac of_state := let H := fresh in intros ? ? ? H _; exact H.

(** A program that is safe from wherever it starts forgets nothing. *)
Lemma wps_kept {A} (p : prog L W ledger_error A) w :
  (forall s, safe_prog config s resend p) -> safe w ->
  wps p (okay (fun _ w' => history_kept (w_state w) (w_state w'))) w.
Proof.
  intros P S. assert (S1 : ScaleSafety.safe config (w_state w) w).
  { destruct S. by split. }
  apply (wp_weaken _ (ScaleSafety.safe config (w_state w)) _ resend); [|done|].
  - intros w' [O G C K]. split; [done..|]. etransitivity; [apply (safe_kept _ _ _ S)|exact K].
  - eapply wp_mono; [|by apply P]. intros [a|e] w' _ S'; [|done]. apply (safe_kept _ _ _ S').
Qed.

Definition collecting (batch : AcquireBatch) (acc : list Z * gset Z) (w : world) : Prop :=
  known_batch batch (w_state w) ∧ Forall (resendable w) acc.1.

Lemma collect_step batch acc r w :
  safe w -> collecting batch acc w ->
  wps (collect_member batch acc r) (okay (collecting batch)) w.
Proof.
  intros S H. destruct acc as [members canceled]. unfold collect_member.
  eapply (wps_bind (fun row w' => collecting batch (members, canceled) w'
                      ∧ forall d, row = Some d -> get_demand r (w_state w') = Ok (Some d))).
  { apply wps_read; [of_state|done|]. intros l row _ E. split; [exact H|]. by intros d ->. }
  clear w S H. intros row w S [H E]. destruct row as [row|]; [|apply wps_mret; [of_state|done..]].
  specialize (E _ eq_refl).
  assert (Y : exists o, offers (w_state w) !! r = Some o ∧ o_state o = OfferState_as_str (dm_state row)
                        ∧ o_permit_attempt_token o = dm_permit_attempt_token row).
  { unfold get_demand in E. destruct (offers (w_state w) !! r) as [o|]; [|done]. exists o. split; [done|].
    unfold row_to_demand in E. destruct (OfferState_parse _) eqn:P; [|done]. injection E as <-. cbn.
    split; [by apply OfferState_parse_Some|done]. }
  destruct Y as (o & Eo & St & To). destruct H as [K M].
  assert (Done : forall t, dm_permit_attempt_token row = Some t -> batch_attempt_token batch r = Ok t ->
    (o_state o = "uncertain"%string ∨ o_state o = "canceled_pending"%string) ->
    forall c, collecting batch (members ++ [r], c) w).
  { intros t T B Os c. split; [done|]. apply Forall_app. split; [done|]. apply Forall_singleton.
    destruct (batch_token_durable _ _ _ _ K B). exists o, t. split_and!; try done. congruence. }
  unfold active_attempt_token, try_.
  destruct (dm_state row) eqn:D; try (by apply wps_mret; [of_state|done..]);
    (destruct (dm_permit_attempt_token row) as [t|] eqn:T; [|by apply wps_fail]);
    (destruct (decide (t = ""%string)); [by apply wps_fail|]);
    (destruct (batch_attempt_token batch r) as [bt|] eqn:B; [|by apply wps_fail]);
    cbn; (case_decide as N; [by apply wps_fail|]); subst bt;
    apply wps_mret; [of_state|done|apply (Done t); auto|of_state|done|apply (Done t); auto].
Qed.

Lemma safe_reacquire g batch w :
  safe w -> known_batch batch (w_state w) -> wps (reacquire_batch g batch) (fun _ => safe) w.
Proof.
  intros S K. apply (okay_safe _ (fun _ _ => True)). unfold reacquire_batch.
  eapply (wps_bind (fun acc w' => Forall (resendable w') acc.1)).
  { eapply wp_mono; [|apply (wps_fold (fun acc _ => collecting batch acc)); [intro; of_state| |exact S|by split]].
    - intros [[m c]|]; [|done]. by intros w' _ [_ H].
    - intros. by apply collect_step. }
  clear w S K. intros [uncertain canceled] w S M. cbn in M. destruct uncertain as [|r rs].
  { apply wps_safe; [solve_safe|done]. }
  eapply (wps_bind (fun _ _ => True)).
  { apply wps_acquire; [done|intros l _; exact M|]. intros l answer R.
    apply wps_mret; [done|by apply safe_others|done]. }
  clear w S M. intros answer w S _. apply wps_safe; [|done]. clear w S.
  pose proof (safe_reacquired s0 resend) as H1. pose proof (safe_missing s0 resend) as H2.
  solve_safe; auto.
Qed.

Lemma safe_idle_poll g : safe_prog config s0 resend (idle_poll set_id g).
Proof.
  intros w S. apply (okay_safe _ (fun _ _ => True)). unfold idle_poll.
  eapply (wps_bind (fun open w' => Forall (fun b => known_batch b (w_state w')) open)).
  { apply wps_read; [of_state|done|]. intros l open _ H. by eapply open_batches_known. }
  clear w S. intros open w S K.
  eapply (wps_bind (fun _ w' => history_kept (w_state w) (w_state w'))).
  { apply wps_kept; [|done]. intros s. unfold count_resolved. pose proof (safe_resolve s resend). solve_safe; auto. }
  intros n w1 S1 H1. eapply (wps_bind (fun _ w' => history_kept (w_state w1) (w_state w'))).
  { apply wps_kept; [|done]. intros s. unfold clock. solve_safe. }
  intros now w2 S2 H2. destruct (List.find (overdue now) open) as [batch|] eqn:F;
    [|apply wps_mret; [done..|done]].
  assert (K2 : known_batch batch (w_state w2)).
  { apply List.find_some in F as [F _]. apply list_elem_of_In in F.
    pose proof (proj1 (Forall_forall _ _) K _ F) as Kb.
    eapply known_batch_kept; [|exact Kb]. by etransitivity. }
  eapply (wps_bind (fun _ w' => known_batch batch (w_state w'))).
  { apply wps_read; [of_state|done|]. done. }
  clear w S K w1 S1 H1 w2 S2 H2 K2. intros fresh w S K. cbv zeta.
  destruct fresh as [row|]; [case_bool_decide|]; try (apply wps_mret; done).
  eapply (wps_bind (fun _ _ => True)).
  - eapply wp_mono; [|by apply safe_reacquire]. by intros [].
  - intros b w' S' _. apply wps_mret; done.
Qed.

End Resend.
End Recovery.
