(* ===== verification/ScaleLife.v ===== *)
(** * Scale sets: an adapter's life

    An adapter starts up, handles messages and polls; each of these may be cut
    short by a crash, after which the next one starts from whatever the two
    databases hold. The theorems speak of every world such a life passes
    through. *)

From Stdlib Require Import ZArith Lia.
From stdpp Require Import base gmap sets list strings sorting.
From S2P Require Import Prelude Numerals LedgerData LedgerOps LedgerInv LedgerSteps LedgerSafety ScaleIds ScaleData ScaleStores ScaleProg ScaleCapacity ScaleContract ScaleProcessor ScaleReconcile ScaleStoreProofs ScaleSafety ScaleAcquire ScaleRecovery.
#[local] Open Scope Z_scope.

(** What the listener calls. *)
Inductive call :=
| CallStartup
| CallScale (cached : option RunnerScaleSetStatistic) (message : option RunnerScaleSetMessage)
| CallIdle (generation : Z).

Section Life.
Context {L W : Type} `{CC : CapacityContract L} (config : ProcessorConfig).
Context `{WL : !WorkerLane L W ledger_error} `{RL : !RecoveryLane L W ledger_error}.
Context `{SHA : Sha256} `{RFC : Rfc3339}.
Abbreviation set_id := (cfg_scale_set_id config).
Abbreviation world := (ScaleProg.world L W).
Abbreviation seen := (visits (LErr := ledger_error) (others config)).

Definition run_call (c : call) : prog L W ledger_error unit :=
  match c with
  | CallStartup => startup set_id;; mret tt
  | CallScale cached message => scale config cached message;; mret tt
  | CallIdle generation => idle_poll set_id generation;; mret tt
  end.

Inductive life (w0 : world) : world -> Prop :=
| LifeStart : life w0 w0
| LifeCall c w w' p : life w0 w -> seen (run_call c) w (w', p) -> life w0 w'.

(** Where a life may begin. *)
Definition sound (w : world) : Prop :=
  ledger_ok (w_ledger w) ∧ good (w_state w) ∧ covered config w.

Context `{SL : !SafeLane config WL} `{SR : !SafeRecovery config RL}.

(** Each call by its own rule for requests. *)
Definition may_ask (c : call) : list Z -> world -> Prop :=
  match c with
  | CallStartup => fun _ _ => False
  | CallScale _ _ => ask config
  | CallIdle _ => resend config
  end.

Lemma safe_call s0 c : safe_prog config s0 (may_ask c) (run_call c).
Proof.
  destruct c; cbv beta iota delta [run_call may_ask]; (apply safe_bind; [|intros; apply safe_mret]).
  - by apply safe_startup.
  - by apply safe_scale.
  - by apply safe_idle_poll.
Qed.

Lemma call_visits s0 c w w' p :
  safe config s0 w -> seen (run_call c) w (w', p) ->
  safe config s0 w' ∧ forall ids k, p = AcquireJobs ids k -> may_ask c ids w'.
Proof.
  intros S V. destruct (wp_visits _ _ _ _ _ _ _ _ (safe_call s0 c w S) V) as (I & A & _). done.
Qed.

Lemma life_safe w0 w : sound w0 -> life w0 w -> safe config (w_state w0) w.
Proof.
  intros (O & G & C) H. induction H as [|c w w' p H IH V].
  - by split; try done.
  - by eapply call_visits in V as [? _].
Qed.


(** C4: When the step function sends request identifiers to the job queue, they
    are distinct and at most the configured batch; each is a trusted offer of
    this set whose row is already marked as sent; its permit is held by the
    scale-set lane under the row's owner token; and a durable batch records
    the request with that token. *)
Theorem acquire_requests_are_backed (w0 w w' : world) cached message ids k :
  sound w0 -> life w0 w -> seen (scale config cached message) w (w', AcquireJobs ids k) ->
  NoDup ids /\ (length ids <= cfg_max_acquire_batch config)%nat /\ Forall (backed config w') ids.
Proof.
  intros S H V. apply life_safe in H; [|done].
  destruct (wp_visits _ _ _ _ _ _ _ _ (safe_scale config (w_state w0) cached message w H) V) as (_ & A & _).
  by apply (A ids k).
Qed.


(** A request keeps its place in the queue for good. A demand row is never
    deleted, and its first-seen time, its sequence number, its set and the
    facts its trust is judged by never change, through grants, missing
    acquisitions, cancellations and restarts; sequence numbers stay distinct;
    and a recorded acquire batch keeps its members and their owner tokens. *)
Theorem offers_keep_their_age (w0 w : world) :
  sound w0 -> life w0 w ->
  (forall r o, offers (w_state w0) !! r = Some o ->
     exists o', offers (w_state w) !! r = Some o' /\ same_offer o o')
  /\ (forall r1 r2 o1 o2, offers (w_state w) !! r1 = Some o1 -> offers (w_state w) !! r2 = Some o2 ->
        o_sequence o1 = o_sequence o2 -> r1 = r2)
  /\ (forall id b, batches (w_state w0) !! id = Some b ->
        exists b', batches (w_state w) !! id = Some b' /\ same_batch b b').
Proof.
  intros S H. apply life_safe in H; [|done]. destruct (safe_kept _ _ _ H) as [K B].
  split_and!; [exact K|apply (good_sequence _ (safe_good _ _ _ H))|exact B].
Qed.


End Life.
