(* ===== verification/ScaleSample.v ===== *)
(** * Scale sets: a run of the controller

    An executor for the programs of the controller, a small installation (a
    host with room for two jobs, a lane without workers), and the runs on which
    the theorems of an adapter's life are instantiated. *)

From Stdlib Require Import ZArith Lia.
From stdpp Require Import base gmap sets list strings sorting.
From S2P Require Import Prelude Numerals LedgerData LedgerOps LedgerInv LedgerSteps LedgerSafety ScaleIds ScaleData ScaleStores ScaleProg ScaleCapacity ScaleContract ScaleProcessor ScaleReconcile ScaleStoreProofs ScaleSafety ScaleAcquire ScaleRecovery ScaleLife.
#[local] Open Scope string_scope.
#[local] Open Scope Z_scope.

(** ** Execution *)

(** The inputs of a run, by step number. *)
Record Oracle := {
  or_now : nat -> string;
  or_env : nat -> Env;
  or_token : nat -> string;
  or_answer : option (list Z);
}.

Section Run.
Context {L W LErr A : Type} (o : Oracle).

Definition pnext (i : nat) (c : world L W * prog L W LErr A) : world L W * prog L W LErr A :=
  let w := c.1 in
  match c.2 with
  | Ret _ | Failed_ _ => c
  | OnState f k => let x := f (or_now o i) (w_state w) in (set_state_db x.1 w, k x.2)
  | OnLedger f k => let x := f (or_env o i) (w_ledger w) in (set_ledger x.1 w, k x.2)
  | OnLane f k => let x := f (w_lane w) in (set_lane x.1 w, k x.2)
  | AcquireJobs _ k => (w, k (or_answer o))
  | FreshToken k => (w, k ("t" +:+ or_token o i))
  | MintBatch k => (w, k ("b" +:+ or_token o i))
  end.

(** Run to the end, or to the first request when [stop] is set. *)
Fixpoint prun (stop : bool) (fuel i : nat) (c : world L W * prog L W LErr A)
    : world L W * prog L W LErr A :=
  match fuel, c.2 with
  | O, _ | _, Ret _ | _, Failed_ _ => c
  | S fuel, AcquireJobs _ _ => if stop then c else prun stop fuel (S i) (pnext i c)
  | S fuel, _ => prun stop fuel (S i) (pnext i c)
  end.

Lemma pnext_steps rely i c : rtc (pstep rely) c (pnext i c).
Proof.
  destruct c as [w p]. destruct p; try reflexivity; apply rtc_once; constructor. done.
Qed.

Lemma prun_visits rely stop fuel i w p : visits rely p w (prun stop fuel i (w, p)).
Proof.
  unfold visits. generalize (w, p). clear w p. revert i.
  induction fuel as [|fuel IH]; intros i c; cbn; [reflexivity|].
  assert (H : rtc (pstep rely) c (prun stop fuel (S i) (pnext i c))).
  { etransitivity; [apply (pnext_steps rely i)|apply IH]. }
  destruct c as [w p]. destruct p; cbn in *; try done; try reflexivity. by destruct stop.
Qed.

End Run.

(** Runs are compared before they are computed. *)
Strategy 1000 [prun].

Definition asked {L W LErr A} (p : prog L W LErr A) : option (list Z) :=
  match p with AcquireJobs ids _ => Some ids | _ => None end.

Lemma asked_visits {L W LErr A} rely o fuel (p : prog L W LErr A) w ids c :
  c = prun o true fuel 0 (w, p) -> asked c.2 = Some ids ->
  exists k, visits rely p w (c.1, AcquireJobs ids k).
Proof.
  intros -> E. pose proof (prun_visits o rely true fuel 0 w p) as V.
  destruct (prun o true fuel 0 (w, p)) as [w' p']. destruct p'; try done. injection E as ->. eauto.
Qed.

(** ** An installation *)

#[export] Instance sample_sha : Sha256 := fun _ => [].
#[export] Instance sample_clock : Rfc3339 := fun _ => Some 100.

#[export] Instance idle_lane {L LErr} : WorkerLane L unit LErr := {|
  lane_provision _ _ := mret tt;
  lane_note_assigned _ _ := mret tt;
  lane_note_started _ _ := mret tt;
  lane_note_terminal _ _ := mret tt;
  lane_note_canceled _ _ := mret tt;
|}.
#[export] Instance idle_recovery {L LErr} : RecoveryLane L unit LErr := {|
  lane_owns_terminal_cleanup _ := mret true;
  lane_worker_released_pending_observation _ := mret false;
  pid_alive _ := mret false;
|}.

Section SafeIdle.
Context {L : Type} `{CC : CapacityContract L} (config : ProcessorConfig).
#[export] Instance idle_lane_safe : SafeLane config (idle_lane (L := L) (LErr := ledger_error)).
Proof. split; intros; apply safe_mret. Qed.
#[export] Instance idle_recovery_safe : SafeRecovery config (idle_recovery (L := L) (LErr := ledger_error)).
Proof. split; intros; apply safe_mret. Qed.
End SafeIdle.

Definition cfg5 : ProcessorConfig := {|
  cfg_scale_set_id := 5; cfg_runner_digest := "sha256:r"; cfg_dind_digest := "sha256:d";
  cfg_max_acquire_batch := MAX_ACQUIRE_BATCH |}.

Definition env_at (i : nat) : Env := {| unix_now := 1000 + Z.of_nat i; process_id := 42; new_uuid := "u" |}.
Definition oracle (tag : string) (answer : option (list Z)) : Oracle := {|
  or_now i := "2026-01-01T00:00:00Z"; or_env := env_at;
  or_token i := tag +:+ to_string (Z.of_nat i); or_answer := answer |}.

(** A host of two jobs, its ledger reconciled and empty. *)
Definition host : LedgerDb :=
  exec_all [OpSetMaxJobs 2; OpBeginEpoch; OpReconcile (env_at 0) [] [] [] []] empty_ledger.
Definition install : world LedgerDb unit := World host empty_state tt.

Definition job (id : Z) (event : string) : ScaleSetJobMessage := {|
  runner_request_id := id; repository_name := "repo"; owner_name := "org"; job_id := "job";
  workflow_run_id := 1; event_name := event; request_labels := [] |}.

Definition offers_of (jobs : list ScaleSetJobMessage) (wanted : Z) : RunnerScaleSetMessage := {|
  message_id := 1; statistics := Some {| total_assigned_jobs := wanted |};
  job_available_messages := jobs; job_assigned_messages := [];
  job_started_messages := []; job_completed_messages := [] |}.

Definition two_offers := offers_of [job 7 "push"; job 8 "pull_request"; job 9 "schedule"] 3.

Lemma install_sound : sound cfg5 install.
Proof.
  split_and!.
  - apply exec_all_Inv, Inv_empty.
  - apply good_empty.
  - intros r lane t. cbn. unfold shared_held, owner. done.
Qed.

(** ** Lives of the installation *)

Definition first_call : call := CallScale None (Some two_offers).

(** The world after [n] steps of a call, or at its first request. *)
Definition after (n : nat) (o : Oracle) (stop : bool) (c : call) (w : world LedgerDb unit)
    : world LedgerDb unit := (prun o stop n 0 (w, run_call cfg5 c)).1.

Lemma after_life w0 n o stop c w : life cfg5 w0 w -> life cfg5 w0 (after n o stop c w).
Proof.
  intros H. pose proof (prun_visits o (others cfg5) stop n 0 w (run_call cfg5 c)) as V.
  unfold after. destruct (prun o stop n 0 (w, run_call cfg5 c)) as [w' p].
  by eapply (LifeCall _ _ c).
Qed.

(** The process dies after the ledger wrote the permit of request 7 and before
    the state database recorded its token. *)
Definition torn : world LedgerDb unit := after 27 (oracle "a" None) true first_call install.


Definition first_program : prog LedgerDb unit ledger_error ScaleOutcome := scale cfg5 None (Some two_offers).
Definition first_request := prun (oracle "a" None) true 400 0 (install, first_program).

Lemma first_request_asks : asked first_request.2 = Some [7; 9].
Proof. by vm_compute. Qed.

Lemma first_request_visited :
  exists k, visits (others cfg5) first_program install
              (first_request.1, AcquireJobs [7; 9] k).
Proof.
  exact (asked_visits (others cfg5) (oracle "a" None) 400 first_program install [7; 9]
           first_request eq_refl first_request_asks).
Qed.

Lemma acquire_requests_are_backed_witness : Forall (backed cfg5 first_request.1) [7; 9].
Proof.
  destruct first_request_visited as [k V].
  exact (proj2 (proj2 (acquire_requests_are_backed cfg5 install install _ None (Some two_offers) [7; 9] k
                         install_sound (LifeStart _ _) V))).
Defined.

(** The queue never answered; a later poll asks again. *)
Definition unanswered : world LedgerDb unit := after 400 (oracle "a" None) false first_call install.

Definition second_program : prog LedgerDb unit ledger_error IdleReport := idle_poll 5 1.
Definition second_request := prun (oracle "p" None) true 400 0 (unanswered, second_program).

Lemma second_request_asks : asked second_request.2 = Some [7; 9].
Proof. by vm_compute. Qed.

Lemma second_request_visited :
  exists k, visits (others cfg5) second_program unanswered (second_request.1, AcquireJobs [7; 9] k).
Proof.
  exact (asked_visits (others cfg5) (oracle "p" None) 400 second_program unanswered [7; 9]
           second_request eq_refl second_request_asks).
Qed.


(** A life that starts at an unanswered batch. *)
Lemma unanswered_sound : sound cfg5 unanswered.
Proof.
  pose proof (life_safe cfg5 install unanswered install_sound (after_life _ _ _ _ _ _ (LifeStart _ _))) as [].
  by split_and!.
Qed.

Definition reanswered : world LedgerDb unit := after 400 (oracle "p" (Some [9])) false (CallIdle 1) unanswered.

Lemma row_states :
  (o_state <$> offers (w_state unanswered) !! 7) = Some "uncertain"
  /\ (o_state <$> offers (w_state reanswered) !! 7) = Some "eligible"
  /\ (o_state <$> offers (w_state torn) !! 7) = Some "granted"
  /\ (o_state <$> offers (w_state torn) !! 8) = Some "observed".
Proof. split_and!; by vm_compute. Qed.

Lemma offers_keep_their_age_witness :
  exists o o', offers (w_state unanswered) !! 7 = Some o /\ offers (w_state reanswered) !! 7 = Some o'
    /\ o_state o = "uncertain" /\ o_state o' = "eligible" /\ same_offer o o'.
Proof.
  destruct row_states as ((o & E & St)%fmap_Some & (o' & E' & St')%fmap_Some & _).
  destruct (proj1 (offers_keep_their_age cfg5 unanswered reanswered unanswered_sound
                     (after_life _ _ _ _ _ _ (LifeStart _ _))) 7 o E) as (o2 & E2 & S).
  assert (Q : Some o' = Some o2) by (rewrite <- E'; exact E2). injection Q as <-.
  exists o, o'. exact (conj E (conj E' (conj (eq_sym St) (conj (eq_sym St') S)))).
Defined.


(** ** A request that comes back *)

(** Request 9 was missing from the answer to the first message and is eligible
    again when the host shrinks to the one job it runs. *)
Definition answered : world LedgerDb unit := after 400 (oracle "a" (Some [7])) false first_call install.
Definition resized (n : Z) (w : world LedgerDb unit) : world LedgerDb unit :=
  set_ledger (exec (OpSetMaxJobs n) (w_ledger w)) w.

Definition verdict {L W LErr A} (p : prog L W LErr A) : option (result A ScaleError) :=
  match p with Ret a => Some (Ok a) | Failed_ e => Some (Err e) | _ => None end.

Definition poll (tag : string) (w : world LedgerDb unit) :=
  prun (oracle tag None) false 400 0 (w, scale cfg5 (Some {| total_assigned_jobs := 3 |}) None).

Definition stuck : world LedgerDb unit := (poll "b" (resized 1 answered)).1.
Definition stuck_stage : StagedAttemptAcquire := stage_of 5 9 (Some "ta28") "tb13".

(** The poll fails and leaves the stage behind; the next poll fails on the
    stage although the host has room again, and the check with which a
    restarted adapter recovers the stage fails too. *)
Example returned_request_wedges_the_adapter :
  verdict (poll "b" (resized 1 answered)).2
    = Some (Err (EStore (Refused "acquire batch request belongs to another attempt")))
  /\ pending_attempt_acquires (w_state stuck) = [stuck_stage]
  /\ verdict (poll "c" (resized 2 stuck)).2
    = Some (Err (EStore (Refused "staged acquire belongs to another attempt")))
  /\ has_acquire_batch_attempt 5 9 "tb13" (w_state stuck)
    = Err (Refused "acquire batch request belongs to another attempt").
Proof. split_and!; by vm_compute. Qed.

Lemma stuck_batches :
  exists id b, map_to_list (batches (w_state stuck)) = [(id, b)]
    /\ b_scale_set_id b = 5 /\ b_request_ids b = [7; 9]
    /\ b_attempt_tokens b = Some [Some "ta24"; Some "ta28"].
Proof. vm_compute. eexists _, _. split; [reflexivity|]. done. Qed.

Lemma returned_request_keeps_its_stage_witness :
  exists e, run_tx (finish_attempt_acquire stuck_stage false "2026-01-01T00:00:00Z") (w_state stuck)
            = (w_state stuck, Err e).
Proof.
  destruct stuck_batches as (id & b & M & Sb & R & T).
  assert (B : forall id' b', batches (w_state stuck) !! id' = Some b' <-> (id', b') = (id, b)).
  { intros id' b'. rewrite <- elem_of_map_to_list, M, list_elem_of_singleton. done. }
  apply (returned_request_keeps_its_stage (w_state stuck) stuck_stage id b).
  - by apply B.
  - exact Sb.
  - rewrite R. right. left.
  - intros (id' & b' & i & tokens & [= -> ->]%B & _ & Ri & Tk & Ti). rewrite T in Tk. injection Tk as <-.
    destruct i as [|[|[|i]]]; discriminate Ti.
Defined.
