(* ===== verification/TextOps.v ===== *)
(** * Operations of Rust's [str] and [BTreeMap] on texts

    What the step engine, the workflow commands and the secret masker use of
    the standard library, on strings as lists of Unicode scalar values
    ([ExprText]). A position in a string is modelled by the text before it
    and the text after it. *)

From Stdlib Require Import ZArith Lia Ascii.
From stdpp Require Import base list strings sets.
From S2P Require Import Prelude ExprText.

(** ** Characters *)

Definition LF : char := 10%N.
Definition CR : char := 13%N.
Definition PERCENT : char := chr "%".
Definition ASCII_QUOTE : char := 34%N.

Definition to_ascii_uppercase (c : char) : char := if in_range 97%N 122%N c then (c - 32)%N else c.
Definition ascii_uppercase (s : text) : text := map to_ascii_uppercase s.

(** [char::len_utf8] and [str::len]. *)
Definition len_utf8 (c : char) : nat :=
  if (c <? 128)%N then 1 else if (c <? 2048)%N then 2 else if (c <? 65536)%N then 3 else 4.
Definition byte_len (s : text) : nat := list_sum (map len_utf8 s).

(** [str::as_bytes]: the UTF-8 bytes of a string. *)
Definition continuation (c : N) : N := (128 + c mod 64)%N.
Definition utf8_char (c : char) : list N :=
  if (c <? 128)%N then [c]
  else if (c <? 2048)%N then [(192 + c / 64)%N; continuation c]
  else if (c <? 65536)%N then [(224 + c / 4096)%N; continuation (c / 64); continuation c]
  else [(240 + c / 262144)%N; continuation (c / 4096); continuation (c / 64); continuation c].
Definition as_bytes (s : text) : list N := concat (map utf8_char s).

(** [encode_utf16().count()]. *)
Definition utf16_len (s : text) : nat :=
  list_sum (map (fun c => if (c <? 65536)%N then 1 else 2) s).

(** ** Searching *)

Fixpoint strip_prefix (p s : text) : option text :=
  match p, s with
  | [], _ => Some s
  | c :: p, d :: s => if N.eqb c d then strip_prefix p s else None
  | _ :: _, [] => None
  end.
Definition starts_with (p s : text) : bool := match strip_prefix p s with Some _ => true | None => false end.

Definition strip_suffix (p s : text) : option text := option_map (@rev char) (strip_prefix (rev p) (rev s)).
Definition ends_with (p s : text) : bool := match strip_suffix p s with Some _ => true | None => false end.

(** [split_once]: around the first occurrence. *)
Fixpoint split_once (needle s : text) : option (text * text) :=
  match strip_prefix needle s with
  | Some rest => Some ([], rest)
  | None =>
      match s with
      | [] => None
      | c :: s => option_map (fun ab => (c :: ab.1, ab.2)) (split_once needle s)
      end
  end.
Definition contains (needle s : text) : bool :=
  match split_once needle s with Some _ => true | None => false end.
Definition contains_char (c : char) (s : text) : bool := existsb (N.eqb c) s.

(** [rsplit_once(c)]: around the last occurrence. *)
Definition rsplit_once (c : char) (s : text) : option (text * text) :=
  option_map (fun ab => (rev ab.2, rev ab.1)) (split_once [c] (rev s)).

(** [split] at every character that satisfies [p]. *)
Fixpoint split_at (p : char -> bool) (s : text) : list text :=
  match s with
  | [] => [[]]
  | c :: s =>
      if p c then [] :: split_at p s
      else match split_at p s with
           | l :: ls => (c :: l) :: ls
           | [] => [[c]]
           end
  end.

(** [str::lines]: a line ends at a line feed, with the carriage return before
    it; what follows the last line feed is a line when it is not empty. *)
Definition cons_line (c : char) (ls : list text) : list text :=
  match ls with l :: ls => (c :: l) :: ls | [] => [[c]] end.
Fixpoint lines (s : text) : list text :=
  match s with
  | [] => []
  | c :: s1 =>
      if N.eqb c LF then [] :: lines s1
      else
        match s1 with
        | d :: s2 => if N.eqb c CR && N.eqb d LF then [] :: lines s2 else cons_line c (lines s1)
        | [] => [[c]]
        end
  end.

(** [str::replace]: every occurrence, from left to right, without overlaps.
    [skip] is what is left of the occurrence being replaced. *)
Fixpoint replace_go (from to : text) (skip : nat) (s : text) : text :=
  match s with
  | [] => []
  | c :: s1 =>
      match skip with
      | S skip => replace_go from to skip s1
      | O =>
          if starts_with from s then to ++ replace_go from to (length from - 1) s1
          else c :: replace_go from to 0 s1
      end
  end.
Definition replace (from to s : text) : text := replace_go from to 0 s.

(** [str::parse::<i64>]: an optional sign, then digits, in range. *)
Definition parse_i64 (s : text) : option Z :=
  let '(negative, digits) := split_sign s in
  if negb (bool_decide (digits = [])) && forallb is_ascii_digit digits then
    let n := (if negative then - digits_value digits else digits_value digits)%Z in
    if (- 2 ^ 63 <=? n)%Z && (n <=? i64_max)%Z then Some n else None
  else None.

(** ** Ordered maps: [BTreeMap<String, _>]

    Entries sorted by key, in the order the map iterates them. *)

Fixpoint text_compare (a b : text) : comparison :=
  match a, b with
  | [], [] => Eq
  | [], _ :: _ => Lt
  | _ :: _, [] => Gt
  | c :: a, d :: b => match N.compare c d with Eq => text_compare a b | o => o end
  end.

Definition bmap (A : Type) : Type := list (text * A).

Fixpoint bm_insert {A} (k : text) (v : A) (m : bmap A) : bmap A :=
  match m with
  | [] => [(k, v)]
  | (k', v') :: m' =>
      match text_compare k k' with
      | Eq => (k, v) :: m'
      | Lt => (k, v) :: m
      | Gt => (k', v') :: bm_insert k v m'
      end
  end.
Fixpoint bm_get {A} (k : text) (m : bmap A) : option A :=
  match m with
  | [] => None
  | (k', v) :: m => if bool_decide (k = k') then Some v else bm_get k m
  end.
Definition bm_extend {A} (m : bmap A) (l : list (text * A)) : bmap A :=
  fold_left (fun m kv => bm_insert kv.1 kv.2 m) l m.
Definition bm_of_list {A} (l : list (text * A)) : bmap A := bm_extend [] l.
Definition bm_keys {A} (m : bmap A) : list text := map fst m.

(** ** Lemmas *)

Lemma split_at_free p a : Forall (fun c => p c = false) a -> split_at p a = [a].
Proof. induction 1 as [|c a P _ IH]; cbn; [done|]. by rewrite P, IH. Qed.

Lemma text_split_at_app p a c b : Forall (fun c => p c = false) a -> p c = true ->
  split_at p (a ++ c :: b) = a :: split_at p b.
Proof. intros F E. induction F as [|d a P _ IH]; cbn; [by rewrite E|]. by rewrite P, IH. Qed.

Lemma text_strip_prefix_app p s : strip_prefix p (p ++ s) = Some s.
Proof. induction p as [|c p IH]; cbn; [done|]. by rewrite N.eqb_refl. Qed.

Lemma strip_prefix_Some p s r : strip_prefix p s = Some r <-> s = p ++ r.
Proof.
  split; [|intros ->; apply text_strip_prefix_app].
  revert s. induction p as [|c p IH]; intros s; cbn; [by intros [= ->]|].
  destruct s as [|d s]; [done|]. destruct (N.eqb_spec c d) as [->|]; [|done].
  intros E. by rewrite (IH _ E).
Qed.

Lemma starts_with_app p s : starts_with p (p ++ s) = true.
Proof. unfold starts_with. by rewrite text_strip_prefix_app. Qed.

Lemma starts_with_true p s : starts_with p s = true <-> exists r, s = p ++ r.
Proof.
  unfold starts_with. destruct (strip_prefix p s) as [r|] eqn:E; split; try done.
  - intros _. exists r. by apply strip_prefix_Some.
  - intros [r ->]. by rewrite text_strip_prefix_app in E.
Qed.

Lemma split_once_Some n s a b : split_once n s = Some (a, b) -> s = a ++ n ++ b.
Proof.
  revert a b. induction s as [|c s IH]; intros a b; cbn [split_once].
  - destruct (strip_prefix n []) eqn:E; [|done]. intros [= <- <-]. by apply strip_prefix_Some in E.
  - destruct (strip_prefix n (c :: s)) eqn:E; [intros [= <- <-]; by apply strip_prefix_Some in E|].
    destruct (split_once n s) as [[x y]|]; [|done]. intros [= <- <-]. cbn. by rewrite (IH x y).
Qed.

(** An occurrence is found, and not later than it is. *)
Lemma text_split_once_app n a b : exists x y, split_once n (a ++ n ++ b) = Some (x, y) /\ length x <= length a.
Proof.
  induction a as [|c a IH].
  - exists [], b. split; [|done]. cbn. destruct (n ++ b) as [|d s] eqn:E; cbn [split_once].
    + apply app_eq_nil in E as [-> ->]. done.
    + rewrite <- E, text_strip_prefix_app. done.
  - cbn [app split_once]. destruct (strip_prefix n (c :: a ++ n ++ b)) as [r|].
    + exists [], r. split; [done|cbn; lia].
    + destruct IH as (x & y & -> & L). exists (c :: x), y. split; [done|cbn; lia].
Qed.

Lemma contains_true n s : contains n s = true <-> exists a b, s = a ++ n ++ b.
Proof.
  unfold contains. destruct (split_once n s) as [[a b]|] eqn:E; split; try done.
  - intros _. exists a, b. by apply split_once_Some.
  - intros (a & b & ->). destruct (text_split_once_app n a b) as (x & y & H & _). congruence.
Qed.

(** The first occurrence of a separator after a text without its first character. *)
Lemma split_once_free c n a b : c ∉ a -> split_once (c :: n) (a ++ (c :: n) ++ b) = Some (a, b).
Proof.
  induction a as [|d a IH]; intros N.
  - cbn [app]. cbn [split_once strip_prefix]. by rewrite N.eqb_refl, text_strip_prefix_app.
  - apply not_elem_of_cons in N as [D N]. cbn [app split_once strip_prefix].
    destruct (N.eqb_spec c d) as [->|_]; [done|]. change (c :: n ++ b) with ((c :: n) ++ b). by rewrite IH.
Qed.

Lemma split_once_none c n a : c ∉ a -> split_once (c :: n) a = None.
Proof.
  induction a as [|d a IH]; intros N; [done|]. apply not_elem_of_cons in N as [D N].
  cbn [split_once strip_prefix]. destruct (N.eqb_spec c d) as [->|_]; [done|]. by rewrite IH.
Qed.

Lemma text_compare_refl a : text_compare a a = Eq.
Proof. induction a as [|c a IH]; cbn; [done|]. by rewrite N.compare_refl. Qed.

Lemma text_compare_eq a b : text_compare a b = Eq <-> a = b.
Proof.
  split; [|intros ->; apply text_compare_refl].
  revert b. induction a as [|c a IH]; intros [|d b]; cbn; try done.
  destruct (N.compare_spec c d) as [->| |]; try done. intros E. by rewrite (IH _ E).
Qed.

Lemma bm_get_insert {A} k (v : A) m : bm_get k (bm_insert k v m) = Some v.
Proof.
  induction m as [|[k' v'] m IH]; cbn [bm_insert]; [by cbn; rewrite bool_decide_true|].
  destruct (text_compare k k') eqn:E; cbn [bm_get]; try by rewrite bool_decide_true.
  rewrite bool_decide_false; [done|]. intros ->. by rewrite text_compare_refl in E.
Qed.

Lemma bm_get_insert_ne {A} k k' (v : A) m : k' <> k -> bm_get k' (bm_insert k v m) = bm_get k' m.
Proof.
  intros D. induction m as [|[k1 v1] m IH]; cbn [bm_insert].
  - cbn. by rewrite bool_decide_false.
  - destruct (text_compare k k1) eqn:E; cbn [bm_get].
    + apply text_compare_eq in E as <-. by rewrite !bool_decide_false by done.
    + by rewrite (bool_decide_false (k' = k)).
    + by rewrite IH.
Qed.

Lemma bm_insert_keys {A} k (v : A) m k' : k' ∈ bm_keys (bm_insert k v m) <-> k' = k \/ k' ∈ bm_keys m.
Proof.
  unfold bm_keys. induction m as [|[k1 v1] m IH]; cbn [bm_insert map fst]; [set_solver|].
  destruct (text_compare k k1) eqn:E; cbn [map fst].
  - apply text_compare_eq in E as <-. set_solver.
  - set_solver.
  - rewrite !elem_of_cons, IH. set_solver.
Qed.

Lemma bm_get_is_Some {A} k (m : bmap A) : is_Some (bm_get k m) <-> k ∈ bm_keys m.
Proof.
  unfold bm_keys. induction m as [|[k1 v1] m IH]; cbn [bm_get map fst].
  - split; [by intros [? ?]|set_solver].
  - rewrite elem_of_cons, <- IH. case_bool_decide as E; [|naive_solver]. subst k1. naive_solver.
Qed.

Lemma trim_start_id s : Forall (fun c => is_whitespace c = false) s -> trim_start_by is_whitespace s = s.
Proof. destruct 1 as [|c s E _]; [done|]. cbn. by rewrite E. Qed.
Lemma trim_id s : Forall (fun c => is_whitespace c = false) s -> trim s = s.
Proof.
  intros F. unfold trim, trim_end_by. rewrite (trim_start_id s) by done.
  rewrite (trim_start_id (rev s)), rev_involutive; [done|]. by apply Forall_rev.
Qed.

Lemma trim_start_spaces a s : Forall (fun c => is_whitespace c = true) a ->
  trim_start_by is_whitespace (a ++ s) = trim_start_by is_whitespace s.
Proof. induction 1 as [|c a C _ IH]; [done|]. cbn. by rewrite C. Qed.

Lemma trim_start_nothing s : match trim_start_by is_whitespace s with [] => True | c :: _ => is_whitespace c = false end.
Proof. induction s as [|c s IH]; cbn; [done|]. destruct (is_whitespace c) eqn:C; done. Qed.
Lemma trim_start_stop s : match s with [] => True | c :: _ => is_whitespace c = false end ->
  trim_start_by is_whitespace s = s.
Proof. destruct s as [|c s]; cbn; [done|]. by intros ->. Qed.

Lemma trim_start_suffix s : exists a, s = a ++ trim_start_by is_whitespace s.
Proof.
  induction s as [|c s [a E]]; [by exists []|]. cbn. destruct (is_whitespace c).
  - exists (c :: a). cbn. congruence.
  - by exists [].
Qed.

(** A trimmed text neither starts nor ends with white space. *)
Lemma trim_ends e :
  match trim e with [] => True | c :: _ => is_whitespace c = false end /\
  match rev (trim e) with [] => True | c :: _ => is_whitespace c = false end.
Proof.
  unfold trim, trim_end_by. set (s := trim_start_by is_whitespace e). split.
  - pose proof (trim_start_nothing e) as T. fold s in T.
    destruct (trim_start_suffix (rev s)) as [a A]. apply (f_equal (@rev char)) in A.
    rewrite rev_involutive, rev_app_distr in A. destruct (rev (trim_start_by is_whitespace (rev s))) as [|c u]; [done|].
    rewrite A in T. done.
  - rewrite rev_involutive. apply trim_start_nothing.
Qed.
Lemma trim_twice e : trim (trim e) = trim e.
Proof.
  destruct (trim_ends e) as [A B]. unfold trim at 1, trim_end_by. rewrite (trim_start_stop _ A), (trim_start_stop _ B).
  apply rev_involutive.
Qed.
