(* ===== verification/WorkflowCommands.v ===== *)
(** * Workflow commands

    [crates/velnor-runner/src/workflow_command.rs]: the lines of a step's
    output that start with [::] are commands. One pass parses them into the
    step's command state, a second renders the log; the model has both, with
    the same structure as the code. The counters are [i32]s that trap on
    overflow in the code; here they are integers and [counts_are_annotations]
    bounds them by the number of lines. The environment of the process is an
    argument. *)

From Stdlib Require Import ZArith Lia Ascii.
From stdpp Require Import base list strings.
From S2P Require Import Prelude ExprText TextOps.
#[local] Open Scope Z_scope.

(** ** The state a step's commands build *)

Inductive StepAnnotationLevel : Type := LNotice | LWarning | LFailure.
#[export] Instance level_eq_dec : EqDecision StepAnnotationLevel.
Proof. solve_decision. Defined.

Record StepAnnotation : Type := {
  an_level : StepAnnotationLevel;
  an_message : text;
  an_title : option text;
  an_path : option text;
  an_start_line : option Z;
  an_end_line : option Z;
  an_start_column : option Z;
  an_end_column : option Z }.

Record StepCommandTelemetry : Type := { ct_message : text; ct_kind : text }.
#[export] Instance telemetry_eq_dec : EqDecision StepCommandTelemetry.
Proof. solve_decision. Defined.

Record StepCommandState : Type := {
  sc_outputs : bmap text;
  sc_env : bmap text;
  sc_path : list text;
  sc_state : bmap text;
  sc_summary : text;
  sc_masks : list text;
  sc_annotations : list StepAnnotation;
  sc_telemetry : list StepCommandTelemetry;
  sc_error_count : Z;
  sc_warning_count : Z;
  sc_notice_count : Z;
  sc_command_failed : bool;
  sc_allow_unsecure_stop_tokens : bool }.

Definition default_state : StepCommandState :=
  {| sc_outputs := []; sc_env := []; sc_path := []; sc_state := []; sc_summary := []; sc_masks := [];
     sc_annotations := []; sc_telemetry := []; sc_error_count := 0; sc_warning_count := 0;
     sc_notice_count := 0; sc_command_failed := false; sc_allow_unsecure_stop_tokens := false |}.

Definition set_outputs (x : bmap text) (st : StepCommandState) : StepCommandState :=
  {| sc_outputs := x; sc_env := sc_env st; sc_path := sc_path st; sc_state := sc_state st;
     sc_summary := sc_summary st; sc_masks := sc_masks st;
     sc_annotations := sc_annotations st; sc_telemetry := sc_telemetry st;
     sc_error_count := sc_error_count st; sc_warning_count := sc_warning_count st;
     sc_notice_count := sc_notice_count st; sc_command_failed := sc_command_failed st;
     sc_allow_unsecure_stop_tokens := sc_allow_unsecure_stop_tokens st |}.

Definition set_env (x : bmap text) (st : StepCommandState) : StepCommandState :=
  {| sc_outputs := sc_outputs st; sc_env := x; sc_path := sc_path st; sc_state := sc_state st;
     sc_summary := sc_summary st; sc_masks := sc_masks st;
     sc_annotations := sc_annotations st; sc_telemetry := sc_telemetry st;
     sc_error_count := sc_error_count st; sc_warning_count := sc_warning_count st;
     sc_notice_count := sc_notice_count st; sc_command_failed := sc_command_failed st;
     sc_allow_unsecure_stop_tokens := sc_allow_unsecure_stop_tokens st |}.

Definition set_path (x : list text) (st : StepCommandState) : StepCommandState :=
  {| sc_outputs := sc_outputs st; sc_env := sc_env st; sc_path := x; sc_state := sc_state st;
     sc_summary := sc_summary st; sc_masks := sc_masks st;
     sc_annotations := sc_annotations st; sc_telemetry := sc_telemetry st;
     sc_error_count := sc_error_count st; sc_warning_count := sc_warning_count st;
     sc_notice_count := sc_notice_count st; sc_command_failed := sc_command_failed st;
     sc_allow_unsecure_stop_tokens := sc_allow_unsecure_stop_tokens st |}.

Definition set_saved_state (x : bmap text) (st : StepCommandState) : StepCommandState :=
  {| sc_outputs := sc_outputs st; sc_env := sc_env st; sc_path := sc_path st; sc_state := x;
     sc_summary := sc_summary st; sc_masks := sc_masks st;
     sc_annotations := sc_annotations st; sc_telemetry := sc_telemetry st;
     sc_error_count := sc_error_count st; sc_warning_count := sc_warning_count st;
     sc_notice_count := sc_notice_count st; sc_command_failed := sc_command_failed st;
     sc_allow_unsecure_stop_tokens := sc_allow_unsecure_stop_tokens st |}.

Definition set_masks (x : list text) (st : StepCommandState) : StepCommandState :=
  {| sc_outputs := sc_outputs st; sc_env := sc_env st; sc_path := sc_path st;
     sc_state := sc_state st; sc_summary := sc_summary st; sc_masks := x;
     sc_annotations := sc_annotations st; sc_telemetry := sc_telemetry st;
     sc_error_count := sc_error_count st; sc_warning_count := sc_warning_count st;
     sc_notice_count := sc_notice_count st; sc_command_failed := sc_command_failed st;
     sc_allow_unsecure_stop_tokens := sc_allow_unsecure_stop_tokens st |}.

Definition push_telemetry (x : StepCommandTelemetry) (st : StepCommandState) : StepCommandState :=
  {| sc_outputs := sc_outputs st; sc_env := sc_env st; sc_path := sc_path st;
     sc_state := sc_state st; sc_summary := sc_summary st; sc_masks := sc_masks st;
     sc_annotations := sc_annotations st; sc_telemetry := sc_telemetry st ++ [x];
     sc_error_count := sc_error_count st; sc_warning_count := sc_warning_count st;
     sc_notice_count := sc_notice_count st; sc_command_failed := sc_command_failed st;
     sc_allow_unsecure_stop_tokens := sc_allow_unsecure_stop_tokens st |}.

Definition set_command_failed (st : StepCommandState) : StepCommandState :=
  {| sc_outputs := sc_outputs st; sc_env := sc_env st; sc_path := sc_path st;
     sc_state := sc_state st; sc_summary := sc_summary st; sc_masks := sc_masks st;
     sc_annotations := sc_annotations st; sc_telemetry := sc_telemetry st;
     sc_error_count := sc_error_count st; sc_warning_count := sc_warning_count st;
     sc_notice_count := sc_notice_count st; sc_command_failed := true;
     sc_allow_unsecure_stop_tokens := sc_allow_unsecure_stop_tokens st |}.

Definition set_stop_policy (x : bool) (st : StepCommandState) : StepCommandState :=
  {| sc_outputs := sc_outputs st; sc_env := sc_env st; sc_path := sc_path st;
     sc_state := sc_state st; sc_summary := sc_summary st; sc_masks := sc_masks st;
     sc_annotations := sc_annotations st; sc_telemetry := sc_telemetry st;
     sc_error_count := sc_error_count st; sc_warning_count := sc_warning_count st;
     sc_notice_count := sc_notice_count st; sc_command_failed := sc_command_failed st;
     sc_allow_unsecure_stop_tokens := x |}.

Definition annotate (a : StepAnnotation) (st : StepCommandState) : StepCommandState :=
  {| sc_outputs := sc_outputs st; sc_env := sc_env st; sc_path := sc_path st;
     sc_state := sc_state st; sc_summary := sc_summary st; sc_masks := sc_masks st;
     sc_annotations := sc_annotations st ++ [a]; sc_telemetry := sc_telemetry st;
     sc_error_count := sc_error_count st + (if decide (an_level a = LFailure) then 1 else 0);
     sc_warning_count := sc_warning_count st + (if decide (an_level a = LWarning) then 1 else 0);
     sc_notice_count := sc_notice_count st + (if decide (an_level a = LNotice) then 1 else 0);
     sc_command_failed := sc_command_failed st;
     sc_allow_unsecure_stop_tokens := sc_allow_unsecure_stop_tokens st |}.

(** ** Commands *)

Record WorkflowCommand : Type := {
  wc_name : text;
  wc_properties : bmap text;
  wc_value : text }.

Definition REGISTERED_COMMANDS : list text := map txt
  ["stop-commands"; "set-env"; "set-output"; "save-state"; "add-mask"; "add-path"; "add-matcher";
   "remove-matcher"; "debug"; "warning"; "error"; "notice"; "group"; "endgroup"; "echo"].
Definition SET_ENV_BLOCK_LIST : list text := [txt "NODE_OPTIONS"].

Definition is_registered_command (name : text) : bool :=
  existsb (fun command => eq_ignore_ascii_case command name) REGISTERED_COMMANDS.
Definition blocked_set_env_name (name : text) : option text :=
  find (fun blocked => eq_ignore_ascii_case blocked name) SET_ENV_BLOCK_LIST.
Definition stop_command_token_is_invalid (token : text) : bool :=
  bool_decide (token = []) || is_registered_command token
  || eq_ignore_ascii_case token (txt "pause-logging").

Definition unescape_data (value : text) : text :=
  replace (txt "%25") (txt "%") (replace (txt "%0A") [LF] (replace (txt "%0D") [CR] value)).
Definition unescape_property (value : text) : text :=
  unescape_data (replace (txt "%2C") (txt ",") (replace (txt "%3A") (txt ":") value)).

Definition parse_properties (properties : text) : bmap text :=
  bm_of_list (omap (fun property => option_map (fun nv => (nv.1, unescape_property nv.2))
                                      (split_once (txt "=") property))
                   (split_at (is_chr ",") properties)).

(** The text between [::] and [::], and what follows. *)
Definition command_line (line : text) : option (text * text) :=
  match strip_prefix (txt "::") (trim_start_by is_whitespace line) with
  | Some rest => split_once (txt "::") rest
  | None => None
  end.
(** The name of a command and its properties. *)
Definition command_header (header : text) : text * bmap text :=
  match split_once (txt " ") header with
  | Some (name, properties) => (name, parse_properties properties)
  | None => (header, [])
  end.

Definition parse_workflow_command (line : text) (stopped_token : option text) : option WorkflowCommand :=
  match command_line line with
  | None => None
  | Some (header, value) =>
      let '(name, properties) := command_header header in
      if negb (is_registered_command name)
         && negb (match stopped_token with
                  | Some token => eq_ignore_ascii_case token name
                  | None => false
                  end)
      then None
      else Some {| wc_name := name; wc_properties := properties; wc_value := unescape_data value |}
  end.

(** ** Policy *)

Record CommandPolicy : Type := {
  allow_unsecure_commands : bool;
  allow_unsecure_stop_command_tokens : bool }.

Definition try_parse_bool (value : option text) : bool :=
  match value with Some value => eq_ignore_ascii_case (trim value) (txt "true") | None => false end.
Definition convert_to_boolean (value : option text) : bool :=
  match value with
  | Some value => bool_decide (ascii_lowercase value ∈ [txt "1"; txt "true"; txt "$true"])
  | None => false
  end.

(** [rfind]: the last entry of a name. *)
Definition job_value (job_env : list (text * text)) (name : text) : option text :=
  option_map snd (find (fun kv => bool_decide (kv.1 = name)) (rev job_env)).

Definition from_job_env (process_env : text -> option text) (job_env : list (text * text)) : CommandPolicy :=
  let commands := txt "ACTIONS_ALLOW_UNSECURE_COMMANDS" in
  let tokens := txt "ACTIONS_ALLOW_UNSECURE_STOPCOMMAND_TOKENS" in
  {| allow_unsecure_commands :=
       try_parse_bool (process_env commands) || try_parse_bool (job_value job_env commands);
     allow_unsecure_stop_command_tokens :=
       convert_to_boolean (process_env tokens) || convert_to_boolean (job_value job_env tokens) |}.

Definition step_debug_enabled (env : bmap text) : bool :=
  convert_to_boolean (bm_get (txt "ACTIONS_STEP_DEBUG") env)
  || bool_decide (bm_get (txt "RUNNER_DEBUG") env = Some (txt "1")).

(** ** Annotations *)

Definition plain_annotation (level : StepAnnotationLevel) (message : text) : StepAnnotation :=
  {| an_level := level; an_message := message; an_title := None; an_path := None;
     an_start_line := None; an_end_line := None; an_start_column := None; an_end_column := None |}.
Definition push_error (message : text) (st : StepCommandState) : StepCommandState :=
  annotate (plain_annotation LFailure message) st.
Definition push_warning (message : text) (st : StepCommandState) : StepCommandState :=
  annotate (plain_annotation LWarning message) st.
Definition push_command_failure (line message : text) (st : StepCommandState) : StepCommandState :=
  set_command_failed
    (push_error message (push_error (txt "Unable to process command '" ++ line ++ txt "' successfully.") st)).

(** [filter(|value| !value.is_empty())]. *)
Definition non_empty (value : option text) : option text :=
  match value with Some [] => None | _ => value end.
Definition or_else {A} (a b : option A) : option A := match a with Some _ => a | None => b end.

Definition annotation_string (properties : bmap text) (key : string) : option text :=
  non_empty (bm_get (txt key) properties).
Definition annotation_number (properties : bmap text) (key : string) : option Z :=
  match bm_get (txt key) properties with Some value => parse_i64 value | None => None end.

Definition command_annotation (level : StepAnnotationLevel) (command : WorkflowCommand) : StepAnnotation :=
  let number := annotation_number (wc_properties command) in
  let start_line := number "line"%string in
  {| an_level := level;
     an_message := wc_value command;
     an_title := annotation_string (wc_properties command) "title";
     an_path := annotation_string (wc_properties command) "file";
     an_start_line := start_line;
     an_end_line := or_else (or_else (number "endLine"%string) (number "end_line"%string)) start_line;
     an_start_column := number "col"%string;
     an_end_column := or_else (or_else (number "endColumn"%string) (number "end_column"%string))
                        (number "col"%string) |}.

(** ** Command processors *)

Definition unsupported_command_message_disabled (command : text) : text :=
  txt "The `" ++ command ++ txt "` command is disabled. Please upgrade to using Environment Files or opt into unsecure command execution by setting the `ACTIONS_ALLOW_UNSECURE_COMMANDS` environment variable to `true`. For more information see: https://github.blog/changelog/2020-10-01-github-actions-deprecating-set-env-and-add-path-commands/".
Definition unsupported_command_message (command : text) : text :=
  txt "The `" ++ command ++ txt "` command is deprecated and will be disabled soon. Please upgrade to using Environment Files. For more information see: https://github.blog/changelog/2022-10-11-github-actions-deprecating-save-state-and-set-output-commands/".
Definition UNSUPPORTED_STOP_COMMAND_TOKEN_DISABLED : text := txt
  "You cannot use a endToken that is an empty string, the string 'pause-logging', or another workflow command. For more information see: https://docs.github.com/actions/learn-github-actions/workflow-commands-for-github-actions#example-stopping-and-starting-workflow-commands or opt into insecure command execution by setting the `ACTIONS_ALLOW_UNSECURE_STOPCOMMAND_TOKENS` environment variable to `true`.".

Definition action_command (message : text) : StepCommandTelemetry :=
  {| ct_message := message; ct_kind := txt "ActionCommand" |}.

(** Returns the token the output is stopped with, if it changes. *)
Definition process_stop_commands (token : text) (policy : CommandPolicy) (st : StepCommandState)
    : StepCommandState * option text :=
  let invalid := stop_command_token_is_invalid token in
  let st := if invalid
            then push_telemetry (action_command (txt "Invoked ::stopCommand:: with token: [" ++ token ++ txt "]")) st
            else st in
  if invalid && negb (allow_unsecure_stop_command_tokens policy)
  then (push_error UNSUPPORTED_STOP_COMMAND_TOKEN_DISABLED st, None)
  else (if (6 <? utf16_len token)%nat then set_masks (sc_masks st ++ [token]) st else st, Some token).

Definition missing_name (command : string) : text :=
  txt "Required field 'name' is missing in ##[" ++ txt command ++ txt "] command.".
Definition command_name_property (command : WorkflowCommand) : option text :=
  non_empty (bm_get (txt "name") (wc_properties command)).

Definition process_set_env (line : text) (command : WorkflowCommand) (policy : CommandPolicy)
    (st : StepCommandState) : StepCommandState :=
  if negb (allow_unsecure_commands policy)
  then push_command_failure line (unsupported_command_message_disabled (txt "set-env")) st
  else
  match command_name_property command with
  | None => push_command_failure line (missing_name "set-env") st
  | Some name =>
      match blocked_set_env_name name with
      | Some blocked =>
          push_error (txt "Can't update " ++ blocked ++
                      txt " environment variable using ::set-env:: command.") st
      | None => set_env (bm_insert name (wc_value command) (sc_env st)) st
      end
  end.

Definition process_add_path (line value : text) (policy : CommandPolicy) (st : StepCommandState)
    : StepCommandState :=
  if negb (allow_unsecure_commands policy)
  then push_command_failure line (unsupported_command_message_disabled (txt "add-path")) st
  else if decide (value = [])
  then push_command_failure line (txt "Value cannot be null. (Parameter 'path')") st
  else set_path (List.filter (fun path => negb (bool_decide (path = value))) (sc_path st) ++ [value]) st.

(** The once-per-job flags of the deprecated commands. *)
Record DeprecatedCommandScope : Type := { ds_set_output : bool; ds_save_state : bool }.

Definition record_deprecated_command_telemetry (emitted : bool) (command : string) (st : StepCommandState)
    : StepCommandState :=
  if emitted then st else push_telemetry (action_command (txt "DeprecatedCommand: " ++ txt command)) st.

Definition process_set_output (emitted : bool) (line : text) (command : WorkflowCommand)
    (st : StepCommandState) : StepCommandState :=
  let st := record_deprecated_command_telemetry emitted "set-output"
              (push_warning (unsupported_command_message (txt "set-output")) st) in
  match command_name_property command with
  | None => push_command_failure line (missing_name "set-output") st
  | Some name => set_outputs (bm_insert name (wc_value command) (sc_outputs st)) st
  end.

Definition process_save_state (emitted : bool) (line : text) (command : WorkflowCommand)
    (st : StepCommandState) : StepCommandState :=
  let st := record_deprecated_command_telemetry emitted "save-state"
              (push_warning (unsupported_command_message (txt "save-state")) st) in
  match command_name_property command with
  | None => push_command_failure line (missing_name "save-state") st
  | Some name => set_saved_state (bm_insert name (wc_value command) (sc_state st)) st
  end.

Definition reject_problem_matcher (line command : text) (st : StepCommandState) : StepCommandState :=
  push_command_failure line
    (txt "The `" ++ command ++ txt "` command is not supported by this runner: problem matchers are not implemented.") st.

Definition process_echo (line : text) (command : WorkflowCommand) (st : StepCommandState) : StepCommandState :=
  if decide (wc_value command = [])
  then push_command_failure line (txt "Value cannot be null. (Parameter 'value')") st
  else if decide (ascii_uppercase (trim (wc_value command)) ∈ [txt "ON"; txt "OFF"]) then st
  else push_command_failure line
         (txt "Invalid echo command value. Possible values can be: 'on', 'off'. Current value is: '" ++
          wc_value command ++ txt "'.") st.

Definition is_line_break (c : char) : bool := N.eqb c CR || N.eqb c LF.
(** The value and its non-empty trimmed lines. *)
Definition mask_parts (value : text) : list text :=
  value :: List.filter (fun line => negb (bool_decide (line = []))) (map trim (split_at is_line_break value)).
Definition add_mask (st : StepCommandState) (mask : text) : StepCommandState :=
  if decide (mask ∈ sc_masks st) then st else set_masks (sc_masks st ++ [mask]) st.
Definition process_add_mask (value : text) (st : StepCommandState) : StepCommandState :=
  if decide (trim value = [])
  then push_warning (txt "Can't add secret mask for empty string in ##[add-mask] command.") st
  else fold_left add_mask (mask_parts value) st.

(** ** The parsing pass *)

Record Parsing : Type := {
  ps_state : StepCommandState;
  ps_stopped : option text;
  ps_scope : DeprecatedCommandScope }.

Definition with_state (f : StepCommandState -> StepCommandState) (p : Parsing) : Parsing :=
  {| ps_state := f (ps_state p); ps_stopped := ps_stopped p; ps_scope := ps_scope p |}.
Definition with_stopped (t : option text) (p : Parsing) : Parsing :=
  {| ps_state := ps_state p; ps_stopped := t; ps_scope := ps_scope p |}.
Definition with_scope (s : DeprecatedCommandScope) (p : Parsing) : Parsing :=
  {| ps_state := ps_state p; ps_stopped := ps_stopped p; ps_scope := s |}.

Definition is_name (name : text) (s : string) : bool := bool_decide (name = txt s).

Definition run_command (policy : CommandPolicy) (line : text) (command : WorkflowCommand) (p : Parsing)
    : Parsing :=
  let name := ascii_lowercase (wc_name command) in
  let scope := ps_scope p in
  if is_name name "stop-commands" then
    let '(st, token) := process_stop_commands (wc_value command) policy (ps_state p) in
    with_stopped (or_else token (ps_stopped p)) (with_state (fun _ => st) p)
  else if is_name name "set-output" then
    with_scope {| ds_set_output := true; ds_save_state := ds_save_state scope |}
      (with_state (process_set_output (ds_set_output scope) line command) p)
  else if is_name name "set-env" then with_state (process_set_env line command policy) p
  else if is_name name "add-path" then with_state (process_add_path line (wc_value command) policy) p
  else if is_name name "save-state" then
    with_scope {| ds_set_output := ds_set_output scope; ds_save_state := true |}
      (with_state (process_save_state (ds_save_state scope) line command) p)
  else if is_name name "add-mask" then with_state (process_add_mask (wc_value command)) p
  else if is_name name "add-matcher" || is_name name "remove-matcher" then
    with_state (reject_problem_matcher line name) p
  else if is_name name "echo" then with_state (process_echo line command) p
  else if is_name name "error" then with_state (annotate (command_annotation LFailure command)) p
  else if is_name name "warning" then with_state (annotate (command_annotation LWarning command)) p
  else if is_name name "notice" then with_state (annotate (command_annotation LNotice command)) p
  else p.

Definition parse_line (policy : CommandPolicy) (p : Parsing) (line : text) : Parsing :=
  match parse_workflow_command line (ps_stopped p) with
  | None => p
  | Some command =>
      match ps_stopped p with
      | Some token =>
          if eq_ignore_ascii_case (wc_name command) token then with_stopped None p else p
      | None => run_command policy line command p
      end
  end.

Definition parse_workflow_commands_with_policy (output : text) (policy : CommandPolicy)
    (scope : DeprecatedCommandScope) : Parsing :=
  fold_left (parse_line policy) (lines output)
    {| ps_state := set_stop_policy (allow_unsecure_stop_command_tokens policy) default_state;
       ps_stopped := None;
       ps_scope := scope |}.

Definition parse_workflow_commands_with_job_env (process_env : text -> option text) (output : text)
    (job_env : list (text * text)) (scope : DeprecatedCommandScope)
    : StepCommandState * DeprecatedCommandScope :=
  let p := parse_workflow_commands_with_policy output (from_job_env process_env job_env) scope in
  (ps_state p, ps_scope p).

Definition parse_workflow_commands (process_env : text -> option text) (output : text)
    (scope : DeprecatedCommandScope) : StepCommandState * DeprecatedCommandScope :=
  parse_workflow_commands_with_job_env process_env output [] scope.

(** ** The rendering pass *)

Record CommandEcho : Type := { ec_on : bool; ec_stopped : option text }.

Definition new_echo (step_debug : bool) : CommandEcho := {| ec_on := step_debug; ec_stopped := None |}.

Definition ECHOED_COMMANDS : list text := map txt
  ["set-env"; "set-output"; "save-state"; "add-path"; "add-matcher"; "remove-matcher"].

Definition render_state_command (echo : CommandEcho) (line keyword value : text)
    : list text * CommandEcho :=
  if eq_ignore_ascii_case keyword (txt "echo") then
    let upper := ascii_uppercase (trim (unescape_data value)) in
    let on := if is_name upper "ON" then true else if is_name upper "OFF" then false else ec_on echo in
    (if ec_on echo then [line] else [], {| ec_on := on; ec_stopped := ec_stopped echo |})
  else if eq_ignore_ascii_case keyword (txt "add-mask") then
    (if ec_on echo && negb (bool_decide (trim (unescape_data value) = []))
     then [txt "::add-mask::***"] else [], echo)
  else
    (if ec_on echo && bool_decide (ascii_lowercase keyword ∈ ECHOED_COMMANDS) then [line] else [], echo).

Definition render_command (echo : CommandEcho) (line keyword value : text) (step_debug : bool)
    : list text * CommandEcho :=
  if is_name keyword "group" || is_name keyword "endgroup" then
    let marker := if is_name keyword "group" then txt "##[group]" ++ value else txt "##[endgroup]" in
    (if ec_on echo then [line; marker] else [marker], echo)
  else if is_name keyword "error" || is_name keyword "warning" || is_name keyword "notice" then
    ([txt "##[" ++ keyword ++ txt "]" ++ value], echo)
  else if is_name keyword "debug" then
    (if step_debug then [txt "##[debug]" ++ value] else [], echo)
  else render_state_command echo line keyword value.

Definition render_line (echo : CommandEcho) (line : text) (step_debug allow_tokens : bool)
    : list text * CommandEcho :=
  match command_line line with
  | None => ([line], echo)
  | Some (command, value) =>
      let keyword := match split_once (txt " ") command with Some (keyword, _) => keyword | None => command end in
      match ec_stopped echo with
      | Some token =>
          ([line], if eq_ignore_ascii_case keyword token
                   then {| ec_on := ec_on echo; ec_stopped := None |} else echo)
      | None =>
          if eq_ignore_ascii_case keyword (txt "stop-commands") then
            let token := unescape_data value in
            ([line], if negb (stop_command_token_is_invalid token) || allow_tokens
                     then {| ec_on := ec_on echo; ec_stopped := Some token |} else echo)
          else render_command echo line keyword value step_debug
      end
  end.

Fixpoint render_lines (echo : CommandEcho) (ls : list text) (step_debug allow_tokens : bool)
    : list text * CommandEcho :=
  match ls with
  | [] => ([], echo)
  | line :: ls =>
      let '(out, echo) := render_line echo line step_debug allow_tokens in
      let '(rest, echo) := render_lines echo ls step_debug allow_tokens in
      (out ++ rest, echo)
  end.

Definition rendered_output_lines_with_policy (stdout stderr : text) (step_debug allow_tokens : bool)
    : list text :=
  (render_lines (new_echo step_debug) (lines stdout ++ lines stderr) step_debug allow_tokens).1.

Definition rendered_output_lines (process_env : text -> option text) (stdout stderr : text)
    (step_debug : bool) : list text :=
  rendered_output_lines_with_policy stdout stderr step_debug
    (allow_unsecure_stop_command_tokens (from_job_env process_env [])).
