(* ===== verification/WorkflowProofs.v ===== *)
(** * Workflow commands: theorems

    The two passes of [WorkflowCommands] agree on which part of the output is
    stopped, stopped output has no effect, disabled commands change nothing a
    later step reads, secrets are registered and not echoed, the counters
    count the annotations, and a command written with the escapes of the
    actions toolkit is read back. *)

From Stdlib Require Import ZArith Lia Ascii.
From stdpp Require Import base list strings sets.
From S2P Require Import Prelude ExprText TextOps WorkflowCommands.
#[local] Open Scope Z_scope.

Lemma eq_ignore_ascii_case_sym a b : eq_ignore_ascii_case a b = eq_ignore_ascii_case b a.
Proof. unfold eq_ignore_ascii_case. apply bool_decide_ext. naive_solver. Qed.

(** ** The stop token *)

(** The name of a command line. *)
Definition line_name (header : text) : text :=
  match split_once (txt " ") header with Some (name, _) => name | None => header end.

Lemma command_header_name header : (command_header header).1 = line_name header.
Proof. unfold command_header, line_name. by destruct (split_once _ _) as [[? ?]|]. Qed.

Lemma run_command_stopped policy line c p : ps_stopped p = None ->
  ps_stopped (run_command policy line c p) =
  if eq_ignore_ascii_case (wc_name c) (txt "stop-commands") &&
     (negb (stop_command_token_is_invalid (wc_value c)) || allow_unsecure_stop_command_tokens policy)
  then Some (wc_value c) else None.
Proof.
  intros N. unfold run_command, is_name, eq_ignore_ascii_case.
  change (ascii_lowercase (txt "stop-commands")) with (txt "stop-commands").
  case_bool_decide as E; cbn [andb]; [|by repeat case_match; cbn; rewrite N].
  unfold process_stop_commands.
  destruct (stop_command_token_is_invalid (wc_value c)), (allow_unsecure_stop_command_tokens policy); cbn; by rewrite ?N.
Qed.

Lemma render_command_stopped echo line keyword value debug :
  ec_stopped (render_command echo line keyword value debug).2 = ec_stopped echo.
Proof. unfold render_command, render_state_command. by repeat case_match. Qed.

Lemma stop_commands_registered name :
  eq_ignore_ascii_case name (txt "stop-commands") = true -> is_registered_command name = true.
Proof. rewrite eq_ignore_ascii_case_sym. intros E. cbn. by rewrite E. Qed.

Lemma line_stopped policy p echo line debug :
  ps_stopped p = ec_stopped echo ->
  ps_stopped (parse_line policy p line) =
  ec_stopped (render_line echo line debug (allow_unsecure_stop_command_tokens policy)).2.
Proof.
  intros S. unfold parse_line, render_line, parse_workflow_command.
  destruct (command_line line) as [[header value]|]; [|done].
  pose proof (command_header_name header) as N. destruct (command_header header) as [name props]. cbn in N.
  fold (line_name header). rewrite <- N, S. clear N. destruct (ec_stopped echo) as [token|] eqn:T.
  - rewrite (eq_ignore_ascii_case_sym token).
    destruct (is_registered_command name), (eq_ignore_ascii_case name token) eqn:E; cbn; by rewrite ?E, ?S, ?T.
  - destruct (is_registered_command name) eqn:R; cbn [negb andb].
    + rewrite run_command_stopped by done. cbn [wc_name wc_value].
      destruct (eq_ignore_ascii_case name (txt "stop-commands")); cbn [andb]; [by repeat case_match|].
      by rewrite render_command_stopped.
    + destruct (eq_ignore_ascii_case name (txt "stop-commands")) eqn:E.
      * apply stop_commands_registered in E. congruence.
      * by rewrite render_command_stopped, T.
Qed.

(** The log and the command processor never disagree on whether commands are
    stopped. Whatever a step prints, after every line the renderer holds
    exactly the stop token the parser holds, so no line is consumed by one
    pass and shown as plain text by the other because of it. *)
Theorem renderer_follows_parser (policy : CommandPolicy) (debug : bool) (ls : list text) (p : Parsing)
    (echo : CommandEcho) :
  ps_stopped p = ec_stopped echo ->
  ps_stopped (fold_left (parse_line policy) ls p) =
  ec_stopped (render_lines echo ls debug (allow_unsecure_stop_command_tokens policy)).2.
Proof.
  revert p echo. induction ls as [|line ls IH]; intros p echo S; [done|]. cbn [fold_left render_lines].
  pose proof (line_stopped policy p echo line debug S) as L.
  destruct (render_line echo line debug _) as [out echo']. specialize (IH _ echo' L).
  by destruct (render_lines echo' ls debug _).
Qed.

(** A line that resumes the output stopped with [token]. *)
Definition resumes (token line : text) : bool :=
  match command_line line with
  | Some (header, _) => eq_ignore_ascii_case (line_name header) token
  | None => false
  end.

Lemma stopped_parse_line policy p token line :
  ps_stopped p = Some token -> resumes token line = false -> parse_line policy p line = p.
Proof.
  unfold resumes, parse_line, parse_workflow_command. intros S R.
  destruct (command_line line) as [[header value]|]; [|done].
  pose proof (command_header_name header) as N. destruct (command_header header) as [name props]. cbn in N.
  rewrite <- N in R. rewrite S. destruct (_ && _); [done|]. cbn [wc_name]. by rewrite R.
Qed.

Lemma stopped_render_line echo token line debug allow :
  ec_stopped echo = Some token -> resumes token line = false -> render_line echo line debug allow = ([line], echo).
Proof.
  unfold resumes, render_line. intros S R. destruct (command_line line) as [[header value]|]; [|done].
  rewrite S. unfold line_name in R. by rewrite R.
Qed.

(** C38: Between a stop command and its token, output is only text: no line but
    one that names the token has any effect on the step's state, and the
    renderer shows every such line as it was printed. *)
Theorem stopped_output_is_inert (policy : CommandPolicy) (debug allow : bool) (token : text) (ls : list text)
    (p : Parsing) (echo : CommandEcho) :
  ps_stopped p = Some token -> ec_stopped echo = Some token ->
  Forall (fun line => resumes token line = false) ls ->
  fold_left (parse_line policy) ls p = p /\ render_lines echo ls debug allow = (ls, echo).
Proof.
  intros P E F. induction F as [|line ls R _ [IHp IHr]]; [done|]. cbn [fold_left render_lines].
  erewrite stopped_parse_line, stopped_render_line by done. by rewrite IHr.
Qed.

(** ** Invariants of the parsing pass *)

Section ParseInv.
Context (policy : CommandPolicy) (I : StepCommandState -> Prop).

(** An invariant of the processors is one of the pass. *)
Lemma parse_inv (ls : list text) (p : Parsing) :
  (forall line c p, I (ps_state p) -> I (ps_state (run_command policy line c p))) ->
  I (ps_state p) -> I (ps_state (fold_left (parse_line policy) ls p)).
Proof.
  intros R. revert p. induction ls as [|line ls IH]; intros p HI; [done|]. cbn. apply IH. unfold parse_line.
  repeat case_match; auto.
Qed.
End ParseInv.

(** [add-mask] only touches the masks, and forgets none. *)
Definition new_masks (masks l : list text) : list text :=
  fold_left (fun ms m => if decide (m ∈ ms) then ms else ms ++ [m]) l masks.

Lemma set_masks_same st : set_masks (sc_masks st) st = st.
Proof. by destruct st. Qed.

Lemma add_masks_state l st : fold_left add_mask l st = set_masks (new_masks (sc_masks st) l) st.
Proof.
  unfold new_masks. revert st. induction l as [|m l IH]; intros st; cbn [fold_left]; [by rewrite set_masks_same|].
  rewrite IH. unfold add_mask. by case_decide.
Qed.

Lemma new_masks_old l masks m : m ∈ masks -> m ∈ new_masks masks l.
Proof.
  unfold new_masks. revert masks. induction l as [|x l IH]; intros masks H; [done|]. cbn. apply IH.
  case_decide; set_solver.
Qed.

Lemma new_masks_new l masks m : m ∈ l -> m ∈ new_masks masks l.
Proof.
  revert masks. induction l as [|x l IH]; intros masks H; [set_solver|].
  change (new_masks masks (x :: l)) with (new_masks (if decide (x ∈ masks) then masks else masks ++ [x]) l).
  apply elem_of_cons in H as [->|H]; [|by apply IH].
  apply new_masks_old. case_decide; [done|set_solver].
Qed.

(** Case analysis of a command down to the setters it applies. *)
Ltac processors :=
  unfold run_command, process_stop_commands, process_set_output, process_save_state, process_set_env,
    process_add_path, process_add_mask, reject_problem_matcher, process_echo,
    record_deprecated_command_telemetry, push_command_failure, push_error, push_warning;
  repeat (case_match; simplify_eq); cbn [ps_state with_state with_stopped with_scope];
  rewrite ?add_masks_state.

Lemma run_command_env_path policy line c p :
  allow_unsecure_commands policy = false ->
  sc_env (ps_state (run_command policy line c p)) = sc_env (ps_state p) /\
  sc_path (ps_state (run_command policy line c p)) = sc_path (ps_state p).
Proof. intros U. processors; try done; match goal with H : negb _ = false |- _ => by rewrite U in H end. Qed.

Lemma run_command_blocked policy line c p name :
  name ∈ bm_keys (sc_env (ps_state (run_command policy line c p))) ->
  name ∈ bm_keys (sc_env (ps_state p)) \/ blocked_set_env_name name = None.
Proof.
  processors; try (by left). cbn [set_env sc_env]. rewrite bm_insert_keys. intros [->|]; auto.
Qed.

(** The commands that GitHub disabled need their opt-in: without it no
    output of a step changes the environment or the path of later steps, and
    with it [NODE_OPTIONS] still cannot be set, in any spelling. *)
Theorem unsecure_commands_need_opt_in (output : text) (policy : CommandPolicy) (scope : DeprecatedCommandScope) :
  let st := ps_state (parse_workflow_commands_with_policy output policy scope) in
  (allow_unsecure_commands policy = false -> sc_env st = [] /\ sc_path st = []) /\
  (forall name, eq_ignore_ascii_case (txt "NODE_OPTIONS") name = true -> bm_get name (sc_env st) = None).
Proof.
  cbv zeta. unfold parse_workflow_commands_with_policy. split.
  - intros U. apply (parse_inv policy (fun st => sc_env st = [] /\ sc_path st = [])); [|done].
    intros line c p [E P]. destruct (run_command_env_path policy line c p U) as [-> ->]. done.
  - intros name B. apply eq_None_not_Some. rewrite bm_get_is_Some. revert name B.
    apply (parse_inv policy (fun st => forall name, _ name = true -> name ∉ bm_keys (sc_env st))); [|set_solver].
    intros line c p IH name B [H|H]%run_command_blocked; [by apply (IH name)|].
    cbn in H. by rewrite B in H.
Qed.

Lemma run_command_masks policy line c p m :
  m ∈ sc_masks (ps_state p) -> m ∈ sc_masks (ps_state (run_command policy line c p)).
Proof. processors; try done; cbn [set_masks sc_masks push_telemetry annotate]; rewrite ?elem_of_app; auto using new_masks_old. Qed.

Lemma parse_command_name line c : parse_workflow_command line None = Some c ->
  exists header value, command_line line = Some (header, value) /\ line_name header = wc_name c /\
    unescape_data value = wc_value c.
Proof.
  unfold parse_workflow_command. destruct (command_line line) as [[header value]|]; [|done].
  pose proof (command_header_name header) as N. destruct (command_header header) as [name props]. cbn in N.
  destruct (negb _ && _); [done|]. intros [= <-]. eauto.
Qed.

(** A secret announced with [add-mask] is registered and not shown: whatever
    is printed later, the value and each of its lines stay registered for
    masking, and the log shows nothing of the line but a fixed text, however
    the command was spelled and indented. *)
Theorem secret_is_registered_and_hidden (policy : CommandPolicy) (debug allow : bool) (line : text)
    (c : WorkflowCommand) (later : list text) (p : Parsing) (echo : CommandEcho) (m : text) :
  ps_stopped p = None -> ec_stopped echo = None ->
  parse_workflow_command line None = Some c -> ascii_lowercase (wc_name c) = txt "add-mask" ->
  trim (wc_value c) <> [] -> m ∈ mask_parts (wc_value c) ->
  m ∈ sc_masks (ps_state (fold_left (parse_line policy) (line :: later) p)) /\
  Forall (eq (txt "::add-mask::***")) (render_line echo line debug allow).1.
Proof.
  intros SP SE PC NM V M. split.
  - cbn [fold_left]. apply (parse_inv policy (fun st => m ∈ sc_masks st)).
    + intros. by apply run_command_masks.
    + unfold parse_line. rewrite SP, PC. unfold run_command, is_name. rewrite NM. cbn [ps_state with_state].
      rewrite !bool_decide_false, bool_decide_true by done. cbn [ps_state with_state].
      unfold process_add_mask. rewrite decide_False, add_masks_state by done. by apply new_masks_new.
  - destruct (parse_command_name _ _ PC) as (header & value & L & N & U).
    unfold render_line. rewrite L, SE. fold (line_name header). rewrite N.
    unfold render_command, render_state_command, eq_ignore_ascii_case, is_name. rewrite NM.
    assert (D : forall s, ascii_lowercase (txt s) <> txt "add-mask" -> wc_name c <> txt s) by congruence.
    rewrite !(bool_decide_false (wc_name c = _)) by (apply D; vm_compute; congruence). cbn [orb].
    rewrite !bool_decide_false, bool_decide_true by done. case_match; repeat constructor.
Qed.

(** ** Counters *)

Definition count_level (l : StepAnnotationLevel) (st : StepCommandState) : Z :=
  Z.of_nat (length (List.filter (fun a => bool_decide (an_level a = l)) (sc_annotations st))).

Definition counted (n : nat) (st : StepCommandState) : Prop :=
  sc_error_count st = count_level LFailure st /\ sc_warning_count st = count_level LWarning st /\
  sc_notice_count st = count_level LNotice st /\ (length (sc_annotations st) <= n)%nat.

Lemma counted_weaken n m st : (n <= m)%nat -> counted n st -> counted m st.
Proof. unfold counted. intros L (? & ? & ? & ?). repeat split; try done. lia. Qed.

Lemma counted_annotate n a st : counted n st -> counted (S n) (annotate a st).
Proof.
  unfold counted, count_level, annotate.
  cbn [sc_annotations sc_error_count sc_warning_count sc_notice_count].
  rewrite !List.filter_app, !length_app. cbn [List.filter length]. intros (-> & -> & -> & L).
  repeat split; [..|lia]; case_bool_decide;
    try (rewrite decide_True by done); try (rewrite decide_False by done); cbn [length]; lia.
Qed.

Lemma run_command_counted n policy line c p :
  counted n (ps_state p) -> counted (3 + n) (ps_state (run_command policy line c p)).
Proof.
  intros C. processors;
    try (apply (counted_weaken n); [lia|done]);
    try (apply (counted_weaken (S n)); [lia|by apply counted_annotate]);
    try (apply (counted_weaken (S (S n))); [lia|by do 2 apply counted_annotate]);
    by do 3 apply counted_annotate.
Qed.

Lemma parse_counted policy ls n p : counted n (ps_state p) ->
  counted (3 * length ls + n) (ps_state (fold_left (parse_line policy) ls p)).
Proof.
  revert n p. induction ls as [|line ls IH]; intros n p C; [exact C|]. cbn [fold_left length].
  replace (3 * S (length ls) + n)%nat with (3 * length ls + (3 + n))%nat by lia.
  apply IH. unfold parse_line. repeat case_match; try (apply (counted_weaken n); [lia|exact C]).
  by apply run_command_counted.
Qed.

(** The error, warning and notice counters of a step are exactly the numbers
    of its annotations of each level, and a line adds at most three, so the
    32-bit counters cannot overflow on output of less than a third of their
    range in lines. *)
Theorem counts_are_annotations (output : text) (policy : CommandPolicy) (scope : DeprecatedCommandScope) :
  let st := ps_state (parse_workflow_commands_with_policy output policy scope) in
  sc_error_count st = count_level LFailure st /\ sc_warning_count st = count_level LWarning st /\
  sc_notice_count st = count_level LNotice st /\
  (length (sc_annotations st) <= 3 * length (lines output))%nat.
Proof.
  cbv zeta. unfold parse_workflow_commands_with_policy.
  replace (3 * length (lines output))%nat with (3 * length (lines output) + 0)%nat by lia.
  by apply parse_counted.
Qed.

(** ** Writing a command and reading it back

    How the actions toolkit prints a command: [%], carriage returns and line
    feeds are escaped in the value, colons and commas as well in a property. *)

Definition escape_data_char (c : char) : text :=
  if N.eqb c PERCENT then txt "%25" else if N.eqb c CR then txt "%0D" else if N.eqb c LF then txt "%0A" else [c].
Definition escape_property_char (c : char) : text :=
  if N.eqb c (chr ":") then txt "%3A" else if N.eqb c (chr ",") then txt "%2C" else escape_data_char c.
Definition escape_with (f : char -> text) (s : text) : text := concat (map f s).
Definition escape_data : text -> text := escape_with escape_data_char.
Definition escape_property : text -> text := escape_with escape_property_char.

(** Every character is itself or a percent sign and two more. *)
Definition coded (f : char -> text) : Prop :=
  forall c, (exists d, f c = [d] /\ d <> PERCENT) \/
            (exists x y, f c = [PERCENT; x; y] /\ x <> PERCENT /\ y <> PERCENT).

(** Replacing one code. *)
Definition decode_code (from to : text) (f : char -> text) : char -> text :=
  fun c => if decide (f c = from) then to else f c.

Lemma replace_coded f a b to s : coded f -> a <> PERCENT -> b <> PERCENT ->
  replace [PERCENT; a; b] to (escape_with f s) = escape_with (decode_code [PERCENT; a; b] to f) s.
Proof.
  intros C A B. unfold replace, escape_with. induction s as [|c s IH]; [done|]. cbn [map concat].
  unfold decode_code at 1. destruct (C c) as [(d & -> & D)|(x & y & -> & X & Y)].
  - rewrite decide_False by congruence. cbn [app replace_go starts_with strip_prefix].
    unfold starts_with. cbn [strip_prefix]. destruct (N.eqb_spec PERCENT d); [congruence|]. by rewrite IH.
  - cbn [app]. cbn [replace_go length Nat.sub]. unfold starts_with. cbn [strip_prefix]. rewrite N.eqb_refl.
    destruct (N.eqb_spec a x) as [<-|NA]; [destruct (N.eqb_spec b y) as [<-|NB]|].
    + rewrite decide_True by done. by rewrite IH.
    + rewrite decide_False by congruence. cbn [app].
      rewrite (proj2 (N.eqb_neq PERCENT a)), (proj2 (N.eqb_neq PERCENT y)) by congruence. by rewrite IH.
    + rewrite decide_False by congruence. cbn [app].
      rewrite (proj2 (N.eqb_neq PERCENT x)), (proj2 (N.eqb_neq PERCENT y)) by congruence. by rewrite IH.
Qed.

Lemma coded_decode from d f : coded f -> d <> PERCENT -> coded (decode_code from [d] f).
Proof. intros C D c. unfold decode_code. case_decide; [left; eauto|apply C]. Qed.

Lemma escape_with_id f s : (forall c, f c = [c]) -> escape_with f s = s.
Proof. intros E. unfold escape_with. induction s as [|c s IH]; cbn; [done|]. by rewrite E, IH. Qed.

Ltac percent_codes :=
  repeat match goal with
  | |- context [txt "%0D"] => change (txt "%0D") with [PERCENT; chr "0"; chr "D"]
  | |- context [txt "%0A"] => change (txt "%0A") with [PERCENT; chr "0"; chr "A"]
  | |- context [txt "%25"] => change (txt "%25") with [PERCENT; chr "2"; chr "5"]
  | |- context [txt "%3A"] => change (txt "%3A") with [PERCENT; chr "3"; chr "A"]
  | |- context [txt "%2C"] => change (txt "%2C") with [PERCENT; chr "2"; chr "C"]
  end.
(** Compare the character with each literal. *)
Ltac char_cases tac :=
  repeat match goal with
  | |- context [N.eqb ?c ?d] => destruct (N.eqb_spec c d) as [->|]; [tac|]
  end.

Lemma escape_data_coded : coded escape_data_char.
Proof.
  intros c. unfold escape_data_char.
  char_cases ltac:(right; do 2 eexists; split; [reflexivity|by split]). left. eauto.
Qed.

Lemma escape_property_coded : coded escape_property_char.
Proof.
  intros c. unfold escape_property_char.
  destruct (N.eqb_spec c (chr ":")); [|destruct (N.eqb_spec c (chr ",")); [|apply escape_data_coded]];
    right; do 2 eexists; (split; [reflexivity|by split]).
Qed.

Lemma unescape_coded f s : coded f ->
  unescape_data (escape_with f s) =
  escape_with (decode_code (txt "%25") (txt "%") (decode_code (txt "%0A") [LF] (decode_code (txt "%0D") [CR] f))) s.
Proof.
  intros C. unfold unescape_data.
  percent_codes. rewrite !replace_coded; try done; repeat (apply coded_decode; [|done]); done.
Qed.

Lemma decode_plain a b to f c : f c = [c] -> decode_code [PERCENT; a; b] to f c = [c].
Proof. intros E. unfold decode_code. rewrite E. by rewrite decide_False by congruence. Qed.

Lemma unescape_escape_data s : unescape_data (escape_data s) = s.
Proof.
  unfold escape_data. rewrite unescape_coded by apply escape_data_coded. apply escape_with_id. intros c.
  destruct (decide (c ∈ [PERCENT; CR; LF])) as [E|E]; rewrite !elem_of_cons, elem_of_nil in E.
  - by destruct E as [->|[->|[->|[]]]]; vm_compute.
  - percent_codes. do 3 apply decode_plain. unfold escape_data_char. char_cases ltac:(naive_solver). done.
Qed.

Lemma unescape_escape_property s : unescape_property (escape_property s) = s.
Proof.
  unfold unescape_property, escape_property.
  percent_codes. change (txt ":") with [chr ":"]. change (txt ",") with [chr ","].
  pose proof escape_property_coded as C. rewrite (replace_coded _ _ _ _ _ C) by done.
  pose proof (coded_decode [PERCENT; chr "3"; chr "A"] (chr ":") _ C) as C1. rewrite replace_coded by auto.
  rewrite unescape_coded by (repeat apply coded_decode; done). apply escape_with_id. intros c.
  destruct (decide (c ∈ [chr ":"; chr ","; PERCENT; CR; LF])) as [E|E]; rewrite !elem_of_cons, elem_of_nil in E.
  - by destruct E as [->|[->|[->|[->|[->|[]]]]]]; vm_compute.
  - percent_codes. do 5 apply decode_plain. unfold escape_property_char, escape_data_char.
    char_cases ltac:(naive_solver). done.
Qed.

Lemma escape_property_free c s : c ∈ [chr ":"; chr ","; CR; LF] -> c ∉ escape_property s.
Proof.
  intros E H. unfold escape_property, escape_with in H. apply list_elem_of_In, in_concat in H as (l & L & H).
  apply in_map_iff in L as (d & <- & _). revert H. unfold escape_property_char, escape_data_char.
  rewrite !elem_of_cons, elem_of_nil in E.
  char_cases ltac:(intros H; vm_compute in H; naive_solver). cbn. naive_solver.
Qed.

(** *** The text of a command *)

Fixpoint join_with (sep : text) (l : list text) : text :=
  match l with
  | [] => []
  | [a] => a
  | a :: l => a ++ sep ++ join_with sep l
  end.

Lemma split_at_join p c l : p c = true -> l <> [] -> Forall (Forall (fun c => p c = false)) l ->
  split_at p (join_with [c] l) = l.
Proof.
  intros E N F. induction F as [|a l A F IH]; [done|]. destruct l as [|b l]; [by apply split_at_free|].
  change (join_with [c] (a :: b :: l)) with (a ++ c :: join_with [c] (b :: l)).
  rewrite text_split_at_app by done. by rewrite IH.
Qed.

Definition property_text (kv : text * text) : text := kv.1 ++ txt "=" ++ escape_property kv.2.
Definition command_text (name : text) (properties : list (text * text)) (value : text) : text :=
  txt "::" ++ name ++
  (if decide (properties = []) then [] else txt " " ++ join_with (txt ",") (map property_text properties)) ++
  txt "::" ++ escape_data value.

(** A property key that needs no escape. *)
Definition plain_key (k : text) : Prop := (chr "=" ∉ k) /\ (chr "," ∉ k) /\ (chr ":" ∉ k).

Lemma parse_property_texts properties : properties <> [] -> Forall (fun kv => plain_key kv.1) properties ->
  parse_properties (join_with (txt ",") (map property_text properties)) = bm_of_list properties.
Proof.
  intros N F. unfold parse_properties. change (txt ",") with [chr ","]. rewrite split_at_join.
  - f_equal. clear N. induction F as [|[k v] l [E _] _ IH]; [done|]. cbn [map omap list_omap].
    unfold property_text at 1. cbn [fst snd]. change (txt "=") with [chr "="].
    rewrite split_once_free by done. cbn [option_map fst snd]. rewrite unescape_escape_property.
    f_equal. exact IH.
  - apply is_chr_refl.
  - by destruct properties.
  - apply Forall_map. eapply Forall_impl; [done|]. intros [k v] (_ & C & _). cbn in *.
    unfold property_text. cbn. apply Forall_forall. intros c H. unfold is_chr. apply N.eqb_neq. intros ->.
    rewrite !elem_of_app in H. destruct H as [H|[H|H]]; [done| |].
    + change (txt "=") with [chr "="] in H. set_solver.
    + revert H. apply escape_property_free. set_solver.
Qed.

Lemma lowercase_elem c s : to_ascii_lowercase c = c -> c ∈ s -> c ∈ ascii_lowercase s.
Proof. intros E H. rewrite <- E. unfold ascii_lowercase. by apply list_elem_of_fmap_2. Qed.

Lemma registered_plain name c : is_registered_command name = true -> c ∈ [chr " "; chr ":"] -> c ∉ name.
Proof.
  intros R C H. unfold is_registered_command in R. apply existsb_exists in R as (r & R & E).
  unfold eq_ignore_ascii_case in E. apply bool_decide_eq_true in E.
  assert (L : c ∈ ascii_lowercase name).
  { apply lowercase_elem; [..|done]; rewrite !elem_of_cons, elem_of_nil in C; by destruct C as [->|[->|[]]]. }
  rewrite <- E in L. rewrite !elem_of_cons, elem_of_nil in C. clear E H.
  apply (bool_decide_eq_true_2 (c ∈ ascii_lowercase r)) in L. unfold REGISTERED_COMMANDS in R. cbn [map In] in R.
  destruct C as [->|[->|[]]]; repeat (destruct R as [<-|R]; [by vm_compute in L|]); destruct R.
Qed.

Lemma join_free (c : char) sep l : c ∉ sep -> Forall (fun a => c ∉ a) l -> c ∉ join_with sep l.
Proof.
  intros S F. induction F as [|a l A F IH]; [apply not_elem_of_nil|]. destruct l as [|b l]; [done|].
  change (join_with sep (a :: b :: l)) with (a ++ sep ++ join_with sep (b :: l)). rewrite !elem_of_app. naive_solver.
Qed.

Lemma trim_start_app p a b : Forall (fun c => p c = true) a -> trim_start_by p (a ++ b) = trim_start_by p b.
Proof. induction 1 as [|c a P _ IH]; cbn; [done|]. by rewrite P. Qed.

(** What a step prints with the toolkit is what the runner reads: a command
    with any properties and any value, escaped as the toolkit does and
    indented by any white space, parses to exactly that name, those
    properties and that value. *)
Theorem command_round_trips (indent name value : text) (properties : list (text * text)) :
  Forall (fun c => is_whitespace c = true) indent -> is_registered_command name = true ->
  Forall (fun kv => plain_key kv.1) properties ->
  parse_workflow_command (indent ++ command_text name properties value) None =
  Some {| wc_name := name; wc_properties := bm_of_list properties; wc_value := value |}.
Proof.
  intros I R K. unfold parse_workflow_command, command_line, command_text.
  rewrite trim_start_app by done. change (txt "::") with [chr ":"; chr ":"].
  assert (N : forall c, c ∈ [chr " "; chr ":"] -> c ∉ name) by (intros c; by apply registered_plain).
  change (trim_start_by is_whitespace ([chr ":"; chr ":"] ++ ?x)) with ([chr ":"; chr ":"] ++ x).
  rewrite text_strip_prefix_app, app_assoc, split_once_free.
  - unfold command_header. case_decide as E.
    + subst properties. rewrite app_nil_r. change (txt " ") with [chr " "].
      rewrite split_once_none by (apply N; set_solver). rewrite R. cbn [negb andb].
      by rewrite unescape_escape_data.
    + change (txt " ") with [chr " "]. rewrite split_once_free by (apply N; set_solver).
      rewrite parse_property_texts by done. rewrite R. cbn [negb andb]. by rewrite unescape_escape_data.
  - rewrite elem_of_app. intros [H|H]; [by apply (N (chr ":")) in H; [|set_solver]|].
    case_decide; [by apply elem_of_nil in H|]. change (txt " ") with [chr " "] in H.
    rewrite elem_of_app in H. destruct H as [H|H]; [set_solver|]. revert H. apply join_free.
    + change (txt ",") with [chr ","]. set_solver.
    + apply Forall_map. eapply Forall_impl; [done|]. intros [k v] (_ & _ & C). unfold property_text. cbn in *.
      rewrite !elem_of_app. intros [H|[H|H]]; [done| |].
      * change (txt "=") with [chr "="] in H. set_solver.
      * revert H. apply escape_property_free. set_solver.
Qed.

(** ** Witnesses *)

Definition no_policy : CommandPolicy :=
  {| allow_unsecure_commands := false; allow_unsecure_stop_command_tokens := false |}.
Definition start : Parsing :=
  {| ps_state := default_state; ps_stopped := None;
     ps_scope := {| ds_set_output := false; ds_save_state := false |} |}.

Lemma renderer_follows_parser_witness :
  ps_stopped (fold_left (parse_line no_policy) [txt "::stop-commands::pause1234"; txt "::error::x"] start) =
  ec_stopped (render_lines (new_echo false) [txt "::stop-commands::pause1234"; txt "::error::x"] false
                (allow_unsecure_stop_command_tokens no_policy)).2.
Proof. apply (renderer_follows_parser no_policy false). reflexivity. Defined.

Lemma stopped_output_is_inert_witness :
  let p := with_stopped (Some (txt "pause1234")) start in
  let echo := {| ec_on := true; ec_stopped := Some (txt "pause1234") |} in
  fold_left (parse_line no_policy) [txt "::error::x"; txt "::stop-commands::other"] p = p /\
  render_lines echo [txt "::error::x"; txt "::stop-commands::other"] false false =
  ([txt "::error::x"; txt "::stop-commands::other"], echo).
Proof.
  apply (stopped_output_is_inert no_policy false false (txt "pause1234")); try reflexivity.
  repeat constructor.
Defined.

Lemma secret_is_registered_and_hidden_witness :
  txt "b c" ∈ sc_masks (ps_state (fold_left (parse_line no_policy) [txt "  ::Add-Mask::a%0Ab c "; txt "x"] start)) /\
  Forall (eq (txt "::add-mask::***")) (render_line (new_echo true) (txt "  ::Add-Mask::a%0Ab c ") false false).1.
Proof.
  apply (secret_is_registered_and_hidden no_policy false false (txt "  ::Add-Mask::a%0Ab c ")
           {| wc_name := txt "Add-Mask"; wc_properties := []; wc_value := txt "a" ++ [LF] ++ txt "b c " |}
           [txt "x"] start (new_echo true) (txt "b c")); try reflexivity.
  - discriminate.
  - apply (bool_decide_eq_true_1 (txt "b c" ∈ mask_parts (txt "a" ++ [LF] ++ txt "b c "))). reflexivity.
Defined.

Lemma command_round_trips_witness :
  parse_workflow_command (txt "  " ++ command_text (txt "error") [(txt "file", txt "a,b:c"); (txt "line", txt "3")]
                            (txt "50%" ++ [LF] ++ txt "::x")) None =
  Some {| wc_name := txt "error"; wc_properties := bm_of_list [(txt "file", txt "a,b:c"); (txt "line", txt "3")];
          wc_value := txt "50%" ++ [LF] ++ txt "::x" |}.
Proof.
  apply (command_round_trips (txt "  ") (txt "error") (txt "50%" ++ [LF] ++ txt "::x")
           [(txt "file", txt "a,b:c"); (txt "line", txt "3")]); try reflexivity; try by repeat constructor.
  repeat (apply Forall_cons_2 || apply Forall_nil_2); repeat split;
    (apply (bool_decide_eq_true_1 (_ ∉ _)); reflexivity).
Defined.

(** The renderer drops a line whose name no command has, which the parser
    does not take for a command. *)
Example unknown_command_vanishes :
  parse_workflow_command (txt "::hello::world") None = None /\
  (render_line (new_echo false) (txt "::hello::world") false false).1 = [].
Proof. split; reflexivity. Qed.

(** The parser takes the names of annotations in any case, the renderer does not. *)
Example uppercase_error_vanishes :
  sc_error_count (ps_state (parse_line no_policy start (txt "::ERROR::boom"))) = 1 /\
  (render_line (new_echo false) (txt "::ERROR::boom") false false).1 = [].
Proof. split; reflexivity. Qed.
