(* ===== verification/CommandFiles.v ===== *)
(** * Command files

    [crates/velnor-runner/src/command_files.rs]: the files a step appends
    [name=value] lines and [name<<delimiter] blocks to ([GITHUB_ENV],
    [GITHUB_OUTPUT], [GITHUB_STATE]). The code keeps a byte index into the
    contents; here a position is the text that is left. A line read consumes
    at least one character, so the fuel of the two loops, the length of the
    text left and one more, is never used up ([OutOfFuel] is not an error of
    the code). Decoding of byte order marks is not modelled. *)

From Stdlib Require Import ZArith Lia Ascii.
From stdpp Require Import base list strings sets.
From S2P Require Import Prelude ExprText TextOps.
#[local] Open Scope result_scope.

Record FileCommand : Type := { fc_name : text; fc_value : text }.

Inductive FileError : Type :=
| InvalidFormat (line : text)
| EmptyNameOrDelimiter (line : text)
| DelimiterNotFound (delimiter : text)
| MissingNewLine
| OutOfFuel.

Record CommandFileLine : Type := { fl_contents : text; fl_newline : text }.

(** The line at a position and the position after it. On Windows a carriage
    return before the line feed belongs to the line break. *)
Definition read_line (windows : bool) (todo : text) : option (CommandFileLine * text) :=
  match todo with
  | [] => None
  | _ =>
      match split_once [LF] todo with
      | None => Some ({| fl_contents := todo; fl_newline := [] |}, [])
      | Some (line, rest) =>
          match (if windows then strip_suffix [CR] line else None) with
          | Some line => Some ({| fl_contents := line; fl_newline := [CR; LF] |}, rest)
          | None => Some ({| fl_contents := line; fl_newline := [LF] |}, rest)
          end
      end
  end.

(** The loop that collects a block. [consumed] is the text from the start of
    the value to the position, [value] the text up to the last line break. *)
Fixpoint read_block (fuel : nat) (windows : bool) (delimiter consumed value todo : text)
    : result (text * text) FileError :=
  match fuel with
  | O => Err OutOfFuel
  | S fuel =>
      match read_line windows todo with
      | None => Err (DelimiterNotFound delimiter)
      | Some (line, todo) =>
          if decide (fl_contents line = delimiter) then Ok (value, todo)
          else if decide (fl_newline line = []) then Err MissingNewLine
          else read_block fuel windows delimiter (consumed ++ fl_contents line ++ fl_newline line)
                 (consumed ++ fl_contents line) todo
      end
  end.

(** [equals_index < heredoc_index] when both are found. *)
Definition equals_first (line : text) : option (text * text) :=
  match split_once (txt "=") line, split_once (txt "<<") line with
  | Some (name, value), Some (before, _) =>
      if (length name <? length before)%nat then Some (name, value) else None
  | _, _ => None
  end.

Fixpoint parse_lines (fuel : nat) (windows : bool) (todo : text) : result (list FileCommand) FileError :=
  match fuel with
  | O => Err OutOfFuel
  | S fuel =>
      match read_line windows todo with
      | None => Ok []
      | Some (line, todo) =>
          let line := fl_contents line in
          let push name value todo :=
            let? rest := parse_lines fuel windows todo in
            Ok ({| fc_name := name; fc_value := value |} :: rest) in
          if decide (line = []) then parse_lines fuel windows todo
          else
          match equals_first line with
          | Some (name, value) => push name value todo
          | None =>
              match split_once (txt "<<") line with
              | Some (name, delimiter) =>
                  if decide (name = [] \/ delimiter = []) then Err (EmptyNameOrDelimiter line)
                  else
                  let? block := read_block (S (length todo)) windows delimiter [] [] todo in
                  push name block.1 block.2
              | None =>
                  match split_once (txt "=") line with
                  | Some (name, value) => push name value todo
                  | None => Err (InvalidFormat line)
                  end
              end
          end
      end
  end.

Definition parse_command_file_contents_for_os (windows : bool) (contents : text)
    : result (list FileCommand) FileError := parse_lines (S (length contents)) windows contents.

Definition BYTE_ORDER_MARK : char := 65279%N.
Definition parse_command_file_contents (windows : bool) (contents : text)
    : result (list FileCommand) FileError :=
  parse_command_file_contents_for_os windows
    (match strip_prefix [BYTE_ORDER_MARK] contents with Some rest => rest | None => contents end).

(** ** The loops end *)

Lemma read_line_shorter w todo line rest : read_line w todo = Some (line, rest) -> (length rest < length todo)%nat.
Proof.
  unfold read_line. destruct todo as [|c todo]; [done|]. destruct (split_once [LF] (c :: todo)) as [[a b]|] eqn:E.
  - apply split_once_Some in E. rewrite E, !length_app. cbn. intros H. repeat case_match; simplify_eq; lia.
  - intros [= <- <-]. cbn. lia.
Qed.

Lemma read_block_fuel fuel w d consumed value todo :
  (length todo < fuel)%nat -> read_block fuel w d consumed value todo <> Err OutOfFuel.
Proof.
  revert consumed value todo. induction fuel as [|fuel IH]; intros consumed value todo L; [lia|]. cbn.
  destruct (read_line w todo) as [[line rest]|] eqn:E; [|done]. apply read_line_shorter in E.
  repeat case_decide; try done. apply IH. lia.
Qed.

Lemma read_block_shorter fuel w d consumed value todo v rest :
  read_block fuel w d consumed value todo = Ok (v, rest) -> (length rest < length todo)%nat.
Proof.
  revert consumed value todo. induction fuel as [|fuel IH]; intros consumed value todo; [done|]. cbn.
  destruct (read_line w todo) as [[line r]|] eqn:E; [|done]. apply read_line_shorter in E.
  repeat case_decide; try done; [by intros [= <- <-]|]. intros ?%IH. lia.
Qed.

Lemma parse_lines_fuel fuel w todo : (length todo < fuel)%nat -> parse_lines fuel w todo <> Err OutOfFuel.
Proof.
  revert todo. induction fuel as [|fuel IH]; intros todo L; [lia|]. cbn [parse_lines].
  destruct (read_line w todo) as [[line rest]|] eqn:E; [|done]. apply read_line_shorter in E.
  assert (P : forall n v r, (length r <= length rest)%nat ->
    result_bind (parse_lines fuel w r) (fun l => Ok ({| fc_name := n; fc_value := v |} :: l)) <> Err OutOfFuel).
  { intros n v r R. destruct (parse_lines fuel w r) eqn:Q; cbn; [done|]. intros [= ->].
    by apply (IH r) in Q; [|lia]. }
  case_decide; [apply IH; lia|]. destruct (equals_first _) as [[n v]|]; [by apply P|].
  destruct (split_once (txt "<<") _) as [[n d]|].
  - case_decide; [done|]. destruct (read_block _ w d [] [] rest) as [[v r]|e] eqn:B; cbn [result_bind fst snd].
    + apply P. apply read_block_shorter in B. lia.
    + intros [= ->]. by apply read_block_fuel in B; [|lia].
  - destruct (split_once (txt "=") _) as [[n v]|]; [by apply P|done].
Qed.

(** ** Writing a file and reading it back *)

Inductive FileEntry : Type :=
| Assignment (name value : text)
| Block (name delimiter value : text).

Definition entry_command (e : FileEntry) : FileCommand :=
  match e with
  | Assignment name value | Block name _ value => {| fc_name := name; fc_value := value |}
  end.
Definition write_entry (e : FileEntry) : text :=
  match e with
  | Assignment name value => name ++ txt "=" ++ value ++ [LF]
  | Block name delimiter value => name ++ txt "<<" ++ delimiter ++ [LF] ++ value ++ [LF] ++ delimiter ++ [LF]
  end.

(** What a step must respect: names without the separators, one-line values or
    a delimiter that is none of the lines of its value. *)
Definition writable (e : FileEntry) : Prop :=
  match e with
  | Assignment name value =>
      (chr "=" ∉ name) /\ (chr "<" ∉ name) /\ (LF ∉ name) /\ (LF ∉ value)
  | Block name delimiter value =>
      name <> [] /\ (chr "=" ∉ name) /\ (chr "<" ∉ name) /\ (LF ∉ name) /\
      delimiter <> [] /\ (LF ∉ delimiter) /\ (delimiter ∉ split_at (N.eqb LF) value)
  end.

Lemma read_line_LF line rest : LF ∉ line ->
  read_line false (line ++ LF :: rest) = Some ({| fl_contents := line; fl_newline := [LF] |}, rest).
Proof.
  intros N. unfold read_line. change (LF :: rest) with ([LF] ++ rest).
  rewrite split_once_free by done. by destruct line.
Qed.

Lemma split_at_LF value : exists first rest,
  split_at (N.eqb LF) value = first :: rest /\ (LF ∉ first) /\
  ((rest = [] /\ value = first) \/ exists value', value = first ++ LF :: value' /\ split_at (N.eqb LF) value' = rest).
Proof.
  induction value as [|c value (f & r & E & N & C)]; cbn [split_at].
  - exists [], []. split; [done|]. split; [apply not_elem_of_nil|auto].
  - destruct (N.eqb_spec LF c) as [<-|D].
    + exists [], (split_at (N.eqb LF) value). split; [done|]. split; [apply not_elem_of_nil|]. right. by exists value.
    + rewrite E. exists (c :: f), r. split; [done|]. split; [by rewrite not_elem_of_cons|].
      destruct C as [[-> ->]|(v' & -> & <-)]; [by left|right; by exists v'].
Qed.

Lemma read_block_writes fuel delimiter consumed old value rest :
  delimiter <> [] -> LF ∉ delimiter -> delimiter ∉ split_at (N.eqb LF) value ->
  (length (value ++ LF :: delimiter ++ LF :: rest) < fuel)%nat ->
  read_block fuel false delimiter consumed old (value ++ LF :: delimiter ++ LF :: rest) = Ok (consumed ++ value, rest).
Proof.
  intros D N. revert fuel consumed old. induction value as [value IH] using (induction_ltof1 _ length).
  unfold ltof in IH. intros fuel consumed old S L. destruct fuel as [|fuel]; [cbn in L; lia|].
  destruct (split_at_LF value) as (f & r & E & NF & C). rewrite E in S. apply not_elem_of_cons in S as [S1 S2].
  cbn [read_block]. destruct C as [[-> ->]|(value' & -> & <-)].
  - rewrite read_line_LF by done. cbn [fl_contents fl_newline]. rewrite decide_False by congruence. rewrite decide_False by done.
    destruct fuel as [|fuel]; [rewrite !length_app in L; cbn in L; lia|]. cbn [read_block].
    rewrite read_line_LF by done. cbn [fl_contents]. by rewrite decide_True.
  - rewrite <- app_assoc. cbn [app]. rewrite read_line_LF by done. cbn [fl_contents fl_newline].
    rewrite decide_False by congruence. rewrite decide_False by done. rewrite IH.
    + by rewrite <- !app_assoc.
    + rewrite length_app. cbn. lia.
    + done.
    + rewrite <- app_assoc in L. cbn in L. rewrite length_app in L. cbn in L. lia.
Qed.

Lemma heredoc_free name rest : chr "<" ∉ name -> split_once (txt "<<") (name ++ txt "<<" ++ rest) = Some (name, rest).
Proof. intros N. change (txt "<<") with (chr "<" :: [chr "<"]). by apply split_once_free. Qed.

Lemma equals_free name rest : chr "=" ∉ name -> split_once (txt "=") (name ++ txt "=" ++ rest) = Some (name, rest).
Proof. intros N. change (txt "=") with [chr "="]. by apply split_once_free. Qed.

(** An occurrence of [<<] in an assignment is behind the equals sign. *)
Lemma heredoc_behind name value before after : chr "<" ∉ name ->
  split_once (txt "<<") (name ++ txt "=" ++ value) = Some (before, after) -> (length name < length before)%nat.
Proof.
  intros N E. apply split_once_Some in E. apply Nat.nle_gt. intros L.
  assert (H : (name ++ txt "=" ++ value) !! length before = Some (chr "<")).
  { rewrite E. rewrite lookup_app_r by done. by rewrite Nat.sub_diag. }
  destruct (decide (length before < length name)%nat) as [B|B].
  - rewrite lookup_app_l in H by done. by apply list_elem_of_lookup_2 in H.
  - rewrite lookup_app_r in H by lia. by replace (length before - length name)%nat with 0%nat in H by lia.
Qed.

Lemma parse_entry fuel e rest : writable e -> (length (write_entry e ++ rest) < S fuel)%nat ->
  parse_lines (S fuel) false (write_entry e ++ rest) =
  (let? l := parse_lines fuel false rest in Ok (entry_command e :: l)).
Proof.
  destruct e as [name value|name delimiter value]; cbn [writable write_entry entry_command].
  - intros (Q & H & N & V) L. rewrite <- !app_assoc. cbn [app].
    replace (name ++ txt "=" ++ value ++ LF :: rest) with ((name ++ txt "=" ++ value) ++ LF :: rest)
      by by rewrite <- !app_assoc.
    cbn [parse_lines]. rewrite read_line_LF by (change (txt "=") with [chr "="]; set_solver). cbn [fl_contents].
    rewrite decide_False by (by destruct name). unfold equals_first. rewrite equals_free by done.
    destruct (split_once (txt "<<") (name ++ txt "=" ++ value)) as [[b a]|] eqn:E; [|done].
    apply heredoc_behind in E; [|done]. by rewrite (proj2 (Nat.ltb_lt _ _) E).
  - intros (NE & Q & H & N & DE & D & S) L. rewrite <- !app_assoc in *. cbn [app] in *.
    replace (name ++ txt "<<" ++ delimiter ++ LF :: value ++ LF :: delimiter ++ LF :: rest)
      with ((name ++ txt "<<" ++ delimiter) ++ LF :: value ++ LF :: delimiter ++ LF :: rest)
      in * by by rewrite <- !app_assoc.
    cbn [parse_lines]. rewrite read_line_LF by (change (txt "<<") with [chr "<"; chr "<"]; set_solver). cbn [fl_contents].
    rewrite decide_False by (by destruct name). unfold equals_first. rewrite heredoc_free by done.
    replace (match split_once (txt "=") (name ++ txt "<<" ++ delimiter) with
             | Some (n, v) => if (length n <? length name)%nat then Some (n, v) else None | None => None end)
      with (@None (text * text)).
    + rewrite decide_False by naive_solver. rewrite read_block_writes by (done || lia). done.
    + destruct (split_once (txt "=") _) as [[n v]|] eqn:E; [|done]. apply split_once_Some in E.
      destruct (Nat.ltb_spec (length n) (length name)) as [B|]; [|done].
      assert (X : (name ++ txt "<<" ++ delimiter) !! length n = Some (chr "=")).
      { rewrite E. rewrite lookup_app_r by done. by rewrite Nat.sub_diag. }
      rewrite lookup_app_l in X by done. by apply list_elem_of_lookup_2 in X.
Qed.

Lemma write_entry_length e : writable e -> (1 <= length (write_entry e))%nat.
Proof. destruct e; cbn; intros _; rewrite !length_app; cbn; lia. Qed.

Lemma parse_entries entries fuel : Forall writable entries ->
  (length (concat (map write_entry entries)) < fuel)%nat ->
  parse_lines fuel false (concat (map write_entry entries)) = Ok (map entry_command entries).
Proof.
  intros F. revert fuel. induction F as [|e entries W F IH]; intros fuel L; (destruct fuel as [|fuel]; [lia|]); [done|].
  cbn [map concat] in *. rewrite parse_entry by done. pose proof (write_entry_length e W) as E.
  rewrite length_app in L. by rewrite IH by lia.
Qed.

(** What a step writes to a command file is what the runner reads: any
    sequence of assignments and delimited blocks, values with line breaks,
    equals signs and [<<] included, is parsed back exactly and in order, as
    long as no block contains its own delimiter as a line; and whatever a
    file contains, parsing ends with commands or with one of the four errors
    of the code. *)
Theorem command_file_round_trips (entries : list FileEntry) :
  Forall writable entries ->
  parse_command_file_contents_for_os false (concat (map write_entry entries)) = Ok (map entry_command entries) /\
  (forall windows contents, parse_command_file_contents windows contents <> Err OutOfFuel).
Proof.
  intros F. unfold parse_command_file_contents, parse_command_file_contents_for_os. split.
  - by apply parse_entries; [|lia].
  - intros w contents. apply parse_lines_fuel. lia.
Qed.

Lemma command_file_round_trips_witness :
  let entries := [Assignment (txt "A") (txt "x<<y=z"); Block (txt "B") (txt "EOF") (txt "one" ++ [LF] ++ txt "two")] in
  parse_command_file_contents_for_os false (concat (map write_entry entries)) = Ok (map entry_command entries) /\
  (forall windows contents, parse_command_file_contents windows contents <> Err OutOfFuel).
Proof.
  apply (command_file_round_trips [Assignment (txt "A") (txt "x<<y=z");
                                   Block (txt "B") (txt "EOF") (txt "one" ++ [LF] ++ txt "two")]).
  repeat (apply Forall_cons_2 || apply Forall_nil_2); cbn [writable]; repeat split; try discriminate;
    (apply (bool_decide_eq_true_1 (_ ∉ _)); reflexivity).
Defined.
