(* ===== verification/StepScopes.v ===== *)
(** * Composite conclusion scopes

    [crates/velnor-runner/src/execution/composite_scopes.rs]: the steps of a
    composite action run inside a scope, scopes nest, and a composite step
    whose failure is ignored takes the failures of all its inner steps out of
    the status of the job. The theorems are about arbitrary well-nested runs
    of steps. *)

From Stdlib Require Import ZArith Lia Ascii.
From stdpp Require Import base list strings sets.
From S2P Require Import Prelude ExprText TextOps.

Inductive StepOutcome : Type := OSuccess | OFailure | OCancelled | OSkipped.
#[export] Instance outcome_eq_dec : EqDecision StepOutcome.
Proof. solve_decision. Defined.

Definition StepOutcome_as_str (o : StepOutcome) : text :=
  match o with
  | OSuccess => txt "success"
  | OFailure => txt "failure"
  | OCancelled => txt "cancelled"
  | OSkipped => txt "skipped"
  end.

(** [BTreeSet<String>]. *)
Definition bset : Type := bmap ().
Definition bs_extend (s : bset) (l : list text) : bset := fold_left (fun s x => bm_insert x () s) l s.
Definition bs_contains (x : text) (s : bset) : bool := bool_decide (x ∈ bm_keys s).

Record CompositeConclusionFrame : Type := {
  fr_step_id : text;
  fr_conclusions : bmap StepOutcome;
  fr_descendants : bset }.

Record CompositeConclusionScopes : Type := {
  cs_stack : list text;
  cs_converted : bset;
  cs_frames : list CompositeConclusionFrame }.

(** Both stacks have their top first. *)
Definition no_scopes : CompositeConclusionScopes := {| cs_stack := []; cs_converted := []; cs_frames := [] |}.

Definition push (step_id : text) (s : CompositeConclusionScopes) : CompositeConclusionScopes :=
  {| cs_stack := step_id :: cs_stack s;
     cs_converted := cs_converted s;
     cs_frames := {| fr_step_id := step_id; fr_conclusions := []; fr_descendants := [] |} :: cs_frames s |}.

Definition frame_ids (f : CompositeConclusionFrame) : bset :=
  bs_extend (bs_extend [] (bm_keys (fr_conclusions f))) (bm_keys (fr_descendants f)).
Definition add_descendants (ids : bset) (f : CompositeConclusionFrame) : CompositeConclusionFrame :=
  {| fr_step_id := fr_step_id f; fr_conclusions := fr_conclusions f;
     fr_descendants := bs_extend (fr_descendants f) (bm_keys ids) |}.

Definition pop (step_id : text) (s : CompositeConclusionScopes) : list text * CompositeConclusionScopes :=
  let stack := match cs_stack s with
               | scope :: rest => if decide (scope = step_id) then rest else cs_stack s
               | [] => []
               end in
  match cs_frames s with
  | frame :: rest =>
      if decide (fr_step_id frame = step_id) then
        let transitive := frame_ids frame in
        let rest := match rest with
                    | parent :: rest => add_descendants transitive parent :: rest
                    | [] => []
                    end in
        (bm_keys transitive,
         {| cs_stack := stack; cs_converted := cs_converted s; cs_frames := rest |})
      else ([], {| cs_stack := stack; cs_converted := cs_converted s; cs_frames := cs_frames s |})
  | [] => ([], {| cs_stack := stack; cs_converted := cs_converted s; cs_frames := [] |})
  end.

Definition convert (step_ids : list text) (s : CompositeConclusionScopes) : CompositeConclusionScopes :=
  {| cs_stack := cs_stack s; cs_converted := bs_extend (cs_converted s) step_ids; cs_frames := cs_frames s |}.

Definition convert_open_scopes (s : CompositeConclusionScopes) : CompositeConclusionScopes :=
  convert (flat_map (fun f => bm_keys (fr_conclusions f) ++ bm_keys (fr_descendants f)) (rev (cs_frames s))) s.

Definition record (step_id : text) (conclusion : StepOutcome) (s : CompositeConclusionScopes)
    : CompositeConclusionScopes :=
  match cs_frames s with
  | frame :: rest =>
      {| cs_stack := cs_stack s; cs_converted := cs_converted s;
         cs_frames := {| fr_step_id := fr_step_id frame;
                         fr_conclusions := bm_insert step_id conclusion (fr_conclusions frame);
                         fr_descendants := fr_descendants frame |} :: rest |}
  | [] => s
  end.

Definition counts_as_failure (s : CompositeConclusionScopes) (io : text * StepOutcome) : bool :=
  bool_decide (io.2 = OFailure) && negb (bs_contains io.1 (cs_converted s)).
Definition top_level_has_failure (conclusions : bmap StepOutcome) (s : CompositeConclusionScopes) : bool :=
  existsb (counts_as_failure s) conclusions.
Definition scope_has_failure (conclusions : bmap StepOutcome) (s : CompositeConclusionScopes) : bool :=
  match cs_frames s with
  | frame :: _ => existsb (counts_as_failure s) (fr_conclusions frame)
  | [] => top_level_has_failure conclusions s
  end.

(** ** Runs of steps

    A composite step runs its inner steps in its scope and then concludes in
    the enclosing one; when its failure is ignored, what it collected is
    converted (the [CompositeStart] and [CompositeEnd] arms of the step loop in
    [executor.rs]). *)

Inductive StepRun : Type :=
| RunStep (step_id : text) (conclusion : StepOutcome)
| RunComposite (step_id : text) (inner : list StepRun) (conclusion : StepOutcome) (ignored : bool).

Fixpoint run_step (r : StepRun) (s : CompositeConclusionScopes) : CompositeConclusionScopes :=
  match r with
  | RunStep id o => record id o s
  | RunComposite id inner o ignored =>
      let s := fold_left (fun s r => run_step r s) inner (push id s) in
      let '(ids, s) := pop id s in
      let s := record id o s in
      if ignored then convert ids s else s
  end.
Definition run_steps (rs : list StepRun) (s : CompositeConclusionScopes) : CompositeConclusionScopes :=
  fold_left (fun s r => run_step r s) rs s.

(** The steps of a run, and those the run converts. *)
Fixpoint step_ids (r : StepRun) : list text :=
  match r with
  | RunStep id _ => [id]
  | RunComposite id inner _ _ => id :: flat_map step_ids inner
  end.
Fixpoint converted_ids (r : StepRun) : list text :=
  match r with
  | RunStep _ _ => []
  | RunComposite _ inner _ ignored =>
      flat_map converted_ids inner ++ (if ignored then flat_map step_ids inner else [])
  end.

Section StepRunInd.
Context (P : StepRun -> Prop).
Context (HS : forall id o, P (RunStep id o)).
Context (HC : forall id inner o ig, Forall P inner -> P (RunComposite id inner o ig)).
Fixpoint StepRun_nested_ind (r : StepRun) : P r :=
  match r with
  | RunStep id o => HS id o
  | RunComposite id inner o ig =>
      HC id inner o ig ((fix go l : Forall P l :=
        match l with [] => Forall_nil_2 P | r :: l => Forall_cons_2 P r l (StepRun_nested_ind r) (go l) end) inner)
  end.
End StepRunInd.

(** ** Lemmas *)

Lemma bs_extend_keys s l x : x ∈ bm_keys (bs_extend s l) <-> x ∈ bm_keys s \/ x ∈ l.
Proof.
  unfold bs_extend. revert s. induction l as [|y l IH]; intros s; cbn [fold_left]; [set_solver|].
  rewrite IH, bm_insert_keys. set_solver.
Qed.

Lemma frame_ids_spec f x : x ∈ bm_keys (frame_ids f) <->
  x ∈ bm_keys (fr_conclusions f) \/ x ∈ bm_keys (fr_descendants f).
Proof. unfold frame_ids. rewrite !bs_extend_keys. cbn. set_solver. Qed.

(** A run leaves the enclosing scopes open and adds its steps to the innermost. *)
Definition extends (ids : list text) (s s' : CompositeConclusionScopes) : Prop :=
  cs_stack s' = cs_stack s /\
  match cs_frames s, cs_frames s' with
  | [], [] => True
  | f :: fs, f' :: fs' =>
      fr_step_id f' = fr_step_id f /\ fs' = fs /\
      (forall x, x ∈ bm_keys (frame_ids f') <-> x ∈ bm_keys (frame_ids f) \/ x ∈ ids)
  | _, _ => False
  end.

Lemma extends_refl s : extends [] s s.
Proof. split; [done|]. destruct (cs_frames s); [done|]. repeat split; try done; set_solver. Qed.

Lemma extends_trans a b s1 s2 s3 : extends a s1 s2 -> extends b s2 s3 -> extends (a ++ b) s1 s3.
Proof.
  intros [A1 A2] [B1 B2]. split; [congruence|].
  destruct (cs_frames s1), (cs_frames s2), (cs_frames s3); try done.
  destruct A2 as (A2 & -> & A), B2 as (B2 & -> & B). split; [congruence|]. split; [done|].
  intros x. rewrite elem_of_app, B, A. tauto.
Qed.

Lemma record_extends id o s : extends [id] s (record id o s).
Proof.
  unfold record. destruct (cs_frames s) as [|f fs] eqn:E; [by split; [|rewrite E]|].
  split; [done|]. rewrite E. split; [done|]. split; [done|]. intros x.
  rewrite !frame_ids_spec. cbn [fr_conclusions fr_descendants]. rewrite bm_insert_keys. set_solver.
Qed.

Lemma convert_extends ids s : extends [] s (convert ids s).
Proof. split; [done|]. cbn. destruct (cs_frames s); [done|]. repeat split; try done; set_solver. Qed.

(** What a composite collected is what ran inside it. *)
Lemma pop_pushed id s s' ids : extends ids (push id s) s' ->
  extends ids s (pop id s').2 /\ (forall x, x ∈ (pop id s').1 <-> x ∈ ids) /\
  cs_converted (pop id s').2 = cs_converted s'.
Proof.
  intros [A B]. cbn in A, B. destruct (cs_frames s') as [|f fs] eqn:F; [done|]. destruct B as (I & -> & B).
  unfold pop. rewrite A, F. rewrite !decide_True by done.
  assert (X : forall x, x ∈ bm_keys (frame_ids f) <-> x ∈ ids) by (intros x; rewrite B; cbn; set_solver).
  split; [|split; [exact X|done]]. split; [done|]. cbn. destruct (cs_frames s) as [|p ps]; [done|].
  split; [done|]. split; [done|]. intros x. rewrite !frame_ids_spec. cbn [fr_conclusions fr_descendants add_descendants].
  rewrite bs_extend_keys, X. tauto.
Qed.

Lemma run_steps_extends_from rs : Forall (fun r => forall s, extends (step_ids r) s (run_step r s)) rs ->
  forall s, extends (flat_map step_ids rs) s (run_steps rs s).
Proof.
  induction 1 as [|r rs R _ IH]; intros s; [apply extends_refl|]. cbn. eapply extends_trans; [apply R|apply IH].
Qed.

Lemma extends_same a b s s' : (forall x, x ∈ a <-> x ∈ b) -> extends a s s' -> extends b s s'.
Proof.
  intros E [A B]. split; [done|]. destruct (cs_frames s), (cs_frames s'); try done.
  destruct B as (I & F & B). split; [done|]. split; [done|]. intros x. rewrite B. by rewrite E.
Qed.

Lemma run_step_extends r s : extends (step_ids r) s (run_step r s).
Proof.
  revert s. induction r as [id o|id inner o ig IH] using StepRun_nested_ind; intros s; [apply record_extends|].
  cbn [run_step step_ids]. pose proof (run_steps_extends_from inner IH (push id s)) as E. unfold run_steps in E.
  destruct (pop_pushed id s _ _ E) as (P & _ & _). destruct (pop id _) as [ids s2]. cbn [fst snd] in P.
  apply (extends_same ((flat_map step_ids inner ++ [id]) ++ [])); [set_solver|].
  apply (extends_trans _ _ _ (record id o s2)); [|destruct ig; [apply convert_extends|apply extends_refl]].
  apply (extends_trans _ _ _ s2); [done|apply record_extends].
Qed.

Lemma run_steps_extends rs s : extends (flat_map step_ids rs) s (run_steps rs s).
Proof. apply run_steps_extends_from, Forall_true. intros r. apply run_step_extends. Qed.

Lemma record_converted id o s : cs_converted (record id o s) = cs_converted s.
Proof. unfold record. by destruct (cs_frames s). Qed.

Lemma run_step_converted r s x :
  x ∈ bm_keys (cs_converted (run_step r s)) <-> x ∈ bm_keys (cs_converted s) \/ x ∈ converted_ids r.
Proof.
  revert s. induction r as [id o|id inner o ig IH] using StepRun_nested_ind; intros s; cbn [run_step converted_ids].
  - rewrite record_converted. set_solver.
  - pose proof (run_steps_extends inner (push id s)) as E. destruct (pop_pushed id s _ _ E) as (_ & I & C).
    unfold run_steps in *. destruct (pop id _) as [ids s2]. cbn [fst snd] in *. rewrite elem_of_app.
    assert (N : x ∈ bm_keys (cs_converted s2) <-> x ∈ bm_keys (cs_converted s) \/ x ∈ flat_map converted_ids inner).
    { rewrite C. change (cs_converted s) with (cs_converted (push id s)). generalize (push id s). clear -IH.
      induction IH as [|r rs R _ IH]; intros s; cbn; [set_solver|]. rewrite IH, R, elem_of_app. tauto. }
    destruct ig; [|rewrite record_converted, N; set_solver].
    cbn [convert cs_converted]. rewrite bs_extend_keys, record_converted, N, I. tauto.
Qed.

Lemma run_steps_converted rs s x :
  x ∈ bm_keys (cs_converted (run_steps rs s)) <->
  x ∈ bm_keys (cs_converted s) \/ x ∈ flat_map converted_ids rs.
Proof.
  revert s. induction rs as [|r rs IH]; intros s; cbn; [set_solver|].
  change (fold_left _ rs (run_step r s)) with (run_steps rs (run_step r s)).
  rewrite IH, run_step_converted, elem_of_app. tauto.
Qed.

(** The scopes of composite actions are well bracketed and lose no step. For
    every nesting of composite actions: after the run the enclosing scopes
    are open as before, every step that ran, at any depth, is known to the
    innermost of them, and the steps taken out of the job's status are
    exactly those that ran inside a composite step whose failure was ignored. *)
Theorem composite_scopes_lose_no_step (rs : list StepRun) (s : CompositeConclusionScopes) :
  extends (flat_map step_ids rs) s (run_steps rs s) /\
  (forall x, bs_contains x (cs_converted (run_steps rs s)) =
             bs_contains x (cs_converted s) || bool_decide (x ∈ flat_map converted_ids rs)).
Proof.
  split; [apply run_steps_extends|]. intros x. unfold bs_contains. rewrite <- bool_decide_or.
  apply bool_decide_ext. apply run_steps_converted.
Qed.
