(* ===== verification/StepState.v ===== *)
(** * The state of a running job and the contexts its expressions read

    [JobExecutionState] and [JobExpressionContext] of
    [crates/velnor-runner/src/executor.rs], the recording of step results of
    [execution/step_outcome.rs] and the step conditions of
    [execution/step_conditions.rs]. The state implements the interfaces of the
    expression engine ([ParseEnvironment], [EvaluationContext]).

    [hashFiles] reads the workspace: its result is the argument [hash_files].
    The cancellation token is the flag [js_cancelled]. The trust scope, the
    workflow environment and the host paths of the state, which nothing here
    reads, are left out. *)

From Stdlib Require Import ZArith Lia Ascii.
From stdpp Require Import base list strings.
From S2P Require Import Prelude ExprText ExprValue ExprLexer ExprParser ExprEval TextOps WorkflowCommands StepScopes.
#[local] Open Scope ev_scope.

Record StepExecutionResult : Type := {
  sx_exit_code : Z;
  sx_state : StepCommandState;
  sx_skipped : bool;
  sx_failure_ignored : bool }.

Section State.
Context `{CaseMapper, SerdeJson}.

Record JobExecutionState : Type := {
  js_env : bmap text;
  js_immutable_env : bmap text;
  js_dynamic_env : list (text * text);
  js_context_data : list (text * ContextValue number);
  js_has_workspace : bool;
  js_outputs : bmap (bmap text);
  js_action_states : bmap (bmap text);
  js_outcomes : bmap StepOutcome;
  js_conclusions : bmap StepOutcome;
  js_scopes : CompositeConclusionScopes;
  js_path : list text;
  js_masks : list text;
  js_cancelled : bool }.

(** ** Status *)

Definition status_scope_has_failure (s : JobExecutionState) : bool :=
  scope_has_failure (js_conclusions s) (js_scopes s).
Definition success_status (s : JobExecutionState) : bool :=
  negb (js_cancelled s) && negb (status_scope_has_failure s).
Definition failure_status (s : JobExecutionState) : bool :=
  negb (js_cancelled s) && status_scope_has_failure s.
Definition job_status (s : JobExecutionState) : text :=
  if js_cancelled s then txt "cancelled"
  else if top_level_has_failure (js_conclusions s) (js_scopes s) then txt "failure" else txt "success".
Definition action_status (s : JobExecutionState) : text :=
  if js_cancelled s then txt "cancelled"
  else if status_scope_has_failure s then txt "failure" else txt "success".

(** ** Recording results *)

(** The first entry of a name is updated, or a new one appended. *)
Fixpoint upsert (name value : text) (l : list (text * text)) : list (text * text) :=
  match l with
  | [] => [(name, value)]
  | (n, v) :: l => if decide (n = name) then (n, value) :: l else (n, v) :: upsert name value l
  end.

Definition outcome_of (r : StepExecutionResult) : StepOutcome :=
  if sx_skipped r then OSkipped else if (sx_exit_code r =? 0)%Z then OSuccess else OFailure.
Definition conclusion_of (r : StepExecutionResult) : StepOutcome :=
  if sx_failure_ignored r && bool_decide (outcome_of r = OFailure) then OSuccess else outcome_of r.

Definition apply (step_id : text) (r : StepExecutionResult) (s : JobExecutionState) : JobExecutionState :=
  let cmd := sx_state r in
  {| js_env := bm_extend (js_env s) (sc_env cmd);
     js_immutable_env := js_immutable_env s;
     js_dynamic_env := fold_left (fun l nv => upsert nv.1 nv.2 l) (sc_env cmd) (js_dynamic_env s);
     js_context_data := js_context_data s;
     js_has_workspace := js_has_workspace s;
     js_outputs := if decide (sc_outputs cmd = []) then js_outputs s
                   else bm_insert step_id (sc_outputs cmd) (js_outputs s);
     js_action_states := if decide (sc_state cmd = []) then js_action_states s
                         else bm_insert step_id
                                (bm_extend (default [] (bm_get step_id (js_action_states s))) (sc_state cmd))
                                (js_action_states s);
     js_outcomes := bm_insert step_id (outcome_of r) (js_outcomes s);
     js_conclusions := bm_insert step_id (conclusion_of r) (js_conclusions s);
     js_scopes := record step_id (conclusion_of r) (js_scopes s);
     js_path := fold_left (fun l p => p :: l) (rev (sc_path cmd)) (js_path s);
     js_masks := js_masks s ++ sc_masks cmd;
     js_cancelled := js_cancelled s |}.

Definition apply_cancelled (step_id : text) (r : StepExecutionResult) (s : JobExecutionState)
    : JobExecutionState :=
  let s := apply step_id r s in
  {| js_env := js_env s; js_immutable_env := js_immutable_env s; js_dynamic_env := js_dynamic_env s;
     js_context_data := js_context_data s; js_has_workspace := js_has_workspace s;
     js_outputs := js_outputs s; js_action_states := js_action_states s;
     js_outcomes := bm_insert step_id OCancelled (js_outcomes s);
     js_conclusions := bm_insert step_id OCancelled (js_conclusions s);
     js_scopes := record step_id OCancelled (js_scopes s);
     js_path := js_path s; js_masks := js_masks s; js_cancelled := js_cancelled s |}.

Definition with_env (env : list (text * text)) (s : JobExecutionState) : JobExecutionState :=
  {| js_env := bm_extend (js_env s) env; js_immutable_env := js_immutable_env s;
     js_dynamic_env := js_dynamic_env s; js_context_data := js_context_data s;
     js_has_workspace := js_has_workspace s; js_outputs := js_outputs s;
     js_action_states := js_action_states s; js_outcomes := js_outcomes s;
     js_conclusions := js_conclusions s; js_scopes := js_scopes s; js_path := js_path s;
     js_masks := js_masks s; js_cancelled := js_cancelled s |}.
Definition with_step_action (step_id : text) (s : JobExecutionState) : JobExecutionState :=
  with_env [(txt "GITHUB_ACTION", step_id)] s.

(** ** Contexts *)

Definition JOB_ROOT_CONTEXTS : list text := map txt
  ["github"; "env"; "job"; "jobs"; "runner"; "steps"; "secrets"; "strategy"; "matrix"; "needs"; "inputs"; "vars"].

Definition GITHUB_ENV_KEYS : list (text * text) := map (fun kv : string * string => (txt kv.1, txt kv.2))
  [("actor", "GITHUB_ACTOR"); ("actor_id", "GITHUB_ACTOR_ID"); ("action", "GITHUB_ACTION");
   ("action_path", "GITHUB_ACTION_PATH"); ("action_ref", "GITHUB_ACTION_REF");
   ("action_repository", "GITHUB_ACTION_REPOSITORY"); ("api_url", "GITHUB_API_URL");
   ("base_ref", "GITHUB_BASE_REF"); ("event_name", "GITHUB_EVENT_NAME"); ("event_path", "GITHUB_EVENT_PATH");
   ("graphql_url", "GITHUB_GRAPHQL_URL"); ("head_ref", "GITHUB_HEAD_REF"); ("ref", "GITHUB_REF");
   ("ref_protected", "GITHUB_REF_PROTECTED"); ("ref_type", "GITHUB_REF_TYPE");
   ("repository", "GITHUB_REPOSITORY"); ("repository_id", "GITHUB_REPOSITORY_ID");
   ("repository_owner", "GITHUB_REPOSITORY_OWNER"); ("repository_owner_id", "GITHUB_REPOSITORY_OWNER_ID");
   ("retention_days", "GITHUB_RETENTION_DAYS"); ("run_id", "GITHUB_RUN_ID");
   ("run_attempt", "GITHUB_RUN_ATTEMPT"); ("run_number", "GITHUB_RUN_NUMBER");
   ("server_url", "GITHUB_SERVER_URL"); ("sha", "GITHUB_SHA"); ("token", "GITHUB_TOKEN");
   ("triggering_actor", "GITHUB_TRIGGERING_ACTOR"); ("workflow", "GITHUB_WORKFLOW");
   ("workflow_ref", "GITHUB_WORKFLOW_REF"); ("workflow_sha", "GITHUB_WORKFLOW_SHA");
   ("ref_name", "GITHUB_REF_NAME"); ("workspace", "GITHUB_WORKSPACE")]%string.

Definition RUNNER_ENV_KEYS : list (text * text) := map (fun kv : string * string => (txt kv.1, txt kv.2))
  [("arch", "RUNNER_ARCH"); ("debug", "RUNNER_DEBUG"); ("environment", "RUNNER_ENVIRONMENT");
   ("name", "RUNNER_NAME"); ("os", "RUNNER_OS"); ("temp", "RUNNER_TEMP");
   ("tool_cache", "RUNNER_TOOL_CACHE"); ("workspace", "RUNNER_WORKSPACE")]%string.

Fixpoint upsert_entry (name : text) (value : Value) (l : list (text * Value)) : list (text * Value) :=
  match l with
  | [] => [(name, value)]
  | (n, v) :: l => if eq_ignore_ascii_case n name then (n, value) :: l else (n, v) :: upsert_entry name value l
  end.
(** One entry per key of a table that the environment has. *)
Definition upsert_env (keys : list (text * text)) (env : bmap text) (l : list (text * Value)) : list (text * Value) :=
  fold_left (fun l kv => match bm_get kv.2 env with
                         | Some value => upsert_entry kv.1 (VString value) l
                         | None => l
                         end) keys l.

Definition find_root (data : list (text * ContextValue number)) (root : text) : option (ContextValue number) :=
  option_map snd (find (fun kv => ordinal_ignore_case_eq kv.1 root) data).

Definition context_data_entries (s : JobExecutionState) (root : text) : ev (list (text * Value)) :=
  match find_root (js_context_data s) root with
  | Some (CObject _ l) =>
      ev_all (map (fun '(name, value) => let! v := from_context_value value in ev_ret (name, v)) l)
  | _ => ev_ret []
  end.

Definition github_context (s : JobExecutionState) : ev Value :=
  let! fields := context_data_entries s (txt "github") in
  new_object false (upsert_entry (txt "action_status") (VString (action_status s))
                      (upsert_env GITHUB_ENV_KEYS (js_env s) fields)).

Definition runner_context (s : JobExecutionState) : ev Value :=
  let! fields := context_data_entries s (txt "runner") in
  let fields := upsert_env RUNNER_ENV_KEYS (js_env s) fields in
  new_object false
    (if forallb (fun kv => negb (eq_ignore_ascii_case kv.1 (txt "os"))) fields
     then upsert_entry (txt "os") (VString (txt "Linux")) fields else fields).

Definition env_context (s : JobExecutionState) : ev Value :=
  new_object true (map (fun kv => (kv.1, VString kv.2)) (js_env s)).

Definition job_context (s : JobExecutionState) : ev Value :=
  let! fields := context_data_entries s (txt "job") in
  new_object false (upsert_entry (txt "status") (VString (job_status s)) fields).

(** The step identifiers in the order in which they are first met. *)
Fixpoint dedup (seen l : list text) : list text :=
  match l with
  | [] => []
  | x :: l => if decide (x ∈ seen) then dedup seen l else x :: dedup (seen ++ [x]) l
  end.
Definition outcome_entry (name : string) (o : option StepOutcome) : list (text * Value) :=
  match o with Some o => [(txt name, VString (StepOutcome_as_str o))] | None => [] end.
Definition step_entry (s : JobExecutionState) (id : text) : ev (text * Value) :=
  let! outputs := new_object false (map (fun kv => (kv.1, VString kv.2)) (default [] (bm_get id (js_outputs s)))) in
  let! step := new_object false
    ((txt "outputs", outputs) :: outcome_entry "outcome" (bm_get id (js_outcomes s)) ++
     outcome_entry "conclusion" (bm_get id (js_conclusions s))) in
  ev_ret (id, step).
Definition steps_context (s : JobExecutionState) : ev Value :=
  let ids := dedup [] (bm_keys (js_outputs s) ++ bm_keys (js_outcomes s) ++ bm_keys (js_conclusions s)) in
  let! fields := ev_all (map (step_entry s) ids) in
  new_object false fields.

Definition root_context (s : JobExecutionState) (name : text) : ev Value :=
  let name := ascii_lowercase name in
  if is_name name "github" then github_context s
  else if is_name name "env" then env_context s
  else if is_name name "runner" then runner_context s
  else if is_name name "steps" then steps_context s
  else if is_name name "job" then job_context s
  else
    let! fields := context_data_entries s name in
    match find_root (js_context_data s) name with
    | Some value => from_context_value value
    | None => new_object false fields
    end.

(** Building a context cannot fail ([root_context_ok]). *)
Definition infallible (m : ev Value) (next : address) : Value * address :=
  match m next with (Ok v, next) => (v, next) | (Err _, next) => (VNull, next) end.

#[local] Instance job_environment (s : JobExecutionState) : ParseEnvironment := {
  is_named_value name :=
    existsb (fun root => eq_ignore_ascii_case root name) JOB_ROOT_CONTEXTS
    || existsb (fun kv => ordinal_ignore_case_eq kv.1 name) (js_context_data s);
  function_arity name :=
    let name := ascii_lowercase name in
    if is_name name "success" || is_name name "failure" || is_name name "always" || is_name name "cancelled"
    then Some (0, 0)
    else if is_name name "hashfiles" then Some (1, 255) else None;
}.

Context (hash_files : list text -> bool -> result text ExpressionError).

Fixpoint hash_files_args (first : bool) (follow : bool) (patterns : list text) (args : list Value)
    : result (list text * bool) ExpressionError :=
  match args with
  | [] => Ok (patterns, follow)
  | arg :: args =>
      let arg := convert_to_string arg in
      if first && starts_with (txt "--") arg then
        if eq_ignore_ascii_case arg (txt "--follow-symbolic-links")
        then hash_files_args false true patterns args
        else Err (EEvaluation (txt "Invalid glob option " ++ arg ++ txt ", avaliable option: '--follow-symbolic-links'."))
      else hash_files_args false follow (patterns ++ [arg]) args
  end.
Definition hash_files_function (s : JobExecutionState) (args : list Value) : result Value ExpressionError :=
  match hash_files_args true false [] args with
  | Err e => Err e
  | Ok (patterns, follow) =>
      if js_has_workspace s then
        match hash_files patterns follow with Ok digest => Ok (VString digest) | Err e => Err e end
      else Ok (VString [])
  end.

Definition job_function (s : JobExecutionState) (name : text) (args : list Value) : result Value ExpressionError :=
  let lower := ascii_lowercase name in
  if is_name lower "success" then Ok (VBoolean (success_status s))
  else if is_name lower "failure" then Ok (VBoolean (failure_status s))
  else if is_name lower "always" then Ok (VBoolean true)
  else if is_name lower "cancelled" then Ok (VBoolean (js_cancelled s))
  else if is_name lower "hashfiles" then hash_files_function s args
  else Err (EEvaluation (txt "Unrecognized function: '" ++ lower ++ txt "'")).

#[local] Instance expression_context (s : JobExecutionState) : @EvaluationContext (job_environment s) := {
  named_value name next := infallible (root_context s name) next;
  call_function name args next := (job_function s name args, next);
}.

(** ** Conditions *)

Fixpoint node_references_status_function (n : Node) : bool :=
  match n with
  | NFunction name args =>
      bool_decide (ascii_lowercase name ∈ [txt "success"; txt "failure"; txt "always"; txt "cancelled"])
      || existsb node_references_status_function args
  | NIndex a b => node_references_status_function a || node_references_status_function b
  | NNot a => node_references_status_function a
  | NAnd l | NOr l => existsb node_references_status_function l
  | NBinary _ a b => node_references_status_function a || node_references_status_function b
  | NLiteral _ | NWildcard | NNamedValue _ => false
  end.

Definition strip_expression (condition : text) : text :=
  match strip_prefix (txt "${{") condition with
  | Some value => match strip_suffix (txt "}}") value with Some value => trim value | None => condition end
  | None => condition
  end.

Definition evaluate_condition_expression (s : JobExecutionState) (expression : text) : ev bool :=
  match @parse (job_environment s) expression with
  | Err (PError e) => ev_fail (EError (EParse e))
  | Err Panic => ev_fail EPanic
  | Ok None => ev_ret (success_status s)
  | Ok (Some node) =>
      if negb (node_references_status_function node) && negb (success_status s) then ev_ret false
      else let! value := evaluate_node (EC := expression_context s) node in ev_ret (is_truthy value)
  end.

(** [map(str::trim).filter(|condition| !condition.is_empty())]. *)
Definition condition_text (condition : option text) : option text :=
  match condition with Some c => non_empty (Some (trim c)) | None => None end.

Definition evaluate_condition (s : JobExecutionState) (condition : option text) : ev bool :=
  match condition_text condition with
  | None => ev_ret (success_status s)
  | Some c => evaluate_condition_expression s (strip_expression c)
  end.
Definition evaluate_post_condition (s : JobExecutionState) (condition : option text) : ev bool :=
  match condition_text condition with
  | None => ev_ret true
  | Some c => evaluate_condition_expression s (strip_expression c)
  end.

(** What a tree reads, folded over its nodes: the [github] context is seen, and
    everything else is immutable. *)
Fixpoint walk_immutable (n : Node) (acc : bool * bool) : bool * bool :=
  match n with
  | NNamedValue name =>
      if eq_ignore_ascii_case name (txt "github") then (true, acc.2) else (acc.1, false)
  | NFunction _ args => fold_left (fun acc n => walk_immutable n acc) args (acc.1, false)
  | NIndex a b => walk_immutable b (walk_immutable a acc)
  | NNot a => walk_immutable a acc
  | NAnd l | NOr l => fold_left (fun acc n => walk_immutable n acc) l acc
  | NBinary _ a b => walk_immutable b (walk_immutable a acc)
  | NLiteral _ | NWildcard => acc
  end.
Definition reads_only_immutable_github (n : Node) : bool :=
  let '(saw_github, immutable) := walk_immutable n (false, true) in saw_github && immutable.

Definition leaf_is_false (s : JobExecutionState) (next : address) (n : Node) : bool :=
  reads_only_immutable_github n &&
  match (evaluate_node (EC := expression_context s) n next).1 with
  | Ok value => is_falsy value
  | Err _ => false
  end.
Fixpoint immutable_expression_is_false (s : JobExecutionState) (next : address) (n : Node) : bool :=
  match n with
  | NAnd parameters => existsb (immutable_expression_is_false s next) parameters
  | NOr parameters => forallb (immutable_expression_is_false s next) parameters
  | _ => leaf_is_false s next n
  end.

End State.
