(* ===== verification/StepTemplate.v ===== *)
(** * Templates: the [${{ ... }}] spans of a step

    The scanner and the renderer of [crates/velnor-runner/src/executor.rs]
    ([expression_template_spans], [render_template] and their callers), the
    construction of a job's state, the early test of step conditions, and the
    rendering of step inputs at job setup of [script_step.rs].

    A span is kept as the text before it and its expression instead of byte
    offsets into the template; its byte offset, which errors report, is kept
    as well. The outer loop of the scanner consumes the five delimiting
    characters of a span, so its fuel, the length of the template, is enough. *)

From Stdlib Require Import ZArith Lia Ascii.
From stdpp Require Import base list strings.
From S2P Require Import Prelude ExprText ExprValue ExprLexer ExprParser ExprEval TextOps WorkflowCommands StepScopes StepState.
#[local] Open Scope ev_scope.

Inductive TemplateError : Type :=
| InvalidContext
| BudgetExceeded
| Unterminated (offset : nat)
| MismatchedDelimiter (offset : nat)
| TemplateParse (offset : nat)
| TemplateEvaluation (offset : nat)
| TemplatePanic.

Record ExpressionSpan : Type := {
  sp_literal : text;
  sp_start : nat;
  sp_expression : text }.

Definition OPEN : text := txt "${{".
Definition CLOSE : text := txt "}}".
Definition span_source (sp : ExpressionSpan) : text := OPEN ++ sp_expression sp ++ CLOSE.

Definition MAX_TEMPLATE_BYTES : nat := N.to_nat 65536.
Definition MAX_EXPRESSION_DEPTH : nat := 64.
Definition MAX_OPERATORS : nat := 1024.

(** ** The scanner *)

Definition is_quote (c : char) : bool := is_chr "'" c || N.eqb c ASCII_QUOTE.
Definition is_opening (c : char) : bool := is_chr "(" c || is_chr "[" c.
Definition is_closing (c : char) : bool := is_chr ")" c || is_chr "]" c.
Definition is_operator_byte (c : char) : bool := is_chr "&" c || is_chr "|" c || is_chr "=" c || is_chr "!" c.
Definition opening_of (c : char) : char := if is_chr ")" c then chr "(" else chr "[".

(** Put characters in front of the expression found. *)
Definition prepend (p : text) (r : result (option (text * text)) TemplateError)
    : result (option (text * text)) TemplateError :=
  match r with Ok (Some (e, rest)) => Ok (Some (p ++ e, rest)) | _ => r end.

(** From behind [${{]: the expression and the text behind its [}}], or nothing
    when the template ends first. *)
Fixpoint scan_expression (quote : option char) (delimiters : list char) (operators cursor : nat) (s : text)
    : result (option (text * text)) TemplateError :=
  match s with
  | [] => Ok None
  | c :: s1 =>
      let next := (cursor + len_utf8 c)%nat in
      match quote with
      | Some q =>
          if N.eqb c q then
            match s1 with
            | d :: s2 =>
                if N.eqb d q then prepend [c; d] (scan_expression quote delimiters operators (cursor + 2) s2)
                else prepend [c] (scan_expression None delimiters operators next s1)
            | [] => prepend [c] (scan_expression None delimiters operators next s1)
            end
          else prepend [c] (scan_expression quote delimiters operators next s1)
      | None =>
          if is_quote c then prepend [c] (scan_expression (Some c) delimiters operators next s1)
          else if is_opening c then
            if (MAX_EXPRESSION_DEPTH <? S (length delimiters))%nat then Err BudgetExceeded
            else prepend [c] (scan_expression None (c :: delimiters) operators next s1)
          else if is_closing c then
            match delimiters with
            | d :: delimiters' =>
                if N.eqb d (opening_of c) then prepend [c] (scan_expression None delimiters' operators next s1)
                else Err (MismatchedDelimiter cursor)
            | [] => Err (MismatchedDelimiter cursor)
            end
          else if is_operator_byte c then
            if (MAX_OPERATORS <? S operators)%nat then Err BudgetExceeded
            else prepend [c] (scan_expression None delimiters (S operators) next s1)
          else
            match s1, delimiters with
            | d :: s2, [] =>
                if is_chr "}" c && is_chr "}" d then Ok (Some ([], s2))
                else prepend [c] (scan_expression None delimiters operators next s1)
            | _, _ => prepend [c] (scan_expression None delimiters operators next s1)
            end
      end
  end.

(** The spans from byte [offset] on, and the text behind the last one. *)
Fixpoint spans_from (fuel : nat) (offset : nat) (value : text) : result (list ExpressionSpan * text) TemplateError :=
  match fuel with
  | O => Ok ([], value)
  | S fuel =>
      match split_once OPEN value with
      | None => Ok ([], value)
      | Some (literal, rest) =>
          let start := (offset + byte_len literal)%nat in
          match scan_expression None [] 0 (start + 3) rest with
          | Err e => Err e
          | Ok None => Err (Unterminated start)
          | Ok (Some (expression, rest)) =>
              match spans_from fuel (start + 5 + byte_len expression) rest with
              | Err e => Err e
              | Ok (spans, trailing) =>
                  Ok ({| sp_literal := literal; sp_start := start; sp_expression := expression |} :: spans, trailing)
              end
          end
      end
  end.

Definition expression_template_spans (value : text) : result (list ExpressionSpan * text) TemplateError :=
  if negb (contains OPEN value) then Ok ([], value)
  else if (MAX_TEMPLATE_BYTES <? byte_len value)%nat then Err BudgetExceeded
  else spans_from (length value) 0 value.

(** ** Rendering *)

Fixpoint node_reads_runtime_context (n : Node) : bool :=
  match n with
  | NNamedValue name =>
      bool_decide (ascii_lowercase name ∈ [txt "env"; txt "steps"; txt "job"; txt "jobs"; txt "runner"])
  | NFunction name args =>
      bool_decide (ascii_lowercase name ∈
        [txt "success"; txt "failure"; txt "always"; txt "cancelled"; txt "hashfiles"])
      || existsb node_reads_runtime_context args
  | NIndex a b => node_reads_runtime_context a || node_reads_runtime_context b
  | NNot a => node_reads_runtime_context a
  | NAnd l | NOr l => existsb node_reads_runtime_context l
  | NBinary _ a b => node_reads_runtime_context a || node_reads_runtime_context b
  | NLiteral _ | NWildcard => false
  end.

Definition tv (A : Type) : Type := address -> result A TemplateError * address.

Section Templates.
Context `{CaseMapper, SerdeJson} (hash_files : list text -> bool -> result text ExpressionError).

(** One span: its rendering, nothing when the expression is empty. *)
Definition render_span (s : JobExecutionState) (defer : bool) (sp : ExpressionSpan) : tv text := fun next =>
  match @parse (job_environment s) (trim (sp_expression sp)) with
  | Err _ => (Err (TemplateParse (sp_start sp)), next)
  | Ok None => (Ok [], next)
  | Ok (Some node) =>
      if defer && node_reads_runtime_context node then (Ok (span_source sp), next)
      else match evaluate_node (EC := expression_context hash_files s) node next with
           | (Ok value, next) => (Ok (convert_to_string value), next)
           | (Err EPanic, next) => (Err TemplatePanic, next)
           | (Err _, next) => (Err (TemplateEvaluation (sp_start sp)), next)
           end
  end.

Fixpoint render_spans (s : JobExecutionState) (defer : bool) (spans : list ExpressionSpan) (trailing : text)
    : tv text := fun next =>
  match spans with
  | [] => (Ok trailing, next)
  | sp :: spans =>
      match render_span s defer sp next with
      | (Err e, next) => (Err e, next)
      | (Ok t, next) =>
          match render_spans s defer spans trailing next with
          | (Ok rest, next) => (Ok (sp_literal sp ++ t ++ rest), next)
          | (Err e, next) => (Err e, next)
          end
      end
  end.

Definition render_template (s : JobExecutionState) (value : text) (defer : bool) : tv text := fun next =>
  match expression_template_spans value with
  | Err e => (Err e, next)
  | Ok (spans, trailing) => render_spans s defer spans trailing next
  end.
Definition resolve_expressions (s : JobExecutionState) (value : text) : tv text := render_template s value false.
Definition resolve_job_context_expressions (s : JobExecutionState) (value : text) : tv text :=
  render_template s value true.

Fixpoint resolve_env (s : JobExecutionState) (env : list (text * text)) : tv (list (text * text)) := fun next =>
  match env with
  | [] => (Ok [], next)
  | (name, value) :: env =>
      match resolve_expressions s value next with
      | (Err e, next) => (Err e, next)
      | (Ok value, next) =>
          match resolve_env s env next with
          | (Err e, next) => (Err e, next)
          | (Ok rest, next) => (Ok ((name, value) :: rest), next)
          end
      end
  end.

(** ** The state of a new job *)

Definition validate_unique_keys (sensitive : bool) (keys : list text) : bool :=
  let same a b := if sensitive then bool_decide (a = b) else ordinal_ignore_case_eq a b in
  (fix go (seen l : list text) : bool :=
     match l with
     | [] => true
     | k :: l => negb (existsb (fun p => same p k) seen) && go (seen ++ [k]) l
     end) [] keys.

Definition MAX_BIG_INTEGER_CHARS : nat := 380.
Definition validate_big_integer (value : text) : bool :=
  let digits := strip_minus value in
  negb (MAX_BIG_INTEGER_CHARS <? byte_len value)%nat && negb (bool_decide (digits = []))
  && forallb is_ascii_digit digits
  && negb ((1 <? length digits)%nat && starts_with (txt "0") digits)
  && match parse_i64 value with Some _ => false | None => true end.

Fixpoint validate (value : ContextValue number) : bool :=
  match value with
  | CArray l | CConstructor _ l => forallb validate l
  | CObject sensitive l => validate_unique_keys sensitive (map fst l) && forallb (fun kv => validate kv.2) l
  | CBigInteger digits => validate_big_integer digits
  | CNull | CUndefined | CBool _ | CNumber _ | CNonFinite _ | CString _ => true
  end.

Definition initial_state (env : bmap text) (context_data : list (text * ContextValue number)) (workspace : bool)
    : JobExecutionState := {|
  js_env := env; js_immutable_env := env; js_dynamic_env := []; js_context_data := context_data;
  js_has_workspace := workspace; js_outputs := []; js_action_states := []; js_outcomes := [];
  js_conclusions := []; js_scopes := no_scopes; js_path := []; js_masks := []; js_cancelled := false |}.

Definition try_new_internal (base_env : list (text * text)) (context_data : list (text * ContextValue number))
    (workspace : bool) : tv JobExecutionState := fun next =>
  if negb (validate_unique_keys false (map fst context_data) && forallb (fun kv => validate kv.2) context_data)
  then (Err InvalidContext, next)
  else
  let state := initial_state (bm_of_list base_env) context_data workspace in
  match resolve_env state (js_env state) next with
  | (Err e, next) => (Err e, next)
  | (Ok env, next) => (Ok (initial_state (bm_of_list env) context_data workspace), next)
  end.
Definition try_new_with_context (base_env : list (text * text))
    (context_data : list (text * ContextValue number)) : tv JobExecutionState :=
  try_new_internal base_env context_data false.

Definition condition_is_statically_false (condition : option text) (base_env : list (text * text))
    (context_data : list (text * ContextValue number)) (next : address) : bool :=
  match condition with
  | None => false
  | Some condition =>
      match try_new_with_context base_env context_data next with
      | (Err _, _) => false
      | (Ok state, next) =>
          match @parse (job_environment state) (strip_expression condition) with
          | Ok (Some node) => immutable_expression_is_false hash_files state next node
          | _ => false
          end
      end
  end.

(** ** Rendering at job setup *)

#[local] Instance setup_environment : ParseEnvironment := {
  is_named_value name := existsb (fun root => eq_ignore_ascii_case root name) ROOT_CONTEXTS;
  function_arity name :=
    option_map (fun f : text * nat * nat => (f.1.2, f.2))
      (find (fun f : text * nat * nat => eq_ignore_ascii_case f.1.1 name) RUNNER_FUNCTIONS);
}.

Definition setup_value (context_data : list (text * ContextValue number)) (name : text) : ev Value :=
  match find (fun kv => eq_ignore_ascii_case kv.1 name) context_data with
  | Some (_, value) => from_context_value value
  | None => ev_ret VNull
  end.

#[local] Instance setup_context (context_data : list (text * ContextValue number))
    : @EvaluationContext setup_environment := {
  named_value name next := infallible (setup_value context_data name) next;
  call_function name _ next :=
    (Err (EEvaluation (name ++ txt "() cannot be evaluated before the job runs")), next);
}.

(** An argument of [format] at setup: deferred as it is written, or evaluated. *)
Definition format_argument (context_data : list (text * ContextValue number)) (args : list Node)
    (spans : list text) (index : nat) : ev Value :=
  match args !! S index, spans !! S index with
  | Some argument, Some span =>
      if reads_runtime_context argument
      then ev_ret (VString (txt "${{ " ++ span ++ txt " }}"))
      else evaluate_node (EC := setup_context context_data) argument
  | _, _ => ev_fail EPanic
  end.

Definition render_format_call (context_data : list (text * ContextValue number)) (expr : text) (args : list Node)
    : ev (option text) :=
  match args with
  | [] => ev_fail EPanic
  | template :: _ =>
      if reads_runtime_context template then ev_ret None
      else
      match function_call_argument_spans expr with
      | None => ev_ret None
      | Some (_, spans) =>
          if decide (length spans = length args) then
            let! value := evaluate_node (EC := setup_context context_data) template in
            let! rendered := format_template (convert_to_string value) (length args - 1)
                               (format_argument context_data args spans) in
            ev_ret (Some rendered)
          else ev_ret None
      end
  end.

Definition render_node (context_data : list (text * ContextValue number)) (expr : text) (node : Node) : ev text :=
  if reads_runtime_context node then ev_ret (txt "${{ " ++ trim expr ++ txt " }}")
  else let! value := evaluate_node (EC := setup_context context_data) node in ev_ret (convert_to_string value).

Definition render_setup_expression (context_data : list (text * ContextValue number)) (expr : text) : ev text :=
  match @parse setup_environment expr with
  | Err (PError e) => ev_fail (EError (EParse e))
  | Err Panic => ev_fail EPanic
  | Ok None => ev_ret []
  | Ok (Some node) =>
      match node with
      | NFunction name ((_ :: _) as args) =>
          if eq_ignore_ascii_case name (txt "format") then
            let! rendered := render_format_call context_data expr args in
            match rendered with
            | Some rendered => ev_ret rendered
            | None => render_node context_data expr node
            end
          else render_node context_data expr node
      | _ => render_node context_data expr node
      end
  end.

End Templates.
