(* ===== verification/StepConditions.v ===== *)
(** * Step conditions against the status of the job

    The conditions of [StepState] read the status of the job through the
    functions [success], [failure], [always] and [cancelled]. This file relates
    the walk over the parsed tree to the words of the condition, builds the
    contexts a condition may read, and proves when a step is skipped after a
    failure or a cancellation. *)

From Stdlib Require Import ZArith Lia Ascii.
From stdpp Require Import base list strings sets.
From S2P Require Import Prelude ExprText ExprValue ExprLexer ExprParser ExprEval ExprLexProofs ExprGrammar ExprSound ExprEvalProofs ExprMeaning TextOps WorkflowCommands StepScopes StepState.

(** ** The words of a condition *)

Definition STATUS_FUNCTIONS : list text := [txt "success"; txt "failure"; txt "always"; txt "cancelled"].
Definition names_status (t : Token) : bool :=
  bool_decide (tk_kind t = TFunction) && bool_decide (ascii_lowercase (raw_value t) ∈ STATUS_FUNCTIONS).

Lemma names_status_kind t : tk_kind t <> TFunction -> names_status t = false.
Proof. intros K. unfold names_status. by rewrite bool_decide_false. Qed.

Section Words.
Context `{ParseEnvironment}.

Lemma function_name_status raw canonical lo hi :
  lookup_function raw = Some (canonical, lo, hi) ->
  bool_decide (ascii_lowercase (function_name raw canonical) ∈ STATUS_FUNCTIONS) =
  bool_decide (ascii_lowercase raw ∈ STATUS_FUNCTIONS).
Proof.
  unfold lookup_function. destruct (List.find _ _) as [[[f l] h]|] eqn:F.
  - intros [= <- <- <-]. apply find_some in F as [I E]. unfold eq_ignore_ascii_case in E.
    apply bool_decide_eq_true in E. cbn [fst] in E. unfold function_name.
    destruct f as [|x f']; [done|]. by rewrite E.
  - destruct (function_arity raw) as [[? ?]|]; [|done]. cbn. by intros [= <- <- <-].
Qed.

Lemma and_parameters_status n :
  existsb node_references_status_function (and_parameters n) = node_references_status_function n.
Proof. destruct n; cbn; by rewrite ?orb_false_r. Qed.
Lemma or_parameters_status n :
  existsb node_references_status_function (or_parameters n) = node_references_status_function n.
Proof. destruct n; cbn; by rewrite ?orb_false_r. Qed.

Lemma binary_node_status t l r n : binary_node t l r = Some n ->
  node_references_status_function n = node_references_status_function l || node_references_status_function r.
Proof.
  unfold binary_node. destruct (raw_is t "&&"); [|destruct (raw_is t "||")].
  - intros [= <-]. cbn [node_references_status_function]. by rewrite existsb_app, !and_parameters_status.
  - intros [= <-]. cbn [node_references_status_function]. by rewrite existsb_app, !or_parameters_status.
  - destruct (binary_operator t); [|done]. by intros [= <-].
Qed.

(** The tree calls a status function exactly when a word of the text names one. *)
Lemma status_is_in_the_text p ts n : Derives p ts n ->
  node_references_status_function n = existsb names_status ts.
Proof.
  apply (Derives_mut (fun _ ts n => node_references_status_function n = existsb names_status ts)
    (fun ts ns => existsb node_references_status_function ns = existsb names_status ts)
    (fun ts ns => existsb node_references_status_function ns = existsb names_status ts));
    try done; intros; cbn [existsb node_references_status_function];
    rewrite ?existsb_app; cbn [existsb];
    repeat match goal with
      | K : tk_kind ?t = ?k |- context [names_status ?t] =>
          lazymatch k with TFunction => fail | _ => rewrite (names_status_kind t) by congruence end
      end; rewrite ?orb_false_r; cbn [orb]; try congruence.
  - destruct (tk_kind t) eqn:K; try done; by rewrite names_status_kind by congruence.
  - change [txt "success"; txt "failure"; txt "always"; txt "cancelled"] with STATUS_FUNCTIONS.
    erewrite function_name_status by eassumption. unfold names_status at 1.
    rewrite (bool_decide_true (tk_kind f = TFunction)) by done. cbn. by f_equal.
  - rewrite existsb_app. cbn [existsb]. rewrite (names_status_kind c) by congruence. rewrite !orb_false_r. congruence.
  - match goal with M : member _ _ |- _ => destruct M as [[K ->]|[K ->]] end;
      rewrite (names_status_kind t) by congruence; cbn; by rewrite !orb_false_r.
  - match goal with N : is_not _ |- _ => destruct N as [K _] end.
    by rewrite (names_status_kind t) by congruence.
  - match goal with B : is_binary _ |- _ => destruct B as [K _] end.
    erewrite binary_node_status by eassumption. rewrite (names_status_kind t) by congruence. cbn. congruence.
Qed.

End Words.

(** ** Runs of top-level steps *)

Section Runs.
Context `{CaseMapper, SerdeJson}.

(** The end of a step: recorded as it went, or as cancelled. *)
Inductive StepEnd : Type :=
| Ended (step_id : text) (r : StepExecutionResult)
| EndedCancelled (step_id : text) (r : StepExecutionResult).
Definition end_id (e : StepEnd) : text := match e with Ended id _ | EndedCancelled id _ => id end.
Definition end_conclusion (e : StepEnd) : StepOutcome :=
  match e with Ended _ r => conclusion_of r | EndedCancelled _ _ => OCancelled end.
Definition end_step (s : JobExecutionState) (e : StepEnd) : JobExecutionState :=
  match e with Ended id r => apply id r s | EndedCancelled id r => apply_cancelled id r s end.
Definition end_steps : list StepEnd -> JobExecutionState -> JobExecutionState := fold_left end_step.

Lemma end_steps_app a b s : end_steps (a ++ b) s = end_steps b (end_steps a s).
Proof. apply fold_left_app. Qed.

(** Between composite actions: no scope is open, nothing is converted. *)
Definition at_top_level (s : JobExecutionState) : Prop :=
  cs_frames (js_scopes s) = [] /\ cs_converted (js_scopes s) = [].

Lemma record_top step_id o sc : cs_frames sc = [] -> record step_id o sc = sc.
Proof. unfold record. by intros ->. Qed.

Lemma end_step_top s e : at_top_level s -> at_top_level (end_step s e) /\ js_cancelled (end_step s e) = js_cancelled s.
Proof.
  intros [F C]. unfold at_top_level.
  destruct e; cbn [end_step apply apply_cancelled js_scopes js_cancelled]; repeat rewrite (record_top _ _ (js_scopes s)) by done; done.
Qed.
Lemma end_steps_top es s : at_top_level s ->
  at_top_level (end_steps es s) /\ js_cancelled (end_steps es s) = js_cancelled s.
Proof.
  revert s. induction es as [|e es IH]; intros s T; [done|]. cbn.
  destruct (end_step_top s e T) as [T1 C1]. destruct (IH _ T1) as [T2 C2]. split; [done|]. congruence.
Qed.

Lemma end_step_conclusions s e k :
  bm_get k (js_conclusions (end_step s e)) =
  if decide (k = end_id e) then Some (end_conclusion e) else bm_get k (js_conclusions s).
Proof.
  destruct e as [id r|id r]; cbn [end_step apply apply_cancelled js_conclusions end_id end_conclusion];
    destruct (decide (k = id)) as [->|D]; rewrite ?bm_get_insert, ?bm_get_insert_ne by done; done.
Qed.
Lemma end_steps_conclusions es s k : k ∉ map end_id es ->
  bm_get k (js_conclusions (end_steps es s)) = bm_get k (js_conclusions s).
Proof.
  revert s. induction es as [|e es IH]; intros s N; [done|]. cbn in N. apply not_elem_of_cons in N as [D N].
  change (end_steps (e :: es) s) with (end_steps es (end_step s e)).
  rewrite IH, end_step_conclusions by done. by destruct (decide (k = end_id e)).
Qed.

Lemma bm_get_In {A} k (v : A) (m : bmap A) : bm_get k m = Some v -> In (k, v) m.
Proof.
  induction m as [|[k' v'] m IH]; cbn; [done|]. case_bool_decide as E; [|auto].
  intros [= ->]. left. by rewrite E.
Qed.

(** A recorded failure is a failure of the job. *)
Lemma failure_is_status s k : at_top_level s -> bm_get k (js_conclusions s) = Some OFailure ->
  success_status s = false.
Proof.
  intros [F C] E. unfold success_status, status_scope_has_failure, scope_has_failure. rewrite F.
  unfold top_level_has_failure. erewrite (proj2 (existsb_exists _ _)); [by rewrite andb_false_r|].
  exists (k, OFailure). split; [by apply bm_get_In|]. unfold counts_as_failure. cbn.
  rewrite C. done.
Qed.

(** ** Building the contexts *)

Lemma new_object_ok b l next : exists v next', new_object b l next = (Ok v, next').
Proof. eexists _, _. reflexivity. Qed.

Definition succeeds {A} (m : ev A) : Prop := forall next, exists v next', m next = (Ok v, next').
Lemma succeeds_bind {A B} (m : ev A) (k : A -> ev B) :
  succeeds m -> (forall a, succeeds (k a)) -> succeeds (ev_bind m k).
Proof. intros M K next. unfold ev_bind. destruct (M next) as (v & n & ->). apply K. Qed.
Lemma succeeds_ret {A} (a : A) : succeeds (ev_ret a).
Proof. intros next. eexists _, _. reflexivity. Qed.
Lemma succeeds_new_object b l : succeeds (new_object b l).
Proof. intros next. eexists _, _. reflexivity. Qed.
Lemma succeeds_new_array l : succeeds (new_array l).
Proof. intros next. eexists _, _. reflexivity. Qed.
Lemma succeeds_all {A} (l : list (ev A)) : Forall succeeds l -> succeeds (ev_all l).
Proof.
  induction 1 as [|m l M _ IH]; [apply succeeds_ret|]. cbn.
  apply succeeds_bind; [done|]. intros a. apply succeeds_bind; [done|]. intros. apply succeeds_ret.
Qed.

Lemma succeeds_context_value v : succeeds (from_context_value v).
Proof.
  revert v. fix IH 1. intros v. destruct v as [| | | | | | |l|name l|b l]; cbn [from_context_value]; try apply succeeds_ret.
  - apply succeeds_bind; [|intros; apply succeeds_new_array]. apply succeeds_all.
    induction l as [|x l IHl]; cbn [map]; constructor; [apply IH|exact IHl].
  - apply succeeds_bind; [|intros; apply succeeds_new_object]. apply succeeds_all.
    induction l as [|[k x] l IHl]; cbn [map]; constructor; [|exact IHl].
    apply succeeds_bind; [apply IH|intros; apply succeeds_ret].
Qed.

Lemma succeeds_entries s root : succeeds (context_data_entries s root).
Proof.
  unfold context_data_entries. destruct (find_root _ _) as [[]|]; try apply succeeds_ret.
  apply succeeds_all. apply Forall_forall. intros m [[k v] [-> _]]%list_elem_of_fmap_1.
  apply succeeds_bind; [apply succeeds_context_value|intros; apply succeeds_ret].
Qed.

#[local] Hint Resolve succeeds_bind succeeds_ret succeeds_new_object succeeds_new_array succeeds_context_value
  succeeds_entries succeeds_all : core.

Lemma succeeds_steps s : succeeds (steps_context s).
Proof.
  unfold steps_context. apply succeeds_bind; [|auto]. apply succeeds_all, Forall_forall.
  intros m [id [-> _]]%list_elem_of_fmap_1. unfold step_entry. auto.
Qed.

(** Every root context can be built, so [infallible] loses nothing. *)
Lemma root_context_ok s name : succeeds (root_context s name).
Proof.
  unfold root_context, github_context, env_context, runner_context, job_context.
  repeat case_match; auto using succeeds_steps.
Qed.

(** ** Steps after a failure *)

Context (hash_files : list text -> bool -> result text ExpressionError).

Definition condition_words (condition : option text) : list Token :=
  match condition_text condition with Some c => tokens (strip_expression c) | None => [] end.

(** The answer of a condition that may only be false or unreadable. *)
Definition refused (r : result bool eval_failure * address) : Prop :=
  match r with
  | (Ok b, _) => b = false
  | (Err (EError (EParse _)), _) => True
  | (Err _, _) => False
  end.

(** Without a status function a condition holds only in a job that goes well. *)
Lemma plain_condition_needs_success s condition next :
  existsb names_status (condition_words condition) = false -> success_status s = false ->
  refused (evaluate_condition hash_files s condition next).
Proof.
  unfold evaluate_condition, condition_words. destruct (condition_text condition) as [c|]; intros W S.
  - unfold evaluate_condition_expression. rewrite S. cbn [negb]. pose proof (@parse_clean (job_environment s) (strip_expression c)) as C.
    destruct (parse _) as [[n|]|[]] eqn:P; try done.
    apply parse_iff in P as (_ & _ & D & _). by rewrite (status_is_in_the_text _ _ _ D), W.
  - done.
Qed.

Lemma cancelled_is_no_success s : js_cancelled s = true -> success_status s = false.
Proof. unfold success_status. by intros ->. Qed.


(** The status functions split the states: one of [success()], [failure()] and
    [cancelled()] holds outside and inside of composite actions. *)
Lemma status_functions_partition s :
  [success_status s; failure_status s; js_cancelled s] ∈
  [[true; false; false]; [false; true; false]; [false; false; true]].
Proof.
  unfold success_status, failure_status. destruct (js_cancelled s), (status_scope_has_failure s); set_solver.
Qed.

End Runs.

(** ** A concrete job *)

#[local] Existing Instances ascii_mapper integer_json.
Definition no_files (patterns : list text) (follow : bool) : result text ExpressionError := Ok [].
Definition started (cancelled : bool) : JobExecutionState := {|
  js_env := [(txt "CI", txt "1")]; js_immutable_env := []; js_dynamic_env := []; js_context_data := [];
  js_has_workspace := false; js_outputs := []; js_action_states := []; js_outcomes := [];
  js_conclusions := []; js_scopes := no_scopes; js_path := []; js_masks := []; js_cancelled := cancelled |}.
Definition exited (code : Z) : StepExecutionResult :=
  {| sx_exit_code := code; sx_state := default_state; sx_skipped := false; sx_failure_ignored := false |}.

Definition runs (cancelled : bool) (code : Z) (condition : string) : result bool eval_failure :=
  (evaluate_condition no_files
    (end_steps [Ended (txt "checkout") (exited 0); Ended (txt "build") (exited code); Ended (txt "lint") (exited 0)]
       (started cancelled)) (Some (txt condition)) 0%N).1.

Example conditions_sample :
  runs false 0 "env.CI == '1'" = Ok true /\ runs false 2 "env.CI == '1'" = Ok false /\
  runs false 2 "${{ failure() && env.CI }}" = Ok true /\ runs true 0 "env.CI || 'yes'" = Ok false /\
  runs true 2 "!success() && cancelled()" = Ok true /\ runs true 2 "failure()" = Ok false.
Proof. vm_compute. repeat split. Qed.

