(* ===== verification/StepScan.v ===== *)
(** * The template scanner against the expression lexer

    [expression_template_spans] finds the end of an expression with a scanner
    of its own, which knows quotes, brackets and a count of operators but no
    tokens. This file proves that the scanner and the lexer of the expression
    engine agree: an expression the engine parses is delimited exactly. *)

From Stdlib Require Import ZArith Lia Ascii.
From stdpp Require Import base list strings sets.
From S2P Require Import Prelude ExprText ExprValue ExprLexer ExprParser ExprEval ExprLexProofs ExprGrammar ExprComplete ExprSound TextOps WorkflowCommands StepScopes StepState StepTemplate.

(** ** Tiling *)

Lemma prepend_Some p r e rest : prepend p r = Ok (Some (e, rest)) ->
  exists e', r = Ok (Some (e', rest)) /\ e = p ++ e'.
Proof. destruct r as [[[e' rest']|]|]; cbn; try done. intros [= <- <-]. eauto. Qed.

(** What is found is a prefix that ends in [}}]. *)
Lemma scan_splits s : forall q ds ops cur e rest,
  scan_expression q ds ops cur s = Ok (Some (e, rest)) -> s = e ++ CLOSE ++ rest.
Proof.
  induction s as [s IH] using (induction_ltof1 _ length). intros q ds ops cur e rest.
  assert (P : forall p s' q ds ops cur, length s' < length s ->
    prepend p (scan_expression q ds ops cur s') = Ok (Some (e, rest)) -> p ++ s' = e ++ CLOSE ++ rest).
  { intros p s' q' ds' ops' cur' L (e' & E & ->)%prepend_Some. rewrite <- app_assoc. f_equal.
    by eapply IH. }
  destruct s as [|c s1]; cbn [scan_expression]; [done|].
  assert (L1 : length s1 < length (c :: s1)) by (cbn; lia).
  repeat (case_match; subst; try done); try exact (P [c] _ _ _ _ _ L1);
    try (apply (P [_; _]); cbn; lia).
  match goal with B : _ && _ = true |- _ => apply andb_true_iff in B as [->%is_chr_true ->%is_chr_true] end.
  by intros [= <- <-].
Qed.

Definition span_text_of (sp : ExpressionSpan) : text := sp_literal sp ++ span_source sp.
Definition assemble (spans : list ExpressionSpan) (trailing : text) : text :=
  concat (map span_text_of spans) ++ trailing.

(** The byte offset of every span. *)
Fixpoint starts_at (offset : nat) (spans : list ExpressionSpan) : Prop :=
  match spans with
  | [] => True
  | sp :: spans =>
      sp_start sp = offset + byte_len (sp_literal sp) /\
      starts_at (offset + byte_len (span_text_of sp)) spans
  end.

Lemma byte_len_app a b : byte_len (a ++ b) = byte_len a + byte_len b.
Proof. unfold byte_len. by rewrite map_app, list_sum_app. Qed.

Lemma split_once_first n s a b : split_once n s = Some (a, b) -> n <> [] -> contains n a = false.
Proof.
  intros E N. destruct (contains n a) eqn:C; [|done]. exfalso.
  apply contains_true in C as (x & y & ->). pose proof (split_once_Some _ _ _ _ E) as S.
  rewrite <- !app_assoc in S. destruct (text_split_once_app n x (y ++ n ++ b)) as (x' & y' & E' & L).
  rewrite <- S, E in E'. injection E' as E1 E2. subst. rewrite !length_app in L.
  destruct n; [done|]. cbn in L. lia.
Qed.

Lemma spans_tile fuel : forall offset value spans trailing,
  length value <= fuel -> spans_from fuel offset value = Ok (spans, trailing) ->
  value = assemble spans trailing /\ contains OPEN trailing = false /\
  Forall (fun sp => contains OPEN (sp_literal sp) = false) spans /\ starts_at offset spans.
Proof.
  induction fuel as [|fuel IH]; intros offset value spans trailing L; cbn [spans_from].
  { destruct value; [|cbn in L; lia]. by intros [= <- <-]. }
  destruct (split_once OPEN value) as [[lit rest]|] eqn:S.
  2: { intros [= <- <-]. split_and!; try done. unfold contains. by rewrite S. }
  pose proof (split_once_Some _ _ _ _ S) as V. apply split_once_first in S; [|done].
  destruct (scan_expression _ _ _ _ rest) as [[[e rest']|]|] eqn:E; try done. apply scan_splits in E. subst rest.
  destruct (spans_from fuel _ rest') as [[spans' trailing']|] eqn:T; [|done]. intros [= <- <-].
  apply IH in T as (-> & C & F & A).
  2: { subst value. rewrite !length_app in L. unfold OPEN, CLOSE, txt in L. cbn [length] in L. lia. }
  split_and!; try done.
  - subst value. unfold assemble. cbn [map concat]. unfold span_text_of at 2, span_source. cbn [sp_literal sp_expression].
    by rewrite <- !app_assoc.
  - by constructor.
  - cbn [starts_at sp_start sp_literal]. split; [done|]. unfold span_text_of, span_source.
    cbn [sp_literal sp_expression]. rewrite !byte_len_app.
    change (byte_len OPEN) with 3. change (byte_len CLOSE) with 2.
    replace (offset + (byte_len lit + (3 + (byte_len e + 2)))) with (offset + byte_len lit + 5 + byte_len e) by lia.
    done.
Qed.

(** The scanner cuts a template without loss: the literals, the delimited
    expressions and the trailing text are the template again, no literal and
    no trailing text holds an opening delimiter that was missed, and every
    recorded offset is the byte position of its span. *)
Theorem spans_tile_the_template (value : text) (spans : list ExpressionSpan) (trailing : text) :
  expression_template_spans value = Ok (spans, trailing) ->
  value = assemble spans trailing /\ contains OPEN trailing = false /\
  Forall (fun sp => contains OPEN (sp_literal sp) = false) spans /\ starts_at 0 spans.
Proof.
  unfold expression_template_spans. destruct (contains OPEN value) eqn:C; cbn [negb].
  - destruct (_ <? _); [done|]. by apply spans_tile.
  - intros [= <- <-]. done.
Qed.

(** ** Characters the scanner passes over *)

Definition plain (c : char) : bool :=
  negb (is_quote c || is_opening c || is_closing c || is_operator_byte c || is_chr "}" c).
Definition word (c : char) : bool :=
  is_ascii_alphanumeric c || is_chr "_" c || is_chr "-" c || is_chr "." c || is_chr "+" c.

Lemma not_plain c : plain c = false -> c ∈ [39; 34; 40; 91; 41; 93; 38; 124; 61; 33; 125]%N.
Proof.
  unfold plain, is_quote, is_opening, is_closing, is_operator_byte, is_chr, ASCII_QUOTE. intros P%negb_false_iff.
  repeat match goal with H : _ || _ = true |- _ => apply orb_true_iff in H as [H|H] end;
    apply N.eqb_eq in P; subst c; vm_compute; set_solver.
Qed.

Ltac by_characters := let P := fresh "P" in
  match goal with |- _ -> plain ?c = true =>
    destruct (plain c) eqn:P; [done|]; apply not_plain in P; rewrite !elem_of_cons, elem_of_nil in P;
    destruct_or! P; subst c; by vm_compute end.

Lemma word_plain c : word c = true -> plain c = true.
Proof. by_characters. Qed.
Lemma whitespace_plain c : is_whitespace c = true -> plain c = true.
Proof. by_characters. Qed.

(** ** Numbers are words *)

Lemma word_sign c : is_chr "+" c || is_chr "-" c = true -> word c = true.
Proof. unfold word. by intros [-> | ->]%orb_true_iff; rewrite ?orb_true_r. Qed.
Lemma word_digit c : is_ascii_digit c = true -> word c = true.
Proof. unfold word, is_ascii_alphanumeric. by intros ->; rewrite ?orb_true_r. Qed.
Lemma words_digits s : forallb is_ascii_digit s = true -> forallb word s = true.
Proof. rewrite !forallb_forall. auto using word_digit. Qed.

Lemma words_sign s : forallb word (skip_sign s) = true -> forallb word s = true.
Proof.
  destruct s as [|c s]; [done|]. cbn [skip_sign]. destruct (_ || _) eqn:E; [|done].
  intros W. cbn. by rewrite W, (word_sign _ E).
Qed.

Lemma words_mantissa s : forall d p n rest,
  mantissa_scan s d p = (n, rest) -> forallb word rest = true -> forallb word s = true.
Proof.
  induction s as [|c s IH]; intros d p n rest; cbn; [done|].
  destruct (is_ascii_digit c) eqn:D; [intros; rewrite (word_digit _ D); cbn; eauto|].
  destruct (_ && _) eqn:P; [|intros [= _ <-] W; exact W].
  apply andb_true_iff in P as [P _]. intros. unfold word at 1. rewrite P, !orb_true_r. cbn. eauto.
Qed.

Lemma words_double s : is_dotnet_double s = true -> forallb word s = true.
Proof.
  unfold is_dotnet_double. destruct (mantissa_scan _ _ _) as [[|n] rest] eqn:M; [done|].
  intros R. apply words_sign. eapply words_mantissa; [exact M|]. destruct rest as [|c rest]; [done|].
  destruct (negb (is_chr "e" c) && _) eqn:E; [done|]. apply andb_true_iff in R as [R _]. cbn.
  rewrite (words_sign rest) by (by apply words_digits). rewrite andb_true_r.
  apply andb_false_iff in E as [E|E]; apply negb_false_iff, is_chr_true in E; subst c; done.
Qed.

Lemma words_hex s : forallb is_ascii_hexdigit s = true -> forallb word s = true.
Proof.
  rewrite !forallb_forall. intros W c I. specialize (W c I). revert W.
  unfold is_ascii_hexdigit, word, is_ascii_alphanumeric, is_ascii_alphabetic, in_range.
  destruct (is_ascii_digit c); [by rewrite !orb_true_r|].
  intros W. apply orb_true_iff in W as [W|W]; apply andb_true_iff in W as [A%N.leb_le B%N.leb_le];
    destruct (N.leb_spec 65 c), (N.leb_spec c 90), (N.leb_spec 97 c), (N.leb_spec c 122); cbn; try done; lia.
Qed.

Lemma words_number v : f64_is_nan (parse_number v) = false -> forallb word (trim v) = true.
Proof.
  unfold parse_number. set (s := trim v). case_bool_decide as Z; [intros _; by rewrite Z|].
  destruct (is_dotnet_double s) eqn:D; [intros _; by apply words_double|].
  destruct s as [|z [|x [|y s]]]; try done.
  destruct (is_chr "0" z && is_chr "x" x && _) eqn:H1.
  { apply andb_true_iff in H1 as [H1 H2]. apply andb_true_iff in H1 as [->%is_chr_true ->%is_chr_true].
    intros _. apply words_hex in H2. cbn in *. done. }
  destruct (is_chr "0" z && is_chr "o" x && _) eqn:H3.
  { apply andb_true_iff in H3 as [H3 H4]. apply andb_true_iff in H3 as [->%is_chr_true ->%is_chr_true].
    intros _. assert (H5 : forallb is_ascii_digit (drop 2 (chr "0" :: chr "o" :: y :: s)) = true).
    { revert H4. rewrite !forallb_forall. intros W c I. specialize (W c I). revert W.
      unfold is_ascii_digit, in_range. intros [A%N.leb_le B%N.leb_le]%andb_true_iff.
      apply andb_true_iff. split; apply N.leb_le; lia. }
    apply words_digits in H5. cbn in *. done. }
  case_bool_decide as I1; [intros _; by rewrite I1|].
  case_bool_decide as I2; [intros _; by rewrite I2|]. done.
Qed.

(** ** One token at a time *)

Definition count (p : char -> bool) (s : text) : nat := length (List.filter p s).
Lemma count_app p a b : count p (a ++ b) = count p a + count p b.
Proof. unfold count. by rewrite List.filter_app, length_app. Qed.
Lemma count_cons p c s : count p (c :: s) = (if p c then 1 else 0) + count p s.
Proof. unfold count. cbn. by destruct (p c). Qed.

Definition opener (t : Token) : char := if bool_decide (tk_kind t = StartIndex) then chr "[" else chr "(".

Section Lockstep.
Context (rest : text).

(** Within the budgets the scanner finds the expression [x] at the head of [s]. *)
Definition finds (quote : option char) (ds : list char) (x s : text) : Prop :=
  forall ops cur,
    length ds + count is_opening x <= MAX_EXPRESSION_DEPTH ->
    ops + count is_operator_byte x <= MAX_OPERATORS ->
    scan_expression quote ds ops cur s = Ok (Some (x, rest)).

Lemma finds_end ds : ds = [] -> finds None ds [] (CLOSE ++ rest).
Proof. intros -> ops cur _ _. reflexivity. Qed.

Ltac budget := rewrite ?count_cons in *; cbn [length] in *; repeat case_match; lia.

Lemma finds_plain ds c x s : plain c = true -> finds None ds x s -> finds None ds (c :: x) (c :: s).
Proof.
  intros P F ops cur D O. cbn [scan_expression]. apply negb_true_iff in P.
  apply orb_false_iff in P as [P B]. apply orb_false_iff in P as [P E]. apply orb_false_iff in P as [P C].
  apply orb_false_iff in P as [Q A]. rewrite Q, A, C, E.
  assert (R : prepend [c] (scan_expression None ds ops (cur + len_utf8 c) s) = Ok (Some (c :: x, rest))).
  { rewrite F; [done|budget..]. }
  destruct s, ds; try done. by rewrite B.
Qed.

Lemma finds_words ds w x s : Forall (fun c => plain c = true) w ->
  finds None ds x s -> finds None ds (w ++ x) (w ++ s).
Proof. induction 1; [done|]. cbn. auto using finds_plain. Qed.

Lemma finds_open ds c x s : is_opening c = true -> finds None (c :: ds) x s -> finds None ds (c :: x) (c :: s).
Proof.
  intros A F ops cur D O. cbn [scan_expression]. rewrite A.
  replace (is_quote c) with false by (by apply orb_true_iff in A as [->%is_chr_true| ->%is_chr_true]).
  rewrite count_cons, A in D. rewrite (proj2 (Nat.ltb_ge _ _)) by lia.
  rewrite F; [done| |]; [cbn [length]; lia|budget].
Qed.

Lemma finds_close ds c x s : is_closing c = true -> finds None ds x s ->
  finds None (opening_of c :: ds) (c :: x) (c :: s).
Proof.
  intros A F ops cur D O. cbn [scan_expression]. rewrite A, N.eqb_refl.
  replace (is_quote c) with false by (by apply orb_true_iff in A as [->%is_chr_true| ->%is_chr_true]).
  replace (is_opening c) with false by (by apply orb_true_iff in A as [->%is_chr_true| ->%is_chr_true]).
  rewrite F; [done|budget..].
Qed.

Lemma finds_operator ds c x s : is_operator_byte c = true -> finds None ds x s -> finds None ds (c :: x) (c :: s).
Proof.
  intros A F ops cur D O.
  assert (Q : is_quote c = false /\ is_opening c = false /\ is_closing c = false).
  { unfold is_operator_byte in A. repeat (apply orb_true_iff in A as [A|A]); apply is_chr_true in A; subst c; done. }
  destruct Q as (Q1 & Q2 & Q3). cbn [scan_expression]. rewrite Q1, Q2, Q3, A. rewrite count_cons, A in O.
  rewrite (proj2 (Nat.ltb_ge _ _)) by lia. rewrite F; [done|budget|lia].
Qed.

Lemma finds_quote ds c x s : is_quote c = true -> finds (Some c) ds x s -> finds None ds (c :: x) (c :: s).
Proof. intros A F ops cur D O. cbn [scan_expression]. rewrite A. rewrite F; [done|budget..]. Qed.

(** A string literal: the scanner leaves it where the lexer does. *)
Lemma finds_string ds x tl s : forall v n, string_body s = (v, n, true) ->
  head tl <> Some (chr "'") ->
  finds None ds x (drop n s ++ tl) -> finds (Some (chr "'")) ds (take n s ++ x) (s ++ tl).
Proof.
  induction s as [s IH] using (induction_ltof1 _ length). unfold ltof in IH. intros v n E T F.
  destruct s as [|c s]; [done|]. cbn [string_body] in E. destruct (is_chr "'" c) eqn:Q.
  - apply is_chr_true in Q as ->. destruct s as [|d s].
    + injection E as <- <-. cbn in F |- *. intros ops cur D O. cbn [scan_expression]. rewrite N.eqb_refl.
      assert (R : prepend [chr "'"] (scan_expression None ds ops (cur + len_utf8 (chr "'")) tl) =
        Ok (Some (chr "'" :: x, rest))) by (rewrite F; [done|budget..]).
      destruct tl as [|d tl]; [done|]. destruct (N.eqb_spec d (chr "'")) as [->|]; [done|done].
    + destruct (is_chr "'" d) eqn:Q2.
      * apply is_chr_true in Q2 as ->. destruct (string_body s) as [[v' n'] b] eqn:E'. injection E as <- <- ->.
        cbn [take drop app] in F |- *. intros ops cur D O. cbn [scan_expression]. rewrite N.eqb_refl.
        rewrite (IH s ltac:(cbn; lia) v' n' E' T F); [done|budget..].
      * injection E as <- <-. cbn [take drop app] in F |- *. intros ops cur D O.
        specialize (F ops (cur + len_utf8 (chr "'"))). revert F. generalize (s ++ tl) as s'. intros s' F.
        change (scan_expression (Some (chr "'")) ds ops cur (chr "'" :: d :: s')) with
          (if N.eqb (chr "'") (chr "'") then
             if N.eqb d (chr "'") then prepend [chr "'"; d] (scan_expression (Some (chr "'")) ds ops (cur + 2) s')
             else prepend [chr "'"] (scan_expression None ds ops (cur + len_utf8 (chr "'")) (d :: s'))
           else prepend [chr "'"] (scan_expression (Some (chr "'")) ds ops (cur + len_utf8 (chr "'")) (d :: s'))).
        rewrite N.eqb_refl. unfold is_chr in Q2. rewrite Q2. rewrite F; [done|budget..].
  - destruct (string_body s) as [[v' n'] b] eqn:E'. injection E as <- <- ->.
    cbn [take drop app] in F |- *. intros ops cur D O. cbn [scan_expression]. unfold is_chr in Q. rewrite Q.
    rewrite (IH s ltac:(cbn; lia) v' n' E' T F); [done|budget..].
Qed.

Context (tl : text).
Hypothesis tl_head : head tl <> Some (chr "'").

(** Behind a token the scanner finds [x]; then it finds the token and [x]. *)
Definition passes (l : LexicalAnalyzer) (r : Token * LexicalAnalyzer) : Prop :=
  tk_kind r.1 <> Unexpected -> forall x,
  finds None (map opener (unclosed_tokens r.2)) x (drop (lx_index r.2) (lx_expression l) ++ tl) ->
  finds None (map opener (unclosed_tokens l)) (raw_value r.1 ++ x) (drop (lx_index l) (lx_expression l) ++ tl).

Lemma drop_substring e i j : i <= j -> j <= length e -> drop i e = substring e i j ++ drop j e.
Proof.
  intros A B. unfold substring. rewrite <- (take_drop (j - i) (drop i e)) at 1. rewrite drop_drop. do 2 f_equal. lia.
Qed.

(** Brackets move the stack, other tokens leave it alone. *)
Definition moves_stack (k : TokenKind) : bool :=
  match k with StartGroup | StartIndex | StartParameters | EndGroup | EndIndex | EndParameters => true | _ => false end.

Lemma create_passes l j k v :
  lx_index l <= j <= length (lx_expression l) -> moves_stack k = false ->
  (forall ds x s, k <> Unexpected -> finds None ds x s ->
     finds None ds (substring (lx_expression l) (lx_index l) j ++ x) (substring (lx_expression l) (lx_index l) j ++ s)) ->
  passes l (create_token (set_index j l) k (substring (lx_expression l) (lx_index l) j) (lx_index l) v).
Proof.
  intros J M W. destruct (create_token _ _ _ _ _) as [t l'] eqn:C. intros U x F. cbn [fst snd] in *.
  apply create_token_spec in C as (-> & _ & _ & I & _ & [?|(K & _ & _ & S)]); [done|]. cbn in I, S.
  rewrite (drop_substring _ _ j) by lia. rewrite <- app_assoc. apply W; [congruence|].
  rewrite I in F. replace (unclosed_tokens l) with (unclosed_tokens l'); [done|].
  unfold unclosed_step in S. rewrite K in S. destruct k; cbn in M; try done; repeat case_match; congruence.
Qed.

Lemma plain_passes l j k v :
  lx_index l <= j <= length (lx_expression l) -> moves_stack k = false ->
  (k <> Unexpected -> Forall (fun c => plain c = true) (substring (lx_expression l) (lx_index l) j)) ->
  passes l (create_token (set_index j l) k (substring (lx_expression l) (lx_index l) j) (lx_index l) v).
Proof. intros J M W. apply create_passes; auto using finds_words. Qed.

Lemma single_passes l k c : lx_expression l !! lx_index l = Some c ->
  (moves_stack k = false -> plain c = true) ->
  (k = StartGroup \/ k = StartParameters -> c = chr "(") -> (k = StartIndex -> c = chr "[") ->
  (k = EndGroup \/ k = EndParameters -> c = chr ")") -> (k = EndIndex -> c = chr "]") ->
  passes l (single l k c).
Proof.
  intros C P B1 B2 B3 B4. pose proof (lookup_lt_Some _ _ _ C) as I. unfold single.
  rewrite <- (substring_single _ _ _ C). destruct (moves_stack k) eqn:M.
  2: { apply plain_passes; [lia|done|]. intros _. rewrite (substring_single _ _ _ C). auto. }
  destruct (create_token _ _ _ _ _) as [t l'] eqn:T. intros U x F. cbn [fst snd] in *.
  apply create_token_spec in T as (-> & _ & _ & J & _ & [?|(K & _ & _ & S)]); [done|]. cbn in J, S.
  rewrite J in F. rewrite (drop_S _ _ _ C), (substring_single _ _ _ C). cbn [app].
  unfold unclosed_step in S. rewrite K in S.
  destruct k; try done; try (injection S as S; rewrite <- S in F; cbn [map] in F; unfold opener at 1 in F; rewrite K in F);
    try (case_bool_decide as H; [|done]; injection S as S; rewrite <- S in F;
      destruct (unclosed_tokens l) as [|o u]; [done|]; cbn in H; injection H as H; cbn [tail map] in *;
      unfold opener at 1; rewrite H).
  all: try (rewrite B1 in * by auto); try (rewrite B2 in * by auto); try (rewrite B3 in * by auto);
    try (rewrite B4 in * by auto); cbn in F.
  1-3: by apply finds_open.
  all: first [exact (finds_close _ (chr ")") _ _ eq_refl F) | exact (finds_close _ (chr "]") _ _ eq_refl F)].
Qed.

Lemma first_and_scan p e i c : e !! i = Some c ->
  substring e i (scan p e (S i)) = c :: (span p (drop (S i) e)).1.
Proof.
  intros C. pose proof (scan_ge p e (S i)). rewrite <- (substring_app e i (S i)) by lia.
  by rewrite (substring_single _ _ _ C), substring_scan.
Qed.

Lemma scan_bounds p e i : i < length e -> i <= scan p e (S i) <= length e.
Proof. intros I. pose proof (scan_ge p e (S i)). pose proof (scan_le p e (S i)). lia. Qed.

Lemma words_plain s : forallb word s = true -> Forall (fun c => plain c = true) s.
Proof. rewrite forallb_forall, Forall_forall. intros W c I%list_elem_of_In. auto using word_plain. Qed.

Lemma number_passes l c : lx_expression l !! lx_index l = Some c -> is_whitespace c = false ->
  passes l (read_number_token l).
Proof.
  intros C NW. pose proof (lookup_lt_Some _ _ _ C) as I. unfold read_number_token.
  set (p := fun c => negb (is_token_boundary c) || is_chr "." c). pose proof (scan_bounds p _ _ I) as B.
  cbn [lx_expression set_index].
  destruct (f64_is_nan _) eqn:N; (apply plain_passes; [done|done|]); intros U; [done|].
  apply words_number in N. rewrite trim_id in N; [by apply words_plain|].
  rewrite (first_and_scan _ _ _ _ C). constructor; [done|].
  eapply Forall_impl; [apply span_Forall|]. unfold p, is_token_boundary. intros x [X|X]%orb_true_iff.
  - apply negb_true_iff, orb_false_iff in X as [_ X]. done.
  - apply is_chr_true in X as ->. done.
Qed.

Lemma legal_words s : is_legal_keyword s = true -> forallb word s = true.
Proof.
  destruct s as [|c s]; [done|]. cbn. intros [A B]%andb_true_iff. apply andb_true_iff. split.
  - unfold word, is_ascii_alphanumeric. by apply orb_true_iff in A as [-> | ->]; rewrite ?orb_true_r.
  - revert B. rewrite !forallb_forall. intros B x X. specialize (B x X). unfold word.
    apply orb_true_iff in B as [B| ->]; [|by rewrite ?orb_true_r].
    by apply orb_true_iff in B as [-> | ->]; rewrite ?orb_true_r.
Qed.

Lemma keyword_passes l c : lx_expression l !! lx_index l = Some c -> passes l (read_keyword_token l).
Proof.
  intros C. pose proof (lookup_lt_Some _ _ _ C) as I. unfold read_keyword_token.
  pose proof (scan_bounds (fun c => negb (is_token_boundary c)) _ _ I) as B.
  destruct (is_legal_keyword _) eqn:K; cbn [negb]; [|by apply plain_passes].
  apply legal_words, words_plain in K.
  repeat case_bool_decide; by apply plain_passes.
Qed.

Lemma operator_passes l c : lx_expression l !! lx_index l = Some c -> passes l (read_operator l).
Proof.
  intros C. pose proof (lookup_lt_Some _ _ _ C) as I. unfold read_operator.
  assert (O : forall w ds x s, is_operator2 w = true \/ is_operator1 w = true ->
    finds None ds x s -> finds None ds (w ++ x) (w ++ s)).
  { intros w ds x s W F.
    assert (forallb (fun c => is_operator_byte c || plain c) w = true) as P.
    { unfold is_operator2, is_operator1 in W. cbn [existsb] in W.
      rewrite !orb_true_iff, !bool_decide_eq_true in W. destruct_or! W; subst; try done; vm_compute; done. }
    clear W. revert P. induction w as [|a w IH]; [done|]. cbn. intros [[P|P]%orb_true_iff Q]%andb_true_iff;
      auto using finds_operator, finds_plain. }
  destruct (_ && _) eqn:E.
  - apply andb_true_iff in E as [L%Nat.ltb_lt E]. apply create_passes; [lia|done|auto].
  - replace (S (lx_index l)) with (lx_index l + 1) by lia. destruct (is_operator1 _) eqn:E1.
    + apply create_passes; [lia|done|auto].
    + apply plain_passes; [|done|done]. replace (lx_index l + 1) with (S (lx_index l)) by lia. by apply scan_bounds.
Qed.

Lemma string_passes l : lx_expression l !! lx_index l = Some (chr "'") -> passes l (read_string_token l).
Proof.
  intros C. pose proof (lookup_lt_Some _ _ _ C) as I. unfold read_string_token.
  pose proof (string_body_length (drop (S (lx_index l)) (lx_expression l))) as B. rewrite length_drop in B.
  destruct (string_body _) as [[v n] b] eqn:E. cbn in B.
  change (lx_expression (set_index _ l)) with (lx_expression l).
  destruct b; [|apply plain_passes; [lia|done|done]].
  destruct (create_token _ _ _ _ _) as [t l'] eqn:T. intros U x F. cbn [fst snd] in *.
  apply create_token_spec in T as (-> & _ & _ & J & _ & [?|(K & _ & _ & S)]); [done|]. cbn in J, S.
  rewrite J in F. unfold unclosed_step in S. rewrite K in S. injection S as S. rewrite S.
  rewrite (drop_S _ _ _ C). replace (substring _ _ _) with (chr "'" :: take n (drop (Datatypes.S (lx_index l)) (lx_expression l))).
  - cbn [app]. apply finds_quote; [done|]. eapply finds_string; [exact E|done|]. by rewrite drop_drop.
  - cbn [lx_expression set_index]. unfold substring.
    replace (Datatypes.S (lx_index l) + n - lx_index l) with (Datatypes.S n) by lia. by rewrite (drop_S _ _ _ C).
Qed.

Lemma token_passes l c : lx_expression l !! lx_index l = Some c -> is_whitespace c = false ->
  passes l (read_token l c).
Proof.
  intros C NW. unfold read_token.
  repeat lazymatch goal with
    | |- passes _ (if ?b then _ else _) =>
        let B := fresh in destruct b eqn:B; [try apply is_chr_true in B; subst|]
    end; eauto using number_passes, keyword_passes, operator_passes, string_passes.
  all: apply single_passes; try done; intros; repeat case_bool_decide; naive_solver.
Qed.

(** The whole rest of the expression. *)
Lemma lex_passes n : forall l, lx_index l <= length (lx_expression l) ->
  length (lx_expression l) - lx_index l < n ->
  Forall (fun t => tk_kind t <> Unexpected) (lex n l).1 ->
  forall x, finds None (map opener (unclosed_tokens (lex n l).2)) x tl ->
  finds None (map opener (unclosed_tokens l)) (drop (lx_index l) (lx_expression l) ++ x)
    (drop (lx_index l) (lx_expression l) ++ tl).
Proof.
  induction n as [|n IH]; intros l I N; [lia|]. cbn [lex].
  destruct (next_token l) as [[t|] l'] eqn:T.
  2: { intros _ x. cbn [snd]. apply next_token_end in T as (W & -> & _); [|done].
       apply finds_words. eapply Forall_impl; [exact W|]. auto using whitespace_plain. }
  pose proof (next_token_spec _ _ _ T) as NS. destruct NS. specialize (IH l').
  destruct (lex n l') as [ts l'']. cbn [fst snd] in *. intros [U F]%Forall_cons x X.
  rewrite ns_expression in IH. specialize (IH ltac:(lia) ltac:(lia) F x X).
  unfold next_token, char_at in T. set (i := scan is_whitespace (lx_expression l) (lx_index l)) in T.
  cbn [lx_expression lx_index set_index] in T. destruct (lx_expression l !! i) as [c|] eqn:C; [|done].
  pose proof (token_passes (set_index i l) c C (scan_stop _ _ _ _ C)) as P.
  pose proof (read_token_reads (set_index i l) c C) as (j & k & v & E & J & _).
  destruct (read_token (set_index i l) c) as [t0 l0]. injection T as -> <-. specialize (P U).
  symmetry in E. apply create_token_spec in E as (_ & E & _). cbn in P, IH, E, J, ns_raw, ns_forward.
  rewrite (drop_substring _ (lx_index l) i), <- !app_assoc by (try apply scan_ge; lia).
  apply finds_words.
  { eapply Forall_impl; [rewrite <- E; exact ns_space|]. auto using whitespace_plain. }
  specialize (P _ IH). rewrite app_assoc in P. replace (raw_value t ++ drop (lx_index l0) (lx_expression l)) with
    (drop i (lx_expression l)) in P; [exact P|].
  rewrite ns_raw, E. apply drop_substring; lia.
Qed.

End Lockstep.

(** The final lexer of a parsed expression has no bracket left. *)
Lemma parse_closed `{ParseEnvironment} e n : parse e = Ok (Some n) ->
  well_lexed e /\ unclosed_tokens (final_lexer e) = [].
Proof.
  intros (_ & W & D & _)%parse_iff. split; [done|].
  pose proof (lex_unclosed (S (length e)) (new_lexer e) W ltac:(cbn; lia)) as E.
  change (lex _ (new_lexer e)).1 with (tokens e) in E. change (lex _ (new_lexer e)).2 with (final_lexer e) in E.
  rewrite (Derives_balanced _ _ _ D) in E. by injection E.
Qed.

Definition within_budgets (e : text) : Prop :=
  count is_opening e <= MAX_EXPRESSION_DEPTH /\ count is_operator_byte e <= MAX_OPERATORS.

Lemma count_plain p s : (forall c, p c = true -> plain c = false) -> Forall (fun c => plain c = true) s -> count p s = 0.
Proof.
  intros P. induction 1 as [|c s C _ IH]; [done|]. rewrite count_cons, IH. destruct (p c) eqn:E; [|done].
  apply P in E. congruence.
Qed.

(** An expression the engine parses, with white space on both sides, is
    delimited exactly. *)
Lemma scan_finds_parsed `{ParseEnvironment} e n before after rest cur :
  parse e = Ok (Some n) -> within_budgets e ->
  Forall (fun c => is_whitespace c = true) before -> Forall (fun c => is_whitespace c = true) after ->
  scan_expression None [] 0 cur (before ++ e ++ after ++ CLOSE ++ rest) = Ok (Some (before ++ e ++ after, rest)).
Proof.
  intros (W & U)%parse_closed [B1 B2] S1 S2.
  assert (PL : forall s, Forall (fun c => is_whitespace c = true) s -> Forall (fun c => plain c = true) s).
  { intros s S. eapply Forall_impl; [exact S|]. auto using whitespace_plain. }
  assert (H0 : head (after ++ CLOSE ++ rest) <> Some (chr "'")).
  { destruct after as [|c after]; [done|]. cbn. apply Forall_cons in S2 as [S2 _]. intros [= ->]. done. }
  pose proof (lex_passes rest (after ++ CLOSE ++ rest) H0 (S (length e)) (new_lexer e) ltac:(cbn; lia) ltac:(cbn; lia) W after) as F.
  change (unclosed_tokens (new_lexer e)) with (@nil Token) in F. change (lex _ (new_lexer e)).2 with (final_lexer e) in F.
  rewrite U in F. cbn [map lx_index lx_expression new_lexer] in F. rewrite drop_0 in F.
  assert (F0 : finds rest None [] after (after ++ CLOSE ++ rest)).
  { rewrite <- (app_nil_r after) at 1. apply finds_words; [auto|]. by apply finds_end. }
  specialize (F F0). apply (finds_words rest [] before _ _ (PL _ S1)) in F.
  assert (Z : forall p s, (forall c, p c = true -> plain c = false) -> Forall (fun c => is_whitespace c = true) s -> count p s = 0).
  { intros p s P S. apply count_plain; auto. }
  apply F; rewrite !count_app, (Z _ before), (Z _ after) by
    (done || (intros c P; unfold plain; by rewrite P, ?orb_true_r)); cbn [length]; lia.
Qed.

(** ** Witness *)

Example spans_sample :
  expression_template_spans (txt "v${{ a['}}'] }}-${{b}}.") =
  Ok ([{| sp_literal := txt "v"; sp_start := 1; sp_expression := txt " a['}}'] " |};
       {| sp_literal := txt "-"; sp_start := 16; sp_expression := txt "b" |}], txt ".").
Proof. vm_compute. reflexivity. Qed.

Lemma spans_tile_the_template_witness :
  txt "v${{ a['}}'] }}-${{b}}." =
  assemble [{| sp_literal := txt "v"; sp_start := 1; sp_expression := txt " a['}}'] " |};
       {| sp_literal := txt "-"; sp_start := 16; sp_expression := txt "b" |}] (txt ".") /\
  contains OPEN (txt ".") = false.
Proof.
  destruct (spans_tile_the_template (txt "v${{ a['}}'] }}-${{b}}.")
    [{| sp_literal := txt "v"; sp_start := 1; sp_expression := txt " a['}}'] " |};
     {| sp_literal := txt "-"; sp_start := 16; sp_expression := txt "b" |}] (txt ".")) as (A & B & _).
  - vm_compute. reflexivity.
  - split; assumption.
Defined.
