(* ===== verification/StepDeferral.v ===== *)
(** * Expressions deferred from job setup to the step

    A step input is rendered twice: at job setup ([render_setup_expression]),
    where an expression that reads a runtime context is written back as a
    template span, and at the step ([resolve_expressions]), which evaluates
    the spans it finds. This file composes the two passes. *)

From Stdlib Require Import ZArith Lia Ascii.
From stdpp Require Import base list strings sets.
From S2P Require Import Prelude ExprText ExprValue ExprLexer ExprParser ExprEval ExprLexProofs ExprGrammar ExprSound ExprEvalProofs ExprMeaning TextOps WorkflowCommands StepScopes StepState StepTemplate StepConditions StepScan.
#[local] Open Scope ev_scope.

(** The two walks for runtime contexts, in [expression/mod.rs] and in
    [executor.rs], agree. *)
Lemma runner_function_lower name :
  is_runner_function name =
  bool_decide (ascii_lowercase name ∈ [txt "success"; txt "failure"; txt "always"; txt "cancelled"; txt "hashfiles"]).
Proof.
  unfold is_runner_function, RUNNER_FUNCTIONS, eq_ignore_ascii_case. cbn [existsb fst].
  change (ascii_lowercase (txt "hashFiles")) with (txt "hashfiles").
  change (ascii_lowercase (txt "success")) with (txt "success"). change (ascii_lowercase (txt "failure")) with (txt "failure").
  change (ascii_lowercase (txt "always")) with (txt "always"). change (ascii_lowercase (txt "cancelled")) with (txt "cancelled").
  apply Bool.eq_iff_eq_true. rewrite !orb_true_iff, !bool_decide_eq_true. set_solver.
Qed.

Lemma existsb_agree {A} (f g : A -> bool) l : Forall (fun x => f x = g x) l -> existsb f l = existsb g l.
Proof. induction 1 as [|x l E _ IH]; [done|]. cbn. by rewrite E, IH. Qed.

Lemma runtime_walks_agree n : node_reads_runtime_context n = reads_runtime_context n.
Proof.
  induction n as [n IH] using Node_children_ind. pose proof (existsb_agree _ _ _ IH) as L.
  destruct n; cbn [node_reads_runtime_context reads_runtime_context children] in *;
    rewrite ?L, ?runner_function_lower; try done;
    rewrite ?Forall_cons in IH; destruct_and? IH; congruence.
Qed.

Section Deferral.
Context `{CaseMapper, SerdeJson} (hash_files : list text -> bool -> result text ExpressionError).

(** Evaluating an expression of a template: its text, or the error at its offset. *)
Definition render_value (s : JobExecutionState) (n : Node) (offset : nat) : tv text := fun next =>
  match evaluate_node (EC := expression_context hash_files s) n next with
  | (Ok v, next) => (Ok (convert_to_string v), next)
  | (Err _, next) => (Err (TemplateEvaluation offset), next)
  end.

Lemma render_span_parsed s sp n next :
  @parse (job_environment s) (trim (sp_expression sp)) = Ok (Some n) ->
  render_span hash_files s false sp next = render_value s n (sp_start sp) next.
Proof.
  intros P. unfold render_span, render_value. rewrite P. cbn [andb].
  pose proof (safe_node (H2 := expression_context hash_files s) n (parse_wf _ _ P) next) as S.
  destruct (evaluate_node n next) as [[v|[e|]] next']; done.
Qed.

Lemma spans_of_one lit e tail :
  chr "$" ∉ lit -> contains OPEN tail = false ->
  (forall cur rest, scan_expression None [] 0 cur (e ++ CLOSE ++ rest) = Ok (Some (e, rest))) ->
  (byte_len (lit ++ OPEN ++ e ++ CLOSE ++ tail) <= MAX_TEMPLATE_BYTES)%nat ->
  expression_template_spans (lit ++ OPEN ++ e ++ CLOSE ++ tail) =
  Ok ([{| sp_literal := lit; sp_start := byte_len lit; sp_expression := e |}], tail).
Proof.
  intros D T S B. unfold expression_template_spans.
  rewrite (proj2 (contains_true _ _)) by eauto. cbn [negb]. rewrite (proj2 (Nat.ltb_ge _ _)) by done.
  set (n := length _). assert (N : 2 <= n).
  { subst n. rewrite !length_app. change (length OPEN) with 3. lia. }
  destruct n as [|[|n]]; [lia..|]. cbn [spans_from]. 
  change (split_once OPEN (lit ++ OPEN ++ e ++ CLOSE ++ tail)) with
    (split_once (chr "$" :: txt "{{") (lit ++ (chr "$" :: txt "{{") ++ e ++ CLOSE ++ tail)).
  rewrite split_once_free by done. rewrite S. cbn [spans_from].
  unfold contains in T. destruct (split_once OPEN tail); done.
Qed.

(** White space around a trimmed text is what trimming removes. *)
Lemma trim_padded e : trim (txt " " ++ trim e ++ txt " ") = trim e.
Proof.
  unfold trim at 1. rewrite (trim_start_spaces (txt " ")) by (repeat constructor).
  destruct (trim_ends e) as [H1 H2].
  destruct (trim e) as [|c u] eqn:E; [reflexivity|]. rewrite <- E in *.
  rewrite (trim_start_stop (trim e ++ txt " ")) by (rewrite E in *; done).
  unfold trim_end_by. rewrite rev_app_distr, (trim_start_spaces (rev (txt " "))) by (repeat constructor).
  by rewrite (trim_start_stop _ H2), rev_involutive.
Qed.

Definition deferred (expr : text) : text := txt "${{ " ++ trim expr ++ txt " }}".

Definition is_format (n : Node) : bool :=
  match n with NFunction name _ => eq_ignore_ascii_case name (txt "format") | _ => false end.

(** At setup the expression is written back, white space normalized. *)
Lemma setup_defers data expr node next :
  @parse setup_environment expr = Ok (Some node) -> is_format node = false -> reads_runtime_context node = true ->
  render_setup_expression data expr next = (Ok (deferred expr), next).
Proof.
  intros P F R. unfold render_setup_expression. rewrite P.
  assert (E : render_node data expr node next = (Ok (deferred expr), next)) by (unfold render_node; by rewrite R).
  destruct node; try exact E. cbn in F. destruct args; [exact E|]. by rewrite F.
Qed.


End Deferral.

(** ** Samples *)

#[local] Existing Instances ascii_mapper integer_json.

Definition github_event (head_ref : string) : list (text * ContextValue number) :=
  [(txt "github", CObject false [(txt "head_ref", CString (txt head_ref))]);
   (txt "secrets", CObject false [(txt "TOKEN", CString (txt "hunter2"))])].
Definition in_job (data : list (text * ContextValue number)) (env : list (text * text)) : JobExecutionState :=
  initial_state (bm_of_list env) data false.


(** The two passes are not independent: text that setup takes from an event is
    scanned again at the step, and a span inside it is evaluated. *)
Example event_text_is_evaluated :
  render_setup_expression (github_event "${{ secrets.TOKEN }}") (txt "github.head_ref") 0%N =
    (Ok (txt "${{ secrets.TOKEN }}"), 1%N) /\
  (resolve_expressions no_files (in_job (github_event "${{ secrets.TOKEN }}") [])
    (txt "${{ secrets.TOKEN }}") 0%N).1 = Ok (txt "hunter2").
Proof. vm_compute. split; reflexivity. Qed.

(** A condition is judged false before the job runs although it holds at the
    step: [github.action_status] is taken for immutable. *)
Example static_judgement_is_premature :
  let condition := Some (txt "always() && github.action_status == 'failure'") in
  condition_is_statically_false no_files condition [] [] 0%N = true /\
  (evaluate_condition no_files (end_steps [Ended (txt "build") (exited 2)] (started false)) condition 0%N).1 = Ok true.
Proof. vm_compute. split; reflexivity. Qed.
