(* ===== verification/Utf8.v ===== *)
(** * UTF-8 and big-endian integers

    [String::from_utf8], [str::as_bytes], [to_be_bytes] and [from_be_bytes] of
    Rust's standard library. A byte is a number below 256, a character a
    Unicode scalar value. *)

From Stdlib Require Import ZArith Lia.
From stdpp Require Import base list.
From S2P Require Import Prelude ExprText TextOps.

#[local] Open Scope N_scope.

Definition byte (b : N) : Prop := b < 256.
Definition scalar (c : char) : Prop := c < 55296 \/ 57344 <= c < 1114112.
#[export] Instance scalar_dec c : Decision (scalar c).
Proof. unfold scalar. apply _. Defined.

(** ** UTF-8 *)

Definition is_continuation (b : N) : bool := in_range 128 191 b.
Definition low6 (b : N) : N := b - 128.

Definition char2 (a b : N) : N := (a - 192) * 64 + low6 b.
Definition char3 (a b c : N) : N := (a - 224) * 4096 + low6 b * 64 + low6 c.
Definition char4 (a b c d : N) : N := (a - 240) * 262144 + low6 b * 4096 + low6 c * 64 + low6 d.

(** [String::from_utf8]: overlong forms, surrogates and numbers beyond the last
    scalar value are refused. *)
Fixpoint from_utf8 (s : list N) : option text :=
  match s with
  | [] => Some []
  | a :: s =>
      if a <? 128 then option_map (cons a) (from_utf8 s)
      else
      match s with
      | b :: s =>
          if in_range 194 223 a then
            if is_continuation b then option_map (cons (char2 a b)) (from_utf8 s) else None
          else
          match s with
          | c :: s =>
              if in_range 224 239 a then
                if is_continuation b && is_continuation c && (2048 <=? char3 a b c) && bool_decide (scalar (char3 a b c))
                then option_map (cons (char3 a b c)) (from_utf8 s) else None
              else
              match s with
              | d :: s =>
                  if in_range 240 244 a && is_continuation b && is_continuation c && is_continuation d
                     && (65536 <=? char4 a b c d) && bool_decide (scalar (char4 a b c d))
                  then option_map (cons (char4 a b c d)) (from_utf8 s) else None
              | [] => None
              end
          | [] => None
          end
      | [] => None
      end
  end.

Ltac dm := zify; Z.to_euclidean_division_equations; lia.

Lemma in_range_true lo hi c : in_range lo hi c = true <-> lo <= c <= hi.
Proof. unfold in_range. rewrite andb_true_iff, !N.leb_le. done. Qed.
Lemma in_range_false lo hi c : in_range lo hi c = false <-> c < lo \/ hi < c.
Proof. unfold in_range. rewrite andb_false_iff, !N.leb_gt. done. Qed.

Lemma continuation_ok c : is_continuation (continuation c) = true /\ low6 (continuation c) = c mod 64.
Proof.
  unfold is_continuation, continuation, low6. rewrite in_range_true. pose proof (N.mod_lt c 64 ltac:(done)). split; [split|]; dm.
Qed.

(** One encoded character is read back. *)
Lemma from_utf8_char c s : scalar c -> from_utf8 (utf8_char c ++ s) = option_map (cons c) (from_utf8 s).
Proof.
  intros S. unfold utf8_char.
  destruct (N.ltb_spec c 128) as [L1|L1]; [|destruct (N.ltb_spec c 2048) as [L2|L2]; [|destruct (N.ltb_spec c 65536) as [L3|L3]]];
    cbn [app from_utf8].
  - by rewrite (proj2 (N.ltb_lt _ _)) by done.
  - rewrite (proj2 (N.ltb_ge _ _)) by dm. rewrite (proj2 (in_range_true _ _ _)) by dm.
    destruct (continuation_ok c) as [-> E]. unfold char2. rewrite E. do 2 f_equal. dm.
  - rewrite (proj2 (N.ltb_ge _ _)) by dm. rewrite (proj2 (in_range_false _ _ _)) by dm.
    rewrite (proj2 (in_range_true _ _ _)) by dm.
    destruct (continuation_ok c) as [-> E], (continuation_ok (c / 64)) as [-> E2]. unfold char3. rewrite E, E2.
    replace ((224 + c / 4096 - 224) * 4096 + c / 64 mod 64 * 64 + c mod 64) with c by dm.
    rewrite (proj2 (N.leb_le _ _)), bool_decide_true by done. done.
  - destruct S as [?|S]; [lia|].
    rewrite (proj2 (N.ltb_ge _ _)) by dm. do 2 rewrite (proj2 (in_range_false _ _ _)) by dm.
    rewrite (proj2 (in_range_true _ _ _)) by dm.
    destruct (continuation_ok c) as [-> E], (continuation_ok (c / 64)) as [-> E2], (continuation_ok (c / 4096)) as [-> E3].
    unfold char4. rewrite E, E2, E3.
    replace ((240 + c / 262144 - 240) * 262144 + c / 4096 mod 64 * 4096 + c / 64 mod 64 * 64 + c mod 64) with c by dm.
    rewrite (proj2 (N.leb_le _ _)), bool_decide_true by (done || by right). done.
Qed.

Lemma as_bytes_cons c s : as_bytes (c :: s) = utf8_char c ++ as_bytes s.
Proof. done. Qed.
Lemma as_bytes_app a b : as_bytes (a ++ b) = as_bytes a ++ as_bytes b.
Proof. unfold as_bytes. by rewrite map_app, concat_app. Qed.

Lemma utf8_char_bytes c : scalar c -> Forall byte (utf8_char c).
Proof.
  intros S. unfold utf8_char, scalar, continuation, byte in *.
  repeat case_match; repeat constructor;
    repeat match goal with H : (_ <? _) = _ |- _ => apply N.ltb_lt in H || apply N.ltb_ge in H end; dm.
Qed.

Lemma from_utf8_encoded s : Forall scalar s -> from_utf8 (as_bytes s) = Some s.
Proof.
  induction 1 as [|c s C _ IH]; [done|]. by rewrite as_bytes_cons, from_utf8_char, IH by done.
Qed.

Lemma as_bytes_bytes s : Forall scalar s -> Forall byte (as_bytes s).
Proof.
  induction 1 as [|c s C _ IH]; [constructor|]. rewrite as_bytes_cons. apply Forall_app_2; [by apply utf8_char_bytes|done].
Qed.

Ltac split_tests := repeat match goal with
  | H : _ && _ = true |- _ => apply andb_true_iff in H as [? ?]
  | H : in_range _ _ _ = true |- _ => apply in_range_true in H
  | H : is_continuation _ = true |- _ => apply in_range_true in H
  | H : (_ <=? _) = true |- _ => apply N.leb_le in H
  | H : (_ <? _) = true |- _ => apply N.ltb_lt in H
  | H : (_ <? _) = false |- _ => apply N.ltb_ge in H
  | H : bool_decide _ = true |- _ => apply bool_decide_eq_true in H
  end.

Lemma utf8_char2 a b : 194 <= a <= 223 -> 128 <= b <= 191 -> utf8_char (char2 a b) = [a; b].
Proof.
  intros A B. unfold utf8_char, char2, low6, continuation.
  rewrite (proj2 (N.ltb_ge _ _)), (proj2 (N.ltb_lt _ _)) by dm. f_equal; [dm|f_equal; dm].
Qed.
Lemma utf8_char3 a b c : 224 <= a <= 239 -> 128 <= b <= 191 -> 128 <= c <= 191 -> 2048 <= char3 a b c ->
  utf8_char (char3 a b c) = [a; b; c].
Proof.
  intros A B C G. unfold utf8_char. revert G. unfold char3, low6, continuation. intros G.
  do 2 rewrite (proj2 (N.ltb_ge _ _)) by dm. rewrite (proj2 (N.ltb_lt _ _)) by dm.
  f_equal; [dm|f_equal; [dm|f_equal; dm]].
Qed.
Lemma utf8_char4 a b c d : 240 <= a <= 244 -> 128 <= b <= 191 -> 128 <= c <= 191 -> 128 <= d <= 191 ->
  65536 <= char4 a b c d -> utf8_char (char4 a b c d) = [a; b; c; d].
Proof.
  intros A B C D G. unfold utf8_char. revert G. unfold char4, low6, continuation. intros G.
  do 3 rewrite (proj2 (N.ltb_ge _ _)) by dm.
  f_equal; [dm|f_equal; [dm|f_equal; [dm|f_equal; dm]]].
Qed.

(** What is accepted is the encoding of the result: no second spelling. *)
Lemma from_utf8_Some b : forall s, from_utf8 b = Some s -> as_bytes s = b /\ Forall scalar s.
Proof.
  induction b as [b IH] using (induction_ltof1 _ length). unfold ltof in IH.
  assert (R : forall c b' s, (length b' < length b)%nat -> scalar c -> b = utf8_char c ++ b' ->
    option_map (cons c) (from_utf8 b') = Some s -> as_bytes s = b /\ Forall scalar s).
  { intros c b' s L S E. destruct (from_utf8 b') as [s'|] eqn:F; [|done]. intros [= <-].
    destruct (IH b' L s' F) as [A V]. rewrite as_bytes_cons, A. split; [done|by constructor]. }
  intros s. destruct b as [|a b1]; [cbn; intros [= <-]; by split|].
  cbn [from_utf8]. destruct (N.ltb_spec a 128) as [L|L].
  { apply R; [cbn; lia|left; lia|]. unfold utf8_char. by rewrite (proj2 (N.ltb_lt _ _)). }
  destruct b1 as [|b2 b3]; [done|]. destruct (in_range 194 223 a) eqn:A2.
  { destruct (is_continuation b2) eqn:C2; [|done]. split_tests.
    apply R; [cbn; lia| |by rewrite utf8_char2]. left. unfold char2, low6. dm. }
  destruct b3 as [|b3 b4]; [done|]. destruct (in_range 224 239 a) eqn:A3.
  { destruct (_ && _ && _ && _) eqn:C; [|done]. split_tests. apply R; [cbn; lia|done|by rewrite utf8_char3]. }
  destruct b4 as [|b4 b5]; [done|]. destruct (_ && _ && _ && _ && _ && _) eqn:C; [|done]. split_tests.
  apply R; [cbn; lia|done|by rewrite utf8_char4].
Qed.

Lemma as_bytes_inj a b : Forall scalar a -> Forall scalar b -> as_bytes a = as_bytes b -> a = b.
Proof.
  intros A B E. apply (f_equal from_utf8) in E. rewrite !from_utf8_encoded in E by done. by injection E.
Qed.

(** ** Big-endian integers *)

(** [to_be_bytes] at a width of [w] bytes, and [from_be_bytes]. *)
Fixpoint to_be (w : nat) (n : N) : list N :=
  match w with
  | O => []
  | S w => to_be w (n / 256) ++ [n mod 256]
  end.
Definition from_be (l : list N) : N := fold_left (fun acc b => 256 * acc + b) l 0.

Lemma to_be_length w n : length (to_be w n) = w.
Proof. revert n. induction w as [|w IH]; intros n; [done|]. cbn. rewrite length_app, IH. cbn. lia. Qed.

Lemma to_be_bytes w n : Forall byte (to_be w n).
Proof.
  revert n. induction w as [|w IH]; intros n; cbn; [constructor|]. apply Forall_app_2; [done|].
  constructor; [unfold byte; dm|constructor].
Qed.

Lemma from_be_snoc l b : from_be (l ++ [b]) = 256 * from_be l + b.
Proof. unfold from_be. by rewrite fold_left_app. Qed.

Lemma from_to_be w n : n < 256 ^ N.of_nat w -> from_be (to_be w n) = n.
Proof.
  revert n. induction w as [|w IH]; intros n B.
  - cbn in *. unfold from_be. cbn. lia.
  - cbn [to_be]. rewrite from_be_snoc, IH; [dm|]. rewrite Nat2N.inj_succ, N.pow_succ_r' in B.
    apply N.Div0.div_lt_upper_bound. lia.
Qed.

Lemma from_be_bound l : Forall byte l -> from_be l < 256 ^ N.of_nat (length l).
Proof.
  induction l as [|b l IH] using rev_ind; intros F; [done|]. apply Forall_app in F as [F B].
  apply Forall_cons in B as [B _]. specialize (IH F). unfold byte in B. rewrite from_be_snoc, length_app. cbn [length].
  rewrite Nat.add_1_r, Nat2N.inj_succ, N.pow_succ_r'. lia.
Qed.

Lemma to_from_be l : Forall byte l -> to_be (length l) (from_be l) = l.
Proof.
  induction l as [|b l IH] using rev_ind; intros F; [done|]. apply Forall_app in F as [F B].
  apply Forall_cons in B as [B _]. unfold byte in B. rewrite length_app, Nat.add_1_r. cbn [to_be].
  rewrite from_be_snoc. replace ((256 * from_be l + b) / 256) with (from_be l) by dm.
  rewrite IH by done. do 2 f_equal. dm.
Qed.
