(* ===== verification/VsockCodec.v ===== *)
(** * Host/guest vsock frames

    [crates/velnor-model/src/vsock_protocol.rs]: the typed messages between the
    host and the guest of a microVM, their frames (version, kind, length,
    payload, checksum), the reading of frames from a stream and the nonce that
    binds a plan to a session. [JobConclusion] is from [job_summary.rs].

    A reader is the list of the bytes it will deliver. SHA-256 is the class
    [Sha256], whose law is the size of a digest. *)

From Stdlib Require Import ZArith Lia Ascii.
From stdpp Require Import base list strings sets.
From S2P Require Import Prelude ExprText TextOps Utf8.
#[local] Open Scope N_scope.
#[local] Open Scope result_scope.

Definition PROTOCOL_VERSION : N := 8.
Definition MAX_PAYLOAD_BYTES : N := 1024 * 1024.
Definition STDOUT_STREAM : N := 1.
Definition STDERR_STREAM : N := 2.
Definition HEADER_LEN : N := 8.
Definition CHECKSUM_LEN : N := 32.

Class Sha256 := sha256 : list N -> list N.
Class Sha256Laws `{Sha256} := {
  sha256_length : forall b, length (sha256 b) = 32%nat;
  sha256_bytes : forall b, Forall byte (sha256 b);
}.

Inductive JobConclusion : Type :=
| Success | Failure | Cancelled | Neutral | Skipped | TimedOut | StartupFailure | ActionRequired | Stale.

Definition conclusion_as_str (c : JobConclusion) : text :=
  match c with
  | Success => txt "success"
  | Failure => txt "failure"
  | Cancelled => txt "cancelled"
  | Neutral => txt "neutral"
  | Skipped => txt "skipped"
  | TimedOut => txt "timed_out"
  | StartupFailure => txt "startup_failure"
  | ActionRequired => txt "action_required"
  | Stale => txt "stale"
  end.
Definition conclusion_try_from (raw : text) : option JobConclusion :=
  if bool_decide (raw = txt "success") then Some Success
  else if bool_decide (raw = txt "failure") then Some Failure
  else if bool_decide (raw = txt "cancelled") then Some Cancelled
  else if bool_decide (raw = txt "neutral") then Some Neutral
  else if bool_decide (raw = txt "skipped") then Some Skipped
  else if bool_decide (raw = txt "timed_out") then Some TimedOut
  else if bool_decide (raw = txt "startup_failure") then Some StartupFailure
  else if bool_decide (raw = txt "action_required") then Some ActionRequired
  else if bool_decide (raw = txt "stale") then Some Stale
  else None.

Inductive VsockMessage : Type :=
| GuestIdentity (isolation_id : text) (generation : N) (restored : bool)
| GuestReady (isolation_id : text) (generation : N) (docker_healthy job_credentials_absent : bool)
    (session_challenge : text)
| DeliverPlan (job_id isolation_id : text) (generation : N) (execution_nonce plan_sha256 : text)
    (plan_bytes : list N)
| ImportBlob (digest_sha256 : text) (bytes : list N)
| StepStarted (step_id : text)
| StepCompleted (step_id : text) (exit_code : Z) (skipped : bool)
| Stdio (stream : N) (bytes : list N)
| CommandFile (path : text) (bytes : list N)
| Annotation (message : text)
| Cancel
| PrepareSnapshot
| SnapshotReady
| Telemetry (cpu_millis memory_bytes : N)
| ResultExport (digest_sha256 : text) (bytes : list N)
| TeardownAck (job_id isolation_id : text) (generation : N) (execution_nonce plan_sha256 : text)
| JobCompleted (conclusion : JobConclusion) (exit_code : Z).

Inductive VsockCodecError : Type :=
| Truncated (len : N)
| VersionMismatch (version : N)
| PayloadTooLarge (len : N)
| ChecksumMismatch
| UnknownKind (kind : N)
| InvalidUtf8
| TrailingBytes (len : N)
| Io (detail : text)
| InvalidConclusion (value : text)
| InvalidStream (value : N)
| InvalidBoolean (value : N).

Definition len (l : list N) : N := N.of_nat (length l).
Definition codec (A : Type) : Type := result A VsockCodecError.

Definition kind (m : VsockMessage) : N :=
  match m with
  | GuestIdentity _ _ _ => 14
  | GuestReady _ _ _ _ _ => 1
  | DeliverPlan _ _ _ _ _ _ => 2
  | ImportBlob _ _ => 3
  | StepStarted _ => 4
  | StepCompleted _ _ _ => 5
  | Stdio _ _ => 6
  | CommandFile _ _ => 7
  | Annotation _ => 8
  | Cancel => 9
  | Telemetry _ _ => 10
  | ResultExport _ _ => 11
  | TeardownAck _ _ _ _ _ => 12
  | JobCompleted _ _ => 13
  | PrepareSnapshot => 15
  | SnapshotReady => 16
  end.

(** ** Fields *)

Definition write_bytes (out value : list N) : codec (list N) :=
  if 2 ^ 32 <=? len value then Err (PayloadTooLarge (len value))
  else Ok (out ++ to_be 4 (len value) ++ value).
Definition write_string (out : list N) (value : text) : codec (list N) := write_bytes out (as_bytes value).
Definition write_u64 (out : list N) (value : N) : list N := out ++ to_be 8 value.
(** [i32::to_be_bytes]: two's complement. *)
Definition write_i32 (out : list N) (value : Z) : list N := out ++ to_be 4 (Z.to_N (value mod 2 ^ 32)).
Definition write_bool (out : list N) (value : bool) : list N := out ++ [if value then 1 else 0].
Definition write_u8 (out : list N) (value : N) : list N := out ++ [value].

(** A read takes its bytes off the front. *)
Definition read (A : Type) : Type := list N -> codec (A * list N).

Definition read_be (w : nat) : read N := fun cur =>
  if len cur <? N.of_nat w then Err (Truncated (len cur)) else Ok (from_be (take w cur), drop w cur).
Definition read_u32 : read N := read_be 4.
Definition read_u64 : read N := read_be 8.
Definition read_i32 : read Z := fun cur =>
  let? '(value, cur) := read_be 4 cur in
  Ok (if value <? 2 ^ 31 then Z.of_N value else (Z.of_N value - 2 ^ 32)%Z, cur).
Definition read_bytes : read (list N) := fun cur =>
  let? '(n, cur) := read_u32 cur in
  if len cur <? n then Err (Truncated (len cur))
  else Ok (take (N.to_nat n) cur, drop (N.to_nat n) cur).
Definition read_string : read text := fun cur =>
  let? '(bytes, cur) := read_bytes cur in
  match from_utf8 bytes with Some value => Ok (value, cur) | None => Err InvalidUtf8 end.
Definition read_u8 : read N := fun cur =>
  match cur with [] => Err (Truncated 0) | value :: cur => Ok (value, cur) end.
Definition read_bool : read bool := fun cur =>
  let? '(value, cur) := read_u8 cur in
  if value =? 0 then Ok (false, cur) else if value =? 1 then Ok (true, cur) else Err (InvalidBoolean value).

(** ** Payloads *)

Definition encode_payload (m : VsockMessage) : codec (list N) :=
  match m with
  | GuestIdentity isolation_id generation restored =>
      let? out := write_string [] isolation_id in
      Ok (write_bool (write_u64 out generation) restored)
  | GuestReady isolation_id generation docker_healthy job_credentials_absent session_challenge =>
      let? out := write_string [] isolation_id in
      write_string (write_bool (write_bool (write_u64 out generation) docker_healthy) job_credentials_absent)
        session_challenge
  | DeliverPlan job_id isolation_id generation execution_nonce plan_sha256 plan_bytes =>
      let? out := write_string [] job_id in
      let? out := write_string out isolation_id in
      let? out := write_string (write_u64 out generation) execution_nonce in
      let? out := write_string out plan_sha256 in
      write_bytes out plan_bytes
  | ImportBlob digest_sha256 bytes =>
      let? out := write_string [] digest_sha256 in write_bytes out bytes
  | StepStarted step_id => write_string [] step_id
  | StepCompleted step_id exit_code skipped =>
      let? out := write_string [] step_id in
      Ok (write_bool (write_i32 out exit_code) skipped)
  | Stdio stream bytes => write_bytes (write_u8 [] stream) bytes
  | CommandFile path bytes =>
      let? out := write_string [] path in write_bytes out bytes
  | Annotation message => write_string [] message
  | Cancel => Ok []
  | Telemetry cpu_millis memory_bytes => Ok (write_u64 (write_u64 [] cpu_millis) memory_bytes)
  | ResultExport digest_sha256 bytes =>
      let? out := write_string [] digest_sha256 in write_bytes out bytes
  | TeardownAck job_id isolation_id generation execution_nonce plan_sha256 =>
      let? out := write_string [] job_id in
      let? out := write_string out isolation_id in
      let? out := write_string (write_u64 out generation) execution_nonce in
      write_string out plan_sha256
  | JobCompleted conclusion exit_code =>
      let? out := write_string [] (conclusion_as_str conclusion) in
      Ok (write_i32 out exit_code)
  | PrepareSnapshot | SnapshotReady => Ok []
  end.

(** The fields of a message of a kind. *)
Definition decode_fields (kind : N) : read VsockMessage := fun cur =>
  if kind =? 14 then
    let? '(isolation_id, cur) := read_string cur in
    let? '(generation, cur) := read_u64 cur in
    let? '(restored, cur) := read_bool cur in
    Ok (GuestIdentity isolation_id generation restored, cur)
  else if kind =? 1 then
    let? '(isolation_id, cur) := read_string cur in
    let? '(generation, cur) := read_u64 cur in
    let? '(docker_healthy, cur) := read_bool cur in
    let? '(job_credentials_absent, cur) := read_bool cur in
    let? '(session_challenge, cur) := read_string cur in
    Ok (GuestReady isolation_id generation docker_healthy job_credentials_absent session_challenge, cur)
  else if kind =? 2 then
    let? '(job_id, cur) := read_string cur in
    let? '(isolation_id, cur) := read_string cur in
    let? '(generation, cur) := read_u64 cur in
    let? '(execution_nonce, cur) := read_string cur in
    let? '(plan_sha256, cur) := read_string cur in
    let? '(plan_bytes, cur) := read_bytes cur in
    Ok (DeliverPlan job_id isolation_id generation execution_nonce plan_sha256 plan_bytes, cur)
  else if kind =? 3 then
    let? '(digest_sha256, cur) := read_string cur in
    let? '(bytes, cur) := read_bytes cur in
    Ok (ImportBlob digest_sha256 bytes, cur)
  else if kind =? 4 then
    let? '(step_id, cur) := read_string cur in Ok (StepStarted step_id, cur)
  else if kind =? 5 then
    let? '(step_id, cur) := read_string cur in
    let? '(exit_code, cur) := read_i32 cur in
    let? '(skipped, cur) := read_bool cur in
    Ok (StepCompleted step_id exit_code skipped, cur)
  else if kind =? 6 then
    let? '(stream, cur) := read_u8 cur in
    if negb (stream =? STDOUT_STREAM) && negb (stream =? STDERR_STREAM) then Err (InvalidStream stream)
    else
    let? '(bytes, cur) := read_bytes cur in
    Ok (Stdio stream bytes, cur)
  else if kind =? 7 then
    let? '(path, cur) := read_string cur in
    let? '(bytes, cur) := read_bytes cur in
    Ok (CommandFile path bytes, cur)
  else if kind =? 8 then
    let? '(message, cur) := read_string cur in Ok (Annotation message, cur)
  else if kind =? 9 then Ok (Cancel, cur)
  else if kind =? 10 then
    let? '(cpu_millis, cur) := read_u64 cur in
    let? '(memory_bytes, cur) := read_u64 cur in
    Ok (Telemetry cpu_millis memory_bytes, cur)
  else if kind =? 11 then
    let? '(digest_sha256, cur) := read_string cur in
    let? '(bytes, cur) := read_bytes cur in
    Ok (ResultExport digest_sha256 bytes, cur)
  else if kind =? 12 then
    let? '(job_id, cur) := read_string cur in
    let? '(isolation_id, cur) := read_string cur in
    let? '(generation, cur) := read_u64 cur in
    let? '(execution_nonce, cur) := read_string cur in
    let? '(plan_sha256, cur) := read_string cur in
    Ok (TeardownAck job_id isolation_id generation execution_nonce plan_sha256, cur)
  else if kind =? 13 then
    let? '(raw, cur) := read_string cur in
    match conclusion_try_from raw with
    | None => Err (InvalidConclusion raw)
    | Some conclusion =>
        let? '(exit_code, cur) := read_i32 cur in
        Ok (JobCompleted conclusion exit_code, cur)
    end
  else if kind =? 15 then Ok (PrepareSnapshot, cur)
  else if kind =? 16 then Ok (SnapshotReady, cur)
  else Err (UnknownKind kind).

Definition decode_payload (kind : N) (payload : list N) : codec VsockMessage :=
  let? '(message, cur) := decode_fields kind payload in
  if bool_decide (cur = []) then Ok message else Err (TrailingBytes (len cur)).

(** ** Frames *)

Definition slice (from to : N) (l : list N) : list N := take (N.to_nat (to - from)) (drop (N.to_nat from) l).

Section Frames.
Context `{Sha256}.

Definition encode (m : VsockMessage) : codec (list N) :=
  let? payload := encode_payload m in
  if MAX_PAYLOAD_BYTES <? len payload then Err (PayloadTooLarge (len payload))
  else
  let frame := to_be 2 PROTOCOL_VERSION ++ to_be 2 (kind m) ++ to_be 4 (len payload) ++ payload in
  Ok (frame ++ sha256 frame).

Definition decode (bytes : list N) : codec VsockMessage :=
  if len bytes <? HEADER_LEN + CHECKSUM_LEN then Err (Truncated (len bytes))
  else
  let version := from_be (slice 0 2 bytes) in
  if negb (version =? PROTOCOL_VERSION) then Err (VersionMismatch version)
  else
  let kind := from_be (slice 2 4 bytes) in
  let payload_len := from_be (slice 4 8 bytes) in
  if MAX_PAYLOAD_BYTES <? payload_len then Err (PayloadTooLarge payload_len)
  else
  let payload_end := HEADER_LEN + payload_len in
  let checksum_end := payload_end + CHECKSUM_LEN in
  if negb (len bytes =? checksum_end) then Err (Truncated (len bytes))
  else if negb (bool_decide (sha256 (slice 0 payload_end bytes) = slice payload_end checksum_end bytes))
  then Err ChecksumMismatch
  else decode_payload kind (slice HEADER_LEN payload_end bytes).

(** [Write::write_all] and [Read::read_exact]. *)
Definition write_to (m : VsockMessage) (writer : list N) : codec (list N) :=
  let? bytes := encode m in Ok (writer ++ bytes).

Definition read_exact (n : N) (reader : list N) : codec (list N * list N) :=
  if len reader <? n then Err (Io (txt "failed to fill whole buffer"))
  else Ok (take (N.to_nat n) reader, drop (N.to_nat n) reader).

Definition read_from : read VsockMessage := fun reader =>
  let? '(header, reader) := read_exact HEADER_LEN reader in
  let payload_len := from_be (slice 4 8 header) in
  if MAX_PAYLOAD_BYTES <? payload_len then Err (PayloadTooLarge payload_len)
  else
  let? '(rest, reader) := read_exact (payload_len + CHECKSUM_LEN) reader in
  let? message := decode (header ++ rest) in
  Ok (message, reader).

(** ** The nonce of a plan *)

Definition hex_digit (n : N) : char := if n <? 10 then 48 + n else 87 + n.
Definition hex_lower (bytes : list N) : text := flat_map (fun b => [hex_digit (b / 16); hex_digit (b mod 16)]) bytes.

Definition nonce_preimage (session_challenge job_id isolation_id : text) (generation : N) (plan_sha256 : text)
    : list N :=
  as_bytes (txt "velnor-vsock-execution-nonce-v1" ++ [0]) ++
  flat_map (fun value => to_be 8 (len (as_bytes value)) ++ as_bytes value)
    [session_challenge; job_id; isolation_id; plan_sha256] ++
  to_be 8 generation.

Definition derive_execution_nonce (session_challenge job_id isolation_id : text) (generation : N)
    (plan_sha256 : text) : text :=
  hex_lower (sha256 (nonce_preimage session_challenge job_id isolation_id generation plan_sha256)).

End Frames.
