(* ===== verification/VsockProofs.v ===== *)
(** * Frames and messages are the same thing

    The decoder of [VsockCodec] accepts exactly the frames the encoder writes,
    with one frame per message; streams of frames read back; the nonce of a
    plan determines what it was derived from unless SHA-256 collides. *)

From Stdlib Require Import ZArith Lia Ascii.
From stdpp Require Import base list strings sets.
From S2P Require Import Prelude ExprText TextOps Utf8 VsockCodec.
#[local] Open Scope N_scope.
#[local] Open Scope result_scope.

(** ** Fields

    [reads r ok enc]: on bytes, [r] reads exactly the encodings of the values
    that satisfy [ok]. *)

Definition field {A} (r : read A) (ok : A -> Prop) (enc : A -> list N) : Prop :=
  (forall v rest, ok v -> r (enc v ++ rest) = Ok (v, rest)) /\
  (forall cur v rest, Forall byte cur -> r cur = Ok (v, rest) -> ok v /\ cur = enc v ++ rest).

Definition enc_bytes (v : list N) : list N := to_be 4 (len v) ++ v.
Definition enc_string (s : text) : list N := enc_bytes (as_bytes s).
Definition enc_i32 (z : Z) : list N := to_be 4 (Z.to_N (z mod 2 ^ 32)).
Definition enc_bool (b : bool) : list N := [if b then 1 else 0].

Definition u32_sized (v : list N) : Prop := len v < 2 ^ 32.
Definition bytes_ok (v : list N) : Prop := Forall byte v /\ u32_sized v.
Definition string_ok (s : text) : Prop := Forall scalar s /\ u32_sized (as_bytes s).
Definition i32_ok (z : Z) : Prop := (- 2 ^ 31 <= z < 2 ^ 31)%Z.

Lemma len_app a b : len (a ++ b) = len a + len b.
Proof. unfold len. rewrite length_app. lia. Qed.
Lemma take_len_app a b : take (N.to_nat (len a)) (a ++ b) = a.
Proof. unfold len. rewrite Nat2N.id. apply take_app_length. Qed.
Lemma drop_len_app a b : drop (N.to_nat (len a)) (a ++ b) = b.
Proof. unfold len. rewrite Nat2N.id. apply drop_app_length. Qed.

Lemma be_field w : field (read_be w) (fun n => n < 256 ^ N.of_nat w) (to_be w).
Proof.
  split.
  - intros v rest V. unfold read_be. rewrite len_app, (proj2 (N.ltb_ge _ _)).
    2: { unfold len. rewrite to_be_length. lia. }
    rewrite <- (to_be_length w v) at 1 3. by rewrite take_app_length, drop_app_length, from_to_be.
  - intros cur v rest B. unfold read_be. destruct (N.ltb_spec (len cur) (N.of_nat w)) as [|L]; [done|].
    intros [= <- <-]. unfold len in L.
    assert (W : length (take w cur) = w) by (rewrite length_take; lia).
    assert (F : Forall byte (take w cur)) by by apply Forall_take.
    pose proof (from_be_bound _ F) as D. pose proof (to_from_be _ F) as T. rewrite W in D, T.
    split; [done|]. by rewrite T, take_drop.
Qed.

Lemma i32_field : field read_i32 i32_ok enc_i32.
Proof.
  destruct (be_field 4) as [E D]. split; unfold read_i32, i32_ok, enc_i32.
  - intros v rest V. rewrite E. 2: { change (256 ^ N.of_nat 4) with (2 ^ 32). dm. }
    cbn [result_bind]. do 2 f_equal. destruct (N.ltb_spec (Z.to_N (v mod 2 ^ 32)) (2 ^ 31)); dm.
  - intros cur v rest B. destruct (read_be 4 cur) as [[n cur']|] eqn:R; [|done]. cbn [result_bind].
    apply D in R as [M ->]; [|done]. change (256 ^ N.of_nat 4) with (2 ^ 32) in M. intros [= <- <-].
    destruct (N.ltb_spec n (2 ^ 31)); (split; [dm|]); do 2 f_equal; dm.
Qed.

Lemma u8_field : field read_u8 (fun b => b < 256) (fun b => [b]).
Proof.
  split; [done|]. intros [|b cur] v rest B; [done|]. cbn. apply Forall_cons in B as [B _]. by intros [= <- <-].
Qed.

Lemma bool_field : field read_bool (fun _ => True) enc_bool.
Proof.
  split; [by intros [] ? _|]. intros [|b cur] v rest B; [done|]. unfold read_bool. cbn [read_u8 result_bind].
  destruct (N.eqb_spec b 0) as [->|]; [by intros [= <- <-]|].
  destruct (N.eqb_spec b 1) as [->|]; [by intros [= <- <-]|]. done.
Qed.

Lemma bytes_field : field read_bytes bytes_ok enc_bytes.
Proof.
  destruct (be_field 4) as [E D]. change (256 ^ N.of_nat 4) with (2 ^ 32) in *. split; unfold read_bytes, read_u32, enc_bytes.
  - intros v rest [_ V]. rewrite <- app_assoc, E by done. cbn [result_bind].
    rewrite len_app, (proj2 (N.ltb_ge _ _)) by lia. by rewrite take_len_app, drop_len_app.
  - intros cur v rest B. destruct (read_be 4 cur) as [[n cur']|] eqn:R; [|done]. cbn [result_bind].
    apply D in R as [M ->]; [|done]. destruct (N.ltb_spec (len cur') n) as [|L]; [done|]. intros [= <- <-].
    apply Forall_app in B as [_ B].
    assert (W : len (take (N.to_nat n) cur') = n). { unfold len in *. rewrite length_take. lia. }
    split; [split; [by apply Forall_take|unfold u32_sized; by rewrite W]|].
    by rewrite W, <- app_assoc, take_drop.
Qed.

Lemma string_field : field read_string string_ok enc_string.
Proof.
  destruct bytes_field as [E D]. split; unfold read_string, enc_string.
  - intros v rest [S V]. rewrite E by (split; [by apply as_bytes_bytes|done]). cbn [result_bind].
    by rewrite from_utf8_encoded.
  - intros cur v rest B. destruct (read_bytes cur) as [[b cur']|] eqn:R; [|done]. cbn [result_bind].
    apply D in R as [M ->]; [|done]. destruct (from_utf8 b) as [s|] eqn:U; [|done]. intros [= <- <-].
    apply from_utf8_Some in U as [<- U]. split; [|done]. split; [done|apply M].
Qed.

Lemma u64_field : field read_u64 (fun n => n < 2 ^ 64) (to_be 8).
Proof. exact (be_field 8). Qed.

(** Reading the last field. *)
Lemma field_last {A} (r : read A) ok enc v : field r ok enc -> ok v -> r (enc v) = Ok (v, []).
Proof. intros [E _] V. rewrite <- (app_nil_r (enc v)). by apply E. Qed.

Lemma write_bytes_ok out v : u32_sized v -> write_bytes out v = Ok (out ++ enc_bytes v).
Proof. intros S. unfold write_bytes. by rewrite (proj2 (N.leb_gt _ _)). Qed.
Lemma write_string_ok out v : u32_sized (as_bytes v) -> write_string out v = Ok (out ++ enc_string v).
Proof. apply write_bytes_ok. Qed.
Lemma write_bytes_Ok out v o : write_bytes out v = Ok o -> u32_sized v /\ o = out ++ enc_bytes v.
Proof. unfold write_bytes. destruct (N.leb_spec (2 ^ 32) (len v)); [done|]. by intros [= <-]. Qed.
Lemma write_string_Ok out v o : write_string out v = Ok o -> u32_sized (as_bytes v) /\ o = out ++ enc_string v.
Proof. apply write_bytes_Ok. Qed.

Lemma conclusion_round_trip c : conclusion_try_from (conclusion_as_str c) = Some c.
Proof. by destruct c. Qed.
Lemma conclusion_canonical raw c : conclusion_try_from raw = Some c -> conclusion_as_str c = raw.
Proof. unfold conclusion_try_from. repeat (case_bool_decide; [by intros [= <-]|]). done. Qed.
Lemma conclusion_string_ok c : string_ok (conclusion_as_str c).
Proof.
  split; [|destruct c; vm_compute; reflexivity].
  apply (bool_decide_unpack _). destruct c; vm_compute; exact I.
Qed.

(** ** Payloads *)

(** A message the guest and the host can exchange: what Rust's types say of its
    fields, and a known stream. *)
Definition sendable (m : VsockMessage) : Prop :=
  match m with
  | GuestIdentity i g _ => Forall scalar i /\ g < 2 ^ 64
  | GuestReady i g _ _ c => Forall scalar i /\ g < 2 ^ 64 /\ Forall scalar c
  | DeliverPlan j i g n p b =>
      Forall scalar j /\ Forall scalar i /\ g < 2 ^ 64 /\ Forall scalar n /\ Forall scalar p /\ Forall byte b
  | ImportBlob d b | ResultExport d b | CommandFile d b => Forall scalar d /\ Forall byte b
  | StepStarted s | Annotation s => Forall scalar s
  | StepCompleted s e _ => Forall scalar s /\ i32_ok e
  | Stdio s b => (s = STDOUT_STREAM \/ s = STDERR_STREAM) /\ Forall byte b
  | Cancel | PrepareSnapshot | SnapshotReady => True
  | Telemetry c m => c < 2 ^ 64 /\ m < 2 ^ 64
  | TeardownAck j i g n p =>
      Forall scalar j /\ Forall scalar i /\ g < 2 ^ 64 /\ Forall scalar n /\ Forall scalar p
  | JobCompleted _ e => i32_ok e
  end.

Ltac take_field :=
  match goal with
  | H : (let? _ := ?r ?cur in _) = Ok _ |- _ =>
      let f := lazymatch r with
        | read_string => string_field | read_bytes => bytes_field | read_u64 => u64_field
        | read_bool => bool_field | read_i32 => i32_field | read_u8 => u8_field end in
      let v := fresh "v" in let c := fresh "cur" in let E := fresh "E" in let O := fresh "O" in
      destruct (r cur) as [[v c]|] eqn:E; [|discriminate H]; cbn [result_bind] in H;
      apply (proj2 f) in E as [O ->]; [|assumption];
      match goal with B : Forall byte (_ ++ c) |- _ => apply Forall_app in B as [_ B] end
  end.

(** Everything that is decoded is the encoding of what it decodes to. *)
Lemma decode_payload_sound k payload m : Forall byte payload -> decode_payload k payload = Ok m ->
  sendable m /\ kind m = k /\ encode_payload m = Ok payload.
Proof.
  intros B. unfold decode_payload. destruct (decode_fields k payload) as [[m' cur]|] eqn:D; [|done].
  cbn [result_bind]. case_bool_decide; [|done]. intros [= <-]. subst cur. revert D. unfold decode_fields.
  repeat (match goal with |- (if ?k =? ?n then _ else _) = _ -> _ => destruct (N.eqb_spec k n) as [->|_] end);
    intros D; [..|done].
  all: repeat take_field.
  all: repeat match type of D with
    | (if ?b then _ else _) = _ => destruct b eqn:?; [discriminate D|]
    | match ?x with _ => _ end = _ => destruct x eqn:?; [|discriminate D]
    end; repeat take_field; injection D as <- ->.
  all: repeat match goal with
    | H : string_ok _ |- _ => destruct H
    | H : bytes_ok _ |- _ => destruct H
    | H : conclusion_try_from _ = Some _ |- _ => apply conclusion_canonical in H; subst
    | H : negb _ && negb _ = false |- _ => rewrite <- negb_orb, negb_false_iff, orb_true_iff, !N.eqb_eq in H
    end; (split; [cbn [sendable]; tauto|]); (split; [done|]); cbn [encode_payload];
    unfold write_u64, write_i32, write_bool, write_u8;
    repeat ((rewrite write_string_ok by done) || (rewrite write_bytes_ok by done); cbn [result_bind]);
    unfold enc_bool, enc_i32; cbn [app]; rewrite <- ?app_assoc, ?app_nil_r; reflexivity.
Qed.

Lemma read_bool_bit (b : bool) rest : read_bool ((if b then 1 else 0) :: rest) = Ok (b, rest).
Proof. by destruct b. Qed.

Ltac put_field H :=
  match type of H with
  | (let? _ := write_string ?o ?v in _) = Ok _ =>
      let o' := fresh "o" in let E := fresh "E" in
      destruct (write_string o v) as [o'|] eqn:E; [|discriminate H]; cbn [result_bind] in H;
      apply write_string_Ok in E as [? ->]
  | write_string _ _ = Ok _ => apply write_string_Ok in H as [? ->]
  | write_bytes _ _ = Ok _ => apply write_bytes_Ok in H as [? ->]
  end.

Ltac get_field :=
  first
    [ rewrite (proj1 string_field) by (split; assumption) | rewrite (field_last _ _ _ _ string_field) by (split; assumption)
    | rewrite (proj1 bytes_field) by (split; assumption) | rewrite (field_last _ _ _ _ bytes_field) by (split; assumption)
    | rewrite (proj1 u64_field) by assumption | rewrite (field_last _ _ _ _ u64_field) by assumption
    | rewrite (proj1 i32_field) by assumption | rewrite (field_last _ _ _ _ i32_field) by assumption
    | rewrite read_bool_bit
    | rewrite (proj1 string_field) by apply conclusion_string_ok ]; cbn [result_bind].

(** Every payload that is written is decoded to its message. *)
Lemma decode_payload_complete m payload : sendable m -> encode_payload m = Ok payload ->
  decode_payload (kind m) payload = Ok m.
Proof.
  intros S E. destruct m; cbn [sendable encode_payload kind] in *; repeat put_field E;
    repeat match goal with H : _ /\ _ |- _ => destruct H end; try (injection E as <-);
    unfold write_u64, write_i32, write_bool, write_u8; rewrite <- ?app_assoc; cbn [app];
    unfold decode_payload, decode_fields; cbn [N.eqb Pos.eqb];
    repeat change (to_be 4 (Z.to_N (?z mod 2 ^ 32))) with (enc_i32 z);
    repeat get_field; try done.
  - cbn [read_u8 result_bind].
    replace (negb (stream =? STDOUT_STREAM) && negb (stream =? STDERR_STREAM)) with false
      by (match goal with H : stream = _ \/ stream = _ |- _ => by destruct H as [-> | ->] end).
    repeat get_field. done.
  - by rewrite conclusion_round_trip.
Qed.

(** ** Frames *)

Section Frames.
Context `{Sha256Laws}.

Lemma slice_0 n l rest : len l = n -> slice 0 n (l ++ rest) = l.
Proof. intros <-. unfold slice. rewrite N.sub_0_r. apply take_len_app. Qed.
Lemma slice_skip a n m l rest : len l = a -> n = a + m -> slice a n (l ++ rest) = slice 0 m rest.
Proof.
  intros <- ->. unfold slice. rewrite drop_len_app. f_equal. lia.
Qed.

Lemma slice_app a b l : a <= b -> b <= len l -> slice a b l ++ drop (N.to_nat b) l = drop (N.to_nat a) l.
Proof.
  intros A B. unfold slice, len in *. rewrite <- (take_drop (N.to_nat (b - a)) (drop (N.to_nat a) l)) at 2.
  rewrite drop_drop. do 2 f_equal. lia.
Qed.
Lemma slice_len a b l : a <= b -> b <= len l -> len (slice a b l) = b - a.
Proof. intros A B. unfold slice, len in *. rewrite length_take, length_drop. lia. Qed.
Lemma slice_bytes a b l : Forall byte l -> Forall byte (slice a b l).
Proof. intros B. by apply Forall_take, Forall_drop. Qed.
Lemma slice_to_be a b w l : Forall byte l -> a <= b -> b <= len l -> N.to_nat (b - a) = w ->
  to_be w (from_be (slice a b l)) = slice a b l.
Proof.
  intros B A L <-. pose proof (slice_len a b l A L) as S. unfold len in S at 1.
  replace (N.to_nat (b - a)) with (length (slice a b l)) by lia. by apply to_from_be, slice_bytes.
Qed.

(** The header and the payload of a frame. *)
Definition frame_body (k : N) (payload : list N) : list N :=
  to_be 2 PROTOCOL_VERSION ++ to_be 2 k ++ to_be 4 (len payload) ++ payload.

Lemma frame_body_len k payload : len (frame_body k payload) = HEADER_LEN + len payload.
Proof. unfold frame_body. rewrite !len_app. unfold len, HEADER_LEN. rewrite !to_be_length. lia. Qed.

Lemma decode_frame k payload : k < 2 ^ 16 -> len payload <= MAX_PAYLOAD_BYTES ->
  decode (frame_body k payload ++ sha256 (frame_body k payload)) = decode_payload k payload.
Proof.
  intros K P. unfold decode. pose proof (frame_body_len k payload) as L. set (body := frame_body k payload) in *.
  assert (S : len (sha256 body) = CHECKSUM_LEN) by (unfold len; by rewrite sha256_length).
  rewrite len_app, L, S. unfold HEADER_LEN, CHECKSUM_LEN in *.
  rewrite (proj2 (N.ltb_ge _ _)) by lia.
  assert (V : slice 0 2 (body ++ sha256 body) = to_be 2 PROTOCOL_VERSION).
  { unfold body, frame_body. rewrite <- app_assoc. by apply slice_0. }
  assert (Kd : slice 2 4 (body ++ sha256 body) = to_be 2 k).
  { unfold body, frame_body. rewrite <- !app_assoc. rewrite (slice_skip 2 4 2); [|done|done]. apply slice_0.
    unfold len. by rewrite to_be_length. }
  assert (Ln : slice 4 8 (body ++ sha256 body) = to_be 4 (len payload)).
  { unfold body, frame_body. rewrite <- !app_assoc. rewrite (app_assoc _ (to_be 2 k)).
    rewrite (slice_skip 4 8 4); [|rewrite len_app; unfold len; by rewrite !to_be_length|done]. apply slice_0.
    unfold len. by rewrite to_be_length. }
  assert (Pl : slice 8 (8 + len payload) (body ++ sha256 body) = payload).
  { unfold body, frame_body. rewrite <- !app_assoc. rewrite 2!(app_assoc _ _ (payload ++ _)).
    rewrite (slice_skip 8 _ (len payload)); [by apply slice_0| |done].
    rewrite !len_app. unfold len. by rewrite !to_be_length. }
  rewrite V, Kd, Ln.
  rewrite !from_to_be by (change (256 ^ N.of_nat 2) with (2 ^ 16); change (256 ^ N.of_nat 4) with (2 ^ 32);
    unfold MAX_PAYLOAD_BYTES, PROTOCOL_VERSION in *; lia).
  rewrite Pl.
  rewrite N.eqb_refl. cbn [negb]. rewrite (proj2 (N.ltb_ge _ _)) by done.
  rewrite N.eqb_refl. cbn [negb].
  rewrite bool_decide_true; [done|]. rewrite (slice_0 _ body), (slice_skip _ _ 32 body) by done.
  rewrite <- (app_nil_r (sha256 body)) at 2. by rewrite slice_0.
Qed.

Lemma kind_bound m : kind m < 2 ^ 16.
Proof. by destruct m. Qed.

(** A decoded frame is the body of its message and the checksum. *)
Lemma decode_sound frame m : Forall byte frame -> decode frame = Ok m -> sendable m /\ encode m = Ok frame.
Proof.
  intros B. unfold decode. destruct (N.ltb_spec (len frame) (HEADER_LEN + CHECKSUM_LEN)) as [|L]; [done|].
  unfold HEADER_LEN, CHECKSUM_LEN in *.
  destruct (N.eqb_spec (from_be (slice 0 2 frame)) PROTOCOL_VERSION) as [V|]; [|done]. cbn [negb].
  destruct (N.ltb_spec MAX_PAYLOAD_BYTES (from_be (slice 4 8 frame))) as [|P]; [done|].
  set (n := from_be (slice 4 8 frame)) in *.
  destruct (N.eqb_spec (len frame) (8 + n + 32)) as [T|]; [|done]. cbn [negb].
  case_bool_decide as C; [|done]. cbn [negb]. intros D.
  apply decode_payload_sound in D as (S & K & E); [|by apply slice_bytes]. split; [done|].
  unfold encode. rewrite E. cbn [result_bind]. rewrite slice_len by lia.
  replace (8 + n - 8) with n by lia. rewrite (proj2 (N.ltb_ge _ _)) by done. f_equal.
  assert (F : to_be 2 PROTOCOL_VERSION ++ to_be 2 (kind m) ++ to_be 4 n ++ slice 8 (8 + n) frame = slice 0 (8 + n) frame).
  { rewrite <- V, K. subst n. rewrite !slice_to_be by (done || lia).
    assert (A : forall x y, x = y -> slice 0 x frame = slice 0 y frame) by by intros ? ? ->.
    assert (G : forall a b c, a <= b -> b <= c -> c <= len frame -> slice a b frame ++ slice b c frame = slice a c frame).
    { intros a b c X Y Z. unfold slice. replace (N.to_nat (c - a)) with (N.to_nat (b - a) + N.to_nat (c - b))%nat by lia.
      rewrite <- take_take_drop, drop_drop. do 3 f_equal. lia. }
    rewrite !G by lia. done. }
  rewrite F, C. rewrite <- (take_drop (N.to_nat (8 + n)) frame) at 3. f_equal; [unfold slice; by rewrite N.sub_0_r|].
  unfold slice. rewrite take_ge; [done|]. rewrite length_drop. unfold len in T. lia.
Qed.

Lemma encode_Ok m frame : encode m = Ok frame ->
  exists payload, encode_payload m = Ok payload /\ len payload <= MAX_PAYLOAD_BYTES /\
    frame = frame_body (kind m) payload ++ sha256 (frame_body (kind m) payload).
Proof.
  unfold encode. destruct (encode_payload m) as [payload|] eqn:E; [|done]. cbn [result_bind].
  destruct (N.ltb_spec MAX_PAYLOAD_BYTES (len payload)); [done|]. intros [= <-]. eauto.
Qed.

Lemma decode_complete frame m : sendable m -> encode m = Ok frame -> decode frame = Ok m.
Proof.
  intros S (payload & E & L & ->)%encode_Ok. rewrite decode_frame by (done || apply kind_bound).
  by apply decode_payload_complete.
Qed.

(** C13: the decoder and the encoder agree on every byte sequence: a frame
    decodes to a message exactly when the message can be sent (strings are
    Unicode, integers fit, the stream is known) and the frame is the one its
    encoding gives. So every message round-trips, no frame has two readings,
    no message has two frames, and every corrupted, truncated, oversized or
    trailing input is refused. *)
Theorem frames_are_canonical (frame : list N) (m : VsockMessage) :
  Forall byte frame -> decode frame = Ok m <-> sendable m /\ encode m = Ok frame.
Proof. intros B. split; [by apply decode_sound|]. intros [S E]. by apply decode_complete. Qed.

(** ** Streams *)

Lemma read_exact_app n a b : len a = n -> read_exact n (a ++ b) = Ok (a, b).
Proof.
  intros <-. unfold read_exact. rewrite len_app, (proj2 (N.ltb_ge _ _)) by lia. by rewrite take_len_app, drop_len_app.
Qed.

Lemma read_one m frame rest : sendable m -> encode m = Ok frame -> read_from (frame ++ rest) = Ok (m, rest).
Proof.
  intros S E. pose proof (decode_complete _ _ S E) as D. apply encode_Ok in E as (payload & E & L & ->).
  set (sum := sha256 _) in *. unfold frame_body in *.
  set (header := to_be 2 PROTOCOL_VERSION ++ to_be 2 (kind m) ++ to_be 4 (len payload)).
  assert (H1 : len header = HEADER_LEN) by (unfold header; rewrite !len_app; unfold len; by rewrite !to_be_length).
  assert (H2 : (to_be 2 PROTOCOL_VERSION ++ to_be 2 (kind m) ++ to_be 4 (len payload) ++ payload) ++ sum =
    header ++ payload ++ sum) by (unfold header; by rewrite <- !app_assoc).
  rewrite H2 in *. unfold read_from. rewrite <- app_assoc, (read_exact_app HEADER_LEN) by done. cbn [result_bind].
  assert (H3 : from_be (slice 4 8 header) = len payload).
  { unfold header. rewrite app_assoc, (slice_skip 4 8 4); [|rewrite len_app; unfold len; by rewrite !to_be_length|done].
    rewrite <- (app_nil_r (to_be 4 _)), slice_0 by (unfold len; by rewrite to_be_length).
    apply from_to_be. change (256 ^ N.of_nat 4) with (2 ^ 32). unfold MAX_PAYLOAD_BYTES in L. lia. }
  rewrite H3, (proj2 (N.ltb_ge _ _)) by done.
  rewrite (read_exact_app (len payload + CHECKSUM_LEN) (payload ++ sum)).
  2: { rewrite len_app. unfold sum, len. by rewrite sha256_length. }
  cbn [result_bind]. by rewrite D.
Qed.

(** [n] reads from one stream. *)
Fixpoint read_many (n : nat) (reader : list N) : codec (list VsockMessage * list N) :=
  match n with
  | O => Ok ([], reader)
  | S n =>
      let? '(m, reader) := read_from reader in
      let? '(ms, reader) := read_many n reader in
      Ok (m :: ms, reader)
  end.
Fixpoint write_many (ms : list VsockMessage) (writer : list N) : codec (list N) :=
  match ms with
  | [] => Ok writer
  | m :: ms => let? writer := write_to m writer in write_many ms writer
  end.

(** A conversation reads back: the messages written one after the other to
    a stream are read from it in order, each exactly once, and what follows
    them in the stream is left untouched. *)
Theorem conversation_reads_back (ms : list VsockMessage) (stream rest : list N) :
  Forall sendable ms -> write_many ms [] = Ok stream ->
  read_many (length ms) (stream ++ rest) = Ok (ms, rest).
Proof.
  intros S. assert (G : forall w, write_many ms w = Ok stream ->
    exists tail, stream = w ++ tail /\ read_many (length ms) (tail ++ rest) = Ok (ms, rest)).
  { induction S as [|m ms M _ IH]; intros w; cbn [write_many read_many length].
    - intros [= <-]. exists []. by rewrite app_nil_r.
    - unfold write_to. destruct (encode m) as [frame|] eqn:E; [|done]. cbn [result_bind]. intros W.
      destruct (IH _ W) as (tail & -> & R). exists (frame ++ tail). rewrite <- !app_assoc. split; [done|].
      rewrite (read_one m frame (tail ++ rest) M E). cbn [result_bind]. by rewrite R. }
  intros W. destruct (G [] W) as (tail & -> & R). done.
Qed.

(** ** The nonce *)

Lemma hex_digit_inj a b : a < 16 -> b < 16 -> hex_digit a = hex_digit b -> a = b.
Proof. unfold hex_digit. intros A B. destruct (N.ltb_spec a 10), (N.ltb_spec b 10); lia. Qed.

Lemma hex_lower_inj a b : Forall byte a -> Forall byte b -> hex_lower a = hex_lower b -> a = b.
Proof.
  intros A. revert b. induction A as [|x a X _ IH]; intros [|y b] B; cbn; try done.
  apply Forall_cons in B as [Y B]. unfold byte in X, Y.
  intros [= E1 E2 E3]. apply hex_digit_inj in E1; [|dm..]. apply hex_digit_inj in E2; [|dm..].
  rewrite (IH b) by done. f_equal. dm.
Qed.

Lemma prefixed_inj a b r r' : len a < 2 ^ 64 -> len b < 2 ^ 64 ->
  (to_be 8 (len a) ++ a) ++ r = (to_be 8 (len b) ++ b) ++ r' -> a = b /\ r = r'.
Proof.
  intros A B E. rewrite <- !app_assoc in E. apply app_inj_1 in E as [E1 E2]; [|by rewrite !to_be_length].
  apply (f_equal from_be) in E1. rewrite !from_to_be in E1 by done.
  apply app_inj_1 in E2; [done|]. unfold len in E1. lia.
Qed.

Definition nonce_string (s : text) : Prop := Forall scalar s /\ len (as_bytes s) < 2 ^ 64.

(** A nonce names one delivery: two derivations give the same nonce only for
    the same challenge, job, isolation, generation and plan, or else they
    exhibit two different inputs with the same SHA-256 digest. *)
Theorem nonce_binds_its_inputs c j i g p c' j' i' g' p' :
  Forall nonce_string [c; j; i; p; c'; j'; i'; p'] -> g < 2 ^ 64 -> g' < 2 ^ 64 ->
  derive_execution_nonce c j i g p = derive_execution_nonce c' j' i' g' p' ->
  (c, j, i, g, p) = (c', j', i', g', p') \/ exists x y, x <> y /\ sha256 x = sha256 y.
Proof.
  intros F G G' E. repeat (apply Forall_cons in F as [[? ?] F]). unfold derive_execution_nonce in E.
  apply hex_lower_inj in E; [|apply sha256_bytes..].
  destruct (decide (nonce_preimage c j i g p = nonce_preimage c' j' i' g' p')) as [P|N]; [left|right; eauto].
  unfold nonce_preimage in P. apply app_inv_head in P. cbn [flat_map] in P. rewrite <- !(app_assoc (_ ++ _)) in P.
  apply prefixed_inj in P as [P1 P]; [|done..]. apply prefixed_inj in P as [P2 P]; [|done..].
  apply prefixed_inj in P as [P3 P]; [|done..]. apply prefixed_inj in P as [P4 P]; [|done..].
  cbn [app] in P. apply (f_equal from_be) in P. rewrite !from_to_be in P by done.
  apply as_bytes_inj in P1, P2, P3, P4; try done. by subst.
Qed.

End Frames.

(** ** Witnesses *)

(** A toy digest of 32 bytes. *)
Definition toy_digest : Sha256 := fun b => to_be 32 (fold_left (fun acc x => (acc * 257 + x + 1) mod 2 ^ 255) b 7).
#[local] Existing Instance toy_digest.
#[local] Instance toy_digest_laws : Sha256Laws.
Proof. split; intros b; [apply to_be_length|apply to_be_bytes]. Defined.

Definition sample_message : VsockMessage := StepCompleted [223; 8364; 128512] (-7) true.
Definition sample_frame : list N := match encode sample_message with Ok f => f | Err _ => [] end.

Example sample_frame_head :
  take 29 sample_frame =
  [0; 8; 0; 5; 0; 0; 0; 18; 0; 0; 0; 9; 195; 159; 226; 130; 172; 240; 159; 152; 128; 255; 255; 255; 249; 1] ++
  take 3 (drop 26 sample_frame).
Proof. vm_compute. reflexivity. Qed.

Lemma frames_are_canonical_witness : decode sample_frame = Ok sample_message.
Proof.
  apply (proj2 (frames_are_canonical sample_frame sample_message ltac:(apply (bool_decide_unpack _); vm_compute; exact I))).
  split; [split; [repeat (apply Forall_cons_2; [unfold scalar; lia|]); apply Forall_nil_2|unfold i32_ok; lia]|].
  vm_compute. reflexivity.
Defined.

Definition sample_stream : list N := match write_many [Cancel; sample_message] [] with Ok f => f | Err _ => [] end.
Lemma conversation_reads_back_witness :
  read_many 2 (sample_stream ++ [1; 2; 3]) = Ok ([Cancel; sample_message], [1; 2; 3]).
Proof.
  apply (conversation_reads_back [Cancel; sample_message] sample_stream [1; 2; 3]).
  - repeat apply Forall_cons_2; [exact I| |apply Forall_nil_2].
    split; [repeat (apply Forall_cons_2; [unfold scalar; lia|]); apply Forall_nil_2|unfold i32_ok; lia].
  - vm_compute. reflexivity.
Defined.

Lemma nonce_binds_its_inputs_witness :
  (txt "c", txt "j", txt "i", 3, txt "p") = (txt "c", txt "j", txt "i", 3, txt "p") \/
  exists x y, x <> y /\ sha256 x = sha256 y.
Proof.
  apply (nonce_binds_its_inputs (txt "c") (txt "j") (txt "i") 3 (txt "p") (txt "c") (txt "j") (txt "i") 3 (txt "p")).
  - repeat (apply Forall_cons_2; [split; [apply Forall_cons_2; [left; reflexivity|apply Forall_nil_2]|vm_compute; reflexivity]|]).
    apply Forall_nil_2.
  - reflexivity.
  - reflexivity.
  - reflexivity.
Defined.
