(* ===== verification/Redaction.v ===== *)
(** * The secret masker

    [crates/velnor-model/src/redaction.rs]: the registration of secret values
    with their lines and encoded forms, the masking of text and the test for
    secrets that are left. The [aho_corasick] package is the class
    [AhoCorasick]; its laws are the documented behaviour of a
    [MatchKind::LeftmostLongest] automaton. *)

From Stdlib Require Import ZArith Lia Ascii.
From stdpp Require Import base list strings sets.
From S2P Require Import Prelude ExprText TextOps Utf8.

Definition REDACTION : text := txt "***".
Definition MIN_MASK_LENGTH : nat := 3.
Definition is_redaction (value : text) : bool := bool_decide (trim value = REDACTION).

(** ** Encodings *)

Definition hex_upper (n : N) : char := if (n <? 10)%N then (48 + n)%N else (55 + n)%N.
Definition hex_lower_digit (n : N) : char := if (n <? 10)%N then (48 + n)%N else (87 + n)%N.

Definition trim_double_quotes (value : text) : text :=
  if (8 <? length value)%nat && starts_with [ASCII_QUOTE] value && ends_with [ASCII_QUOTE] value
  then take (length value - 2) (drop 1 value) else [].

Definition command_line_argument_escape (value : text) : text := replace [ASCII_QUOTE] [chr "\"; ASCII_QUOTE] value.
Definition expression_string_escape (value : text) : text := replace (txt "'") (txt "''") value.
Definition backslash_escape (value : text) : text := replace (txt "\") (txt "\\") value.
Definition xml_escape (value : text) : text :=
  replace (txt "'") (txt "&apos;")
    (replace [ASCII_QUOTE] (txt "&quot;")
       (replace (txt ">") (txt "&gt;") (replace (txt "<") (txt "&lt;") (replace (txt "&") (txt "&amp;") value)))).

(** [format!("\\u{:04x}", c)] of a character below 65536. *)
Definition unicode_escape (c : char) : text :=
  txt "\u" ++ map (fun k => hex_lower_digit ((c / 16 ^ k) mod 16)%N) [3; 2; 1; 0]%N.
Definition json_char_escape (c : char) : text :=
  if N.eqb c ASCII_QUOTE then [chr "\"; ASCII_QUOTE]
  else if is_chr "\" c then txt "\\"
  else if N.eqb c LF then txt "\n"
  else if N.eqb c CR then txt "\r"
  else if N.eqb c 9 then txt "\t"
  else if N.eqb c 8 then txt "\b"
  else if N.eqb c 12 then txt "\f"
  else if (c <? 32)%N || N.eqb c 133 || N.eqb c 8232 || N.eqb c 8233 then unicode_escape c
  else [c].
Definition json_string_escape (value : text) : text := flat_map json_char_escape value.

Definition uri_byte_escape (b : N) : text :=
  if is_ascii_alphanumeric b || (is_chr "-" b || is_chr "_" b || is_chr "." b || is_chr "~" b) then [b]
  else [PERCENT; hex_upper (b / 16); hex_upper (b mod 16)].
Definition uri_data_escape (value : text) : text := flat_map uri_byte_escape (as_bytes value).

(** *** Base64 *)

Definition ALPHABET : text := txt "ABCDEFGHIJKLMNOPQRSTUVWXYZabcdefghijklmnopqrstuvwxyz0123456789+/".
Definition alphabet_at (n : N) : char := default (chr "=") (ALPHABET !! N.to_nat n).

Definition triple (a b c : N) : N := N.lor (N.lor (N.shiftl a 16) (N.shiftl b 8)) c.
Definition sextet (t k : N) : char := alphabet_at (N.land (N.shiftr t k) 63).
Fixpoint base64_encode_bytes (bytes : list N) : text :=
  match bytes with
  | [] => []
  | [a] => let t := triple a 0 0 in [sextet t 18; sextet t 12; chr "="; chr "="]
  | [a; b] => let t := triple a b 0 in [sextet t 18; sextet t 12; sextet t 6; chr "="]
  | a :: b :: c :: bytes =>
      let t := triple a b c in
      [sextet t 18; sextet t 12; sextet t 6; sextet t 0] ++ base64_encode_bytes bytes
  end.
Definition base64_encode (value : text) : text := base64_encode_bytes (as_bytes value).
Definition base64_encode_shift (value : text) (shift : nat) : text :=
  let bytes := as_bytes value in
  if (shift <? length bytes)%nat then base64_encode_bytes (drop shift bytes) else base64_encode_bytes bytes.

(** *** PowerShell

    The [expect] of the source is on a value that holds an ampersand
    ([rsplit_once_some]). *)

Definition at_least_6 (section : text) : text := if (6 <=? length section)%nat then section else [].
Definition power_shell_pre_ampersand_escape (value : text) : text :=
  if bool_decide (value = []) || negb (contains_char (chr "&") value) then []
  else at_least_6
    (match split_once (txt "&+") value with
     | Some (before, _) => before ++ txt "&+"
     | None => match rsplit_once (chr "&") value with Some (before, _) => before ++ txt "&" | None => [] end
     end).
Definition power_shell_post_ampersand_escape (value : text) : text :=
  if bool_decide (value = []) || negb (contains_char (chr "&") value) then []
  else at_least_6
    (match split_once (txt "&+") value with
     | Some (_, after) => drop 1 after
     | None => match rsplit_once (chr "&") value with Some (_, after) => after | None => [] end
     end).

(** ** Registration *)

Definition encodings (value : text) : list text :=
  [value; base64_encode value; base64_encode_shift value 1; base64_encode_shift value 2;
   command_line_argument_escape value; expression_string_escape value; json_string_escape value;
   uri_data_escape value; xml_escape value; backslash_escape value; trim_double_quotes value;
   power_shell_pre_ampersand_escape value; power_shell_post_ampersand_escape value].

Definition insert_pattern (patterns : bmap ()) (candidate : text) : bmap () :=
  if (MIN_MASK_LENGTH <=? length candidate)%nat && negb (bool_decide (trim candidate = []))
  then bm_insert candidate () patterns else patterns.

Definition add_encodings (value : text) (patterns : bmap ()) : bmap () :=
  let value := trim value in
  if (length value <? MIN_MASK_LENGTH)%nat then patterns
  else fold_left insert_pattern (encodings value) patterns.

Definition register (value : text) (patterns : bmap ()) : bmap () :=
  let patterns := add_encodings value patterns in
  if contains_char LF value || contains_char CR value
  then fold_left (fun patterns line => add_encodings line patterns) (lines value) patterns
  else patterns.

(** [patterns.sort_by]: by length, longest first, then by text. *)
Definition pattern_before (a b : text) : bool :=
  match Nat.compare (byte_len b) (byte_len a) with
  | Lt => true
  | Gt => false
  | Eq => match text_compare a b with Gt => false | _ => true end
  end.
Fixpoint insert_sorted (p : text) (l : list text) : list text :=
  match l with
  | [] => [p]
  | q :: l => if pattern_before p q then p :: q :: l else q :: insert_sorted p l
  end.
Definition sort_patterns (l : list text) : list text := fold_right insert_sorted [] l.

(** ** The masker *)

(** An automaton with what is used of it: the first match, as the text before
    it, the pattern and the text behind it, and the replacement of all matches. *)
Class AhoCorasick := {
  automaton : Type;
  ac_build : list text -> option automaton;
  ac_find : automaton -> text -> option (text * text * text);
  ac_replace_all : automaton -> text -> text -> text;
}.

(** The match is an occurrence of a pattern; none starts earlier, and none
    that starts there is longer. *)
Definition leftmost_longest (patterns : list text) (value before p after : text) : Prop :=
  p ∈ patterns /\ value = before ++ p ++ after /\
  forall q b a, q ∈ patterns -> value = b ++ q ++ a ->
    length before <= length b /\ (length b = length before -> length q <= length p).

Class AhoCorasickLaws `{AhoCorasick} := {
  ac_find_some a ps value before p after : ac_build ps = Some a ->
    ac_find a value = Some (before, p, after) -> leftmost_longest ps value before p after;
  ac_find_none a ps value : ac_build ps = Some a -> ac_find a value = None ->
    forall p, p ∈ ps -> contains p value = false;
  ac_replace_all_step a ps replacement value : ac_build ps = Some a -> [] ∉ ps ->
    ac_replace_all a replacement value =
    match ac_find a value with
    | Some (before, _, after) => before ++ replacement ++ ac_replace_all a replacement after
    | None => value
    end;
}.

Section Masker.
Context `{AhoCorasick}.

Record SecretMasker : Type := {
  sm_patterns : list text;
  sm_automaton : option automaton;
  sm_literal_fallback : bool }.

Definition new_masker (values : list text) : SecretMasker :=
  let patterns := sort_patterns (bm_keys (fold_left (fun patterns value => register value patterns) values [])) in
  match patterns with
  | [] => {| sm_patterns := patterns; sm_automaton := None; sm_literal_fallback := false |}
  | _ =>
      match ac_build patterns with
      | Some a => {| sm_patterns := patterns; sm_automaton := Some a; sm_literal_fallback := false |}
      | None => {| sm_patterns := patterns; sm_automaton := None; sm_literal_fallback := true |}
      end
  end.

Definition is_empty (m : SecretMasker) : bool := bool_decide (sm_patterns m = []).

(** The loop over the patterns: the earliest occurrence, the longest there. *)
Definition select (value : text) (selected : option (text * text)) (pattern : text) : option (text * text) :=
  match split_once pattern value with
  | None => selected
  | Some (before, _) =>
      match selected with
      | None => Some (before, pattern)
      | Some (selected_before, selected_pattern) =>
          if (length before <? length selected_before)%nat
             || (length before =? length selected_before)%nat && (byte_len selected_pattern <? byte_len pattern)%nat
          then Some (before, pattern) else selected
      end
  end.

(** An iteration passes at least one character, so the length bounds the loop. *)
Fixpoint mask_loop (fuel : nat) (patterns : list text) (value : text) : text :=
  match fuel with
  | O => value
  | S fuel =>
      match fold_left (select value) patterns None with
      | None => value
      | Some (before, pattern) =>
          before ++ REDACTION ++ mask_loop fuel patterns (drop (length before + length pattern) value)
      end
  end.
Definition mask_literal_fallback (m : SecretMasker) (value : text) : text :=
  mask_loop (length value) (sm_patterns m) value.

Definition mask (m : SecretMasker) (value : text) : text :=
  match sm_automaton m with
  | Some a => ac_replace_all a REDACTION value
  | None => if sm_literal_fallback m then mask_literal_fallback m value else value
  end.

Definition contains_secret (m : SecretMasker) (value : text) : bool :=
  match sm_automaton m with
  | Some a => match ac_find a value with Some _ => true | None => false end
  | None => sm_literal_fallback m && existsb (fun pattern => contains pattern value) (sm_patterns m)
  end.

End Masker.
