(* ===== verification/RedactionProofs.v ===== *)
(** * What masking removes

    The two ways of masking of [Redaction] agree, and no registered form of a
    secret is left in masked text, wherever it occurred. *)

From Stdlib Require Import ZArith Lia Ascii.
From stdpp Require Import base list strings sets.
From S2P Require Import Prelude ExprText TextOps Utf8 Redaction.

(** ** Registration *)

Lemma elem_insert_pattern m c p : p ∈ bm_keys (insert_pattern m c) <->
  p ∈ bm_keys m \/ p = c /\ MIN_MASK_LENGTH <= length c /\ trim c <> [].
Proof.
  unfold insert_pattern. destruct (_ && _) eqn:E.
  - apply andb_true_iff in E as [L%Nat.leb_le T%negb_true_iff]. apply bool_decide_eq_false in T.
    rewrite bm_insert_keys. naive_solver.
  - split; [auto|]. intros [?|(-> & L & T)]; [done|]. exfalso.
    apply andb_false_iff in E as [E%Nat.leb_gt|E%negb_false_iff]; [lia|]. by apply bool_decide_eq_true in E.
Qed.

Lemma elem_fold_insert l m p : p ∈ bm_keys (fold_left insert_pattern l m) <->
  p ∈ bm_keys m \/ p ∈ l /\ MIN_MASK_LENGTH <= length p /\ trim p <> [].
Proof.
  revert m. induction l as [|c l IH]; intros m; cbn [fold_left]; [set_solver|].
  rewrite IH, elem_insert_pattern, elem_of_cons. naive_solver.
Qed.

(** The forms under which a piece of a secret is registered. *)
Definition form_of (value p : text) : Prop :=
  MIN_MASK_LENGTH <= length (trim value) /\ p ∈ encodings (trim value) /\ MIN_MASK_LENGTH <= length p /\ trim p <> [].

Lemma elem_add_encodings v m p : p ∈ bm_keys (add_encodings v m) <-> p ∈ bm_keys m \/ form_of v p.
Proof.
  unfold add_encodings, form_of. destruct (Nat.ltb_spec (length (trim v)) MIN_MASK_LENGTH) as [L|L].
  - split; [auto|]. intros [?|(? & _)]; [done|lia].
  - rewrite elem_fold_insert. naive_solver.
Qed.

(** A secret itself, and its lines when it has several. *)
Definition piece_of (secret line : text) : Prop :=
  line = secret \/ (LF ∈ secret \/ CR ∈ secret) /\ line ∈ lines secret.

Lemma contains_char_true c s : contains_char c s = true <-> c ∈ s.
Proof.
  unfold contains_char. rewrite existsb_exists. setoid_rewrite <- list_elem_of_In.
  split; [intros (x & I & ->%N.eqb_eq); done|intros I; exists c; split; [done|apply N.eqb_refl]].
Qed.

Lemma elem_register v m p : p ∈ bm_keys (register v m) <->
  p ∈ bm_keys m \/ exists line, piece_of v line /\ form_of line p.
Proof.
  unfold register, piece_of.
  assert (F : forall l m, p ∈ bm_keys (fold_left (fun m line => add_encodings line m) l m) <->
    p ∈ bm_keys m \/ exists line, line ∈ l /\ form_of line p).
  { induction l as [|x l IH]; intros m'; cbn [fold_left]; [set_solver|].
    rewrite IH, elem_add_encodings. setoid_rewrite elem_of_cons. naive_solver. }
  destruct (_ || _) eqn:E.
  - rewrite orb_true_iff, !contains_char_true in E. rewrite F, elem_add_encodings. naive_solver.
  - apply orb_false_iff in E as [E1 E2]. rewrite elem_add_encodings.
    assert (N : ~ (LF ∈ v \/ CR ∈ v)) by (rewrite <- !contains_char_true; intros [?|?]; congruence). naive_solver.
Qed.

Lemma elem_insert_sorted p l x : x ∈ insert_sorted p l <-> x = p \/ x ∈ l.
Proof. induction l as [|q l IH]; cbn; [set_solver|]. destruct (pattern_before p q); set_solver. Qed.
Lemma elem_sort_patterns l x : x ∈ sort_patterns l <-> x ∈ l.
Proof. induction l as [|p l IH]; cbn; [done|]. rewrite elem_insert_sorted, IH. set_solver. Qed.

Section Masker.
Context `{AhoCorasickLaws}.

(** The patterns of a masker are the forms of the pieces of its secrets. *)
Lemma elem_patterns values p : p ∈ sm_patterns (new_masker values) <->
  exists secret line, secret ∈ values /\ piece_of secret line /\ form_of line p.
Proof.
  assert (F : forall m, p ∈ bm_keys (fold_left (fun m v => register v m) values m) <->
    p ∈ bm_keys m \/ exists secret line, secret ∈ values /\ piece_of secret line /\ form_of line p).
  { induction values as [|v vs IH]; intros m; cbn [fold_left]; [set_solver|].
    rewrite IH, elem_register. setoid_rewrite elem_of_cons. naive_solver. }
  unfold new_masker. set (ps := sort_patterns _).
  assert (E : p ∈ ps <-> exists secret line, secret ∈ values /\ piece_of secret line /\ form_of line p).
  { unfold ps. rewrite elem_sort_patterns, F. set_solver. }
  rewrite <- E. destruct ps; [done|]. by destruct (ac_build _).
Qed.

Lemma patterns_not_empty values : [] ∉ sm_patterns (new_masker values).
Proof. rewrite elem_patterns. intros (s & l & _ & _ & _ & _ & L & _). unfold MIN_MASK_LENGTH in L. cbn in L. lia. Qed.

End Masker.

(** ** Matches *)

Lemma split_once_leftmost n s a b x y : split_once n s = Some (a, b) -> s = x ++ n ++ y -> length a <= length x.
Proof. intros E ->. destruct (text_split_once_app n x y) as (a' & b' & E' & L). rewrite E in E'. by injection E' as -> ->. Qed.

(** The text before a match, and what it leaves behind. *)
Definition no_pattern (ps : list text) (value : text) : Prop := forall p, p ∈ ps -> contains p value = false.

Lemma byte_len_pos s : length s <= byte_len s.
Proof.
  induction s as [|c s IH]; [done|]. change (byte_len (c :: s)) with (len_utf8 c + byte_len s). cbn [length].
  assert (1 <= len_utf8 c) by (unfold len_utf8; repeat case_match; lia). lia.
Qed.
Lemma byte_len_prefix a b : byte_len (a ++ b) = byte_len a + byte_len b.
Proof. unfold byte_len. by rewrite map_app, list_sum_app. Qed.

(** Of two patterns at the same place the longer in bytes is the longer. *)
Lemma prefix_byte_len p q a b : p ++ a = q ++ b -> byte_len p <= byte_len q -> length p <= length q.
Proof.
  intros E L. destruct (decide (length p <= length q)) as [|G]; [done|].
  apply app_eq_inv in E as [(k & -> & ->)|(k & -> & ->)].
  - rewrite byte_len_prefix in L. pose proof (byte_len_pos k). rewrite length_app in G. lia.
  - rewrite length_app in G. lia.
Qed.

(** What the loop over the patterns has selected among those it has seen. *)
Definition selected_ok (value : text) (seen : list text) (r : option (text * text)) : Prop :=
  match r with
  | None => no_pattern seen value
  | Some (before, p) => leftmost_longest seen value before p (drop (length before + length p) value)
  end.

Lemma drop_occurrence (before p after : text) : drop (length before + length p) (before ++ p ++ after) = after.
Proof. rewrite app_assoc, <- length_app. apply drop_app_length. Qed.

Lemma select_ok value seen p r : selected_ok value seen r -> selected_ok value (seen ++ [p]) (select value r p).
Proof.
  intros S. unfold select. destruct (split_once p value) as [[b a]|] eqn:E.
  2: { assert (C : contains p value = false) by (unfold contains; by rewrite E).
       destruct r as [[sb sp]|]; cbn in *.
       - destruct S as (I & V & M). split_and!; [set_solver|done|]. intros q x y [Q|Q]%elem_of_app W; [by apply M with y|].
         apply list_elem_of_singleton in Q as ->. exfalso. apply not_true_iff_false in C. apply C, contains_true. eauto.
       - intros q [Q|Q]%elem_of_app; [by apply S|]. by apply list_elem_of_singleton in Q as ->. }
  pose proof (split_once_Some _ _ _ _ E) as V.
  assert (L0 : forall x y, value = x ++ p ++ y -> length b <= length x) by (intros x y; by eapply split_once_leftmost).
  assert (D : drop (length b + length p) value = a) by (rewrite V; apply drop_occurrence).
  destruct r as [[sb sp]|]; cbn [selected_ok] in S |- *.
  2: { rewrite D. split_and!; [set_solver|done|]. intros q x y [Q|Q]%elem_of_app W.
       - specialize (S q Q). apply not_true_iff_false in S. exfalso. apply S, contains_true. eauto.
       - apply list_elem_of_singleton in Q as ->. split; [by eapply L0|done]. }
  destruct S as (I & VS & M). set (sa := drop _ _) in VS.
  assert (SP : length b = length sb -> p ++ a = sp ++ sa).
  { intros B. rewrite V in VS at 1. apply app_inj_1 in VS as [_ VS]; done. }
  destruct (_ || _) eqn:C; cbn [selected_ok].
  - rewrite D. split_and!; [set_solver|done|].
    assert (B : length b <= length sb /\ (length b = length sb -> length sp <= length p)).
    { apply orb_true_iff in C as [C%Nat.ltb_lt|C]; [lia|]. apply andb_true_iff in C as [C1%Nat.eqb_eq C2%Nat.ltb_lt].
      split; [lia|]. intros B. specialize (SP B). symmetry in SP. apply (prefix_byte_len _ _ _ _ SP). lia. }
    intros q x y [Q|Q]%elem_of_app W.
    + destruct (M q x y Q W) as [M1 M2]. split; [lia|]. intros X. transitivity (length sp); [apply M2; lia|apply B; lia].
    + apply list_elem_of_singleton in Q as ->. split; [by eapply L0|done].
  - split_and!; [set_solver|done|]. apply orb_false_iff in C as [C1%Nat.ltb_ge C2].
    intros q x y [Q|Q]%elem_of_app W; [by apply M with y|]. apply list_elem_of_singleton in Q as ->.
    pose proof (L0 _ _ W) as LX. split; [lia|]. intros X.
    assert (B : length b = length sb) by lia. rewrite B, Nat.eqb_refl in C2. cbn in C2. apply Nat.ltb_ge in C2.
    apply (prefix_byte_len _ _ _ _ (SP B)). done.
Qed.

Lemma fold_select_ok value ps : selected_ok value ps (fold_left (select value) ps None).
Proof.
  assert (G : forall l seen r, selected_ok value seen r -> selected_ok value (seen ++ l) (fold_left (select value) l r)).
  { induction l as [|p l IH]; intros seen r S; cbn [fold_left]; [by rewrite app_nil_r|].
    rewrite (cons_middle p seen l), app_assoc. apply IH. by apply select_ok. }
  apply (G ps [] None). intros p P. set_solver.
Qed.

(** There is one leftmost-longest match. *)
Lemma leftmost_longest_unique ps v b p a b' p' a' :
  leftmost_longest ps v b p a -> leftmost_longest ps v b' p' a' -> b = b' /\ p = p' /\ a = a'.
Proof.
  intros (I & V & M) (I' & V' & M'). destruct (M p' b' a' I' V'), (M' p b a I V). rewrite V in V'.
  apply app_inj_1 in V' as [-> E]; [|lia]. apply app_inj_1 in E as [-> ->]; [done|]. 
  assert (length p <= length p') by auto. assert (length p' <= length p) by auto. lia.
Qed.

Lemma leftmost_before ps v b p a : [] ∉ ps -> leftmost_longest ps v b p a -> no_pattern ps b.
Proof.
  intros N (_ & V & M) q Q. apply not_true_iff_false. intros (x & y & ->)%contains_true.
  destruct (M q x (y ++ p ++ a) Q) as [L _]; [rewrite V; by rewrite <- !app_assoc|].
  rewrite !length_app in L. destruct q; [done|]. cbn in L. lia.
Qed.

Lemma leftmost_shorter ps v b p a : [] ∉ ps -> leftmost_longest ps v b p a -> length a < length v.
Proof. intros N (I & -> & _). rewrite !length_app. destruct p; [done|]. cbn. lia. Qed.

(** Masked text: what was kept, with a mark in place of every match. *)
Inductive Masked (ps : list text) : text -> text -> Prop :=
| Masked_done v : no_pattern ps v -> Masked ps v v
| Masked_step v b p a out :
    leftmost_longest ps v b p a -> Masked ps a out -> Masked ps v (b ++ REDACTION ++ out).

Lemma Masked_functional ps v o o' : [] ∉ ps -> Masked ps v o -> Masked ps v o' -> o = o'.
Proof.
  intros N M. revert o'. induction M as [v D|v b p a out L M IH]; intros o'; inversion 1 as [|? b' p' a' out' L' M']; subst; try done.
  - destruct L' as (I & V & _). specialize (D _ I). apply not_true_iff_false in D. exfalso. apply D, contains_true. eauto.
  - destruct L as (I & V & _). exfalso. match goal with H : no_pattern _ _ |- _ => specialize (H _ I) as D end.
    apply not_true_iff_false in D. apply D, contains_true. eauto.
  - destruct (leftmost_longest_unique _ _ _ _ _ _ _ _ L L') as (-> & -> & ->). by rewrite (IH _ M').
Qed.

Lemma mask_loop_Masked ps : [] ∉ ps -> forall fuel v, length v <= fuel -> Masked ps v (mask_loop fuel ps v).
Proof.
  intros N. induction fuel as [|fuel IH]; intros v L; cbn [mask_loop].
  - destruct v; [|cbn in L; lia]. constructor. intros [|c p] P; done.
  - pose proof (fold_select_ok v ps) as S. destruct (fold_left (select v) ps None) as [[b p]|]; [|by constructor].
    cbn in S. econstructor; [exact S|]. apply IH. apply (leftmost_shorter _ _ _ _ _ N) in S. lia.
Qed.

Section Masking.
Context `{AhoCorasickLaws}.

Lemma replace_all_Masked ps a : [] ∉ ps -> ac_build ps = Some a -> forall v, Masked ps v (ac_replace_all a REDACTION v).
Proof.
  intros N B v. induction v as [v IH] using (induction_ltof1 _ length). unfold ltof in IH.
  rewrite (ac_replace_all_step a ps) by done. destruct (ac_find a v) as [[[b p] r]|] eqn:F.
  - pose proof (ac_find_some _ _ _ _ _ _ B F) as L. econstructor; [exact L|]. apply IH. by eapply leftmost_shorter.
  - constructor. intros p P. by eapply ac_find_none.
Qed.

(** The three ways a masker is built. *)
Lemma mask_Masked values v : Masked (sm_patterns (new_masker values)) v (mask (new_masker values) v).
Proof.
  pose proof (patterns_not_empty values) as N. revert N. unfold new_masker.
  destruct (sort_patterns _) as [|p ps] eqn:E; cbn [sm_patterns]; intros N.
  - constructor. intros q Q. set_solver.
  - destruct (ac_build (p :: ps)) as [a|] eqn:B; cbn [sm_patterns mask sm_automaton sm_literal_fallback] in *.
    + by apply replace_all_Masked.
    + by apply mask_loop_Masked.
Qed.

(** Masking does not depend on how the masker was built: with the compiled
    automaton, and with the literal search that stands in for it when it
    cannot be built, the same text comes out for every secret set and every
    input. *)
Theorem fallback_masks_alike (values : list text) (value : text) :
  mask (new_masker values) value = mask_literal_fallback (new_masker values) value.
Proof.
  eapply Masked_functional; [apply patterns_not_empty|apply mask_Masked|].
  apply mask_loop_Masked; [apply patterns_not_empty|done].
Qed.

End Masking.

(** ** What is left *)

(** An occurrence of a pattern without [c] lies on one side of [c]. *)
Lemma occurrence_side c p b r : c ∉ p -> p <> [] -> contains p (b ++ c :: r) = true ->
  contains p b = true \/ contains p r = true.
Proof.
  intros N E (x & y & V)%contains_true. symmetry in V. apply app_eq_inv in V as [(k & -> & V)|(k & -> & V)].
  - destruct k as [|d k]; cbn in V.
    + destruct p as [|e p]; [done|]. injection V as -> V. set_solver.
    + injection V as <- ->. right. apply contains_true. eauto.
  - apply app_eq_inv in V as [(k' & -> & V)|(k' & -> & V)].
    + destruct k' as [|d k']; cbn in V.
      * left. apply contains_true. exists x, []. by rewrite !app_nil_r.
      * injection V as -> _. set_solver.
    + left. apply contains_true. eauto.
Qed.

Definition STAR : char := chr "*".

Lemma Masked_clean ps v out : [] ∉ ps -> (forall p, p ∈ ps -> STAR ∉ p) -> Masked ps v out -> no_pattern ps out.
Proof.
  intros N S. induction 1 as [v D|v b p a out L M IH]; [done|]. intros q Q. apply not_true_iff_false. intros C.
  assert (Q0 : q <> []) by (intros ->; done). specialize (S q Q). specialize (IH q Q). apply not_true_iff_false in IH.
  pose proof (leftmost_before _ _ _ _ _ N L q Q) as B. apply not_true_iff_false in B.
  change (b ++ REDACTION ++ out) with (b ++ STAR :: STAR :: STAR :: out) in C.
  destruct (occurrence_side STAR q b _ S Q0 C) as [?|C1]; [done|].
  destruct (occurrence_side STAR q [] _ S Q0 C1) as [C2|C2].
  - destruct q; done.
  - destruct (occurrence_side STAR q [] _ S Q0 C2) as [C3|C3]; [destruct q; done|done].
Qed.

(** ** Encodings of secrets without an asterisk *)

Section Stars.
Implicit Types v : text.

Lemma elem_trim_start c v : c ∈ trim_start_by is_whitespace v -> c ∈ v.
Proof. induction v as [|d v IH]; cbn; [done|]. destruct (is_whitespace d); set_solver. Qed.
Lemma elem_trim c v : c ∈ trim v -> c ∈ v.
Proof.
  unfold trim, trim_end_by. rewrite list_elem_of_In, <- in_rev, <- list_elem_of_In. intros I%elem_trim_start.
  rewrite list_elem_of_In, <- in_rev, <- list_elem_of_In in I. by apply elem_trim_start.
Qed.
Lemma elem_lines c v l : l ∈ lines v -> c ∈ l -> c ∈ v.
Proof.
  revert l. induction v as [v IH] using (induction_ltof1 _ length). unfold ltof in IH. intros l.
  destruct v as [|a v]; [set_solver|]. cbn [lines]. destruct (N.eqb a LF).
  { intros [->|L]%elem_of_cons C; [set_solver|]. apply elem_of_cons. right. apply (IH v) with l; [cbn; lia|done|done]. }
  assert (CL : forall l, l ∈ cons_line a (lines v) -> c ∈ l -> c ∈ a :: v).
  { intros l'. unfold cons_line. pose proof (IH v ltac:(cbn; lia)) as IHv. destruct (lines v) as [|x xs].
    - intros ->%list_elem_of_singleton ->%list_elem_of_singleton. set_solver.
    - intros [->|L]%elem_of_cons C; [|apply elem_of_cons; right; apply (IHv l'); set_solver].
      apply elem_of_cons in C as [->|C]; [set_solver|]. apply elem_of_cons. right. apply (IHv x); set_solver. }
  destruct v as [|d v]; [by apply CL|]. destruct (_ && _); [|by apply CL].
  intros [->|L]%elem_of_cons C; [set_solver|]. do 2 (apply elem_of_cons; right). apply (IH v) with l; [cbn; lia|done|done].
Qed.
Lemma elem_replace c from to v : c ∈ replace from to v -> c ∈ v \/ c ∈ to.
Proof.
  unfold replace. generalize 0 at 1. induction v as [|d v IH]; intros k; [set_solver|]. cbn [replace_go].
  destruct k as [|k]; [|intros [?|?]%IH; set_solver]. destruct (starts_with _ _).
  - intros [?|[?|?]%IH]%elem_of_app; set_solver.
  - intros [->|[?|?]%IH]%elem_of_cons; set_solver.
Qed.
Lemma elem_flat_map {A} (f : A -> text) l c : c ∈ flat_map f l -> exists x, x ∈ l /\ c ∈ f x.
Proof. rewrite list_elem_of_In, in_flat_map. setoid_rewrite <- list_elem_of_In. naive_solver. Qed.
Lemma elem_substring c n k v : c ∈ take n (drop k v) -> c ∈ v.
Proof. intros I. rewrite <- (take_drop k v), elem_of_app, <- (take_drop n (drop k v)). set_solver. Qed.

Definition word_safe (p : char -> bool) : Prop := p STAR = false.

Lemma star_hex_lower n : (n < 16)%N -> hex_lower_digit n <> STAR.
Proof. unfold hex_lower_digit. change STAR with 42%N. destruct (N.ltb_spec n 10); lia. Qed.
Lemma star_hex_upper n : hex_upper n <> STAR.
Proof. unfold hex_upper. change STAR with 42%N. destruct (N.ltb_spec n 10); lia. Qed.

Lemma star_json v : STAR ∈ json_string_escape v -> STAR ∈ v.
Proof.
  intros (c & C & S)%elem_flat_map. unfold json_char_escape in S.
  repeat (case_match; [exfalso; revert S; rewrite list_elem_of_In; vm_compute; intuition discriminate|]).
  destruct (_ || _); [|by apply list_elem_of_singleton in S as <-]. exfalso. unfold unicode_escape in S.
  apply elem_of_app in S as [S|S]; [revert S; rewrite list_elem_of_In; vm_compute; intuition discriminate|].
  apply list_elem_of_fmap_1 in S as (k & E & _). symmetry in E. revert E. apply star_hex_lower. apply N.mod_lt. done.
Qed.
Lemma star_uri v : STAR ∉ uri_data_escape v.
Proof.
  intros (b & _ & S)%elem_flat_map. unfold uri_byte_escape in S. destruct (_ || _) eqn:E.
  - apply list_elem_of_singleton in S as <-. by vm_compute in E.
  - rewrite !elem_of_cons, elem_of_nil in S. destruct S as [S|[S|[S|[]]]]; [done|by apply (star_hex_upper (b / 16))|by apply (star_hex_upper (b mod 16))].
Qed.

Lemma alphabet_elem n : alphabet_at n ∈ chr "=" :: ALPHABET.
Proof.
  unfold alphabet_at. destruct (ALPHABET !! N.to_nat n) as [c|] eqn:E; cbn [default]; [|set_solver].
  apply elem_of_cons. right. by eapply list_elem_of_lookup_2.
Qed.
Lemma base64_alphabet l c : c ∈ base64_encode_bytes l -> c ∈ chr "=" :: ALPHABET.
Proof.
  induction l as [l IH] using (induction_ltof1 _ length). unfold ltof in IH.
  destruct l as [|x [|y [|z l]]]; cbn [base64_encode_bytes]; [set_solver| | |].
  3: intros [I|I]%elem_of_app; [|apply IH with l; [cbn; lia|done]]; revert I.
  all: rewrite !elem_of_cons, elem_of_nil; intros I; destruct_or! I; subst; try done;
    first [exact (proj1 (elem_of_cons _ _ _) (alphabet_elem _)) | by left].
Qed.
Lemma star_base64 l : STAR ∉ base64_encode_bytes l.
Proof. intros I%base64_alphabet. revert I. rewrite list_elem_of_In. vm_compute. intuition discriminate. Qed.

Lemma star_ampersand_pre v : STAR ∈ power_shell_pre_ampersand_escape v -> STAR ∈ v.
Proof.
  unfold power_shell_pre_ampersand_escape, at_least_6. destruct (_ || _); [set_solver|].
  destruct (split_once _ v) as [[a b]|] eqn:E.
  - apply split_once_Some in E as ->. case_match; [|set_solver]. intros [?|S]%elem_of_app; [set_solver|].
    exfalso. revert S. rewrite list_elem_of_In. vm_compute. intuition discriminate.
  - unfold rsplit_once. destruct (split_once _ (rev v)) as [[a b]|] eqn:E2; cbn [option_map]; [|case_match; set_solver].
    apply split_once_Some in E2. apply (f_equal (@rev char)) in E2. rewrite rev_involutive, !rev_app_distr in E2. cbn [fst snd].
    case_match; [|set_solver]. intros [?|S]%elem_of_app; [rewrite E2; set_solver|].
    exfalso. revert S. rewrite list_elem_of_In. vm_compute. intuition discriminate.
Qed.
Lemma star_ampersand_post v : STAR ∈ power_shell_post_ampersand_escape v -> STAR ∈ v.
Proof.
  unfold power_shell_post_ampersand_escape, at_least_6. destruct (_ || _); [set_solver|].
  destruct (split_once _ v) as [[a b]|] eqn:E.
  - apply split_once_Some in E as ->. case_match; [|set_solver]. intros S.
    rewrite !elem_of_app. right. right. rewrite <- (take_drop 1 b). set_solver.
  - unfold rsplit_once. destruct (split_once _ (rev v)) as [[a b]|] eqn:E2; cbn [option_map]; [|case_match; set_solver].
    apply split_once_Some in E2. apply (f_equal (@rev char)) in E2. rewrite rev_involutive, !rev_app_distr in E2. cbn [fst snd].
    case_match; [|set_solver]. intros S. rewrite E2. set_solver.
Qed.

Ltac no_star S := exfalso; revert S; rewrite list_elem_of_In; vm_compute; intuition discriminate.

Lemma star_encodings v p : p ∈ encodings v -> STAR ∈ p -> STAR ∈ v.
Proof.
  unfold encodings. rewrite !elem_of_cons, elem_of_nil. intros P S. destruct_or! P; subst p; try done.
  - by apply star_base64 in S.
  - unfold base64_encode_shift in S. case_match; by apply star_base64 in S.
  - unfold base64_encode_shift in S. case_match; by apply star_base64 in S.
  - apply elem_replace in S as [S|S]; [done|no_star S].
  - apply elem_replace in S as [S|S]; [done|no_star S].
  - by apply star_json.
  - by apply star_uri in S.
  - unfold xml_escape in S. repeat (apply elem_replace in S as [S|S]; [|no_star S]). done.
  - apply elem_replace in S as [S|S]; [done|no_star S].
  - unfold trim_double_quotes in S. case_match; [by apply elem_substring in S|set_solver].
  - by apply star_ampersand_pre.
  - by apply star_ampersand_post.
Qed.

End Stars.

(** ** Secrets inside a larger Base64 text *)

Lemma base64_app a b : length a mod 3 = 0 -> base64_encode_bytes (a ++ b) = base64_encode_bytes a ++ base64_encode_bytes b.
Proof.
  induction a as [a IH] using (induction_ltof1 _ length). unfold ltof in IH.
  destruct a as [|x [|y [|z a]]]; cbn [length]; try done. intros M. cbn [app base64_encode_bytes].
  rewrite IH; [done|cbn; lia|]. cbn [length] in M.
  replace (S (S (S (length a)))) with (length a + 1 * 3) in M by lia. by rewrite Nat.Div0.mod_add in M.
Qed.

(** How many bytes of a secret complete the group that the bytes before it
    started. *)
Definition shift_after (prefix : list N) : nat := (3 - length prefix mod 3) mod 3.

Lemma shift_after_spec prefix : shift_after prefix <= 2 /\ (length prefix + shift_after prefix) mod 3 = 0.
Proof.
  unfold shift_after. pose proof (Nat.mod_upper_bound (length prefix) 3 ltac:(done)) as B.
  pose proof (Nat.div_mod_eq (length prefix) 3) as E. set (q := length prefix / 3) in E.
  set (r := length prefix mod 3) in *. rewrite E. clearbody q r.
  assert (R : r = 0 \/ r = 1 \/ r = 2) by lia.
  destruct R as [->|[->| ->]].
  - change ((3 - 0) mod 3) with 0. split; [lia|]. apply Nat.Lcm0.mod_divide. exists q. lia.
  - change ((3 - 1) mod 3) with 2. split; [lia|]. apply Nat.Lcm0.mod_divide. exists (S q). lia.
  - change ((3 - 2) mod 3) with 1. split; [lia|]. apply Nat.Lcm0.mod_divide. exists (S q). lia.
Qed.

(** The secret ends a group, or the text ends with it. *)
Definition group_ends (prefix secret suffix : list N) : Prop :=
  shift_after prefix < length secret /\
  ((length secret - shift_after prefix) mod 3 = 0 \/ suffix = []).

Lemma base64_embedded prefix secret suffix : group_ends prefix secret suffix ->
  contains (base64_encode_bytes (drop (shift_after prefix) secret)) (base64_encode_bytes (prefix ++ secret ++ suffix)) = true.
Proof.
  intros [K G]. destruct (shift_after_spec prefix) as [K2 M]. set (k := shift_after prefix) in *.
  apply contains_true. exists (base64_encode_bytes (prefix ++ take k secret)), (base64_encode_bytes suffix).
  replace (prefix ++ secret ++ suffix) with ((prefix ++ take k secret) ++ drop k secret ++ suffix)
    by (by rewrite <- app_assoc, (app_assoc (take k secret)), take_drop).
  rewrite (base64_app (prefix ++ _)) by (rewrite length_app, length_take, Nat.min_l by lia; done). f_equal.
  destruct G as [G| ->]; [apply base64_app; by rewrite length_drop|]. by rewrite !app_nil_r.
Qed.

Lemma base64_shift_registered v k : k <= 2 -> k < length (as_bytes v) ->
  base64_encode_bytes (drop k (as_bytes v)) ∈ encodings v.
Proof.
  intros K L. assert (D : k = 0 \/ k = 1 \/ k = 2) by lia. unfold encodings, base64_encode_shift.
  destruct D as [->|[->| ->]]; rewrite ?drop_0.
  - change (base64_encode_bytes (as_bytes v)) with (base64_encode v). set_solver.
  - rewrite (proj2 (Nat.ltb_lt 1 _)) by lia. set_solver.
  - rewrite (proj2 (Nat.ltb_lt 2 _)) by lia. set_solver.
Qed.

Lemma base64_long l : l <> [] ->
  MIN_MASK_LENGTH <= length (base64_encode_bytes l) /\ trim (base64_encode_bytes l) <> [].
Proof.
  intros N. assert (L : MIN_MASK_LENGTH <= length (base64_encode_bytes l)).
  { unfold MIN_MASK_LENGTH. destruct l as [|x [|y [|z l]]]; cbn; try done; lia. }
  split; [done|]. rewrite trim_id; [intros E; rewrite E in L; unfold MIN_MASK_LENGTH in L; cbn in L; lia|].
  apply Forall_forall. intros c C%base64_alphabet. rewrite list_elem_of_In in C.
  revert c C. apply List.Forall_forall. apply (bool_decide_unpack _). vm_compute. exact I.
Qed.

Lemma contains_trans a b c : contains a b = true -> contains b c = true -> contains a c = true.
Proof.
  rewrite !contains_true. intros (x & y & ->) (x' & y' & ->). exists (x' ++ x), (y ++ y'). by rewrite <- !app_assoc.
Qed.

Section Theorems.
Context `{AhoCorasickLaws}.

Lemma patterns_star_free values : (forall s, s ∈ values -> STAR ∉ s) ->
  forall p, p ∈ sm_patterns (new_masker values) -> STAR ∉ p.
Proof.
  intros S p (s & line & I & P & _ & E & _)%elem_patterns C. apply (star_encodings _ _ E), elem_trim in C.
  apply (S s I). destruct P as [->|[_ P]]; [done|by eapply elem_lines].
Qed.

Lemma masked_clean values value : (forall s, s ∈ values -> STAR ∉ s) ->
  no_pattern (sm_patterns (new_masker values)) (mask (new_masker values) value).
Proof.
  intros S. eapply Masked_clean; [apply patterns_not_empty|by apply patterns_star_free|apply mask_Masked].
Qed.

Lemma contains_secret_false values value :
  no_pattern (sm_patterns (new_masker values)) value -> contains_secret (new_masker values) value = false.
Proof.
  unfold new_masker, contains_secret. destruct (sort_patterns _) as [|p ps]; cbn [sm_automaton sm_patterns]; [done|].
  destruct (ac_build _) as [a|] eqn:B; cbn [sm_automaton sm_patterns sm_literal_fallback]; intros N.
  - destruct (ac_find a value) as [[[b q] r]|] eqn:F; [|done]. exfalso.
    destruct (ac_find_some _ _ _ _ _ _ B F) as (I & V & _). specialize (N q I). apply not_true_iff_false in N.
    apply N, contains_true. eauto.
  - apply not_true_iff_false. intros (q & Q & C)%existsb_exists. rewrite <- list_elem_of_In in Q. by rewrite N in C.
Qed.

(** C12: no secret survives masking: unless a secret itself holds an asterisk,
    masked text holds no registered pattern at all (so the fail-closed test
    after masking passes), and in particular neither a secret of three or
    more characters nor a line of it, in none of its encoded forms, nor the
    Base64 encoding of a longer text around it when the secret ends a group
    of that encoding or ends the text. *)
Theorem no_secret_survives_masking (values : list text) (value secret line : text) :
  (forall s, s ∈ values -> STAR ∉ s) ->
  secret ∈ values -> piece_of secret line -> MIN_MASK_LENGTH <= length (trim line) ->
  let masked := mask (new_masker values) value in
  contains_secret (new_masker values) masked = false /\
  (forall form, form_of line form -> contains form masked = false) /\
  contains (trim line) masked = false /\
  (forall prefix suffix, group_ends prefix (as_bytes (trim line)) suffix ->
     contains (base64_encode_bytes (prefix ++ as_bytes (trim line) ++ suffix)) masked = false).
Proof.
  intros S I P L masked. pose proof (masked_clean values value S) as N. fold masked in N.
  assert (F : forall form, form_of line form -> contains form masked = false).
  { intros form F. apply N, elem_patterns. eauto. }
  split_and!; [by apply contains_secret_false|done| |].
  - apply F. split_and!; [done|unfold encodings; set_solver|done|].
    intros E. rewrite trim_twice in E. rewrite E in L. unfold MIN_MASK_LENGTH in L. cbn in L. lia.
  - intros prefix suffix G. apply not_true_iff_false. intros C.
    assert (E : contains (base64_encode_bytes (drop (shift_after prefix) (as_bytes (trim line)))) masked = false).
    { destruct G as [G _], (shift_after_spec prefix) as [K _].
      destruct (base64_long (drop (shift_after prefix) (as_bytes (trim line)))) as [B1 B2].
      { intros E. apply (f_equal length) in E. rewrite length_drop in E. cbn [length] in E. lia. }
      apply F. split_and!; try done. by apply base64_shift_registered. }
    rewrite (contains_trans _ _ _ (base64_embedded _ _ _ G) C) in E. done.
Qed.

End Theorems.

(** ** Witnesses *)

(** An automaton that searches for each pattern. *)
Fixpoint replace_loop (fuel : nat) (ps : list text) (replacement value : text) : text :=
  match fuel with
  | O => value
  | S fuel =>
      match fold_left (select value) ps None with
      | None => value
      | Some (b, p) => b ++ replacement ++ replace_loop fuel ps replacement (drop (length b + length p) value)
      end
  end.
#[local] Instance literal_automaton : AhoCorasick := {
  automaton := list text;
  ac_build ps := Some ps;
  ac_find ps value :=
    option_map (fun bp => (bp.1, bp.2, drop (length bp.1 + length bp.2) value)) (fold_left (select value) ps None);
  ac_replace_all ps replacement value := replace_loop (length value) ps replacement value;
}.

Lemma fold_select_empty ps : [] ∉ ps -> fold_left (select []) ps None = None.
Proof.
  intros N. pose proof (fold_select_ok [] ps) as S. destruct (fold_left _ _ _) as [[b p]|]; [|done].
  destruct S as (I & V & _). symmetry in V. apply app_eq_nil in V as [_ V]. apply app_eq_nil in V as [-> _]. done.
Qed.
Lemma replace_loop_enough ps r : [] ∉ ps -> forall n m v, length v <= n -> length v <= m ->
  replace_loop n ps r v = replace_loop m ps r v.
Proof.
  intros N. induction n as [|n IH]; intros m v L M.
  - destruct v; [|cbn in L; lia]. destruct m; cbn [replace_loop]; [done|]. by rewrite fold_select_empty.
  - destruct m as [|m].
    + destruct v; [|cbn in M; lia]. cbn [replace_loop]. by rewrite fold_select_empty.
    + cbn [replace_loop]. pose proof (fold_select_ok v ps) as S. destruct (fold_left _ _ _) as [[b p]|]; [|done].
      cbn [selected_ok] in S. apply (leftmost_shorter _ _ _ _ _ N) in S. rewrite (IH m); [done| |]; unfold text in *; lia.
Qed.

#[local] Instance literal_automaton_laws : AhoCorasickLaws.
Proof.
  split.
  - intros a ps v b p r [= <-] E. cbn in E. pose proof (fold_select_ok v ps) as S.
    destruct (fold_left _ _ _) as [[b' p']|]; [|done]. injection E as <- <- <-. exact S.
  - intros a ps v [= <-] E. cbn in E. pose proof (fold_select_ok v ps) as S. destruct (fold_left _ _ _); done.
  - intros a ps r v [= <-] N. cbn [ac_replace_all ac_find literal_automaton]. destruct v as [|c v].
    + cbn [length replace_loop]. by rewrite fold_select_empty.
    + cbn [length replace_loop]. pose proof (fold_select_ok (c :: v) ps) as S.
      destruct (fold_left _ _ _) as [[b p]|]; cbn [option_map fst snd]; [|done]. cbn [selected_ok] in S.
      apply (leftmost_shorter _ _ _ _ _ N) in S. do 2 f_equal. apply replace_loop_enough; [done| |done].
      cbn [length] in S. lia.
Defined.

Definition sample_secrets : list text := [txt "hunter2"; txt "top" ++ [LF] ++ txt "secret" ++ [LF]].

Example masking_sample :
  mask (new_masker sample_secrets) (txt "a hunter2! secret/top aHVudGVyMg==.") =
  txt "a ***! ***/*** ***.".
Proof. vm_compute. reflexivity. Qed.

Lemma no_secret_survives_masking_witness :
  contains_secret (new_masker sample_secrets) (mask (new_masker sample_secrets) (txt "b64: eHNlY3JldHk=")) = false /\
  contains (base64_encode_bytes ([120%N] ++ as_bytes (trim (txt "secret")) ++ []))
    (mask (new_masker sample_secrets) (txt "b64: eHNlY3JldHk=")) = false.
Proof.
  destruct (no_secret_survives_masking sample_secrets (txt "b64: eHNlY3JldHk=")
    (txt "top" ++ [LF] ++ txt "secret" ++ [LF]) (txt "secret")) as (A & _ & _ & B).
  - intros s I. rewrite list_elem_of_In in I. destruct I as [<-|[<-|[]]]; rewrite list_elem_of_In; vm_compute; intuition discriminate.
  - rewrite list_elem_of_In. right. left. reflexivity.
  - right. split; [left|]; rewrite list_elem_of_In; vm_compute; auto 10.
  - vm_compute. lia.
  - split; [exact A|]. apply B. split; [vm_compute; lia|right; reflexivity].
Defined.

(** The condition on asterisks is needed: a mark can complete such a secret. *)
Example asterisk_secret_survives :
  let m := new_masker [txt "hunter2"; txt "x***y"] in
  mask m (txt "xhunter2y") = txt "x***y" /\ contains_secret m (mask m (txt "xhunter2y")) = true.
Proof. vm_compute. split; reflexivity. Qed.

Lemma fallback_masks_alike_witness :
  mask (new_masker sample_secrets) (txt "secrets: hunter2") =
  mask_literal_fallback (new_masker sample_secrets) (txt "secrets: hunter2").
Proof. apply (fallback_masks_alike sample_secrets (txt "secrets: hunter2")). Defined.
