(* ===== verification/ScaleListener.v ===== *)
(** * Scale sets: the listener

    The poll, scale and acknowledge loop of
    [crates/velnor-runner/src/scaleset/listener.rs] with its durable cursor,
    and the retry policy of [scaleset/backoff.rs].

    The loop is a program of calls: to the session (statistics, identity, long
    poll, acknowledgement), to the permit ledger, to the processor
    ([ScaleProcessor], [ScaleReconcile]), and to the cursor table. The
    environment answers every call but those on the cursor table, which act on
    it or fail; the process may stop between any two calls. Metrics and log
    lines are left out; [stats_json] is the value it encodes. *)

From Stdlib Require Import ZArith Lia.
From stdpp Require Import base gmap list strings.
From S2P Require Import Prelude ScaleIds ScaleProcessor.
#[local] Open Scope Z_scope.

(** ** Retry policy *)

(** A [Duration] is its nanoseconds. *)
Definition DURATION_MAX : Z := 2 ^ 64 * 10 ^ 9 - 1.
Definition from_secs (s : Z) : Z := s * 10 ^ 9.
Definition saturating_mul (d k : Z) : Z := Z.min (d * k) DURATION_MAX.

Record RetryPolicy := { max_retries : Z; wait_min : Z; wait_max : Z; timeout : Z }.
Definition DEFAULT_RETRY_MAX : Z := 4.
Definition DEFAULT_RETRY_WAIT_MAX : Z := from_secs 30.
Definition DEFAULT_RETRY_WAIT_MIN : Z := from_secs 1.
Definition DEFAULT_LONG_POLL_TIMEOUT : Z := from_secs (5 * 60).
Definition default_policy : RetryPolicy := {|
  max_retries := DEFAULT_RETRY_MAX; wait_min := DEFAULT_RETRY_WAIT_MIN;
  wait_max := DEFAULT_RETRY_WAIT_MAX; timeout := DEFAULT_LONG_POLL_TIMEOUT |}.

Definition may_retry (p : RetryPolicy) (attempts : Z) : bool := attempts <? max_retries p.

Definition retryable_status (status : Z) (admin_handshake : bool) : bool :=
  if admin_handshake && ((status =? 401) || (status =? 403)) then true
  else if status =? 429 then true
  else (500 <=? status) && negb (status =? 501).

Definition retryable_transport_flags (builder redirect timeout certificate_verification : bool) : bool :=
  negb (builder || redirect || timeout || certificate_verification).

Definition delay_for_attempt (p : RetryPolicy) (attempt : Z) : Z :=
  let shift := Z.min attempt 10 in
  let scaled := saturating_mul (wait_min p) (Z.shiftl 1 shift) in
  Z.min scaled (wait_max p).

Inductive PollOutcomeClass := PollMessageClass | PollNilClass | PollErrorClass.
Record IdlePolicy := { nil_delay : Z }.

Definition poll_delay (p : RetryPolicy) (outcome : PollOutcomeClass) (consecutive_errors : Z) (idle : IdlePolicy) : Z :=
  match outcome with
  | PollMessageClass => 0
  | PollNilClass => nil_delay idle
  | PollErrorClass => delay_for_attempt p (u32_saturating_sub consecutive_errors 1)
  end.

(** ** The cursor table *)

Record SessionCursor := {
  sc_scale_set_id : Z;
  sc_session_id : string;
  sc_owner : string;
  sc_last_message_id : Z;
  sc_stats_json : option RunnerScaleSetStatistic;
  sc_generation : Z }.

(** [scaleset_sessions], by its primary key. *)
Abbreviation sessions := (gmap Z SessionCursor).

Definition set_generation (g : Z) (c : SessionCursor) : SessionCursor :=
  {| sc_scale_set_id := sc_scale_set_id c; sc_session_id := sc_session_id c; sc_owner := sc_owner c;
     sc_last_message_id := sc_last_message_id c; sc_stats_json := sc_stats_json c; sc_generation := g |}.

Definition get_cursor (scale_set_id : Z) (db : sessions) : option SessionCursor :=
  (fun c => set_generation (Z.max (sc_generation c) 0) c) <$> db !! scale_set_id.
Definition upsert_cursor (c : SessionCursor) (db : sessions) : sessions :=
  <[sc_scale_set_id c := set_generation (Z.min (sc_generation c) i64_max) c]> db.

(** ** Programs of calls *)

Inductive PollResult :=
| PollCancelled
| PollFailed
| PollNothing
| PollGot (m : RunnerScaleSetMessage).

(** What a call was and how it was answered. *)
Inductive event :=
| EvStatistics (stats : option RunnerScaleSetStatistic)
| EvIdentity (session_id owner : string)
| EvGeneration (answer : option Z)
| EvReadCursor (answer : option (option SessionCursor))
| EvWriteCursor (c : SessionCursor) (ok : bool)
| EvStartup (ok : bool)
| EvAdvertise (free : Z)
| EvPoll (last_message_id max_capacity : Z) (answer : PollResult)
| EvShutdown (flag : bool)
| EvCachedStats (stats : RunnerScaleSetStatistic)
| EvIdleTick (ok : bool)
| EvIdlePoll (generation : Z) (ok : bool)
| EvScale (m : option RunnerScaleSetMessage) (answer : option ScaleKind)
| EvAck (message_id : Z) (ok : bool)
| EvSleep (delay : Z).

Inductive lp (A : Type) : Type :=
| Done (a : A)
| Call (R : Type) (ev : R -> event) (possible : sessions -> R -> Prop) (effect : sessions -> R -> sessions)
    (k : R -> lp A).
Arguments Done {A} a.
Arguments Call {A R} ev possible effect k.

Fixpoint lp_bind {A B} (p : lp A) (f : A -> lp B) : lp B :=
  match p with
  | Done a => f a
  | Call ev possible effect k => Call ev possible effect (fun r => lp_bind (k r) f)
  end.

(** A call that only the environment answers. *)
Definition ask {R} (ev : R -> event) : lp R := Call ev (fun _ _ => True) (fun db _ => db) Done.
(** A read of the cursor of a set: what is stored, or a failure. *)
Definition read_cursor (scale_set_id : Z) : lp (option (option SessionCursor)) :=
  Call EvReadCursor (fun db r => r = None \/ r = Some (get_cursor scale_set_id db)) (fun db _ => db) Done.
Definition write_cursor (c : SessionCursor) : lp bool :=
  Call (EvWriteCursor c) (fun _ _ => True) (fun db (ok : bool) => if ok then upsert_cursor c db else db) Done.

Inductive ListenerError :=
| LePoll | LeAck | LeScale | LeStore | LeLedger | LeReconcile | LeMissingSessionStats | LeShuttingDown.

Record LoopConfig := { cfg_scale_set_id : Z; cfg_retry : RetryPolicy; cfg_idle : IdlePolicy }.

(** The fields of the listener that change. *)
Record Listener := {
  started : bool;
  reconciled_generation : option Z;
  consecutive_errors : Z }.
Definition new_listener : Listener :=
  {| started := false; reconciled_generation := None; consecutive_errors := 0 |}.

(** Methods: state passing over programs, with early returns. *)
Definition lm (A : Type) : Type := Listener -> lp (Listener * result A ListenerError).
Definition lm_ret {A} (a : A) : lm A := fun l => Done (l, Ok a).
Definition lm_fail {A} (e : ListenerError) : lm A := fun l => Done (l, Err e).
Definition lm_bind {A B} (m : lm A) (f : A -> lm B) : lm B := fun l =>
  lp_bind (m l) (fun '(l, r) => match r with Ok a => f a l | Err e => Done (l, Err e) end).
Definition lift {A} (p : lp A) : lm A := fun l => lp_bind p (fun a => Done (l, Ok a)).
Declare Scope listener_scope.
Delimit Scope listener_scope with listener.
Notation "'do' x <- c ; k" := (lm_bind c (fun x => k))
  (at level 100, x binder, c at level 99, k at level 200, right associativity) : listener_scope.
#[local] Open Scope listener_scope.

(** [map_err(e)?] of an answer that may be missing. *)
Definition or_fail {A} (e : ListenerError) (p : lp (option A)) : lm A :=
  do r <- lift p; match r with Some a => lm_ret a | None => lm_fail e end.
Definition ok_or_fail (e : ListenerError) (p : lp bool) : lm unit :=
  do ok <- lift p; if ok : bool then lm_ret tt else lm_fail e.

Definition set_started : lm unit := fun l =>
  Done ({| started := true; reconciled_generation := reconciled_generation l;
           consecutive_errors := consecutive_errors l |}, Ok tt).
Definition set_reconciled (g : Z) : lm unit := fun l =>
  Done ({| started := started l; reconciled_generation := Some g;
           consecutive_errors := consecutive_errors l |}, Ok tt).
Definition get_listener : lm Listener := fun l => Done (l, Ok l).

Section Loop.
Context (cfg : LoopConfig).
Let set_id := cfg_scale_set_id cfg.

Definition no_cursor : SessionCursor := {|
  sc_scale_set_id := set_id; sc_session_id := ""; sc_owner := ""; sc_last_message_id := 0;
  sc_stats_json := None; sc_generation := 0 |}.
Definition load_or_default : lm SessionCursor :=
  do row <- or_fail LeStore (read_cursor set_id); lm_ret (default no_cursor row).

Definition save_session (session_id owner : string) (generation : Z) : lm unit :=
  do c <- load_or_default;
  let last := if decide (sc_session_id c = session_id) then sc_last_message_id c else 0 in
  ok_or_fail LeStore (write_cursor
    {| sc_scale_set_id := sc_scale_set_id c; sc_session_id := session_id; sc_owner := owner;
       sc_last_message_id := last; sc_stats_json := sc_stats_json c; sc_generation := generation |}).

Definition save_cursor (last_message_id generation : Z) : lm unit :=
  do c <- load_or_default;
  ok_or_fail LeStore (write_cursor
    {| sc_scale_set_id := sc_scale_set_id c; sc_session_id := sc_session_id c; sc_owner := sc_owner c;
       sc_last_message_id := last_message_id; sc_stats_json := sc_stats_json c; sc_generation := generation |}).

Definition save_stats (stats : RunnerScaleSetStatistic) (generation : Z) : lm unit :=
  do c <- load_or_default;
  ok_or_fail LeStore (write_cursor
    {| sc_scale_set_id := sc_scale_set_id c; sc_session_id := sc_session_id c; sc_owner := sc_owner c;
       sc_last_message_id := sc_last_message_id c; sc_stats_json := Some stats; sc_generation := generation |}).

Definition ledger_generation : lm Z := or_fail LeLedger (ask EvGeneration).

Definition handshake : lm unit :=
  do stats <- or_fail LeMissingSessionStats (ask EvStatistics);
  do identity <- lift (ask (fun io : string * string => EvIdentity io.1 io.2));
  do generation <- ledger_generation;
  do _ <- save_session identity.1 identity.2 generation;
  do _ <- save_stats stats generation;
  let initial := {| message_id := INITIAL_MESSAGE_ID; statistics := Some stats; job_available_messages := [];
                    job_assigned_messages := []; job_started_messages := []; job_completed_messages := [] |} in
  do _ <- or_fail LeScale (ask (EvScale (Some initial)));
  lm_ret tt.

Definition scale_nil (generation : Z) : lm ScaleKind :=
  do stats <- lift (ask EvStatistics);
  do _ <- match stats with
          | Some stats => do _ <- save_stats stats generation; lift (ask (fun _ : unit => EvCachedStats stats))
          | None => lm_ret tt
          end;
  do _ <- ok_or_fail LeScale (ask EvIdleTick);
  do _ <- ok_or_fail LeReconcile (ask (EvIdlePoll generation));
  or_fail LeScale (ask (EvScale None)).

Definition listener_scale_message (m : RunnerScaleSetMessage) (generation : Z) : lm ScaleKind :=
  do _ <- match statistics m with Some stats => save_stats stats generation | None => lm_ret tt end;
  do outcome <- or_fail LeScale (ask (EvScale (Some m)));
  do _ <- ok_or_fail LeAck (ask (EvAck (message_id m)));
  do _ <- save_cursor (message_id m) generation;
  lm_ret outcome.

(** [reconciled_generation != Some(generation)]. *)
Definition reconcile_epoch (generation : Z) : lm unit :=
  do l <- get_listener;
  if decide (reconciled_generation l = Some generation) then lm_ret tt
  else do _ <- ok_or_fail LeReconcile (ask EvStartup); set_reconciled generation.

Definition i32_capacity (capacity : Z) : Z := Z.min capacity (2 ^ 31 - 1).

(** The long poll, raced against the shutdown flag when there is one, which
    is looked at once more behind it. *)
Definition poll (shutdown : bool) (last capacity : Z) : lm (option RunnerScaleSetMessage) :=
  do polled <- lift (ask (EvPoll last (i32_capacity capacity)));
  match polled with
  | PollFailed => lm_fail LePoll
  | PollCancelled => if shutdown then lm_fail LeShuttingDown else lm_fail LePoll
  | PollNothing | PollGot _ =>
      do draining <- (if shutdown then lift (ask EvShutdown) else lm_ret false);
      if draining : bool then lm_fail LeShuttingDown
      else lm_ret (match polled with PollGot m => Some m | _ => None end)
  end.

Definition run_once_inner (shutdown : bool) : lm ScaleKind :=
  do l <- get_listener;
  do _ <- (if started l then lm_ret tt else do _ <- handshake; set_started);
  do generation <- ledger_generation;
  do _ <- reconcile_epoch generation;
  do capacity <- lift (ask EvAdvertise);
  do row <- or_fail LeStore (read_cursor set_id);
  let last := match row with Some c => sc_last_message_id c | None => 0 end in
  do polled <- poll shutdown last capacity;
  match polled with
  | None => scale_nil generation
  | Some m => listener_scale_message m generation
  end.

Definition count_errors (r : Listener * result ScaleKind ListenerError) : Listener * result ScaleKind ListenerError :=
  let '(l, outcome) := r in
  ({| started := started l; reconciled_generation := reconciled_generation l;
      consecutive_errors := match outcome with
                            | Ok _ => 0
                            | Err _ => u32_saturating_add (consecutive_errors l) 1
                            end |}, outcome).
Definition run_once_with_shutdown (shutdown : bool) : lm ScaleKind := fun l =>
  lp_bind (run_once_inner shutdown l) (fun r => Done (count_errors r)).
Definition run_once : lm ScaleKind := run_once_with_shutdown false.

(** One turn of [run]: the listener for the next turn, or nothing when the
    loop returns. *)
Definition run_turn (l : Listener) : lp (option Listener) :=
  lp_bind (ask EvShutdown) (fun flag : bool =>
    if flag then Done None
    else lp_bind (run_once_with_shutdown true l) (fun '(l, outcome) =>
      match outcome with
      | Err LeShuttingDown => Done None
      | _ =>
          let class := match outcome with
                       | Ok KNil => PollNilClass
                       | Ok (KMessage _ | KInitial) => PollMessageClass
                       | Err _ => PollErrorClass
                       end in
          let delay := poll_delay (cfg_retry cfg) class (consecutive_errors l) (cfg_idle cfg) in
          if delay =? 0 then Done (Some l) else lp_bind (ask (fun _ : unit => EvSleep delay)) (fun _ => Done (Some l))
      end)).

(** ** Executions *)

(** A run of a program that ends with a result, or stops before. *)
Inductive lruns {A} : sessions -> lp A -> list event -> sessions -> option A -> Prop :=
| lruns_done db a : lruns db (Done a) [] db (Some a)
| lruns_stop db p : lruns db p [] db None
| lruns_call R ev possible effect k db (r : R) tr db' o :
    possible db r -> lruns (effect db r) (k r) tr db' o ->
    lruns db (Call ev possible effect k) (ev r :: tr) db' o.

(** A process: turns of the loop until it returns or dies. *)
Inductive process : Listener -> sessions -> list event -> sessions -> Prop :=
| process_ends l db tr db' o : o = None \/ o = Some None -> lruns db (run_turn l) tr db' o -> process l db tr db'
| process_turn l db tr db1 l' tr' db' :
    lruns db (run_turn l) tr db1 (Some (Some l')) -> process l' db1 tr' db' -> process l db (tr ++ tr') db'.

(** Processes one after the other over the same table: the trace of each. *)
Inductive history : list (list event) -> sessions -> Prop :=
| history_start : history [] ∅
| history_process trs db tr db' : history trs db -> process new_listener db tr db' -> history (trs ++ [tr]) db'.

End Loop.
