(* ===== verification/ScaleListenerProofs.v ===== *)
(** * Scale sets: the listener's protocol

    What the listener of [ScaleListener] promises to the message queue, as a
    monitor that reads the calls one by one and refuses the first that is out
    of order: a poll carries the stored cursor and the capacity advertised
    after the startup pass of the current epoch, only the message just scaled
    is acknowledged, and the cursor moves only behind an acknowledgement.
    Every history of processes is accepted, and what the monitor allows gives
    the delivery guarantee; the last section is about the retry policy. *)

From Stdlib Require Import ZArith Lia.
From stdpp Require Import base gmap list strings.
From S2P Require Import Prelude ScaleIds ScaleProcessor ScaleListener.
#[local] Open Scope Z_scope.

#[export] Instance RunnerScaleSetStatistic_eq_dec : EqDecision RunnerScaleSetStatistic.
Proof. solve_decision. Defined.
#[export] Instance ScaleSetJobMessage_eq_dec : EqDecision ScaleSetJobMessage.
Proof. solve_decision. Defined.
#[export] Instance ScaleSetJobStarted_eq_dec : EqDecision ScaleSetJobStarted.
Proof. solve_decision. Defined.
#[export] Instance ScaleSetJobCompleted_eq_dec : EqDecision ScaleSetJobCompleted.
Proof. solve_decision. Defined.
#[export] Instance RunnerScaleSetMessage_eq_dec : EqDecision RunnerScaleSetMessage.
Proof. solve_decision. Defined.

(** ** The monitor *)

(** The session and message id of a row of the cursor table. *)
Definition cursor_of (row : option SessionCursor) : string * Z :=
  match row with Some c => (sc_session_id c, sc_last_message_id c) | None => ("", 0) end.

(** Where the message in hand is. *)
Inductive stage :=
| Idle
| Polled (m : RunnerScaleSetMessage)
| Scaled (message_id : Z)
| Acked (message_id : Z).
#[export] Instance stage_eq_dec : EqDecision stage.
Proof. solve_decision. Defined.

Record monitor := {
  w_cursor : string * Z;       (* what is stored *)
  w_identity : option string;  (* the session of this process *)
  w_generation : option Z;     (* the epoch last read *)
  w_epoch : option Z;          (* the epoch the startup pass ended for *)
  w_free : option Z;           (* advertised for the next poll *)
  w_stage : stage }.

(** What a process starts from: the stored cursor and nothing else. *)
Definition restart (cur : string * Z) : monitor := {|
  w_cursor := cur; w_identity := None; w_generation := None; w_epoch := None; w_free := None; w_stage := Idle |}.
Definition set_cursor (cur : string * Z) (s : monitor) : monitor := {|
  w_cursor := cur; w_identity := w_identity s; w_generation := w_generation s; w_epoch := w_epoch s;
  w_free := w_free s; w_stage := w_stage s |}.
Definition set_identity (who : string) (s : monitor) : monitor := {|
  w_cursor := w_cursor s; w_identity := Some who; w_generation := w_generation s; w_epoch := w_epoch s;
  w_free := w_free s; w_stage := w_stage s |}.
Definition set_read (gen : option Z) (s : monitor) : monitor := {|
  w_cursor := w_cursor s; w_identity := w_identity s; w_generation := gen; w_epoch := w_epoch s;
  w_free := None; w_stage := w_stage s |}.
Definition set_epoch (epoch : option Z) (s : monitor) : monitor := {|
  w_cursor := w_cursor s; w_identity := w_identity s; w_generation := w_generation s; w_epoch := epoch;
  w_free := w_free s; w_stage := w_stage s |}.
Definition set_free (free : option Z) (s : monitor) : monitor := {|
  w_cursor := w_cursor s; w_identity := w_identity s; w_generation := w_generation s; w_epoch := w_epoch s;
  w_free := free; w_stage := w_stage s |}.
Definition set_stage (st : stage) (s : monitor) : monitor := {|
  w_cursor := w_cursor s; w_identity := w_identity s; w_generation := w_generation s; w_epoch := w_epoch s;
  w_free := w_free s; w_stage := st |}.

Definition require (P : Prop) `{Decision P} (s : monitor) : option monitor := if decide P then Some s else None.

(** The cursor may be rewritten as it is, taken over by the session of a
    process that has not polled yet (from the start when it is another), or
    moved to the message just acknowledged. *)
Definition may_write (s : monitor) (new : string * Z) : Prop :=
  new = w_cursor s
  \/ (w_epoch s = None /\ w_identity s = Some new.1 /\ new.2 = if decide ((w_cursor s).1 = new.1) then (w_cursor s).2 else 0)
  \/ (new.1 = (w_cursor s).1 /\ w_stage s = Acked new.2).
#[export] Instance may_write_dec s new : Decision (may_write s new).
Proof. unfold may_write. apply _. Defined.

Definition watch (s : monitor) (e : event) : option monitor :=
  match e with
  | EvReadCursor (Some row) => require (cursor_of row = w_cursor s) s
  | EvIdentity session_id _ => require (w_epoch s = None) (set_identity session_id s)
  | EvGeneration answer => Some (set_read answer s)
  | EvStartup ok => require (is_Some (w_generation s)) (if ok then set_epoch (w_generation s) s else s)
  | EvAdvertise n => require (is_Some (w_epoch s) /\ w_epoch s = w_generation s) (set_free (Some n) s)
  | EvPoll last capacity answer =>
      require (w_identity s = Some (w_cursor s).1 /\ last = (w_cursor s).2 /\ is_Some (w_epoch s)
               /\ w_epoch s = w_generation s /\ i32_capacity <$> w_free s = Some capacity)
        (set_stage (match answer with PollGot m => Polled m | _ => Idle end) (set_free None s))
  | EvScale (Some m) answer =>
      match w_stage s with
      | Polled polled =>
          require (m = polled) (set_stage (match answer with Some _ => Scaled (message_id m) | None => Idle end) s)
      | _ => require (w_epoch s = None /\ message_id m = INITIAL_MESSAGE_ID) s
      end
  | EvAck n ok => require (w_stage s = Scaled n) (set_stage (if ok then Acked n else Idle) s)
  | EvWriteCursor c ok =>
      require (may_write s (cursor_of (Some c))) (if ok then set_cursor (cursor_of (Some c)) s else s)
  | _ => Some s
  end.

Fixpoint watch_all (s : monitor) (tr : list event) : option monitor :=
  match tr with [] => Some s | e :: tr => s ← watch s e; watch_all s tr end.
(** The traces of processes that follow one another. *)
Fixpoint watch_history (s : monitor) (trs : list (list event)) : option monitor :=
  match trs with [] => Some s | tr :: trs => s ← watch_all (restart (w_cursor s)) tr; watch_history s trs end.

Lemma watch_all_app s tr1 tr2 : watch_all s (tr1 ++ tr2) = s' ← watch_all s tr1; watch_all s' tr2.
Proof. revert s; induction tr1 as [|e tr1 IH]; intros s; simpl; [done|]. destruct (watch s e); simpl; auto. Qed.
Lemma watch_history_app s trs1 trs2 :
  watch_history s (trs1 ++ trs2) = s' ← watch_history s trs1; watch_history s' trs2.
Proof.
  revert s; induction trs1 as [|tr trs1 IH]; intros s; simpl; [done|]. destruct (watch_all (restart (w_cursor s)) tr); simpl; auto.
Qed.
Lemma require_ok P `{Decision P} s : P -> require P s = Some s.
Proof. intros. unfold require. by rewrite decide_True. Qed.
Lemma require_inv P `{Decision P} s s' : require P s = Some s' -> P /\ s' = s.
Proof. unfold require. case_decide; naive_solver. Qed.

(** ** Programs under the monitor *)

Section Follows.
Context (cfg : LoopConfig).

(** The stored cursor is what the monitor holds. *)
Definition tied (db : sessions) (s : monitor) : Prop :=
  w_cursor s = cursor_of (db !! cfg_scale_set_id cfg)
  /\ forall c, db !! cfg_scale_set_id cfg = Some c -> sc_scale_set_id c = cfg_scale_set_id cfg.

(** Every call of the program, however answered, is accepted and leaves the
    stored cursor tied; the result satisfies [Q]. *)
Fixpoint follows {A} (p : lp A) (Q : sessions -> monitor -> A -> Prop) (db : sessions) (s : monitor) : Prop :=
  match p with
  | Done a => Q db s a
  | Call ev possible effect k => forall r, possible db r ->
      exists s', watch s (ev r) = Some s' /\ tied (effect db r) s' /\ follows (k r) Q (effect db r) s'
  end.

Lemma follows_bind {A B} (p : lp A) (f : A -> lp B) Q db s :
  follows p (fun db s a => follows (f a) Q db s) db s -> follows (lp_bind p f) Q db s.
Proof.
  revert db s; induction p as [a|R ev possible effect k IH]; intros db s H; simpl in *; [done|].
  intros r Hr. destruct (H r Hr) as (s' & ? & ? & ?). eauto.
Qed.
Lemma follows_mono {A} (p : lp A) (Q Q' : _ -> _ -> A -> Prop) db s :
  follows p Q db s -> (forall db s a, Q db s a -> Q' db s a) -> follows p Q' db s.
Proof.
  revert db s; induction p as [a|R ev possible effect k IH]; intros db s H HQ; simpl in *; [auto|].
  intros r Hr. destruct (H r Hr) as (s' & ? & ? & ?). eauto 6.
Qed.

Lemma follows_runs {A} (p : lp A) Q db s tr db' o :
  tied db s -> follows p Q db s -> lruns db p tr db' o ->
  exists s', watch_all s tr = Some s' /\ tied db' s' /\ forall a, o = Some a -> Q db' s' a.
Proof.
  intros Ht Hf Hr. revert s Ht Hf; induction Hr as [db a|db p|R ev possible effect k db r tr db' o Hp Hr IH];
    intros s Ht Hf; simpl in *.
  - exists s; split_and!; try done. by intros ? [= <-].
  - exists s; naive_solver.
  - destruct (Hf r Hp) as (s1 & Hw & Ht1 & Hk). rewrite Hw. simpl. apply IH; auto.
Qed.

Lemma follows_lm_bind {A B} (m : lm A) (f : A -> lm B) l Q db s :
  follows (m l) (fun db s r => match r.2 with
                               | Ok a => follows (f a r.1) Q db s
                               | Err e => Q db s (r.1, Err e)
                               end) db s ->
  follows (lm_bind m f l) Q db s.
Proof.
  intros H. apply follows_bind. eapply follows_mono; [exact H|]. intros ? ? [l' [a|e]]; simpl; auto.
Qed.

(** ** The methods *)

Lemma set_cursor_id s : set_cursor (w_cursor s) s = s.
Proof. by destruct s. Qed.
Lemma cursor_of_get set db : cursor_of (get_cursor set db) = cursor_of (db !! set).
Proof. unfold get_cursor. by destruct (db !! set). Qed.

(** A read of the row, a change of it and its write. *)
Lemma follows_rewrite (f : SessionCursor -> SessionCursor) cur l Q db s :
  tied db s ->
  (forall c, cursor_of (Some c) = w_cursor s -> cursor_of (Some (f c)) = cur /\ sc_scale_set_id (f c) = sc_scale_set_id c) ->
  may_write s cur ->
  (forall e, Q db s (l, Err e)) ->
  (forall db', tied db' (set_cursor cur s) -> Q db' (set_cursor cur s) (l, Ok tt)) ->
  follows (lm_bind (load_or_default cfg) (fun c => ok_or_fail LeStore (write_cursor (f c))) l) Q db s.
Proof.
  intros [Ht Hk] Hf Hw He Hq r Hr. exists s. split_and!; [| split; done |].
  { destruct Hr as [->| ->]; [done|]. cbn [watch]. apply require_ok. by rewrite cursor_of_get. }
  destruct Hr as [->| ->]; [apply He|].
  set (c := default (no_cursor cfg) (get_cursor (cfg_scale_set_id cfg) db)).
  assert (cursor_of (Some c) = w_cursor s /\ sc_scale_set_id c = cfg_scale_set_id cfg) as [Hc Hid].
  { rewrite Ht. subst c. unfold get_cursor. destruct (db !! cfg_scale_set_id cfg) eqn:E; simpl; [|done]. auto. }
  destruct (Hf c Hc) as [Hcur Hset].
  assert (tied (upsert_cursor (f c) db) (set_cursor cur s)) as Ht'.
  { unfold tied, upsert_cursor. rewrite Hset, Hid, lookup_insert_eq. split; [by rewrite <- Hcur|].
    by intros ? [= <-]; simpl; rewrite Hset. }
  change (follows (ok_or_fail LeStore (write_cursor (f c)) l) Q db s).
  intros ok _. exists (if ok : bool then set_cursor cur s else s). split_and!.
  - cbn [watch]. rewrite require_ok by (by rewrite Hcur). rewrite Hcur. by destruct ok.
  - destruct ok; [exact Ht'|split; done].
  - destruct ok; simpl; [by apply Hq|apply He].
Qed.

Lemma follows_save_stats stats g l Q db s :
  tied db s -> (forall db' r, tied db' s -> Q db' s (l, r)) -> follows (save_stats cfg stats g l) Q db s.
Proof.
  intros Ht Hq. apply (follows_rewrite _ (w_cursor s)); auto; [by left|].
  intros db'. rewrite set_cursor_id. auto.
Qed.

(** Calls that leave the cursor alone. *)
Lemma follows_lift {R} (ev : R -> event) l Q db s :
  (forall r, exists s', watch s (ev r) = Some s' /\ tied db s' /\ Q db s' (l, Ok r)) ->
  follows (lift (ask ev) l) Q db s.
Proof. intros H r _. apply H. Qed.
Lemma follows_or_fail {A} e (ev : option A -> event) l Q db s :
  (forall r, exists s', watch s (ev r) = Some s' /\ tied db s' /\ Q db s' (l, match r with Some a => Ok a | None => Err e end)) ->
  follows (or_fail e (ask ev) l) Q db s.
Proof. intros H r _. destruct (H r) as (s' & ? & ? & ?). exists s'. by destruct r. Qed.
Lemma follows_ok_or_fail e (ev : bool -> event) l Q db s :
  (forall r : bool, exists s', watch s (ev r) = Some s' /\ tied db s' /\ Q db s' (l, if r then Ok tt else Err e)) ->
  follows (ok_or_fail e (ask ev) l) Q db s.
Proof. intros H r _. destruct (H r) as (s' & ? & ? & ?). exists s'. by destruct r. Qed.

(** The listener's fields and the monitor agree. *)
Record linked (l : Listener) (db : sessions) (s : monitor) : Prop := {
  linked_tied : tied db s;
  linked_epoch : w_epoch s = reconciled_generation l;
  linked_session : started l = true -> w_identity s = Some (w_cursor s).1;
  linked_fresh : started l = false -> reconciled_generation l = None /\ w_stage s = Idle }.
Definition still {A} (l : Listener) (db : sessions) (s : monitor) (r : Listener * result A ListenerError) : Prop :=
  r.1 = l /\ linked l db s.
Lemma still_ret {A} l db s (r : result A ListenerError) : linked l db s -> still l db s (l, r).
Proof. done. Qed.
Lemma linked_step l db s s' :
  linked l db s -> w_cursor s' = w_cursor s -> w_epoch s' = w_epoch s -> w_identity s' = w_identity s ->
  started l = true \/ w_stage s' = w_stage s -> linked l db s'.
Proof.
  intros [[? ?] ? ? ?] Hc He Hi Hs. split; rewrite ?Hi, ?Hc, ?He; auto.
  - split; [congruence|auto].
  - intros. destruct Hs as [| ->]; [congruence|auto].
Qed.
Lemma linked_cursor l db db' s cur :
  linked l db s -> cur.1 = (w_cursor s).1 -> tied db' (set_cursor cur s) -> linked l db' (set_cursor cur s).
Proof. intros [? ? ? ?] Hc Ht. split; simpl; rewrite ?Hc; auto. Qed.

(** A call that leaves the session, the epoch and the cursor alone. *)
Ltac kept := eapply linked_step; [eassumption|reflexivity..|first [left; assumption | right; reflexivity]].

Lemma follows_scale_nil g l db s :
  linked l db s -> follows (scale_nil cfg g l) (still l) db s.
Proof.
  intros Hl. apply follows_lm_bind, follows_lift. intros stats. exists s. split_and!; [done|apply Hl|].
  apply follows_lm_bind.
  assert (forall db', linked l db' s ->
    follows (lm_bind (ok_or_fail LeScale (ask EvIdleTick)) (fun _ =>
      lm_bind (ok_or_fail LeReconcile (ask (EvIdlePoll g))) (fun _ => or_fail LeScale (ask (EvScale None)))) l) (still l) db' s) as Hrest.
  { intros db' Hl'. apply follows_lm_bind, follows_ok_or_fail. intros ok. exists s.
    split_and!; [done|apply Hl'|]. destruct ok; [|by apply still_ret].
    apply follows_lm_bind, follows_ok_or_fail. intros ok. exists s.
    split_and!; [done|apply Hl'|]. destruct ok; [|by apply still_ret].
    apply follows_or_fail. intros k. exists s. split_and!; [done|apply Hl'|by apply still_ret]. }
  destruct stats as [stats|]; [|by apply Hrest].
  apply follows_lm_bind, follows_save_stats; [apply Hl|]. intros db' r Ht.
  assert (linked l db' s) by (destruct Hl; by split).
  destruct r; [|by apply still_ret].
  apply follows_lift. intros []. exists s. split_and!; [done|done|by apply Hrest].
Qed.

Lemma follows_scale_message m g l db s :
  linked l db s -> started l = true -> w_stage s = Polled m -> follows (listener_scale_message cfg m g l) (still l) db s.
Proof.
  intros Hl Hs Hm. apply follows_lm_bind.
  assert (forall db', linked l db' s ->
    follows (lm_bind (or_fail LeScale (ask (EvScale (Some m)))) (fun outcome =>
      lm_bind (ok_or_fail LeAck (ask (EvAck (message_id m)))) (fun _ =>
        lm_bind (save_cursor cfg (message_id m) g) (fun _ => lm_ret outcome))) l) (still l) db' s) as Hrest.
  { intros db' Hl'. apply follows_lm_bind, follows_or_fail. intros k.
    eexists. split_and!; [simpl; rewrite Hm; by apply require_ok|apply Hl'|].
    destruct k as [k|]; [|apply still_ret; kept].
    apply follows_lm_bind, follows_ok_or_fail. intros ok.
    eexists. split_and!; [by apply require_ok|apply Hl'|].
    destruct ok; [|apply still_ret; kept].
    apply follows_lm_bind. apply (follows_rewrite _ ((w_cursor s).1, message_id m)).
    - apply Hl'.
    - intros c Hc. simpl in *. by rewrite <- Hc.
    - right. right. done.
    - intros e. apply still_ret. kept.
    - intros db'' Ht. apply still_ret. eapply linked_cursor; [kept|done|exact Ht]. }
  destruct (statistics m) as [stats|]; [|by apply Hrest].
  apply follows_save_stats; [apply Hl|]. intros db' r Ht.
  assert (linked l db' s) by (destruct Hl; by split).
  destruct r; [by apply Hrest|by apply still_ret].
Qed.

Lemma follows_reconcile_epoch g l db s :
  linked l db s -> started l = true -> w_generation s = Some g ->
  follows (reconcile_epoch g l) (fun db' s' r =>
    linked r.1 db' s' /\ started r.1 = true
    /\ (r.2 = Ok tt -> w_epoch s' = Some g /\ w_generation s' = Some g)) db s.
Proof.
  intros Hl Hs Hg. apply follows_lm_bind. simpl. destruct (decide (reconciled_generation l = Some g)) as [Hd|Hd].
  { split; [done|]. split; [done|]. intros _. by rewrite (linked_epoch _ _ _ Hl). }
  apply follows_lm_bind, follows_ok_or_fail. intros ok. eexists. split_and!.
  - apply require_ok. by rewrite Hg.
  - destruct ok; apply Hl.
  - destruct ok; simpl; [|done]. rewrite Hg. split; [|done].
    destruct Hl as [Ht ? Hi ?]. split; simpl; auto. congruence.
Qed.

Lemma follows_handshake l db s :
  linked l db s -> started l = false ->
  follows (handshake cfg l) (fun db' s' r =>
    r.1 = l /\ linked l db' s' /\ (r.2 = Ok tt -> w_identity s' = Some (w_cursor s').1)) db s.
Proof.
  intros Hl Hs. destruct (linked_fresh _ _ _ Hl Hs) as [Hr Hst].
  apply follows_lm_bind, follows_or_fail. intros stats. exists s. split_and!; [done|apply Hl|].
  destruct stats as [stats|]; [|done].
  apply follows_lm_bind, follows_lift. intros [who owner]. eexists. split_and!.
  { apply require_ok. by rewrite (linked_epoch _ _ _ Hl). }
  { apply Hl. }
  apply follows_lm_bind, follows_or_fail. intros g. eexists. split_and!; [reflexivity|apply Hl|].
  set (s1 := set_read g (set_identity who s)).
  assert (linked l db s1) as Hl1 by (destruct Hl; split; [done|done|congruence|auto]).
  destruct g as [g|]; [|done].
  set (cur := (who, if decide ((w_cursor s).1 = who) then (w_cursor s).2 else 0)).
  apply follows_lm_bind, (follows_rewrite _ cur).
  - apply Hl.
  - intros c Hc. split; [|done]. subst cur. simpl in *. by rewrite <- Hc.
  - right. left. simpl. by rewrite (linked_epoch _ _ _ Hl).
  - intros e. done.
  - intros db1 Ht1.
    assert (linked l db1 (set_cursor cur s1)) as Hl2 by (destruct Hl1; split; [done|done|congruence|auto]).
    apply follows_lm_bind, follows_save_stats; [done|]. intros db2 r Ht2.
    assert (linked l db2 (set_cursor cur s1)) as Hl3 by (destruct Hl2; by split).
    destruct r as [[]|e]; [|done].
    apply follows_lm_bind, follows_or_fail. intros k. exists (set_cursor cur s1).
    split_and!; [|done|by destruct k].
    simpl. rewrite Hst. apply require_ok. by rewrite (linked_epoch _ _ _ Hl).
Qed.

Lemma follows_poll shutdown free l db s :
  linked l db s -> started l = true -> is_Some (w_epoch s) -> w_epoch s = w_generation s -> w_free s = Some free ->
  follows (poll shutdown (w_cursor s).2 free l) (fun db' s' r =>
    r.1 = l /\ linked l db' s' /\ forall m, r.2 = Ok (Some m) -> w_stage s' = Polled m) db s.
Proof.
  intros Hl Hs He Hg Hf. apply follows_lm_bind, follows_lift. intros answer.
  eexists. split_and!; [apply require_ok|apply Hl|].
  { split_and!; [by apply Hl|done|done|done|by rewrite Hf]. }
  set (s1 := set_stage _ _).
  assert (linked l db s1) as Hl1 by (subst s1; kept).
  destruct answer as [| | |m]; [by destruct shutdown|done| |];
    (destruct shutdown; [|by split_and!; [..|naive_solver]]);
    apply follows_lm_bind, follows_lift; intros flag; exists s1; (split_and!; [done|apply Hl1|]);
    destruct flag; simpl; split_and!; try done; naive_solver.
Qed.

Lemma follows_run_once shutdown l db s :
  linked l db s -> follows (run_once_inner cfg shutdown l) (fun db' s' r => linked r.1 db' s') db s.
Proof.
  intros Hl. unfold run_once_inner. apply follows_lm_bind. simpl.
  apply follows_lm_bind.
  apply (follows_mono _ (fun db' s' r => linked r.1 db' s' /\ (r.2 = Ok tt -> started r.1 = true))).
  { destruct (started l) eqn:Hs; [done|].
    apply follows_lm_bind. eapply follows_mono; [by apply follows_handshake|].
    intros db' s' [l' [[]|e]]; simpl; intros (-> & Hl' & Hi); [|by split].
    split; [|done]. destruct Hl' as [? ? ? Hfr]. destruct (Hfr Hs). split; simpl; auto. }
  clear l db s Hl. intros db s [l [[]|e]]; cbn [fst snd]; intros [Hl Hs]; [|exact Hl]. specialize (Hs eq_refl).
  apply follows_lm_bind, follows_or_fail. intros g. eexists. split_and!; [reflexivity|apply Hl|].
  assert (linked l db (set_read g s)) as Hl1 by kept.
  destruct g as [g|]; [|done]. apply follows_lm_bind.
  eapply follows_mono; [by apply follows_reconcile_epoch|]. clear l db s Hl Hs Hl1.
  intros db s [l [[]|e]]; cbn [fst snd]; intros (Hl & Hs & He); [|exact Hl]. destruct (He eq_refl) as [He1 Hg1].
  apply follows_lm_bind, follows_lift. intros free. eexists. split_and!; [by apply require_ok; rewrite He1, Hg1|apply Hl|].
  assert (linked l db (set_free (Some free) s)) as Hl1 by kept.
  apply follows_lm_bind. intros row Hrow. exists (set_free (Some free) s).
  split_and!; [|apply Hl|].
  { destruct Hrow as [->| ->]; [done|]. apply require_ok. rewrite cursor_of_get. by destruct Hl as [[? ?] ?]. }
  destruct Hrow as [->| ->]; [done|].
  assert (match get_cursor (cfg_scale_set_id cfg) db with Some c => sc_last_message_id c | None => 0 end
          = (w_cursor (set_free (Some free) s)).2) as Hlast.
  { destruct Hl as [[Hc ?] ?]. simpl. rewrite Hc. unfold get_cursor. by destruct (db !! _). }
  cbn [fst snd follows lp_bind or_fail lm_bind lift lm_ret]. rewrite Hlast. apply follows_lm_bind. eapply follows_mono.
  { apply follows_poll; simpl; [done|done|by rewrite He1|by rewrite He1, Hg1|done]. }
  intros db' s' [l' [[m|]|e]]; cbn [fst snd]; intros (-> & Hl' & Hm); [| |exact Hl'].
  - eapply follows_mono; [apply follows_scale_message; auto|]. by intros ? ? ? [-> ?].
  - eapply follows_mono; [by apply follows_scale_nil|]. by intros ? ? ? [-> ?].
Qed.

Lemma follows_run_turn l db s :
  linked l db s ->
  follows (run_turn cfg l) (fun db' s' o => forall l', o = Some l' -> linked l' db' s') db s.
Proof.
  intros Hl flag _. exists s. split_and!; [done|apply Hl|]. destruct flag; [done|].
  cbn [lp_bind]. unfold run_once_with_shutdown. apply follows_bind, follows_bind. eapply follows_mono; [by apply follows_run_once|].
  clear l db s Hl. intros db s [l outcome] Hl. cbn [count_errors fst] in *.
  set (l1 := Build_Listener _ _ _).
  assert (linked l1 db s) as Hl1 by (by destruct Hl; split).
  assert (forall d, follows (if d =? 0 then Done (Some l1) else lp_bind (ask (fun _ : unit => EvSleep d)) (fun _ => Done (Some l1)))
            (fun db' s' o => forall l', o = Some l' -> linked l' db' s') db s) as Hsleep.
  { intros d. destruct (d =? 0); [by intros ? [= <-]|]. intros [] _. exists s.
    split_and!; [done|apply Hl|]. by intros ? [= <-]. }
  destruct outcome as [k|[]]; first [apply Hsleep | done].
Qed.

Lemma process_accepted l db tr db' s :
  process cfg l db tr db' -> linked l db s -> exists s', watch_all s tr = Some s' /\ tied db' s'.
Proof.
  intros Hp. revert s; induction Hp as [l db tr db' o Ho Hr|l db tr db1 l' tr' db' Hr Hp IH]; intros s Hl.
  - destruct (follows_runs _ _ _ _ _ _ _ (linked_tied _ _ _ Hl) (follows_run_turn _ _ _ Hl) Hr) as (s' & ? & ? & _).
    eauto.
  - destruct (follows_runs _ _ _ _ _ _ _ (linked_tied _ _ _ Hl) (follows_run_turn _ _ _ Hl) Hr) as (s1 & Hw & ? & Hl1).
    destruct (IH s1) as (s' & ? & ?); [by eapply Hl1|]. exists s'. by rewrite watch_all_app, Hw.
Qed.

Lemma linked_restart db s : tied db s -> linked new_listener db (restart (w_cursor s)).
Proof. intros Ht. by split. Qed.

Lemma history_accepted trs db :
  history cfg trs db -> exists s, watch_history (restart ("", 0)) trs = Some s /\ tied db s.
Proof.
  induction 1 as [|trs db tr db' Hh (s & Hw & Ht) Hp].
  - exists (restart ("", 0)). split; [done|]. split; [done|]. intros c. by rewrite lookup_empty.
  - destruct (process_accepted _ _ _ _ _ Hp (linked_restart _ _ Ht)) as (s' & Hs' & Ht').
    exists s'. rewrite watch_history_app, Hw. simpl. by rewrite Hs'.
Qed.
End Follows.

(** ** What the monitor guarantees *)

(** The calls of a trace by which the message [n] of session [who] was
    polled, scaled without an error and acknowledged, in this order. *)
Definition delivered (who : string) (n : Z) (tr : list event) : Prop :=
  exists o last cap m k, message_id m = n
    /\ [EvIdentity who o; EvPoll last cap (PollGot m); EvScale (Some m) (Some k); EvAck n true] `sublist_of` tr.
Definition scaled (who : string) (n : Z) (tr : list event) : Prop :=
  exists o last cap m k, message_id m = n
    /\ [EvIdentity who o; EvPoll last cap (PollGot m); EvScale (Some m) (Some k)] `sublist_of` tr.
Definition evidence (who : string) (st : stage) (tr : list event) : Prop :=
  match st with
  | Idle => True
  | Polled m => exists o last cap, [EvIdentity who o; EvPoll last cap (PollGot m)] `sublist_of` tr
  | Scaled n => scaled who n tr
  | Acked n => delivered who n tr
  end.

(** Behind the traces [past] and the calls [tr] of the current process. *)
Record grounded (past : list (list event)) (tr : list event) (s : monitor) : Prop := {
  grounded_identity : forall who, w_identity s = Some who -> exists o, EvIdentity who o ∈ tr;
  grounded_polling : w_stage s <> Idle -> is_Some (w_epoch s) /\ w_identity s = Some (w_cursor s).1;
  grounded_stage : evidence (w_cursor s).1 (w_stage s) tr;
  grounded_cursor : (w_cursor s).2 = 0 \/ exists t, t ∈ past ++ [tr] /\ delivered (w_cursor s).1 (w_cursor s).2 t }.

Lemma delivered_mono who n tr tr' : delivered who n tr -> delivered who n (tr ++ tr').
Proof. intros (o & last & cap & m & k & ? & H). exists o, last, cap, m, k. split; [done|]. by apply sublist_inserts_r. Qed.
Lemma evidence_mono who st tr tr' : evidence who st tr -> evidence who st (tr ++ tr').
Proof.
  destruct st; simpl; [done| | |apply delivered_mono].
  - intros (o & last & cap & H). exists o, last, cap. by apply sublist_inserts_r.
  - intros (o & last & cap & m & k & ? & H). exists o, last, cap, m, k. split; [done|]. by apply sublist_inserts_r.
Qed.
Lemma sublist_snoc {A} (l tr : list A) e : l `sublist_of` tr -> l ++ [e] `sublist_of` tr ++ [e].
Proof. intros. by apply sublist_app. Qed.

Lemma grounded_extend past tr s e : grounded past tr s -> grounded past (tr ++ [e]) s.
Proof.
  intros [Hi Hp Hs Hc]. split; [|done|by apply evidence_mono|].
  - intros who Hw. destruct (Hi who Hw) as [o ?]. exists o. set_solver.
  - destruct Hc as [|(t & Ht & Hd)]; [by left|right].
    apply elem_of_app in Ht as [Ht|Ht%list_elem_of_singleton]; [exists t; set_solver|subst t].
    exists (tr ++ [e]). split; [set_solver|by apply delivered_mono].
Qed.
Lemma grounded_same past tr s s' :
  grounded past tr s -> w_identity s' = w_identity s -> w_cursor s' = w_cursor s -> w_stage s' = w_stage s ->
  (is_Some (w_epoch s) -> is_Some (w_epoch s')) -> grounded past tr s'.
Proof. intros [Hi Hp Hs Hc] E1 E2 E3 E4. split; rewrite ?E1, ?E2, ?E3; naive_solver. Qed.
Lemma grounded_stage_set past tr s st :
  grounded past tr s -> (st <> Idle -> is_Some (w_epoch s) /\ w_identity s = Some (w_cursor s).1) ->
  evidence (w_cursor s).1 st tr -> grounded past tr (set_stage st s).
Proof. intros [Hi Hp Hs Hc] H1 H2. by split. Qed.

Lemma grounded_write past tr s c :
  grounded past tr s -> may_write s (cursor_of (Some c)) -> grounded past tr (set_cursor (cursor_of (Some c)) s).
Proof.
  generalize (cursor_of (Some c)); intros new Hg [->|[(He & Hi & Hn)|(Hs & Ha)]].
  - by rewrite set_cursor_id.
  - destruct Hg as [Hid Hp Hst Hc].
    assert (w_stage s = Idle) as Hidle.
    { destruct (decide (w_stage s = Idle)) as [|Hne]; [done|]. destruct (Hp Hne) as [[? ?] _]. congruence. }
    split; simpl; rewrite ?Hidle; [done..|]. case_decide as Hw; [|by left]. by rewrite <- Hw, Hn.
  - destruct Hg as [Hid Hp Hst Hc]. split; simpl; rewrite ?Hs; [done..|].
    right. exists tr. split; [set_solver|]. by rewrite Ha in Hst.
Qed.

Lemma grounded_watch past tr s e s' :
  watch s e = Some s' -> grounded past tr s -> grounded past (tr ++ [e]) s'.
Proof.
  intros Hw Hg. pose proof (grounded_extend _ _ _ e Hg) as Hx.
  destruct e as [| | |row|c ok| | |last cap ans| | | | |[m|] k|n ok|]; simpl in Hw;
    try (injection Hw as <-; first [exact Hx | by eapply grounded_same; [exact Hx|..]]).
  - apply require_inv in Hw as [He ->].
    assert (w_stage s = Idle) as Hidle.
    { destruct (decide (w_stage s = Idle)) as [|Hne]; [done|].
      destruct (grounded_polling _ _ _ Hg Hne) as [[? ?] _]. congruence. }
    destruct Hx as [Hi Hp Hs Hc]. split; simpl; rewrite ?Hidle; [|done..].
    intros who [= <-]. eexists. apply elem_of_app. right. by apply list_elem_of_singleton.
  - destruct row; [by apply require_inv in Hw as [_ ->]|by injection Hw as <-].
  - apply require_inv in Hw as [Hm ->]. destruct ok; [by apply grounded_write|done].
  - apply require_inv in Hw as [Hm ->]. destruct ok; [|done]. by eapply grounded_same; [exact Hx|..].
  - apply require_inv in Hw as [Hm ->]. by eapply grounded_same; [exact Hx|..].
  - apply require_inv in Hw as [(Hi & _ & He & _) ->]. apply grounded_stage_set; [by eapply grounded_same; [exact Hx|..]|done|].
    destruct ans as [| | |m]; [done..|]. destruct (grounded_identity _ _ _ Hg _ Hi) as [o Ho].
    exists o, last, cap. apply (sublist_snoc [EvIdentity _ o]), singleton_sublist_l, Ho.
  - destruct (w_stage s) as [|polled| |] eqn:Est;
      try (apply require_inv in Hw as [_ ->]; exact Hx).
    apply require_inv in Hw as [-> ->].
    apply grounded_stage_set; [done|intros _; apply Hg; by rewrite Est|].
    destruct k as [k|]; [|done]. pose proof (grounded_stage _ _ _ Hg) as Hev. rewrite Est in Hev.
    destruct Hev as (o & last & cap & Hsub). exists o, last, cap, polled, k. split; [done|]. by apply (sublist_snoc [_; _]).
  - apply require_inv in Hw as [Est ->].
    apply grounded_stage_set; [done|intros _; apply Hg; by rewrite Est|].
    destruct ok; [|done]. pose proof (grounded_stage _ _ _ Hg) as Hev. rewrite Est in Hev.
    destruct Hev as (o & last & cap & m & k & Hm & Hsub). exists o, last, cap, m, k. split; [done|].
    by apply (sublist_snoc [_; _; _]).
Qed.

Lemma grounded_watch_all past tr tr' s s' :
  watch_all s tr' = Some s' -> grounded past tr s -> grounded past (tr ++ tr') s'.
Proof.
  revert tr s; induction tr' as [|e tr' IH]; intros tr s Hw Hg; simpl in Hw.
  - injection Hw as <-. by rewrite app_nil_r.
  - destruct (watch s e) as [s1|] eqn:E; [|done]. rewrite cons_middle, app_assoc.
    eapply IH; [exact Hw|]. by eapply grounded_watch.
Qed.

Lemma grounded_restart past s tr :
  grounded past tr s -> grounded (past ++ [tr]) [] (restart (w_cursor s)).
Proof.
  intros [Hi Hp Hs Hc]. split; [done..|]. destruct Hc as [|(t & Ht & ?)]; [by left|right]. exists t. set_solver.
Qed.

Lemma grounded_history past trs s s' :
  watch_history s trs = Some s' -> grounded past [] (restart (w_cursor s)) ->
  grounded (past ++ trs) [] (restart (w_cursor s')).
Proof.
  revert past s; induction trs as [|tr trs IH]; intros past s Hw Hg; simpl in Hw.
  - injection Hw as <-. by rewrite app_nil_r.
  - destruct (watch_all _ tr) as [s1|] eqn:E; [|done]. rewrite cons_middle, app_assoc. eapply IH; [exact Hw|].
    apply grounded_restart. by eapply (grounded_watch_all _ []) in E.
Qed.

(** The monitor in the middle of a history, right before a call. *)
Lemma watched_call cfg past pre e post future db :
  history cfg (past ++ (pre ++ e :: post) :: future) db ->
  exists s s', grounded past pre s /\ watch s e = Some s'.
Proof.
  intros (s' & Hw & _)%history_accepted.
  rewrite watch_history_app in Hw. destruct (watch_history _ past) as [sp|] eqn:Ep; [|done]. simpl in Hw.
  rewrite watch_all_app in Hw. destruct (watch_all (restart (w_cursor sp)) pre) as [s1|] eqn:E1; [|done]. simpl in Hw.
  destruct (watch s1 e) as [s2|] eqn:E2; [|done].
  exists s1, s2. split; [|done]. apply (grounded_watch_all _ [] _ _ _ E1).
  apply (grounded_history [] _ _ _ Ep). split; [done..|by left].
Qed.

(** ** Theorems *)

(** C20: every history of listener processes over one cursor table, each
    stopped at any point and each call answered in any way, keeps the
    protocol: capacity is advertised and polls are sent only for an epoch
    whose startup pass ended without an error, a poll carries the stored
    message id of this process's session and the capacity last advertised,
    only the message just polled is scaled, only a message scaled without an
    error is acknowledged, and the stored id moves only to a message just
    acknowledged or back to zero for another session. *)
Theorem listener_keeps_the_protocol cfg trs db :
  history cfg trs db ->
  exists s, watch_history (restart ("", 0)) trs = Some s
    /\ w_cursor s = cursor_of (db !! cfg_scale_set_id cfg).
Proof. intros (s & ? & ? & _)%history_accepted. eauto. Qed.

(** C16: no message is skipped. Across restarts, when a process polls behind a
    message id other than zero, some process of the same session, this one or
    an earlier one, polled that message, scaled it without an error and had
    its acknowledgement accepted; and no message is acknowledged before it
    was polled and scaled without an error by the acknowledging process. *)
Theorem no_message_is_skipped cfg past pre post future db e :
  history cfg (past ++ (pre ++ e :: post) :: future) db ->
  match e with
  | EvPoll last _ _ =>
      exists who o, EvIdentity who o ∈ pre
        /\ (last = 0 \/ exists tr, tr ∈ past ++ [pre] /\ delivered who last tr)
  | EvAck n _ => exists who, scaled who n pre
  | _ => True
  end.
Proof.
  intros (s & s' & Hg & Hw)%watched_call. destruct e; try done; simpl in Hw.
  - apply require_inv in Hw as [(Hi & -> & _) _]. destruct (grounded_identity _ _ _ Hg _ Hi) as [o Ho].
    eexists _, o. split; [exact Ho|]. apply Hg.
  - apply require_inv in Hw as [Hs _]. pose proof (grounded_stage _ _ _ Hg) as He. rewrite Hs in He. eauto.
Qed.

(** The pause behind the [n]-th failed turn in a row doubles from the minimum
    up to the maximum; the ten doublings the code stops at and the saturation
    of durations do not show as long as the maximum is within them, as it is
    by default. *)
Theorem backoff_doubles_to_its_cap p n idle :
  0 <= wait_min p -> wait_max p <= DURATION_MAX -> wait_max p <= 2 ^ 10 * wait_min p -> 1 <= n <= u32_max ->
  poll_delay p PollErrorClass n idle = Z.min (wait_min p * 2 ^ (n - 1)) (wait_max p).
Proof.
  intros Hmin Hmax Hcap Hn. cbn [poll_delay]. unfold delay_for_attempt, saturating_mul, u32_saturating_sub.
  rewrite (Z.max_l (n - 1) 0), Z.shiftl_mul_pow2, Z.mul_1_l by lia.
  destruct (Z.le_gt_cases (n - 1) 10) as [H|H].
  - rewrite (Z.min_l (n - 1) 10) by lia. lia.
  - rewrite (Z.min_r (n - 1) 10) by lia.
    assert (2 ^ 10 <= 2 ^ (n - 1)) by (apply Z.pow_le_mono_r; lia).
    assert (2 ^ 10 * wait_min p <= 2 ^ (n - 1) * wait_min p) by (apply Z.mul_le_mono_nonneg_r; lia). lia.
Qed.

Lemma default_backoff n idle :
  1 <= n <= u32_max ->
  poll_delay default_policy PollErrorClass n idle = Z.min (from_secs (2 ^ (n - 1))) (from_secs 30).
Proof.
  intros. rewrite backoff_doubles_to_its_cap; [|done..|done]. cbn [default_policy wait_min wait_max].
  unfold DEFAULT_RETRY_WAIT_MIN, DEFAULT_RETRY_WAIT_MAX, from_secs. lia.
Qed.

(** ** A history *)

(** A process that polls one message, settles it and dies after the next poll
    is sent; then one whose poll is behind that message. *)
Definition sample_config : LoopConfig :=
  {| cfg_scale_set_id := 7; cfg_retry := default_policy; cfg_idle := {| nil_delay := from_secs 1 |} |}.
Definition sample_message : RunnerScaleSetMessage := {|
  message_id := 41; statistics := None; job_available_messages := []; job_assigned_messages := [];
  job_started_messages := []; job_completed_messages := [] |}.
Definition sample_stats : RunnerScaleSetStatistic := {| total_assigned_jobs := 1 |}.

Definition sample_cursor (last : Z) (stats : option RunnerScaleSetStatistic) : SessionCursor := {|
  sc_scale_set_id := 7; sc_session_id := "session"; sc_owner := "host"; sc_last_message_id := last;
  sc_stats_json := stats; sc_generation := 5 |}.

(** One call answered with [r]. *)
Ltac answer r := eapply (lruns_call _ _ _ _ _ _ r); [first [exact I | right; vm_compute; reflexivity]|cbn].
Ltac stored c := answer (Some (Some c)).

Lemma sample_first : exists tr, history sample_config [tr] {[7 := sample_cursor 41 (Some sample_stats)]}.
Proof.
  eexists. apply (history_process _ [] ∅); [constructor|]. eapply process_ends; [by left|].
  answer false. answer (Some sample_stats). answer ("session", "host"). answer (Some 5).
  answer (Some (@None SessionCursor)). answer true.
  stored (sample_cursor 0 None). answer true. answer (Some KInitial).
  answer (Some 5). answer true. answer 3. stored (sample_cursor 0 (Some sample_stats)).
  answer (PollGot sample_message). answer false. answer (Some (KMessage 41)). answer true.
  stored (sample_cursor 0 (Some sample_stats)). answer true. apply lruns_stop.
Qed.

Lemma sample_history : exists past pre db, history sample_config (past ++ (pre ++ EvPoll 41 3 PollFailed :: []) :: []) db.
Proof.
  destruct sample_first as [tr Htr]. exists [tr].
  enough (exists tr' db, history sample_config ([tr] ++ [tr']) db /\ tr' = removelast tr' ++ [EvPoll 41 3 PollFailed])
    as (tr' & db & Hh & Heq) by (exists (removelast tr'), db; by rewrite <- Heq).
  eexists _, _. split.
  - eapply history_process; [exact Htr|]. eapply process_ends; [by left|].
    answer false. answer (Some sample_stats). answer ("session", "host"). answer (Some 5).
    stored (sample_cursor 41 (Some sample_stats)). answer true.
    stored (sample_cursor 41 (Some sample_stats)). answer true. answer (Some KInitial).
    answer (Some 5). answer true. answer 3. stored (sample_cursor 41 (Some sample_stats)).
    answer PollFailed. apply lruns_stop.
  - reflexivity.
Qed.

Lemma listener_keeps_the_protocol_witness :
  exists trs s, watch_history (restart ("", 0)) trs = Some s /\ w_cursor s = ("session", 41).
Proof.
  destruct sample_first as [tr Htr]. exists [tr].
  destruct (listener_keeps_the_protocol _ _ _ Htr) as (s & Hs & Hc). exists s. split; [exact Hs|].
  rewrite Hc. vm_compute. reflexivity.
Defined.

Lemma no_message_is_skipped_witness :
  exists past pre tr who, tr ∈ past ++ [pre] /\ delivered who 41 tr.
Proof.
  destruct sample_history as (past & pre & db & H).
  destruct (no_message_is_skipped _ _ _ _ _ _ _ H) as (who & o & _ & [H0|(tr & Htr & Hd)]); [discriminate H0|].
  exists past, pre, tr, who. split; assumption.
Defined.
