(* ===== verification/ControlLogs.v ===== *)
(** * The log service

    [crates/velnor-control/src/logs.rs]: a bounded buffer of redacted records
    that readers follow with cursors. Text goes through the masker of
    [Redaction]; Unicode normalization (the [unicode_normalization] package)
    and SHA-256 are interfaces. The lock of the state is not modelled: an
    operation is one step, and a poisoned lock, which needs a panic inside
    one, does not occur. *)

From Stdlib Require Import ZArith Lia Ascii.
From stdpp Require Import base list strings.
From S2P Require Import Prelude ExprText TextOps Redaction VsockCodec.
#[local] Open Scope Z_scope.

Definition MAX_BUFFER : Z := 16384.
Definition MAX_RECORD_BYTES : Z := 256 * 1024.
Definition MAX_BUFFER_BYTES : Z := 16 * 1024 * 1024.
Definition MAX_SUBJECT_BYTES : Z := 512.
Definition MAX_SECRET_COUNT : Z := 64.
Definition MAX_SECRET_BYTES : Z := 16 * 1024.

(** [usize] and [u64] have 64 bits. *)
Definition str_len (s : text) : Z := Z.of_nat (byte_len s).

Inductive PortError :=
| PAuthorization (operation : string)
| PUnavailable (resource : string)
| PUnsupported (operation : string)
| PInvalid (field message : string)
| PConflict (operation : string)
| POperation (operation : string).

Record LogItem := {
  li_subject : text;
  li_cursor : text;
  li_source : text;
  li_sequence : Z;
  li_message : text }.
Record LogRequest := {
  lr_subject : text;
  lr_source : option text;
  lr_cursor : option text;
  lr_limit : Z }.
Record LogState := {
  ls_generation : Z;
  ls_next_sequence : Z;
  ls_bytes : Z;
  ls_records : list LogItem }.
Record LogService := { svc_state : LogState; svc_supported : bool }.

Definition empty_log : LogState := {| ls_generation := 0; ls_next_sequence := 0; ls_bytes := 0; ls_records := [] |}.
Definition with_support (supported : bool) : LogService := {| svc_state := empty_log; svc_supported := supported |}.
Definition new_log_service : LogService := with_support true.
Definition unsupported_service : LogService := with_support false.
Definition unsupported : PortError := PUnsupported "read logs".

Definition record_bytes (r : LogItem) : Z :=
  u64_saturating_add (u64_saturating_add (u64_saturating_add (str_len (li_subject r)) (str_len (li_cursor r))) (str_len (li_source r)))
    (str_len (li_message r)).

(** [char::is_control]: the characters of category Cc. *)
Definition is_control (c : char) : bool := in_range 0%N 31%N c || in_range 127%N 159%N c.
Definition valid_identity (value : text) : bool :=
  negb (bool_decide (trim value = [])) && (str_len value <=? MAX_SUBJECT_BYTES) && negb (existsb is_control value).

(** [str::parse::<u64>]. *)
Definition parse_u64 (s : text) : option Z :=
  let digits := match s with c :: rest => if is_chr "+"%char c then rest else s | [] => s end in
  if negb (bool_decide (digits = [])) && forallb is_ascii_digit digits then
    if digits_value digits <=? u64_max then Some (digits_value digits) else None
  else None.

(** [windows(2)] of the bytes; the bytes looked for are below 128, so the
    characters show the same. *)
Fixpoint has_entity (s : text) : bool :=
  match s with
  | a :: (b :: _) as rest => is_chr "&"%char a && (is_chr "#"%char b || is_ascii_alphabetic b) || has_entity rest
  | _ => false
  end.
Definition has_encoded_syntax (input : text) : bool :=
  existsb (is_chr "%"%char) input || existsb (is_chr "\"%char) input || has_entity input.

Class Nfkc := nfkc : text -> text.

Section Logs.
Context `{AhoCorasick, Nfkc, Sha256}.
#[local] Open Scope result_scope.

Definition contains_unredacted_secret (message : text) (secrets : list text) : bool :=
  if forallb (fun secret => bool_decide (secret = [])) secrets then false
  else
    existsb (fun secret => negb (bool_decide (secret = [])) && contains (nfkc secret) (nfkc message)) secrets
    || negb (bool_decide (secrets = [])) && has_encoded_syntax message.

Definition replace_literal_secrets (message : text) (secrets : list text) : result text PortError :=
  let masker := new_masker secrets in
  if is_empty masker then Ok message
  else
    let output := mask masker message in
    if MAX_RECORD_BYTES <? str_len output
    then Err (PInvalid "message" "message must be at most 262144 bytes after redaction")
    else Ok output.

Definition redact_message (message : text) (secrets : list text) : result text PortError :=
  if MAX_RECORD_BYTES <? str_len message
  then Err (PInvalid "message" "message must be at most 262144 bytes")
  else
    let secret_bytes := fold_left (fun total secret => u64_saturating_add total (str_len secret)) secrets 0 in
    if (MAX_SECRET_COUNT <? Z.of_nat (length secrets)) || (MAX_SECRET_BYTES <? secret_bytes)
    then Err (PInvalid "secrets" "secret registry exceeds bounded limits")
    else
      let? output := replace_literal_secrets message secrets in
      if contains_unredacted_secret output secrets
      then Err (PInvalid "message" "message contains an encoded secret and was rejected")
      else Ok output.

Definition cursor_fingerprint (subject source : text) : text :=
  hex_lower (sha256 (as_bytes subject ++ [0%N] ++ as_bytes source)).
Definition COLON : char := chr ":"%char.
Definition make_cursor (generation sequence : Z) (subject source : text) : text :=
  txt "v2:" ++ decimal generation ++ [COLON] ++ decimal sequence ++ [COLON] ++ cursor_fingerprint subject source.

Definition malformed : PortError := PInvalid "cursor" "malformed log cursor".
Definition parse_cursor (raw subject source : text) : result (Z * Z) PortError :=
  match strip_prefix (txt "v2:") raw with
  | None => Err malformed
  | Some raw =>
      match split_at (N.eqb COLON) raw with
      | generation :: sequence :: fingerprint :: more =>
          if negb (bool_decide (more = [])) || negb (bool_decide (fingerprint = cursor_fingerprint subject source))
          then Err (PInvalid "cursor" "log cursor does not belong to this stream")
          else
            match parse_u64 generation with
            | None => Err malformed
            | Some generation =>
                match parse_u64 sequence with
                | None => Err malformed
                | Some sequence => Ok (generation, sequence)
                end
            end
      | _ => Err malformed
      end
  end.

(** The loop that makes room; [None] when it would not end, because there is
    nothing left to drop. *)
Fixpoint evict (records : list LogItem) (bytes generation : Z) : option (list LogItem * Z * Z) :=
  if (MAX_BUFFER <? Z.of_nat (length records)) || (MAX_BUFFER_BYTES <? bytes) then
    match records with
    | record :: rest => evict rest (u64_saturating_sub bytes (record_bytes record)) (u64_saturating_add generation 1)
    | [] => None
    end
  else Some (records, bytes, generation).

Definition push_record (st : LogState) (subject source sanitized : text) : option (LogState * result text PortError) :=
  let sequence := ls_next_sequence st in
  let next := u64_saturating_add (ls_next_sequence st) 1 in
  let cursor := make_cursor (ls_generation st) sequence subject source in
  let record_size :=
    u64_saturating_add (u64_saturating_add (u64_saturating_add (str_len subject) (str_len source)) (str_len cursor)) (str_len sanitized) in
  if MAX_BUFFER_BYTES <? record_size then
    Some ({| ls_generation := ls_generation st; ls_next_sequence := next; ls_bytes := ls_bytes st;
             ls_records := ls_records st |},
          Err (PInvalid "message" "log record must be at most 16777216 bytes"))
  else
    let item := {| li_subject := subject; li_cursor := cursor; li_source := source; li_sequence := sequence;
                   li_message := sanitized |} in
    match evict (ls_records st ++ [item]) (u64_saturating_add (ls_bytes st) record_size) (ls_generation st) with
    | None => None
    | Some (records, bytes, generation) =>
        Some ({| ls_generation := generation; ls_next_sequence := next; ls_bytes := bytes; ls_records := records |},
              Ok cursor)
    end.

(** [LogService::append]: the service behind the call and its answer; [None]
    when the call would not return. *)
Definition append (svc : LogService) (subject source message : text) (secrets : list text)
    : option (LogService * result text PortError) :=
  if negb (svc_supported svc) then Some (svc, Err unsupported)
  else if negb (valid_identity subject) || negb (valid_identity source) then
    Some (svc, Err (PInvalid "subject/source" "subject and source are required, control-free, and at most 512 bytes"))
  else
    match redact_message message secrets with
    | Err e => Some (svc, Err e)
    | Ok sanitized =>
        if MAX_RECORD_BYTES <? str_len sanitized then
          Some (svc, Err (PInvalid "message" "message must be at most 262144 bytes after redaction"))
        else if contains_unredacted_secret subject secrets || contains_unredacted_secret source secrets then
          Some (svc, Err (PInvalid "subject/source" "subject and source must not contain secrets"))
        else
          match push_record (svc_state svc) subject source sanitized with
          | None => None
          | Some (st, answer) => Some ({| svc_state := st; svc_supported := svc_supported svc |}, answer)
          end
    end.

(** The records of a stream: one subject, of one source or of all. *)
Definition in_stream (subject : text) (source : option text) (r : LogItem) : bool :=
  bool_decide (li_subject r = subject)
  && match source with Some source => bool_decide (source = li_source r) | None => true end.

(** The loop over the selected records: [count] and [bytes] of the result so
    far. *)
Fixpoint page (limit count bytes : Z) (records : list LogItem) : list LogItem :=
  match records with
  | [] => []
  | record :: rest =>
      if negb (count =? 0) && (MAX_BUFFER_BYTES <? u64_saturating_add bytes (record_bytes record)) then []
      else if count + 1 =? limit then [record]
      else record :: page limit (count + 1) (u64_saturating_add bytes (record_bytes record)) rest
  end.

Definition check_position (st : LogState) (after : option (Z * Z)) : result unit PortError :=
  match after with
  | None => Ok tt
  | Some (generation, sequence) =>
      if ls_next_sequence st <=? sequence
      then Err (PInvalid "cursor" "log cursor is ahead of the stream")
      else if negb (generation =? ls_generation st)
              && match ls_records st with record :: _ => sequence <? li_sequence record | [] => false end
      then Err (PConflict "log cursor expired; resnapshot required")
      else Ok tt
  end.

(** [LogService::logs]. *)
Definition logs (svc : LogService) (request : LogRequest) : result (list LogItem) PortError :=
  if negb (svc_supported svc) then Err unsupported
  else if negb (valid_identity (lr_subject request))
          || match lr_source request with Some source => negb (valid_identity source) | None => false end
          || (lr_limit request =? 0) || (MAX_BUFFER <? lr_limit request)
  then Err (PInvalid "subject/limit"
              "subject/source must be nonempty, control-free, and at most 512 bytes; limit must be 1..16384")
  else
    let st := svc_state svc in
    let? after :=
      match lr_cursor request with
      | None => Ok None
      | Some cursor =>
          let? position := parse_cursor cursor (lr_subject request) (default [] (lr_source request)) in
          Ok (Some position)
      end in
    let? _ := check_position st after in
    Ok (page (lr_limit request) 0 0
          (filter (fun r => match after with Some (_, sequence) => sequence <? li_sequence r | None => true end = true)
             (filter (fun r => in_stream (lr_subject request) (lr_source request) r = true) (ls_records st)))).
End Logs.
