(* ===== verification/ControlLogProofs.v ===== *)
(** * The log service: cursors and bounds

    The buffer of [ControlLogs] is a window on the log that would have been
    kept without bounds. The abstract log is the list of all records ever
    appended; a read with a cursor is a read of that log, or a refusal. *)

From Stdlib Require Import ZArith Lia Ascii.
From stdpp Require Import base list strings sets.
From S2P Require Import Prelude ExprText TextOps Utf8 Redaction RedactionProofs VsockCodec VsockProofs ControlLogs.
#[local] Open Scope Z_scope.

#[export] Instance LogItem_eq_dec : EqDecision LogItem.
Proof. solve_decision. Defined.

(** ** Text of cursors *)

Lemma parse_u64_decimal n : 0 <= n <= u64_max -> parse_u64 (decimal n) = Some n.
Proof.
  intros Hn. destruct (decimal_spec n) as (Hne & Hv & Hd); [lia|]. unfold parse_u64.
  destruct (decimal n) as [|c rest] eqn:E; [done|].
  assert (is_chr "+"%char c = false) as ->.
  { apply Forall_inv in Hd. destruct (is_chr "+"%char c) eqn:Hc; [|done].
    apply N.eqb_eq in Hc. subst c. discriminate Hd. }
  rewrite bool_decide_eq_false_2 by done. cbn [negb andb].
  rewrite (proj2 (forallb_forall _ _)) by (intros x Hx; rewrite Forall_forall in Hd; apply Hd, list_elem_of_In, Hx).
  rewrite Hv. by rewrite (proj2 (Z.leb_le _ _)) by lia.
Qed.

Lemma no_colon_digits s : Forall (fun c => is_ascii_digit c = true) s -> Forall (fun c => (COLON =? c)%N = false) s.
Proof.
  intros F. eapply Forall_impl; [exact F|]. intros c Hc. destruct (N.eqb_spec COLON c) as [<-|]; [discriminate Hc|done].
Qed.
Lemma no_colon_hex b : Forall (fun c => (COLON =? c)%N = false) (hex_lower b).
Proof.
  assert (forall n, (COLON =? hex_digit n)%N = false) as Hd.
  { intros n. apply N.eqb_neq. unfold hex_digit. change COLON with 58%N. destruct (N.ltb_spec n 10); lia. }
  induction b; cbn; [constructor|]. by repeat constructor.
Qed.

Section Logs.
Context `{AhoCorasick, Nfkc, Sha256, !Sha256Laws}.

Lemma parse_make_cursor g k subject source :
  0 <= g <= u64_max -> 0 <= k <= u64_max ->
  parse_cursor (make_cursor g k subject source) subject source = Ok (g, k).
Proof.
  intros Hg Hk. unfold parse_cursor, make_cursor. rewrite text_strip_prefix_app.
  destruct (decimal_spec g) as (_ & _ & Dg); [lia|]. destruct (decimal_spec k) as (_ & _ & Dk); [lia|].
  cbn [app]. rewrite !text_split_at_app, split_at_free by
    first [by apply no_colon_digits | apply no_colon_hex | apply N.eqb_refl].
  rewrite !bool_decide_eq_true_2 by done. cbn [negb orb]. by rewrite !parse_u64_decimal.
Qed.

(** ** Sizes *)

Lemma str_len_nonneg s : 0 <= str_len s.
Proof. unfold str_len. lia. Qed.
Lemma str_len_app a b : str_len (a ++ b) = str_len a + str_len b.
Proof. unfold str_len, byte_len. rewrite map_app, list_sum_app. lia. Qed.
Lemma str_len_bound s : str_len s <= 4 * Z.of_nat (length s).
Proof.
  unfold str_len, byte_len. induction s as [|c s IH]; simpl; [done|].
  assert (len_utf8 c <= 4)%nat by (unfold len_utf8; repeat case_match; lia). lia.
Qed.
Lemma decimal_go_length fuel n acc : (length (decimal_go fuel n acc) <= fuel + length acc)%nat.
Proof.
  revert n acc; induction fuel as [|fuel IH]; intros n acc; cbn [decimal_go]; [lia|].
  case_match; cbn [length]; [lia|]. etransitivity; [apply IH|]. cbn [length]. lia.
Qed.
Lemma decimal_length n : 0 <= n <= u64_max -> Z.of_nat (length (decimal n)) <= 64.
Proof.
  intros Hn. unfold decimal. pose proof (decimal_go_length (S (Z.to_nat (Z.log2 n))) n []) as Hl. cbn [length] in Hl.
  assert (Z.log2 n <= 63). { etransitivity; [apply Z.log2_le_mono, Hn|]. done. }
  pose proof (Z.log2_nonneg n). lia.
Qed.
Lemma hex_lower_length b : length (hex_lower b) = (2 * length b)%nat.
Proof. unfold hex_lower. induction b as [|x b IH]; [done|]. cbn [flat_map app length]. rewrite IH. lia. Qed.
Lemma make_cursor_size g k subject source :
  0 <= g <= u64_max -> 0 <= k <= u64_max -> str_len (make_cursor g k subject source) <= 1024.
Proof.
  intros Hg Hk. etransitivity; [apply str_len_bound|]. unfold make_cursor, cursor_fingerprint.
  rewrite !length_app, hex_lower_length, sha256_length.
  pose proof (decimal_length g Hg). pose proof (decimal_length k Hk).
  change (length (txt "v2:")) with 3%nat. change (length [COLON]) with 1%nat. lia.
Qed.

Lemma valid_identity_size s : valid_identity s = true -> str_len s <= MAX_SUBJECT_BYTES.
Proof. unfold valid_identity. rewrite !andb_true_iff. intros [[_ L] _]. by apply Z.leb_le. Qed.

(** ** Room *)

Fixpoint total (records : list LogItem) : Z :=
  match records with [] => 0 | r :: rest => record_bytes r + total rest end.
Lemma total_app a b : total (a ++ b) = total a + total b.
Proof. induction a; cbn [total app]; lia. Qed.
Lemma record_bytes_nonneg r : 0 <= record_bytes r.
Proof.
  unfold record_bytes, u64_saturating_add. pose proof (str_len_nonneg (li_subject r)).
  pose proof (str_len_nonneg (li_cursor r)). pose proof (str_len_nonneg (li_source r)).
  pose proof (str_len_nonneg (li_message r)). unfold u64_max. lia.
Qed.
Lemma total_nonneg l : 0 <= total l.
Proof. induction l as [|r l IH]; cbn [total]; [done|]. pose proof (record_bytes_nonneg r). lia. Qed.

Definition fits (records : list LogItem) : Prop :=
  Z.of_nat (length records) <= MAX_BUFFER /\ total records <= MAX_BUFFER_BYTES.

(** The loop drops the oldest records until the rest fits, and no more. *)
Lemma evict_spec records g :
  g + Z.of_nat (length records) <= u64_max ->
  exists dropped kept, records = dropped ++ kept
    /\ evict records (total records) g = Some (kept, total kept, g + Z.of_nat (length dropped))
    /\ fits kept
    /\ (forall older more, dropped = older ++ [more] -> ~ fits (more :: kept)).
Proof.
  revert g; induction records as [|r rest IH]; intros g Hg; cbn [evict].
  - exists [], []. rewrite Z.add_0_r. split_and!; [done..| |]; [done|]. by intros [|] ? ?.
  - destruct ((MAX_BUFFER <? _) || _) eqn:E.
    + assert (~ fits (r :: rest)) as Hno.
      { intros [Hl Hb]. apply orb_true_iff in E as [E%Z.ltb_lt|E%Z.ltb_lt]; lia. }
      assert (u64_saturating_sub (total (r :: rest)) (record_bytes r) = total rest) as ->.
      { unfold u64_saturating_sub. cbn [total]. pose proof (total_nonneg rest). lia. }
      cbn [length] in Hg. unfold u64_saturating_add. rewrite Z.min_l by lia.
      destruct (IH (g + 1)) as (dropped & kept & -> & He & Hf & Hm); [lia|].
      exists (r :: dropped), kept. split_and!; [done| |done|].
      { rewrite He. do 2 f_equal. cbn [length]. lia. }
      intros [|o older] more [= -> Ho]; [|by eapply Hm]. by subst dropped.
    + exists [], (r :: rest). rewrite Z.add_0_r. apply orb_false_iff in E as [E1%Z.ltb_ge E2%Z.ltb_ge].
      split_and!; [done..|]. by intros [|] ? ?.
Qed.

(** ** The buffer as a window on the whole log *)

Definition genuine (i : nat) (item : LogItem) : Prop :=
  li_sequence item = Z.of_nat i
  /\ valid_identity (li_subject item) = true /\ valid_identity (li_source item) = true
  /\ exists g, 0 <= g <= Z.of_nat i /\ li_cursor item = make_cursor g (Z.of_nat i) (li_subject item) (li_source item).

Record window (st : LogState) (full : list LogItem) : Prop := {
  w_split : exists dropped, full = dropped ++ ls_records st /\ ls_generation st = Z.of_nat (length dropped);
  w_next : ls_next_sequence st = Z.of_nat (length full);
  w_bytes : ls_bytes st = total (ls_records st);
  w_fits : fits (ls_records st);
  w_tail : full <> [] -> ls_records st <> [];
  w_items : forall i item, full !! i = Some item -> genuine i item }.

Definition record_of (full : list LogItem) (subject source cursor message : text) : LogItem := {|
  li_subject := subject; li_cursor := cursor; li_source := source; li_sequence := Z.of_nat (length full);
  li_message := message |}.

Lemma push_record_window st full subject source sanitized :
  window st full -> Z.of_nat (length full) < u64_max ->
  valid_identity subject = true -> valid_identity source = true -> str_len sanitized <= MAX_RECORD_BYTES ->
  exists st' cursor, push_record st subject source sanitized = Some (st', Ok cursor)
    /\ window st' (full ++ [record_of full subject source cursor sanitized]).
Proof.
  intros [(dropped & Hfull & Hg) Hn Hb [Hf1 Hf2] Ht Hi] Hlen Vs Vo Hm.
  pose proof (valid_identity_size _ Vs) as Hs. pose proof (valid_identity_size _ Vo) as Ho.
  assert (Z.of_nat (length full) = Z.of_nat (length dropped) + Z.of_nat (length (ls_records st))) as Hlf
    by (rewrite Hfull, length_app; lia).
  unfold push_record. rewrite Hn, Hg, Hb.
  set (cursor := make_cursor _ _ _ _). fold (record_of full subject source cursor sanitized).
  set (item := record_of full subject source cursor sanitized).
  assert (str_len cursor <= 1024) as Hc by (apply make_cursor_size; lia).
  pose proof (str_len_nonneg subject). pose proof (str_len_nonneg source).
  pose proof (str_len_nonneg cursor). pose proof (str_len_nonneg sanitized).
  assert (record_bytes item = str_len subject + str_len source + str_len cursor + str_len sanitized) as Hsize.
  { unfold record_bytes, u64_saturating_add, u64_max, MAX_SUBJECT_BYTES, MAX_RECORD_BYTES in *. cbn -[str_len]. lia. }
  unfold MAX_SUBJECT_BYTES, MAX_RECORD_BYTES, u64_max in *.
  assert (u64_saturating_add (u64_saturating_add (u64_saturating_add (str_len subject) (str_len source)) (str_len cursor))
            (str_len sanitized) = record_bytes item) as ->.
  { rewrite Hsize. unfold u64_saturating_add, u64_max. lia. }
  unfold MAX_BUFFER_BYTES in *. destruct (Z.ltb_spec (16 * 1024 * 1024) (record_bytes item)); [lia|].
  unfold u64_saturating_add, u64_max. rewrite Z.min_l by lia.
  assert (total (ls_records st) + record_bytes item = total (ls_records st ++ [item])) as ->.
  { rewrite total_app. cbn [total]. lia. }
  destruct (evict_spec (ls_records st ++ [item]) (Z.of_nat (length dropped))) as (out & kept & Hk & -> & Hfit & Hmin).
  { rewrite length_app. cbn [length]. unfold u64_max. lia. }
  eexists _, cursor. split; [reflexivity|]. fold item.
  split; cbn [ls_records ls_generation ls_next_sequence ls_bytes].
  - exists (dropped ++ out). rewrite <- app_assoc, <- Hk, app_assoc, <- Hfull. split; [done|]. rewrite length_app. lia.
  - rewrite length_app. cbn [length]. lia.
  - done.
  - done.
  - intros _ ->. rewrite app_nil_r in Hk. eapply (Hmin (ls_records st) item); [by rewrite Hk|].
    split; cbn [length total]; unfold MAX_BUFFER, MAX_BUFFER_BYTES; lia.
  - intros i it [Hold|(Hge & Hnew)]%lookup_app_Some; [by apply Hi|].
    apply list_lookup_singleton_Some in Hnew as [Hi0 <-]. assert (i = length full) as -> by lia.
    split_and!; [done..|]. exists (Z.of_nat (length dropped)). split; [lia|done].
Qed.

(** A service and all that was ever appended to it. *)
Inductive logged : LogService -> list LogItem -> Prop :=
| logged_new : logged new_log_service []
| logged_refused svc full subject source message secrets svc' e :
    logged svc full -> append svc subject source message secrets = Some (svc', Err e) -> logged svc' full
| logged_append svc full subject source message secrets svc' cursor sanitized :
    logged svc full -> append svc subject source message secrets = Some (svc', Ok cursor) ->
    redact_message message secrets = Ok sanitized ->
    logged svc' (full ++ [record_of full subject source cursor sanitized]).

Lemma append_spec svc full subject source message secrets :
  svc_supported svc = true -> window (svc_state svc) full -> Z.of_nat (length full) < u64_max ->
  exists svc' answer, append svc subject source message secrets = Some (svc', answer)
    /\ svc_supported svc' = true
    /\ match answer with
       | Err _ => svc' = svc
       | Ok cursor => exists sanitized, redact_message message secrets = Ok sanitized
           /\ window (svc_state svc') (full ++ [record_of full subject source cursor sanitized])
       end.
Proof.
  intros Hsup Hw Hlen. unfold append. rewrite Hsup. cbn [negb].
  destruct (valid_identity subject) eqn:Es; [|by eexists _, _]. destruct (valid_identity source) eqn:Eo; [|by eexists _, _].
  cbn [negb orb].
  destruct (redact_message message secrets) as [sanitized|e]; [|by eexists _, _].
  destruct (Z.ltb_spec MAX_RECORD_BYTES (str_len sanitized)); [by eexists _, _|].
  destruct (_ || _); [by eexists _, _|].
  destruct (push_record_window _ _ _ _ sanitized Hw Hlen Es Eo) as (st' & cursor & -> & Hw'); [done|].
  eexists _, _. split_and!; [reflexivity|done|]. by exists sanitized.
Qed.

Lemma logged_window svc full :
  logged svc full -> Z.of_nat (length full) < u64_max -> svc_supported svc = true /\ window (svc_state svc) full.
Proof.
  intros Hl. induction Hl as [|svc full subject source message secrets svc' e Hl IH Ha
                             |svc full subject source message secrets svc' cursor sanitized Hl IH Ha Hr]; intros Hlen.
  - split; [done|]. split; cbn; try done. by exists [].
  - destruct (IH Hlen) as [Hs Hw].
    destruct (append_spec svc full subject source message secrets Hs Hw Hlen) as (? & ? & Ha' & _ & Hans).
    rewrite Ha in Ha'. injection Ha' as <- <-. by subst.
  - rewrite length_app in Hlen. destruct IH as [Hs Hw]; [lia|].
    destruct (append_spec svc full subject source message secrets Hs Hw) as (? & ? & Ha' & Hs' & Hans); [lia|].
    rewrite Ha in Ha'. injection Ha' as <- <-. destruct Hans as (san & Hr' & Hw'). rewrite Hr in Hr'.
    by injection Hr' as <-.
Qed.

(** ** Reads *)

Lemma page_prefix limit count bytes l : page limit count bytes l `prefix_of` l.
Proof.
  revert count bytes; induction l as [|r l IH]; intros count bytes; cbn [page]; [done|].
  destruct (_ && _); [apply prefix_nil|]. destruct (_ =? limit); [apply prefix_cons, prefix_nil|]. apply prefix_cons, IH.
Qed.
Lemma page_length limit count bytes l :
  0 <= count < limit -> count + Z.of_nat (length (page limit count bytes l)) <= limit.
Proof.
  revert count bytes; induction l as [|r l IH]; intros count bytes Hc; cbn [page]; [cbn; lia|].
  destruct (_ && _); [cbn; lia|]. destruct (Z.eqb_spec (count + 1) limit); cbn [length]; [lia|].
  specialize (IH (count + 1) (u64_saturating_add bytes (record_bytes r))). lia.
Qed.
Lemma page_first limit l : page limit 0 0 l = [] -> l = [].
Proof. destruct l as [|r l]; [done|]. cbn [page]. cbn [Z.eqb negb andb]. by destruct (_ =? limit). Qed.

(** The records behind number [k] of a list numbered from [b]. *)
Lemma records_after l b k :
  (forall i item, l !! i = Some item -> li_sequence item = Z.of_nat (b + i)) ->
  filter (fun r => (Z.of_nat k <? li_sequence r) = true) l = drop (S k - b) l.
Proof.
  revert b; induction l as [|r l IH]; intros b Hseq; [by rewrite drop_nil|].
  assert (filter (fun r => (Z.of_nat k <? li_sequence r) = true) l = drop (S k - S b) l) as Hl.
  { apply IH. intros i item Hi. rewrite (Hseq (S i) item Hi). lia. }
  pose proof (Hseq 0%nat r eq_refl) as Hr. destruct (decide (k < b)%nat).
  - rewrite filter_cons_True by (apply Z.ltb_lt; lia). rewrite Hl.
    by replace (S k - b)%nat with 0%nat by lia; replace (S k - S b)%nat with 0%nat by lia.
  - rewrite filter_cons_False by (rewrite Z.ltb_lt; lia). rewrite Hl.
    by replace (S k - b)%nat with (S (S k - S b)) by lia.
Qed.

(** What the unbounded log holds of a stream behind its first [n] records. *)
Definition stream_from (subject source : text) (n : nat) (full : list LogItem) : list LogItem :=
  filter (fun r => in_stream subject (Some source) r = true) (drop n full).

Definition request_after (subject source : text) (cursor : option text) (limit : Z) : LogRequest :=
  {| lr_subject := subject; lr_source := Some source; lr_cursor := cursor; lr_limit := limit |}.

Lemma in_stream_fields subject source r :
  in_stream subject (Some source) r = true -> li_subject r = subject /\ li_source r = source.
Proof. unfold in_stream. rewrite andb_true_iff, !bool_decide_eq_true. naive_solver. Qed.

Lemma logs_at svc full k item subject source limit :
  svc_supported svc = true -> window (svc_state svc) full -> Z.of_nat (length full) < u64_max ->
  full !! k = Some item -> in_stream subject (Some source) item = true ->
  1 <= limit <= MAX_BUFFER ->
  logs svc (request_after subject source (Some (li_cursor item)) limit) =
  if decide (item ∈ ls_records (svc_state svc)) then Ok (page limit 0 0 (stream_from subject source (S k) full))
  else Err (PConflict "log cursor expired; resnapshot required").
Proof.
  intros Hsup [(dropped & Hfull & Hg) Hn _ _ Ht Hi] Hlen Hk [Hs Ho]%in_stream_fields Hlim.
  destruct (Hi _ _ Hk) as (Hseq & Vs & Vo & g & Hgk & Hcur). rewrite Hs in Vs. rewrite Ho in Vo. pose proof (lookup_lt_Some _ _ _ Hk) as Hkl.
  unfold logs. cbn [request_after lr_subject lr_source lr_cursor lr_limit]. rewrite Hsup, Vs, Vo.
  cbn [negb orb]. destruct (Z.eqb_spec limit 0); [lia|]. destruct (Z.ltb_spec MAX_BUFFER limit); [lia|]. cbn [orb].
  rewrite Hcur, <- Hs, <- Ho. cbn [default]. unfold default. rewrite parse_make_cursor by lia. cbn [result_bind check_position].
  rewrite Hn. destruct (Z.leb_spec (Z.of_nat (length full)) (Z.of_nat k)); [lia|].
  set (records := ls_records (svc_state svc)) in *.
  assert (forall i it, records !! i = Some it -> li_sequence it = Z.of_nat (length dropped + i)) as Hrec.
  { intros i it Hit. destruct (Hi (length dropped + i)%nat it) as [-> _]; [|done].
    rewrite Hfull, lookup_app_r by lia. by replace (length dropped + i - length dropped)%nat with i by lia. }
  assert (item ∈ records <-> (length dropped <= k)%nat) as Hin.
  { split.
    - intros [i Hit]%list_elem_of_lookup. pose proof (Hrec _ _ Hit). lia.
    - intros Hle. rewrite Hfull, lookup_app_r in Hk by done. by eapply list_elem_of_lookup_2. }
  assert (match records with r :: _ => Z.of_nat k <? li_sequence r | [] => false end
          = negb (bool_decide (length dropped <= k)%nat)) as ->.
  { destruct records as [|r rest]; [by destruct Ht; [intros ->|]|].
    rewrite (Hrec 0%nat r eq_refl). case_bool_decide; cbn [negb]; [apply Z.ltb_ge|apply Z.ltb_lt]; lia. }
  rewrite Hg. destruct (decide (item ∈ records)) as [Hit|Hit]; rewrite Hin in Hit.
  - rewrite bool_decide_eq_true_2 by done. rewrite andb_false_r. cbn [result_bind]. do 2 f_equal.
    unfold stream_from. rewrite list_filter_filter.
    erewrite (list_filter_iff _ (fun r => in_stream (li_subject item) (Some (li_source item)) r = true
                                          /\ (Z.of_nat k <? li_sequence r) = true)) by (intros; tauto).
    rewrite <- list_filter_filter, (records_after records (length dropped)) by done.
    f_equal. rewrite Hfull, drop_app_ge by lia. done.
  - rewrite bool_decide_eq_false_2 by done. destruct (Z.eqb_spec g (Z.of_nat (length dropped))); [lia|]. done.
Qed.

Lemma logs_first svc subject source limit :
  svc_supported svc = true ->
  valid_identity subject = true -> valid_identity source = true -> 1 <= limit <= MAX_BUFFER ->
  logs svc (request_after subject source None limit) =
  Ok (page limit 0 0 (filter (fun r => in_stream subject (Some source) r = true) (ls_records (svc_state svc)))).
Proof.
  intros Hsup Vs Vo Hlim. unfold logs. cbn [request_after lr_subject lr_source lr_cursor lr_limit].
  rewrite Hsup, Vs, Vo. cbn [negb orb]. destruct (Z.eqb_spec limit 0); [lia|].
  destruct (Z.ltb_spec MAX_BUFFER limit); [lia|]. cbn [orb result_bind check_position]. do 2 f_equal.
  generalize (filter (fun r => in_stream subject (Some source) r = true) (ls_records (svc_state svc))).
  intros l. induction l as [|r l IH]; [done|]. rewrite filter_cons_True by done. by rewrite IH.
Qed.

Lemma logs_answered svc subject source cursor limit rs :
  logs svc (request_after subject source cursor limit) = Ok rs -> 0 <= limit ->
  svc_supported svc = true /\ valid_identity subject = true /\ valid_identity source = true /\ 1 <= limit <= MAX_BUFFER.
Proof.
  intros Hl Hlim. unfold logs in Hl. cbn [request_after lr_subject lr_source lr_limit] in Hl.
  destruct (svc_supported svc); [|done]. cbn [negb] in Hl.
  destruct (valid_identity subject); [|done]. destruct (valid_identity source); [|done]. cbn [negb orb] in Hl.
  destruct (Z.eqb_spec limit 0); [done|]. destruct (Z.ltb_spec MAX_BUFFER limit); [done|]. split_and!; [done..|lia|done].
Qed.

(** A reader of one stream: it starts anywhere, asks with the cursor of the
    last record it got, and others append meanwhile. *)
Inductive follow (subject source : text) : LogService -> list LogItem -> list LogItem -> Prop :=
| follow_start svc full : logged svc full -> follow subject source svc full []
| follow_others svc full got svc' full' :
    follow subject source svc full got -> logged svc' full' -> full `prefix_of` full' ->
    follow subject source svc' full' got
| follow_read svc full got limit rs :
    follow subject source svc full got -> 0 <= limit ->
    logs svc (request_after subject source (li_cursor <$> last got) limit) = Ok rs ->
    follow subject source svc full (got ++ rs).

Lemma follow_logged subject source svc full got : follow subject source svc full got -> logged svc full.
Proof. by induction 1. Qed.

Lemma stream_prefix subject source n full full' :
  full `prefix_of` full' -> stream_from subject source n full `prefix_of` stream_from subject source n full'.
Proof.
  intros [more ->]. unfold stream_from. rewrite drop_app, filter_app. by apply prefix_app_r.
Qed.

(** A record of a stream cuts it: what comes behind it is the stream from it
    on. *)
Lemma stream_cut subject source n full a item b :
  (forall i it, full !! i = Some it -> genuine i it) ->
  stream_from subject source n full = a ++ item :: b ->
  exists k, full !! k = Some item /\ stream_from subject source (S k) full = b.
Proof.
  intros Hg. revert a. unfold stream_from.
  enough (forall l m a, drop m full = l ->
    filter (fun r => in_stream subject (Some source) r = true) l = a ++ item :: b ->
    exists k, full !! k = Some item
      /\ filter (fun r => in_stream subject (Some source) r = true) (drop (S k) full) = b) as Hx by eauto.
  intros l; induction l as [|r l IH]; intros m a Hm Hf; [by destruct a|].
  assert (full !! m = Some r /\ drop (S m) full = l) as [Hr Hl].
  { rewrite <- (Nat.add_0_r m) at 1. rewrite <- lookup_drop, Hm. split; [done|].
    by rewrite <- Nat.add_1_r, <- drop_drop, Hm. }
  destruct (decide (in_stream subject (Some source) r = true)).
  - rewrite filter_cons_True in Hf by done. destruct a as [|x a]; injection Hf as -> Hf; [|by eapply IH].
    exists m. by rewrite Hl.
  - rewrite filter_cons_False in Hf by done. by eapply IH.
Qed.

Lemma in_stream_elem subject source n full item :
  item ∈ stream_from subject source n full -> in_stream subject (Some source) item = true.
Proof. unfold stream_from. rewrite list_elem_of_filter. tauto. Qed.

Lemma follow_prefix subject source svc full got :
  follow subject source svc full got -> Z.of_nat (length full) < u64_max ->
  exists n, got `prefix_of` stream_from subject source n full.
Proof.
  intros Hf. induction Hf as [svc full Hl|svc full got svc' full' Hf IH Hl Hp|svc full got limit rs Hf IH Hlim Hread]; intros Hlen.
  - exists 0%nat. apply prefix_nil.
  - destruct IH as [n Hn]; [apply prefix_length in Hp; lia|]. exists n. etransitivity; [exact Hn|by apply stream_prefix].
  - destruct (IH Hlen) as [n [rest Hn]]. destruct (logged_window _ _ (follow_logged _ _ _ _ _ Hf) Hlen) as [Hs Hw].
    destruct (logs_answered _ _ _ _ _ _ Hread Hlim) as (_ & Vs & Vo & Hlim').
    destruct got as [|item got _] using rev_ind.
    + cbn in Hread. rewrite logs_first in Hread by done. injection Hread as <-. cbn [app].
      destruct (w_split _ _ Hw) as (dropped & -> & _). exists (length dropped). unfold stream_from.
      rewrite drop_app_length. apply page_prefix.
    + rewrite last_snoc in Hread. cbn in Hread. rewrite <- app_assoc in Hn.
      destruct (stream_cut _ _ _ _ _ _ _ (w_items _ _ Hw) Hn) as (k & Hk & Hrest).
      rewrite (logs_at _ full k) in Hread; [|done..|eapply (in_stream_elem _ _ n full); rewrite Hn; set_solver|done].
      case_decide; [|done]. injection Hread as <-. exists n. rewrite Hn, Hrest, <- app_assoc.
      apply prefix_app, prefix_app, page_prefix.
Qed.

(** ** Theorems *)

(** The buffer is a bounded window on the whole log: an append always
    returns, it either refuses and changes nothing or adds one record at the
    end, and what is held is the newest part of everything appended, at most
    16384 records of at most 16 MiB together, never less than the last
    record. *)
Theorem log_buffer_is_a_bounded_window svc full subject source message secrets :
  logged svc full -> Z.of_nat (length full) < u64_max ->
  exists svc' answer, append svc subject source message secrets = Some (svc', answer)
    /\ match answer with
       | Err _ => svc' = svc
       | Ok cursor => exists dropped sanitized,
           full ++ [record_of full subject source cursor sanitized] = dropped ++ ls_records (svc_state svc')
           /\ ls_records (svc_state svc') <> []
           /\ Z.of_nat (length (ls_records (svc_state svc'))) <= MAX_BUFFER
           /\ total (ls_records (svc_state svc')) <= MAX_BUFFER_BYTES
       end.
Proof.
  intros Hl Hlen. destruct (logged_window _ _ Hl Hlen) as [Hs Hw].
  destruct (append_spec svc full subject source message secrets Hs Hw Hlen) as (svc' & answer & Ha & _ & Hans).
  exists svc', answer. split; [done|]. destruct answer as [cursor|e]; [|done].
  destruct Hans as (san & _ & Hw'). destruct (w_split _ _ Hw') as (dropped & Hd & _).
  exists dropped, san. destruct (w_fits _ _ Hw'). split_and!; [done| |done|done]. apply Hw'. by destruct full.
Qed.

(** C18: a read behind a record is a read of the log that was never trimmed: as
    long as the record is held, the answer is the next records of its stream
    in order, at most as many as asked for, and empty only when there are no
    more; once the record is gone the reader is told so. No answer leaves a
    gap. *)
Theorem cursor_read_refines_log svc full k item subject source limit :
  logged svc full -> Z.of_nat (length full) < u64_max ->
  full !! k = Some item -> in_stream subject (Some source) item = true -> 1 <= limit <= MAX_BUFFER ->
  match logs svc (request_after subject source (Some (li_cursor item)) limit) with
  | Ok rs => (item ∈ ls_records (svc_state svc))
      /\ (rs `prefix_of` stream_from subject source (S k) full)
      /\ Z.of_nat (length rs) <= limit
      /\ (rs = [] -> stream_from subject source (S k) full = [])
  | Err e => (item ∉ ls_records (svc_state svc)) /\ e = PConflict "log cursor expired; resnapshot required"
  end.
Proof.
  intros Hl Hlen Hk Hin Hlim. destruct (logged_window _ _ Hl Hlen) as [Hs Hw].
  rewrite (logs_at svc full k) by done. case_decide; [|done]. split_and!; [done|apply page_prefix| |apply page_first].
  pose proof (page_length limit 0 0 (stream_from subject source (S k) full)). lia.
Qed.

(** A reader that always asks with the cursor of the last record it got,
    with any page sizes and any appends in between, holds at every moment a
    gapless run of its stream: every record of the stream from some point of
    the log on, in order, none twice, none missing. *)
Theorem reader_misses_nothing subject source svc full got :
  follow subject source svc full got -> Z.of_nat (length full) < u64_max ->
  exists n, got `prefix_of` stream_from subject source n full.
Proof. apply follow_prefix. Qed.

(** A stored message holds no supplied secret in normalized form and no escape
    syntax that could hide one. *)
Lemma stored_message_is_clean message secrets sanitized secret :
  redact_message message secrets = Ok sanitized -> secret ∈ secrets -> secret <> [] ->
  contains (nfkc secret) (nfkc sanitized) = false /\ has_encoded_syntax sanitized = false.
Proof.
  unfold redact_message. intros Hr Hin Hne. destruct (_ <? _); [done|]. destruct (_ || _); [done|].
  destruct (replace_literal_secrets message secrets) as [out|]; [|done]. cbn [result_bind] in Hr.
  destruct (contains_unredacted_secret out secrets) eqn:E; [done|]. injection Hr as <-.
  unfold contains_unredacted_secret in E.
  assert (forallb (fun s => bool_decide (s = [])) secrets = false) as Hf.
  { apply not_true_is_false. rewrite forallb_forall. intros F.
    specialize (F secret (proj1 (list_elem_of_In _ _) Hin)). by apply bool_decide_eq_true in F. }
  rewrite Hf in E. apply orb_false_iff in E as [E1 E2]. split.
  - apply not_true_is_false. intros Hc. apply not_true_iff_false in E1. apply E1, existsb_exists.
    exists secret. split; [by apply list_elem_of_In|]. by rewrite bool_decide_eq_false_2, Hc.
  - rewrite bool_decide_eq_false_2 in E2 by (by intros ->; apply elem_of_nil in Hin). done.
Qed.

(** A reader of all sources of a subject cannot go on from the cursor of a
    record it got: the cursor names the record's own source, the request
    stands for the empty one. *)
Lemma unfiltered_read_cannot_resume svc subject source g k limit :
  svc_supported svc = true -> valid_identity subject = true -> valid_identity source = true ->
  Forall scalar source -> 1 <= limit <= MAX_BUFFER -> 0 <= g <= u64_max -> 0 <= k <= u64_max ->
  logs svc {| lr_subject := subject; lr_source := None;
              lr_cursor := Some (make_cursor g k subject source); lr_limit := limit |}
  = Err (PInvalid "cursor" "log cursor does not belong to this stream")
  \/ exists x y, x <> y /\ sha256 x = sha256 y.
Proof.
  intros Hs Vs Vo Hsc Hlim Hg Hk.
  destruct (decide (cursor_fingerprint subject source = cursor_fingerprint subject [])) as [E|E].
  { right. apply hex_lower_inj in E; [|apply sha256_bytes..]. eexists _, _. split; [|exact E].
    intros P. apply app_inv_head in P. cbn in P. injection P as P. destruct source as [|c s]; [done|].
    apply (f_equal length) in P. cbn in P. rewrite length_app in P. unfold utf8_char in P.
    repeat case_match; cbn in P; lia. }
  left. unfold logs. cbn [lr_subject lr_source lr_cursor lr_limit]. rewrite Hs, Vs. cbn [negb orb].
  destruct (Z.eqb_spec limit 0); [lia|]. destruct (Z.ltb_spec MAX_BUFFER limit); [lia|]. cbn [orb].
  unfold default, parse_cursor, make_cursor. rewrite text_strip_prefix_app.
  destruct (decimal_spec g) as (_ & _ & Dg); [lia|]. destruct (decimal_spec k) as (_ & _ & Dk); [lia|].
  cbn [app]. rewrite !text_split_at_app, split_at_free by
    first [by apply no_colon_digits | apply no_colon_hex | apply N.eqb_refl].
  rewrite (bool_decide_eq_false_2 _ E). done.
Qed.
End Logs.

(** ** A service in use *)

#[local] Existing Instance literal_automaton.
#[local] Existing Instance toy_digest.
#[local] Existing Instance toy_digest_laws.
#[local] Instance plain_nfkc : Nfkc := fun s => s.

Definition job : text := txt "job-1".
Definition active : text := txt "active".
Definition sample_item (n : Z) (message : text) : LogItem := {|
  li_subject := job; li_cursor := make_cursor 0 n job active; li_source := active; li_sequence := n;
  li_message := message |}.
Definition sample_log : list LogItem := [sample_item 0 (txt "key ***"); sample_item 1 (txt "two"); sample_item 2 (txt "three")].
Definition sample_service : LogService := {|
  svc_state := {| ls_generation := 0; ls_next_sequence := 3; ls_bytes := total sample_log; ls_records := sample_log |};
  svc_supported := true |}.

Definition after_append (svc : LogService) (message : text) (secrets : list text) : LogService :=
  match append svc job active message secrets with Some (svc, _) => svc | None => svc end.

Lemma sample_logged : logged sample_service sample_log.
Proof.
  pose (s1 := after_append new_log_service (txt "key hunter22") [txt "hunter22"]). pose (s2 := after_append s1 (txt "two") []).
  assert (logged s1 [sample_item 0 (txt "key ***")]) as L1.
  { apply (logged_append new_log_service [] job active (txt "key hunter22") [txt "hunter22"] s1 (make_cursor 0 0 job active));
      [apply logged_new|vm_compute; reflexivity..]. }
  assert (logged s2 [sample_item 0 (txt "key ***"); sample_item 1 (txt "two")]) as L2.
  { apply (logged_append s1 _ job active (txt "two") [] s2 (make_cursor 0 1 job active) (txt "two") L1);
      vm_compute; reflexivity. }
  apply (logged_append s2 _ job active (txt "three") [] sample_service (make_cursor 0 2 job active) (txt "three") L2);
    vm_compute; reflexivity.
Qed.

Lemma log_buffer_is_a_bounded_window_witness :
  exists svc' answer, append sample_service job active (txt "four") [] = Some (svc', answer).
Proof.
  destruct (log_buffer_is_a_bounded_window sample_service sample_log job active (txt "four") []) as (svc' & answer & H & _).
  - exact sample_logged.
  - vm_compute. reflexivity.
  - exists svc', answer. exact H.
Defined.

Lemma cursor_read_refines_log_witness :
  [sample_item 1 (txt "two")] `prefix_of` stream_from job active 1 sample_log.
Proof.
  pose proof (cursor_read_refines_log sample_service sample_log 0 (sample_item 0 (txt "key ***")) job active 1
    sample_logged ltac:(vm_compute; reflexivity) eq_refl ltac:(vm_compute; reflexivity)
    ltac:(unfold MAX_BUFFER; lia)) as H.
  assert (logs sample_service (request_after job active (Some (li_cursor (sample_item 0 (txt "key ***")))) 1)
          = Ok [sample_item 1 (txt "two")]) as E by (vm_compute; reflexivity).
  rewrite E in H. exact (proj1 (proj2 H)).
Defined.

Lemma reader_misses_nothing_witness :
  exists n, sample_log `prefix_of` stream_from job active n sample_log.
Proof.
  apply (reader_misses_nothing job active sample_service sample_log sample_log); [|vm_compute; reflexivity].
  apply (follow_read job active sample_service sample_log [sample_item 0 (txt "key ***")] 5).
  - apply (follow_read job active sample_service sample_log [] 1); [apply follow_start, sample_logged|lia|].
    vm_compute. reflexivity.
  - lia.
  - vm_compute. reflexivity.
Defined.
