(* ===== verification/ControlLifecycle.v ===== *)
(** * Desired and observed lifecycle of an instance

    The lifecycle operations of the state database
    ([crates/velnor-control/src/store/records.rs]) and the service over them
    ([crates/velnor-control/src/lifecycle.rs]): idempotent requests, versions
    that serialize writers, and the observation that completes a request.

    A database call is one transaction over the two tables it touches; of
    [instances] only the lifecycle columns are kept. A statement fails here
    only for the reasons the calls look at: a value that does not decode and a
    repeated operation id. The clock and RFC 3339 (the [time] package) are the
    class [Clock]; the lock of the service is not modelled. *)

From Stdlib Require Import ZArith Lia Ascii.
From stdpp Require Import base gmap list strings.
From S2P Require Import Prelude ExprText TextOps ControlLogs.
#[local] Open Scope Z_scope.

(** Instants with their rendering. *)
Class Clock := {
  instant : Type;
  rfc3339 : instant -> text;
  parse_rfc3339 : text -> option instant;
  minus_seconds : instant -> Z -> instant }.

Inductive StoreClass := CConflict | CUsage | CUnavailable | COperation.
Record StoreFailure := { se_class : StoreClass; se_reason : string }.
Definition failed_statement : StoreFailure := {| se_class := COperation; se_reason := "store.operation.failed" |}.

Definition MAX_LIFECYCLE_OPERATIONS_PER_INSTANCE : Z := 4096.
Definition LIFECYCLE_OPERATION_RETENTION : Z := 24 * 60 * 60.

(** ** Tables *)

Record InstanceCols := {
  ic_desired_state : text;
  ic_observed_state : text;
  ic_resource_version : Z;
  ic_desired_slots : option Z }.
Record OperationCols := {
  oc_operation_id : text;
  oc_kind : text;
  oc_target : text;
  oc_reason : text;
  oc_desired_state : text;
  oc_desired_slots : option Z;
  oc_expected_version : option Z;
  oc_resource_version : Z;
  oc_phase : text;
  oc_created_at : text }.
(** [instances] by slug, [lifecycle_operations] by slug and idempotency key. *)
Record LifecycleDb := {
  ld_instances : gmap text InstanceCols;
  ld_operations : gmap (text * text) OperationCols }.

(** ** Decoding *)

(** [try_into] of an [i64]. *)
Definition to_u64 (v : Z) : option Z := if 0 <=? v then Some v else None.
Definition to_u32 (v : Z) : option Z := if (0 <=? v) && (v <=? u32_max) then Some v else None.
(** [Option::map] of a conversion, then [transpose]. *)
Definition transpose {A B} (f : A -> option B) (v : option A) : option (option B) :=
  match v with None => Some None | Some a => Some <$> f a end.

Record LifecycleInstanceRow := {
  lir_instance_slug : text;
  lir_desired_state : text;
  lir_observed_state : text;
  lir_resource_version : Z;
  lir_desired_slots : option Z }.
Definition lifecycle_instance_row (slug : text) (c : InstanceCols) : option LifecycleInstanceRow :=
  version ← to_u64 (ic_resource_version c);
  slots ← transpose to_u32 (ic_desired_slots c);
  Some {| lir_instance_slug := slug; lir_desired_state := ic_desired_state c; lir_observed_state := ic_observed_state c;
          lir_resource_version := version; lir_desired_slots := slots |}.

Section Store.
Context `{Clock}.
#[local] Open Scope result_scope.

Record LifecycleOperationRow := {
  lor_instance_slug : text;
  lor_idempotency_key : text;
  lor_operation_id : text;
  lor_kind : text;
  lor_target : text;
  lor_reason : text;
  lor_desired_state : text;
  lor_desired_slots : option Z;
  lor_expected_version : option Z;
  lor_resource_version : Z;
  lor_phase : text;
  lor_created_at : instant }.
Record LifecycleOperationRequest := {
  lq_instance_slug : text;
  lq_kind : text;
  lq_target : text;
  lq_reason : text;
  lq_idempotency_key : text;
  lq_desired_state : text;
  lq_desired_slots : option Z;
  lq_expected_version : option Z;
  lq_operation_id : text }.

Definition decode_operation (slug key : text) (c : OperationCols) : option LifecycleOperationRow :=
  version ← to_u64 (oc_resource_version c);
  created_at ← parse_rfc3339 (oc_created_at c);
  slots ← transpose to_u32 (oc_desired_slots c);
  expected ← transpose to_u64 (oc_expected_version c);
  Some {| lor_instance_slug := slug; lor_idempotency_key := key; lor_operation_id := oc_operation_id c;
          lor_kind := oc_kind c; lor_target := oc_target c; lor_reason := oc_reason c;
          lor_desired_state := oc_desired_state c; lor_desired_slots := slots; lor_expected_version := expected;
          lor_resource_version := version; lor_phase := oc_phase c; lor_created_at := created_at |}.

(** [query_row(..).optional()] with a decoder that may fail. *)
Definition optional {A B} (decode : A -> option B) (row : option A) : result (option B) StoreFailure :=
  match row with
  | None => Ok None
  | Some c => match decode c with Some r => Ok (Some r) | None => Err failed_statement end
  end.
Definition lifecycle_operation_query (slug key : text) (db : LifecycleDb)
    : result (option LifecycleOperationRow) StoreFailure :=
  optional (decode_operation slug key) (ld_operations db !! (slug, key)).
Definition lifecycle_instance (slug : text) (db : LifecycleDb) : result (option LifecycleInstanceRow) StoreFailure :=
  optional (lifecycle_instance_row slug) (ld_instances db !! slug).

(** ** Calls *)

Definition accepted : text := txt "accepted".
Definition completed : text := txt "completed".
Definition is_accepted (phase : text) : bool := eq_ignore_ascii_case phase accepted.
Definition is_terminal_phase (phase : text) : bool :=
  existsb (eq_ignore_ascii_case phase) [completed; txt "canceled"; txt "cancelled"; txt "rejected"].

Definition lifecycle_operation_pending (slug desired_state : text) (resource_version : Z) (db : LifecycleDb) : bool :=
  negb (bool_decide (filter (fun ko : (text * text) * OperationCols =>
    ko.1.1 = slug /\ oc_desired_state ko.2 = desired_state
    /\ oc_resource_version ko.2 = i64_wrap resource_version /\ is_accepted (oc_phase ko.2) = true)
    (ld_operations db) = ∅)).

Definition operation_count (slug : text) (ops : gmap (text * text) OperationCols) : Z :=
  Z.of_nat (size (filter (fun ko : (text * text) * OperationCols => ko.1.1 = slug) ops)).

(** The terminal records of the instance that are older than the cutoff go;
    [created_at < cutoff] compares the texts. *)
Definition reclaimable (slug cutoff : text) (ko : (text * text) * OperationCols) : Prop :=
  ko.1.1 = slug /\ text_compare (oc_created_at ko.2) cutoff = Lt /\ is_terminal_phase (oc_phase ko.2) = true.
#[global] Instance reclaimable_dec slug cutoff ko : Decision (reclaimable slug cutoff ko).
Proof. unfold reclaimable. apply _. Defined.

Definition make_room (now : instant) (slug : text) (ops : gmap (text * text) OperationCols)
    : result (gmap (text * text) OperationCols) StoreFailure :=
  if operation_count slug ops <? MAX_LIFECYCLE_OPERATIONS_PER_INSTANCE then Ok ops
  else
    let cutoff := rfc3339 (minus_seconds now LIFECYCLE_OPERATION_RETENTION) in
    let ops := filter (fun ko => ~ reclaimable slug cutoff ko) ops in
    if operation_count slug ops <? MAX_LIFECYCLE_OPERATIONS_PER_INSTANCE then Ok ops
    else Err {| se_class := CUnavailable; se_reason := "store.lifecycle.operation_quota" |}.

Definition same_request (existing : LifecycleOperationRow) (request : LifecycleOperationRequest) : Prop :=
  lor_kind existing = lq_kind request /\ lor_target existing = lq_target request
  /\ lor_reason existing = lq_reason request /\ lor_desired_state existing = lq_desired_state request
  /\ lor_desired_slots existing = lq_desired_slots request
  /\ lor_expected_version existing = lq_expected_version request.
#[global] Instance same_request_dec existing request : Decision (same_request existing request).
Proof. unfold same_request. apply _. Defined.

(** The upsert of the instance. *)
Definition desire (request : LifecycleOperationRequest) (next_version : Z) (row : option InstanceCols) : InstanceCols :=
  match row with
  | None => {| ic_desired_state := lq_desired_state request; ic_observed_state := txt "ready";
               ic_resource_version := i64_wrap next_version; ic_desired_slots := lq_desired_slots request |}
  | Some c => {| ic_desired_state := lq_desired_state request; ic_observed_state := ic_observed_state c;
                 ic_resource_version := i64_wrap next_version;
                 ic_desired_slots := match lq_desired_slots request with Some n => Some n | None => ic_desired_slots c end |}
  end.

(** The clock is read once for the cutoff and once for the record. *)
Definition record_lifecycle_operation (now accepted_at : instant) (request : LifecycleOperationRequest) (db : LifecycleDb)
    : result (LifecycleDb * (LifecycleOperationRow * bool)) StoreFailure :=
  let slug := lq_instance_slug request in
  let? existing := lifecycle_operation_query slug (lq_idempotency_key request) db in
  match existing with
  | Some existing =>
      if decide (same_request existing request) then Ok (db, (existing, false))
      else Err {| se_class := CConflict; se_reason := "store.lifecycle.idempotency_conflict" |}
  | None =>
      let? operations := make_room now slug (ld_operations db) in
      let current_version :=
        match ld_instances db !! slug with
        | Some c => default 0 (to_u64 (ic_resource_version c))
        | None => 1
        end in
      if match lq_expected_version request with Some v => negb (v =? current_version) | None => false end
      then Err {| se_class := CConflict; se_reason := "store.lifecycle.version_conflict" |}
      else if match lq_expected_version request with Some v => i64_max <? v | None => false end
      then Err {| se_class := CUsage; se_reason := "store.lifecycle.expected_version.range" |}
      else
        let next_version := u64_saturating_add current_version 1 in
        if decide (map_Exists (fun _ o => oc_operation_id o = lq_operation_id request) operations)
        then Err failed_statement
        else
          let row := {|
            oc_operation_id := lq_operation_id request; oc_kind := lq_kind request; oc_target := lq_target request;
            oc_reason := lq_reason request; oc_desired_state := lq_desired_state request;
            oc_desired_slots := lq_desired_slots request; oc_expected_version := lq_expected_version request;
            oc_resource_version := i64_wrap next_version; oc_phase := accepted; oc_created_at := rfc3339 accepted_at |} in
          Ok ({| ld_instances := <[slug := desire request next_version (ld_instances db !! slug)]> (ld_instances db);
                 ld_operations := <[(slug, lq_idempotency_key request) := row]> operations |},
              ({| lor_instance_slug := slug; lor_idempotency_key := lq_idempotency_key request;
                  lor_operation_id := lq_operation_id request; lor_kind := lq_kind request;
                  lor_target := lq_target request; lor_reason := lq_reason request;
                  lor_desired_state := lq_desired_state request; lor_desired_slots := lq_desired_slots request;
                  lor_expected_version := lq_expected_version request; lor_resource_version := next_version;
                  lor_phase := accepted; lor_created_at := accepted_at |}, true))
  end.

Definition complete_if (slug observed_state : text) (expected_version : Z) (k : text * text) (o : OperationCols)
    : OperationCols :=
  if decide (k.1 = slug /\ oc_resource_version o = i64_wrap expected_version
             /\ oc_desired_state o = observed_state /\ is_accepted (oc_phase o) = true)
  then {| oc_operation_id := oc_operation_id o; oc_kind := oc_kind o; oc_target := oc_target o; oc_reason := oc_reason o;
          oc_desired_state := oc_desired_state o; oc_desired_slots := oc_desired_slots o;
          oc_expected_version := oc_expected_version o; oc_resource_version := oc_resource_version o;
          oc_phase := completed; oc_created_at := oc_created_at o |}
  else o.

Definition record_lifecycle_observed (slug observed_state : text) (expected_version : Z) (db : LifecycleDb)
    : result (LifecycleDb * (LifecycleInstanceRow * bool)) StoreFailure :=
  let? current := lifecycle_instance slug db in
  match current with
  | None => Err {| se_class := CUsage; se_reason := "store.lifecycle.instance.unknown" |}
  | Some current =>
      if decide (lir_resource_version current <> expected_version) then Ok (db, (current, false))
      else
        let next_version := u64_saturating_add (lir_resource_version current) 1 in
        let observe c := {| ic_desired_state := ic_desired_state c; ic_observed_state := observed_state;
                            ic_resource_version := i64_wrap next_version; ic_desired_slots := ic_desired_slots c |} in
        Ok ({| ld_instances := alter observe slug (ld_instances db);
               ld_operations := map_imap (fun k o => Some (complete_if slug observed_state expected_version k o)) (ld_operations db) |},
            ({| lir_instance_slug := lir_instance_slug current; lir_desired_state := lir_desired_state current;
                lir_observed_state := observed_state; lir_resource_version := next_version;
                lir_desired_slots := lir_desired_slots current |}, true))
  end.

(** [upsert_instance]: the lifecycle columns of a new row have their
    defaults, those of an old one stay. *)
Definition upsert_instance (slug : text) (db : LifecycleDb) : LifecycleDb :=
  match ld_instances db !! slug with
  | Some _ => db
  | None => {| ld_instances := <[slug := {| ic_desired_state := txt "ready"; ic_observed_state := txt "ready";
                                            ic_resource_version := 1; ic_desired_slots := None |}]> (ld_instances db);
               ld_operations := ld_operations db |}
  end.
End Store.

(** ** Requests *)

Inductive MutationKind := Cordon | Uncordon | Drain | Recycle | Resume | Restart | Scale | Reconcile.
Record MutationRequest := {
  mr_kind : MutationKind;
  mr_target : text;
  mr_reason : text;
  mr_idempotency_key : text;
  mr_expected_version : option Z;
  mr_scale_to : option Z }.
(** [resource] is never set by this service. *)
Record MutationResult := { mres_operation_id : text; mres_phase : text }.

Definition desired_state (kind : MutationKind) : text :=
  match kind with
  | Cordon => txt "cordoned"
  | Uncordon | Resume => txt "ready"
  | Drain | Restart => txt "draining"
  | Recycle => txt "recycling"
  | Scale => txt "scaling"
  | Reconcile => txt "reconciling"
  end.
Definition kind_string (kind : MutationKind) : string :=
  match kind with
  | Cordon => "cordon" | Uncordon => "uncordon" | Drain => "drain" | Recycle => "recycle"
  | Resume => "resume" | Restart => "restart" | Scale => "scale" | Reconcile => "reconcile"
  end.
Definition kind_name (kind : MutationKind) : text := txt (kind_string kind).
Definition supports_mutation (kind : MutationKind) : bool :=
  match kind with Cordon | Uncordon | Drain | Resume => true | _ => false end.

(** [Slug::validate] of [crates/velnor-model/src/job_summary.rs]. *)
Definition MAX_SLUG_LEN : Z := 512.
Definition is_slug_char (c : char) : bool :=
  is_ascii_alphanumeric c || is_chr "."%char c || is_chr "_"%char c || is_chr "-"%char c || is_chr "/"%char c.
Definition DENIED_SUBSTRINGS : list text :=
  [txt "password"; txt "passwd"; txt "secret"; txt "token"; txt "bearer"; txt "authorization";
   txt "ghp_"; txt "gho_"; txt "ghu_"; txt "ghs_"; txt "ghr_"; txt "github_pat_"].
Definition denied_substring (raw : text) : bool :=
  existsb (fun marker => contains marker (ascii_lowercase raw)) DENIED_SUBSTRINGS.
Definition is_slug (raw : text) : bool :=
  negb (bool_decide (raw = [])) && (str_len raw <=? MAX_SLUG_LEN) && forallb is_slug_char raw
  && negb (denied_substring raw).

Definition MAX_LIFECYCLE_TEXT_BYTES : Z := 512.
Definition MAX_SCALE_SLOTS : Z := 4096.

Definition validate_target (target : text) : result unit PortError :=
  if is_slug target then Ok tt else Err (PInvalid "target" "target must be a canonical instance identity").
Definition validate_configured_instance (instance : text) : result unit StoreFailure :=
  if is_slug instance then Ok tt else Err {| se_class := CUsage; se_reason := "lifecycle.instance.invalid" |}.
Definition validate_bounded_text (field : string) (value : text) (required : bool) : result unit PortError :=
  if required && bool_decide (trim value = []) || (MAX_LIFECYCLE_TEXT_BYTES <? str_len value) || existsb is_control value
  then Err (PInvalid field "must be non-empty, control-free, and at most 512 bytes")
  else Ok tt.
Definition validate_request (request : MutationRequest) : result unit PortError :=
  if negb (supports_mutation (mr_kind request)) then Err (PUnsupported (kind_string (mr_kind request)))
  else
    (let? _ := validate_bounded_text "reason" (mr_reason request) true in
     let? _ := validate_bounded_text "idempotency_key" (mr_idempotency_key request) true in
     match mr_kind request, mr_scale_to request with
     | Scale, Some slots =>
         if (1 <=? slots) && (slots <=? MAX_SCALE_SLOTS) then Ok tt
         else Err (PInvalid "scale_to" "scale requires between 1 and 4096 slots")
     | Scale, None => Err (PInvalid "scale_to" "scale requires between 1 and 4096 slots")
     | _, Some _ => Err (PInvalid "scale_to" "scale_to is only valid for scale")
     | _, None => Ok tt
     end)%result.

(** ** The service *)

Record LifecycleState := {
  lst_instance : text;
  lst_desired : text;
  lst_observed : text;
  lst_version : Z;
  lst_desired_slots : option Z }.
Record ServiceState := {
  ss_next_operation : Z;
  ss_instances : gmap text LifecycleState;
  ss_operations : gmap text MutationResult }.
(** What a service is made with: whether it has a store, the identity of its
    row there, and the one target it serves. *)
Record ServiceConfig := {
  sv_store : bool;
  sv_store_instance : option text;
  sv_instance : option text }.
Definition new_service : ServiceConfig := {| sv_store := false; sv_store_instance := None; sv_instance := None |}.
Definition with_store_and_api_instance (store_instance api_instance : text) : result ServiceConfig StoreFailure :=
  (let? _ := validate_configured_instance store_instance in
   let? _ := validate_configured_instance api_instance in
   Ok {| sv_store := true; sv_store_instance := Some store_instance; sv_instance := Some api_instance |})%result.
Definition with_store_for_instance (instance : text) : result ServiceConfig StoreFailure :=
  with_store_and_api_instance instance instance.
Definition empty_service : ServiceState :=
  {| ss_next_operation := 0; ss_instances := ∅; ss_operations := ∅ |}.

Definition set_instance (k : text) (v : LifecycleState) (s : ServiceState) : ServiceState :=
  {| ss_next_operation := ss_next_operation s; ss_instances := <[k := v]> (ss_instances s);
     ss_operations := ss_operations s |}.
Definition fresh_state (instance : text) : LifecycleState :=
  {| lst_instance := instance; lst_desired := txt "ready"; lst_observed := txt "ready"; lst_version := 1;
     lst_desired_slots := None |}.

Definition operation_quota_exhausted : PortError := PUnavailable "lifecycle operation quota exhausted".
Definition store_error (e : StoreFailure) : PortError :=
  if decide (se_reason e = "store.lifecycle.operation_quota") then operation_quota_exhausted
  else match se_class e with
       | CConflict => PConflict "durable lifecycle precondition changed"
       | _ => POperation "durable lifecycle write failed"
       end.
Definition map_store_error {A} (r : result A StoreFailure) : result A PortError :=
  match r with Ok a => Ok a | Err e => Err (store_error e) end.

Section Service.
Context `{Clock} (cfg : ServiceConfig).
#[local] Open Scope result_scope.

(** [LifecycleService::validate_target]. *)
Definition check_target (target : text) : result unit PortError :=
  let? _ := validate_target target in
  match sv_instance cfg with
  | Some instance =>
      if decide (target = instance) then Ok tt
      else Err (PInvalid "target" "target must match the configured lifecycle instance")
  | None => Ok tt
  end.

(** The name of the instance is left out of the message. *)
Definition missing_instance : PortError := PUnavailable "instance".

Definition register_instance (instance : text) (s : ServiceState) : result (ServiceState * LifecycleState) PortError :=
  let? _ := check_target instance in
  match ss_instances s !! instance with
  | Some v => Ok (s, v)
  | None => Ok (set_instance instance (fresh_state instance) s, fresh_state instance)
  end.

Definition projection (instance : text) (row : LifecycleInstanceRow) : LifecycleState :=
  {| lst_instance := instance; lst_desired := lir_desired_state row; lst_observed := lir_observed_state row;
     lst_version := lir_resource_version row; lst_desired_slots := lir_desired_slots row |}.
Definition read_store (instance : text) (db : LifecycleDb) : result LifecycleState PortError :=
  let? row := map_store_error (lifecycle_instance (default instance (sv_store_instance cfg)) db) in
  match row with Some row => Ok (projection instance row) | None => Err missing_instance end.

Definition get (instance : text) (s : ServiceState) (db : LifecycleDb) : result LifecycleState PortError :=
  let? _ := check_target instance in
  match ss_instances s !! instance with
  | Some v => Ok v
  | None => if sv_store cfg then read_store instance db else Err missing_instance
  end.
Definition desired_fresh (instance : text) (s : ServiceState) (db : LifecycleDb)
    : result (ServiceState * LifecycleState) PortError :=
  let? _ := check_target instance in
  if sv_store cfg then
    let? fresh := read_store instance db in
    Ok (set_instance instance fresh s, fresh)
  else
    let? v := get instance s db in
    Ok (s, v).

(** [mutate] over the store; [operation_id] is the fresh identity it makes. *)
Definition mutate_durable (now accepted_at : instant) (operation_id : text) (request : MutationRequest)
    (s : ServiceState) (db : LifecycleDb) : result (ServiceState * LifecycleDb * MutationResult) PortError :=
  let target := mr_target request in
  let desired := desired_state (mr_kind request) in
  let? recorded := map_store_error (record_lifecycle_operation now accepted_at
    {| lq_instance_slug := default target (sv_store_instance cfg); lq_kind := kind_name (mr_kind request);
       lq_target := target; lq_reason := mr_reason request; lq_idempotency_key := mr_idempotency_key request;
       lq_desired_state := desired; lq_desired_slots := mr_scale_to request;
       lq_expected_version := mr_expected_version request; lq_operation_id := operation_id |} db) in
  let '(db, (operation, fresh)) := recorded in
  let answer := {| mres_operation_id := lor_operation_id operation; mres_phase := lor_phase operation |} in
  if negb fresh then Ok (s, db, answer)
  else
    let s := {| ss_next_operation := u64_saturating_add (ss_next_operation s) 1;
                ss_instances := <[target := {| lst_instance := target; lst_desired := desired; lst_observed := txt "ready";
                                               lst_version := lor_resource_version operation;
                                               lst_desired_slots := mr_scale_to request |}]> (ss_instances s);
                ss_operations := ss_operations s |} in
    Ok (s, db, answer).

(** [mutate] in memory; a refusal keeps the entry that was made for the
    target. *)
Definition mutate_memory (request : MutationRequest) (s : ServiceState) : ServiceState * result MutationResult PortError :=
  let target := mr_target request in
  match ss_operations s !! mr_idempotency_key request with
  | Some prior => (s, Ok prior)
  | None =>
      if MAX_LIFECYCLE_OPERATIONS_PER_INSTANCE <=? Z.of_nat (size (ss_operations s)) then (s, Err operation_quota_exhausted)
      else
        let instance := default (fresh_state target) (ss_instances s !! target) in
        let s := set_instance target instance s in
        if match mr_expected_version request with Some v => negb (v =? lst_version instance) | None => false end
        then (s, Err (PConflict "lifecycle resource version changed"))
        else
          let instance := {| lst_instance := lst_instance instance; lst_desired := desired_state (mr_kind request);
                             lst_observed := lst_observed instance;
                             lst_version := u64_saturating_add (lst_version instance) 1;
                             lst_desired_slots := match mr_scale_to request with
                                                  | Some n => Some n
                                                  | None => lst_desired_slots instance
                                                  end |} in
          let next := u64_saturating_add (ss_next_operation s) 1 in
          let answer := {| mres_operation_id := txt "op-" ++ decimal next; mres_phase := accepted |} in
          ({| ss_next_operation := next; ss_instances := <[target := instance]> (ss_instances s);
              ss_operations := <[mr_idempotency_key request := answer]> (ss_operations s) |}, Ok answer)
  end.

(** [LifecycleService::mutate]. *)
Definition mutate (now accepted_at : instant) (operation_id : text) (request : MutationRequest)
    (s : ServiceState) (db : LifecycleDb) : ServiceState * LifecycleDb * result MutationResult PortError :=
  match (let? _ := validate_request request in check_target (mr_target request)) with
  | Err e => (s, db, Err e)
  | Ok _ =>
      if sv_store cfg then
        match mutate_durable now accepted_at operation_id request s db with
        | Ok (s, db, answer) => (s, db, Ok answer)
        | Err e => (s, db, Err e)
        end
      else
        let '(s, answer) := mutate_memory request s in (s, db, answer)
  end.
End Service.
