(* ===== verification/ControlLifecycleProofs.v ===== *)
(** * Lifecycle requests: idempotence, versions and completion

    Histories of the calls of [ControlLifecycle] on one database, by any
    number of processes, and what holds after each. *)

From Stdlib Require Import ZArith Lia Ascii.
From stdpp Require Import base gmap list strings sets relations.
From S2P Require Import Prelude ExprText TextOps ControlLogs ControlLifecycle.
#[local] Open Scope Z_scope.

Class ClockLaws `{Clock} := { parse_render t : parse_rfc3339 (rfc3339 t) = Some t }.

Section Histories.
Context `{Clock, !ClockLaws}.

(** A request as the types of its fields allow it. *)
Record typed (q : LifecycleOperationRequest) : Prop := {
  typed_slots : forall n, lq_desired_slots q = Some n -> 0 <= n <= u32_max;
  typed_version : forall v, lq_expected_version q = Some v -> 0 <= v <= u64_max }.

(** One call that commits. *)
Inductive db_step (db : LifecycleDb) : LifecycleDb -> Prop :=
| step_operation now at_ q db' r :
    typed q -> record_lifecycle_operation now at_ q db = Ok (db', r) -> db_step db db'
| step_observed slug observed v db' r :
    0 <= v <= u64_max -> record_lifecycle_observed slug observed v db = Ok (db', r) -> db_step db db'
| step_upsert slug : db_step db (upsert_instance slug db).

Definition empty_db : LifecycleDb := {| ld_instances := ∅; ld_operations := ∅ |}.

Definition is_phase (phase : text) : Prop := phase = accepted \/ phase = completed.
Lemma phases phase : is_phase phase -> is_accepted phase = bool_decide (phase = accepted)
  /\ is_terminal_phase phase = bool_decide (phase = completed).
Proof. by intros [-> | ->]. Qed.

(** The state of the tables after at most [n] commits. *)
Record wf (n : Z) (db : LifecycleDb) : Prop := {
  wf_instances : forall slug c, ld_instances db !! slug = Some c ->
    1 <= ic_resource_version c <= n + 1 /\ forall s, ic_desired_slots c = Some s -> 0 <= s <= u32_max;
  wf_operations : forall k o, ld_operations db !! k = Some o ->
    (exists c, ld_instances db !! k.1 = Some c /\ 1 <= oc_resource_version o <= ic_resource_version c)
    /\ is_phase (oc_phase o) /\ (exists t, oc_created_at o = rfc3339 t)
    /\ (forall s, oc_desired_slots o = Some s -> 0 <= s <= u32_max)
    /\ (forall v, oc_expected_version o = Some v -> 0 <= v <= u64_max);
  wf_distinct : forall slug k k' o o', ld_operations db !! (slug, k) = Some o -> ld_operations db !! (slug, k') = Some o' ->
    oc_resource_version o = oc_resource_version o' -> k = k';
  wf_ids : forall k k' o o', ld_operations db !! k = Some o -> ld_operations db !! k' = Some o' ->
    oc_operation_id o = oc_operation_id o' -> k = k' }.

Lemma wf_empty : wf 0 empty_db.
Proof. by split; simpl. Qed.
Lemma wf_weaken n m db : n <= m -> wf n db -> wf m db.
Proof.
  intros Hnm [Hi Ho Hd Hid]. split; [|done..]. intros slug c Hc. destruct (Hi slug c Hc). split; [lia|done].
Qed.

Lemma i64_wrap_small v : v <= i64_max -> i64_wrap v = v.
Proof. intros. unfold i64_wrap. by rewrite (proj2 (Z.leb_le _ _)). Qed.
Lemma to_u64_nonneg v : 0 <= v -> to_u64 v = Some v.
Proof. intros. unfold to_u64. by rewrite (proj2 (Z.leb_le _ _)). Qed.
Lemma transpose_u32 s : (forall n, s = Some n -> 0 <= n <= u32_max) -> transpose to_u32 s = Some s.
Proof.
  intros Hs. destruct s as [n|]; [|done]. cbn. unfold to_u32. destruct (Hs n eq_refl).
  by rewrite !(proj2 (Z.leb_le _ _)) by done.
Qed.
Lemma transpose_u64 s : (forall n, s = Some n -> 0 <= n <= u64_max) -> transpose to_u64 s = Some s.
Proof. intros Hs. destruct s as [n|]; [|done]. cbn. by rewrite to_u64_nonneg by (apply Hs; done). Qed.

(** What a reader gets of well-formed tables. *)
Definition row_of (slug : text) (c : InstanceCols) : LifecycleInstanceRow :=
  {| lir_instance_slug := slug; lir_desired_state := ic_desired_state c; lir_observed_state := ic_observed_state c;
     lir_resource_version := ic_resource_version c; lir_desired_slots := ic_desired_slots c |}.
Lemma read_instance n db slug :
  wf n db -> lifecycle_instance slug db = Ok (row_of slug <$> ld_instances db !! slug).
Proof.
  intros Hw. unfold lifecycle_instance, optional. destruct (ld_instances db !! slug) as [c|] eqn:E; [|done].
  destruct (wf_instances _ _ Hw _ _ E) as [Hv Hs]. unfold lifecycle_instance_row.
  rewrite to_u64_nonneg by lia. cbn. by rewrite transpose_u32.
Qed.
Lemma read_operation n db slug key o :
  wf n db -> ld_operations db !! (slug, key) = Some o ->
  exists t, oc_created_at o = rfc3339 t /\ lifecycle_operation_query slug key db = Ok (Some {|
    lor_instance_slug := slug; lor_idempotency_key := key; lor_operation_id := oc_operation_id o;
    lor_kind := oc_kind o; lor_target := oc_target o; lor_reason := oc_reason o;
    lor_desired_state := oc_desired_state o; lor_desired_slots := oc_desired_slots o;
    lor_expected_version := oc_expected_version o; lor_resource_version := oc_resource_version o;
    lor_phase := oc_phase o; lor_created_at := t |}).
Proof.
  intros Hw E. destruct (wf_operations _ _ Hw _ _ E) as ((c & _ & Hv) & _ & (t & Ht) & Hs & Hx).
  exists t. split; [done|]. unfold lifecycle_operation_query, optional. rewrite E. unfold decode_operation.
  rewrite to_u64_nonneg by lia. cbn. rewrite Ht, parse_render. cbn. rewrite transpose_u32 by done. cbn.
  by rewrite transpose_u64.
Qed.

(** ** The two writes *)

Definition version_of (slug : text) (db : LifecycleDb) : Z :=
  match ld_instances db !! slug with Some c => ic_resource_version c | None => 1 end.
Lemma version_bound n db slug : 0 <= n -> wf n db -> 1 <= version_of slug db <= n + 1.
Proof.
  intros Hn Hw. unfold version_of. destruct (_ !! _) as [c|] eqn:E; [|lia]. by destruct (wf_instances _ _ Hw _ _ E).
Qed.

(** Reclaiming keeps what it keeps, and drops completed records only. *)
Lemma make_room_spec n db now slug ops :
  wf n db -> make_room now slug (ld_operations db) = Ok ops ->
  forall k o, ld_operations db !! k = Some o -> ops !! k = Some o \/ (ops !! k = None /\ oc_phase o = completed).
Proof.
  intros Hw Hm k o Ho. unfold make_room in Hm. destruct (_ <? _); [injection Hm as <-; by left|].
  destruct (_ <? _); [|done]. injection Hm as <-.
  destruct (decide (reclaimable slug (rfc3339 (minus_seconds now LIFECYCLE_OPERATION_RETENTION)) (k, o))) as [Hr|Hr].
  - right. split; [apply map_lookup_filter_None; right; naive_solver|].
    destruct Hr as (_ & _ & Ht). destruct (wf_operations _ _ Hw _ _ Ho) as (_ & Hp & _).
    change (is_terminal_phase (oc_phase o) = true) in Ht. rewrite (proj2 (phases _ Hp)) in Ht. by apply bool_decide_eq_true in Ht.
  - left. by apply map_lookup_filter_Some.
Qed.
Lemma make_room_sub n db now slug ops k o :
  wf n db -> make_room now slug (ld_operations db) = Ok ops -> ops !! k = Some o -> ld_operations db !! k = Some o.
Proof.
  intros Hw Hm. unfold make_room in Hm. destruct (_ <? _); [by injection Hm as <-|].
  destruct (_ <? _); [|done]. injection Hm as <-. intros Hk. by apply map_lookup_filter_Some in Hk as [? _].
Qed.

Definition fresh_cols (q : LifecycleOperationRequest) (version : Z) (at_ : instant) : OperationCols := {|
  oc_operation_id := lq_operation_id q; oc_kind := lq_kind q; oc_target := lq_target q; oc_reason := lq_reason q;
  oc_desired_state := lq_desired_state q; oc_desired_slots := lq_desired_slots q;
  oc_expected_version := lq_expected_version q; oc_resource_version := version; oc_phase := accepted;
  oc_created_at := rfc3339 at_ |}.
Definition key_of (q : LifecycleOperationRequest) : text * text := (lq_instance_slug q, lq_idempotency_key q).
Definition matches (q : LifecycleOperationRequest) (o : OperationCols) : Prop :=
  oc_kind o = lq_kind q /\ oc_target o = lq_target q /\ oc_reason o = lq_reason q
  /\ oc_desired_state o = lq_desired_state q /\ oc_desired_slots o = lq_desired_slots q
  /\ oc_expected_version o = lq_expected_version q.

Lemma operation_cases n now at_ q db db' row fresh :
  0 <= n -> n + 2 <= i64_max -> wf n db -> record_lifecycle_operation now at_ q db = Ok (db', (row, fresh)) ->
  match ld_operations db !! key_of q with
  | Some o => fresh = false /\ db' = db /\ matches q o
      /\ lor_operation_id row = oc_operation_id o /\ lor_resource_version row = oc_resource_version o
      /\ lor_phase row = oc_phase o
  | None => fresh = true /\ exists ops,
      make_room now (lq_instance_slug q) (ld_operations db) = Ok ops
      /\ (forall v, lq_expected_version q = Some v -> v = version_of (lq_instance_slug q) db)
      /\ (forall k o, ops !! k = Some o -> oc_operation_id o <> lq_operation_id q)
      /\ lor_operation_id row = lq_operation_id q
      /\ lor_resource_version row = version_of (lq_instance_slug q) db + 1
      /\ db' = {| ld_instances := <[lq_instance_slug q := desire q (version_of (lq_instance_slug q) db + 1)
                                      (ld_instances db !! lq_instance_slug q)]> (ld_instances db);
                  ld_operations := <[key_of q := fresh_cols q (version_of (lq_instance_slug q) db + 1) at_]> ops |}
  end.
Proof.
  intros Hn Hb Hw Hr. unfold record_lifecycle_operation in Hr. unfold key_of.
  destruct (ld_operations db !! (lq_instance_slug q, lq_idempotency_key q)) as [o|] eqn:Eo.
  - destruct (read_operation _ _ _ _ _ Hw Eo) as (t & _ & Hq). rewrite Hq in Hr. cbn [result_bind] in Hr.
    case_decide as Hs; [|done]. injection Hr as <- <- <-. by split_and!.
  - unfold lifecycle_operation_query, optional in Hr. rewrite Eo in Hr. cbn [result_bind] in Hr.
    destruct (make_room _ _ _) as [ops|] eqn:Em; [|done]. cbn [result_bind] in Hr.
    pose proof (version_bound n db (lq_instance_slug q) Hn Hw) as Hv.
    assert (match ld_instances db !! lq_instance_slug q with
            | Some c => default 0 (to_u64 (ic_resource_version c)) | None => 1 end
            = version_of (lq_instance_slug q) db) as Hcur.
    { unfold version_of in *. destruct (ld_instances db !! _) as [c|]; [|done]. by rewrite to_u64_nonneg by lia. }
    rewrite Hcur in Hr.
    destruct (match lq_expected_version q with Some v => negb (v =? version_of (lq_instance_slug q) db) | None => false end) eqn:Ev;
      [done|].
    destruct (match lq_expected_version q with Some v => i64_max <? v | None => false end); [done|].
    case_decide as Hid; [done|]. injection Hr as <- <- <-.
    assert (u64_saturating_add (version_of (lq_instance_slug q) db) 1 = version_of (lq_instance_slug q) db + 1) as Hadd.
    { unfold u64_saturating_add, i64_max, u64_max in *. lia. }
    split; [done|]. exists ops. rewrite Hadd. split_and!; try done.
    + intros v Hx. rewrite Hx in Ev. by apply negb_false_iff, Z.eqb_eq in Ev.
    + intros k o Hk Heq. apply Hid. by exists k, o.
    + unfold fresh_cols, desire. by rewrite i64_wrap_small by lia.
Qed.

Definition observed_cols (observed : text) (c : InstanceCols) : InstanceCols :=
  {| ic_desired_state := ic_desired_state c; ic_observed_state := observed;
     ic_resource_version := ic_resource_version c + 1; ic_desired_slots := ic_desired_slots c |}.
Definition resolve (slug observed : text) (v : Z) (k : text * text) (o : OperationCols) : OperationCols :=
  if decide (k.1 = slug /\ oc_resource_version o = v /\ oc_desired_state o = observed /\ oc_phase o = accepted)
  then {| oc_operation_id := oc_operation_id o; oc_kind := oc_kind o; oc_target := oc_target o; oc_reason := oc_reason o;
          oc_desired_state := oc_desired_state o; oc_desired_slots := oc_desired_slots o;
          oc_expected_version := oc_expected_version o; oc_resource_version := oc_resource_version o;
          oc_phase := completed; oc_created_at := oc_created_at o |}
  else o.

Lemma observed_cases n slug observed v db db' row fresh :
  0 <= n -> n + 2 <= i64_max -> wf n db -> record_lifecycle_observed slug observed v db = Ok (db', (row, fresh)) ->
  exists c, ld_instances db !! slug = Some c
    /\ if decide (ic_resource_version c = v)
       then fresh = true /\ lir_resource_version row = v + 1
         /\ ld_instances db' = <[slug := observed_cols observed c]> (ld_instances db)
         /\ forall k, ld_operations db' !! k = resolve slug observed v k <$> ld_operations db !! k
       else fresh = false /\ db' = db /\ row = row_of slug c.
Proof.
  intros Hn Hb Hw Hr. unfold record_lifecycle_observed in Hr. rewrite (read_instance n) in Hr by done.
  cbn [result_bind] in Hr. destruct (ld_instances db !! slug) as [c|] eqn:Ec; [|done]. cbn in Hr.
  exists c. split; [done|]. destruct (wf_instances _ _ Hw _ _ Ec) as [Hv _].
  case_decide as Hd; case_decide as He; try (by exfalso); [injection Hr as <- <- <-; done|].
  injection Hr as <- <- <-. subst v. cbn.
  assert (u64_saturating_add (ic_resource_version c) 1 = ic_resource_version c + 1) as ->.
  { unfold u64_saturating_add, i64_max, u64_max in *. lia. }
  split_and!; [done..| |].
  - unfold observed_cols. rewrite i64_wrap_small by lia. rewrite <- (insert_id _ _ _ Ec) at 1. rewrite alter_insert_eq. done.
  - intros k. rewrite map_lookup_imap. destruct (ld_operations db !! k) as [o|] eqn:Eo; [|done]. cbn. f_equal.
    unfold complete_if, resolve. rewrite i64_wrap_small by lia.
    destruct (wf_operations _ _ Hw _ _ Eo) as (_ & Hp & _). rewrite (proj1 (phases _ Hp)).
    apply decide_ext. by rewrite bool_decide_eq_true.
Qed.

Lemma resolve_fields slug observed v k o :
  let o' := resolve slug observed v k o in
  oc_operation_id o' = oc_operation_id o /\ oc_resource_version o' = oc_resource_version o
  /\ oc_created_at o' = oc_created_at o /\ oc_desired_slots o' = oc_desired_slots o
  /\ oc_expected_version o' = oc_expected_version o /\ (is_phase (oc_phase o) -> is_phase (oc_phase o'))
  /\ (forall q, matches q o -> matches q o').
Proof. unfold resolve. case_decide; simpl; split_and!; try done. intros _. by right. Qed.

(** ** Well-formed tables stay so *)

Lemma wf_fresh n q at_ db ops now :
  0 <= n -> n + 2 <= i64_max -> typed q -> wf n db -> ld_operations db !! key_of q = None ->
  make_room now (lq_instance_slug q) (ld_operations db) = Ok ops ->
  (forall k o, ops !! k = Some o -> oc_operation_id o <> lq_operation_id q) ->
  wf (n + 1) {| ld_instances := <[lq_instance_slug q := desire q (version_of (lq_instance_slug q) db + 1)
                                   (ld_instances db !! lq_instance_slug q)]> (ld_instances db);
                ld_operations := <[key_of q := fresh_cols q (version_of (lq_instance_slug q) db + 1) at_]> ops |}.
Proof.
  intros Hn Hb Hq Hw Hnone Hm Hids. pose proof (version_bound n db (lq_instance_slug q) Hn Hw) as Hv.
  set (v := version_of (lq_instance_slug q) db) in *.
  assert (ic_resource_version (desire q (v + 1) (ld_instances db !! lq_instance_slug q)) = v + 1) as Hnew.
  { unfold desire. destruct (ld_instances db !! lq_instance_slug q); cbn; apply i64_wrap_small; lia. }
  assert (forall k o, ops !! k = Some o -> k.1 = lq_instance_slug q -> oc_resource_version o <= v) as Hold.
  { intros k o Hk Hs. apply (make_room_sub _ _ _ _ _ _ _ Hw Hm) in Hk.
    destruct (wf_operations _ _ Hw _ _ Hk) as ((c & Hc & Hle) & _). rewrite Hs in Hc. subst v. unfold version_of. rewrite Hc. lia. }
  split; cbn.
  - intros slug c. rewrite lookup_insert_Some. intros [[<- <-]|[_ Hc]].
    + rewrite Hnew. split; [lia|]. unfold desire. destruct (ld_instances db !! _) as [c|] eqn:Ec; cbn; [|apply Hq].
      destruct (lq_desired_slots q) eqn:Es; [intros s [= <-]; by apply Hq|]. by apply (wf_instances _ _ Hw _ _ Ec).
    + destruct (wf_instances _ _ Hw _ _ Hc). split; [lia|done].
  - intros k o. rewrite lookup_insert_Some. intros [[<- <-]|[Hne Hk]].
    + cbn. split_and!; [|by left|by eexists|apply Hq|apply Hq].
      eexists. rewrite lookup_insert_eq, Hnew. split; [done|lia].
    + pose proof (make_room_sub _ _ _ _ _ _ _ Hw Hm Hk) as Hk'.
      destruct (wf_operations _ _ Hw _ _ Hk') as ((c & Hc & Hle) & Hrest). split; [|done].
      destruct (decide (k.1 = lq_instance_slug q)) as [E|E].
      * eexists. rewrite E, lookup_insert_eq, Hnew. split; [done|]. specialize (Hold _ _ Hk E). lia.
      * exists c. by rewrite lookup_insert_ne by done.
  - intros slug k k' o o'. rewrite !lookup_insert_Some. unfold key_of.
    intros [[E1 <-]|[_ Hk]] [[E2 <-]|[_ Hk']] Heq; simplify_eq/=; try done.
    + specialize (Hold _ _ Hk' eq_refl). lia.
    + specialize (Hold _ _ Hk eq_refl). lia.
    + eapply (wf_distinct _ _ Hw slug); [by eapply make_room_sub..|done].
  - intros k k' o o'. rewrite !lookup_insert_Some.
    intros [[<- <-]|[_ Hk]] [[<- <-]|[_ Hk']]; cbn; try done; intros Heq.
    + by destruct (Hids _ _ Hk').
    + by destruct (Hids _ _ Hk).
    + eapply (wf_ids _ _ Hw); [by eapply make_room_sub..|done].
Qed.

Lemma wf_observe n slug observed db db' c :
  0 <= n -> wf n db -> ld_instances db !! slug = Some c ->
  ld_instances db' = <[slug := observed_cols observed c]> (ld_instances db) ->
  (forall k, ld_operations db' !! k = resolve slug observed (ic_resource_version c) k <$> ld_operations db !! k) ->
  wf (n + 1) db'.
Proof.
  intros Hn Hw Hc Hi Ho. destruct (wf_instances _ _ Hw _ _ Hc) as [Hv Hs].
  assert (forall k o', ld_operations db' !! k = Some o' -> exists o, ld_operations db !! k = Some o
    /\ o' = resolve slug observed (ic_resource_version c) k o) as Hback.
  { intros k o' Hk. rewrite Ho in Hk. destruct (ld_operations db !! k) as [o|]; [|done]. injection Hk as <-. eauto. }
  split.
  - intros slug' c'. rewrite Hi, lookup_insert_Some. intros [[<- <-]|[_ Hc']]; [cbn; split; [lia|done]|].
    destruct (wf_instances _ _ Hw _ _ Hc'). split; [lia|done].
  - intros k o' (o & Hk & ->)%Hback. destruct (resolve_fields slug observed (ic_resource_version c) k o) as (F1 & F2 & F3 & F4 & F5 & F6 & _).
    destruct (wf_operations _ _ Hw _ _ Hk) as ((c0 & Hc0 & Hle) & Hp & Ht & Hsl & Hx).
    rewrite F2, F3, F4, F5. split_and!; [|by apply F6|done..].
    rewrite Hi. destruct (decide (k.1 = slug)) as [E|Hne].
    + rewrite E, Hc in Hc0. injection Hc0 as <-. eexists. rewrite E, lookup_insert_eq. cbn. split; [done|]. cbn. lia.
    + exists c0. by rewrite lookup_insert_ne by done.
  - intros slug' k k' o o' (x & Hx & ->)%Hback (y & Hy & ->)%Hback.
    destruct (resolve_fields slug observed (ic_resource_version c) (slug', k) x) as (_ & -> & _).
    destruct (resolve_fields slug observed (ic_resource_version c) (slug', k') y) as (_ & -> & _). by eapply (wf_distinct _ _ Hw).
  - intros k k' o o' (x & Hx & ->)%Hback (y & Hy & ->)%Hback.
    destruct (resolve_fields slug observed (ic_resource_version c) k x) as (-> & _).
    destruct (resolve_fields slug observed (ic_resource_version c) k' y) as (-> & _). by eapply (wf_ids _ _ Hw).
Qed.

Lemma wf_step n db db' : 0 <= n -> n + 2 <= i64_max -> wf n db -> db_step db db' -> wf (n + 1) db'.
Proof.
  intros Hn Hb Hw [now at_ q db1 [row fresh] Hq Hr|slug observed v db1 [row fresh] Hv Hr|slug].
  - pose proof (operation_cases _ _ _ _ _ _ _ _ Hn Hb Hw Hr) as Hc. destruct (_ !! key_of q) eqn:E.
    + destruct Hc as (_ & -> & _). by eapply wf_weaken; [|exact Hw]; lia.
    + destruct Hc as (_ & ops & Hm & _ & Hids & _ & _ & ->). by eapply wf_fresh.
  - destruct (observed_cases _ _ _ _ _ _ _ _ Hn Hb Hw Hr) as (c & Hc & Hcase). case_decide.
    + subst v. destruct Hcase as (_ & _ & Hi & Ho). by eapply wf_observe.
    + destruct Hcase as (_ & -> & _). by eapply wf_weaken; [|exact Hw]; lia.
  - unfold upsert_instance. destruct (ld_instances db !! slug) eqn:E; [by eapply wf_weaken; [|exact Hw]; lia|].
    destruct Hw as [Hi Ho Hd Hid]. split; [| |exact Hd|exact Hid].
    + intros slug' c. cbn. rewrite lookup_insert_Some. intros [[<- <-]|[_ Hc]]; [cbn; split; [lia|done]|].
      destruct (Hi _ _ Hc). split; [lia|done].
    + intros k o Hk. destruct (Ho k o Hk) as ((c & Hc & Hle) & Hrest). split; [|done]. exists c. cbn.
      rewrite lookup_insert_ne by congruence. done.
Qed.

Lemma wf_steps n m db db' :
  0 <= n -> n + Z.of_nat m + 1 <= i64_max -> wf n db -> nsteps db_step m db db' -> wf (n + Z.of_nat m) db'.
Proof.
  intros Hn Hb Hw Hs. revert n Hn Hb Hw; induction Hs as [db|m db db1 db' Hstep Hs IH]; intros n Hn Hb Hw.
  - by rewrite Z.add_0_r.
  - replace (n + Z.of_nat (S m)) with (n + 1 + Z.of_nat m) by lia. apply IH; [lia|lia|]. eapply wf_step; [done|lia|done..].
Qed.

(** ** The life of one record *)

(** The record of the same request, maybe in another phase. *)
Definition kept (o o' : OperationCols) : Prop :=
  oc_operation_id o' = oc_operation_id o /\ oc_resource_version o' = oc_resource_version o
  /\ forall q, matches q o -> matches q o'.
Lemma kept_refl o : kept o o.
Proof. done. Qed.
Lemma kept_trans o o1 o2 : kept o o1 -> kept o1 o2 -> kept o o2.
Proof. intros (A & B & C) (A' & B' & C'). split_and!; [congruence..|auto]. Qed.

(** One commit leaves the record, completes it because its state was observed
    at its version, or reclaims it once completed. *)
Lemma record_step n db db' k o :
  0 <= n -> n + 2 <= i64_max -> wf n db -> db_step db db' -> ld_operations db !! k = Some o ->
  version_of k.1 db <= version_of k.1 db'
  /\ (ld_operations db' !! k = Some o
      \/ (oc_phase o = accepted /\ oc_resource_version o = version_of k.1 db
          /\ (exists c, ld_instances db' !! k.1 = Some c /\ ic_observed_state c = oc_desired_state o)
          /\ exists o', ld_operations db' !! k = Some o' /\ kept o o' /\ oc_phase o' = completed)
      \/ (ld_operations db' !! k = None /\ oc_phase o = completed)).
Proof.
  intros Hn Hb Hw Hstep Ho. destruct Hstep as [now at_ q db1 [row fresh] Hq Hr|slug observed v db1 [row fresh] Hv Hr|slug].
  - pose proof (operation_cases _ _ _ _ _ _ _ _ Hn Hb Hw Hr) as Hc. destruct (_ !! key_of q) eqn:E.
    { destruct Hc as (_ & -> & _). split; [lia|by left]. }
    destruct Hc as (_ & ops & Hm & _ & _ & _ & _ & ->).
    assert (key_of q <> k) as Hne by congruence. split.
    + pose proof (version_bound n db (lq_instance_slug q) Hn Hw) as Hv.
      destruct (decide (lq_instance_slug q = k.1)) as [<-|Hs].
      * unfold version_of at 2. cbn. rewrite lookup_insert_eq.
        unfold desire. destruct (ld_instances db !! _); cbn; rewrite i64_wrap_small by lia; lia.
      * unfold version_of. cbn. rewrite lookup_insert_ne by done. lia.
    + cbn. rewrite lookup_insert_ne by done. destruct (make_room_spec _ _ _ _ _ Hw Hm _ _ Ho) as [?|[? ?]]; [by left|by right; right].
  - destruct (observed_cases _ _ _ _ _ _ _ _ Hn Hb Hw Hr) as (c & Hc & Hcase). case_decide as Hd.
    2: { destruct Hcase as (_ & -> & _). split; [lia|by left]. }
    subst v. destruct Hcase as (_ & _ & Hi & Hops). split.
    + unfold version_of. rewrite Hi. destruct (decide (slug = k.1)) as [<-|Hs].
      * rewrite Hc, lookup_insert_eq. cbn. lia.
      * rewrite lookup_insert_ne by done. lia.
    + rewrite Hops, Ho. cbn. unfold resolve at 1. case_decide as Hres; [|by left].
      destruct Hres as (Hk & Hvo & Hds & Hph). right. left. split_and!; [done| | |].
      * unfold version_of. rewrite Hk, Hc. done.
      * exists (observed_cols observed c). rewrite Hi, Hk, lookup_insert_eq. by rewrite <- Hds.
      * eexists. split; [reflexivity|]. pose proof (resolve_fields slug observed (ic_resource_version c) k o) as (F1 & F2 & _ & _ & _ & _ & F7).
        split; [by split_and!|]. unfold resolve. by rewrite decide_True.
  - unfold upsert_instance. destruct (ld_instances db !! slug) eqn:E; [split; [lia|by left]|]. split; [|by left].
    unfold version_of. cbn. destruct (decide (slug = k.1)) as [<-|Hs]; [by rewrite lookup_insert_eq, E|].
    rewrite lookup_insert_ne by done. lia.
Qed.

(** Over many commits: the record is there, or it was completed on the way. *)
Lemma record_steps n m db db' k o :
  0 <= n -> n + Z.of_nat m + 1 <= i64_max -> wf n db -> nsteps db_step m db db' -> ld_operations db !! k = Some o ->
  (exists o', ld_operations db' !! k = Some o' /\ kept o o')
  \/ exists dbi oi, rtc db_step db dbi /\ rtc db_step dbi db' /\ ld_operations dbi !! k = Some oi
        /\ kept o oi /\ oc_phase oi = completed.
Proof.
  intros Hn Hb Hw Hs. revert n o Hn Hb Hw; induction Hs as [db|m db db1 db' Hstep Hs IH]; intros n o Hn Hb Hw Ho.
  { left. exists o. split; [done|apply kept_refl]. }
  destruct (record_step n db db1 k o) as [_ Hcase]; [lia|lia|done..|].
  assert (wf (n + 1) db1) as Hw1 by (by eapply wf_step; [lia|lia|..]).
  destruct Hcase as [Ho1|[(_ & _ & _ & o1 & Ho1 & Hk & _)|[Hnone Hcomp]]].
  - destruct (IH (n + 1) o ltac:(lia) ltac:(lia) Hw1 Ho1) as [?|(dbi & oi & R1 & R2 & Hrest)]; [by left|right].
    exists dbi, oi. split; [by eapply rtc_l|done].
  - destruct (IH (n + 1) o1 ltac:(lia) ltac:(lia) Hw1 Ho1) as [(o2 & ? & ?)|(dbi & oi & R1 & R2 & Hoi & Hki & Hp)].
    + left. exists o2. split; [done|by eapply kept_trans].
    + right. exists dbi, oi. split_and!; [by eapply rtc_l|done..|by eapply kept_trans|done].
  - right. exists db, o. split_and!; [done| |done|apply kept_refl|done]. eapply rtc_l; [done|]. by eapply rtc_nsteps_2.
Qed.

Lemma superseded_steps n m db db' k o :
  0 <= n -> n + Z.of_nat m + 1 <= i64_max -> wf n db -> nsteps db_step m db db' ->
  ld_operations db !! k = Some o -> oc_phase o = accepted -> oc_resource_version o < version_of k.1 db ->
  ld_operations db' !! k = Some o /\ oc_resource_version o < version_of k.1 db'.
Proof.
  intros Hn Hb Hw Hs. revert n Hn Hb Hw; induction Hs as [db|m db db1 db' Hstep Hs IH]; intros n Hn Hb Hw Ho Hp Hv; [done|].
  destruct (record_step n db db1 k o) as [Hmono Hcase]; [lia|lia|done..|].
  assert (wf (n + 1) db1) as Hw1 by (by eapply wf_step; [lia|lia|..]).
  destruct Hcase as [Ho1|[(_ & Heq & _)|[_ Hcomp]]]; [|lia|by rewrite Hp in Hcomp].
  apply (IH (n + 1)); [lia|lia|done..|lia].
Qed.

(** ** Theorems *)

(** The request as a caller sends it again: the same but for the identity
    that is made for every call. *)
Definition resend (operation_id : text) (q : LifecycleOperationRequest) : LifecycleOperationRequest := {|
  lq_instance_slug := lq_instance_slug q; lq_kind := lq_kind q; lq_target := lq_target q; lq_reason := lq_reason q;
  lq_idempotency_key := lq_idempotency_key q; lq_desired_state := lq_desired_state q;
  lq_desired_slots := lq_desired_slots q; lq_expected_version := lq_expected_version q;
  lq_operation_id := operation_id |}.

Lemma replay_existing n now at_ q db o :
  wf n db -> ld_operations db !! key_of q = Some o -> matches q o ->
  exists row, record_lifecycle_operation now at_ q db = Ok (db, (row, false))
    /\ lor_operation_id row = oc_operation_id o /\ lor_resource_version row = oc_resource_version o
    /\ lor_phase row = oc_phase o.
Proof.
  intros Hw Ho Hm. destruct (read_operation _ _ _ _ _ Hw Ho) as (t & _ & Hq).
  unfold record_lifecycle_operation. rewrite Hq. cbn [result_bind]. rewrite decide_True by exact Hm. by eexists.
Qed.

(** C17: a lifecycle request takes effect once. Whatever is committed after it
    was accepted, by whichever processes, sending it again changes nothing and
    returns the operation it became, with its identity and version; unless
    that operation was completed in between, since only completed records are
    ever given up. *)
Theorem lifecycle_request_takes_effect_once n m db db1 db2 q row now at_ id now' at' :
  nsteps db_step n empty_db db -> typed q ->
  record_lifecycle_operation now at_ q db = Ok (db1, (row, true)) ->
  nsteps db_step m db1 db2 -> Z.of_nat n + Z.of_nat m + 3 <= i64_max ->
  (exists row', record_lifecycle_operation now' at' (resend id q) db2 = Ok (db2, (row', false))
     /\ lor_operation_id row' = lor_operation_id row /\ lor_resource_version row' = lor_resource_version row)
  \/ (exists dbi o, rtc db_step db1 dbi /\ rtc db_step dbi db2 /\ ld_operations dbi !! key_of q = Some o
       /\ oc_operation_id o = lor_operation_id row /\ oc_phase o = completed).
Proof.
  intros Hn Hq Hr Hm Hb.
  pose proof (wf_steps 0 n empty_db db ltac:(lia) ltac:(lia) wf_empty Hn) as Hw. rewrite Z.add_0_l in Hw.
  pose proof (operation_cases (Z.of_nat n) _ _ _ _ _ _ _ ltac:(lia) ltac:(lia) Hw Hr) as Hc.
  destruct (_ !! key_of q) eqn:E; [by destruct Hc|]. destruct Hc as (_ & ops & Hroom & _ & Hids & Hrid & Hrv & ->).
  pose proof (wf_fresh (Z.of_nat n) q at_ db ops now ltac:(lia) ltac:(lia) Hq Hw E Hroom Hids) as Hw1.
  set (o := fresh_cols q (version_of (lq_instance_slug q) db + 1) at_) in *.
  destruct (record_steps (Z.of_nat n + 1) m _ db2 (key_of q) o ltac:(lia) ltac:(lia) Hw1 Hm) as [(o' & Ho' & Hk)|(dbi & oi & R1 & R2 & Hoi & Hk & Hp)].
  { by cbn; rewrite lookup_insert_eq. }
  - left. pose proof (wf_steps (Z.of_nat n + 1) m _ _ ltac:(lia) ltac:(lia) Hw1 Hm) as Hw2. destruct Hk as (K1 & K2 & K3).
    destruct (replay_existing _ now' at' (resend id q) db2 o' Hw2 Ho') as (row' & Hrec & I1 & I2 & _).
    { apply (K3 (resend id q)). by subst o. }
    exists row'. split_and!; [done|by rewrite I1, K1, Hrid|by rewrite I2, K2, Hrv].
  - right. exists dbi, oi. destruct Hk as (K1 & _). split_and!; [done..|by rewrite K1, Hrid|done].
Qed.

(** Versions serialize everyone who writes an instance: no two operations
    of an instance carry the same version, none carries one the instance has
    not reached, and a write that expects a version is made only at it. *)
Theorem lifecycle_versions_are_serial n db now at_ q db' row fresh :
  nsteps db_step n empty_db db -> Z.of_nat n + 2 <= i64_max ->
  record_lifecycle_operation now at_ q db = Ok (db', (row, fresh)) ->
  (forall slug k k' o o', ld_operations db !! (slug, k) = Some o -> ld_operations db !! (slug, k') = Some o' ->
     oc_resource_version o = oc_resource_version o' -> k = k')
  /\ (forall k o, ld_operations db !! k = Some o -> oc_resource_version o <= version_of k.1 db)
  /\ (if fresh then version_of (lq_instance_slug q) db' = version_of (lq_instance_slug q) db + 1
         /\ lor_resource_version row = version_of (lq_instance_slug q) db'
         /\ forall v, lq_expected_version q = Some v -> v = version_of (lq_instance_slug q) db
      else db' = db).
Proof.
  intros Hn Hb Hr. pose proof (wf_steps 0 n empty_db db ltac:(lia) ltac:(lia) wf_empty Hn) as Hw. rewrite Z.add_0_l in Hw.
  split_and!; [apply Hw| |].
  - intros k o Ho. destruct (wf_operations _ _ Hw _ _ Ho) as ((c & Hc & Hle) & _). unfold version_of. rewrite Hc. lia.
  - pose proof (operation_cases (Z.of_nat n) _ _ _ _ _ _ _ ltac:(lia) ltac:(lia) Hw Hr) as Hc.
    pose proof (version_bound (Z.of_nat n) _ (lq_instance_slug q) ltac:(lia) Hw) as Hv.
    destruct (_ !! key_of q); [by destruct Hc as (-> & -> & _)|].
    destruct Hc as (-> & ops & _ & Hx & _ & _ & Hrv & ->).
    assert (forall ops', version_of (lq_instance_slug q)
      {| ld_instances := <[lq_instance_slug q := desire q (version_of (lq_instance_slug q) db + 1)
           (ld_instances db !! lq_instance_slug q)]> (ld_instances db); ld_operations := ops' |}
      = version_of (lq_instance_slug q) db + 1) as Hnew.
    { intros ops'. unfold version_of at 1. cbn. rewrite lookup_insert_eq.
      unfold desire. destruct (ld_instances db !! lq_instance_slug q); cbn; apply i64_wrap_small; lia. }
    rewrite Hnew. by split_and!.
Qed.

(** A request is completed only by its own observation: when a commit turns
    a record from accepted to completed, the instance stood at exactly the
    version of that request, and the state the request asked for is the one
    recorded as observed. *)
Theorem completion_is_an_observation n db db' k o o' :
  nsteps db_step n empty_db db -> Z.of_nat n + 2 <= i64_max -> db_step db db' ->
  ld_operations db !! k = Some o -> ld_operations db' !! k = Some o' ->
  oc_phase o = accepted -> oc_phase o' <> accepted ->
  version_of k.1 db = oc_resource_version o
  /\ exists c, ld_instances db' !! k.1 = Some c /\ ic_observed_state c = oc_desired_state o.
Proof.
  intros Hn Hb Hs Ho Ho' Hp Hp'. pose proof (wf_steps 0 n empty_db db ltac:(lia) ltac:(lia) wf_empty Hn) as Hw.
  rewrite Z.add_0_l in Hw. destruct (record_step (Z.of_nat n) _ _ k o ltac:(lia) ltac:(lia) Hw Hs Ho) as [_ Hcase].
  destruct Hcase as [E|[(_ & -> & Hc & _)|[E _]]]; [congruence|done|congruence].
Qed.

(** The records of an instance that wait for an observation at a version the
    instance has left. *)
Definition superseded (slug : text) (db : LifecycleDb) : gmap (text * text) OperationCols :=
  filter (fun ko => ko.1.1 = slug /\ oc_phase ko.2 = accepted /\ oc_resource_version ko.2 < version_of slug db)
    (ld_operations db).

(** C39: a request that another write overtook before it was observed stays
    accepted for good, and is never reclaimed: once an instance holds 4096
    such records, every new request for it is refused, however long one
    waits. *)
Theorem overtaken_requests_exhaust_the_quota n m db db' q now at_ :
  nsteps db_step n empty_db db -> nsteps db_step m db db' -> Z.of_nat n + Z.of_nat m + 2 <= i64_max ->
  MAX_LIFECYCLE_OPERATIONS_PER_INSTANCE <= Z.of_nat (size (superseded (lq_instance_slug q) db)) ->
  ld_operations db' !! key_of q = None ->
  record_lifecycle_operation now at_ q db'
  = Err {| se_class := CUnavailable; se_reason := "store.lifecycle.operation_quota" |}.
Proof.
  intros Hn Hm Hb Hsize Hnone.
  pose proof (wf_steps 0 n empty_db db ltac:(lia) ltac:(lia) wf_empty Hn) as Hw. rewrite Z.add_0_l in Hw.
  assert (forall k o, superseded (lq_instance_slug q) db !! k = Some o ->
    ld_operations db' !! k = Some o /\ k.1 = lq_instance_slug q /\ oc_phase o = accepted) as Hstay.
  { intros k o (Ho & Hk & Hp & Hv)%map_lookup_filter_Some. cbn in Hk, Hp, Hv. rewrite <- Hk in Hv.
    destruct (superseded_steps (Z.of_nat n) m db db' k o ltac:(lia) ltac:(lia) Hw Hm Ho Hp Hv) as [Ho' _]. done. }
  assert (forall ops, (forall k o, superseded (lq_instance_slug q) db !! k = Some o -> ops !! k = Some o) ->
    (operation_count (lq_instance_slug q) ops <? MAX_LIFECYCLE_OPERATIONS_PER_INSTANCE) = false) as Hfull.
  { intros ops Hops. apply Z.ltb_ge. etransitivity; [exact Hsize|]. unfold operation_count. apply inj_le, map_subseteq_size.
    apply map_subseteq_spec. intros k o Ho. apply map_lookup_filter_Some. split; [by apply Hops|]. by destruct (Hstay _ _ Ho) as (_ & ? & _). }
  unfold record_lifecycle_operation, lifecycle_operation_query, optional. unfold key_of in Hnone. rewrite Hnone.
  cbn [result_bind]. unfold make_room. rewrite !Hfull; [done| |by intros k o Ho; destruct (Hstay _ _ Ho)].
  intros k o Ho. destruct (Hstay _ _ Ho) as (Ho' & _ & Hp). apply map_lookup_filter_Some. split; [done|].
  intros (_ & _ & Ht). cbn in Ht. rewrite Hp in Ht. discriminate Ht.
Qed.
End Histories.

(** ** Witnesses *)

(** A clock whose instants are their texts. *)
#[local] Instance text_clock : Clock :=
  {| instant := text; rfc3339 t := t; parse_rfc3339 t := Some t; minus_seconds t _ := t |}.
#[local] Instance text_clock_laws : ClockLaws.
Proof. by split. Defined.

Definition host : text := txt "host".
Definition noon : instant := (txt "2026-01-01T12:00:00Z" : text).
Definition cordon_as (key id : text) : LifecycleOperationRequest := {|
  lq_instance_slug := host; lq_kind := txt "cordon"; lq_target := host; lq_reason := txt "upgrade";
  lq_idempotency_key := key; lq_desired_state := txt "cordoned"; lq_desired_slots := None;
  lq_expected_version := None; lq_operation_id := id |}.
Lemma cordon_typed key id : typed (cordon_as key id).
Proof. by split. Qed.

Definition db_after (db : LifecycleDb) (key id : text) : LifecycleDb :=
  match record_lifecycle_operation noon noon (cordon_as key id) db with Ok (db, _) => db | Err _ => db end.
Lemma step_after db key id :
  match record_lifecycle_operation noon noon (cordon_as key id) db with Ok _ => true | Err _ => false end = true -> db_step db (db_after db key id).
Proof.
  unfold db_after. destruct (record_lifecycle_operation _ _ _ db) as [[db' r]|] eqn:E; [|done]. intros _.
  by eapply step_operation; [apply cordon_typed|].
Qed.

Definition once : LifecycleDb := db_after empty_db (txt "k1") (txt "op-1").
Definition twice : LifecycleDb := db_after once (txt "k2") (txt "op-2").

Lemma lifecycle_request_takes_effect_once_witness :
  (exists row', record_lifecycle_operation noon noon (resend (txt "op-9") (cordon_as (txt "k1") (txt "op-1"))) twice
                = Ok (twice, (row', false)) /\ lor_operation_id row' = txt "op-1")
  \/ (exists dbi o, ld_operations dbi !! (host, txt "k1") = Some o /\ oc_phase o = completed).
Proof.
  destruct (record_lifecycle_operation noon noon (cordon_as (txt "k1") (txt "op-1")) empty_db) as [[db1 [row fresh]]|] eqn:E;
    [|discriminate (eq_trans (eq_sym E) ltac:(vm_compute; reflexivity))].
  assert (db1 = once /\ fresh = true /\ lor_operation_id row = txt "op-1") as (Hdb & -> & Hid).
  { assert (match record_lifecycle_operation noon noon (cordon_as (txt "k1") (txt "op-1")) empty_db with
            | Ok (d, (r, f)) => d = once /\ f = true /\ lor_operation_id r = txt "op-1" | Err _ => False end) as H
      by (vm_compute; auto). rewrite E in H. exact H. }
  destruct (lifecycle_request_takes_effect_once 0 1 empty_db db1 twice (cordon_as (txt "k1") (txt "op-1")) row noon noon
              (txt "op-9") noon noon) as [(row' & Hr & Hi & _)|(dbi & o & _ & _ & Ho & _ & Hp)].
  - apply nsteps_O.
  - apply cordon_typed.
  - exact E.
  - rewrite Hdb. apply (nsteps_l _ 0 once twice twice); [|apply nsteps_O].
    apply (step_after once (txt "k2") (txt "op-2")). vm_compute. reflexivity.
  - vm_compute. discriminate.
  - left. exists row'. rewrite Hi, Hid. split; [exact Hr|reflexivity].
  - right. exists dbi, o. split; assumption.
Defined.

Lemma lifecycle_versions_are_serial_witness : version_of host twice = 3.
Proof.
  destruct (record_lifecycle_operation noon noon (cordon_as (txt "k2") (txt "op-2")) once) as [[db' [row fresh]]|] eqn:E;
    [|discriminate (eq_trans (eq_sym E) ltac:(vm_compute; reflexivity))].
  assert (db' = twice /\ fresh = true) as [Hdb ->].
  { assert (match record_lifecycle_operation noon noon (cordon_as (txt "k2") (txt "op-2")) once with
            | Ok (d, (r, f)) => d = twice /\ f = true | Err _ => False end) as H by (vm_compute; auto).
    rewrite E in H. exact H. }
  destruct (lifecycle_versions_are_serial 1 once noon noon (cordon_as (txt "k2") (txt "op-2")) db' row true) as (_ & _ & Hv & _).
  - apply (nsteps_l _ 0 empty_db once once); [|apply nsteps_O].
    apply (step_after empty_db (txt "k1") (txt "op-1")). vm_compute. reflexivity.
  - vm_compute. discriminate.
  - exact E.
  - rewrite <- Hdb. etransitivity; [exact Hv|]. vm_compute. reflexivity.
Defined.

Definition seen : LifecycleDb :=
  match record_lifecycle_observed host (txt "cordoned") 2 once with Ok (db, _) => db | Err _ => once end.
Lemma observe_step db observed v :
  0 <= v <= u64_max -> match record_lifecycle_observed host observed v db with Ok _ => true | Err _ => false end = true ->
  db_step db (match record_lifecycle_observed host observed v db with Ok (db, _) => db | Err _ => db end).
Proof.
  intros Hv. destruct (record_lifecycle_observed _ _ _ db) as [[db' r]|] eqn:E; [|done]. intros _. by eapply step_observed.
Qed.

Lemma completion_is_an_observation_witness : version_of host once = 2.
Proof.
  destruct (ld_operations once !! (host, txt "k1")) as [o|] eqn:Eo;
    [|discriminate (eq_trans (eq_sym Eo) ltac:(vm_compute; reflexivity))].
  destruct (ld_operations seen !! (host, txt "k1")) as [o'|] eqn:Eo';
    [|discriminate (eq_trans (eq_sym Eo') ltac:(vm_compute; reflexivity))].
  assert (oc_phase o = accepted /\ oc_resource_version o = 2) as [Hp Hv].
  { assert (match ld_operations once !! (host, txt "k1") with
            | Some o => oc_phase o = accepted /\ oc_resource_version o = 2 | None => False end) as H by (vm_compute; auto).
    rewrite Eo in H. exact H. }
  assert (oc_phase o' = completed) as Hp'.
  { assert (match ld_operations seen !! (host, txt "k1") with Some o => oc_phase o = completed | None => False end) as H
      by (vm_compute; auto). rewrite Eo' in H. exact H. }
  destruct (completion_is_an_observation 1 once seen (host, txt "k1") o o') as [Hver _].
  - apply (nsteps_l _ 0 empty_db once once); [|apply nsteps_O].
    apply (step_after empty_db (txt "k1") (txt "op-1")). vm_compute. reflexivity.
  - vm_compute. discriminate.
  - apply (observe_step once (txt "cordoned") 2); [unfold u64_max; lia|vm_compute; reflexivity].
  - exact Eo.
  - exact Eo'.
  - exact Hp.
  - rewrite Hp'. vm_compute. discriminate.
  - rewrite <- Hv. exact Hver.
Defined.

(** *** Many overtaken requests *)

Lemma decimal_inj i j : decimal (Z.of_nat i) = decimal (Z.of_nat j) -> i = j.
Proof.
  intros E. destruct (decimal_spec (Z.of_nat i)) as (_ & Vi & _); [lia|]. destruct (decimal_spec (Z.of_nat j)) as (_ & Vj & _); [lia|].
  rewrite E in Vi. lia.
Qed.

(** [i] requests in a row, each with a key of its own. *)
Definition cordon_nth (i : nat) : LifecycleOperationRequest := cordon_as (decimal (Z.of_nat i)) (decimal (Z.of_nat i)).
Fixpoint cordons (i : nat) : LifecycleDb :=
  match i with O => empty_db | S i => db_after (cordons i) (decimal (Z.of_nat i)) (decimal (Z.of_nat i)) end.

Lemma record_succeeds q db :
  ld_operations db !! key_of q = None -> operation_count (lq_instance_slug q) (ld_operations db) < MAX_LIFECYCLE_OPERATIONS_PER_INSTANCE ->
  lq_expected_version q = None -> (forall k o, ld_operations db !! k = Some o -> oc_operation_id o <> lq_operation_id q) ->
  exists db' r v, record_lifecycle_operation noon noon q db = Ok (db', r)
    /\ ld_operations db' = <[key_of q := fresh_cols q v noon]> (ld_operations db).
Proof.
  intros Hnone Hcount Hx Hids. unfold record_lifecycle_operation, lifecycle_operation_query, optional.
  unfold key_of in Hnone. rewrite Hnone. cbn [result_bind]. unfold make_room. rewrite (proj2 (Z.ltb_lt _ _)) by done.
  cbn [result_bind]. rewrite Hx. rewrite decide_False by (intros (k & o & Hk & Heq); by eapply Hids).
  eexists _, _, _. split; [reflexivity|]. unfold fresh_cols. rewrite Hx. reflexivity.
Qed.

Lemma cordons_spec i :
  Z.of_nat i <= MAX_LIFECYCLE_OPERATIONS_PER_INSTANCE ->
  nsteps db_step i empty_db (cordons i) /\ size (ld_operations (cordons i)) = i
  /\ forall k o, ld_operations (cordons i) !! k = Some o ->
      (exists j, (j < i)%nat /\ k = key_of (cordon_nth j) /\ oc_operation_id o = decimal (Z.of_nat j))
      /\ oc_phase o = accepted /\ oc_desired_state o = txt "cordoned".
Proof.
  induction i as [|i IH]; intros Hi; [by split_and!; [apply nsteps_O|..]|].
  destruct IH as (Hs & Hsize & Hops); [lia|].
  destruct (record_succeeds (cordon_nth i) (cordons i)) as (db' & r & v & Hr & Hdb').
  - destruct (ld_operations (cordons i) !! key_of (cordon_nth i)) as [o|] eqn:E; [|done].
    destruct (Hops _ _ E) as ((j & Hj & Hk & _) & _). injection Hk as Hk%decimal_inj. lia.
  - unfold operation_count. eapply Z.le_lt_trans; [apply inj_le, map_size_filter|]. rewrite Hsize. lia.
  - done.
  - intros k o Ho Heq. destruct (Hops _ _ Ho) as ((j & Hj & _ & Hid) & _). rewrite Hid in Heq. apply decimal_inj in Heq. lia.
  - assert (cordons (S i) = db') as ->.
    { cbn [cordons]. unfold db_after. fold (cordon_nth i). by rewrite Hr. }
    assert (ld_operations (cordons i) !! key_of (cordon_nth i) = None) as Hnone.
    { destruct (ld_operations (cordons i) !! key_of (cordon_nth i)) as [o|] eqn:E; [|done].
      destruct (Hops _ _ E) as ((j & Hj & Hk & _) & _). injection Hk as Hk%decimal_inj. lia. }
    split_and!.
    + eapply nsteps_r; [exact Hs|]. by eapply step_operation; [apply cordon_typed|].
    + by rewrite Hdb', map_size_insert_None, Hsize.
    + intros k o. rewrite Hdb', lookup_insert_Some. intros [[<- <-]|[_ Ho]].
      * split; [|done]. exists i. split_and!; [lia|done..].
      * destruct (Hops _ _ Ho) as ((j & ? & ? & ?) & ? & ?). split_and!; [|done..]. exists j. split_and!; [lia|done..].
Qed.

Lemma many_overtaken : exists n db, nsteps db_step n empty_db db
  /\ Z.of_nat n = MAX_LIFECYCLE_OPERATIONS_PER_INSTANCE + 1
  /\ MAX_LIFECYCLE_OPERATIONS_PER_INSTANCE <= Z.of_nat (size (superseded host db))
  /\ ld_operations db !! key_of (cordon_as (txt "new") (txt "op-new")) = None.
Proof.
  assert (exists i, Z.of_nat i = MAX_LIFECYCLE_OPERATIONS_PER_INSTANCE) as (i & Hi).
  { exists (Z.to_nat MAX_LIFECYCLE_OPERATIONS_PER_INSTANCE). by rewrite Z2Nat.id by done. }
  destruct (cordons_spec i) as (Hs & Hsize & Hops); [lia|]. set (db := cordons i) in *. clearbody db.
  unfold MAX_LIFECYCLE_OPERATIONS_PER_INSTANCE in *.
  pose proof (wf_steps 0 i empty_db db ltac:(lia) ltac:(rewrite Hi; vm_compute; discriminate) wf_empty Hs) as Hw. rewrite Z.add_0_l, Hi in Hw.
  destruct (decide (ld_operations db = ∅)) as [He|(k & o & Ho)%map_choose]; [rewrite He, map_size_empty in Hsize; lia|].
  destruct (wf_operations _ _ Hw _ _ Ho) as ((c & Hc & _) & _).
  assert (k.1 = host) as Hk by (by destruct (Hops _ _ Ho) as ((j & _ & -> & _) & _)). rewrite Hk in Hc.
  destruct (wf_instances _ _ Hw _ _ Hc) as [Hv _].
  assert (exists db' row, record_lifecycle_observed host (txt "ready") (ic_resource_version c) db = Ok (db', (row, true)))
    as (db' & row & Hr).
  { unfold record_lifecycle_observed. rewrite (read_instance _ _ _ Hw), Hc. cbn [result_bind fmap option_fmap option_map row_of lir_resource_version].
    rewrite decide_False by (by intros []). by eexists _, _. }
  destruct (observed_cases 4096 _ _ _ _ _ _ _ ltac:(lia) ltac:(vm_compute; discriminate) Hw Hr) as (c' & Hc' & Hcase).
  rewrite Hc in Hc'. injection Hc' as <-. rewrite decide_True in Hcase by done. destruct Hcase as (_ & _ & Hi' & Ho').
  assert (ld_operations db' = ld_operations db) as Hsame.
  { apply map_eq. intros k'. rewrite Ho'. destruct (ld_operations db !! k') as [o'|] eqn:E; [|done]. cbn. unfold resolve.
    destruct (Hops _ _ E) as (_ & _ & Hd). rewrite decide_False; [done|]. rewrite Hd. intros (_ & _ & [=] & _). }
  exists (S i), db'. split_and!.
  - eapply nsteps_r; [exact Hs|]. eapply step_observed; [|exact Hr]. unfold u64_max. lia.
  - lia.
  - unfold superseded. rewrite Hsame, map_filter_id; [lia|]. intros k' o' Hk'.
    destruct (Hops _ _ Hk') as ((j & _ & -> & _) & Hp & _). split_and!; [done|done|]. cbn.
    destruct (wf_operations _ _ Hw _ _ Hk') as ((c' & Hc' & Hle) & _). cbn in Hc'. rewrite Hc in Hc'. injection Hc' as <-.
    unfold version_of. rewrite Hi', lookup_insert_eq. cbn. lia.
  - rewrite Hsame. destruct (ld_operations db !! key_of (cordon_as _ _)) as [o'|] eqn:E; [|done]. exfalso.
    destruct (Hops _ _ E) as ((j & _ & Hkey & _) & _). apply (f_equal snd) in Hkey.
    change (txt "new" = decimal (Z.of_nat j)) in Hkey.
    destruct (decimal_spec (Z.of_nat j)) as (_ & _ & Hdig); [lia|]. rewrite <- Hkey in Hdig. apply Forall_inv in Hdig. discriminate Hdig.
Qed.

Lemma overtaken_requests_exhaust_the_quota_witness :
  exists db, record_lifecycle_operation noon noon (cordon_as (txt "new") (txt "op-new")) db
  = Err {| se_class := CUnavailable; se_reason := "store.lifecycle.operation_quota" |}.
Proof.
  destruct many_overtaken as (n & db & Hs & Hn & Hsize & Hnone). exists db.
  apply (overtaken_requests_exhaust_the_quota n 0 db db (cordon_as (txt "new") (txt "op-new")) noon noon).
  - exact Hs.
  - apply nsteps_O.
  - rewrite Hn. vm_compute. discriminate.
  - exact Hsize.
  - exact Hnone.
Defined.

(** *** The cache of the service *)

(** After a request the service answers reads from an entry it made up for
    the observed state, while the table still holds the observation. *)
Definition host_service : ServiceConfig := {| sv_store := true; sv_store_instance := Some host; sv_instance := Some host |}.
Definition uncordon : MutationRequest := {|
  mr_kind := Uncordon; mr_target := host; mr_reason := txt "done"; mr_idempotency_key := txt "k3";
  mr_expected_version := None; mr_scale_to := None |}.
Example cached_observation_is_made_up :
  let '(s, db, _) := mutate host_service noon noon (txt "op-3") uncordon empty_service seen in
  match get host_service host s db, desired_fresh host_service host s db with
  | Ok cached, Ok (_, stored) => lst_observed cached = txt "ready" /\ lst_observed stored = txt "cordoned"
  | _, _ => False
  end.
Proof. vm_compute. split; reflexivity. Qed.
