(* ===== verification/NodeAdmission.v ===== *)
(** * Node controller: desired state into admission

    The part of [crates/velnor-runner/src/node/controller.rs] that turns the
    desired state of the lifecycle tables ([ControlLifecycle]) into the latches
    of the journal ([JournalReplay]) and records what it observed: the drain
    signal, the drain edge and the reconciliation of admission. One pass is
    one step here; log lines are left out. *)

From Stdlib Require Import ZArith Lia.
From stdpp Require Import base gmap list strings.
From S2P Require Import Prelude Numerals NodeModel JournalData JournalReduce JournalInv JournalSafety JournalStore JournalStoreProofs JournalReplay JournalEvolution JournalRefine.
From S2P Require Import ExprText TextOps ControlLogs ControlLifecycle ControlLifecycleProofs.
#[local] Open Scope Z_scope.

(** What the controller works on: the journal, the lifecycle tables and the
    cache of its lifecycle service. *)
Record NodeState := {
  nd_journal : JournalDb;
  nd_lifecycle : LifecycleDb;
  nd_cache : ServiceState }.
Definition set_journal (j : JournalDb) (w : NodeState) : NodeState :=
  {| nd_journal := j; nd_lifecycle := nd_lifecycle w; nd_cache := nd_cache w |}.
Definition set_lifecycle (l : LifecycleDb) (w : NodeState) : NodeState :=
  {| nd_journal := nd_journal w; nd_lifecycle := l; nd_cache := nd_cache w |}.
Definition set_cache (c : ServiceState) (w : NodeState) : NodeState :=
  {| nd_journal := nd_journal w; nd_lifecycle := nd_lifecycle w; nd_cache := c |}.

(** [ActiveLifecycle::bind]: the configuration of the service and its
    instance, when the slug is canonical. *)
Definition bind_lifecycle (instance : text) : option (ServiceConfig * text) :=
  match with_store_for_instance instance with Ok cfg => Some (cfg, instance) | Err _ => None end.

Inductive AdmissionError :=
| AdmissionState (e : ReplayError)
| AdmissionDesired (e : PortError)
| AdmissionClear (e : ReplayError)
| AdmissionSet (e : ReplayError)
| AdmissionDrain (e : ReplayError)
| AdmissionUnsupported (desired : text).

Definition READY : text := txt "ready".
Definition CORDONED : text := txt "cordoned".
Definition DRAINING : text := txt "draining".

Section Controller.
Context (decode_baseline : string -> option ReplayBaseline) (sha256_hex : string -> string).
Context (h : Handle).
#[local] Open Scope result_scope.

(** [Journal::materialized_state]. *)
Definition materialized_state (db : JournalDb) : result FleetState ReplayError :=
  let? _ := validate_replay_integrity_before_read decode_baseline sha256_hex db in
  lift (load_materialized_state (j_legacy db) (j_tables db)).
Definition journal_marker_latched (db : JournalDb) : bool :=
  match materialized_state db with Ok st => drain_active st | Err _ => false end.

(** The service's read of the desired state, which refreshes its cache. *)
Definition read_desired (lc : ServiceConfig * text) (w : NodeState) : NodeState * result LifecycleState PortError :=
  match desired_fresh lc.1 lc.2 (nd_cache w) (nd_lifecycle w) with
  | Ok (cache, fresh) => (set_cache cache w, Ok fresh)
  | Err e => (w, Err e)
  end.

Definition should_drain (latch : bool) (lc : option (ServiceConfig * text)) (w : NodeState) : NodeState * bool :=
  if latch then (w, true)
  else if journal_marker_latched (nd_journal w) then (w, true)
  else match lc with
       | None => (w, false)
       | Some lc =>
           let '(w, fresh) := read_desired lc w in
           (w, match fresh with Ok fresh => bool_decide (lst_desired fresh = DRAINING) | Err _ => false end)
       end.

Definition lifecycle_observation_needed (instance : text) (fresh : LifecycleState) (db : LifecycleDb) : bool :=
  if decide (lst_observed fresh = lst_desired fresh)
  then lifecycle_operation_pending instance (lst_desired fresh) (lst_version fresh) db
  else true.
(** An observation whose failure is only logged. *)
Definition observe_if (needed : bool) (instance observed : text) (version : Z) (w : NodeState) : NodeState :=
  if needed then
    match record_lifecycle_observed instance observed version (nd_lifecycle w) with
    | Ok (db, _) => set_lifecycle db w
    | Err _ => w
    end
  else w.

Definition drain_edge (lc : option (ServiceConfig * text)) (w : NodeState) : NodeState :=
  let journal_active := journal_marker_latched (nd_journal w) in
  let '(w, fresh) :=
    match lc with
    | Some lc => let '(w, fresh) := read_desired lc w in
                 (w, match fresh with Ok fresh => Some (lc.2, fresh) | Err _ => None end)
    | None => (w, None)
    end in
  let w :=
    if journal_active then w
    else
      let version := match fresh with Some (_, fresh) => lst_version fresh | None => 1 end in
      match set_drain decode_baseline sha256_hex h version (nd_journal w) with
      | Ok (journal, _) => set_journal journal w
      | Err _ => w
      end in
  match fresh with
  | None => w
  | Some (instance, fresh) =>
      let needed :=
        if decide (lst_observed fresh = DRAINING) then lifecycle_observation_needed instance fresh (nd_lifecycle w)
        else true in
      observe_if needed instance DRAINING (lst_version fresh) w
  end.

Definition reconcile_lifecycle_admission (lc : option (ServiceConfig * text)) (w : NodeState)
    : NodeState * result unit AdmissionError :=
  match lc with
  | None => (w, Ok tt)
  | Some lc =>
      match materialized_state (nd_journal w) with
      | Err e => (w, Err (AdmissionState e))
      | Ok state =>
          let '(w, fresh) := read_desired lc w in
          match fresh with
          | Err e => (w, Err (AdmissionDesired e))
          | Ok fresh =>
              let needed := lifecycle_observation_needed lc.2 fresh (nd_lifecycle w) in
              if decide (lst_desired fresh = READY) then
                match clear_admission_blocked_if decode_baseline sha256_hex h
                        (if admission_blocked state then Some (admission_version state) else None) (nd_journal w) with
                | Err e => (w, Err (AdmissionClear e))
                | Ok (journal, _) => (observe_if needed lc.2 READY (lst_version fresh) (set_journal journal w), Ok tt)
                end
              else if decide (lst_desired fresh = CORDONED) then
                match set_admission_blocked decode_baseline sha256_hex h (lst_version fresh) (nd_journal w) with
                | Err e => (w, Err (AdmissionSet e))
                | Ok (journal, _) => (observe_if needed lc.2 CORDONED (lst_version fresh) (set_journal journal w), Ok tt)
                end
              else if decide (lst_desired fresh = DRAINING) then
                if drain_active state then (w, Ok tt)
                else
                  match set_drain decode_baseline sha256_hex h (lst_version fresh) (nd_journal w) with
                  | Err e => (w, Err (AdmissionDrain e))
                  | Ok (journal, _) => (set_journal journal w, Ok tt)
                  end
              else (w, Err (AdmissionUnsupported (lst_desired fresh)))
          end
      end
  end.
End Controller.

(** ** Proofs *)

Lemma load_latches legacy t ms :
  load_materialized_state legacy t = Ok ms ->
  meta_marker parse_drain_value (t_meta t) "drain" = Ok (drain_active ms, drain_version ms)
  /\ meta_marker parse_admission_value (t_meta t) "admission" = Ok (admission_blocked ms, admission_version ms).
Proof.
  unfold load_materialized_state. intros H.
  repeat match type of H with
  | (let? _ := meta_marker parse_drain_value _ _ in _)%result = _ =>
      destruct (meta_marker parse_drain_value _ _) as [[? ?]|]; cbn [result_bind] in H; [|done]
  | (let? _ := meta_marker parse_admission_value _ _ in _)%result = _ =>
      destruct (meta_marker parse_admission_value _ _) as [[? ?]|]; cbn [result_bind] in H; [|done]
  | (let? _ := ?r in _)%result = _ => destruct r; cbn [result_bind] in H; [|done]
  end.
  by injection H as <-.
Qed.

Definition admission_key : string := "admission".
(** The admission latch as the journal writes it. *)
Definition canonical_latch (t : JournalTables) : Prop :=
  forall s, t_meta t !! admission_key = Some s -> exists v, is_u64 v /\ s = ("blocked:" ++ to_string v)%string.

Lemma parse_blocked v : is_u64 v -> parse_admission_value ("blocked:" ++ to_string v)%string = Some v.
Proof. intros V. unfold parse_admission_value. by rewrite strip_prefix_app, parse_to_string. Qed.
Lemma parse_requested v : is_u64 v -> parse_drain_value ("requested:" ++ to_string v)%string = Some v.
Proof. intros V. unfold parse_drain_value. by rewrite strip_prefix_app, parse_to_string. Qed.

Lemma set_admission_latches v t b :
  is_u64 v -> (set_admission_blocked_tx v t).2 = Ok b ->
  exists e, meta_marker parse_admission_value (t_meta (set_admission_blocked_tx v t).1) "admission" = Ok (true, e).
Proof.
  intros V. unfold set_admission_blocked_tx.
  set (eff := match t_meta t !! "admission" with Some _ => _ | None => _ end).
  assert (E : forall e, eff = Some e -> is_u64 e).
  { subst eff. intros e. destruct (t_meta t !! "admission") as [s|]; [|by intros [= <-]].
    destruct (parse_admission_value s) eqn:P; [|done]. apply parse_admission_range in P.
    intros [= <-]. unfold is_u64 in *. lia. }
  destruct eff as [e|]; [|done]. specialize (E e eq_refl). intros _. exists e. unfold meta_marker.
  case_decide as D; cbn [fst set_meta t_meta]; [rewrite D|rewrite lookup_insert_eq]; by rewrite parse_blocked.
Qed.
Lemma set_drain_latches v t :
  is_u64 v -> exists e, meta_marker parse_drain_value (t_meta (set_drain_tx v t).1) "drain" = Ok (true, e).
Proof.
  intros V. unfold set_drain_tx. set (eff := match t_meta t !! "drain" with Some _ => _ | None => _ end).
  assert (E : is_u64 eff).
  { subst eff. destruct (t_meta t !! "drain") as [s|]; [|done]. destruct (parse_drain_value s) eqn:P; [|done].
    apply parse_drain_range in P. unfold is_u64 in *. lia. }
  exists eff. unfold meta_marker.
  case_decide as D; cbn [fst set_meta t_meta]; [rewrite D|rewrite lookup_insert_eq]; by rewrite parse_requested.
Qed.
Lemma clear_admission_unlatches v t :
  canonical_latch t -> meta_marker parse_admission_value (t_meta t) "admission" = Ok (true, v) ->
  meta_marker parse_admission_value (t_meta (clear_admission_blocked_if_tx (Some v) t).1) "admission" = Ok (false, 0).
Proof.
  intros Hc Hm. unfold clear_admission_blocked_if_tx. unfold meta_marker in Hm |- *.
  destruct (t_meta t !! "admission") as [s|] eqn:E; [|done].
  destruct (Hc s E) as (u & V & ->). rewrite parse_blocked in Hm by done. injection Hm as <-.
  rewrite decide_True by done. cbn [fst delete_meta t_meta]. by rewrite lookup_delete_eq.
Qed.

Section Proofs.
Context (decode_baseline : string -> option ReplayBaseline) (sha256_hex : string -> string).
Context (h : Handle).
Context `{Clock, !ClockLaws}.

#[local] Abbreviation set_admission := (set_admission_blocked decode_baseline sha256_hex h).
#[local] Abbreviation clear_admission := (clear_admission_blocked_if decode_baseline sha256_hex h).
#[local] Abbreviation latch_drain := (set_drain decode_baseline sha256_hex h).

(** What the tables of a journal hold after a latch write. *)
Lemma latched_state db tables ms :
  load_materialized_state (j_legacy db) (j_tables db) = Ok ms -> marker_write (j_tables db) tables ->
  exists ms', load_materialized_state (j_legacy (set_log (j_events db) tables db)) (j_tables (set_log (j_events db) tables db)) = Ok ms'
    /\ meta_marker parse_drain_value (t_meta tables) "drain" = Ok (drain_active ms', drain_version ms')
    /\ meta_marker parse_admission_value (t_meta tables) "admission" = Ok (admission_blocked ms', admission_version ms').
Proof.
  intros Hl Hm. destruct (load_marker_write _ _ _ _ Hm Hl) as (da & dv & ab & av & Hl').
  eexists. split; [exact Hl'|]. by apply load_latches in Hl'.
Qed.

Lemma set_admission_blocks v db db' b ms :
  is_u64 v -> set_admission v db = Ok (db', b) -> load_materialized_state (j_legacy db) (j_tables db) = Ok ms ->
  exists ms', load_materialized_state (j_legacy db') (j_tables db') = Ok ms' /\ admission_blocked ms' = true.
Proof.
  intros V Hs Hl. unfold set_admission_blocked in Hs. apply latch_authority in Hs as [_ Hs].
  pose proof (set_admission_marker v (j_tables db) V) as Hm.
  pose proof (set_admission_latches v (j_tables db)) as Ht.
  destruct (set_admission_blocked_tx v (j_tables db)) as [t [c|]]; [|done]. injection Hs as <- <-. cbn [fst] in Hm.
  destruct (latched_state _ _ _ Hl Hm) as (ms' & Hl' & _ & Ha). exists ms'. split; [exact Hl'|].
  destruct (Ht c V eq_refl) as [e He]. cbn [fst] in He. rewrite He in Ha. by injection Ha.
Qed.
Lemma set_drain_drains v db db' b ms :
  is_u64 v -> latch_drain v db = Ok (db', b) -> load_materialized_state (j_legacy db) (j_tables db) = Ok ms ->
  exists ms', load_materialized_state (j_legacy db') (j_tables db') = Ok ms' /\ drain_active ms' = true.
Proof.
  intros V Hs Hl. unfold set_drain in Hs. apply latch_authority in Hs as [_ Hs].
  pose proof (set_drain_marker v (j_tables db) V) as Hm. destruct (set_drain_latches v (j_tables db) V) as [e He].
  destruct (set_drain_tx v (j_tables db)) as [t c]. injection Hs as <- <-. cbn [fst] in Hm.
  destruct (latched_state _ _ _ Hl Hm) as (ms' & Hl' & Hd & _). exists ms'. split; [exact Hl'|].
  cbn [fst] in He. rewrite He in Hd. by injection Hd.
Qed.
Lemma clear_admission_opens db db' b ms :
  canonical_latch (j_tables db) -> load_materialized_state (j_legacy db) (j_tables db) = Ok ms ->
  clear_admission (if admission_blocked ms then Some (admission_version ms) else None) db = Ok (db', b) ->
  exists ms', load_materialized_state (j_legacy db') (j_tables db') = Ok ms' /\ admission_blocked ms' = false.
Proof.
  intros Hc Hl Hs. destruct (load_latches _ _ _ Hl) as [_ Ha]. destruct (admission_blocked ms) eqn:Eb.
  - unfold clear_admission_blocked_if in Hs. apply latch_authority in Hs as [_ Hs].
    pose proof (clear_admission_marker (admission_version ms) (j_tables db)) as Hm.
    pose proof (clear_admission_unlatches _ _ Hc Ha) as Hu.
    destruct (clear_admission_blocked_if_tx _ (j_tables db)) as [t c]. injection Hs as <- <-. cbn [fst] in Hm.
    destruct (latched_state _ _ _ Hl Hm) as (ms' & Hl' & _ & Ha'). exists ms'. split; [exact Hl'|].
    cbn [fst] in Hu. rewrite Hu in Ha'. by injection Ha'.
  - unfold clear_admission_blocked_if in Hs. destruct (require_controller_authority h db); [|done].
    injection Hs as <- <-. eauto.
Qed.

(** The desired state as the controller reads it. *)
Lemma read_desired_bound instance cfg w n :
  bind_lifecycle instance = Some (cfg, instance) -> wf n (nd_lifecycle w) ->
  let '(w', r) := read_desired (cfg, instance) w in
  nd_journal w' = nd_journal w /\ nd_lifecycle w' = nd_lifecycle w
  /\ match ld_instances (nd_lifecycle w) !! instance with
     | Some c => r = Ok (projection instance (row_of instance c))
     | None => exists e, r = Err e
     end.
Proof.
  intros Hb Hw. unfold bind_lifecycle, with_store_for_instance, with_store_and_api_instance, validate_configured_instance in Hb.
  destruct (is_slug instance) eqn:Es; [|done]. cbn in Hb. injection Hb as <-.
  unfold read_desired, desired_fresh, check_target, validate_target. cbn [fst snd]. rewrite Es. cbn [result_bind sv_instance sv_store].
  rewrite decide_True by done. cbn [result_bind]. unfold read_store. cbn [sv_store_instance default].
  unfold default. change (id instance) with instance. rewrite (read_instance n) by done.
  destruct (ld_instances (nd_lifecycle w) !! instance) as [c|]; [done|]. split_and!; [done..|by eexists].
Qed.

(** An observation at the version that was read resolves what waits for it. *)
Lemma observe_if_resolves n w instance c desired :
  0 <= n -> n + 2 <= i64_max -> wf n (nd_lifecycle w) -> ld_instances (nd_lifecycle w) !! instance = Some c ->
  ic_desired_state c = desired ->
  let w' := observe_if (lifecycle_observation_needed instance (projection instance (row_of instance c)) (nd_lifecycle w))
              instance desired (ic_resource_version c) w in
  nd_journal w' = nd_journal w
  /\ lifecycle_operation_pending instance desired (ic_resource_version c) (nd_lifecycle w') = false.
Proof.
  intros Hn Hb Hw Hc Hd. destruct (wf_instances _ _ Hw _ _ Hc) as [Hv _]. unfold observe_if.
  destruct (lifecycle_observation_needed _ _ _) eqn:En.
  - destruct (record_lifecycle_observed instance desired (ic_resource_version c) (nd_lifecycle w)) as [[db' [row fresh]]|] eqn:Er.
    + split; [done|]. destruct (observed_cases _ _ _ _ _ _ _ _ Hn Hb Hw Er) as (c' & Hc' & Hcase).
      rewrite Hc in Hc'. injection Hc' as <-. rewrite decide_True in Hcase by done. destruct Hcase as (_ & _ & _ & Hops).
      unfold lifecycle_operation_pending. apply negb_false_iff, bool_decide_eq_true, map_empty.
      intros k. apply map_lookup_filter_None. right. intros o' Ho'. cbn [nd_lifecycle set_lifecycle] in Ho'. rewrite Hops in Ho'.
      destruct (ld_operations (nd_lifecycle w) !! k) as [o|] eqn:Eo; [|done]. injection Ho' as <-. cbn [fst snd].
      destruct (wf_operations _ _ Hw _ _ Eo) as (_ & Hp & _). rewrite i64_wrap_small by lia. unfold resolve.
      case_decide as Hres; [intros (_ & _ & _ & [=])|]. rewrite (proj1 (phases _ Hp)), bool_decide_eq_true. tauto.
    + exfalso. unfold record_lifecycle_observed in Er. rewrite (read_instance n), Hc in Er by done.
      cbn [result_bind fmap option_fmap option_map row_of lir_resource_version] in Er. case_decide; done.
  - split; [done|]. unfold lifecycle_observation_needed in En. cbn in En. rewrite Hd in En.
    case_decide; [exact En|done].
Qed.

(** ** Theorems *)

(** C19: a pass that succeeds leaves the journal as the desired state asks: a
    cordoned or draining instance is fenced, so that it takes no work and
    advertises no capacity, a ready one is not cordoned any more; any other
    desired state fails the pass and leaves the journal alone. A request for
    ready or cordoned that waited for this observation is resolved by the same
    pass. *)
Theorem admission_follows_desired_state n instance cfg w w' r ms :
  bind_lifecycle instance = Some (cfg, instance) ->
  nsteps db_step n empty_db (nd_lifecycle w) -> Z.of_nat n + 2 <= i64_max ->
  canonical_latch (j_tables (nd_journal w)) ->
  load_materialized_state (j_legacy (nd_journal w)) (j_tables (nd_journal w)) = Ok ms ->
  reconcile_lifecycle_admission decode_baseline sha256_hex h (Some (cfg, instance)) w = (w', r) ->
  match r with
  | Ok _ => exists c ms', ld_instances (nd_lifecycle w) !! instance = Some c
      /\ load_materialized_state (j_legacy (nd_journal w')) (j_tables (nd_journal w')) = Ok ms'
      /\ ((ic_desired_state c = READY /\ admission_blocked ms' = false
            /\ lifecycle_operation_pending instance READY (ic_resource_version c) (nd_lifecycle w') = false)
          \/ (ic_desired_state c = CORDONED /\ admission_blocked ms' = true /\ advertised_capacity ms' = 0
              /\ lifecycle_operation_pending instance CORDONED (ic_resource_version c) (nd_lifecycle w') = false)
          \/ (ic_desired_state c = DRAINING /\ drain_active ms' = true /\ advertised_capacity ms' = 0))
  | Err _ => nd_journal w' = nd_journal w /\ nd_lifecycle w' = nd_lifecycle w
  end.
Proof.
  intros Hbind Hs Hb Hcan Hl Hr.
  pose proof (wf_steps 0 n empty_db _ ltac:(lia) ltac:(lia) wf_empty Hs) as Hw. rewrite Z.add_0_l in Hw.
  pose proof (read_desired_bound _ _ w _ Hbind Hw) as Hread.
  unfold reconcile_lifecycle_admission in Hr.
  destruct (materialized_state _ _ (nd_journal w)) as [state|e] eqn:Em; [|by injection Hr as <- <-].
  assert (state = ms) as ->.
  { unfold materialized_state in Em. destruct (validate_replay_integrity_before_read _ _ _); [|done].
    cbn [result_bind] in Em. rewrite Hl in Em. by injection Em. }
  destruct (read_desired (cfg, instance) w) as [w1 fresh]. destruct Hread as (Hj & Hlc & Hf).
  destruct (ld_instances (nd_lifecycle w) !! instance) as [c|] eqn:Ec.
  2: { destruct Hf as [e ->]. by injection Hr as <- <-. }
  subst fresh. cbn [snd projection row_of lst_desired lst_version lir_desired_state lir_resource_version] in Hr.
  destruct (wf_instances _ _ Hw _ _ Ec) as [Hv _].
  assert (is_u64 (ic_resource_version c)) as Hu by (unfold is_u64, i64_max, u64_max in *; lia).
  rewrite <- Hlc in Hw, Ec. rewrite Hj in Hr.
  assert (forall j desired, ic_desired_state c = desired ->
    let w2 := observe_if (lifecycle_observation_needed instance (projection instance (row_of instance c)) (nd_lifecycle w1))
                instance desired (ic_resource_version c) (set_journal j w1) in
    nd_journal w2 = j /\ lifecycle_operation_pending instance desired (ic_resource_version c) (nd_lifecycle w2) = false) as Hobs.
  { intros j desired Hd. apply (observe_if_resolves (Z.of_nat n) (set_journal j w1)); [lia|lia|done..]. }
  destruct (decide (ic_desired_state c = READY)) as [E|_].
  { destruct (clear_admission_blocked_if _ _ _ _ _) as [[j b]|] eqn:Ej; [|by injection Hr as <- <-].
    injection Hr as <- <-. destruct (clear_admission_opens _ _ _ _ Hcan Hl Ej) as (ms' & Hl' & Ha).
    destruct (Hobs j READY E) as [Hj' Hp]. exists c, ms'. rewrite Hj'. split_and!; [done..|left; done]. }
  destruct (decide (ic_desired_state c = CORDONED)) as [E|_].
  { destruct (set_admission_blocked _ _ _ _ _) as [[j b]|] eqn:Ej; [|by injection Hr as <- <-].
    injection Hr as <- <-. destruct (set_admission_blocks _ _ _ _ _ Hu Ej Hl) as (ms' & Hl' & Ha).
    destruct (Hobs j CORDONED E) as [Hj' Hp]. exists c, ms'. rewrite Hj'. split_and!; [done..|right; left].
    split_and!; [done..| |done]. apply blocked_advertises_nothing. unfold fleet_admission_blocked. by rewrite Ha. }
  destruct (decide (ic_desired_state c = DRAINING)) as [E|_]; [|by injection Hr as <- <-].
  destruct (drain_active ms) eqn:Ed.
  { injection Hr as <- <-. exists c, ms. rewrite Hj. split_and!; [done..|right; right].
    split_and!; [done..|]. apply blocked_advertises_nothing. unfold fleet_admission_blocked. by rewrite Ed, orb_true_r. }
  destruct (set_drain _ _ _ _ _) as [[j b]|] eqn:Ej; [|by injection Hr as <- <-].
  injection Hr as <- <-. destruct (set_drain_drains _ _ _ _ _ Hu Ej Hl) as (ms' & Hl' & Ha).
  exists c, ms'. split_and!; [done..|right; right]. split_and!; [done..|].
  apply blocked_advertises_nothing. unfold fleet_admission_blocked. by rewrite Ha, orb_true_r.
Qed.
End Proofs.

(** A ready node whose instance was just cordoned. *)
#[local] Existing Instance text_clock.
#[local] Existing Instance text_clock_laws.
Definition unbound : Handle := {| h_service_instance := None; h_worker_launch := None |}.
Definition cordoned_node : NodeState :=
  {| nd_journal := ready_db; nd_lifecycle := once; nd_cache := empty_service |}.
Definition host_config : ServiceConfig :=
  {| sv_store := true; sv_store_instance := Some host; sv_instance := Some host |}.
Definition reconciled_node : NodeState * result unit AdmissionError :=
  reconcile_lifecycle_admission Coding.decode_baseline Coding.sha256_hex unbound (Some (host_config, host)) cordoned_node.

Lemma admission_follows_desired_state_witness :
  exists ms', load_materialized_state (j_legacy (nd_journal reconciled_node.1)) (j_tables (nd_journal reconciled_node.1)) = Ok ms'
    /\ advertised_capacity ms' = 0.
Proof.
  destruct (load_materialized_state (j_legacy ready_db) (j_tables ready_db)) as [ms|] eqn:Hl;
    [|discriminate (eq_trans (eq_sym Hl) ltac:(vm_compute; reflexivity))].
  pose proof (admission_follows_desired_state Coding.decode_baseline Coding.sha256_hex unbound 1 host host_config cordoned_node
    reconciled_node.1 reconciled_node.2 ms) as H.
  assert (reconciled_node.2 = Ok tt) as Hok by (vm_compute; reflexivity).
  rewrite Hok in H.
  destruct H as (c & ms' & Hc & Hl' & Hcase).
  - vm_compute. reflexivity.
  - apply (nsteps_l _ 0 empty_db once once); [|apply nsteps_O].
    apply (step_after empty_db (txt "k1") (txt "op-1")). vm_compute. reflexivity.
  - vm_compute. discriminate.
  - intros s Hs. discriminate (eq_trans (eq_sym Hs) ltac:(vm_compute; reflexivity)).
  - exact Hl.
  - rewrite <- Hok. apply surjective_pairing.
  - exists ms'. split; [exact Hl'|].
    destruct Hcase as [(Hr & _)|[(_ & _ & Ha & _)|(_ & _ & Ha)]]; [|exact Ha|exact Ha].
    exfalso. assert (ic_desired_state <$> ld_instances once !! host = Some CORDONED) as Hd by (vm_compute; reflexivity).
    change (nd_lifecycle cordoned_node) with once in Hc. rewrite Hc in Hd. cbn in Hd. rewrite Hr in Hd. discriminate Hd.
Defined.
