(* ===== verification/PressureData.v ===== *)
(** * Disk pressure: rows, handles and launch leases

    The checked reads behind the pressure operations of
    [crates/velnor-control/src/journal.rs]: validation of keys and columns,
    the service instance a journal is bound to, what a handle may do, and the
    test whether the launch lease of a worker is still current. The tables are
    those of [JournalDb]; a column the code checks when it reads it
    ([disk_pressure_u64], [disk_pressure_bool]) is the integer that is stored. *)

From S2P Require Import Prelude Numerals NodeModel JournalData JournalReduce JournalInv JournalStore JournalReplay.
From Stdlib Require Import String.
From stdpp Require Import base gmap list strings sorting.
#[local] Open Scope Z_scope.
#[local] Open Scope result_scope.

(** ** Episodes, samples, observations *)

Record DiskPressureEpisode := {
  ep_episode_id : string;
  ep_started_unix : Z;
  ep_deadline_unix : Z;
  ep_drain_deadline_unix : Z;
  ep_draining : bool;
  ep_last_observed_unix : Z;
  ep_reclaim_attempted : bool;
  ep_revision : Z;
  ep_terminal : bool;
  ep_volume_fingerprint : option string;
}.

Record DiskPressureObservation := {
  po_episode : option DiskPressureEpisode;
  po_cleared : bool;
  po_reclaim_needed : bool;
}.

Record DiskPressureFilesystemSample := {
  fs_filesystem_id : string;
  fs_alias_ids : list string;
  fs_available_bytes : option Z;
  fs_min_free_bytes : Z;
  fs_volume_fingerprint : option string;
}.

#[export] Instance WorkerLaunchFence_eq_dec : EqDecision WorkerLaunchFence.
Proof. solve_decision. Defined.

(** ** Columns and keys *)

Definition validate_disk_pressure_key (value : string) : result unit ReplayError :=
  if is_blank value || (512 <? Z.of_nat (String.length value)) then Err PressureStateInvalid else Ok tt.

Fixpoint validate_disk_pressure_keys (values : list string) : result unit ReplayError :=
  match values with
  | [] => Ok tt
  | value :: values => let? _ := validate_disk_pressure_key value in validate_disk_pressure_keys values
  end.

Definition disk_pressure_sql_integer (value : Z) : result Z ReplayError :=
  if value <=? i64_max then Ok value else Err PressureStateInvalid.
Definition disk_pressure_u64 (value : Z) : result Z ReplayError :=
  if 0 <=? value then Ok value else Err PressureStateInvalid.
Definition disk_pressure_bool (value : Z) : result bool ReplayError :=
  if value =? 0 then Ok false else if value =? 1 then Ok true else Err PressureStateInvalid.

(** [u64::checked_add], an overflow being an invalid state. *)
Definition pressure_add (a b : Z) : result Z ReplayError :=
  if a + b <=? u64_max then Ok (a + b) else Err PressureStateInvalid.

(** [i64 as u64]. *)
Definition i64_as_u64 (value : Z) : Z := value mod 2 ^ 64.

(** ** Assignments *)

Definition set_episodes (e : gmap (string * string) EpisodeRow) (db : JournalDb) : JournalDb :=
  {| j_user_version := j_user_version db; j_fence_exact := j_fence_exact db; j_legacy := j_legacy db;
     j_identity := j_identity db; j_episodes := e; j_launches := j_launches db;
     j_observations := j_observations db; j_events := j_events db; j_tables := j_tables db |}.
Definition set_observations (o : gmap (string * string) ObservationRow) (db : JournalDb) : JournalDb :=
  {| j_user_version := j_user_version db; j_fence_exact := j_fence_exact db; j_legacy := j_legacy db;
     j_identity := j_identity db; j_episodes := j_episodes db; j_launches := j_launches db;
     j_observations := o; j_events := j_events db; j_tables := j_tables db |}.
Definition set_identity (si : string) (db : JournalDb) : JournalDb :=
  {| j_user_version := j_user_version db; j_fence_exact := j_fence_exact db; j_legacy := j_legacy db;
     j_identity := Some si; j_episodes := j_episodes db; j_launches := j_launches db;
     j_observations := j_observations db; j_events := j_events db; j_tables := j_tables db |}.

(** [load_disk_pressure_episode]: the row, its columns checked. *)
Definition load_episode_row (r : EpisodeRow) : result DiskPressureEpisode ReplayError :=
  let? started := disk_pressure_u64 (e_started_unix r) in
  let? deadline := disk_pressure_u64 (e_deadline_unix r) in
  let? drain_deadline := disk_pressure_u64 (e_drain_deadline_unix r) in
  let? draining := disk_pressure_bool (e_draining r) in
  let? last_observed := disk_pressure_u64 (e_last_observed_unix r) in
  let? reclaim_attempted := disk_pressure_bool (e_reclaim_attempted r) in
  let? revision := disk_pressure_u64 (e_revision r) in
  let? terminal := disk_pressure_bool (e_terminal r) in
  Ok {| ep_episode_id := e_episode_id r; ep_started_unix := started; ep_deadline_unix := deadline;
        ep_drain_deadline_unix := drain_deadline; ep_draining := draining;
        ep_last_observed_unix := last_observed; ep_reclaim_attempted := reclaim_attempted;
        ep_revision := revision; ep_terminal := terminal;
        ep_volume_fingerprint := e_volume_fingerprint r |}.

Definition load_disk_pressure_episode (db : JournalDb) (si filesystem_id : string)
    : result (option DiskPressureEpisode) ReplayError :=
  match j_episodes db !! (si, filesystem_id) with
  | None => Ok None
  | Some r => let? episode := load_episode_row r in Ok (Some episode)
  end.

(** The columns an episode is written as. *)
Definition episode_row (ep : DiskPressureEpisode) : result EpisodeRow ReplayError :=
  let? started := disk_pressure_sql_integer (ep_started_unix ep) in
  let? deadline := disk_pressure_sql_integer (ep_deadline_unix ep) in
  let? drain_deadline := disk_pressure_sql_integer (ep_drain_deadline_unix ep) in
  let? last_observed := disk_pressure_sql_integer (ep_last_observed_unix ep) in
  let? revision := disk_pressure_sql_integer (ep_revision ep) in
  Ok {| e_volume_fingerprint := ep_volume_fingerprint ep; e_episode_id := ep_episode_id ep;
        e_started_unix := started; e_deadline_unix := deadline; e_drain_deadline_unix := drain_deadline;
        e_last_observed_unix := last_observed; e_reclaim_attempted := i64_of_bool (ep_reclaim_attempted ep);
        e_revision := revision; e_draining := i64_of_bool (ep_draining ep);
        e_terminal := i64_of_bool (ep_terminal ep) |}.

(** The stages of a list of rows, or-ed together. *)
Fixpoint stages (rows : list EpisodeRow) (draining terminal : bool) : result (bool * bool) ReplayError :=
  match rows with
  | [] => Ok (draining, terminal)
  | r :: rows =>
      let? row_draining := disk_pressure_bool (e_draining r) in
      let? row_terminal := disk_pressure_bool (e_terminal r) in
      stages rows (draining || row_draining) (terminal || row_terminal)
  end.
Definition episodes_of (si : string) (db : JournalDb) : list EpisodeRow :=
  (map_to_list (filter (fun kr => kr.1.1 = si) (j_episodes db))).*2.
Definition pressure_episode_stages (si : string) (db : JournalDb) : result (bool * bool) ReplayError :=
  stages (episodes_of si db) false false.

(** [SELECT EXISTS(SELECT 1 FROM disk_pressure_episodes WHERE service_instance = ?1 AND terminal = 1)]. *)
Definition terminal_episode (si : string) (db : JournalDb) : bool :=
  exists_row (fun k r => bool_decide (k.1 = si) && (e_terminal r =? 1)) (j_episodes db).

Definition pressure_state_slots_are_safe (st : FleetState) : bool :=
  negb (capacity_invalid st)
  && forallb (fun s => bool_decide (s_phase s = Fenced)) (slots st)
  && forallb (fun j => negb (occupies_slot (j_phase j))) (jobs st).

(** ** The service instance of a journal *)

Definition foreign_row {V} (si : string) (m : gmap (string * string) V) : bool :=
  exists_row (fun k _ => bool_decide (k.1 <> si)) m.

Definition validate_journal_service_instance (si : string) (db : JournalDb) : result unit ReplayError :=
  if match j_identity db with Some stored => bool_decide (stored <> si) | None => false end
  then Err ServiceInstanceMismatch
  else if foreign_row si (j_episodes db) || foreign_row si (j_launches db)
          || foreign_row si (j_observations db)
  then Err ServiceInstanceMismatch
  else Ok tt.

(** The [meta] keys an unowned journal may hold. *)
Definition overlay_key (key : string) : bool :=
  bool_decide (key ∈ [REPLAY_BASELINE_KEY; REPLAY_BASELINE_CHECKSUM_KEY; "drain"; "admission"]).

Definition no_rows (db : JournalDb) : bool :=
  bool_decide (j_events db = []) && bool_decide (t_slots (j_tables db) = [])
  && bool_decide (t_jobs (j_tables db) = []) && bool_decide (t_outbox (j_tables db) = [])
  && negb (exists_row (fun _ _ => true) (j_episodes db)) && negb (exists_row (fun _ _ => true) (j_launches db))
  && negb (exists_row (fun _ _ => true) (j_observations db)).

Section Bound.
Context (decode_baseline : string -> option ReplayBaseline) (sha256_hex : string -> string).

Definition journal_is_provably_new_and_empty (db : JournalDb) : result bool ReplayError :=
  match t_meta (j_tables db) !! REPLAY_BASELINE_KEY with
  | None => Ok false
  | Some serialized =>
      match decode_baseline serialized with
      | None => Err BaselineInvalid
      | Some baseline =>
          if bool_decide (into_fleet (b_state baseline) <> empty_fleet) then Ok false
          else if negb (no_rows db) then Ok false
          else Ok (negb (exists_row (fun key _ => negb (overlay_key key)) (t_meta (j_tables db))))
      end
  end.

Definition bind_journal_service_instance (si : string) (db : JournalDb) : result JournalDb ReplayError :=
  let? _ := validate_journal_service_instance si db in
  match j_identity db with
  | Some _ => Ok db
  | None =>
      let? empty := journal_is_provably_new_and_empty db in
      if negb empty then Err ServiceInstanceMismatch else Ok (set_identity si db)
  end.

(** How every pressure write begins: the replay anchor, the gate and the owner
    are checked and the journal is bound to the service. *)
Definition begin_pressure_write (h : Handle) (si : string) (db : JournalDb) : result JournalDb ReplayError :=
  let? _ := validate_replay_baseline_before_write decode_baseline sha256_hex db in
  let? _ := begin_write (writer_context h) db in
  bind_journal_service_instance si db.
End Bound.

(** ** What a handle may do *)

Definition validate_worker_context (h : Handle) (si : string) (slot_id : SlotId) (generation : Generation)
    (nonce : string) : result unit ReplayError :=
  match h_worker_launch h with
  | Some fence =>
      if bool_decide (wl_service_instance fence <> si) || bool_decide (wl_slot_id fence <> slot_id)
      then Err LaunchFenced
      else
        let? generation := disk_pressure_sql_integer generation in
        if negb (wl_generation fence =? generation) || bool_decide (wl_launch_nonce fence <> nonce)
        then Err LaunchFenced else Ok tt
  | None =>
      if bool_decide (h_service_instance h = Some si) then Ok tt else Err ServiceInstanceMismatch
  end.

Definition validate_acquisition_handle (h : Handle) (si : string) (slot_id : SlotId)
    (generation : Generation) (nonce : string) : result unit ReplayError :=
  match h_worker_launch h with
  | Some _ => validate_worker_context h si slot_id generation nonce
  | None => if bool_decide (h_service_instance h = Some si) then Ok tt else Err ServiceInstanceMismatch
  end.

Definition validate_pressure_service_instance (h : Handle) (si : string) (db : JournalDb)
    : result unit ReplayError :=
  let? _ := validate_disk_pressure_key si in
  if bool_decide (writer_context h <> Some si) then Err ServiceInstanceMismatch
  else validate_journal_service_instance si db.

(** ** Launch leases *)

Definition load_state_of (db : JournalDb) : result FleetState ReplayError :=
  lift (load_materialized_state (j_legacy db) (j_tables db)).

(** The lease row names this launch and is active. *)
Definition lease_matches (db : JournalDb) (f : WorkerLaunchFence) : bool :=
  match j_launches db !! (wl_service_instance f, wl_slot_id f) with
  | Some r => (l_generation r =? wl_generation f) && bool_decide (l_launch_nonce r = wl_launch_nonce f)
              && (l_active r =? 1)
  | None => false
  end.

(** The slot still is of that generation and not fenced. *)
Definition slot_unfenced (slot_id : SlotId) (generation : Z) (s : SlotRecord) : bool :=
  bool_decide (s_slot_id s = slot_id) && (s_generation s =? generation) && bool_decide (s_phase s <> Fenced).

Definition disk_pressure_launch_is_current (db : JournalDb) (f : WorkerLaunchFence) : result bool ReplayError :=
  if negb (lease_matches db f) then Ok false
  else
    let? generation := disk_pressure_u64 (wl_generation f) in
    let? st := load_state_of db in
    Ok (negb (capacity_invalid st) && existsb (slot_unfenced (wl_slot_id f) generation) (slots st)).

(** The slot is of that generation and fenced. *)
Definition terminally_fenced (slot_id : SlotId) (generation : Z) (st : FleetState) : bool :=
  existsb (fun s => bool_decide (s_slot_id s = slot_id) && (s_generation s =? i64_as_u64 generation)
                    && bool_decide (s_phase s = Fenced)) (slots st).
