(* ===== verification/PressureFences.v ===== *)
(** * Disk pressure: fenced writes of the journal

    [apply_many_inner] of [crates/velnor-control/src/journal.rs] in full: a
    worker's handle writes only under its current launch lease, and the
    intent, the answer, the loss and the recovery of an acquisition are
    written only for the exact provisional row and the exact logged intent
    they belong to. Then the operations that pass those fences, and the
    issuing and revoking of leases. *)

From S2P Require Import Prelude Numerals NodeModel JournalData JournalReduce JournalInv JournalStore JournalReplay PressureData.
From Stdlib Require Import String.
From stdpp Require Import base gmap list strings sorting.
#[local] Open Scope Z_scope.
#[local] Open Scope result_scope.

(** ** Fences *)

(** [AcquisitionIntentFence]. The fences of a response and of an abandonment
    are structs of their own with these same fields. *)
Record AcquisitionIntentFence := {
  ai_launch : WorkerLaunchFence;
  ai_provisional_job_id : JobId;
  ai_message_id : string;
  ai_run_service_url : string;
}.
Definition AcquisitionResponseFence := AcquisitionIntentFence.
Definition AcquisitionAbandonFence := AcquisitionIntentFence.

Record AcquisitionResolutionFence := {
  ax_slot_id : SlotId;
  ax_generation : Z;
  ax_provisional_job_id : JobId;
  ax_acquired_job_id : JobId;
  ax_plan_id : string;
  ax_message_id : string;
  ax_acquire_run_service_url : string;
  ax_job_run_service_url : string;
}.

Record AcquisitionLossFence := {
  al_slot_id : SlotId;
  al_generation : Z;
  al_provisional_job_id : JobId;
  al_message_id : string;
  al_run_service_url : string;
}.

Record AcquisitionRecoveryFence := {
  ar_service_instance : string;
  ar_slot_id : SlotId;
  ar_generation : Z;
  ar_acquired_job_id : JobId;
  ar_plan_id : string;
  ar_run_service_url : string;
}.

(** The seven optional arguments of [apply_many_inner]. *)
Record Fences := {
  f_launch : option WorkerLaunchFence;
  f_intent : option AcquisitionIntentFence;
  f_response : option AcquisitionResponseFence;
  f_abandon : option AcquisitionAbandonFence;
  f_recovery : option AcquisitionRecoveryFence;
  f_resolution : option AcquisitionResolutionFence;
  f_loss : option AcquisitionLossFence;
}.
Definition no_fences : Fences :=
  {| f_launch := None; f_intent := None; f_response := None; f_abandon := None; f_recovery := None;
     f_resolution := None; f_loss := None |}.

Definition is_some {A} (o : option A) : bool := match o with Some _ => true | None => false end.

(** Combinations no caller makes. *)
Definition fences_conflict (h : Handle) (f : Fences) : bool :=
  (is_some (f_response f) && is_some (f_abandon f))
  || (is_some (f_resolution f)
      && (is_some (f_intent f) || is_some (f_response f) || is_some (f_abandon f) || is_some (f_recovery f)))
  || (is_some (f_loss f)
      && (is_some (f_intent f) || is_some (f_response f) || is_some (f_abandon f) || is_some (f_recovery f)
          || is_some (f_resolution f)))
  || (is_some (f_recovery f)
      && (is_some (f_intent f) || is_some (f_response f) || is_some (f_abandon f)
          || is_some (h_worker_launch h))).

(** The lease the write depends on: a worker's own, except for the hand-off
    of an answer or of a loss, which the validators below decide. *)
Definition effective_launch (h : Handle) (f : Fences) : result (option WorkerLaunchFence) ReplayError :=
  match h_worker_launch h with
  | Some bound =>
      if match f_launch f with Some launch => bool_decide (bound <> launch) | None => false end
      then Err LaunchFenced
      else match f_response f, f_abandon f with
      | Some response, _ => if bool_decide (bound <> ai_launch response) then Err LaunchFenced else Ok None
      | None, Some abandon => if bool_decide (bound <> ai_launch abandon) then Err AbandonFenced else Ok None
      | None, None => Ok (Some bound)
      end
  | None => if is_some (f_abandon f) then Err AbandonFenced else Ok (f_launch f)
  end.

Definition acquisition_fence (f : Fences) : bool :=
  is_some (f_intent f) || is_some (f_response f) || is_some (f_abandon f) || is_some (f_recovery f)
  || is_some (f_resolution f) || is_some (f_loss f).

Definition pressure_terminal_recovery_worker (job_id : JobId) : string :=
  (PRESSURE_TERMINAL_RECOVERY_WORKER_PREFIX ++ job_id)%string.

(** *** The event each fence is for *)

Definition names_intent (fence : AcquisitionIntentFence) (ev : Event) : bool :=
  match ev with
  | Ev.JobAcquisitionIntended slot_id job_id generation message_id run_service_url _ =>
      bool_decide (slot_id = wl_slot_id (ai_launch fence))
      && bool_decide (job_id = ai_provisional_job_id fence)
      && (i64_wrap generation =? wl_generation (ai_launch fence))
      && bool_decide (message_id = ai_message_id fence)
      && bool_decide (run_service_url = ai_run_service_url fence)
  | _ => false
  end.
Definition names_loss (job_id : JobId) (generation : Z) (ev : Event) : bool :=
  match ev with
  | Ev.JobAcquisitionLost k g _ => bool_decide (k = job_id) && (i64_wrap g =? generation)
  | _ => false
  end.
Definition names_recovery (fence : AcquisitionRecoveryFence) (ev : Event) : bool :=
  match ev with
  | Ev.JobOwned job_id slot_id _ generation worker _ =>
      bool_decide (job_id = ar_acquired_job_id fence) && bool_decide (slot_id = ar_slot_id fence)
      && (i64_wrap generation =? ar_generation fence)
      && bool_decide (worker = pressure_terminal_recovery_worker (ar_acquired_job_id fence))
  | _ => false
  end.
Definition names_resolution (fence : AcquisitionResolutionFence) (ev : Event) : bool :=
  match ev with
  | Ev.JobAcquisitionResolvedAtEndpoint provisional acquired plan_id generation run_service_url =>
      bool_decide (provisional = ax_provisional_job_id fence)
      && bool_decide (acquired = ax_acquired_job_id fence) && bool_decide (plan_id = ax_plan_id fence)
      && (i64_wrap generation =? ax_generation fence)
      && bool_decide (run_service_url = ax_job_run_service_url fence)
  | _ => false
  end.

Definition check {A} (o : option A) (p : A -> bool) (e : ReplayError) : result unit ReplayError :=
  match o with Some a => if p a then Ok tt else Err e | None => Ok tt end.

(** The checks on the first event. *)
Definition first_event_fits (f : Fences) (ev : Event) : result unit ReplayError :=
  let? _ := check (f_intent f) (fun fence => names_intent fence ev) IntentFenced in
  let? _ := check (f_abandon f) (fun fence =>
              names_loss (ai_provisional_job_id fence) (wl_generation (ai_launch fence)) ev) AbandonFenced in
  let? _ := check (f_recovery f) (fun fence => names_recovery fence ev) RecoveryFenced in
  let? _ := check (f_resolution f) (fun fence => names_resolution fence ev) ResponseFenced in
  check (f_loss f) (fun fence => names_loss (al_provisional_job_id fence) (al_generation fence) ev) AbandonFenced.

(** The checks at the head of the loop. *)
Definition loop_guard (h : Handle) (f : Fences) (ev : Event) : result unit ReplayError :=
  let? _ := check (f_intent f) (fun fence =>
              match ev with
              | Ev.JobAcquisitionIntended slot_id _ generation _ _ _ =>
                  bool_decide (slot_id = wl_slot_id (ai_launch fence))
                  && (i64_wrap generation =? wl_generation (ai_launch fence))
              | _ => false
              end) IntentFenced in
  if is_some (h_worker_launch h)
     && match ev with Ev.DiskPressureTerminalFence _ _ => true | _ => false end
  then Err WorkerAuthority
  else if claims_pressure_recovery ev && negb (is_some (f_recovery f)) then Err RecoveryFenced
  else Ok tt.

(** ** What the rows and the log say of an acquisition *)

(** The row of an intent that was not answered yet. *)
Definition exact_provisional_row (job_id : JobId) (slot_id : SlotId) (generation : Z) (url : string)
    (st : FleetState) : bool :=
  existsb (fun j => bool_decide (j_job_id j = job_id) && bool_decide (j_slot_id j = slot_id)
                    && (j_generation j =? i64_as_u64 generation) && j_provisional j
                    && bool_decide (j_phase j = JobAssigned) && is_empty (j_plan_id j)
                    && bool_decide (j_run_service_url j = url)) (jobs st).
Definition exact_provisional_acquisition_row (st : FleetState) (fence : AcquisitionIntentFence) : bool :=
  exact_provisional_row (ai_provisional_job_id fence) (wl_slot_id (ai_launch fence))
    (wl_generation (ai_launch fence)) (ai_run_service_url fence) st.

(** [WHERE generation = ?1 AND kind IN kinds], in the order of the ids. *)
Definition rows_of (generation : Z) (kinds : list string) (db : JournalDb) : list EventRow :=
  List.filter (fun r => (er_generation r =? generation) && bool_decide (er_kind r ∈ kinds)) (j_events db).

(** The pending intents [resolved_acquisition_intent_is_exact] keeps. *)
Abbreviation intents := (gmap JobId (SlotId * string)).

Section Fenced.
Context (encode : Event -> string) (decode : string -> option Event).
Context (decode_baseline : string -> option ReplayBaseline) (sha256_hex : string -> string).

#[local] Abbreviation decode_row := (decode_checked_event decode sha256_hex).

(** The scan of [acquisition_intent_event_matches], newest row first: only the
    latest intent of the provisional id counts. *)
Fixpoint latest_intent_matches (slot_id : SlotId) (generation : Z) (job_id : JobId)
    (message_id url : string) (rows : list EventRow) : result bool ReplayError :=
  match rows with
  | [] => Ok false
  | row :: rows =>
      let? event := decode_row row in
      match event with
      | Ev.JobAcquisitionIntended slot' job' generation' message' url' _ =>
          if bool_decide (job' = job_id)
          then Ok (bool_decide (slot' = slot_id) && (i64_wrap generation' =? generation)
                   && bool_decide (message' = message_id) && bool_decide (url' = url))
          else latest_intent_matches slot_id generation job_id message_id url rows
      | _ => latest_intent_matches slot_id generation job_id message_id url rows
      end
  end.
Definition acquisition_intent_event_matches (db : JournalDb) (slot_id : SlotId) (generation : Z)
    (job_id : JobId) (message_id url : string) : result bool ReplayError :=
  latest_intent_matches slot_id generation job_id message_id url
    (rev (rows_of generation ["job_acquisition_intended"] db)).
Definition acquisition_intent_event_is_exact (db : JournalDb) (fence : AcquisitionIntentFence)
    : result bool ReplayError :=
  acquisition_intent_event_matches db (wl_slot_id (ai_launch fence)) (wl_generation (ai_launch fence))
    (ai_provisional_job_id fence) (ai_message_id fence) (ai_run_service_url fence).

Fixpoint fence_logged (slot_id : SlotId) (generation : Z) (rows : list EventRow) : result bool ReplayError :=
  match rows with
  | [] => Ok false
  | row :: rows =>
      let? event := decode_row row in
      match event with
      | Ev.DiskPressureTerminalFence slot' generation' =>
          if bool_decide (slot' = slot_id) && (generation' =? i64_as_u64 generation) then Ok true
          else fence_logged slot_id generation rows
      | _ => fence_logged slot_id generation rows
      end
  end.
Definition has_disk_pressure_terminal_fence (db : JournalDb) (slot_id : SlotId) (generation : Z)
    : result bool ReplayError :=
  fence_logged slot_id generation (rev (rows_of generation ["disk_pressure_terminal_fence"] db)).

(** The scan of [resolved_acquisition_intent_is_exact], oldest row first. *)
Fixpoint resolution_logged (fence : AcquisitionRecoveryFence) (pending : intents) (rows : list EventRow)
    : result bool ReplayError :=
  match rows with
  | [] => Ok false
  | row :: rows =>
      let? event := decode_row row in
      match event with
      | Ev.JobAcquisitionIntended slot_id job_id generation _ url _ =>
          resolution_logged fence
            (if i64_wrap generation =? ar_generation fence then <[job_id := (slot_id, url)]> pending else pending)
            rows
      | Ev.JobAcquisitionLost job_id generation _ =>
          resolution_logged fence
            (if i64_wrap generation =? ar_generation fence then delete job_id pending else pending) rows
      | Ev.JobAcquisitionResolved provisional acquired plan_id generation =>
          if i64_wrap generation =? ar_generation fence then
            if bool_decide (acquired = ar_acquired_job_id fence) && bool_decide (plan_id = ar_plan_id fence)
               && bool_decide (pending !! provisional = Some (ar_slot_id fence, ar_run_service_url fence))
            then Ok true
            else resolution_logged fence (delete provisional pending) rows
          else resolution_logged fence pending rows
      | Ev.JobAcquisitionResolvedAtEndpoint provisional acquired plan_id generation url =>
          if i64_wrap generation =? ar_generation fence then
            if bool_decide (acquired = ar_acquired_job_id fence) && bool_decide (plan_id = ar_plan_id fence)
               && bool_decide (url = ar_run_service_url fence)
               && match pending !! provisional with
                  | Some (slot_id, _) => bool_decide (slot_id = ar_slot_id fence)
                  | None => false
                  end
            then Ok true
            else resolution_logged fence (delete provisional pending) rows
          else resolution_logged fence pending rows
      | _ => resolution_logged fence pending rows
      end
  end.
Definition resolved_acquisition_intent_is_exact (db : JournalDb) (fence : AcquisitionRecoveryFence)
    : result bool ReplayError :=
  resolution_logged fence ∅
    (rows_of (ar_generation fence)
       ["job_acquisition_intended"; "job_acquisition_resolved"; "job_acquisition_resolved_at_endpoint";
        "job_acquisition_lost"] db).

(** [!a || !b?]: the second test is made only when the first one holds. *)
Definition both (a : bool) (b : result bool ReplayError) (e : ReplayError) : result unit ReplayError :=
  if a then let? b := b in if b then Ok tt else Err e else Err e.

(** ** The validators *)

Definition validate_acquisition_response_fence (db : JournalDb) (st : FleetState)
    (fence : AcquisitionResponseFence) : result unit ReplayError :=
  let launch := ai_launch fence in
  match j_launches db !! (wl_service_instance launch, wl_slot_id launch) with
  | None => Err ResponseFenced
  | Some r =>
      if negb (l_generation r =? wl_generation launch) || bool_decide (l_launch_nonce r <> wl_launch_nonce launch)
      then Err ResponseFenced
      else
        let? active := disk_pressure_bool (l_active r) in
        let? _ := both (exact_provisional_acquisition_row st fence)
                    (acquisition_intent_event_is_exact db fence) ResponseFenced in
        if active : bool then both true (disk_pressure_launch_is_current db launch) ResponseFenced
        else both (terminally_fenced (wl_slot_id launch) (wl_generation launch) st)
               (has_disk_pressure_terminal_fence db (wl_slot_id launch) (wl_generation launch)) ResponseFenced
  end.

Definition validate_acquisition_resolution_fence (db : JournalDb) (st : FleetState)
    (fence : AcquisitionResolutionFence) : result unit ReplayError :=
  both (exact_provisional_row (ax_provisional_job_id fence) (ax_slot_id fence) (ax_generation fence)
          (ax_acquire_run_service_url fence) st)
    (acquisition_intent_event_matches db (ax_slot_id fence) (ax_generation fence)
       (ax_provisional_job_id fence) (ax_message_id fence) (ax_acquire_run_service_url fence)) ResponseFenced.

Definition validate_acquisition_loss_fence (db : JournalDb) (st : FleetState)
    (fence : AcquisitionLossFence) : result unit ReplayError :=
  both (exact_provisional_row (al_provisional_job_id fence) (al_slot_id fence) (al_generation fence)
          (al_run_service_url fence) st)
    (acquisition_intent_event_matches db (al_slot_id fence) (al_generation fence)
       (al_provisional_job_id fence) (al_message_id fence) (al_run_service_url fence)) AbandonFenced.

Definition validate_acquisition_abandon_fence (db : JournalDb) (st : FleetState)
    (fence : AcquisitionAbandonFence) : result unit ReplayError :=
  let launch := ai_launch fence in
  match j_launches db !! (wl_service_instance launch, wl_slot_id launch) with
  | None => Err AbandonFenced
  | Some r =>
      if negb (l_generation r =? wl_generation launch) || bool_decide (l_launch_nonce r <> wl_launch_nonce launch)
      then Err AbandonFenced
      else
        let? active := disk_pressure_bool (l_active r) in
        let? _ := if active : bool then both true (disk_pressure_launch_is_current db launch) AbandonFenced
                  else both (terminally_fenced (wl_slot_id launch) (wl_generation launch) st
                             && terminal_episode (wl_service_instance launch) db)
                         (has_disk_pressure_terminal_fence db (wl_slot_id launch) (wl_generation launch))
                         AbandonFenced in
        both (exact_provisional_acquisition_row st fence) (acquisition_intent_event_is_exact db fence)
          AbandonFenced
  end.

(** The row of an answered acquisition whose job was not owned yet. *)
Definition exact_answered_row (fence : AcquisitionRecoveryFence) (st : FleetState) : bool :=
  existsb (fun j => bool_decide (j_job_id j = ar_acquired_job_id fence)
                    && bool_decide (j_slot_id j = ar_slot_id fence)
                    && (j_generation j =? i64_as_u64 (ar_generation fence))
                    && bool_decide (j_phase j = JobAssigned) && j_provisional j
                    && bool_decide (j_plan_id j = ar_plan_id fence)
                    && bool_decide (j_run_service_url j = ar_run_service_url fence)) (jobs st).

Definition validate_acquisition_recovery_fence (db : JournalDb) (st : FleetState)
    (fence : AcquisitionRecoveryFence) : result unit ReplayError :=
  match j_launches db !! (ar_service_instance fence, ar_slot_id fence) with
  | None => Err RecoveryFenced
  | Some r =>
      let? _ := validate_disk_pressure_key (l_launch_nonce r) in
      if negb (l_generation r =? ar_generation fence) then Err RecoveryFenced
      else
        let? active := disk_pressure_bool (l_active r) in
        if active : bool then Err RecoveryFenced
        else
          let? _ := both (terminally_fenced (ar_slot_id fence) (ar_generation fence) st)
                      (has_disk_pressure_terminal_fence db (ar_slot_id fence) (ar_generation fence))
                      RecoveryFenced in
          both (exact_answered_row fence st) (resolved_acquisition_intent_is_exact db fence) RecoveryFenced
  end.

Definition validated {A} (o : option A) (v : A -> result unit ReplayError) : result unit ReplayError :=
  match o with Some a => v a | None => Ok tt end.

(** Every fence the caller passed, in the order of the source. *)
Definition validate_fences (db : JournalDb) (st : FleetState) (f : Fences) : result unit ReplayError :=
  let? _ := validated (f_response f) (validate_acquisition_response_fence db st) in
  let? _ := validated (f_resolution f) (validate_acquisition_resolution_fence db st) in
  let? _ := validated (f_loss f) (validate_acquisition_loss_fence db st) in
  let? _ := validated (f_abandon f) (validate_acquisition_abandon_fence db st) in
  validated (f_recovery f) (validate_acquisition_recovery_fence db st).

(** The owner checks of the fences that name a service. *)
Definition validate_fence_services (db : JournalDb) (f : Fences) : result unit ReplayError :=
  let intent_service := fun fence => validate_journal_service_instance (wl_service_instance (ai_launch fence)) db in
  let? _ := validated (f_intent f) intent_service in
  let? _ := validated (f_response f) intent_service in
  let? _ := validated (f_abandon f) intent_service in
  validated (f_recovery f) (fun fence => validate_journal_service_instance (ar_service_instance fence) db).

(** ** The fenced write *)

(** The service the write is made for. *)
Definition pressure_service_instance (h : Handle) (launch : option WorkerLaunchFence) : option string :=
  match launch with
  | Some f => Some (wl_service_instance f)
  | None => writer_context h
  end.

(** An exact retry of an intent: the row and its logged intent are there. *)
Definition repeated_intent (db : JournalDb) (st : FleetState) (f : Fences) : result bool ReplayError :=
  match f_intent f with
  | Some fence =>
      if exact_provisional_acquisition_row st fence then acquisition_intent_event_is_exact db fence else Ok false
  | None => Ok false
  end.

(** The transaction of [apply_many_inner]. *)
Definition write_fenced (now : Z) (h : Handle) (f : Fences) (launch : option WorkerLaunchFence)
    (evs : list Event) (db : JournalDb) : result (JournalDb * list ReduceOutcome) ReplayError :=
  let? _ := validate_replay_baseline_before_write decode_baseline sha256_hex db in
  let? _ := begin_write (writer_context h) db in
  let? _ := validate_fence_services db f in
  let? current := match launch with
                  | Some fence => disk_pressure_launch_is_current db fence
                  | None => Ok true
                  end in
  if negb current then Err LaunchFenced
  else
    let? st := load_state_of db in
    if capacity_invalid st then Err CapacityInvalid
    else
      let service := pressure_service_instance h launch in
      let? _ := validate_fences db st f in
      let? repeated := repeated_intent db st f in
      if repeated : bool then Ok (db, [{| state := st; commands := []; rejected := false |}])
      else
        let? w := write_all (loop_guard h f) now (active_pressure_episode service db)
          {| w_state := st; w_outcomes := []; w_pending := []; w_fenced := [] |} evs in
        let? launches := deactivate_launches service (w_fenced w) (j_launches db) in
        let db' := set_launches launches db in
        match w_pending w with
        | [] => Ok (db', w_outcomes w)
        | pending =>
            let? tables := persist_state decode_baseline sha256_hex (j_tables db') (w_state w) in
            Ok (set_log (j_events db' ++ map (event_row encode sha256_hex) pending) tables db', w_outcomes w)
        end.

Definition apply_many_inner (now : Z) (h : Handle) (f : Fences) (evs : list Event) (db : JournalDb)
    : result (JournalDb * list ReduceOutcome) ReplayError :=
  if fences_conflict h f then Err ResponseFenced
  else
    let? launch := effective_launch h f in
    if match f_intent f with
       | Some fence => bool_decide (launch <> Some (ai_launch fence))
       | None => false
       end
    then Err LaunchFenced
    else match evs with
    | [] => Ok (db, [])
    | ev :: rest =>
        if acquisition_fence f && negb (bool_decide (rest = [])) then Err ResponseFenced
        else
          let? _ := first_event_fits f ev in
          write_fenced now h f launch evs db
    end.

(** [outcomes.pop().expect(..)]: [None] is the panic. *)
Definition popped (r : result (JournalDb * list ReduceOutcome) ReplayError)
    : result (JournalDb * option ReduceOutcome) ReplayError :=
  let? r := r in Ok (r.1, last r.2).

(** [Journal::apply] through a handle. *)
Definition apply (now : Z) (h : Handle) (ev : Event) (db : JournalDb)
    : result (JournalDb * option ReduceOutcome) ReplayError :=
  popped (apply_many_inner now h no_fences [ev] db).

Definition apply_with_disk_pressure_launch (now : Z) (h : Handle) (si : string) (slot_id : SlotId)
    (generation : Generation) (nonce : string) (ev : Event) (db : JournalDb)
    : result (JournalDb * option ReduceOutcome) ReplayError :=
  let? _ := validate_disk_pressure_key si in
  let? _ := validate_pressure_service_instance h si db in
  let? _ := validate_disk_pressure_key slot_id in
  let? generation := disk_pressure_sql_integer generation in
  let launch := {| wl_service_instance := si; wl_slot_id := slot_id; wl_generation := generation;
                   wl_launch_nonce := nonce |} in
  popped (apply_many_inner now h
    {| f_launch := Some launch; f_intent := None; f_response := None; f_abandon := None; f_recovery := None;
       f_resolution := None; f_loss := None |} [ev] db).

Definition intend_acquisition_with_disk_pressure_launch (now : Z) (h : Handle) (si : string)
    (slot_id : SlotId) (generation : Generation) (nonce : string) (provisional_job_id : JobId)
    (message_id run_service_url : string) (intended_unix : Z) (db : JournalDb)
    : result (JournalDb * option ReduceOutcome) ReplayError :=
  let? _ := validate_disk_pressure_keys [si; slot_id; nonce; provisional_job_id; message_id; run_service_url] in
  let? _ := validate_acquisition_handle h si slot_id generation nonce in
  let? generation_sql := disk_pressure_sql_integer generation in
  let launch := {| wl_service_instance := si; wl_slot_id := slot_id; wl_generation := generation_sql;
                   wl_launch_nonce := nonce |} in
  popped (apply_many_inner now h
    {| f_launch := Some launch;
       f_intent := Some {| ai_launch := launch; ai_provisional_job_id := provisional_job_id;
                           ai_message_id := message_id; ai_run_service_url := run_service_url |};
       f_response := None; f_abandon := None; f_recovery := None; f_resolution := None; f_loss := None |}
    [Ev.JobAcquisitionIntended slot_id provisional_job_id generation message_id run_service_url intended_unix] db).

Definition resolve_acquisition_response (now : Z) (h : Handle) (si : string) (slot_id : SlotId)
    (generation : Generation) (nonce : string) (provisional_job_id : JobId) (message_id : string)
    (acquired_job_id : JobId) (acquire_run_service_url job_run_service_url plan_id : string) (db : JournalDb)
    : result (JournalDb * option ReduceOutcome) ReplayError :=
  let? _ := validate_disk_pressure_keys
              [si; slot_id; nonce; provisional_job_id; message_id; acquired_job_id; acquire_run_service_url;
               job_run_service_url; plan_id] in
  let? _ := validate_acquisition_handle h si slot_id generation nonce in
  let? generation_sql := disk_pressure_sql_integer generation in
  let launch := {| wl_service_instance := si; wl_slot_id := slot_id; wl_generation := generation_sql;
                   wl_launch_nonce := nonce |} in
  popped (apply_many_inner now h
    {| f_launch := None; f_intent := None;
       f_response := Some {| ai_launch := launch; ai_provisional_job_id := provisional_job_id;
                             ai_message_id := message_id; ai_run_service_url := acquire_run_service_url |};
       f_abandon := None; f_recovery := None; f_resolution := None; f_loss := None |}
    [Ev.JobAcquisitionResolvedAtEndpoint provisional_job_id acquired_job_id plan_id generation
       job_run_service_url] db).

Definition resolve_acquisition_response_at_endpoint (now : Z) (h : Handle) (slot_id : SlotId)
    (generation : Generation) (provisional_job_id : JobId) (message_id : string) (acquired_job_id : JobId)
    (acquire_run_service_url job_run_service_url plan_id : string) (db : JournalDb)
    : result (JournalDb * option ReduceOutcome) ReplayError :=
  let? _ := validate_disk_pressure_keys
              [slot_id; provisional_job_id; message_id; acquired_job_id; acquire_run_service_url;
               job_run_service_url; plan_id] in
  let? generation_sql := disk_pressure_sql_integer generation in
  popped (apply_many_inner now h
    {| f_launch := None; f_intent := None; f_response := None; f_abandon := None; f_recovery := None;
       f_resolution := Some {| ax_slot_id := slot_id; ax_generation := generation_sql;
                               ax_provisional_job_id := provisional_job_id;
                               ax_acquired_job_id := acquired_job_id; ax_plan_id := plan_id;
                               ax_message_id := message_id;
                               ax_acquire_run_service_url := acquire_run_service_url;
                               ax_job_run_service_url := job_run_service_url |};
       f_loss := None |}
    [Ev.JobAcquisitionResolvedAtEndpoint provisional_job_id acquired_job_id plan_id generation
       job_run_service_url] db).

Definition abandon_acquisition_response_at_endpoint (now : Z) (h : Handle) (slot_id : SlotId)
    (generation : Generation) (provisional_job_id : JobId) (message_id run_service_url reason : string)
    (db : JournalDb) : result (JournalDb * option ReduceOutcome) ReplayError :=
  let? _ := validate_disk_pressure_keys [slot_id; provisional_job_id; message_id; run_service_url] in
  let? generation_sql := disk_pressure_sql_integer generation in
  popped (apply_many_inner now h
    {| f_launch := None; f_intent := None; f_response := None; f_abandon := None; f_recovery := None;
       f_resolution := None;
       f_loss := Some {| al_slot_id := slot_id; al_generation := generation_sql;
                         al_provisional_job_id := provisional_job_id; al_message_id := message_id;
                         al_run_service_url := run_service_url |} |}
    [Ev.JobAcquisitionLost provisional_job_id generation reason] db).

Definition abandon_acquisition_after_disk_pressure_terminal (now : Z) (h : Handle) (si : string)
    (slot_id : SlotId) (generation : Generation) (nonce : string) (provisional_job_id : JobId)
    (message_id run_service_url reason : string) (db : JournalDb)
    : result (JournalDb * option ReduceOutcome) ReplayError :=
  let? _ := validate_disk_pressure_keys [si; slot_id; nonce; provisional_job_id; message_id; run_service_url] in
  match h_worker_launch h with
  | None => Err AbandonFenced
  | Some bound =>
      let? generation_sql := disk_pressure_sql_integer generation in
      let launch := {| wl_service_instance := si; wl_slot_id := slot_id; wl_generation := generation_sql;
                       wl_launch_nonce := nonce |} in
      if bool_decide (bound <> launch) then Err AbandonFenced
      else popped (apply_many_inner now h
        {| f_launch := None; f_intent := None; f_response := None;
           f_abandon := Some {| ai_launch := launch; ai_provisional_job_id := provisional_job_id;
                                ai_message_id := message_id; ai_run_service_url := run_service_url |};
           f_recovery := None; f_resolution := None; f_loss := None |}
        [Ev.JobAcquisitionLost provisional_job_id generation reason] db)
  end.

Definition confirm_acquisition_after_disk_pressure_terminal (now : Z) (h : Handle) (si : string)
    (slot_id : SlotId) (generation : Generation) (acquired_job_id : JobId) (plan_id run_service_url : string)
    (db : JournalDb) : result (JournalDb * option ReduceOutcome) ReplayError :=
  let? _ := require_controller_authority h db in
  let? _ := validate_disk_pressure_keys [si; slot_id; acquired_job_id; plan_id; run_service_url] in
  let? _ := validate_pressure_service_instance h si db in
  let? generation_sql := disk_pressure_sql_integer generation in
  popped (apply_many_inner now h
    {| f_launch := None; f_intent := None; f_response := None; f_abandon := None;
       f_recovery := Some {| ar_service_instance := si; ar_slot_id := slot_id; ar_generation := generation_sql;
                             ar_acquired_job_id := acquired_job_id; ar_plan_id := plan_id;
                             ar_run_service_url := run_service_url |};
       f_resolution := None; f_loss := None |}
    [Ev.JobOwned acquired_job_id slot_id 1 generation (pressure_terminal_recovery_worker acquired_job_id) 0] db).

(** ** Leases *)

Definition launchable (slot_id : SlotId) (generation : Generation) (st : FleetState) : bool :=
  match find_slot slot_id st with
  | Some s => (s_generation s =? generation)
              && (bool_decide (s_phase s = Ready) || bool_decide (s_phase s = Assigned))
  | None => false
  end.
Definition has_provisional_row (slot_id : SlotId) (generation : Generation) (st : FleetState) : bool :=
  existsb (fun j => bool_decide (j_slot_id j = slot_id) && (j_generation j =? generation) && j_provisional j)
    (jobs st).

(** [issue_disk_pressure_launch]; [fresh] is the UUID it draws. *)
Definition issue_disk_pressure_launch (h : Handle) (si : string) (slot_id : SlotId)
    (generation : Generation) (issued_unix : Z) (fresh : string) (db : JournalDb)
    : result (JournalDb * string) ReplayError :=
  let? _ := require_controller_authority h db in
  let? _ := validate_disk_pressure_key si in
  let? _ := validate_pressure_service_instance h si db in
  let? _ := validate_disk_pressure_key slot_id in
  let? generation_sql := disk_pressure_sql_integer generation in
  let? issued_sql := disk_pressure_sql_integer issued_unix in
  let? db := begin_pressure_write decode_baseline sha256_hex h si db in
  if active_pressure_episode (Some si) db then Err LaunchPressure
  else
    let? st := load_state_of db in
    if capacity_invalid st || drain_active st || admission_blocked st then Err LaunchStale
    else if negb (launchable slot_id generation st) then Err LaunchStale
    else
      let existing := j_launches db !! (si, slot_id) in
      let provisional := has_provisional_row slot_id generation st in
      let? reusable := match existing with
                       | Some r => if l_generation r =? generation_sql then disk_pressure_bool (l_active r) else Ok false
                       | None => Ok false
                       end in
      match existing with
      | Some r =>
          if reusable && provisional then Ok (db, l_launch_nonce r)
          else if provisional then Err LaunchFenced
          else Ok (set_launches (<[(si, slot_id) := {| l_generation := generation_sql; l_launch_nonce := fresh;
                                                       l_issued_unix := issued_sql; l_active := 1 |}]>
                                 (j_launches db)) db, fresh)
      | None =>
          if provisional then Err LaunchFenced
          else Ok (set_launches (<[(si, slot_id) := {| l_generation := generation_sql; l_launch_nonce := fresh;
                                                       l_issued_unix := issued_sql; l_active := 1 |}]>
                                 (j_launches db)) db, fresh)
      end.

Definition revoke_disk_pressure_launch (h : Handle) (si : string) (slot_id : SlotId)
    (generation : Generation) (db : JournalDb) : result (JournalDb * bool) ReplayError :=
  let? _ := require_controller_authority h db in
  let? _ := validate_disk_pressure_key si in
  let? _ := validate_pressure_service_instance h si db in
  let? _ := validate_disk_pressure_key slot_id in
  let? generation_sql := disk_pressure_sql_integer generation in
  let? db := begin_pressure_write decode_baseline sha256_hex h si db in
  match j_launches db !! (si, slot_id) with
  | Some r =>
      if (l_generation r =? generation_sql) && (l_active r =? 1)
      then Ok (set_launches (<[(si, slot_id) := inactive r]> (j_launches db)) db, true)
      else Ok (db, false)
  | None => Ok (db, false)
  end.

Definition validate_disk_pressure_launch (h : Handle) (si : string) (slot_id : SlotId)
    (generation : Generation) (nonce : string) (db : JournalDb) : result unit ReplayError :=
  let? _ := validate_worker_context h si slot_id generation nonce in
  let? _ := validate_disk_pressure_key si in
  let? _ := validate_pressure_service_instance h si db in
  let? _ := validate_disk_pressure_key slot_id in
  let? generation_sql := disk_pressure_sql_integer generation in
  let? _ := validate_replay_integrity_before_read decode_baseline sha256_hex db in
  let? current := disk_pressure_launch_is_current db
    {| wl_service_instance := si; wl_slot_id := slot_id; wl_generation := generation_sql;
       wl_launch_nonce := nonce |} in
  if current : bool then Ok tt else Err LaunchFenced.

Definition disk_pressure_launch_nonce (h : Handle) (si : string) (slot_id : SlotId)
    (generation : Generation) (db : JournalDb) : result (option string) ReplayError :=
  let? _ := validate_disk_pressure_key si in
  let? _ := validate_pressure_service_instance h si db in
  let? _ := validate_disk_pressure_key slot_id in
  let? generation_sql := disk_pressure_sql_integer generation in
  let? _ := validate_replay_integrity_before_read decode_baseline sha256_hex db in
  match j_launches db !! (si, slot_id) with
  | None => Ok None
  | Some r =>
      let? active := disk_pressure_bool (l_active r) in
      if active && (l_generation r =? generation_sql) then
        let? _ := validate_disk_pressure_key (l_launch_nonce r) in
        let? current := disk_pressure_launch_is_current db
          {| wl_service_instance := si; wl_slot_id := slot_id; wl_generation := generation_sql;
             wl_launch_nonce := l_launch_nonce r |} in
        Ok (if current : bool then Some (l_launch_nonce r) else None)
      else Ok None
  end.

(** ** Opening a journal *)

(** [open_for_service_instance] on the database as [setup_journal] leaves it:
    the log is checked once, then the journal is bound to the service. *)
Definition open_for_service_instance (now : Z) (si : string) (db : JournalDb)
    : result (JournalDb * Handle) ReplayError :=
  let? _ := validate_disk_pressure_key si in
  let? _ := load_current_state_checked decode decode_baseline sha256_hex now db in
  let? _ := validate_replay_baseline_before_write decode_baseline sha256_hex db in
  if negb (j_fence_exact db) then Err WriteFenceInvalid
  else
    let? db := bind_journal_service_instance decode_baseline si db in
    Ok (db, {| h_service_instance := Some si; h_worker_launch := None |}).

(** [open_for_launch]. *)
Definition open_for_launch (now : Z) (si : string) (slot_id : SlotId) (generation : Generation)
    (nonce : string) (db : JournalDb) : result Handle ReplayError :=
  let? _ := validate_disk_pressure_keys [si; slot_id; nonce] in
  let? generation_sql := disk_pressure_sql_integer generation in
  let launch := {| wl_service_instance := si; wl_slot_id := slot_id; wl_generation := generation_sql;
                   wl_launch_nonce := nonce |} in
  let? _ := validate_replay_integrity_before_read decode_baseline sha256_hex db in
  let? _ := validate_journal_service_instance si db in
  if bool_decide (j_identity db <> Some si) then Err ServiceInstanceMismatch
  else
    let? current := disk_pressure_launch_is_current db launch in
    if negb current then Err LaunchFenced
    else
      let? _ := load_current_state_checked decode decode_baseline sha256_hex now db in
      Ok {| h_service_instance := None; h_worker_launch := Some launch |}.

End Fenced.
