(* ===== verification/PressureEpisodes.v ===== *)
(** * Disk pressure: episodes

    The low-space episodes of [crates/velnor-control/src/journal.rs]: the
    persisted clock and volume identity of every configured root, the merging
    of roots that turn out to be one device, the observation of a worker and
    of the controller, the deadlines, the terminal fence of the whole fleet,
    and the ways an episode ends (healthy again, volume replaced, root no
    longer configured). [now_unix] is the time the caller measured at, [clock]
    the wall clock events are stamped with, [uuid] the identity drawn for a new
    episode of a filesystem. *)

From S2P Require Import Prelude Numerals NodeModel JournalData JournalReduce JournalInv JournalStore JournalReplay PressureData.
From Stdlib Require Import String.
From stdpp Require Import base gmap list strings sorting.
#[local] Open Scope Z_scope.
#[local] Open Scope result_scope.

(** ** Clocks and identities of roots *)

Record PressureClockSample := {
  pc_high_water_before : option Z;
  pc_rollback : bool;
  pc_fingerprint_changed : bool;
  pc_identity_confirmed : bool;
  pc_late_binding : bool;
  pc_trusted_fingerprint : option string;
}.

Definition max_option (a b : option Z) : option Z :=
  match a, b with
  | Some a, Some b => Some (Z.max a b)
  | Some a, None => Some a
  | None, b => b
  end.

(** [SELECT MAX(last_observed_unix) .. WHERE service_instance = ?1]. *)
Definition service_high_water (si : string) (db : JournalDb) : option Z :=
  foldr (fun kr acc => max_option (Some (ob_last_observed_unix kr.2)) acc) None
    (map_to_list (filter (fun kr => kr.1.1 = si) (j_observations db))).

Definition optional_u64 (value : option Z) : result (option Z) ReplayError :=
  match value with
  | Some v => let? v := disk_pressure_u64 v in Ok (Some v)
  | None => Ok None
  end.

(** What the stored and the sampled volume say together: the fingerprint to
    trust, whether it is confirmed, whether it changed under an episode, and
    whether it was only bound under one. *)
Definition bind_identity (stored sampled : option string) (episode_exists : bool)
    : option string * bool * bool * bool :=
  match stored, sampled with
  | Some previous, Some observed =>
      if bool_decide (previous = observed) then (Some previous, true, false, false)
      else if negb episode_exists then (Some observed, true, false, false)
      else (Some previous, false, true, false)
  | Some previous, None => (Some previous, false, false, false)
  | None, Some observed =>
      if episode_exists then (Some observed, false, false, true) else (Some observed, true, false, false)
  | None, None => (None, false, false, false)
  end.

(** [persist_pressure_clock_sample] of one root. *)
Definition persist_pressure_clock_sample (si filesystem_id : string) (sampled : option string)
    (now_unix : Z) (db : JournalDb) : result (JournalDb * PressureClockSample) ReplayError :=
  let existing := j_observations db !! (si, filesystem_id) in
  let? high_water_before :=
    optional_u64 (max_option (service_high_water si db) (ob_last_observed_unix <$> existing)) in
  let rollback := match high_water_before with Some high_water => now_unix <? high_water | None => false end in
  let episode_exists := bool_decide (is_Some (j_episodes db !! (si, filesystem_id))) in
  let? identity :=
    match existing with
    | None => Ok (sampled, match sampled with Some _ => true | None => false end, false, false)
    | Some row =>
        let? _ := disk_pressure_bool (ob_identity_confirmed row) in
        Ok (bind_identity (ob_volume_fingerprint row) sampled episode_exists)
    end in
  let '(trusted, confirmed, changed, late) := identity in
  let? persisted := disk_pressure_sql_integer (Z.max (default now_unix high_water_before) now_unix) in
  let row := {| ob_volume_fingerprint := trusted; ob_identity_confirmed := i64_of_bool confirmed;
                ob_last_observed_unix := match existing with
                                         | Some old => Z.max (ob_last_observed_unix old) persisted
                                         | None => persisted
                                         end |} in
  Ok (set_observations (<[(si, filesystem_id) := row]> (j_observations db)) db,
      {| pc_high_water_before := high_water_before; pc_rollback := rollback;
         pc_fingerprint_changed := changed; pc_identity_confirmed := confirmed;
         pc_late_binding := late; pc_trusted_fingerprint := trusted |}).

(** Two roots of one sample taken together. *)
Definition combine_clocks (combined observed : PressureClockSample) : PressureClockSample :=
  let conflicts :=
    match pc_trusted_fingerprint combined, pc_trusted_fingerprint observed with
    | Some first, Some second => bool_decide (first <> second)
    | _, _ => false
    end in
  {| pc_high_water_before := max_option (pc_high_water_before combined) (pc_high_water_before observed);
     pc_rollback := pc_rollback combined || pc_rollback observed;
     pc_fingerprint_changed := pc_fingerprint_changed combined || (pc_fingerprint_changed observed || conflicts);
     pc_identity_confirmed := pc_identity_confirmed combined
                              && (pc_identity_confirmed observed && negb conflicts);
     pc_late_binding := pc_late_binding combined || pc_late_binding observed;
     pc_trusted_fingerprint := match pc_trusted_fingerprint combined with
                               | Some f => Some f
                               | None => pc_trusted_fingerprint observed
                               end |}.

Fixpoint persist_aliases (si : string) (sampled : option string) (now_unix : Z) (roots : list string)
    (combined : PressureClockSample) (db : JournalDb) : result (JournalDb * PressureClockSample) ReplayError :=
  match roots with
  | [] => Ok (db, combined)
  | root :: roots =>
      let? observed := persist_pressure_clock_sample si root sampled now_unix db in
      persist_aliases si sampled now_unix roots (combine_clocks combined observed.2) observed.1
  end.

Definition persist_pressure_clock_samples (si : string) (sample : DiskPressureFilesystemSample)
    (now_unix : Z) (db : JournalDb) : result (JournalDb * PressureClockSample) ReplayError :=
  let? primary :=
    persist_pressure_clock_sample si (fs_filesystem_id sample) (fs_volume_fingerprint sample) now_unix db in
  persist_aliases si (fs_volume_fingerprint sample) now_unix (fs_alias_ids sample) primary.2 primary.1.

(** The distinct roots of an alias group, in order. *)
Definition alias_roots (filesystem_id : string) (alias_ids : list string) : list string :=
  fold_left (fun roots alias => if bool_decide (alias ∈ roots) then roots else roots ++ [alias])
    alias_ids [filesystem_id].

(** [confirmed_pressure_observation_group_high_water]. *)
Fixpoint group_high_water (si fingerprint : string) (roots : list string) (high_water : option Z)
    (db : JournalDb) : result (option Z) ReplayError :=
  match roots with
  | [] => Ok high_water
  | root :: roots =>
      match j_observations db !! (si, root) with
      | None => Ok None
      | Some row =>
          if bool_decide (ob_volume_fingerprint row <> Some fingerprint) then Ok None
          else
            let? confirmed := disk_pressure_bool (ob_identity_confirmed row) in
            if negb confirmed then Ok None
            else
              let? observed := disk_pressure_u64 (ob_last_observed_unix row) in
              group_high_water si fingerprint roots (max_option high_water (Some observed)) db
      end
  end.
Definition confirmed_pressure_observation_group_high_water (si filesystem_id : string)
    (alias_ids : list string) (fingerprint : string) (db : JournalDb) : result (option Z) ReplayError :=
  group_high_water si fingerprint (alias_roots filesystem_id alias_ids) None db.

(** ** Alias groups *)

Definition episode_key_le (a b : DiskPressureEpisode) : bool :=
  (ep_started_unix a <? ep_started_unix b)
  || ((ep_started_unix a =? ep_started_unix b)
      && ((ep_deadline_unix a <? ep_deadline_unix b)
          || ((ep_deadline_unix a =? ep_deadline_unix b)
              && (ep_drain_deadline_unix a <=? ep_drain_deadline_unix b)))).

(** [sort_by_key], which is stable. *)
Fixpoint place (x : DiskPressureEpisode) (l : list DiskPressureEpisode) : list DiskPressureEpisode :=
  match l with
  | [] => [x]
  | y :: l' => if episode_key_le x y then x :: l else y :: place x l'
  end.
Definition sort_episodes (l : list DiskPressureEpisode) : list DiskPressureEpisode := foldr place [] l.

Fixpoint load_episodes (si : string) (roots : list string) (db : JournalDb)
    : result (list DiskPressureEpisode) ReplayError :=
  match roots with
  | [] => Ok []
  | root :: roots =>
      let? episode := load_disk_pressure_episode db si root in
      let? episodes := load_episodes si roots db in
      Ok (match episode with Some e => e :: episodes | None => episodes end)
  end.

Definition merge_two (merged episode : DiskPressureEpisode) : DiskPressureEpisode :=
  {| ep_episode_id := ep_episode_id merged;
     ep_started_unix := ep_started_unix merged;
     ep_deadline_unix := Z.min (ep_deadline_unix merged) (ep_deadline_unix episode);
     ep_drain_deadline_unix := Z.min (ep_drain_deadline_unix merged) (ep_drain_deadline_unix episode);
     ep_draining := ep_draining merged || ep_draining episode;
     ep_last_observed_unix := Z.max (ep_last_observed_unix merged) (ep_last_observed_unix episode);
     ep_reclaim_attempted := ep_reclaim_attempted merged || ep_reclaim_attempted episode;
     ep_revision := Z.max (ep_revision merged) (ep_revision episode);
     ep_terminal := ep_terminal merged || ep_terminal episode;
     ep_volume_fingerprint := ep_volume_fingerprint merged |}.

Definition fingerprints_of (episodes : list DiskPressureEpisode) : list string :=
  fold_left (fun seen e => match ep_volume_fingerprint e with
                           | Some f => if bool_decide (f ∈ seen) then seen else seen ++ [f]
                           | None => seen
                           end) episodes [].

Definition identity_conflict (fingerprints : list string) (sampled : option string) : bool :=
  (1 <? Z.of_nat (length fingerprints))
  || match fingerprints with stored :: _ => bool_decide (sampled <> Some stored) | [] => false end.

Definition merge_pressure_alias_episodes (si : string) (sample : DiskPressureFilesystemSample)
    (clocks : PressureClockSample) (db : JournalDb) : result JournalDb ReplayError :=
  if bool_decide (fs_alias_ids sample = []) then Ok db
  else
    let roots := alias_roots (fs_filesystem_id sample) (fs_alias_ids sample) in
    let? episodes := load_episodes si roots db in
    match sort_episodes episodes with
    | [] => Ok db
    | (oldest :: _) as sorted =>
        let merged := fold_left merge_two sorted oldest in
        let fingerprints := fingerprints_of sorted in
        let conflict := identity_conflict fingerprints (fs_volume_fingerprint sample)
                        || pc_rollback clocks || pc_fingerprint_changed clocks in
        let? revision := pressure_add (ep_revision merged) 1 in
        let? row := episode_row
          {| ep_episode_id := ep_episode_id merged; ep_started_unix := ep_started_unix merged;
             ep_deadline_unix := ep_deadline_unix merged;
             ep_drain_deadline_unix := ep_drain_deadline_unix merged;
             ep_draining := ep_draining merged || conflict;
             ep_last_observed_unix := ep_last_observed_unix merged;
             ep_reclaim_attempted := ep_reclaim_attempted merged; ep_revision := revision;
             ep_terminal := ep_terminal merged || conflict;
             ep_volume_fingerprint := head fingerprints |} in
        Ok (set_episodes
              (fold_left (fun m alias => if bool_decide (alias = fs_filesystem_id sample) then m
                                         else delete (si, alias) m) roots
                 (<[(si, fs_filesystem_id sample) := row]> (j_episodes db))) db)
    end.

(** [DELETE .. WHERE service_instance, filesystem_id, episode_id, revision]. *)
Definition row_is (id : string) (revision : Z) (r : EpisodeRow) : bool :=
  bool_decide (e_episode_id r = id) && (e_revision r =? revision).
Definition delete_episode (si filesystem_id id : string) (revision : Z) (db : JournalDb) : JournalDb * bool :=
  match j_episodes db !! (si, filesystem_id) with
  | Some r => if row_is id revision r then (set_episodes (delete (si, filesystem_id) (j_episodes db)) db, true)
              else (db, false)
  | None => (db, false)
  end.

(** The rows of a group deleted in turn; the answer is that of the filesystem's
    own row. *)
Definition delete_group (si filesystem_id : string) (ids : list string) (id : string) (revision : Z)
    (db : JournalDb) : JournalDb * bool :=
  fold_left (fun acc root =>
    let '(db, deleted) := delete_episode si root id revision acc.1 in
    (db, if bool_decide (root = filesystem_id) then deleted else acc.2)) ids (db, false).

Definition delete_pressure_episode_alias_group (si filesystem_id : string) (alias_ids : list string)
    (id : string) (revision : Z) (db : JournalDb) : result (JournalDb * bool) ReplayError :=
  let? revision := disk_pressure_sql_integer revision in
  Ok (delete_group si filesystem_id (filesystem_id :: alias_ids) id revision db).

(** [UPDATE .. WHERE episode_id = ? AND revision = ?], one row or none. *)
Definition update_episode (si filesystem_id id : string) (revision : Z) (f : EpisodeRow -> EpisodeRow)
    (db : JournalDb) : JournalDb * bool :=
  match j_episodes db !! (si, filesystem_id) with
  | Some r => if row_is id revision r
              then (set_episodes (<[(si, filesystem_id) := f r]> (j_episodes db)) db, true)
              else (db, false)
  | None => (db, false)
  end.

(** [SET volume_fingerprint, last_observed_unix, reclaim_attempted, revision, draining, terminal]. *)
Definition advanced_row (fingerprint : option string) (last_observed : Z) (reclaim : bool) (revision : Z)
    (draining terminal : bool) (r : EpisodeRow) : EpisodeRow :=
  {| e_volume_fingerprint := fingerprint; e_episode_id := e_episode_id r;
     e_started_unix := e_started_unix r; e_deadline_unix := e_deadline_unix r;
     e_drain_deadline_unix := e_drain_deadline_unix r; e_last_observed_unix := last_observed;
     e_reclaim_attempted := i64_of_bool reclaim; e_revision := revision;
     e_draining := i64_of_bool draining; e_terminal := i64_of_bool terminal |}.

(** ** Observations *)

(** The fingerprint an episode is left with, and whether it changed. *)
Definition rebound_fingerprint (ep : DiskPressureEpisode) (sampled : option string) : option string :=
  match ep_volume_fingerprint ep with Some f => Some f | None => sampled end.
Definition fingerprint_differs (ep : DiskPressureEpisode) (sampled : option string) : bool :=
  match ep_volume_fingerprint ep, sampled with
  | Some previous, Some observed => bool_decide (previous <> observed)
  | _, _ => false
  end.

(** Low or unknown free space. *)
Definition space_is_low (sample : DiskPressureFilesystemSample) : bool :=
  match fs_available_bytes sample, fs_volume_fingerprint sample with
  | Some available, Some _ => available <? fs_min_free_bytes sample
  | _, _ => true
  end.
Definition space_is_measurable (sample : DiskPressureFilesystemSample) : bool :=
  match fs_available_bytes sample, fs_volume_fingerprint sample with Some _, Some _ => true | _, _ => false end.

(** When a new episode starts, and its two deadlines. *)
Definition episode_start (clock : PressureClockSample) (now_unix : Z) : Z :=
  if pc_rollback clock then default now_unix (pc_high_water_before clock) else now_unix.

(** The clock of the roots went backwards, or behind the episode's own. *)
Definition episode_rollback (clock : PressureClockSample) (ep : DiskPressureEpisode) (now_unix : Z) : bool :=
  pc_rollback clock || (now_unix <? ep_last_observed_unix ep) || (now_unix <? ep_started_unix ep).

Definition last_observation (clock : PressureClockSample) (ep : DiskPressureEpisode) (now_unix : Z) : Z :=
  Z.max (Z.max (ep_last_observed_unix ep) now_unix) (default 0 (pc_high_water_before clock)).

Definition observe_existing (si : string) (sample : DiskPressureFilesystemSample)
    (clock : PressureClockSample) (ep : DiskPressureEpisode) (now_unix : Z) (db : JournalDb)
    : result (JournalDb * DiskPressureObservation) ReplayError :=
  let low := space_is_low sample in
  let sampled := fs_volume_fingerprint sample in
  let rollback := episode_rollback clock ep now_unix in
  let fingerprint := rebound_fingerprint ep sampled in
  let changed := fingerprint_differs ep sampled || pc_fingerprint_changed clock in
  let broken := rollback || changed in
  let confirmed := bool_decide (fingerprint = sampled) && pc_identity_confirmed clock
                   && negb (pc_late_binding clock) in
  if negb broken && negb low && negb (ep_terminal ep) && confirmed then
    let? deleted := delete_pressure_episode_alias_group si (fs_filesystem_id sample) (fs_alias_ids sample)
                      (ep_episode_id ep) (ep_revision ep) db in
    if negb deleted.2 then Err PressureStateInvalid
    else Ok (deleted.1, {| po_episode := None; po_cleared := true; po_reclaim_needed := false |})
  else
    let terminal := ep_terminal ep || broken in
    let draining := ep_draining ep || broken in
    let reclaim_needed :=
      low && space_is_measurable sample && confirmed
      && match ep_volume_fingerprint ep with Some _ => true | None => false end
      && negb (ep_reclaim_attempted ep) && negb terminal in
    let current :=
      {| ep_episode_id := ep_episode_id ep; ep_started_unix := ep_started_unix ep;
         ep_deadline_unix := ep_deadline_unix ep; ep_drain_deadline_unix := ep_drain_deadline_unix ep;
         ep_draining := draining || (low && (ep_deadline_unix ep <=? now_unix));
         ep_last_observed_unix := last_observation clock ep now_unix;
         ep_reclaim_attempted := ep_reclaim_attempted ep || reclaim_needed;
         ep_revision := ep_revision ep + 1;
         ep_terminal := terminal || (low && (ep_drain_deadline_unix ep <=? now_unix));
         ep_volume_fingerprint := fingerprint |} in
    let? revision := pressure_add (ep_revision ep) 1 in
    let? last_sql := disk_pressure_sql_integer (ep_last_observed_unix current) in
    let? revision_sql := disk_pressure_sql_integer revision in
    let? old_sql := disk_pressure_sql_integer (ep_revision ep) in
    let '(db, updated) := update_episode si (fs_filesystem_id sample) (ep_episode_id ep) old_sql
      (advanced_row fingerprint last_sql (ep_reclaim_attempted current) revision_sql
         (ep_draining current) (ep_terminal current)) db in
    if negb updated then Err PressureStateInvalid
    else Ok (db, {| po_episode := Some current; po_cleared := false; po_reclaim_needed := reclaim_needed |}).

(** [INSERT INTO disk_pressure_episodes]: a second row of the key violates the
    primary key. It is only reached when no row was found. *)
Definition insert_episode (si filesystem_id : string) (ep : DiskPressureEpisode) (db : JournalDb)
    : result JournalDb ReplayError :=
  let? row := episode_row ep in
  match j_episodes db !! (si, filesystem_id) with
  | Some _ => Err PressureStateInvalid
  | None => Ok (set_episodes (<[(si, filesystem_id) := row]> (j_episodes db)) db)
  end.

Definition observe_new (si : string) (sample : DiskPressureFilesystemSample) (clock : PressureClockSample)
    (degraded drain : Z) (uuid : string -> string) (now_unix : Z) (db : JournalDb)
    : result (JournalDb * DiskPressureObservation) ReplayError :=
  let low := space_is_low sample in
  let broken := pc_rollback clock || pc_fingerprint_changed clock in
  if negb (low || broken)
  then Ok (db, {| po_episode := None; po_cleared := false; po_reclaim_needed := false |})
  else
    let? degraded := disk_pressure_u64 degraded in
    let? drain := disk_pressure_u64 drain in
    let started := episode_start clock now_unix in
    let? deadline := pressure_add started degraded in
    let? drain_deadline := pressure_add deadline drain in
    let claim := low && space_is_measurable sample && pc_identity_confirmed clock
                 && negb (pc_late_binding clock) && negb broken in
    let created :=
      {| ep_episode_id := uuid (fs_filesystem_id sample); ep_started_unix := started;
         ep_deadline_unix := deadline; ep_drain_deadline_unix := drain_deadline;
         ep_draining := broken || (low && (deadline <=? now_unix));
         ep_last_observed_unix := Z.max now_unix (default 0 (pc_high_water_before clock));
         ep_reclaim_attempted := claim; ep_revision := 1;
         ep_terminal := broken || (low && (drain_deadline <=? now_unix));
         ep_volume_fingerprint := pc_trusted_fingerprint clock |} in
    let? db := insert_episode si (fs_filesystem_id sample) created db in
    Ok (db, {| po_episode := Some created; po_cleared := false; po_reclaim_needed := claim |}).

Definition observe_disk_pressure_in_transaction (si : string) (sample : DiskPressureFilesystemSample)
    (degraded drain : Z) (uuid : string -> string) (now_unix : Z) (db : JournalDb)
    : result (JournalDb * DiskPressureObservation) ReplayError :=
  let? clocked := persist_pressure_clock_samples si sample now_unix db in
  let? db := merge_pressure_alias_episodes si sample clocked.2 clocked.1 in
  let? episode := load_disk_pressure_episode db si (fs_filesystem_id sample) in
  match episode with
  | Some ep => observe_existing si sample clocked.2 ep now_unix db
  | None => observe_new si sample clocked.2 degraded drain uuid now_unix db
  end.

(** The controller's observation moves an episode along and never clears it. *)
Definition advance_existing (si : string) (sample : DiskPressureFilesystemSample)
    (clock : PressureClockSample) (ep : DiskPressureEpisode) (now_unix : Z) (db : JournalDb)
    : result JournalDb ReplayError :=
  let low := space_is_low sample in
  let sampled := fs_volume_fingerprint sample in
  let broken := episode_rollback clock ep now_unix
                || (fingerprint_differs ep sampled || pc_fingerprint_changed clock) in
  let? revision := pressure_add (ep_revision ep) 1 in
  let? revision_sql := disk_pressure_sql_integer revision in
  let? last_sql := disk_pressure_sql_integer (last_observation clock ep now_unix) in
  let? old_sql := disk_pressure_sql_integer (ep_revision ep) in
  let '(db, updated) := update_episode si (fs_filesystem_id sample) (ep_episode_id ep) old_sql
    (advanced_row (rebound_fingerprint ep sampled) last_sql (ep_reclaim_attempted ep) revision_sql
       (ep_draining ep || (broken || (low && (ep_deadline_unix ep <=? now_unix))))
       (ep_terminal ep || (broken || (low && (ep_drain_deadline_unix ep <=? now_unix))))) db in
  if negb updated then Err PressureStateInvalid else Ok db.

Definition advance_new (si : string) (sample : DiskPressureFilesystemSample) (clock : PressureClockSample)
    (degraded drain : Z) (uuid : string -> string) (now_unix : Z) (db : JournalDb)
    : result JournalDb ReplayError :=
  let broken := pc_rollback clock || pc_fingerprint_changed clock in
  if negb (space_is_low sample) && negb broken then Ok db
  else
    let? degraded := disk_pressure_u64 degraded in
    let? drain := disk_pressure_u64 drain in
    let started := episode_start clock now_unix in
    let? deadline := pressure_add started degraded in
    let? drain_deadline := pressure_add deadline drain in
    insert_episode si (fs_filesystem_id sample)
      {| ep_episode_id := uuid (fs_filesystem_id sample); ep_started_unix := started;
         ep_deadline_unix := deadline; ep_drain_deadline_unix := drain_deadline;
         ep_draining := broken || (deadline <=? now_unix);
         ep_last_observed_unix := Z.max now_unix (default 0 (pc_high_water_before clock));
         ep_reclaim_attempted := false; ep_revision := 1;
         ep_terminal := broken || (drain_deadline <=? now_unix);
         ep_volume_fingerprint := pc_trusted_fingerprint clock |} db.

Definition advance_controller_pressure_sample (si : string) (sample : DiskPressureFilesystemSample)
    (degraded drain : Z) (uuid : string -> string) (now_unix : Z) (db : JournalDb)
    : result JournalDb ReplayError :=
  let? clocked := persist_pressure_clock_samples si sample now_unix db in
  let? db := merge_pressure_alias_episodes si sample clocked.2 clocked.1 in
  let? episode := load_disk_pressure_episode db si (fs_filesystem_id sample) in
  match episode with
  | Some ep => advance_existing si sample clocked.2 ep now_unix db
  | None => advance_new si sample clocked.2 degraded drain uuid now_unix db
  end.
