(* ===== verification/PressureOps.v ===== *)
(** * Disk pressure: the operations of the journal

    The public pressure operations of [crates/velnor-control/src/journal.rs]
    on the episodes: the observation of a worker, the controller's advance of
    measured and of unmeasurable roots, the retirement of roots that are no
    longer configured, the claim of the one cleanup, the clearing of a healthy
    episode, the rebinding to a replaced volume and the reads; and the
    terminal fence, which turns a terminal episode into fenced slots and
    revoked leases in the same transaction. *)

From S2P Require Import Prelude Numerals NodeModel JournalData JournalReduce JournalInv JournalStore JournalReplay PressureData PressureEpisodes.
From Stdlib Require Import String.
From stdpp Require Import base gmap list strings sorting.
#[local] Open Scope Z_scope.
#[local] Open Scope result_scope.

Definition string_le (a b : string) : Prop := String.leb a b = true.
#[export] Instance string_le_dec : RelDecision string_le.
Proof. intros a b. unfold string_le. apply _. Defined.

(** The episodes of a service, [ORDER BY filesystem_id]. *)
Definition episode_ids (si : string) (db : JournalDb) : list string :=
  merge_sort string_le (map_to_list (filter (fun kr => kr.1.1 = si) (j_episodes db))).*1.*2.

(** The samples of one batch name every root once. *)
Fixpoint roots_distinct (roots seen : list string) : result (list string) ReplayError :=
  match roots with
  | [] => Ok seen
  | root :: roots =>
      let? _ := validate_disk_pressure_key root in
      if bool_decide (root ∈ seen) then Err PressureStateInvalid else roots_distinct roots (seen ++ [root])
  end.
Fixpoint samples_valid (samples : list DiskPressureFilesystemSample) (seen : list string)
    : result unit ReplayError :=
  match samples with
  | [] => Ok tt
  | sample :: samples =>
      let? _ := match fs_volume_fingerprint sample with
                | Some fingerprint => validate_disk_pressure_key fingerprint
                | None => Ok tt
                end in
      let? seen := roots_distinct (fs_filesystem_id sample :: fs_alias_ids sample) seen in
      samples_valid samples seen
  end.

(** [UPDATE disk_pressure_launches SET active = 0 WHERE service_instance = ?1]. *)
Definition revoke_all (si : string) (db : JournalDb) : JournalDb :=
  set_launches (update_rows (fun k _ => bool_decide (k.1 = si)) inactive (j_launches db)) db.

Section Operations.
Context (encode : Event -> string) (decode_baseline : string -> option ReplayBaseline).
Context (sha256_hex : string -> string).

(** ** The terminal fence *)

(** The loop of [persist_pressure_terminal_slot_fences] over the slots. *)
Fixpoint fence_slots (clock : Z) (si : string) (todo : list SlotRecord) (st : FleetState) (db : JournalDb)
    : result (FleetState * JournalDb) ReplayError :=
  match todo with
  | [] => Ok (st, db)
  | s :: todo =>
      let db := set_launches (update_rows (fun k _ => bool_decide (k = (si, s_slot_id s))) inactive
                                (j_launches db)) db in
      if bool_decide (s_phase s = Fenced) then fence_slots clock si todo st db
      else
        let event := stamp_event clock (Ev.DiskPressureTerminalFence (s_slot_id s) (s_generation s)) in
        let outcome := reduce clock st event in
        if rejected outcome then Err PressureStateInvalid
        else
          let? _ := disk_pressure_sql_integer (s_generation s) in
          fence_slots clock si todo (state outcome)
            (set_log (j_events db ++ [event_row encode sha256_hex event]) (j_tables db) db)
  end.

Definition persist_pressure_terminal_slot_fences (clock : Z) (si : string) (db : JournalDb)
    : result JournalDb ReplayError :=
  if negb (terminal_episode si db) then Ok db
  else
    let? st := load_state_of db in
    if capacity_invalid st then Err CapacityInvalid
    else
      let? fenced := fence_slots clock si (slots st) st db in
      let? tables := persist_state decode_baseline sha256_hex (j_tables fenced.2) fenced.1 in
      Ok (set_log (j_events fenced.2) tables fenced.2).

(** ** Observations *)

Fixpoint observe_samples (si : string) (samples : list DiskPressureFilesystemSample) (degraded drain : Z)
    (uuid : string -> string) (now_unix : Z) (db : JournalDb)
    : result (JournalDb * list (string * DiskPressureObservation)) ReplayError :=
  match samples with
  | [] => Ok (db, [])
  | sample :: samples =>
      let? observed := observe_disk_pressure_in_transaction si sample degraded drain uuid now_unix db in
      let? rest := observe_samples si samples degraded drain uuid now_unix observed.1 in
      Ok (rest.1, (fs_filesystem_id sample, observed.2) :: rest.2)
  end.

Definition observed_terminal (o : string * DiskPressureObservation) : bool :=
  match po_episode o.2 with Some ep => ep_terminal ep | None => false end.

Definition observe_disk_pressure_roots (clock : Z) (h : Handle) (si : string) (slot_id : SlotId)
    (generation : Generation) (nonce : string) (samples : list DiskPressureFilesystemSample)
    (degraded_seconds drain_seconds : Z) (uuid : string -> string) (now_unix : Z) (db : JournalDb)
    : result (JournalDb * list (string * DiskPressureObservation)) ReplayError :=
  let? _ := validate_worker_context h si slot_id generation nonce in
  let? _ := validate_disk_pressure_key si in
  let? _ := validate_pressure_service_instance h si db in
  let? _ := validate_disk_pressure_keys [slot_id; nonce] in
  if bool_decide (length samples = 0%nat) then Err PressureStateInvalid
  else
    let? _ := samples_valid samples [] in
    let? _ := disk_pressure_sql_integer now_unix in
    let? generation_sql := disk_pressure_sql_integer generation in
    let? degraded := disk_pressure_sql_integer degraded_seconds in
    let? drain := disk_pressure_sql_integer drain_seconds in
    let? db := begin_pressure_write decode_baseline sha256_hex h si db in
    let? current := disk_pressure_launch_is_current db
      {| wl_service_instance := si; wl_slot_id := slot_id; wl_generation := generation_sql;
         wl_launch_nonce := nonce |} in
    if negb current then Err LaunchFenced
    else
      let? observed := observe_samples si samples degraded drain uuid now_unix db in
      if existsb observed_terminal observed.2 then
        let? db := persist_pressure_terminal_slot_fences clock si observed.1 in
        Ok (db, observed.2)
      else Ok observed.

(** ** The controller's advance *)

Fixpoint advance_samples (si : string) (samples : list DiskPressureFilesystemSample) (degraded drain : Z)
    (uuid : string -> string) (now_unix : Z) (db : JournalDb) : result JournalDb ReplayError :=
  match samples with
  | [] => Ok db
  | sample :: samples =>
      let? db := advance_controller_pressure_sample si sample degraded drain uuid now_unix db in
      advance_samples si samples degraded drain uuid now_unix db
  end.

Definition advance_disk_pressure_roots (clock : Z) (h : Handle) (si : string)
    (samples : list DiskPressureFilesystemSample) (degraded_seconds drain_seconds : Z)
    (uuid : string -> string) (now_unix : Z) (db : JournalDb) : result JournalDb ReplayError :=
  let? _ := require_controller_authority h db in
  let? _ := validate_disk_pressure_key si in
  let? _ := validate_pressure_service_instance h si db in
  if bool_decide (length samples = 0%nat) then Err PressureStateInvalid
  else
    let? _ := disk_pressure_sql_integer now_unix in
    let? degraded := disk_pressure_sql_integer degraded_seconds in
    let? drain := disk_pressure_sql_integer drain_seconds in
    let? _ := samples_valid samples [] in
    let? db := begin_pressure_write decode_baseline sha256_hex h si db in
    let? db := advance_samples si samples degraded drain uuid now_unix db in
    persist_pressure_terminal_slot_fences clock si db.

(** The sample of a root that cannot be measured. *)
Definition unknown_sample (filesystem_id : string) : DiskPressureFilesystemSample :=
  {| fs_filesystem_id := filesystem_id; fs_alias_ids := []; fs_available_bytes := None;
     fs_min_free_bytes := 0; fs_volume_fingerprint := None |}.

Definition advance_unmeasurable_disk_pressure (clock : Z) (h : Handle) (si : string)
    (degraded_seconds drain_seconds : Z) (uuid : string -> string) (now_unix : Z) (db : JournalDb)
    : result (JournalDb * (bool * bool)) ReplayError :=
  let? _ := require_controller_authority h db in
  let? _ := validate_disk_pressure_key si in
  let? _ := validate_pressure_service_instance h si db in
  let? _ := disk_pressure_sql_integer now_unix in
  let? degraded := disk_pressure_sql_integer degraded_seconds in
  let? drain := disk_pressure_sql_integer drain_seconds in
  let? db := begin_pressure_write decode_baseline sha256_hex h si db in
  let? db := advance_samples si (map unknown_sample (episode_ids si db)) degraded drain uuid now_unix db in
  let? db := persist_pressure_terminal_slot_fences clock si db in
  let? reached := pressure_episode_stages si db in
  Ok (db, reached).

(** ** Retirement *)

(** [SET draining = 1, terminal = 1, revision = ?1]. *)
Definition retired_row (revision : Z) (r : EpisodeRow) : EpisodeRow :=
  {| e_volume_fingerprint := e_volume_fingerprint r; e_episode_id := e_episode_id r;
     e_started_unix := e_started_unix r; e_deadline_unix := e_deadline_unix r;
     e_drain_deadline_unix := e_drain_deadline_unix r; e_last_observed_unix := e_last_observed_unix r;
     e_reclaim_attempted := e_reclaim_attempted r; e_revision := revision;
     e_draining := 1; e_terminal := 1 |}.

Fixpoint retire_rows (si : string) (ids : list string) (db : JournalDb) : result JournalDb ReplayError :=
  match ids with
  | [] => Ok db
  | id :: ids =>
      match j_episodes db !! (si, id) with
      | None => retire_rows si ids db
      | Some r =>
          let? revision := disk_pressure_u64 (e_revision r) in
          let? next := pressure_add revision 1 in
          let? next := disk_pressure_sql_integer next in
          retire_rows si ids (set_episodes (<[(si, id) := retired_row next r]> (j_episodes db)) db)
      end
  end.

(** [DELETE .. AND terminal = 1]. *)
Definition delete_terminal (si : string) (db : JournalDb) (id : string) : JournalDb :=
  match j_episodes db !! (si, id) with
  | Some r => if e_terminal r =? 1 then set_episodes (delete (si, id) (j_episodes db)) db else db
  | None => db
  end.

Definition retire_unobserved_disk_pressure_episodes (clock : Z) (h : Handle) (si : string)
    (observed : list string) (complete : bool) (db : JournalDb) : result JournalDb ReplayError :=
  let? _ := require_controller_authority h db in
  let? _ := validate_disk_pressure_key si in
  let? _ := validate_pressure_service_instance h si db in
  if negb complete then Ok db
  else if bool_decide (observed = []) then Err PressureStateInvalid
  else
    let? _ := validate_disk_pressure_keys observed in
    let? db := begin_pressure_write decode_baseline sha256_hex h si db in
    match List.filter (fun id => negb (bool_decide (id ∈ observed))) (episode_ids si db) with
    | [] => Ok db
    | unobserved =>
        let? db := retire_rows si unobserved db in
        let? db := persist_pressure_terminal_slot_fences clock si (revoke_all si db) in
        let? st := load_state_of db in
        Ok (if pressure_state_slots_are_safe st then fold_left (delete_terminal si) unobserved db else db)
    end.

(** ** Reads *)

Definition disk_pressure_state (h : Handle) (si : string) (db : JournalDb)
    : result (bool * bool * bool) ReplayError :=
  let? _ := validate_disk_pressure_key si in
  let? _ := validate_pressure_service_instance h si db in
  let? _ := validate_replay_integrity_before_read decode_baseline sha256_hex db in
  let? reached := pressure_episode_stages si db in
  Ok (negb (bool_decide (length (episodes_of si db) = 0%nat)), reached.1, reached.2).

Definition disk_pressure_episode (h : Handle) (si filesystem_id : string) (db : JournalDb)
    : result (option DiskPressureEpisode) ReplayError :=
  let? _ := validate_disk_pressure_key si in
  let? _ := validate_pressure_service_instance h si db in
  let? _ := validate_disk_pressure_key filesystem_id in
  let? _ := validate_replay_integrity_before_read decode_baseline sha256_hex db in
  load_disk_pressure_episode db si filesystem_id.

(** ** The one cleanup *)

(** [SET reclaim_attempted = 1, revision, last_observed_unix]. *)
Definition claimed_row (revision last_observed : Z) (r : EpisodeRow) : EpisodeRow :=
  {| e_volume_fingerprint := e_volume_fingerprint r; e_episode_id := e_episode_id r;
     e_started_unix := e_started_unix r; e_deadline_unix := e_deadline_unix r;
     e_drain_deadline_unix := e_drain_deadline_unix r; e_last_observed_unix := last_observed;
     e_reclaim_attempted := 1; e_revision := revision;
     e_draining := e_draining r; e_terminal := e_terminal r |}.

Definition claim_refused (ep expected : DiskPressureEpisode) (fingerprint : string) (now_unix : Z) : bool :=
  bool_decide (ep_episode_id ep <> ep_episode_id expected)
  || negb (ep_revision ep =? ep_revision expected)
  || bool_decide (ep_volume_fingerprint ep <> Some fingerprint)
  || ep_reclaim_attempted ep || ep_draining ep || ep_terminal ep
  || (now_unix <? ep_started_unix ep) || (ep_deadline_unix ep <=? now_unix).

Definition claim_disk_pressure_reclaim (h : Handle) (si filesystem_id : string) (alias_ids : list string)
    (expected : DiskPressureEpisode) (available_bytes min_free_bytes : Z) (fingerprint : string)
    (now_unix : Z) (db : JournalDb) : result (JournalDb * bool) ReplayError :=
  let? _ := require_controller_authority h db in
  let? _ := validate_disk_pressure_key si in
  let? _ := validate_pressure_service_instance h si db in
  let? _ := validate_disk_pressure_key filesystem_id in
  let? _ := validate_disk_pressure_keys alias_ids in
  let? _ := validate_disk_pressure_key fingerprint in
  let? _ := disk_pressure_sql_integer now_unix in
  if min_free_bytes <=? available_bytes then Ok (db, false)
  else
    let? db := begin_pressure_write decode_baseline sha256_hex h si db in
    let? high_water := confirmed_pressure_observation_group_high_water si filesystem_id alias_ids fingerprint db in
    match high_water with
    | None => Ok (db, false)
    | Some high_water =>
        if now_unix <? high_water then Ok (db, false)
        else
          let? current := load_disk_pressure_episode db si filesystem_id in
          match current with
          | None => Ok (db, false)
          | Some ep =>
              if claim_refused ep expected fingerprint now_unix then Ok (db, false)
              else
                let? revision := pressure_add (ep_revision ep) 1 in
                let? revision_sql := disk_pressure_sql_integer revision in
                let? last_sql := disk_pressure_sql_integer (Z.max (ep_last_observed_unix ep) now_unix) in
                let? old_sql := disk_pressure_sql_integer (ep_revision ep) in
                match j_episodes db !! (si, filesystem_id) with
                | Some r =>
                    if row_is (ep_episode_id ep) old_sql r && (e_reclaim_attempted r =? 0)
                       && (e_draining r =? 0) && (e_terminal r =? 0)
                    then Ok (set_episodes (<[(si, filesystem_id) := claimed_row revision_sql last_sql r]>
                                             (j_episodes db)) db, true)
                    else Ok (db, false)
                | None => Ok (db, false)
                end
          end
    end.

(** ** Clearing *)

(** [SET revision, draining = 1, terminal = 1, last_observed_unix]. *)
Definition rolled_back_row (revision last_observed : Z) (r : EpisodeRow) : EpisodeRow :=
  {| e_volume_fingerprint := e_volume_fingerprint r; e_episode_id := e_episode_id r;
     e_started_unix := e_started_unix r; e_deadline_unix := e_deadline_unix r;
     e_drain_deadline_unix := e_drain_deadline_unix r; e_last_observed_unix := last_observed;
     e_reclaim_attempted := e_reclaim_attempted r; e_revision := revision;
     e_draining := 1; e_terminal := 1 |}.

Definition clear_disk_pressure_episode_if_healthy (h : Handle) (si filesystem_id : string)
    (alias_ids : list string) (expected : DiskPressureEpisode) (available_bytes min_free_bytes : Z)
    (fingerprint : string) (now_unix : Z) (db : JournalDb) : result (JournalDb * bool) ReplayError :=
  let? _ := require_controller_authority h db in
  let? _ := validate_disk_pressure_key si in
  let? _ := validate_pressure_service_instance h si db in
  let? _ := validate_disk_pressure_key filesystem_id in
  let? _ := validate_disk_pressure_keys alias_ids in
  if available_bytes <? min_free_bytes then Ok (db, false)
  else
    let? db := begin_pressure_write decode_baseline sha256_hex h si db in
    let? high_water := confirmed_pressure_observation_group_high_water si filesystem_id alias_ids fingerprint db in
    match high_water with
    | None => Ok (db, false)
    | Some high_water =>
        let? current := load_disk_pressure_episode db si filesystem_id in
        match current with
        | None => Ok (db, false)
        | Some ep =>
            if bool_decide (ep_episode_id ep <> ep_episode_id expected)
               || negb (ep_revision ep =? ep_revision expected)
            then Ok (db, false)
            else if bool_decide (ep_volume_fingerprint ep <> Some fingerprint)
                    || bool_decide (ep_volume_fingerprint expected <> Some fingerprint)
            then Ok (db, false)
            else
              let? safe := if ep_terminal ep
                           then let? st := load_state_of db in Ok (pressure_state_slots_are_safe st)
                           else Ok true in
              if negb safe then Ok (db, false)
              else
                let last_observed := Z.max (ep_last_observed_unix ep) high_water in
                if (now_unix <? last_observed) || (now_unix <? ep_started_unix ep) then
                  let? revision := pressure_add (ep_revision ep) 1 in
                  let? revision_sql := disk_pressure_sql_integer revision in
                  let? last_sql := disk_pressure_sql_integer last_observed in
                  let? old_sql := disk_pressure_sql_integer (ep_revision ep) in
                  Ok ((update_episode si filesystem_id (ep_episode_id ep) old_sql
                         (rolled_back_row revision_sql last_sql) db).1, false)
                else
                  let? revision_sql := disk_pressure_sql_integer (ep_revision ep) in
                  Ok (delete_group si filesystem_id (filesystem_id :: alias_ids) (ep_episode_id ep)
                        revision_sql db)
        end
    end.

(** ** A replaced volume *)

(** [SET volume_fingerprint, identity_confirmed = 1, last_observed_unix = MAX(..)]. *)
Definition rebound_row (fingerprint : string) (now_unix : Z) (r : ObservationRow) : ObservationRow :=
  {| ob_volume_fingerprint := Some fingerprint; ob_identity_confirmed := 1;
     ob_last_observed_unix := Z.max (ob_last_observed_unix r) now_unix |}.

(** The roots rebound in turn; the filesystem's own row must be there. *)
Fixpoint rebind_roots (si filesystem_id fingerprint : string) (now_unix : Z) (roots : list string)
    (db : JournalDb) : result JournalDb ReplayError :=
  match roots with
  | [] => Ok db
  | root :: roots =>
      match j_observations db !! (si, root) with
      | Some r => rebind_roots si filesystem_id fingerprint now_unix roots
                    (set_observations (<[(si, root) := rebound_row fingerprint now_unix r]> (j_observations db)) db)
      | None => if bool_decide (root = filesystem_id) then Err PressureStateInvalid
                else rebind_roots si filesystem_id fingerprint now_unix roots db
      end
  end.

Definition rebind_refused (ep expected : DiskPressureEpisode) : bool :=
  bool_decide (ep_episode_id ep <> ep_episode_id expected)
  || negb (ep_revision ep =? ep_revision expected) || negb (ep_terminal ep)
  || bool_decide (ep_volume_fingerprint ep <> ep_volume_fingerprint expected).

(** The transaction behind the refusals: the old episode is deleted, the roots
    take the new volume, every lease is revoked, and a low new volume starts an
    episode of its own. *)
Definition rebind_volume (si filesystem_id : string) (alias_ids : list string) (ep : DiskPressureEpisode)
    (available_bytes : option Z) (min_free_bytes : Z) (fingerprint : string)
    (degraded_seconds drain_seconds : Z) (uuid : string -> string) (now_unix : Z) (db : JournalDb)
    : result JournalDb ReplayError :=
  let? revision_sql := disk_pressure_sql_integer (ep_revision ep) in
  let '(db, deleted) := delete_episode si filesystem_id (ep_episode_id ep) revision_sql db in
  if negb deleted then Err PressureStateInvalid
  else
    let? db := rebind_roots si filesystem_id fingerprint now_unix (filesystem_id :: alias_ids) db in
    let db := revoke_all si db in
    if match available_bytes with Some available => available <? min_free_bytes | None => true end then
      let? deadline := pressure_add now_unix degraded_seconds in
      let? drain_deadline := pressure_add deadline drain_seconds in
      insert_episode si filesystem_id
        {| ep_episode_id := uuid filesystem_id; ep_started_unix := now_unix; ep_deadline_unix := deadline;
           ep_drain_deadline_unix := drain_deadline; ep_draining := false; ep_last_observed_unix := now_unix;
           ep_reclaim_attempted := false; ep_revision := 1; ep_terminal := false;
           ep_volume_fingerprint := Some fingerprint |} db
    else Ok db.

Definition rebind_disk_pressure_episode_if_safe (h : Handle) (si filesystem_id : string)
    (alias_ids : list string) (expected : DiskPressureEpisode) (available_bytes : option Z)
    (min_free_bytes : Z) (fingerprint : string) (degraded_seconds drain_seconds : Z)
    (uuid : string -> string) (now_unix : Z) (db : JournalDb) : result (JournalDb * bool) ReplayError :=
  let? _ := require_controller_authority h db in
  let? _ := validate_disk_pressure_key si in
  let? _ := validate_pressure_service_instance h si db in
  let? _ := validate_disk_pressure_key filesystem_id in
  let? _ := validate_disk_pressure_key fingerprint in
  let? now_sql := disk_pressure_sql_integer now_unix in
  if bool_decide (ep_volume_fingerprint expected = Some fingerprint) then Ok (db, false)
  else
    let? _ := validate_disk_pressure_keys alias_ids in
    let? db := begin_pressure_write decode_baseline sha256_hex h si db in
    let? current := load_disk_pressure_episode db si filesystem_id in
    match current with
    | None => Ok (db, false)
    | Some ep =>
        if rebind_refused ep expected then Ok (db, false)
        else match j_observations db !! (si, filesystem_id) with
        | None => Ok (db, false)
        | Some root =>
            if bool_decide (ob_volume_fingerprint root <> ep_volume_fingerprint expected) then Ok (db, false)
            else
              let? confirmed := disk_pressure_bool (ob_identity_confirmed root) in
              if confirmed : bool then Ok (db, false)
              else
                let? st := load_state_of db in
                if negb (pressure_state_slots_are_safe st) then Ok (db, false)
                else
                  let? high_water := disk_pressure_u64 (ob_last_observed_unix root) in
                  if (now_unix <? high_water) || (now_unix <? ep_started_unix ep) then Ok (db, false)
                  else
                    let? db := rebind_volume si filesystem_id alias_ids ep available_bytes min_free_bytes
                                 fingerprint degraded_seconds drain_seconds uuid now_unix db in
                    Ok (db, true)
        end
    end.

End Operations.
