(* ===== verification/PressureSteps.v ===== *)
(** * Disk pressure: every way to write the journal

    All writing operations of a journal handle as one alphabet, what each of
    them may touch, and the terminal fence as a function of the state it
    meets. An execution of several processes is a sequence of these
    operations, each a transaction of its own. A deferred transaction
    ([unchecked_transaction]) that read before it wrote fails when another
    process wrote in between, so a call that succeeds is as atomic as an
    immediate one. *)

From S2P Require Import Prelude Numerals NodeModel JournalData JournalReduce JournalInv JournalSafety JournalStore JournalStoreProofs JournalReplay JournalRefine PressureData PressureFences PressureEpisodes PressureOps.
From Stdlib Require Import String.
From stdpp Require Import base gmap list strings sorting.
#[local] Open Scope Z_scope.
#[local] Open Scope result_scope.

(** ** Results that are fine *)

Lemma bind_Ok {A B E} (r : result A E) (k : A -> result B E) y :
  result_bind r k = Ok y -> exists x, r = Ok x /\ k x = Ok y.
Proof. destruct r as [x|]; [|done]. by exists x. Qed.

(** Follow the one path on which a call succeeds. *)
Ltac ok_path H :=
  repeat (cbn zeta in H;
    match type of H with
    | result_bind _ _ = Ok _ =>
        let x := fresh "x" in let E := fresh "E" in apply bind_Ok in H as (x & E & H)
    | Err _ = Ok _ => discriminate H
    | (if ?b then Err _ else _) = Ok _ => let E := fresh "E" in destruct b eqn:E; [discriminate H|]
    | (if ?b then _ else Err _) = Ok _ => let E := fresh "E" in destruct b eqn:E; [|discriminate H]
    | (let '(_, _) := ?p in _) = Ok _ => let E := fresh "E" in destruct p as [? ?] eqn:E
    end).

Ltac ok_if H C :=
  cbn zeta in H; match type of H with (if ?b then _ else _) = _ => destruct b eqn:C end.

(** ** Operations *)

(** A writing call with its arguments. *)
Inductive JournalOp :=
| OpApplyMany (evs : list Event)
| OpApplyLaunch (si : string) (slot_id : SlotId) (generation : Z) (nonce : string) (ev : Event)
| OpIntend (si : string) (slot_id : SlotId) (generation : Z) (nonce : string) (job_id : JobId)
    (message_id url : string) (intended_unix : Z)
| OpResolve (si : string) (slot_id : SlotId) (generation : Z) (nonce : string) (provisional : JobId)
    (message_id : string) (acquired : JobId) (acquire_url job_url plan_id : string)
| OpResolveAt (slot_id : SlotId) (generation : Z) (provisional : JobId) (message_id : string)
    (acquired : JobId) (acquire_url job_url plan_id : string)
| OpAbandonAt (slot_id : SlotId) (generation : Z) (provisional : JobId) (message_id url reason : string)
| OpAbandonTerminal (si : string) (slot_id : SlotId) (generation : Z) (nonce : string) (provisional : JobId)
    (message_id url reason : string)
| OpConfirm (si : string) (slot_id : SlotId) (generation : Z) (acquired : JobId) (plan_id url : string)
| OpIssue (si : string) (slot_id : SlotId) (generation issued_unix : Z) (fresh : string)
| OpRevoke (si : string) (slot_id : SlotId) (generation : Z)
| OpObserve (si : string) (slot_id : SlotId) (generation : Z) (nonce : string)
    (samples : list DiskPressureFilesystemSample) (degraded drain : Z) (uuid : string -> string) (now_unix : Z)
| OpAdvance (si : string) (samples : list DiskPressureFilesystemSample) (degraded drain : Z)
    (uuid : string -> string) (now_unix : Z)
| OpAdvanceUnmeasurable (si : string) (degraded drain : Z) (uuid : string -> string) (now_unix : Z)
| OpRetire (si : string) (observed : list string) (complete : bool)
| OpClaim (si filesystem_id : string) (aliases : list string) (expected : DiskPressureEpisode)
    (available minimum : Z) (fingerprint : string) (now_unix : Z)
| OpClear (si filesystem_id : string) (aliases : list string) (expected : DiskPressureEpisode)
    (available minimum : Z) (fingerprint : string) (now_unix : Z)
| OpRebind (si filesystem_id : string) (aliases : list string) (expected : DiskPressureEpisode)
    (available : option Z) (minimum : Z) (fingerprint : string) (degraded drain : Z)
    (uuid : string -> string) (now_unix : Z)
| OpSetDrain (version : Z)
| OpClearDrain
| OpSetAdmission (version : Z)
| OpClearAdmission (expected : option Z).

Section Run.
Context (encode : Event -> string) (decode : string -> option Event).
Context (decode_baseline : string -> option ReplayBaseline) (sha256_hex : string -> string).

Definition database {A} (r : result (JournalDb * A) ReplayError) : result JournalDb ReplayError :=
  let? r := r in Ok r.1.

(** The database an operation leaves, at wall clock [clock]. *)
Definition run_op (clock : Z) (h : Handle) (op : JournalOp) (db : JournalDb) : result JournalDb ReplayError :=
  match op with
  | OpApplyMany evs =>
      database (apply_many_inner encode decode decode_baseline sha256_hex clock h no_fences evs db)
  | OpApplyLaunch si i g n ev =>
      database (apply_with_disk_pressure_launch encode decode decode_baseline sha256_hex clock h si i g n ev db)
  | OpIntend si i g n k m u t =>
      database (intend_acquisition_with_disk_pressure_launch encode decode decode_baseline sha256_hex clock h
                  si i g n k m u t db)
  | OpResolve si i g n k m a u1 u2 p =>
      database (resolve_acquisition_response encode decode decode_baseline sha256_hex clock h si i g n k m a u1 u2 p db)
  | OpResolveAt i g k m a u1 u2 p =>
      database (resolve_acquisition_response_at_endpoint encode decode decode_baseline sha256_hex clock h
                  i g k m a u1 u2 p db)
  | OpAbandonAt i g k m u why =>
      database (abandon_acquisition_response_at_endpoint encode decode decode_baseline sha256_hex clock h
                  i g k m u why db)
  | OpAbandonTerminal si i g n k m u why =>
      database (abandon_acquisition_after_disk_pressure_terminal encode decode decode_baseline sha256_hex clock h
                  si i g n k m u why db)
  | OpConfirm si i g a p u =>
      database (confirm_acquisition_after_disk_pressure_terminal encode decode decode_baseline sha256_hex clock h
                  si i g a p u db)
  | OpIssue si i g t fresh => database (issue_disk_pressure_launch decode_baseline sha256_hex h si i g t fresh db)
  | OpRevoke si i g => database (revoke_disk_pressure_launch decode_baseline sha256_hex h si i g db)
  | OpObserve si i g n samples d e uuid t =>
      database (observe_disk_pressure_roots encode decode_baseline sha256_hex clock h si i g n samples d e uuid t db)
  | OpAdvance si samples d e uuid t =>
      advance_disk_pressure_roots encode decode_baseline sha256_hex clock h si samples d e uuid t db
  | OpAdvanceUnmeasurable si d e uuid t =>
      database (advance_unmeasurable_disk_pressure encode decode_baseline sha256_hex clock h si d e uuid t db)
  | OpRetire si observed complete =>
      retire_unobserved_disk_pressure_episodes encode decode_baseline sha256_hex clock h si observed complete db
  | OpClaim si fs aliases ep a m f t =>
      database (claim_disk_pressure_reclaim decode_baseline sha256_hex h si fs aliases ep a m f t db)
  | OpClear si fs aliases ep a m f t =>
      database (clear_disk_pressure_episode_if_healthy decode_baseline sha256_hex h si fs aliases ep a m f t db)
  | OpRebind si fs aliases ep a m f d e uuid t =>
      database (rebind_disk_pressure_episode_if_safe decode_baseline sha256_hex h si fs aliases ep a m f d e uuid t db)
  | OpSetDrain v => database (set_drain decode_baseline sha256_hex h v db)
  | OpClearDrain => database (clear_drain decode_baseline sha256_hex h db)
  | OpSetAdmission v => database (set_admission_blocked decode_baseline sha256_hex h v db)
  | OpClearAdmission v => database (clear_admission_blocked_if decode_baseline sha256_hex h v db)
  end.

(** ** Guards *)

Lemma begin_write_owner w db : begin_write w db = Ok tt -> j_fence_exact db = true /\ j_identity db = w.
Proof. apply writer_is_owner. Qed.

Lemma pressure_service_context h si db :
  validate_pressure_service_instance h si db = Ok tt -> writer_context h = Some si.
Proof.
  unfold validate_pressure_service_instance. intros H. ok_path H. by apply bool_decide_eq_false, dec_stable in E0.
Qed.

(** A pressure write of the owner begins on the database as it is. *)
Lemma begin_pressure_write_same h si db db' :
  validate_pressure_service_instance h si db = Ok tt ->
  begin_pressure_write decode_baseline sha256_hex h si db = Ok db' -> db' = db /\ j_identity db = Some si.
Proof.
  intros V%pressure_service_context H. unfold begin_pressure_write in H. ok_path H. destruct x0.
  apply begin_write_owner in E0 as [_ I]. rewrite V in I. unfold bind_journal_service_instance in H.
  ok_path H. rewrite I in H. by injection H as <-.
Qed.

End Run.

(** The database a checked pressure write begins on. *)
Ltac begun :=
  match goal with
  | B : begin_pressure_write _ _ ?h ?si ?db = Ok _, V : validate_pressure_service_instance ?h ?si ?db = Ok ?u |- _ =>
      destruct u; apply begin_pressure_write_same in B as [-> ?]; [|exact V]
  end.

(** ** What an operation leaves alone *)

(** All but episodes and observations. *)
Record same_journal (db db' : JournalDb) : Prop := {
  sj_version : j_user_version db' = j_user_version db;
  sj_fence : j_fence_exact db' = j_fence_exact db;
  sj_legacy : j_legacy db' = j_legacy db;
  sj_identity : j_identity db' = j_identity db;
  sj_launches : j_launches db' = j_launches db;
  sj_events : j_events db' = j_events db;
  sj_tables : j_tables db' = j_tables db;
}.
#[export] Instance same_journal_preorder : PreOrder same_journal.
Proof.
  split; [intros db; by split|].
  intros a b c [] []. split; congruence.
Qed.

Lemma same_set_observations o db : same_journal db (set_observations o db).
Proof. by split. Qed.
Lemma same_set_episodes e db : same_journal db (set_episodes e db).
Proof. by split. Qed.
Create HintDb pressure.
#[export] Hint Resolve same_set_observations same_set_episodes : pressure.

Lemma clock_sample_same si fs sampled t db r :
  persist_pressure_clock_sample si fs sampled t db = Ok r ->
  same_journal db r.1 /\ j_episodes r.1 = j_episodes db.
Proof.
  unfold persist_pressure_clock_sample. intros H. ok_path H. destruct x0 as [[[? ?] ?] ?]. ok_path H.
  injection H as <-. by split.
Qed.

Lemma aliases_same si sampled t roots c db r :
  persist_aliases si sampled t roots c db = Ok r -> same_journal db r.1 /\ j_episodes r.1 = j_episodes db.
Proof.
  revert c db. induction roots as [|root roots IH]; intros c db H; cbn [persist_aliases] in H.
  - by injection H as <-.
  - ok_path H. apply clock_sample_same in E as [S1 E1]. apply IH in H as [S2 E2].
    split; [by etrans|congruence].
Qed.

Lemma clock_samples_same si sample t db r :
  persist_pressure_clock_samples si sample t db = Ok r ->
  same_journal db r.1 /\ j_episodes r.1 = j_episodes db.
Proof.
  unfold persist_pressure_clock_samples. intros H. ok_path H. apply clock_sample_same in E as [S1 E1].
  apply aliases_same in H as [S2 E2]. split; [by etrans|congruence].
Qed.

Lemma merge_same si sample c db db' :
  merge_pressure_alias_episodes si sample c db = Ok db' -> same_journal db db'.
Proof.
  unfold merge_pressure_alias_episodes. case_bool_decide as Al; [by intros [= <-]|]. intros H. ok_path H.
  destruct (sort_episodes _) as [|oldest rest]; [by injection H as <-|]. ok_path H. injection H as <-. by split.
Qed.

Lemma delete_episode_same si fs id rev db : same_journal db (delete_episode si fs id rev db).1.
Proof. unfold delete_episode. repeat case_match; auto with pressure; by split. Qed.
Lemma delete_group_same si fs ids id rev db acc :
  same_journal db (fold_left (fun acc root =>
    let '(db, deleted) := delete_episode si root id rev acc.1 in
    (db, if bool_decide (root = fs) then deleted else acc.2)) ids (db, acc)).1.
Proof.
  revert db acc. induction ids as [|root ids IH]; intros db acc; cbn [fold_left]; [done|].
  pose proof (delete_episode_same si root id rev db) as S.
  destruct (delete_episode si root id rev (db, acc).1) as [db1 d] eqn:E. cbn [fst] in E. rewrite E in S.
  etrans; [exact S|]. apply IH.
Qed.
Lemma alias_group_same si fs aliases id rev db r :
  delete_pressure_episode_alias_group si fs aliases id rev db = Ok r -> same_journal db r.1.
Proof. unfold delete_pressure_episode_alias_group. intros H. ok_path H. injection H as <-. apply delete_group_same. Qed.
Lemma update_episode_same si fs id rev f db : same_journal db (update_episode si fs id rev f db).1.
Proof. unfold update_episode. repeat case_match; auto with pressure; by split. Qed.
Lemma insert_episode_same si fs ep db db' : insert_episode si fs ep db = Ok db' -> same_journal db db'.
Proof.
  unfold insert_episode. intros H. ok_path H. destruct (j_episodes db !! (si, fs)); [done|]. injection H as <-. by split.
Qed.
#[export] Hint Resolve delete_episode_same update_episode_same insert_episode_same : pressure.

Lemma observe_same si sample d e uuid t db r :
  observe_disk_pressure_in_transaction si sample d e uuid t db = Ok r -> same_journal db r.1.
Proof.
  unfold observe_disk_pressure_in_transaction. intros H. ok_path H.
  apply clock_samples_same in E as [S1 _]. apply merge_same in E0.
  etrans; [exact S1|]. etrans; [exact E0|]. destruct x1 as [ep|].
  - unfold observe_existing in H. ok_if H C.
    + ok_path H. injection H as <-. by eapply alias_group_same.
    + ok_path H. injection H as <-. cbn [fst].
      match goal with E : update_episode ?a ?b ?c ?d ?f ?g = _ |- _ =>
        pose proof (update_episode_same a b c d f g) as S; rewrite E in S; exact S end.
  - unfold observe_new in H. ok_if H C; [by injection H as <-|]. ok_path H. injection H as <-.
    cbn [fst]. by eapply insert_episode_same.
Qed.

Lemma observe_samples_same si samples d e uuid t db r :
  observe_samples si samples d e uuid t db = Ok r -> same_journal db r.1.
Proof.
  revert db r. induction samples as [|s samples IH]; intros db r H; cbn [observe_samples] in H.
  - by injection H as <-.
  - ok_path H. injection H as <-. cbn [fst]. apply observe_same in E. apply IH in E0. by etrans.
Qed.

Lemma advance_same si sample d e uuid t db db' :
  advance_controller_pressure_sample si sample d e uuid t db = Ok db' -> same_journal db db'.
Proof.
  unfold advance_controller_pressure_sample. intros H. ok_path H.
  apply clock_samples_same in E as [S1 _]. apply merge_same in E0.
  etrans; [exact S1|]. etrans; [exact E0|]. destruct x1 as [ep|].
  - unfold advance_existing in H. ok_path H. injection H as <-.
    match goal with E : update_episode ?a ?b ?c ?d ?f ?g = _ |- _ =>
      pose proof (update_episode_same a b c d f g) as S; rewrite E in S; exact S end.
  - unfold advance_new in H. ok_if H C; [by injection H as <-|]. ok_path H.
    by eapply insert_episode_same.
Qed.

Lemma advance_samples_same si samples d e uuid t db db' :
  advance_samples si samples d e uuid t db = Ok db' -> same_journal db db'.
Proof.
  revert db. induction samples as [|s samples IH]; intros db H; cbn [advance_samples] in H.
  - by injection H as <-.
  - ok_path H. apply advance_same in E. apply IH in H. by etrans.
Qed.

Lemma retire_rows_same si ids db db' : retire_rows si ids db = Ok db' -> same_journal db db'.
Proof.
  revert db. induction ids as [|id ids IH]; intros db H; cbn [retire_rows] in H; [by injection H as <-|].
  destruct (j_episodes db !! (si, id)); [|auto]. ok_path H. apply IH in H. etrans; [|exact H]. apply same_set_episodes.
Qed.

Lemma delete_terminal_same si ids db : same_journal db (fold_left (delete_terminal si) ids db).
Proof.
  revert db. induction ids as [|id ids IH]; intros db; cbn [fold_left]; [done|].
  etrans; [|apply IH]. unfold delete_terminal. repeat case_match; by split.
Qed.

(** ** The terminal fence *)

Definition fenced_slot (s : SlotRecord) : SlotRecord := slot_set_phase Fenced s.
(** The events the fence logs. *)
Definition fence_events (l : list SlotRecord) : list Event :=
  map (fun s => Ev.DiskPressureTerminalFence (s_slot_id s) (s_generation s))
    (List.filter (fun s => negb (bool_decide (s_phase s = Fenced))) l).
(** The leases it leaves. *)
Definition revoked_leases (si : string) (ids : list SlotId) (l : gmap (string * SlotId) LaunchRow)
    : gmap (string * SlotId) LaunchRow :=
  update_rows (fun k _ => bool_decide (k.1 = si) && bool_decide (k.2 ∈ ids)) inactive l.

Lemma fenced_slot_id s : s_phase s = Fenced -> fenced_slot s = s.
Proof. destruct s. cbn. by intros ->. Qed.

Lemma inactive_idem r : inactive (inactive r) = inactive r.
Proof. done. Qed.

Lemma revoked_leases_cons si i ids l :
  revoked_leases si ids (update_rows (fun k _ => bool_decide (k = (si, i))) inactive l) = revoked_leases si (i :: ids) l.
Proof.
  apply map_eq. intros [si' i']. unfold revoked_leases. rewrite !lookup_update_rows, <- option_fmap_compose.
  destruct (l !! (si', i')) as [r|]; [|done]. cbn. f_equal.
  repeat case_bool_decide; simplify_eq; cbn [andb]; try done; exfalso; set_solver.
Qed.
Lemma revoked_leases_nil si l : revoked_leases si [] l = l.
Proof.
  apply map_eq. intros k. unfold revoked_leases. rewrite lookup_update_rows. destruct (l !! k); [|done]. cbn.
  by rewrite (bool_decide_eq_false_2 (k.2 ∈ [])), andb_false_r by apply not_elem_of_nil.
Qed.

(** Fencing one slot of a state whose slots are told apart by their ids. *)
Lemma reduce_fence_slot clock st pre s post :
  slots st = pre ++ s :: post -> s_slot_id s ∉ keys s_slot_id pre ->
  reduce clock st (Ev.DiskPressureTerminalFence (s_slot_id s) (s_generation s))
  = accept (set_slots (pre ++ fenced_slot s :: post) st) [Fx.FenceSlot (s_slot_id s) (s_generation s)].
Proof.
  intros S N. cbn [reduce]. unfold reduce_pressure_fence, slot_mut.
  assert (F : find_slot (s_slot_id s) st = Some s).
  { unfold find_slot. rewrite S. clear S. induction pre as [|x pre IH]; cbn [app].
    - by rewrite find_key_cons, decide_True.
    - cbn in N. apply not_elem_of_cons in N as [N1 N2]. rewrite find_key_cons, decide_False by done. by apply IH. }
  rewrite F, Z.eqb_refl. cbn [negb]. f_equal. unfold update_slot. f_equal. rewrite S. clear S F.
  induction pre as [|x pre IH]; cbn [app update_first].
  - by rewrite (proj2 (key_is_true s_slot_id _ s)).
  - cbn in N. apply not_elem_of_cons in N as [N1 N2].
    destruct (slot_is (s_slot_id s) x) eqn:E; [by apply key_is_true in E|]. by rewrite IH.
Qed.

Lemma fenced_prefix pre s todo :
  NoDup (keys s_slot_id (pre ++ s :: todo)) -> s_slot_id s ∉ keys s_slot_id (map fenced_slot pre).
Proof.
  unfold keys. rewrite fmap_app. intros (_ & ND & _)%NoDup_app (x & E & X)%list_elem_of_fmap.
  apply list_elem_of_fmap in X as (y & -> & Y). apply (ND (s_slot_id y)).
  - apply list_elem_of_fmap. by exists y.
  - change (s_slot_id s = s_slot_id y) in E. rewrite <- E. by left.
Qed.

Section Fence.
Context (encode : Event -> string) (decode_baseline : string -> option ReplayBaseline).
Context (sha256_hex : string -> string).
#[local] Abbreviation row := (event_row encode sha256_hex).
#[local] Abbreviation fence_fleet := (persist_pressure_terminal_slot_fences encode decode_baseline sha256_hex).

(** The whole loop: every slot fenced, one event per slot that was not, and
    the lease of every slot revoked. *)
Lemma fence_slots_all clock si st todo pre db :
  NoDup (keys s_slot_id (pre ++ todo)) -> Forall (fun s => s_generation s <= i64_max) todo ->
  fence_slots encode sha256_hex clock si todo (set_slots (map fenced_slot pre ++ todo) st) db
  = Ok (set_slots (map fenced_slot (pre ++ todo)) st,
        set_log (j_events db ++ map row (fence_events todo)) (j_tables db)
          (set_launches (revoked_leases si (map s_slot_id todo) (j_launches db)) db)).
Proof.
  revert pre db. induction todo as [|s todo IH]; intros pre db ND G; cbn [fence_slots].
  - cbn. rewrite revoked_leases_nil, !app_nil_r. by destruct db.
  - apply Forall_cons in G as [G1 G]. cbn [set_launches j_launches j_events j_tables set_log].
    assert (ND' : NoDup (keys s_slot_id ((pre ++ [s]) ++ todo))) by (by rewrite <- app_assoc).
    unfold fence_events. cbn [List.filter]. case_bool_decide as P; cbn [negb].
    + pose proof (IH (pre ++ [s]) (set_launches (update_rows (fun k _ => bool_decide (k = (si, s_slot_id s))) inactive
        (j_launches db)) db) ND' G) as H.
      rewrite map_app, <- app_assoc in H. cbn [map app] in H. rewrite fenced_slot_id in H by done.
      rewrite H. rewrite <- app_assoc. cbn [map app set_launches j_launches j_events j_tables].
      by rewrite revoked_leases_cons.
    + cbn [stamp_event]. rewrite (reduce_fence_slot _ _ (map fenced_slot pre) s todo);
        [|done|by apply fenced_prefix with todo].
      cbn [rejected accept state]. unfold disk_pressure_sql_integer. rewrite (proj2 (Z.leb_le _ _) G1). cbn [result_bind].
      match goal with |- fence_slots _ _ _ _ _ ?s0 ?d0 = _ =>
        pose proof (IH (pre ++ [s]) d0 ND' G) as H end.
      rewrite map_app, <- app_assoc in H. cbn [map app] in H.
      change (set_slots ?l (set_slots ?l' st)) with (set_slots l st). rewrite H, <- app_assoc.
      cbn [map app set_launches set_log j_launches j_events j_tables]. rewrite revoked_leases_cons.
      unfold fence_events. by rewrite <- app_assoc.
Qed.

(** What the fence does to a database with a terminal episode. *)
Lemma fence_fleet_terminal clock si db st :
  terminal_episode si db = true -> load_state_of db = Ok st -> capacity_invalid st = false ->
  NoDup (keys s_slot_id (slots st)) -> Forall (fun s => s_generation s <= i64_max) (slots st) ->
  fence_fleet clock si db
  = let? tables := persist_state decode_baseline sha256_hex (j_tables db)
                     (set_slots (map fenced_slot (slots st)) st) in
    Ok (set_log (j_events db ++ map row (fence_events (slots st))) tables
          (set_launches (revoked_leases si (map s_slot_id (slots st)) (j_launches db)) db)).
Proof.
  intros T L C ND G. unfold persist_pressure_terminal_slot_fences. rewrite T, L. cbn [negb result_bind]. rewrite C.
  pose proof (fence_slots_all clock si st (slots st) [] db ND G) as H. cbn [app map] in H.
  replace (set_slots (slots st) st) with st in H by (by destruct st). rewrite H. done.
Qed.
End Fence.

(** * The effect of every operation

    Each operation either leaves log and fleet tables as they are, or changes
    the lifecycle markers only, or writes one batch of events through the
    reducer; and apart from the issuing of a lease, it leaves the leases as
    they were or revokes them. *)

(** ** Leases *)

(** No lease appears or comes back to life. *)
Definition leases_fade (db db' : JournalDb) : Prop :=
  forall k r', j_launches db' !! k = Some r' ->
    exists r, j_launches db !! k = Some r /\ (r' = r \/ r' = inactive r).

#[export] Instance leases_fade_preorder : PreOrder leases_fade.
Proof.
  split.
  - intros db k r E. eauto.
  - intros a b c F G k r'' E. destruct (G _ _ E) as (r' & E' & H'). destruct (F _ _ E') as (r & E0 & H0).
    exists r. split; [done|]. destruct H' as [->| ->], H0 as [->| ->]; auto.
Qed.

Lemma fade_update p db : leases_fade db (set_launches (update_rows p inactive (j_launches db)) db).
Proof.
  intros k r'. cbn [set_launches j_launches]. rewrite lookup_update_rows.
  destruct (j_launches db !! k) as [r|]; [|done]. cbn. intros [= <-]. exists r. split; [done|]. destruct (p k r); auto.
Qed.
Lemma fade_same db db' : j_launches db' = j_launches db -> leases_fade db db'.
Proof. intros E k r. rewrite E. eauto. Qed.

Lemma deactivate_fade service fenced l l' db :
  deactivate_launches service fenced l = Ok l' -> leases_fade (set_launches l db) (set_launches l' db).
Proof.
  revert l. induction fenced as [|f fenced IH]; intros l H; cbn [deactivate_launches] in H; [by injection H as <-|].
  ok_path H. etrans; [|by apply IH]. unfold deactivate_launch in E. destruct service as [si|].
  - injection E as <-. apply (fade_update _ (set_launches l db)).
  - ok_path E. by injection E as <-.
Qed.

(** ** Log and tables *)

Definition fresh_writer (st : FleetState) : Writer :=
  {| w_state := st; w_outcomes := []; w_pending := []; w_fenced := [] |}.

Section Effects.
Context (encode : Event -> string) (decode : string -> option Event).
Context (decode_baseline : string -> option ReplayBaseline) (sha256_hex : string -> string).
#[local] Abbreviation row := (event_row encode sha256_hex).

Definition same_but_markers (m m' : gmap string string) : Prop :=
  forall k, k <> "drain" -> k <> "admission" -> m' !! k = m !! k.

(** Written at wall clock [clock]. A batch that admits work needs [free], and
    with [fit] the generations of its events fit their columns. *)
Inductive written (clock : Z) (free fit : Prop) (db db' : JournalDb) : Prop :=
| written_nothing :
    j_events db' = j_events db -> j_tables db' = j_tables db -> written clock free fit db db'
| written_markers :
    j_events db' = j_events db -> t_slots (j_tables db') = t_slots (j_tables db) ->
    t_jobs (j_tables db') = t_jobs (j_tables db) -> t_outbox (j_tables db') = t_outbox (j_tables db) ->
    same_but_markers (t_meta (j_tables db)) (t_meta (j_tables db')) ->
    written clock free fit db db'
| written_batch st gd p evs w :
    load_state_of db = Ok st -> capacity_invalid st = false ->
    write_all gd clock p (fresh_writer st) evs = Ok w ->
    j_events db' = j_events db ++ map row (w_pending w) ->
    persist_rows (j_tables db) (w_state w) = Ok (j_tables db') ->
    Forall (fun ev => admits_work ev = false) (w_pending w) \/ free ->
    (fit -> Forall (fun ev => fits (event_generation ev)) evs) ->
    written clock free fit db db'.

Record effect (clock : Z) (free fit : Prop) (db db' : JournalDb) : Prop := {
  ef_legacy : j_legacy db' = j_legacy db;
  ef_identity : j_identity db' = j_identity db;
  ef_leases : leases_fade db db';
  ef_written : written clock free fit db db';
}.

Lemma effect_same clock free fit db db' : same_journal db db' -> effect clock free fit db db'.
Proof. intros []. split; [done..|by apply fade_same|by apply written_nothing]. Qed.
Lemma effect_refl clock free fit db : effect clock free fit db db.
Proof. by apply effect_same. Qed.

Lemma load_state_same db db' :
  j_legacy db' = j_legacy db -> j_tables db' = j_tables db -> load_state_of db' = load_state_of db.
Proof. unfold load_state_of. by intros -> ->. Qed.

Lemma effect_compose clock free fit db1 db2 db3 db4 :
  j_legacy db2 = j_legacy db1 -> j_identity db2 = j_identity db1 -> j_events db2 = j_events db1 ->
  j_tables db2 = j_tables db1 -> leases_fade db1 db2 ->
  effect clock free fit db2 db3 -> same_journal db3 db4 -> effect clock free fit db1 db4.
Proof.
  intros L I E T F [L2 I2 F2 W] [Sv Sf Sl Si Sa Se St]. split; [congruence..| |].
  - etrans; [exact F|]. etrans; [exact F2|]. by apply fade_same.
  - destruct W as [|? ? ? ? M|st gd p evs w Ld ? ? ? Pr ? ?].
    + apply written_nothing; congruence.
    + apply written_markers; try congruence. rewrite St, <- T. exact M.
    + eapply (written_batch _ _ _ _ _ st gd p evs w); try done; try congruence.
      rewrite <- (load_state_same db1 db2) by done. done.
Qed.

(** What a batch under pressure logs admits no work. *)
Lemma write_all_admits gd clock evs w w' :
  write_all gd clock true w evs = Ok w' -> Forall (fun ev => admits_work ev = false) (w_pending w) ->
  Forall (fun ev => admits_work ev = false) (w_pending w').
Proof.
  revert w. induction evs as [|ev evs IH]; intros w H F; cbn [write_all] in H; [by injection H as <-|].
  ok_path H. eapply IH; [exact H|]. unfold write_one in E. ok_path E. unfold reduce_and_log in E.
  cbn [andb] in E. destruct (admits_work (stamp_event clock ev)) eqn:A; cbn [rejected reject] in E.
  - by injection E as <-.
  - ok_if E R; [by injection E as <-|]. ok_path E. injection E as <-. cbn [w_pending].
    case_match; [done|]. apply Forall_app. auto.
Qed.

Lemma persist_state_rows t st t' :
  persist_state decode_baseline sha256_hex t st = Ok t' -> persist_rows t st = Ok t'.
Proof.
  unfold persist_state. destruct (load_replay_baseline _ _ _) as [[b|]|]; try done. cbn [result_bind].
  destruct (persist_rows t st); [|done]. by intros [= <-].
Qed.

(** ** Fenced writes *)

Lemma write_fenced_Ok clock h f launch evs db r :
  write_fenced encode decode decode_baseline sha256_hex clock h f launch evs db = Ok r ->
  j_identity db = writer_context h /\
  (forall fence, launch = Some fence -> disk_pressure_launch_is_current db fence = Ok true) /\
  exists st, load_state_of db = Ok st /\ capacity_invalid st = false /\
    validate_fences decode sha256_hex db st f = Ok tt /\
    (r.1 = db \/
     exists w l, write_all (loop_guard h f) clock
         (active_pressure_episode (pressure_service_instance h launch) db) (fresh_writer st) evs = Ok w /\
       deactivate_launches (pressure_service_instance h launch) (w_fenced w) (j_launches db) = Ok l /\
       ((w_pending w = [] /\ r.1 = set_launches l db) \/
        exists tables, w_pending w <> [] /\ persist_rows (j_tables db) (w_state w) = Ok tables /\
          r.1 = set_log (j_events db ++ map row (w_pending w)) tables (set_launches l db))).
Proof.
  unfold write_fenced. intros H. ok_path H. destruct x0. apply writer_is_owner in E0 as [_ I].
  split; [done|]. split.
  { intros fence ->. rewrite E2. by destruct x2; [|]. }
  exists x3. destruct x4. split_and!; [done|done|done|]. destruct x5; [injection H as <-; by left|]. right.
  apply bind_Ok in H as (w & W & H). apply bind_Ok in H as (l & D & H). exists w, l. split_and!; [done|done|].
  destruct (w_pending w) as [|e pending]; [injection H as <-; by left|]. right.
  apply bind_Ok in H as (t & P & H). injection H as <-. apply persist_state_rows in P. by exists t.
Qed.

Lemma write_fenced_effect clock h f launch evs db r :
  write_fenced encode decode decode_baseline sha256_hex clock h f launch evs db = Ok r ->
  pressure_service_instance h launch = writer_context h ->
  effect clock (active_pressure_episode (j_identity db) db = false)
    (Forall (fun ev => fits (event_generation ev)) evs) db r.1.
Proof.
  intros H S. apply write_fenced_Ok in H as (I & _ & st & L & C & _ & [->|(w & l & W & D & P)]); [apply effect_refl|].
  assert (F : leases_fade db (set_launches l db)).
  { replace db with (set_launches (j_launches db) db) at 1 by (by destruct db). by eapply deactivate_fade. }
  destruct P as [[P ->]|(tables & _ & P & ->)]; split; try done; [by apply written_nothing|].
  eapply (written_batch _ _ _ _ _ st _ _ _ w); try done. rewrite S, <- I in W.
  destruct (active_pressure_episode _ db); [left|by right]. by eapply write_all_admits.
Qed.

Lemma effective_launch_service h f launch :
  effective_launch h f = Ok launch ->
  (forall fence, f_launch f = Some fence -> writer_context h = Some (wl_service_instance fence)) ->
  pressure_service_instance h launch = writer_context h.
Proof.
  unfold effective_launch. intros H S. destruct (h_worker_launch h) as [bound|] eqn:W.
  - ok_path H. destruct (f_response f), (f_abandon f); ok_path H; injection H as <-; try done.
    unfold writer_context. by rewrite W.
  - ok_path H. injection H as <-. destruct (f_launch f) as [fence|]; [|done]. symmetry. by apply S.
Qed.

Lemma apply_inner_Ok clock h f evs db r :
  apply_many_inner encode decode decode_baseline sha256_hex clock h f evs db = Ok r ->
  exists launch, effective_launch h f = Ok launch /\
    ((evs = [] /\ r.1 = db) \/ write_fenced encode decode decode_baseline sha256_hex clock h f launch evs db = Ok r).
Proof.
  unfold apply_many_inner. intros H. ok_path H. exists x. split; [done|].
  destruct evs as [|ev rest]; [injection H as <-; by left|]. ok_path H. by right.
Qed.

Lemma apply_inner_effect clock h f evs db r :
  apply_many_inner encode decode decode_baseline sha256_hex clock h f evs db = Ok r ->
  (forall fence, f_launch f = Some fence -> writer_context h = Some (wl_service_instance fence)) ->
  effect clock (active_pressure_episode (j_identity db) db = false)
    (Forall (fun ev => fits (event_generation ev)) evs) db r.1.
Proof.
  intros H S. apply apply_inner_Ok in H as (launch & E & [[_ ->]|H]); [apply effect_refl|].
  eapply write_fenced_effect; [exact H|]. by eapply effective_launch_service.
Qed.

(** ** Pressure operations *)

(** One slot fenced is one event written. *)
Lemma write_fence_event clock w s :
  rejected (reduce clock (w_state w) (Ev.DiskPressureTerminalFence (s_slot_id s) (s_generation s))) = false ->
  s_generation s <= i64_max ->
  exists w', write_one plain_guard clock false w (Ev.DiskPressureTerminalFence (s_slot_id s) (s_generation s)) = Ok w' /\
    w_state w' = state (reduce clock (w_state w) (Ev.DiskPressureTerminalFence (s_slot_id s) (s_generation s))) /\
    w_pending w' = w_pending w ++ [Ev.DiskPressureTerminalFence (s_slot_id s) (s_generation s)].
Proof.
  set (ev := Ev.DiskPressureTerminalFence _ _). intros R G. unfold write_one, plain_guard.
  cbn [claims_pressure_recovery ev result_bind]. unfold reduce_and_log. cbn [andb].
  change (stamp_event clock ev) with ev. rewrite R. unfold revoked_launch, ev at 1.
  rewrite (proj2 (Z.leb_le _ _) G). cbn [result_bind].
  assert (C : bool_decide (commands (reduce clock (w_state w) ev) = []) = false).
  { apply bool_decide_eq_false_2. revert R. cbn [reduce ev]. unfold reduce_pressure_fence.
    destruct (slot_mut _ _). by destruct (negb _). }
  rewrite C. cbn [andb]. eexists. split; [reflexivity|]. done.
Qed.

Lemma fence_slots_written clock si todo db st db' st' w :
  fence_slots encode sha256_hex clock si todo st db = Ok (st', db') -> w_state w = st ->
  exists w', write_all plain_guard clock false w (fence_events todo) = Ok w' /\ w_state w' = st' /\
    Forall (fun ev => event_generation ev <= i64_max) (fence_events todo) /\
    w_pending w' = w_pending w ++ fence_events todo /\
    j_events db' = j_events db ++ map row (fence_events todo) /\
    j_legacy db' = j_legacy db /\ j_identity db' = j_identity db /\ j_tables db' = j_tables db /\
    leases_fade db db'.
Proof.
  revert db st w. induction todo as [|s todo IH]; intros db st w H Hw; cbn [fence_slots] in H.
  { injection H as <- <-. exists w. unfold fence_events. cbn. by rewrite !app_nil_r. }
  unfold fence_events. cbn [List.filter]. case_bool_decide as Ph; cbn [negb].
  { apply (IH _ _ w) in H as (w' & W & S & Fi & P & E & L & I & Tb & Fd); [|done].
    exists w'. split_and!; try done. etrans; [|exact Fd]. apply fade_update. }
  cbn [stamp_event] in H. ok_path H. unfold disk_pressure_sql_integer in *.
  destruct (s_generation s <=? i64_max) eqn:G; [|done]. apply Z.leb_le in G. subst st.
  destruct (write_fence_event clock w s) as (w1 & W1 & S1 & P1); [done..|].
  apply (IH _ _ w1) in H as (w' & W & S & Fi & P & Ev & L & I & Tb & Fd); [|done].
  exists w'. cbn [map write_all]. rewrite W1. cbn [result_bind].
  split_and!; try done.
  - by constructor.
  - rewrite P, P1, <- app_assoc. done.
  - rewrite Ev. cbn [set_log set_launches j_events map]. by rewrite <- app_assoc.
  - etrans; [|exact Fd]. apply (fade_update _ db).
Qed.

Lemma fence_events_admit todo : Forall (fun ev => admits_work ev = false) (fence_events todo).
Proof. apply Forall_map, Forall_true. done. Qed.

Lemma loaded_slots legacy t st :
  lift (load_materialized_state legacy t) = Ok st -> Forall2 (fun x s => load_slot x = Ok s) (t_slots t) (slots st).
Proof.
  unfold lift. destruct (load_materialized_state legacy t) as [st'|] eqn:L; [|done]. intros [= <-].
  unfold load_materialized_state in L. ok_path L. injection L as <-. by apply result_map_Forall2.
Qed.

Lemma fence_events_fit legacy t st :
  lift (load_materialized_state legacy t) = Ok st ->
  Forall (fun ev => event_generation ev <= i64_max) (fence_events (slots st)) ->
  Forall (fun ev => fits (event_generation ev)) (fence_events (slots st)).
Proof.
  intros L%loaded_slots F. unfold fence_events in *. rewrite Forall_forall in *. intros ev E.
  pose proof (F ev E) as U. split; [|done]. apply list_elem_of_In, in_map_iff in E as (s & <- & [E _]%filter_In).
  apply list_elem_of_In in E. apply list_elem_of_lookup in E as (n & E).
  apply Forall2_lookup_r with (i := n) (y := s) in L as (x & _ & L); [|done]. unfold load_slot in L. ok_path L.
  injection L as <-. cbn. unfold i64_u64, u64_try_from in E0. destruct (0 <=? sr_generation x) eqn:G; [|done].
  injection E0 as <-. by apply Z.leb_le.
Qed.

Lemma fence_effect clock free fit si db db' :
  persist_pressure_terminal_slot_fences encode decode_baseline sha256_hex clock si db = Ok db' ->
  effect clock free fit db db'.
Proof.
  unfold persist_pressure_terminal_slot_fences. intros H. ok_if H T; [injection H as <-; apply effect_refl|].
  apply bind_Ok in H as (st & L & H). ok_if H C; [done|]. apply bind_Ok in H as ([st' db1] & F & H).
  apply bind_Ok in H as (t & P & H). injection H as <-. apply persist_state_rows in P.
  eapply (fence_slots_written _ _ _ _ _ _ _ (fresh_writer st)) in F
    as (w & W & S & Fi & Pe & E & Lg & I & Tb & Fd); [|done]. cbn [fst snd] in *.
  split; [done..|]. eapply (written_batch _ _ _ _ _ st plain_guard false _ w); try done; cbn.
  - by rewrite E, Pe.
  - by rewrite S, <- Tb.
  - left. rewrite Pe. apply fence_events_admit.
  - intros _. by apply fence_events_fit with (j_legacy db) (j_tables db).
Qed.

Lemma observe_effect clock free fit h si i g n samples d e uuid t db r :
  observe_disk_pressure_roots encode decode_baseline sha256_hex clock h si i g n samples d e uuid t db = Ok r ->
  effect clock free fit db r.1.
Proof.
  unfold observe_disk_pressure_roots. intros H. ok_path H. begun.
  match goal with O : observe_samples _ _ _ _ _ _ _ = Ok _ |- _ => apply observe_samples_same in O as [] end.
  ok_if H T.
  - ok_path H. injection H as <-. cbn [fst].
    eapply (effect_compose _ _ _ _ _ _ _); [..|by eapply fence_effect|done]; try done. by apply fade_same.
  - injection H as <-. by apply effect_same.
Qed.

Lemma advance_effect clock free fit h si samples d e uuid t db db' :
  advance_disk_pressure_roots encode decode_baseline sha256_hex clock h si samples d e uuid t db = Ok db' ->
  effect clock free fit db db'.
Proof.
  unfold advance_disk_pressure_roots. intros H. ok_path H. begun.
  match goal with O : advance_samples _ _ _ _ _ _ _ = Ok _ |- _ => apply advance_samples_same in O as [] end.
  eapply (effect_compose _ _ _ _ _ _ _); [..|by eapply fence_effect|done]; try done. by apply fade_same.
Qed.

Lemma unmeasurable_effect clock free fit h si d e uuid t db r :
  advance_unmeasurable_disk_pressure encode decode_baseline sha256_hex clock h si d e uuid t db = Ok r ->
  effect clock free fit db r.1.
Proof.
  unfold advance_unmeasurable_disk_pressure. intros H. ok_path H. injection H as <-. begun.
  match goal with O : advance_samples _ _ _ _ _ _ _ = Ok _ |- _ => apply advance_samples_same in O as [] end.
  eapply (effect_compose _ _ _ _ _ _ _); [..|by eapply fence_effect|done]; try done. by apply fade_same.
Qed.

Lemma retire_effect clock free fit h si observed complete db db' :
  retire_unobserved_disk_pressure_episodes encode decode_baseline sha256_hex clock h si observed complete db = Ok db' ->
  effect clock free fit db db'.
Proof.
  unfold retire_unobserved_disk_pressure_episodes. intros H. ok_path H. ok_if H Co; [injection H as <-; apply effect_refl|].
  ok_path H. begun.
  destruct (List.filter _ _) as [|id ids]; [injection H as <-; apply effect_refl|]. ok_path H. injection H as <-.
  match goal with O : retire_rows _ _ _ = Ok _ |- _ => apply retire_rows_same in O as [] end.
  eapply (effect_compose _ _ _ _ _ _ _); [..|by eapply fence_effect|]; try done.
  - etrans; [|apply fade_update]. by apply fade_same.
  - case_match; [apply (delete_terminal_same si (id :: ids))|done].
Qed.

Lemma claim_same h si fs aliases ep a m f t db r :
  claim_disk_pressure_reclaim decode_baseline sha256_hex h si fs aliases ep a m f t db = Ok r -> same_journal db r.1.
Proof.
  unfold claim_disk_pressure_reclaim. intros H. ok_path H. ok_if H Lo; [by injection H as <-|]. ok_path H. begun.
  repeat (match type of H with
          | match ?x with Some _ => _ | None => _ end = Ok _ => destruct x
          | (if ?b then _ else _) = Ok _ => destruct b
          end; ok_path H; try (injection H as <-; by split)).
Qed.

Lemma clear_same h si fs aliases ep a m f t db r :
  clear_disk_pressure_episode_if_healthy decode_baseline sha256_hex h si fs aliases ep a m f t db = Ok r ->
  same_journal db r.1.
Proof.
  unfold clear_disk_pressure_episode_if_healthy. intros H. ok_path H. ok_if H Lo; [by injection H as <-|].
  ok_path H. begun.
  repeat (match type of H with
          | match ?x with Some _ => _ | None => _ end = Ok _ => destruct x
          | (if ?b then _ else _) = Ok _ => destruct b
          end; ok_path H; try (injection H as <-; by split)); injection H as <-.
  - apply update_episode_same.
  - apply delete_group_same.
Qed.

Lemma rebind_roots_same si fs f t roots db db' :
  rebind_roots si fs f t roots db = Ok db' -> same_journal db db' /\ j_episodes db' = j_episodes db.
Proof.
  revert db. induction roots as [|root roots IH]; intros db H; cbn [rebind_roots] in H; [by injection H as <-|].
  destruct (j_observations db !! (si, root)) as [r|]; [|ok_path H; auto].
  apply IH in H as [S E]. split; [|done]. etrans; [apply same_set_observations|exact S].
Qed.

Lemma rebind_volume_same si fs aliases ep a m f d e uuid t db db' :
  rebind_volume si fs aliases ep a m f d e uuid t db = Ok db' ->
  same_journal (revoke_all si db) db'.
Proof.
  unfold rebind_volume. intros H. ok_path H.
  match goal with D : delete_episode ?a ?b ?c ?d ?x = _ |- _ =>
    pose proof (delete_episode_same a b c d x) as S1; rewrite D in S1; cbn [fst] in S1 end.
  match goal with R : rebind_roots _ _ _ _ _ _ = Ok _ |- _ => apply rebind_roots_same in R as [S2 _] end.
  assert (S : same_journal db x0) by (by etrans). ok_if H Lo.
  - ok_path H. etrans; [|by eapply insert_episode_same]. destruct S. split; cbn; congruence.
  - injection H as <-. destruct S. split; cbn; congruence.
Qed.

Lemma rebind_effect clock free fit h si fs aliases ep a m f d e uuid t db r :
  rebind_disk_pressure_episode_if_safe decode_baseline sha256_hex h si fs aliases ep a m f d e uuid t db = Ok r ->
  effect clock free fit db r.1.
Proof.
  unfold rebind_disk_pressure_episode_if_safe. intros H. ok_path H.
  ok_if H Same; [injection H as <-; apply effect_refl|]. ok_path H. begun.
  repeat (match type of H with
          | match ?x with Some _ => _ | None => _ end = Ok _ => destruct x
          | (if ?b then _ else _) = Ok _ => destruct b
          end; ok_path H; try (injection H as <-; apply effect_refl)).
  injection H as <-. cbn [fst].
  match goal with R : rebind_volume _ _ _ _ _ _ _ _ _ _ _ _ = Ok _ |- _ => apply rebind_volume_same in R end.
  eapply (effect_compose _ _ _ _ (revoke_all si db)); [..|apply effect_refl|done]; try done. apply fade_update.
Qed.

Lemma revoke_effect clock free fit h si i g db r :
  revoke_disk_pressure_launch decode_baseline sha256_hex h si i g db = Ok r -> effect clock free fit db r.1.
Proof.
  unfold revoke_disk_pressure_launch. intros H. ok_path H. begun.
  destruct (j_launches db !! (si, i)) as [r0|] eqn:L; [|injection H as <-; apply effect_refl].
  ok_if H A; injection H as <-; [|apply effect_refl]. split; try done; [|by apply written_nothing].
  intros k r'. cbn [fst set_launches j_launches]. destruct (decide (k = (si, i))) as [->|N].
  - rewrite lookup_insert_eq. intros [= <-]. eauto.
  - rewrite lookup_insert_ne by done. eauto.
Qed.

(** What issuing a lease did. *)
Lemma issue_Ok h si i g t fresh db r :
  issue_disk_pressure_launch decode_baseline sha256_hex h si i g t fresh db = Ok r ->
  j_identity db = Some si /\ active_pressure_episode (Some si) db = false /\
  exists st, load_state_of db = Ok st /\ capacity_invalid st = false /\
    drain_active st = false /\ admission_blocked st = false /\ launchable i g st = true /\ g <= i64_max /\
    (r.1 = db \/ (has_provisional_row i g st = false /\
      r.1 = set_launches (<[(si, i) := {| l_generation := g; l_launch_nonce := fresh; l_issued_unix := t; l_active := 1 |}]>
                          (j_launches db)) db)).
Proof.
  unfold issue_disk_pressure_launch. intros H. ok_path H. begun.
  unfold disk_pressure_sql_integer in *.
  repeat match goal with
  | E : (if ?b then Ok _ else Err _) = Ok _ |- _ => destruct b eqn:?; [injection E as <-|discriminate E]
  | E : _ || _ = false |- _ => apply orb_false_iff in E as [? ?]
  | E : negb _ = false |- _ => apply negb_false_iff in E
  | E : (_ <=? _) = true |- _ => apply Z.leb_le in E
  end.
  split; [done|]. split; [done|]. eexists. split; [done|]. split_and!; try done.
  destruct (j_launches db !! (si, i)) as [r0|];
    repeat (match type of H with (if ?b then _ else _) = Ok _ => destruct b eqn:? end; try done);
    injection H as <-; auto.
Qed.

(** ** All of them *)

Lemma acquisition_handle_context h si i g n :
  validate_acquisition_handle h si i g n = Ok tt -> writer_context h = Some si.
Proof.
  unfold validate_acquisition_handle, validate_worker_context, writer_context.
  destruct (h_worker_launch h) as [f|]; intros H; ok_path H.
  - apply orb_false_iff in E as [E _]. apply bool_decide_eq_false, dec_stable in E. by subst.
  - by apply bool_decide_eq_true in E.
Qed.

(** The latches touch markers only. *)
Definition same_tables (t t' : JournalTables) : Prop :=
  t_slots t' = t_slots t /\ t_jobs t' = t_jobs t /\ t_outbox t' = t_outbox t /\ same_but_markers (t_meta t) (t_meta t').
Lemma latch_effect clock free fit db t' : same_tables (j_tables db) t' ->
  effect clock free fit db (set_log (j_events db) t' db).
Proof. intros (Es & Ej & Eo & Em). split; try done; [by apply fade_same|]. by apply written_markers. Qed.

Lemma drain_effect clock free fit h v db r : set_drain decode_baseline sha256_hex h v db = Ok r -> effect clock free fit db r.1.
Proof.
  unfold set_drain. intros H. ok_path H. injection H as <-. apply latch_effect.
  match goal with E : set_drain_tx _ _ = _ |- _ => unfold set_drain_tx in E; repeat case_match; simplify_eq end;
    split_and!; try done; intros k ? ?; cbn; by rewrite ?lookup_insert_ne, ?lookup_delete_ne by done.
Qed.
Lemma undrain_effect clock free fit h db r : clear_drain decode_baseline sha256_hex h db = Ok r -> effect clock free fit db r.1.
Proof.
  unfold clear_drain. intros H. ok_path H. injection H as <-. apply latch_effect.
  match goal with E : clear_drain_tx _ = _ |- _ => unfold clear_drain_tx in E; injection E as <- <- end;
    split_and!; try done; intros k ? ?; cbn; by rewrite lookup_delete_ne by done.
Qed.
Lemma cordon_effect clock free fit h v db r :
  set_admission_blocked decode_baseline sha256_hex h v db = Ok r -> effect clock free fit db r.1.
Proof.
  unfold set_admission_blocked. intros H. ok_path H. injection H as <-. apply latch_effect.
  match goal with E : set_admission_blocked_tx _ _ = _ |- _ =>
    unfold set_admission_blocked_tx in E; repeat case_match; simplify_eq end;
    split_and!; try done; intros k ? ?; cbn; by rewrite ?lookup_insert_ne, ?lookup_delete_ne by done.
Qed.
Lemma uncordon_effect clock free fit h v db r :
  clear_admission_blocked_if decode_baseline sha256_hex h v db = Ok r -> effect clock free fit db r.1.
Proof.
  unfold clear_admission_blocked_if. intros H. ok_path H. destruct v as [v|]; [|injection H as <-; apply effect_refl].
  ok_path H. injection H as <-. apply latch_effect.
  match goal with E : clear_admission_blocked_if_tx _ _ = _ |- _ =>
    unfold clear_admission_blocked_if_tx in E; repeat case_match; simplify_eq end;
    split_and!; try done; intros k ? ?; cbn; by rewrite ?lookup_insert_ne, ?lookup_delete_ne by done.
Qed.

(** The generations an operation names fit an [INTEGER] column. *)
Definition op_fits (op : JournalOp) : Prop :=
  match op with
  | OpApplyMany evs => Forall (fun ev => fits (event_generation ev)) evs
  | OpApplyLaunch _ _ g _ ev => fits g /\ fits (event_generation ev)
  | OpIntend _ _ g _ _ _ _ _ | OpResolve _ _ g _ _ _ _ _ _ _ | OpResolveAt _ g _ _ _ _ _ _
  | OpAbandonAt _ g _ _ _ _ | OpAbandonTerminal _ _ g _ _ _ _ _ | OpConfirm _ _ g _ _ _
  | OpIssue _ _ g _ _ | OpRevoke _ _ g | OpObserve _ _ g _ _ _ _ _ _ => fits g
  | _ => True
  end.

Lemma effect_fit clock free (fit fit' : Prop) db db' :
  (fit' -> fit) -> effect clock free fit db db' -> effect clock free fit' db db'.
Proof.
  intros Hf [L I F W]. split; [done..|]. destruct W; [by apply written_nothing|by apply written_markers|].
  eapply written_batch; eauto.
Qed.

Definition issues (op : JournalOp) : bool := match op with OpIssue _ _ _ _ _ => true | _ => false end.

Lemma database_Ok {A} (r : result (JournalDb * A) ReplayError) db' :
  database r = Ok db' -> exists r', r = Ok r' /\ r'.1 = db'.
Proof. unfold database. intros H. ok_path H. injection H as <-. eauto. Qed.

Lemma run_op_effect clock h op db db' :
  run_op encode decode decode_baseline sha256_hex clock h op db = Ok db' -> issues op = false ->
  effect clock (active_pressure_episode (j_identity db) db = false) (op_fits op) db db'.
Proof.
  intros H I. destruct op; cbn [run_op issues] in *; try done;
    try (apply database_Ok in H as (r & H & <-)).
  - by eapply apply_inner_effect.
  - unfold apply_with_disk_pressure_launch in H. ok_path H. destruct x0.
    apply pressure_service_context in E0. unfold popped in H. ok_path H. injection H as <-. cbn [fst].
    eapply effect_fit; [|eapply apply_inner_effect; [done|]; cbn; by intros ? [= <-]].
    cbn; intros; destruct_and?; by apply Forall_singleton.
  - unfold intend_acquisition_with_disk_pressure_launch in H. ok_path H. destruct x0.
    apply acquisition_handle_context in E0. unfold popped in H. ok_path H. injection H as <-. cbn [fst].
    eapply effect_fit; [|eapply apply_inner_effect; [done|]; cbn; by intros ? [= <-]].
    cbn; intros; destruct_and?; by apply Forall_singleton.
  - unfold resolve_acquisition_response, popped in H. ok_path H. injection H as <-. cbn [fst].
    eapply effect_fit; [|by eapply apply_inner_effect]. intros. by apply Forall_singleton.
  - unfold resolve_acquisition_response_at_endpoint, popped in H. ok_path H. injection H as <-. cbn [fst].
    eapply effect_fit; [|by eapply apply_inner_effect]. intros. by apply Forall_singleton.
  - unfold abandon_acquisition_response_at_endpoint, popped in H. ok_path H. injection H as <-. cbn [fst].
    eapply effect_fit; [|by eapply apply_inner_effect]. intros. by apply Forall_singleton.
  - unfold abandon_acquisition_after_disk_pressure_terminal, popped in H. ok_path H.
    destruct (h_worker_launch h); ok_path H. injection H as <-. cbn [fst]. eapply effect_fit; [|by eapply apply_inner_effect]. intros. by apply Forall_singleton.
  - unfold confirm_acquisition_after_disk_pressure_terminal, popped in H. ok_path H. injection H as <-. cbn [fst].
    eapply effect_fit; [|by eapply apply_inner_effect]. intros. by apply Forall_singleton.
  - by eapply revoke_effect.
  - by eapply observe_effect.
  - by eapply advance_effect.
  - by eapply unmeasurable_effect.
  - by eapply retire_effect.
  - by eapply effect_same, claim_same.
  - by eapply effect_same, clear_same.
  - by eapply rebind_effect.
  - by eapply drain_effect.
  - by eapply undrain_effect.
  - by eapply cordon_effect.
  - by eapply uncordon_effect.
Qed.
End Effects.
