(* ===== verification/PressureLeases.v ===== *)
(** * Disk pressure: who may write

    A launch lease binds a worker to one generation of one slot. The theorems:
    while a pressure episode is recorded nothing admits work and no lease
    comes to life; a lease that is no longer current never becomes current
    again; and a worker whose lease is not current changes nothing, except
    that the answer to its own recorded acquisition may be handed over after
    the terminal fence. *)

From S2P Require Import Prelude Numerals NodeModel JournalData JournalReduce JournalInv JournalSafety JournalEvolution JournalStore JournalStoreProofs JournalReplay JournalRefine PressureData PressureFences PressureEpisodes PressureOps PressureSteps.
From Stdlib Require Import String.
From stdpp Require Import base gmap list strings sorting.
#[local] Open Scope Z_scope.
#[local] Open Scope result_scope.

(** ** Slots behind the tables *)

(** A slot's generation never decreases, and fenced it stays until it does. *)
Definition slot_le (s s' : SlotRecord) : Prop :=
  s_generation s <= s_generation s' /\
  (s_phase s = Fenced -> s_phase s' = Fenced \/ s_generation s < s_generation s').
Definition slots_le (st st' : FleetState) : Prop :=
  forall i s, find_slot i st = Some s -> exists s', find_slot i st' = Some s' /\ slot_le s s'.

#[export] Instance slots_le_preorder : PreOrder slots_le.
Proof.
  split.
  - intros st i s F. exists s. split; [done|]. split; [lia|auto].
  - intros a b c H1 H2 i s F. destruct (H1 i s F) as (s1 & F1 & G1 & P1). destruct (H2 i s1 F1) as (s2 & F2 & G2 & P2).
    exists s2. split; [done|]. split; [lia|]. intros P. destruct (P1 P) as [Q|Q]; [|right; lia].
    destruct (P2 Q); [by left|right; lia].
Qed.

Definition gens_fit (st : FleetState) : Prop := Forall (fun s => fits (s_generation s)) (slots st).

Lemma gens_mut i st : gens_fit st -> gens_fit (slot_mut i st).1.
Proof.
  unfold gens_fit, slot_mut. destruct (find_slot i st); [done|]. intros F. cbn. apply Forall_app. split; [done|].
  apply Forall_singleton. cbn. unfold fits, Generation_INITIAL, i64_max. lia.
Qed.
Lemma gens_update i f st :
  (forall s, fits (s_generation s) -> fits (s_generation (f s))) -> gens_fit st -> gens_fit (update_slot i f st).
Proof.
  unfold gens_fit, update_slot. cbn. intros F G. induction G as [|s l Hs G IH]; cbn; [constructor|].
  destruct (slot_is i s); constructor; auto.
Qed.
Lemma gens_same st st' : slots st' = slots st -> gens_fit st -> gens_fit st'.
Proof. unfold gens_fit. by intros ->. Qed.
Lemma gens_restore st k : gens_fit st -> gens_fit (restore_slot_after_job_removal st k).1.
Proof.
  unfold restore_slot_after_job_removal. intros G. repeat case_match; cbn [fst]; try (by apply (gens_same st));
    apply gens_update; try done; by apply (gens_same st).
Qed.

Create HintDb gens.
#[local] Hint Resolve gens_mut gens_restore : gens.
#[local] Hint Extern 1 (gens_fit (set_jobs _ _)) => (eapply gens_same; [reflexivity|]) : gens.
#[local] Hint Extern 1 (gens_fit (set_outbox _ _)) => (eapply gens_same; [reflexivity|]) : gens.
#[local] Hint Extern 1 (gens_fit (update_job _ _ _)) => (eapply gens_same; [reflexivity|]) : gens.
#[local] Hint Extern 1 (gens_fit (update_outbox _ _ _)) => (eapply gens_same; [reflexivity|]) : gens.
#[local] Hint Extern 2 (gens_fit (update_slot _ _ _)) => (apply gens_update; [by cbn|]) : gens.
#[local] Hint Extern 3 (gens_fit _) => (eapply gens_same; [reflexivity|eassumption]) : gens.

Lemma reduce_gens now st ev : gens_fit st -> fits (event_generation ev) -> gens_fit (state (reduce now st ev)).
Proof.
  intros G F. destruct ev; cbn [event_generation] in F;
    try (cbn [reduce]; unfold reduce_routing; cbn [state accept]; unfold gens_fit in *; cbn;
         by rewrite Forall_map; apply (Forall_impl _ _ _ G)).
  all: arm_cases; repeat (cbn [state accept reject]; auto 6 with gens nocore; case_match);
    cbn [state accept reject]; auto 6 with gens nocore.
  apply (gens_same (update_slot slot_id (slot_set_phase Assigned) (slot_mut slot_id st).1)); [done|].
  auto with gens nocore.
Qed.

Lemma write_one_slots gd clock p w ev w' :
  write_one gd clock p w ev = Ok w' -> fits (event_generation ev) -> gens_fit (w_state w) ->
  slots_le (w_state w) (w_state w') /\ gens_fit (w_state w').
Proof.
  unfold write_one, reduce_and_log. intros H F G. ok_path H. ok_if H R; [by injection H as <-|].
  ok_path H. injection H as <-. cbn [w_state]. destruct (p && _); [done|]. split.
  - intros i s Fs. destruct (reduce_evolve clock (w_state w) (stamp_event clock ev) i s Fs) as (s' & F' & L & _ & P).
    exists s'. by split.
  - apply reduce_gens; [done|]. destruct ev; try done. cbn [stamp_event]. by case_match.
Qed.

Lemma write_all_slots gd clock p evs w w' :
  write_all gd clock p w evs = Ok w' -> Forall (fun ev => fits (event_generation ev)) evs -> gens_fit (w_state w) ->
  slots_le (w_state w) (w_state w') /\ gens_fit (w_state w').
Proof.
  intros H F. revert w H. induction F as [|ev evs Fe F IH]; intros w H G; cbn [write_all] in H; [by injection H as <-|].
  ok_path H. apply write_one_slots in E as [L1 G1]; [|done..]. apply IH in H as [L2 G2]; [|done]. split; [by etrans|done].
Qed.

(** ** Slot rows *)

Definition row_le (x x' : SlotRow) : Prop :=
  sr_slot_id x' = sr_slot_id x /\ sr_generation x <= sr_generation x' /\
  (parse_slot_phase (sr_phase x) = Ok Fenced ->
     parse_slot_phase (sr_phase x') = Ok Fenced \/ sr_generation x < sr_generation x').

(** Rows are told apart by their id and hold generations. *)
Record rows_ok (t : JournalTables) : Prop := {
  ro_ids : NoDup (map sr_slot_id (t_slots t));
  ro_generations : Forall (fun x => sr_generation x <= i64_max) (t_slots t);
}.
Definition rows_le (t t' : JournalTables) : Prop :=
  forall x, x ∈ t_slots t -> exists x', x' ∈ t_slots t' /\ row_le x x'.

#[export] Instance rows_le_preorder : PreOrder rows_le.
Proof.
  split.
  - intros t x E. exists x. split; [done|]. split_and!; [done|lia|auto].
  - intros a b c H1 H2 x E. destruct (H1 x E) as (x1 & E1 & I1 & G1 & P1). destruct (H2 x1 E1) as (x2 & E2 & I2 & G2 & P2).
    exists x2. split; [done|]. split_and!; [congruence|lia|]. intros P. destruct (P1 P) as [Q|Q]; [|right; lia].
    destruct (P2 Q); [by left|right; lia].
Qed.

Lemma load_slot_Ok x s : load_slot x = Ok s ->
  s_slot_id s = sr_slot_id x /\ s_generation s = sr_generation x /\ 0 <= sr_generation x /\
  parse_slot_phase (sr_phase x) = Ok (s_phase s).
Proof.
  unfold load_slot. intros H. ok_path H. injection H as <-. cbn. unfold i64_u64, u64_try_from in E.
  destruct (0 <=? sr_generation x) eqn:G; [|done]. injection E as <-. apply Z.leb_le in G. done.
Qed.

Lemma loaded_slot db st x : load_state_of db = Ok st -> rows_ok (j_tables db) -> x ∈ t_slots (j_tables db) ->
  exists s, find_slot (sr_slot_id x) st = Some s /\ load_slot x = Ok s.
Proof.
  intros L%loaded_slots [ND _] E. unfold find_slot. induction L as [|y s l l' Ly L IH]; [by apply elem_of_nil in E|].
  cbn in ND. apply NoDup_cons in ND as [N ND]. apply load_slot_Ok in Ly as Y. rewrite find_key_cons.
  apply elem_of_cons in E as [->|E].
  - exists s. rewrite decide_True by apply Y. done.
  - destruct IH as (s' & F & Ls); [done..|]. exists s'. rewrite decide_False; [done|]. destruct Y as [-> _]. intros X.
    apply N. rewrite X. by apply list_elem_of_fmap_2.
Qed.

Lemma loaded_gens db st : load_state_of db = Ok st -> rows_ok (j_tables db) -> gens_fit st.
Proof.
  intros L%loaded_slots [_ G]. unfold gens_fit. induction L as [|x s l l' Lx L IH]; [constructor|].
  apply Forall_cons in G as [Gx G]. constructor; [|auto]. apply load_slot_Ok in Lx as (_ & -> & ? & _). done.
Qed.

Lemma persisted_slots t st t' : persist_rows t st = Ok t' ->
  t_slots t' = map slot_row (slots st) /\ NoDup (map sr_slot_id (t_slots t')).
Proof.
  unfold persist_rows. intros H. ok_path H. injection H as <-. cbn [t_slots]. unfold insert_rows in E.
  case_decide; [|done]. by injection E as <-.
Qed.

Lemma slot_row_generation s : fits (s_generation s) -> sr_generation (slot_row s) = s_generation s.
Proof. intros [_ F]. cbn. unfold i64_wrap. by rewrite (proj2 (Z.leb_le _ _) F). Qed.

Section Leases.
Context (encode : Event -> string) (decode : string -> option Event).
Context (decode_baseline : string -> option ReplayBaseline) (sha256_hex : string -> string).
#[local] Abbreviation run := (run_op encode decode decode_baseline sha256_hex).

Lemma written_rows_le clock free (fit : Prop) db db' :
  written encode sha256_hex clock free fit db db' -> fit -> rows_ok (j_tables db) ->
  rows_le (j_tables db) (j_tables db') /\ rows_ok (j_tables db').
Proof.
  intros W Fit R. destruct W as [_ T|_ T _ _ _|st gd p evs w L _ W _ P _ Fe].
  - rewrite T. done.
  - split; [intros x E; rewrite T; by apply (reflexivity (R := rows_le))|]. destruct R. split; by rewrite T.
  - apply persisted_slots in P as [P ND]. pose proof (loaded_gens _ _ L R) as G.
    apply write_all_slots in W as [Le G']; [|by apply Fe|done]. split.
    + intros x E. destruct (loaded_slot _ _ _ L R E) as (s & F & Lx).
      destruct (Le _ _ F) as (s' & F' & Hg & Hp). apply load_slot_Ok in Lx as (I & Gx & _ & Px).
      apply find_key_elem in F' as [E' I']. exists (slot_row s'). split; [rewrite P; by apply list_elem_of_fmap_2|].
      unfold gens_fit in G'. rewrite Forall_forall in G'.
      split_and!; [by rewrite <- I'|rewrite slot_row_generation by auto; lia|]. intros Pf.
      rewrite slot_row_generation by auto. cbn [slot_row sr_phase]. rewrite parse_slot_phase_as_str.
      assert (s_phase s = Fenced) as Fs by congruence. destruct (Hp Fs) as [->|]; [by left|right; lia].
    + split; [done|]. rewrite P, Forall_map. apply (Forall_impl _ _ _ G').
      intros s Hs. rewrite slot_row_generation by done. apply Hs.
Qed.

(** ** Nothing is admitted under pressure *)

Lemma written_log clock free fit db db' : written encode sha256_hex clock free fit db db' ->
  exists evs, j_events db' = j_events db ++ map (event_row encode sha256_hex) evs /\
    (Forall (fun ev => admits_work ev = false) evs \/ free).
Proof.
  intros [E _|E _ _ _ _|st gd p evs w _ _ _ E _ F _]; [exists []|exists []|by exists (w_pending w)];
    rewrite app_nil_r; split; auto.
Qed.

(** C31: while a disk pressure episode of the journal's owner is recorded, no
    operation, of whichever handle, admits work: what it logs contains neither
    a permit nor the intent of an acquisition, and no launch lease is issued
    or comes back to life. *)
Theorem pressure_admits_nothing clock h op db db' :
  run clock h op db = Ok db' -> active_pressure_episode (j_identity db) db = true ->
  leases_fade db db' /\
  exists evs, j_events db' = j_events db ++ map (event_row encode sha256_hex) evs /\
    Forall (fun ev => admits_work ev = false) evs.
Proof.
  intros H A. destruct (issues op) eqn:I.
  - destruct op; try done. apply database_Ok in H as (r & H & _). apply issue_Ok in H as (O & N & _). congruence.
  - apply run_op_effect in H as [_ _ F W]; [|done]. split; [done|].
    apply written_log in W as (evs & E & [?|?]); [by exists evs|congruence].
Qed.

(** ** Leases are not regained *)

(** The generation of a lease has a slot row at or beyond it. *)
Record lease_inv (db : JournalDb) : Prop := {
  lv_rows : rows_ok (j_tables db);
  lv_anchor k r : j_launches db !! k = Some r ->
    exists x, x ∈ t_slots (j_tables db) /\ sr_slot_id x = k.2 /\ l_generation r <= sr_generation x;
}.

(** Capacity that was declared invalid: the columns the verdict is read from. *)
Definition stuck (db : JournalDb) : Prop :=
  exists declared invalid desired,
    meta_bool (t_meta (j_tables db)) "capacity_declared" = Ok declared /\
    meta_bool (t_meta (j_tables db)) "capacity_invalid" = Ok invalid /\
    meta_u32 (t_meta (j_tables db)) "desired_ready" = Ok desired /\
    invalid || (declared && (desired <? Z.of_nat (length (t_slots (j_tables db))))) || j_legacy db = true.

Lemma loaded_verdict db st : load_state_of db = Ok st -> capacity_invalid st = true <-> stuck db.
Proof.
  intros L. pose proof (loaded_slots _ _ _ L) as Len%Forall2_length. revert L.
  unfold load_state_of, lift, stuck. destruct (load_materialized_state _ _) as [st'|] eqn:E; [|done]. intros [= <-].
  unfold load_materialized_state in E. ok_path E. injection E as <-. cbn in Len |- *. rewrite <- Len.
  split; [by eauto 10|]. intros (d & i & n & D & I & N & V). congruence.
Qed.

(** Why a lease is not current and will not be. *)
Definition lapsed (db : JournalDb) (f : WorkerLaunchFence) : Prop :=
  lease_matches db f = false \/ stuck db \/
  exists x, x ∈ t_slots (j_tables db) /\ sr_slot_id x = wl_slot_id f /\
    (wl_generation f < sr_generation x \/
     wl_generation f = sr_generation x /\ parse_slot_phase (sr_phase x) = Ok Fenced).

Lemma loaded_ids db st : load_state_of db = Ok st -> rows_ok (j_tables db) -> NoDup (keys s_slot_id (slots st)).
Proof.
  intros L%loaded_slots [ND _]. replace (keys s_slot_id (slots st)) with (map sr_slot_id (t_slots (j_tables db))); [done|].
  unfold keys. induction L as [|x s l l' Lx L IH]; [done|]. cbn in *. apply NoDup_cons in ND as [_ ND].
  apply load_slot_Ok in Lx as [-> _]. f_equal. auto.
Qed.

Lemma lapsed_not_current db f : lapsed db f -> rows_ok (j_tables db) -> disk_pressure_launch_is_current db f <> Ok true.
Proof.
  intros La R H. unfold disk_pressure_launch_is_current in H.
  destruct (lease_matches db f) eqn:M; [|done]. cbn [negb] in H.
  apply bind_Ok in H as (g & E & H). apply bind_Ok in H as (st & L & H). injection H as H.
  apply andb_true_iff in H as [C U]. apply negb_true_iff in C. destruct La as [?|[S|(x & X & I & G)]]; [congruence| |].
  - by rewrite (proj2 (loaded_verdict _ _ L) S) in C.
  - unfold disk_pressure_u64 in E. destruct (0 <=? wl_generation f); [|done]. injection E as <-.
    apply existsb_elem in U as (s & Es & U). unfold slot_unfenced in U. apply andb_true_iff in U as [[U1 U2]%andb_true_iff U3].
    apply bool_decide_eq_true in U1, U3. apply Z.eqb_eq in U2.
    destruct (loaded_slot _ _ _ L R X) as (s0 & F & Lx). apply load_slot_Ok in Lx as (_ & Gx & _ & Px).
    assert (F' : find_slot (sr_slot_id x) st = Some s).
    { rewrite I, <- U1. apply find_key_unique; [by eapply loaded_ids|done]. }
    rewrite F in F'. injection F' as ->. destruct G as [?|[? P]]; [lia|congruence].
Qed.

Lemma not_current_lapsed db st f : lease_inv db -> load_state_of db = Ok st ->
  disk_pressure_launch_is_current db f = Ok false -> lapsed db f.
Proof.
  intros [R A] L H. unfold disk_pressure_launch_is_current in H. destruct (lease_matches db f) eqn:M; [|by left]. right.
  cbn [negb] in H. apply bind_Ok in H as (g & E & H). rewrite L in H. injection H as H.
  unfold disk_pressure_u64 in E. destruct (0 <=? wl_generation f); [|done]. injection E as <-.
  apply andb_false_iff in H as [C%negb_false_iff|U]; [left; by apply (loaded_verdict _ _ L)|]. right.
  unfold lease_matches in M. destruct (j_launches db !! _) as [r|] eqn:Lr; [|done].
  apply andb_true_iff in M as [[M _]%andb_true_iff _]. apply Z.eqb_eq in M.
  destruct (A _ _ Lr) as (x & X & I & G). cbn in I. exists x. split_and!; [done..|].
  destruct (loaded_slot _ _ _ L R X) as (s & F & Lx). apply load_slot_Ok in Lx as (Is & Gs & _ & Ps).
  apply find_key_elem in F as [Es _]. pose proof (proj1 (existsb_false _ _) U s Es) as Ns.
  unfold slot_unfenced in Ns. destruct (decide (s_phase s = Fenced)) as [Fs|Nf].
  - rewrite Ps, Fs. destruct (decide (wl_generation f < sr_generation x)); [by left|]. right. split; [lia|done].
  - left. rewrite Is, I, (bool_decide_eq_true_2 (_ = _)), (bool_decide_eq_true_2 (_ <> _)) in Ns by done.
    cbn [andb] in Ns. rewrite andb_true_r in Ns. apply Z.eqb_neq in Ns. lia.
Qed.

(** One operation of some process, naming generations that fit and drawing no
    nonce in [old]. *)
Definition step_without (old : string -> Prop) (db db' : JournalDb) : Prop :=
  exists clock h op, run clock h op db = Ok db' /\ op_fits op /\
    match op with OpIssue _ _ _ _ fresh => ~ old fresh | _ => True end.
(** One operation of some process. *)
Definition step := step_without (fun _ => False).

(** A step that is not the issuing of a lease, and one that is. *)
Lemma step_cases old db db' : step_without old db db' ->
  (exists clock free, effect encode sha256_hex clock free True db db') \/
  (j_tables db' = j_tables db /\ j_legacy db' = j_legacy db /\
   exists si i g t fresh st s, ~ old fresh /\ load_state_of db = Ok st /\ capacity_invalid st = false /\
     s ∈ slots st /\ s_slot_id s = i /\ s_generation s = g /\
     j_launches db' = <[(si, i) := {| l_generation := g; l_launch_nonce := fresh; l_issued_unix := t; l_active := 1 |}]>
                        (j_launches db)).
Proof.
  intros (clock & h & op & H & F & N). destruct (issues op) eqn:I.
  - destruct op; try done. apply database_Ok in H as (r & H & <-).
    apply issue_Ok in H as (_ & _ & st & L & C & _ & _ & La & _ & [->|[_ ->]]).
    { left. exists clock, True. apply effect_refl. }
    right. unfold launchable in La. destruct (find_slot slot_id st) as [s|] eqn:Fs; [|done].
    apply andb_true_iff in La as [G%Z.eqb_eq _]. apply find_key_elem in Fs as [Es Is]. split; [done|]. split; [done|].
    by exists si, slot_id, generation, issued_unix, fresh, st, s.
  - left. apply run_op_effect in H; [|done]. eexists clock, _. by eapply effect_fit; [|exact H].
Qed.

Lemma loaded_row db st s : load_state_of db = Ok st -> s ∈ slots st ->
  exists x, x ∈ t_slots (j_tables db) /\ load_slot x = Ok s.
Proof.
  intros L%loaded_slots E. apply list_elem_of_lookup in E as (n & E).
  destruct (Forall2_lookup_r _ _ _ _ _ L E) as (x & X & Lx). exists x. split; [by eapply list_elem_of_lookup_2|done].
Qed.

Lemma step_lease_inv old db db' : step_without old db db' -> lease_inv db -> lease_inv db' /\ rows_le (j_tables db) (j_tables db').
Proof.
  intros [(clock & free & [_ _ F W])|(T & _ & si & i & g & t & fresh & st & s & _ & L & _ & Es & Is & Gs & Ls)]%step_cases [R A].
  - destruct (written_rows_le _ _ _ _ _ W Logic.I R) as [Le R']. split; [|done]. split; [done|]. intros k r' E.
    destruct (F _ _ E) as (r & E0 & Hr). destruct (A _ _ E0) as (x & X & I & G). destruct (Le x X) as (x' & X' & I' & G' & _).
    exists x'. split_and!; [done|congruence|]. assert (l_generation r' = l_generation r) by (by destruct Hr as [->| ->]). lia.
  - rewrite T. split; [|done]. split; [by rewrite T|]. intros k r. rewrite Ls, T. destruct (decide (k = (si, i))) as [->|N].
    + rewrite lookup_insert_eq. intros [= <-]. destruct (loaded_row _ _ _ L Es) as (x & X & Lx).
      apply load_slot_Ok in Lx as (I & G & _). exists x. split_and!; [done|cbn; congruence|cbn; lia].
    + rewrite lookup_insert_ne by done. apply A.
Qed.

Lemma stuck_same db db' :
  stuck db -> t_slots (j_tables db') = t_slots (j_tables db) -> j_legacy db' = j_legacy db ->
  same_but_markers (t_meta (j_tables db)) (t_meta (j_tables db')) -> stuck db'.
Proof.
  intros (d & i & n & D & I & N & V) T L M. exists d, i, n. unfold meta_bool, meta_u32, meta_number in *.
  rewrite !M by done. by rewrite T, L.
Qed.

Lemma step_lapsed old db db' f : step_without old db db' -> old (wl_launch_nonce f) -> lease_inv db ->
  lapsed db f -> lapsed db' f.
Proof.
  intros S O I La. pose proof (step_lease_inv _ _ _ S I) as [_ Le].
  destruct La as [M|[St|(x & X & Ix & G)]]; cycle 2.
  { right. right. destruct (Le x X) as (x' & X' & I' & G' & P'). exists x'. split_and!; [done|congruence|].
    destruct G as [G|[G P]]; [left; lia|]. destruct (P' P); [|left; lia].
    destruct (decide (wl_generation f = sr_generation x')); [by right|left; lia]. }
  all: apply step_cases in S as [(clock & free & [Lg _ F W])|(T & Lg & si & i & g & t & fresh & st & s & Nf & L & C & _ & _ & _ & Ls)].
  - left. unfold lease_matches in *. destruct (j_launches db' !! _) as [r'|] eqn:E; [|done].
    destruct (F _ _ E) as (r & E0 & Hr). rewrite E0 in M. destruct Hr as [->| ->]; [done|]. cbn. by rewrite andb_false_r.
  - left. unfold lease_matches in *. rewrite Ls. destruct (decide ((wl_service_instance f, wl_slot_id f) = (si, i))) as [->|N].
    + rewrite lookup_insert_eq. cbn. rewrite (bool_decide_eq_false_2 (fresh = _)) by (intros ->; done).
      by rewrite andb_false_r.
    + by rewrite lookup_insert_ne.
  - right. left. destruct W as [_ T|_ T _ _ Mk|st gd p evs w L C]; [|by eapply stuck_same|].
    { apply (stuck_same db); [done|by rewrite T|done|]. intros k _ _. by rewrite T. }
    by rewrite (proj2 (loaded_verdict _ _ L) St) in C.
  - by rewrite (proj2 (loaded_verdict _ _ L) St) in C.
Qed.

(** C32: a launch lease that is no longer current is never current again. In a
    journal that began without leases, once the check refused a worker's
    lease (it was revoked or replaced, or its slot was fenced or belongs to a
    newer generation), no sequence of operations by any processes makes it
    current again, as long as the worker's nonce is not drawn a second time. *)
Theorem lease_is_never_regained db0 db db' st f :
  j_launches db0 = ∅ -> rows_ok (j_tables db0) -> rtc step db0 db ->
  load_state_of db = Ok st -> disk_pressure_launch_is_current db f = Ok false ->
  rtc (step_without (fun nonce => nonce = wl_launch_nonce f)) db db' ->
  disk_pressure_launch_is_current db' f <> Ok true.
Proof.
  intros E0 R0 S0 L C S.
  assert (I : lease_inv db).
  { assert (I0 : lease_inv db0) by (split; [done|intros k r; by rewrite E0, lookup_empty]). clear E0 R0.
    induction S0 as [|a b c S1 _ IH]; [done|]. apply step_lease_inv in S1 as [? _]; auto. }
  assert (La : lapsed db f) by (by eapply not_current_lapsed). clear S0 L C.
  induction S as [|a b c S1 _ IH]; [apply lapsed_not_current; [done|apply I]|].
  pose proof (step_lapsed _ _ _ _ S1 eq_refl I La) as La'. apply step_lease_inv in S1 as [? _]; auto.
Qed.

(** ** Workers without a lease *)

(** What the hand-over of a revoked launch may do: resolve or give up the one
    provisional acquisition the launch had recorded, whose slot the terminal
    fence has closed. Slots and completions stay as they are, and so does every
    other job. *)
Definition handed_over (clock : Z) (bound : WorkerLaunchFence) (db db' : JournalDb) : Prop :=
  exists st r ev k,
    load_state_of db = Ok st /\
    j_launches db !! (wl_service_instance bound, wl_slot_id bound) = Some r /\
    l_launch_nonce r = wl_launch_nonce bound /\ l_active r = 0 /\
    terminally_fenced (wl_slot_id bound) (wl_generation bound) st = true /\
    (exists url, exact_provisional_row k (wl_slot_id bound) (wl_generation bound) url st = true) /\
    ((exists g why, ev = Ev.JobAcquisitionLost k g why) \/
     (exists a plan g url, ev = Ev.JobAcquisitionResolvedAtEndpoint k a plan g url)) /\
    slots (state (reduce clock st ev)) = slots st /\ outbox (state (reduce clock st ev)) = outbox st /\
    exists tables, persist_rows (j_tables db) (state (reduce clock st ev)) = Ok tables /\
      db' = set_log (j_events db ++ [event_row encode sha256_hex ev]) tables db.

Lemma both_Ok a b e : both a b e = Ok tt -> a = true /\ b = Ok true.
Proof. unfold both. destruct a; [|done]. intros H. ok_path H. by subst. Qed.

(** A worker's write that is no hand-over needs the worker's lease. *)
Lemma worker_write clock h bound f evs db r :
  h_worker_launch h = Some bound -> f_response f = None -> f_abandon f = None ->
  apply_many_inner encode decode decode_baseline sha256_hex clock h f evs db = Ok r ->
  r.1 = db \/ disk_pressure_launch_is_current db bound = Ok true.
Proof.
  intros W R A H. apply apply_inner_Ok in H as (launch & E & [[_ ->]|H]); [by left|]. right.
  unfold effective_launch in E. rewrite W, R, A in E. ok_path E. injection E as <-.
  apply write_fenced_Ok in H as (_ & C & _). by apply C.
Qed.

(** One acquisition event on a fenced slot. *)
Lemma one_event_written clock h f launch ev db r :
  write_fenced encode decode decode_baseline sha256_hex clock h f launch [ev] db = Ok r ->
  stamp_event clock ev = ev -> revoked_launch ev = Ok [] ->
  exists st, load_state_of db = Ok st /\ validate_fences decode sha256_hex db st f = Ok tt /\
    (r.1 = db \/ exists tables, persist_rows (j_tables db) (state (reduce clock st ev)) = Ok tables /\
       rejected (reduce clock st ev) = false /\
       r.1 = set_log (j_events db ++ [event_row encode sha256_hex ev]) tables db).
Proof.
  intros H S Rv. apply write_fenced_Ok in H as (_ & _ & st & L & _ & V & H). exists st. split_and!; [done..|].
  destruct H as [->|(w & l & W & D & P)]; [by left|]. cbn [write_all] in W. ok_path W. injection W as ->.
  unfold write_one, reduce_and_log in E. ok_path E. rewrite S in E. cbn [fresh_writer w_state w_outcomes w_pending w_fenced] in E.
  ok_if E Rj.
  { injection E as <-. cbn in D, P. injection D as <-. left.
    destruct P as [[_ ->]|(t & N & _)]; [by destruct db|done]. }
  rewrite Rv in E. cbn [result_bind] in E. injection E as <-. cbn [w_fenced w_pending w_state app] in D, P.
  injection D as <-. destruct (_ && admits_work ev); [done|]. case_match.
  - left. destruct P as [[_ ->]|(t & N & _)]; [by destruct db|done].
  - destruct P as [[? _]|(t & _ & P & ->)]; [done|]. right. exists t. by destruct db.
Qed.

Lemma resolved_keeps clock st k a plan g url :
  slots (state (reduce clock st (Ev.JobAcquisitionResolvedAtEndpoint k a plan g url))) = slots st /\
  outbox (state (reduce clock st (Ev.JobAcquisitionResolvedAtEndpoint k a plan g url))) = outbox st.
Proof. cbn [reduce]. unfold reduce_acquisition_resolved_at_endpoint. by repeat case_match. Qed.

Lemma lost_keeps clock st k g why i gen url : JInv st ->
  exact_provisional_row k i gen url st = true -> terminally_fenced i gen st = true ->
  slots (state (reduce clock st (Ev.JobAcquisitionLost k g why))) = slots st /\
  outbox (state (reduce clock st (Ev.JobAcquisitionLost k g why))) = outbox st.
Proof.
  intros I (j & Ej & J)%existsb_elem (s & Es & Ss)%existsb_elem. cbn [reduce].
  repeat match goal with E : _ && _ = true |- _ => apply andb_true_iff in E as [? ?] end.
  repeat match goal with E : bool_decide _ = true |- _ => apply bool_decide_eq_true in E end.
  unfold reduce_acquisition_lost. case_match; [|done]. unfold restore_slot_after_job_removal.
  subst k. rewrite (proj1 (job_elem _ j I) Ej).
  assert (F : find_slot (j_slot_id j) (set_jobs (List.filter (fun item => negb (job_is (j_job_id j) item)) (jobs st)) st) = Some s).
  { unfold find_slot. cbn [slots set_jobs]. replace (j_slot_id j) with (s_slot_id s) by congruence.
    apply find_key_unique; [apply I|done]. }
  rewrite F. destruct (negb _); [done|]. by rewrite bool_decide_eq_true_2.
Qed.

(** A hand-over that was validated although the lease is not current was
    validated by the terminal fence. *)
Lemma inactive_handover db launch active_check e r :
  disk_pressure_launch_is_current db launch <> Ok true ->
  disk_pressure_bool (l_active r) = Ok active_check ->
  (if active_check : bool then both true (disk_pressure_launch_is_current db launch) e else Ok tt) = Ok tt ->
  l_active r = 0.
Proof.
  intros N A H. destruct active_check; [by apply both_Ok in H as [_ H]|]. unfold disk_pressure_bool in A.
  destruct (l_active r =? 0) eqn:Z; [by apply Z.eqb_eq|]. by destruct (_ =? 1).
Qed.

Lemma response_handover db st fence :
  validate_acquisition_response_fence decode sha256_hex db st fence = Ok tt ->
  disk_pressure_launch_is_current db (ai_launch fence) <> Ok true ->
  exists r, j_launches db !! (wl_service_instance (ai_launch fence), wl_slot_id (ai_launch fence)) = Some r /\
    l_launch_nonce r = wl_launch_nonce (ai_launch fence) /\ l_active r = 0 /\
    terminally_fenced (wl_slot_id (ai_launch fence)) (wl_generation (ai_launch fence)) st = true /\
    exact_provisional_row (ai_provisional_job_id fence) (wl_slot_id (ai_launch fence))
      (wl_generation (ai_launch fence)) (ai_run_service_url fence) st = true.
Proof.
  unfold validate_acquisition_response_fence. intros H N. destruct (j_launches db !! _) as [r|]; [|done]. ok_path H.
  destruct x0. apply both_Ok in E1 as [X _]. apply orb_false_iff in E as [_ Nn]. apply bool_decide_eq_false, dec_stable in Nn.
  exists r. destruct x; [by apply both_Ok in H as [_ H]|]. apply both_Ok in H as [T _]. split_and!; try done.
  by eapply (inactive_handover db (ai_launch fence) false ResponseFenced).
Qed.

Lemma abandon_handover db st fence :
  validate_acquisition_abandon_fence decode sha256_hex db st fence = Ok tt ->
  disk_pressure_launch_is_current db (ai_launch fence) <> Ok true ->
  exists r, j_launches db !! (wl_service_instance (ai_launch fence), wl_slot_id (ai_launch fence)) = Some r /\
    l_launch_nonce r = wl_launch_nonce (ai_launch fence) /\ l_active r = 0 /\
    terminally_fenced (wl_slot_id (ai_launch fence)) (wl_generation (ai_launch fence)) st = true /\
    exact_provisional_row (ai_provisional_job_id fence) (wl_slot_id (ai_launch fence))
      (wl_generation (ai_launch fence)) (ai_run_service_url fence) st = true.
Proof.
  unfold validate_acquisition_abandon_fence. intros H N. destruct (j_launches db !! _) as [r|]; [|done]. ok_path H.
  destruct x0. apply both_Ok in H as [X _]. apply orb_false_iff in E as [_ Nn]. apply bool_decide_eq_false, dec_stable in Nn.
  exists r. destruct x; [by apply both_Ok in E1 as [_ E1]|]. apply both_Ok in E1 as [[T _]%andb_true_iff _].
  split_and!; try done. by eapply (inactive_handover db (ai_launch fence) false AbandonFenced).
Qed.

Lemma worker_context_is h bound si i g n :
  h_worker_launch h = Some bound -> validate_worker_context h si i g n = Ok tt ->
  bound = {| wl_service_instance := si; wl_slot_id := i; wl_generation := g; wl_launch_nonce := n |}.
Proof.
  intros W H. unfold validate_worker_context in H. rewrite W in H. ok_path H. unfold disk_pressure_sql_integer in E0.
  destruct (g <=? i64_max); [|done]. injection E0 as <-.
  apply orb_false_iff in E as [A B], E1 as [C D]. apply bool_decide_eq_false, dec_stable in A, B, D.
  apply negb_false_iff, Z.eqb_eq in C. destruct bound. cbn in *. by subst.
Qed.

Lemma worker_no_authority h bound db : h_worker_launch h = Some bound -> require_controller_authority h db = Err WorkerAuthority.
Proof. unfold require_controller_authority. by intros ->. Qed.

Lemma resolve_stale clock h bound si i g n k m a u1 u2 plan db r :
  h_worker_launch h = Some bound -> disk_pressure_launch_is_current db bound <> Ok true ->
  resolve_acquisition_response encode decode decode_baseline sha256_hex clock h si i g n k m a u1 u2 plan db = Ok r ->
  r.1 = db \/ handed_over clock bound db r.1.
Proof.
  intros W N H. unfold resolve_acquisition_response in H. ok_path H. unfold popped in H. ok_path H. injection H as <-.
  cbn [fst]. apply apply_inner_Ok in E2 as (launch & E2 & [[? _]|H]); [done|].
  unfold effective_launch in E2. rewrite W in E2. cbn [f_launch f_response] in E2. ok_path E2.
  apply bool_decide_eq_false, dec_stable in E3. injection E2 as <-.
  apply one_event_written in H as (st & L & V & [->|(t & P & _ & ->)]); [by left| |done..]. right.
  unfold validate_fences in V. cbn in V. ok_path V.
  match goal with F : validate_acquisition_response_fence _ _ _ _ _ = Ok ?u |- _ => destruct u end.
  apply response_handover in E2 as (r & Lr & Nn & A & T & X); cbn [ai_launch] in *; [|by rewrite <- E3].
  rewrite <- E3 in Lr, Nn, T, X. destruct (resolved_keeps clock st k a plan g u2) as [Ks Ko].
  exists st, r, (Ev.JobAcquisitionResolvedAtEndpoint k a plan g u2), k. split_and!; eauto 10.
Qed.

Lemma abandon_stale clock h bound si i g n k m u why db r :
  (forall st, load_state_of db = Ok st -> JInv st) ->
  h_worker_launch h = Some bound -> disk_pressure_launch_is_current db bound <> Ok true ->
  abandon_acquisition_after_disk_pressure_terminal encode decode decode_baseline sha256_hex clock h
    si i g n k m u why db = Ok r ->
  r.1 = db \/ handed_over clock bound db r.1.
Proof.
  intros J W N H. unfold abandon_acquisition_after_disk_pressure_terminal in H. ok_path H. rewrite W in H. ok_path H.
  apply bool_decide_eq_false, dec_stable in E1. unfold popped in H. ok_path H. injection H as <-.
  cbn [fst]. apply apply_inner_Ok in E2 as (launch & E2 & [[? _]|H]); [done|].
  unfold effective_launch in E2. rewrite W in E2. cbn [f_launch f_response f_abandon] in E2. ok_path E2. injection E2 as <-.
  apply one_event_written in H as (st & L & V & [->|(t & P & _ & ->)]); [by left| |done..]. right.
  unfold validate_fences in V. cbn in V. ok_path V.
  match goal with F : validate_acquisition_abandon_fence _ _ _ _ _ = Ok ?u |- _ => destruct u end.
  apply abandon_handover in E2 as (r & Lr & Nn & A & T & X); cbn [ai_launch] in *; [|by rewrite <- E1].
  rewrite <- E1 in Lr, Nn, T, X. destruct (lost_keeps clock st k g why _ _ _ (J _ L) X T) as [Ks Ko].
  exists st, r, (Ev.JobAcquisitionLost k g why), k. split_and!; eauto 10.
Qed.

Lemma observe_stale clock h bound si i g n samples d e uuid t db r :
  h_worker_launch h = Some bound -> disk_pressure_launch_is_current db bound <> Ok true ->
  observe_disk_pressure_roots encode decode_baseline sha256_hex clock h si i g n samples d e uuid t db = Ok r -> False.
Proof.
  intros W N H. unfold observe_disk_pressure_roots in H. apply bind_Ok in H as ([] & C & H).
  pose proof (worker_context_is _ _ _ _ _ _ W C) as Eb. ok_path H. begun.
  unfold disk_pressure_sql_integer in *.
  repeat match goal with E : (if ?b then Ok _ else Err _) = Ok _ |- _ => destruct b; [injection E as <-|discriminate E] end.
  match goal with E : disk_pressure_launch_is_current _ _ = Ok ?c, F : negb ?c = false |- _ =>
    apply negb_false_iff in F; rewrite F, <- Eb in E; done end.
Qed.

End Leases.
