(* ===== verification/PressureEnds.v ===== *)
(** * Disk pressure: how episodes go on and end

    An episode is carried from operation to operation, under its own root or
    merged into that of the same device: its deadlines never move out, what
    was latched stays latched, its revision never falls. It ends when a
    measurement found the space healthy, if it is not terminal, and otherwise
    only in a state where every slot is fenced and no job occupies one. *)

From S2P Require Import Prelude Numerals NodeModel JournalData JournalReduce JournalInv JournalStore JournalReplay PressureData PressureFences PressureEpisodes PressureOps PressureSteps.
From Stdlib Require Import String.
From stdpp Require Import base gmap list strings sorting.
#[local] Open Scope Z_scope.
#[local] Open Scope result_scope.

(** ** Rows that carry an episode on *)

Record row_carried (r r' : EpisodeRow) : Prop := {
  rc_deadline : e_deadline_unix r' <= e_deadline_unix r;
  rc_drain_deadline : e_drain_deadline_unix r' <= e_drain_deadline_unix r;
  rc_draining : e_draining r = 1 -> e_draining r' = 1;
  rc_terminal : e_terminal r = 1 -> e_terminal r' = 1;
  rc_reclaim : e_reclaim_attempted r = 1 -> e_reclaim_attempted r' = 1;
  rc_revision : e_revision r <= e_revision r';
}.
#[export] Instance row_carried_preorder : PreOrder row_carried.
Proof.
  split; [intros r; by split|]. intros a b c [] []. split; auto; lia.
Qed.

(** Every episode of [db] goes on in [db'], unless it is not terminal and
    [healthy] holds. *)
Definition carries (healthy : Prop) (db db' : JournalDb) : Prop :=
  forall si fs r, j_episodes db !! (si, fs) = Some r ->
    (exists fs' r', j_episodes db' !! (si, fs') = Some r' /\ row_carried r r') \/
    (healthy /\ e_terminal r <> 1).

Lemma carries_refl H db : carries H db db.
Proof. intros si fs r E. left. by exists fs, r. Qed.
Lemma carries_trans H a b c : carries H a b -> carries H b c -> carries H a c.
Proof.
  intros F G si fs r E. destruct (F _ _ _ E) as [(fs1 & r1 & E1 & C1)|?]; [|by right].
  destruct (G _ _ _ E1) as [(fs2 & r2 & E2 & C2)|[h N]].
  - left. exists fs2, r2. split; [done|by etrans].
  - right. split; [done|]. intros T. apply N. by apply C1.
Qed.
Lemma carries_weaken (H H' : Prop) a b : (H -> H') -> carries H a b -> carries H' a b.
Proof. intros I F si fs r E. destruct (F _ _ _ E) as [?|[? ?]]; [by left|right; auto]. Qed.
Lemma carries_same H a b : j_episodes b = j_episodes a -> carries H a b.
Proof. intros E si fs r X. left. exists fs, r. by rewrite E. Qed.
#[export] Hint Resolve carries_refl carries_same : pressure.

(** What a loaded row says of its columns. *)
Definition flag (z : Z) (b : bool) : Prop := z = i64_of_bool b.
Record loaded_as (r : EpisodeRow) (ep : DiskPressureEpisode) : Prop := {
  la_id : e_episode_id r = ep_episode_id ep;
  la_deadline : e_deadline_unix r = ep_deadline_unix ep;
  la_drain_deadline : e_drain_deadline_unix r = ep_drain_deadline_unix ep;
  la_draining : flag (e_draining r) (ep_draining ep);
  la_terminal : flag (e_terminal r) (ep_terminal ep);
  la_reclaim : flag (e_reclaim_attempted r) (ep_reclaim_attempted ep);
  la_revision : e_revision r = ep_revision ep;
}.

Lemma pressure_u64_Ok z x : disk_pressure_u64 z = Ok x -> x = z.
Proof. unfold disk_pressure_u64. destruct (0 <=? z); congruence. Qed.
Lemma pressure_int_Ok z x : disk_pressure_sql_integer z = Ok x -> x = z.
Proof. unfold disk_pressure_sql_integer. destruct (z <=? i64_max); congruence. Qed.
Lemma pressure_bool_Ok z b : disk_pressure_bool z = Ok b -> flag z b.
Proof.
  unfold disk_pressure_bool, flag. destruct (z =? 0) eqn:E0; [intros [= <-]; by apply Z.eqb_eq in E0|].
  destruct (z =? 1) eqn:E1; [intros [= <-]; by apply Z.eqb_eq in E1|done].
Qed.
Lemma pressure_add_Ok a b x : pressure_add a b = Ok x -> x = a + b.
Proof. unfold pressure_add. destruct (_ <=? _); congruence. Qed.
Lemma flag_1 z b : flag z b -> z = 1 -> b = true.
Proof. unfold flag. intros -> H. by destruct b. Qed.

Ltac columns :=
  repeat match goal with
  | E : disk_pressure_u64 _ = Ok _ |- _ => apply pressure_u64_Ok in E
  | E : disk_pressure_sql_integer _ = Ok _ |- _ => apply pressure_int_Ok in E
  | E : disk_pressure_bool _ = Ok _ |- _ => apply pressure_bool_Ok in E
  | E : pressure_add _ _ = Ok _ |- _ => apply pressure_add_Ok in E
  end.

Lemma load_row_as r ep : load_episode_row r = Ok ep -> loaded_as r ep.
Proof. unfold load_episode_row. intros H. ok_path H. injection H as <-. columns. by split. Qed.
Lemma load_episode_some db si fs ep : load_disk_pressure_episode db si fs = Ok (Some ep) ->
  exists r, j_episodes db !! (si, fs) = Some r /\ loaded_as r ep.
Proof.
  unfold load_disk_pressure_episode. destruct (j_episodes db !! _) as [r|]; [|done]. intros H. ok_path H.
  injection H as ->. exists r. split; [done|by apply load_row_as].
Qed.
Lemma load_episode_none db si fs : load_disk_pressure_episode db si fs = Ok None -> j_episodes db !! (si, fs) = None.
Proof.
  unfold load_disk_pressure_episode. destruct (j_episodes db !! _) as [r|]; [|done]. intros H. ok_path H. done.
Qed.

(** ** Single rows *)

(** A write of one row that carries the row it replaces. *)
Lemma carries_write H db db' si fs r r' :
  j_episodes db !! (si, fs) = Some r -> j_episodes db' = <[(si, fs) := r']> (j_episodes db) ->
  row_carried r r' -> carries H db db'.
Proof.
  intros E W C si0 fs0 r0 E0. left. rewrite W. destruct (decide ((si0, fs0) = (si, fs))) as [[= -> ->]|N].
  - exists fs, r'. rewrite lookup_insert_eq. split; [done|]. congruence.
  - exists fs0, r0. by rewrite lookup_insert_ne.
Qed.
Lemma carries_insert H si fs ep db db' : insert_episode si fs ep db = Ok db' -> carries H db db'.
Proof.
  unfold insert_episode. intros I. ok_path I. destruct (j_episodes db !! (si, fs)) eqn:Er; [done|]. injection I as <-.
  intros si0 fs0 r0 X. left. exists fs0, r0. cbn. rewrite lookup_insert_ne; [done|]. congruence.
Qed.
(** The removal of one row. *)
Lemma carries_delete (H : Prop) db db' si fs :
  j_episodes db' = delete (si, fs) (j_episodes db) ->
  (forall r, j_episodes db !! (si, fs) = Some r -> H /\ e_terminal r <> 1) -> carries H db db'.
Proof.
  intros W Q si0 fs0 r0 E0. rewrite W. destruct (decide ((si0, fs0) = (si, fs))) as [[= -> ->]|N]; [by right; apply Q|].
  left. exists fs0, r0. by rewrite lookup_delete_ne.
Qed.

Lemma carries_update H si fs id rev f db :
  (forall r, j_episodes db !! (si, fs) = Some r -> row_carried r (f r)) ->
  carries H db (update_episode si fs id rev f db).1.
Proof.
  intros C. unfold update_episode. destruct (j_episodes db !! _) as [r|] eqn:E; [|apply carries_refl].
  destruct (row_is _ _ _); [|apply carries_refl]. by eapply carries_write; [..|auto].
Qed.

(** ** Alias groups *)

Lemma alias_roots_elem fs aliases x : x ∈ alias_roots fs aliases <-> x = fs \/ x ∈ aliases.
Proof.
  unfold alias_roots. rewrite <- (list_elem_of_singleton x fs). generalize [fs]. intros acc.
  revert acc. induction aliases as [|a aliases IH]; intros acc; cbn [fold_left]; [set_solver|].
  rewrite IH. case_bool_decide; set_solver.
Qed.

Lemma delete_aliases_lookup (si main : string) (roots : list string) (m : gmap (string * string) EpisodeRow) si' x :
  fold_left (fun m alias => if bool_decide (alias = main) then m else delete (si, alias) m) roots m !! (si', x)
  = if decide (si' = si /\ x ∈ roots /\ x <> main) then None else m !! (si', x).
Proof.
  revert m. induction roots as [|a roots IH]; intros m; cbn [fold_left].
  - rewrite decide_False; [done|]. intros (_ & E & _). by apply elem_of_nil in E.
  - rewrite IH. destruct (decide (si' = si /\ x ∈ roots /\ x <> main)) as [T|T].
    + rewrite decide_True by set_solver. done.
    + case_bool_decide as A.
      * subst. rewrite decide_False; [done|]. set_solver.
      * destruct (decide ((si, a) = (si', x))) as [[= <- <-]|N].
        { rewrite lookup_delete_eq, decide_True by set_solver. done. }
        rewrite lookup_delete_ne by done. rewrite decide_False; [done|]. intros (-> & [->|E]%elem_of_cons & ?); [done|].
        by apply T.
Qed.

Lemma load_episodes_elem si roots db eps : load_episodes si roots db = Ok eps ->
  forall x r, x ∈ roots -> j_episodes db !! (si, x) = Some r -> exists ep, ep ∈ eps /\ loaded_as r ep.
Proof.
  revert eps. induction roots as [|a roots IH]; intros eps H x r X E; cbn [load_episodes] in H; [by apply elem_of_nil in X|].
  ok_path H. injection H as <-. apply elem_of_cons in X as [->|X].
  - unfold load_disk_pressure_episode in E0. rewrite E in E0. ok_path E0. injection E0 as <-.
    match goal with L : load_episode_row r = Ok ?ep |- _ => exists ep end. split; [by left|by apply load_row_as].
  - destruct (IH _ E1 x r X E) as (ep & I & L). exists ep. split; [|done]. destruct x0; [by right|done].
Qed.

Lemma place_elem x y l : x ∈ place y l <-> x = y \/ x ∈ l.
Proof.
  induction l as [|z l IH]; cbn [place]; [set_solver|]. destruct (episode_key_le y z); set_solver.
Qed.
Lemma sort_elem x l : x ∈ sort_episodes l <-> x ∈ l.
Proof. induction l as [|y l IH]; cbn; [done|]. rewrite place_elem, IH, elem_of_cons. done. Qed.

(** What the merged episode keeps of one of the group. *)
Record episode_kept (ep m : DiskPressureEpisode) : Prop := {
  ek_deadline : ep_deadline_unix m <= ep_deadline_unix ep;
  ek_drain_deadline : ep_drain_deadline_unix m <= ep_drain_deadline_unix ep;
  ek_draining : ep_draining ep = true -> ep_draining m = true;
  ek_terminal : ep_terminal ep = true -> ep_terminal m = true;
  ek_reclaim : ep_reclaim_attempted ep = true -> ep_reclaim_attempted m = true;
  ek_revision : ep_revision ep <= ep_revision m;
}.
#[local] Instance episode_kept_preorder : PreOrder episode_kept.
Proof. split; [intros r; by split|]. intros a b c [] []. split; auto; lia. Qed.

Lemma merge_two_keeps m ep : episode_kept m (merge_two m ep) /\ episode_kept ep (merge_two m ep).
Proof.
  split; split; cbn; try lia; intros ->; try done; apply orb_true_r.
Qed.
Lemma merge_keeps l m : episode_kept m (fold_left merge_two l m) /\
  forall ep, ep ∈ l -> episode_kept ep (fold_left merge_two l m).
Proof.
  revert m. induction l as [|a l IH]; intros m; cbn [fold_left]; [split; [done|]; by intros ep ?%elem_of_nil|].
  destruct (IH (merge_two m a)) as [K Ks], (merge_two_keeps m a) as [K1 K2]. split; [by etrans|].
  intros ep [->|E]%elem_of_cons; [by etrans|auto].
Qed.

Lemma kept_row r ep m row :
  loaded_as r ep -> episode_kept ep m -> episode_row m = Ok row -> row_carried r row.
Proof.
  intros [] [] H. unfold episode_row in H. ok_path H. injection H as <-. columns. unfold flag in *.
  split; cbn [e_deadline_unix e_drain_deadline_unix e_draining e_terminal e_reclaim_attempted e_revision]; try lia;
    intros X; [rewrite ek_draining0|rewrite ek_terminal0|rewrite ek_reclaim0]; try done;
    eapply flag_1; unfold flag; eauto.
Qed.

(** The merge carries the episodes of the group, and leaves no row of it but
    the filesystem's own. *)
Lemma merge_carries H si sample c db db' :
  merge_pressure_alias_episodes si sample c db = Ok db' ->
  carries H db db' /\
  forall x, x ∈ fs_alias_ids sample -> x <> fs_filesystem_id sample -> j_episodes db' !! (si, x) = None.
Proof.
  unfold merge_pressure_alias_episodes. case_bool_decide as Al.
  { intros [= <-]. split; [apply carries_refl|]. rewrite Al. by intros x ?%elem_of_nil. }
  intros M. ok_path M. destruct (sort_episodes x) as [|oldest rest] eqn:S.
  { injection M as <-. split; [apply carries_refl|]. intros a A _. destruct (j_episodes db !! (si, a)) as [r|] eqn:Ea; [|done].
    destruct (load_episodes_elem _ _ _ _ E a r) as (ep & I & _); [apply alias_roots_elem; by right|done|].
    apply sort_elem in I. rewrite S in I. by apply elem_of_nil in I. }
  ok_path M. injection M as <-. cbn [j_episodes set_episodes]. split.
  - intros si0 fs0 r0 E0'. left. rewrite <- S in *. cbn [j_episodes set_episodes].
    destruct (decide (si0 = si /\ fs0 ∈ alias_roots (fs_filesystem_id sample) (fs_alias_ids sample))) as [[-> R]|N].
    + exists (fs_filesystem_id sample). eexists. rewrite delete_aliases_lookup, decide_False by (intros (_ & _ & ?); done).
      rewrite lookup_insert_eq. split; [done|].
      destruct (load_episodes_elem _ _ _ _ E fs0 r0 R E0') as (ep & I & L). apply sort_elem in I.
      eapply kept_row; [exact L| |exact E1]. columns. destruct (merge_keeps (sort_episodes x) oldest) as [_ K].
      specialize (K ep I). destruct K. split; cbn; try done; try lia; intros T; [rewrite ek_draining0|rewrite ek_terminal0]; done.
    + exists fs0, r0. rewrite delete_aliases_lookup, decide_False by (intros (-> & ? & _); by apply N).
      rewrite lookup_insert_ne; [done|]. intros [= <- <-]. apply N. split; [done|]. apply alias_roots_elem. by left.
  - intros a A Na. rewrite delete_aliases_lookup, decide_True; [done|]. split_and!; [done| |done].
    apply alias_roots_elem. by right.
Qed.

(** ** Observations *)

Lemma advanced_carried r ep fp last reclaim rev draining terminal :
  loaded_as r ep -> ep_revision ep <= rev ->
  (ep_reclaim_attempted ep = true -> reclaim = true) -> (ep_draining ep = true -> draining = true) ->
  (ep_terminal ep = true -> terminal = true) ->
  row_carried r (advanced_row fp last reclaim rev draining terminal r).
Proof.
  intros [] R A B C. unfold flag in *. split; cbn; try lia; intros X;
    [rewrite B|rewrite C|rewrite A]; try done; eapply flag_1; unfold flag; eauto.
Qed.

Lemma delete_episode_cases si fs id rev db :
  ((delete_episode si fs id rev db).1 = db) \/
  exists r, j_episodes db !! (si, fs) = Some r /\ row_is id rev r = true /\
    j_episodes (delete_episode si fs id rev db).1 = delete (si, fs) (j_episodes db).
Proof.
  unfold delete_episode. destruct (j_episodes db !! _) as [r|] eqn:E; [|by left]. destruct (row_is _ _ _) eqn:R; [|by left].
  right. by exists r.
Qed.

(** When the other rows of a group are not of the episode, a deletion of the
    group deletes the filesystem's own row. *)
Lemma delete_own_carries (H : Prop) si fs aliases id rev db :
  (forall x r, x ∈ aliases -> x <> fs -> j_episodes db !! (si, x) = Some r -> row_is id rev r = false) ->
  (forall r, j_episodes db !! (si, fs) = Some r -> H /\ e_terminal r <> 1) ->
  carries H db (delete_group si fs (fs :: aliases) id rev db).1.
Proof.
  intros N Q. unfold delete_group.
  assert (G : forall ids db0 acc, carries H db db0 ->
    (forall x r, x ∈ ids -> x <> fs -> j_episodes db0 !! (si, x) = Some r -> row_is id rev r = false) ->
    (forall r, j_episodes db0 !! (si, fs) = Some r -> H /\ e_terminal r <> 1) ->
    carries H db (fold_left (fun acc root =>
      let '(db, deleted) := delete_episode si root id rev acc.1 in
      (db, if bool_decide (root = fs) then deleted else acc.2)) ids (db0, acc)).1).
  { clear N Q. induction ids as [|x ids IH]; intros db0 acc C N Q; cbn [fold_left fst]; [done|].
    pose proof (delete_episode_cases si x id rev db0) as D.
    destruct (delete_episode si x id rev db0) as [db1 b]. cbn [fst] in D.
    destruct D as [->|(r & Er & R & D)]; [apply IH; try done; intros y r Y; apply N; by right|].
    assert (x = fs) as -> by (destruct (decide (x = fs)); [done|]; rewrite (N x r) in R; [done|left|done..]).
    apply IH.
    - eapply carries_trans; [exact C|]. by eapply carries_delete.
    - intros y r' Y Ny. rewrite D, lookup_delete_ne by congruence. apply N; [by right|done].
    - intros r'. by rewrite D, lookup_delete_eq. }
  apply G; [apply carries_refl| |done]. intros x r [->|X]%elem_of_cons; [done|eauto].
Qed.

Lemma observe_existing_carries si sample c ep t db r :
  load_disk_pressure_episode db si (fs_filesystem_id sample) = Ok (Some ep) ->
  (forall x, x ∈ fs_alias_ids sample -> x <> fs_filesystem_id sample -> j_episodes db !! (si, x) = None) ->
  observe_existing si sample c ep t db = Ok r -> carries (space_is_low sample = false) db r.1.
Proof.
  intros (row & Er & L)%load_episode_some N H. unfold observe_existing in H. ok_if H C.
  - apply andb_true_iff in C as [[[_ Lo]%andb_true_iff T]%andb_true_iff _]. apply negb_true_iff in Lo, T.
    ok_path H. injection H as <-. cbn [fst]. unfold delete_pressure_episode_alias_group in E. ok_path E. injection E as <-.
    apply delete_own_carries; [by intros y r' Y Ny; rewrite N|]. intros r' Er'. split; [done|]. rewrite Er in Er'. injection Er' as <-.
    destruct L. unfold flag in *. by rewrite la_terminal0, T.
  - ok_path H. injection H as <-. cbn [fst]. columns. subst.
    match goal with E : update_episode ?a ?b ?c ?d ?f ?g = _ |- _ =>
      pose proof (carries_update (space_is_low sample = false) a b c d f g) as S; rewrite E in S; apply S end.
    intros r' Er'. rewrite Er in Er'. injection Er' as <-. apply (advanced_carried _ ep); [done|lia|..]; cbn; intros ->; done.
Qed.

Lemma observe_carries si sample d e uuid t db r :
  observe_disk_pressure_in_transaction si sample d e uuid t db = Ok r ->
  carries (space_is_low sample = false) db r.1.
Proof.
  unfold observe_disk_pressure_in_transaction. intros H. ok_path H.
  apply clock_samples_same in E as [_ S1]. apply (merge_carries (space_is_low sample = false)) in E0 as [M N].
  apply (carries_trans _ _ x.1); [by apply carries_same|]. eapply carries_trans; [exact M|]. destruct x1 as [ep|].
  - by eapply observe_existing_carries.
  - unfold observe_new in H. ok_if H C; [injection H as <-; apply carries_refl|]. ok_path H. injection H as <-.
    by eapply carries_insert.
Qed.

Lemma observe_samples_carries si samples d e uuid t db r :
  observe_samples si samples d e uuid t db = Ok r ->
  carries (exists sample, sample ∈ samples /\ space_is_low sample = false) db r.1.
Proof.
  revert db r. induction samples as [|s samples IH]; intros db r H; cbn [observe_samples] in H.
  - injection H as <-. apply carries_refl.
  - ok_path H. injection H as <-. cbn [fst]. eapply carries_trans.
    + eapply carries_weaken; [|by eapply observe_carries]. intros L. exists s. split; [by left|done].
    + eapply carries_weaken; [|by eapply IH]. intros (s' & I & L). exists s'. split; [by right|done].
Qed.

Lemma advance_carries H si sample d e uuid t db db' :
  advance_controller_pressure_sample si sample d e uuid t db = Ok db' -> carries H db db'.
Proof.
  unfold advance_controller_pressure_sample. intros A. ok_path A.
  apply clock_samples_same in E as [_ S1]. apply (merge_carries H) in E0 as [M _].
  apply (carries_trans _ _ x.1); [by apply carries_same|]. eapply carries_trans; [exact M|]. destruct x1 as [ep|].
  - apply load_episode_some in E1 as (row & Er & L). unfold advance_existing in A. ok_path A. injection A as <-. columns. subst.
    match goal with E : update_episode ?a ?b ?c ?d ?f ?g = _ |- _ =>
      pose proof (carries_update H a b c d f g) as S; rewrite E in S; apply S end.
    intros r' Er'. rewrite Er in Er'. injection Er' as <-. apply (advanced_carried _ ep); [done|lia|..]; intros ->; done.
  - unfold advance_new in A. ok_if A C; [injection A as <-; apply carries_refl|]. ok_path A. by eapply carries_insert.
Qed.
Lemma advance_samples_carries H si samples d e uuid t db db' :
  advance_samples si samples d e uuid t db = Ok db' -> carries H db db'.
Proof.
  revert db. induction samples as [|s samples IH]; intros db A; cbn [advance_samples] in A.
  - injection A as <-. apply carries_refl.
  - ok_path A. eapply carries_trans; [by eapply advance_carries|by apply IH].
Qed.

(** ** Retirement, claim, clearing, rebinding *)

Lemma retire_rows_carries H si ids db db' : retire_rows si ids db = Ok db' -> carries H db db'.
Proof.
  revert db. induction ids as [|id ids IH]; intros db R; cbn [retire_rows] in R; [injection R as <-; apply carries_refl|].
  destruct (j_episodes db !! (si, id)) as [r|] eqn:Er; [|auto]. ok_path R. columns. subst.
  eapply carries_trans; [|by apply IH]. eapply carries_write; [exact Er|done|]. split; cbn; lia.
Qed.

Lemma fence_slots_episodes encode sha256_hex clock si todo st db r :
  fence_slots encode sha256_hex clock si todo st db = Ok r -> j_episodes r.2 = j_episodes db.
Proof.
  revert st db. induction todo as [|s todo IH]; intros st db H; cbn [fence_slots] in H; [by injection H as <-|].
  ok_if H P; [by apply IH in H|]. ok_path H. by apply IH in H.
Qed.
Lemma fence_fleet_episodes encode decode_baseline sha256_hex clock si db db' :
  persist_pressure_terminal_slot_fences encode decode_baseline sha256_hex clock si db = Ok db' ->
  j_episodes db' = j_episodes db.
Proof.
  unfold persist_pressure_terminal_slot_fences. intros H. ok_if H T; [by injection H as <-|]. ok_path H.
  injection H as <-. cbn. by eapply fence_slots_episodes.
Qed.

(** Every slot is fenced and no job occupies one. *)
Definition fleet_is_safe (db : JournalDb) : Prop :=
  exists st, load_state_of db = Ok st /\ pressure_state_slots_are_safe st = true.

(** No two rows are of one episode. *)
Definition distinct_ids (db : JournalDb) : Prop :=
  forall k k' r r', j_episodes db !! k = Some r -> j_episodes db !! k' = Some r' ->
    e_episode_id r = e_episode_id r' -> k = k'.

Section Ends.
Context (encode : Event -> string) (decode : string -> option Event).
Context (decode_baseline : string -> option ReplayBaseline) (sha256_hex : string -> string).
#[local] Abbreviation run := (run_op encode decode decode_baseline sha256_hex).

Lemma retire_ends H clock h si observed complete db db' :
  retire_unobserved_disk_pressure_episodes encode decode_baseline sha256_hex clock h si observed complete db = Ok db' ->
  carries H db db' \/ fleet_is_safe db'.
Proof.
  unfold retire_unobserved_disk_pressure_episodes. intros R. ok_path R.
  ok_if R C; [injection R as <-; left; apply carries_refl|]. ok_path R. begun.
  destruct (List.filter _ _) as [|id ids] eqn:F; [injection R as <-; left; apply carries_refl|]. rewrite <- F in *. ok_path R.
  injection R as <-. case_match eqn:Sf.
  - right. match goal with L : load_state_of _ = Ok ?st |- _ => exists st; rewrite <- L end. split; [|done].
    apply load_state_same; apply delete_terminal_same.
  - left. match goal with E : retire_rows _ _ _ = Ok _ |- _ => apply (retire_rows_carries H) in E as Q end.
    eapply carries_trans; [exact Q|]. apply carries_same.
    match goal with E : persist_pressure_terminal_slot_fences _ _ _ _ _ _ = Ok _ |- _ => by apply fence_fleet_episodes in E end.
Qed.

Lemma claim_carries H h si fs aliases ep a m f t db r :
  claim_disk_pressure_reclaim decode_baseline sha256_hex h si fs aliases ep a m f t db = Ok r -> carries H db r.1.
Proof.
  unfold claim_disk_pressure_reclaim. intros C. ok_path C. ok_if C L; [injection C as <-; apply carries_refl|]. ok_path C. begun.
  case_match; [|injection C as <-; apply carries_refl]. ok_if C W; [injection C as <-; apply carries_refl|]. ok_path C.
  case_match; [|injection C as <-; apply carries_refl]. ok_if C Rf; [injection C as <-; apply carries_refl|]. ok_path C.
  destruct (j_episodes db !! (si, fs)) as [row|] eqn:Er; [|injection C as <-; apply carries_refl].
  ok_if C G; [|injection C as <-; apply carries_refl]. injection C as <-. columns. subst.
  apply andb_true_iff in G as [[[[_ Rv]%andb_true_iff _]%andb_true_iff _]%andb_true_iff _]. apply Z.eqb_eq in Rv.
  eapply carries_write; [exact Er|done|]. split; cbn; lia.
Qed.

Lemma clear_ends h si fs aliases ep a m f t db r : distinct_ids db ->
  clear_disk_pressure_episode_if_healthy decode_baseline sha256_hex h si fs aliases ep a m f t db = Ok r ->
  carries (m <= a) db r.1 \/ fleet_is_safe r.1.
Proof.
  intros D C. pose proof (clear_same _ _ _ _ _ _ _ _ _ _ _ _ _ C) as Sj. revert C.
  unfold clear_disk_pressure_episode_if_healthy. intros C. ok_path C.
  ok_if C L; [injection C as <-; left; apply carries_refl|]. apply Z.ltb_ge in L. ok_path C. begun.
  case_match; [|injection C as <-; left; apply carries_refl]. ok_path C.
  case_match; [|injection C as <-; left; apply carries_refl]. subst.
  match goal with E : load_disk_pressure_episode _ _ _ = Ok (Some ?e) |- _ =>
    apply load_episode_some in E as (row & Er & La); rename e into cur end.
  ok_if C C1; [injection C as <-; left; apply carries_refl|]. ok_if C C2; [injection C as <-; left; apply carries_refl|].
  ok_path C. ok_if C C3; [injection C as <-; left; apply carries_refl|]. apply negb_false_iff in C3. subst.
  ok_if C C4.
  - left. ok_path C. injection C as <-. cbn [fst]. columns. subst. apply carries_update. intros r' Er'.
    rewrite Er in Er'. injection Er' as <-. destruct La. split; cbn; lia.
  - ok_path C. injection C as <-. columns. subst. destruct (ep_terminal cur) eqn:T.
    + right. match goal with E : result_bind (load_state_of db) _ = Ok true |- _ => ok_path E; injection E as Sf end.
      match goal with E : load_state_of db = Ok ?st |- _ => exists st; rewrite <- E end. split; [|done].
      apply load_state_same; apply Sj.
    + left. apply delete_own_carries.
      * intros y r' Y Ny Ey. unfold row_is. apply andb_false_iff. left. apply bool_decide_eq_false. intros I.
        apply Ny. destruct La. rewrite <- la_id0 in I. assert ((si, y) = (si, fs)) by (by eapply D). congruence.
      * intros r' Er'. rewrite Er in Er'. injection Er' as <-. split; [done|]. destruct La. unfold flag in *.
        by rewrite la_terminal0, T.
Qed.

Lemma rebind_ends H h si fs aliases ep a m f d e uuid t db r :
  rebind_disk_pressure_episode_if_safe decode_baseline sha256_hex h si fs aliases ep a m f d e uuid t db = Ok r ->
  carries H db r.1 \/ fleet_is_safe r.1.
Proof.
  unfold rebind_disk_pressure_episode_if_safe. intros C. ok_path C. ok_if C L; [injection C as <-; left; apply carries_refl|].
  ok_path C. begun.
  case_match; [|injection C as <-; left; apply carries_refl].
  ok_if C C1; [injection C as <-; left; apply carries_refl|].
  case_match; [|injection C as <-; left; apply carries_refl].
  ok_if C C2; [injection C as <-; left; apply carries_refl|]. ok_path C.
  ok_if C C3; [injection C as <-; left; apply carries_refl|]. ok_path C.
  ok_if C C4; [injection C as <-; left; apply carries_refl|]. apply negb_false_iff in C4. ok_path C.
  ok_if C C5; [injection C as <-; left; apply carries_refl|]. ok_path C. injection C as <-. right.
  match goal with E : load_state_of db = Ok ?st |- _ => exists st; rewrite <- E end. split; [|done].
  match goal with E : rebind_volume _ _ _ _ _ _ _ _ _ _ _ _ = Ok _ |- _ => apply rebind_volume_same in E as [] end.
  by apply load_state_same.
Qed.

(** ** All operations *)

(** The operations that touch episodes. *)
Definition on_episodes (op : JournalOp) : bool :=
  match op with
  | OpObserve _ _ _ _ _ _ _ _ _ | OpAdvance _ _ _ _ _ _ | OpAdvanceUnmeasurable _ _ _ _ _ | OpRetire _ _ _
  | OpClaim _ _ _ _ _ _ _ _ | OpClear _ _ _ _ _ _ _ _ | OpRebind _ _ _ _ _ _ _ _ _ _ _ => true
  | _ => false
  end.

Lemma inner_episodes clock h f evs db r :
  apply_many_inner encode decode decode_baseline sha256_hex clock h f evs db = Ok r -> j_episodes r.1 = j_episodes db.
Proof.
  intros (launch & _ & [[_ ->]|H])%apply_inner_Ok; [done|].
  apply write_fenced_Ok in H as (_ & _ & st & _ & _ & _ & [->|(w & l & _ & _ & [[_ ->]|(t & _ & _ & ->)])]); done.
Qed.

Lemma other_op_episodes clock h op db db' :
  run clock h op db = Ok db' -> on_episodes op = false -> j_episodes db' = j_episodes db.
Proof.
  intros H N. destruct op; try discriminate N; cbn [run_op] in H; apply database_Ok in H as (r & H & <-).
  1: by eapply inner_episodes.
  8: { apply issue_Ok in H as (_ & _ & st & _ & _ & _ & _ & _ & _ & [->|[_ ->]]); done. }
  8: { unfold revoke_disk_pressure_launch in H. ok_path H. begun. repeat case_match; injection H as <-; done. }
  all: try (unfold set_drain, clear_drain, set_admission_blocked, clear_admission_blocked_if in H; ok_path H;
            repeat (case_match; ok_path H); injection H as <-; done).
  all: unfold apply_with_disk_pressure_launch, intend_acquisition_with_disk_pressure_launch,
         resolve_acquisition_response, resolve_acquisition_response_at_endpoint,
         abandon_acquisition_response_at_endpoint, abandon_acquisition_after_disk_pressure_terminal,
         confirm_acquisition_after_disk_pressure_terminal, popped in H; ok_path H;
       try (destruct (h_worker_launch h); ok_path H); injection H as <-; by eapply inner_episodes.
Qed.

(** The operation brought a measurement of enough free space. *)
Definition measured_healthy (op : JournalOp) : Prop :=
  match op with
  | OpObserve _ _ _ _ samples _ _ _ _ => exists sample, sample ∈ samples /\ space_is_low sample = false
  | OpClear _ _ _ _ available minimum _ _ => minimum <= available
  | _ => False
  end.

Lemma op_ends clock h op db db' :
  run clock h op db = Ok db' -> distinct_ids db -> carries (measured_healthy op) db db' \/ fleet_is_safe db'.
Proof.
  intros H D. destruct (on_episodes op) eqn:O; [|left; apply carries_same; by eapply other_op_episodes].
  destruct op; try discriminate O; cbn [run_op] in H; try (apply database_Ok in H as (r & H & <-)).
  - left. unfold observe_disk_pressure_roots in H. ok_path H. begun.
    match goal with E : observe_samples _ _ _ _ _ _ _ = Ok _ |- _ => apply observe_samples_carries in E as C end.
    ok_if H T; [|by injection H as <-]. ok_path H. injection H as <-. eapply carries_trans; [exact C|].
    apply carries_same. by eapply fence_fleet_episodes.
  - left. unfold advance_disk_pressure_roots in H. ok_path H. begun. eapply carries_trans; [by eapply advance_samples_carries|].
    apply carries_same. by eapply fence_fleet_episodes.
  - left. unfold advance_unmeasurable_disk_pressure in H. ok_path H. begun. injection H as <-.
    eapply carries_trans; [by eapply advance_samples_carries|]. apply carries_same. by eapply fence_fleet_episodes.
  - by eapply retire_ends.
  - left. by eapply claim_carries.
  - by eapply clear_ends.
  - by eapply rebind_ends.
Qed.
End Ends.

(** * Episodes are told apart

    Every episode has an identity of its own, drawn when it is created and kept
    when the roots of one device are merged, so that a clearing or a claim that
    names an episode meets that episode. With it the account of how episodes
    end holds in every journal that operations can reach. *)

(** Told apart, and drawn from [drawn]. *)
Record ids_ok (drawn : string -> Prop) (db : JournalDb) : Prop := {
  io_distinct : distinct_ids db;
  io_drawn k r : j_episodes db !! k = Some r -> drawn (e_episode_id r);
}.

Lemma ids_weaken (D D' : string -> Prop) db : (forall i, D i -> D' i) -> ids_ok D db -> ids_ok D' db.
Proof. intros I [A B]. split; eauto. Qed.

(** No row appears and every row keeps its identity. *)
Definition ids_kept (db db' : JournalDb) : Prop :=
  forall k r', j_episodes db' !! k = Some r' ->
    exists r, j_episodes db !! k = Some r /\ e_episode_id r' = e_episode_id r.
#[export] Instance ids_kept_preorder : PreOrder ids_kept.
Proof.
  split; [intros db k r E; by exists r|]. intros a b c F G k r E. destruct (G _ _ E) as (r1 & E1 & I1).
  destruct (F _ _ E1) as (r0 & E0 & I0). exists r0. split; [done|congruence].
Qed.

Lemma ids_kept_ok D db db' : ids_kept db db' -> ids_ok D db -> ids_ok D db'.
Proof.
  intros K [A B]. split.
  - intros k k' r r' E E' I. destruct (K _ _ E) as (s & Es & Is). destruct (K _ _ E') as (s' & Es' & Is').
    apply (A k k' s s'); congruence.
  - intros k r E. destruct (K _ _ E) as (s & Es & ->). by eapply B.
Qed.

Lemma same_ids db db' : j_episodes db' = j_episodes db -> ids_kept db db'.
Proof. intros E k r. rewrite E. eauto. Qed.
Lemma kept_write db db' k r r' : j_episodes db !! k = Some r -> j_episodes db' = <[k := r']> (j_episodes db) ->
  e_episode_id r' = e_episode_id r -> ids_kept db db'.
Proof.
  intros E W I k0 r0. rewrite W. destruct (decide (k0 = k)) as [->|N].
  - rewrite lookup_insert_eq. intros [= <-]. eauto.
  - rewrite lookup_insert_ne by done. eauto.
Qed.
Lemma kept_delete db db' k : j_episodes db' = delete k (j_episodes db) -> ids_kept db db'.
Proof. intros W k0 r0. rewrite W. intros [_ E]%lookup_delete_Some. eauto. Qed.

Lemma update_ids si fs id rev f db : (forall r, e_episode_id (f r) = e_episode_id r) ->
  ids_kept db (update_episode si fs id rev f db).1.
Proof.
  intros F. unfold update_episode. destruct (j_episodes db !! _) as [r|] eqn:E; [|done].
  destruct (row_is _ _ _); [|done]. by eapply kept_write.
Qed.
Lemma kept_delete_episode si fs id rev db : ids_kept db (delete_episode si fs id rev db).1.
Proof. destruct (delete_episode_cases si fs id rev db) as [->|(r & _ & _ & D)]; [done|by eapply kept_delete]. Qed.
Lemma kept_delete_group si fs ids id rev db : ids_kept db (delete_group si fs ids id rev db).1.
Proof.
  unfold delete_group. generalize false. revert db.
  induction ids as [|x ids IH]; intros db b; cbn [fold_left fst]; [done|].
  pose proof (kept_delete_episode si x id rev db) as K. destruct (delete_episode si x id rev db) as [db1 d].
  etrans; [exact K|apply IH].
Qed.

Lemma ids_insert D si fs ep db db' :
  insert_episode si fs ep db = Ok db' -> ids_ok D db -> ~ D (ep_episode_id ep) ->
  ids_ok (fun i => D i \/ i = ep_episode_id ep) db'.
Proof.
  unfold insert_episode. intros I [A B] N. ok_path I. destruct (j_episodes db !! (si, fs)); [done|]. injection I as <-.
  assert (Ix : e_episode_id x = ep_episode_id ep).
  { unfold episode_row in E. ok_path E. by injection E as <-. }
  split.
  - intros k k' r r'. cbn. rewrite !lookup_insert_Some.
    intros [[<- <-]|[Nk Ek]] [[<- <-]|[Nk' Ek']] Ir; try done; [..|by eapply A]; exfalso; apply N.
    + rewrite <- Ix, Ir. by eapply B.
    + rewrite <- Ix, <- Ir. by eapply B.
  - intros k r. cbn. rewrite lookup_insert_Some. intros [[<- <-]|[Nk Ek]]; [by right|left; by eapply B].
Qed.

(** ** Merging *)

Lemma load_episodes_rows si roots db eps : load_episodes si roots db = Ok eps ->
  forall ep, ep ∈ eps -> exists x r, x ∈ roots /\ j_episodes db !! (si, x) = Some r /\ loaded_as r ep.
Proof.
  revert eps. induction roots as [|a roots IH]; intros eps H ep I; cbn [load_episodes] in H.
  - injection H as <-. by apply elem_of_nil in I.
  - ok_path H. injection H as <-.
    assert (T : ep ∈ x0 -> exists y r, y ∈ a :: roots /\ j_episodes db !! (si, y) = Some r /\ loaded_as r ep).
    { intros (y & r & Y & R)%(IH _ E0). exists y, r. split; [by right|done]. }
    destruct x as [e|]; [|auto]. apply elem_of_cons in I as [->|I]; [|auto].
    apply load_episode_some in E as (r & Er & L). exists a, r. split; [by left|done].
Qed.

Lemma merged_id l m : ep_episode_id (fold_left merge_two l m) = ep_episode_id m.
Proof. revert m. induction l as [|a l IH]; intros m; cbn [fold_left]; [done|]. by rewrite IH. Qed.

Lemma merge_ids D si sample c db db' :
  merge_pressure_alias_episodes si sample c db = Ok db' -> ids_ok D db -> ids_ok D db'.
Proof.
  unfold merge_pressure_alias_episodes. intros M [A B]. ok_if M Al; [by injection M as <-|]. ok_path M.
  destruct (sort_episodes x) as [|oldest rest] eqn:S; [by injection M as <-|]. rewrite <- S in *. ok_path M. injection M as <-.
  destruct (load_episodes_rows _ _ _ _ E oldest) as (a & ra & Ra & Ea & La).
  { apply sort_elem. rewrite S. by left. }
  assert (Ix : e_episode_id x1 = e_episode_id ra).
  { unfold episode_row in E1. ok_path E1. injection E1 as <-. cbn. rewrite merged_id. by destruct La. }
  set (roots := alias_roots _ _) in *. set (main := fs_filesystem_id sample) in *.
  assert (Q : forall k r, fold_left (fun m alias => if bool_decide (alias = main) then m else delete (si, alias) m)
      roots (<[(si, main) := x1]> (j_episodes db)) !! k = Some r ->
    (k = (si, main) /\ r = x1) \/ (j_episodes db !! k = Some r /\ k <> (si, a) /\ k <> (si, main))).
  { intros [s y] r. rewrite delete_aliases_lookup. case_decide as Dc; [done|].
    rewrite lookup_insert_Some. intros [[<- <-]|[Nk Ek]]; [by left|]. right. split_and!; [done| |congruence].
    intros [= -> ->]. apply Dc. split_and!; [done..|]. intros ->. done. }
  split.
  - intros k k' r r' E2 E2' I. apply Q in E2 as [[-> ->]|(E2 & N & N')], E2' as [[-> ->]|(E2' & N2 & N2')]; try done.
    + exfalso. apply N2. apply (A _ _ _ _ E2' Ea). congruence.
    + exfalso. apply N. apply (A _ _ _ _ E2 Ea). congruence.
    + by eapply A.
  - intros k r [[-> ->]|[E2 _]]%Q; [rewrite Ix|]; by eapply B.
Qed.

(** ** Observations *)

Lemma updated_kept si fs id rev f db db' b :
  update_episode si fs id rev f db = (db', b) -> (forall r, e_episode_id (f r) = e_episode_id r) -> ids_kept db db'.
Proof. intros E F. pose proof (update_ids si fs id rev f db F) as K. by rewrite E in K. Qed.

(** A sample leaves the identities as they are or draws the one of its
    filesystem. *)
Lemma observe_ids D si sample d e uuid t db r :
  observe_disk_pressure_in_transaction si sample d e uuid t db = Ok r ->
  ids_ok D db -> ~ D (uuid (fs_filesystem_id sample)) ->
  ids_ok (fun i => D i \/ i = uuid (fs_filesystem_id sample)) r.1.
Proof.
  unfold observe_disk_pressure_in_transaction. intros H I N. ok_path H.
  apply clock_samples_same in E as [_ S1]. eapply ids_kept_ok in I; [|exact (same_ids _ _ S1)].
  apply (merge_ids _ _ _ _ _ _ E0) in I. destruct x1 as [ep|].
  - apply (ids_weaken D); [auto|]. eapply ids_kept_ok; [|exact I]. unfold observe_existing in H. ok_if H C.
    + ok_path H. injection H as <-. unfold delete_pressure_episode_alias_group in *.
      match goal with E : result_bind _ _ = Ok _ |- _ => ok_path E; injection E as <- end. apply kept_delete_group.
    + ok_path H. injection H as <-. by eapply updated_kept.
  - unfold observe_new in H. ok_if H C; [injection H as <-; apply (ids_weaken D); auto|]. ok_path H. injection H as <-.
    match goal with E : insert_episode _ _ _ _ = Ok _ |- _ => by apply (ids_insert D) in E end.
Qed.
Lemma advance_ids D si sample d e uuid t db db' :
  advance_controller_pressure_sample si sample d e uuid t db = Ok db' ->
  ids_ok D db -> ~ D (uuid (fs_filesystem_id sample)) ->
  ids_ok (fun i => D i \/ i = uuid (fs_filesystem_id sample)) db'.
Proof.
  unfold advance_controller_pressure_sample. intros H I N. ok_path H.
  apply clock_samples_same in E as [_ S1]. eapply ids_kept_ok in I; [|exact (same_ids _ _ S1)].
  apply (merge_ids _ _ _ _ _ _ E0) in I. destruct x1 as [ep|].
  - apply (ids_weaken D); [auto|]. eapply ids_kept_ok; [|exact I]. unfold advance_existing in H.
    ok_path H. injection H as <-. by eapply updated_kept.
  - unfold advance_new in H. ok_if H C; [injection H as <-; apply (ids_weaken D); auto|]. ok_path H.
    match goal with E : insert_episode _ _ _ _ = Ok _ |- _ => by apply (ids_insert D) in E end.
Qed.

(** The identities of a batch: those of before, and those of its samples. *)
Definition drawn_by (uuid : string -> string) (samples : list DiskPressureFilesystemSample) (i : string) : Prop :=
  exists fs, fs ∈ map fs_filesystem_id samples /\ i = uuid fs.

Lemma batch_fresh (D : string -> Prop) uuid s samples :
  (forall fs, fs ∈ map fs_filesystem_id (s :: samples) -> ~ D (uuid fs)) -> Inj eq eq uuid ->
  NoDup (map fs_filesystem_id (s :: samples)) ->
  forall fs, fs ∈ map fs_filesystem_id samples -> ~ (D (uuid fs) \/ uuid fs = uuid (fs_filesystem_id s)).
Proof.
  intros F J [N _]%NoDup_cons fs E [Df|U]; [apply (F fs); [by right|done]|]. apply J in U. by subst.
Qed.

Lemma observe_samples_ids D si samples d e uuid t db r :
  observe_samples si samples d e uuid t db = Ok r -> ids_ok D db -> Inj eq eq uuid ->
  NoDup (map fs_filesystem_id samples) -> (forall fs, fs ∈ map fs_filesystem_id samples -> ~ D (uuid fs)) ->
  ids_ok (fun i => D i \/ drawn_by uuid samples i) r.1.
Proof.
  revert D db r. induction samples as [|s samples IH]; intros D db r H I J ND F; cbn [observe_samples] in H.
  - injection H as <-. apply (ids_weaken D); auto.
  - ok_path H. injection H as <-. cbn [fst]. apply (observe_ids D) in E; [|done|apply F; by left].
    eapply ids_weaken, IH; [|done|exact E|done|by apply NoDup_cons in ND as [_ ?]|by apply batch_fresh].
    intros i [[?| ->]|(fs & Efs & ->)]; [by left|right; exists (fs_filesystem_id s); split; [by left|done]|].
    right. exists fs. split; [by right|done].
Qed.
Lemma advance_samples_ids D si samples d e uuid t db db' :
  advance_samples si samples d e uuid t db = Ok db' -> ids_ok D db -> Inj eq eq uuid ->
  NoDup (map fs_filesystem_id samples) -> (forall fs, fs ∈ map fs_filesystem_id samples -> ~ D (uuid fs)) ->
  ids_ok (fun i => D i \/ drawn_by uuid samples i) db'.
Proof.
  revert D db. induction samples as [|s samples IH]; intros D db H I J ND F; cbn [advance_samples] in H.
  - injection H as <-. apply (ids_weaken D); auto.
  - ok_path H. apply (advance_ids D) in E; [|done|apply F; by left].
    eapply ids_weaken, IH; [|done|exact E|done|by apply NoDup_cons in ND as [_ ?]|by apply batch_fresh].
    intros i [[?| ->]|(fs & Efs & ->)]; [by left|right; exists (fs_filesystem_id s); split; [by left|done]|].
    right. exists fs. split; [by right|done].
Qed.

(** A valid batch names every filesystem once. *)
Lemma roots_distinct_Ok roots seen seen' : roots_distinct roots seen = Ok seen' ->
  seen' = seen ++ roots /\ forall x, x ∈ roots -> x ∉ seen.
Proof.
  revert seen. induction roots as [|r roots IH]; intros seen H; cbn [roots_distinct] in H.
  - injection H as <-. rewrite app_nil_r. split; [done|]. by intros x ?%elem_of_nil.
  - ok_path H. apply bool_decide_eq_false in E0. apply IH in H as [-> N]. rewrite <- app_assoc. split; [done|].
    intros y [->|Y]%elem_of_cons; [done|]. intros Q. apply (N y Y). apply elem_of_app. by left.
Qed.
Lemma samples_valid_distinct samples seen : samples_valid samples seen = Ok tt ->
  NoDup (map fs_filesystem_id samples) /\ forall fs, fs ∈ map fs_filesystem_id samples -> fs ∉ seen.
Proof.
  revert seen. induction samples as [|s samples IH]; intros seen H; cbn [samples_valid] in H.
  - split; [constructor|]. by intros fs ?%elem_of_nil.
  - ok_path H. apply roots_distinct_Ok in E0 as [-> N]. apply IH in H as [ND F]. cbn [map]. split.
    + apply NoDup_cons. split; [|done]. intros X. apply (F _ X). apply elem_of_app. right. by left.
    + intros fs [->|X]%elem_of_cons; [apply N; by left|]. intros Q. apply (F _ X). apply elem_of_app. by left.
Qed.
Lemma episode_ids_distinct si db : NoDup (episode_ids si db).
Proof.
  unfold episode_ids. rewrite merge_sort_Permutation. apply NoDup_fmap_2_strong; [|apply NoDup_fst_map_to_list].
  assert (O : forall k, k ∈ (map_to_list (filter (fun kr => kr.1.1 = si) (j_episodes db))).*1 -> k.1 = si).
  { intros k ([k' r] & -> & E)%list_elem_of_fmap. by apply elem_of_map_to_list, map_lookup_filter_Some in E as [_ E]. }
  intros [s1 f1] [s2 f2] E1%O E2%O Q. cbn in *. by subst.
Qed.

(** ** Executions *)

(** Identities that are drawn, one per filesystem and none a recorded one. *)
Definition fresh_draw (uuid : string -> string) (db : JournalDb) : Prop :=
  Inj eq eq uuid /\ forall fs k r, j_episodes db !! k = Some r -> e_episode_id r <> uuid fs.
Definition draws_fresh (op : JournalOp) (db : JournalDb) : Prop :=
  match op with
  | OpObserve _ _ _ _ _ _ _ uuid _ | OpAdvance _ _ _ _ uuid _ | OpAdvanceUnmeasurable _ _ _ uuid _
  | OpRebind _ _ _ _ _ _ _ _ _ uuid _ => fresh_draw uuid db
  | _ => True
  end.

Definition recorded (db : JournalDb) (i : string) : Prop := exists k r, j_episodes db !! k = Some r /\ e_episode_id r = i.
Lemma ids_recorded db : distinct_ids db -> ids_ok (recorded db) db.
Proof. intros A. split; [done|]. intros k r E. by exists k, r. Qed.
Lemma fresh_recorded uuid db : fresh_draw uuid db -> forall fs, ~ recorded db (uuid fs).
Proof. intros [_ F] fs (k & r & E & I). by apply (F fs k r). Qed.

Section Executions.
Context (encode : Event -> string) (decode : string -> option Event).
Context (decode_baseline : string -> option ReplayBaseline) (sha256_hex : string -> string).
#[local] Abbreviation run := (run_op encode decode decode_baseline sha256_hex).

Lemma retire_kept clock h si observed complete db db' :
  retire_unobserved_disk_pressure_episodes encode decode_baseline sha256_hex clock h si observed complete db = Ok db' ->
  ids_kept db db'.
Proof.
  assert (R : forall ids db0 db1, retire_rows si ids db0 = Ok db1 -> ids_kept db0 db1).
  { induction ids as [|id ids IH]; intros db0 db1 R; cbn [retire_rows] in R; [by injection R as <-|].
    destruct (j_episodes db0 !! (si, id)) as [r|] eqn:Er; [|auto]. ok_path R. etrans; [|by apply IH]. by eapply kept_write. }
  assert (T : forall ids db0, ids_kept db0 (fold_left (delete_terminal si) ids db0)).
  { induction ids as [|id ids IH]; intros db0; cbn [fold_left]; [done|]. etrans; [|apply IH]. unfold delete_terminal.
    repeat case_match; try done. by eapply kept_delete. }
  unfold retire_unobserved_disk_pressure_episodes. intros H. ok_path H. ok_if H C; [by injection H as <-|]. ok_path H. begun.
  destruct (List.filter _ _) as [|id ids] eqn:F; [by injection H as <-|]. rewrite <- F in *. ok_path H. injection H as <-.
  match goal with E : retire_rows _ _ _ = Ok _ |- _ => apply R in E; etrans; [exact E|] end.
  match goal with E : persist_pressure_terminal_slot_fences _ _ _ _ _ _ = Ok ?d |- _ =>
    apply fence_fleet_episodes in E; etrans; [apply (same_ids _ d); by rewrite E|] end.
  case_match; [apply T|done].
Qed.

Lemma claim_kept h si fs aliases ep a m f t db r :
  claim_disk_pressure_reclaim decode_baseline sha256_hex h si fs aliases ep a m f t db = Ok r -> ids_kept db r.1.
Proof.
  unfold claim_disk_pressure_reclaim. intros C. ok_path C. ok_if C L; [by injection C as <-|]. ok_path C. begun.
  repeat (case_match; ok_path C); injection C as <-; try done; by eapply kept_write.
Qed.

Lemma clear_kept h si fs aliases ep a m f t db r :
  clear_disk_pressure_episode_if_healthy decode_baseline sha256_hex h si fs aliases ep a m f t db = Ok r ->
  ids_kept db r.1.
Proof.
  unfold clear_disk_pressure_episode_if_healthy. intros C. ok_path C. ok_if C L; [by injection C as <-|]. ok_path C. begun.
  repeat (case_match; ok_path C); injection C as <-; try done.
  all: try apply kept_delete_group; try by apply update_ids.
Qed.

Lemma rebind_volume_distinct si fs aliases ep a m f d e uuid t db db' :
  rebind_volume si fs aliases ep a m f d e uuid t db = Ok db' ->
  fresh_draw uuid db -> distinct_ids db -> distinct_ids db'.
Proof.
  unfold rebind_volume. intros H F A. ok_path H.
  match goal with D : delete_episode ?a ?b ?c ?d ?x = _ |- _ =>
    pose proof (kept_delete_episode a b c d x) as K; rewrite D in K; cbn [fst] in K end.
  match goal with R : rebind_roots _ _ _ _ _ _ = Ok _ |- _ => apply rebind_roots_same in R as [_ R] end.
  assert (I : ids_ok (recorded db) (revoke_all si x0)).
  { eapply ids_kept_ok; [|by apply ids_recorded]. etrans; [exact K|by apply same_ids]. }
  ok_if H Lo; [|injection H as <-; apply I]. ok_path H.
  match goal with E : insert_episode _ _ _ _ = Ok _ |- _ => apply (ids_insert (recorded db)) in E as [? _]; try done end.
  by apply fresh_recorded.
Qed.

Lemma step_distinct clock h op db db' :
  run clock h op db = Ok db' -> draws_fresh op db -> distinct_ids db -> distinct_ids db'.
Proof.
  intros H F A. pose proof (ids_recorded db A) as I.
  destruct (on_episodes op) eqn:O; cycle 1.
  { apply other_op_episodes in H; [|done]. by apply (ids_kept_ok _ _ _ (same_ids _ _ H)) in I as [? _]. }
  destruct op; try discriminate O; cbn [run_op draws_fresh] in *; try (apply database_Ok in H as (r & H & <-)).
  - unfold observe_disk_pressure_roots in H. ok_path H. begun.
    match goal with V : samples_valid _ _ = Ok ?u |- _ => destruct u; apply samples_valid_distinct in V as [ND _] end.
    match goal with E : observe_samples _ _ _ _ _ _ _ = Ok _ |- _ =>
      apply (observe_samples_ids (recorded db)) in E as K; [|done|apply F|done|by intros; apply fresh_recorded] end.
    ok_if H T; [|by injection H as <-; destruct K]. ok_path H. injection H as <-.
    eapply ids_kept_ok in K as [? _]; [done|]. apply same_ids. by eapply fence_fleet_episodes.
  - unfold advance_disk_pressure_roots in H. ok_path H. begun.
    match goal with V : samples_valid _ _ = Ok ?u |- _ => destruct u; apply samples_valid_distinct in V as [ND _] end.
    match goal with E : advance_samples _ _ _ _ _ _ _ = Ok _ |- _ =>
      apply (advance_samples_ids (recorded db)) in E as K; [|done|apply F|done|by intros; apply fresh_recorded] end.
    eapply ids_kept_ok in K as [? _]; [done|]. apply same_ids. by eapply fence_fleet_episodes.
  - unfold advance_unmeasurable_disk_pressure in H. ok_path H. begun. injection H as <-.
    assert (ND : NoDup (map fs_filesystem_id (map unknown_sample (episode_ids si db)))).
    { rewrite map_map. cbn. rewrite map_id. apply episode_ids_distinct. }
    match goal with E : advance_samples _ _ _ _ _ _ _ = Ok _ |- _ =>
      apply (advance_samples_ids (recorded db)) in E as K; [|done|apply F|done|by intros; apply fresh_recorded] end.
    eapply ids_kept_ok in K as [? _]; [done|]. apply same_ids. by eapply fence_fleet_episodes.
  - by apply (ids_kept_ok _ _ _ (retire_kept _ _ _ _ _ _ _ H)) in I as [? _].
  - by apply (ids_kept_ok _ _ _ (claim_kept _ _ _ _ _ _ _ _ _ _ _ H)) in I as [? _].
  - by apply (ids_kept_ok _ _ _ (clear_kept _ _ _ _ _ _ _ _ _ _ _ H)) in I as [? _].
  - unfold rebind_disk_pressure_episode_if_safe in H. ok_path H. ok_if H L; [by injection H as <-|]. ok_path H. begun.
    repeat (case_match; ok_path H); injection H as <-; try done. by eapply rebind_volume_distinct.
Qed.

(** One operation of some process, its identities freshly drawn. *)
Definition pressure_step (db db' : JournalDb) : Prop :=
  exists clock h op, run clock h op db = Ok db' /\ draws_fresh op db.

End Executions.
