(* ===== verification/PressureRefine.v ===== *)
(** * Disk pressure: the log still replays to the tables

    Fenced writes, leases, episodes and the terminal fence, in any order and by
    any handles, keep the journal's promise: the events it logged, replayed,
    give the state its tables hold, and the checked read returns it. *)

From S2P Require Import Prelude Numerals NodeModel JournalData JournalReduce JournalInv JournalSafety JournalStore JournalStoreProofs JournalReplay JournalRefine PressureData PressureFences PressureEpisodes PressureOps PressureSteps PressureLeases PressureEnds.
From Stdlib Require Import String.
From stdpp Require Import base gmap list strings sorting.
#[local] Open Scope Z_scope.
#[local] Open Scope result_scope.

(** ** Databases with one log and one fleet *)

Record same_core (db db' : JournalDb) : Prop := {
  sc_version : j_user_version db' = j_user_version db;
  sc_fence : j_fence_exact db' = j_fence_exact db;
  sc_legacy : j_legacy db' = j_legacy db;
  sc_events : j_events db' = j_events db;
  sc_tables : j_tables db' = j_tables db;
}.
#[export] Instance same_core_preorder : PreOrder same_core.
Proof. split; [intros db; by split|]. intros a b c [] []. split; congruence. Qed.
Lemma same_journal_core db db' : same_journal db db' -> same_core db db'.
Proof. by intros []. Qed.

Section Refine.
Context (encode : Event -> string) (decode : string -> option Event).
Context (decode_baseline : string -> option ReplayBaseline) (sha256_hex : string -> string).
Hypothesis decode_encode : forall e, decode (encode e) = Some e.
#[local] Abbreviation row := (event_row encode sha256_hex).
#[local] Abbreviation run := (run_op encode decode decode_baseline sha256_hex).
#[local] Abbreviation tracks := (tracks encode decode decode_baseline sha256_hex).
#[local] Abbreviation fence_fleet := (persist_pressure_terminal_slot_fences encode decode_baseline sha256_hex).

#[local] Instance row_inj : Inj eq eq row.
Proof.
  intros e e' E. assert (P : encode e = encode e') by (by injection E). apply (f_equal decode) in P.
  rewrite !decode_encode in P. congruence.
Qed.
Lemma rows_inj l l' : map row l = map row l' -> l = l'.
Proof. intros E. by apply (inj (fmap row)) in E. Qed.

Lemma tracks_same seed db log db' : tracks seed db log -> same_core db db' -> tracks seed db' log.
Proof.
  intros [E R B S] [V F L Ev T]. destruct (readable_same decode_baseline sha256_hex db db' V F) as [R' B']; [by rewrite T|].
  split; [congruence|by rewrite R'|by rewrite B'|]. by rewrite L, T.
Qed.

(** ** The terminal fence *)

Lemma timely_fences gd clock p l w : timely_batch gd clock p w (fence_events l).
Proof.
  unfold fence_events. revert w. induction (List.filter _ l) as [|s l' IH]; intros w; cbn; [done|]. split; [done|]. by case_match.
Qed.
Lemma completes_once_fences log l : completes_once log -> completes_once (log ++ fence_events l).
Proof.
  assert (N : forall k g sha, Ev.CompletionIntended k g sha ∉ fence_events l).
  { intros k g sha (s & E & _)%list_elem_of_fmap. done. }
  intros C l1 k g sha l2 E. apply app_eq_app in E as (l' & [[-> E]|[-> E]]).
  - destruct l' as [|e l']; [exfalso; apply (N k g sha); cbn in E; rewrite <- E; by left|].
    injection E as <- ->. by eapply C.
  - exfalso. apply (N k g sha). rewrite E. apply elem_of_app. right. by left.
Qed.

Lemma fenced_storable st : storable st -> storable (set_slots (map fenced_slot (slots st)) st).
Proof.
  intros []. split; try done. cbn [slots set_slots]. intros s (s0 & -> & E)%list_elem_of_fmap. by apply sb_slots in E.
Qed.

Lemma tracks_fenced seed db log clock si db' :
  tracks seed db log -> completes_once log -> (forall st, load_state_of db = Ok st -> storable st) ->
  fence_fleet clock si db = Ok db' ->
  exists l, j_events db' = j_events db ++ map row (fence_events l) /\ tracks seed db' (log ++ fence_events l).
Proof.
  intros Tr C Sb H. destruct Tr as [E R B (st & L & I & Rp)] eqn:Eq. clear Eq.
  assert (L' : load_state_of db = Ok st) by (unfold load_state_of, lift; by rewrite L). specialize (Sb _ L').
  destruct (terminal_episode si db) eqn:T; cycle 1.
  { unfold persist_pressure_terminal_slot_fences in H. rewrite T in H. injection H as <-. exists []. by rewrite !app_nil_r. }
  destruct (capacity_invalid st) eqn:Ci.
  { unfold persist_pressure_terminal_slot_fences in H. rewrite T, L' in H. cbn in H. by rewrite Ci in H. }
  assert (G : Forall (fun s => s_generation s <= i64_max) (slots st)).
  { apply Forall_forall. intros s Es. by apply (sb_slots _ Sb). }
  pose proof (fence_slots_all encode sha256_hex clock si st (slots st) [] db (ji_slots _ I) G) as Fs. cbn [app map] in Fs.
  replace (set_slots (slots st) st) with st in Fs by (by destruct st).
  eapply (fence_slots_written _ _ _ _ _ _ _ _ _ (fresh_writer st)) in Fs as (w & W & S & Fi & Pe & _); [|done].
  rewrite (fence_fleet_terminal _ _ _ _ _ _ _ T L' Ci (ji_slots _ I) G) in H.
  apply bind_Ok in H as (t & P & H). injection H as <-. apply persist_state_rows in P. cbn [w_pending fresh_writer app] in Pe.
  exists (slots st). split; [done|]. rewrite <- Pe.
  eapply (tracks_written encode decode decode_baseline sha256_hex decode_encode seed db log plain_guard false clock);
    [done|by apply (fence_events_fit (j_legacy db) (j_tables db))|done|exact W|apply timely_fences| | |by rewrite Pe|done|].
  - rewrite S. by apply fenced_storable.
  - rewrite Pe. by apply completes_once_fences.
  - right. split; [done|]. by rewrite S.
Qed.

(** ** Operations on leases and episodes *)

(** Such an operation changes leases, episodes and observations, and in
    between it may fence the fleet. *)
Definition fences_between (clock : Z) (si : string) (db db' : JournalDb) : Prop :=
  exists db1 db2, same_core db db1 /\ (db2 = db1 \/ fence_fleet clock si db1 = Ok db2) /\ same_core db2 db'.
Lemma fences_none clock si db db' : same_core db db' -> fences_between clock si db db'.
Proof. exists db', db'. split; [done|]. split; [by left|done]. Qed.
Lemma fences_once clock si db db1 db2 db' :
  same_core db db1 -> fence_fleet clock si db1 = Ok db2 -> same_core db2 db' -> fences_between clock si db db'.
Proof. exists db1, db2. auto. Qed.

Lemma pressure_shape clock h op db db' :
  run clock h op db = Ok db' -> on_episodes op = true -> exists si, fences_between clock si db db'.
Proof.
  intros H O. destruct op; try discriminate O; cbn [run_op] in H; try (apply database_Ok in H as (r & H & <-));
    exists si.
  - unfold observe_disk_pressure_roots in H. ok_path H. begun.
    match goal with E : observe_samples _ _ _ _ _ _ _ = Ok _ |- _ => apply observe_samples_same, same_journal_core in E end.
    ok_if H T; [|injection H as <-; by apply fences_none]. ok_path H. injection H as <-. by eapply fences_once.
  - unfold advance_disk_pressure_roots in H. ok_path H. begun.
    match goal with E : advance_samples _ _ _ _ _ _ _ = Ok _ |- _ => apply advance_samples_same, same_journal_core in E end.
    by eapply fences_once.
  - unfold advance_unmeasurable_disk_pressure in H. ok_path H. begun. injection H as <-.
    match goal with E : advance_samples _ _ _ _ _ _ _ = Ok _ |- _ => apply advance_samples_same, same_journal_core in E end.
    by eapply fences_once.
  - unfold retire_unobserved_disk_pressure_episodes in H. ok_path H. ok_if H C; [injection H as <-; by apply fences_none|].
    ok_path H. begun. destruct (List.filter _ _) as [|id ids]; [injection H as <-; by apply fences_none|]. ok_path H. injection H as <-.
    match goal with E : retire_rows _ _ _ = Ok ?d |- _ => apply retire_rows_same, same_journal_core in E end.
    eapply fences_once; [|done|].
    + etrans; [done|]. by split.
    + case_match; [|done]. apply same_journal_core, (delete_terminal_same _ (id :: ids)).
  - by eapply fences_none, same_journal_core, claim_same.
  - by eapply fences_none, same_journal_core, clear_same.
  - apply fences_none.
    unfold rebind_disk_pressure_episode_if_safe in H. ok_path H. ok_if H L; [by injection H as <-|]. ok_path H. begun.
    repeat (case_match; ok_path H); injection H as <-; try done.
    match goal with E : rebind_volume _ _ _ _ _ _ _ _ _ _ _ _ = Ok _ |- _ => apply rebind_volume_same in E as [] end. done.
Qed.

(** The operations of a lease. *)
Definition on_leases (op : JournalOp) : bool :=
  match op with OpIssue _ _ _ _ _ | OpRevoke _ _ _ => true | _ => false end.
Lemma lease_shape clock h op db db' : run clock h op db = Ok db' -> on_leases op = true -> same_core db db'.
Proof.
  intros H O. destruct op; try discriminate O; cbn [run_op] in H; apply database_Ok in H as (r & H & <-).
  - apply issue_Ok in H as (_ & _ & st & _ & _ & _ & _ & _ & _ & [->|[_ ->]]); done.
  - unfold revoke_disk_pressure_launch in H. ok_path H. begun. repeat case_match; injection H as <-; done.
Qed.

(** ** Executions *)

(** What processes do to one journal: it is opened with the tables of its
    replay baseline, then come batches through any handle and any fences (the
    acquisition operations are such), latches, leases and pressure operations.
    [new] is what an operation logged. *)
Inductive execution (seed : FleetState) : JournalDb -> list Event -> Prop :=
| execution_open db :
    j_events db = [] -> validate_replay_integrity_before_read decode_baseline sha256_hex db = Ok tt ->
    load_replay_baseline decode_baseline sha256_hex (t_meta (j_tables db)) = Ok (Some seed) ->
    JInv seed -> execution_backend seed = Docker -> (forall k, ~ settled k seed) ->
    load_materialized_state (j_legacy db) (j_tables db)
      = Ok (materialized (j_legacy db) (set_journal_writable true seed)) ->
    execution seed db []
| execution_batch db log new clock h f evs db' outs launch st :
    execution seed db log -> Forall (fun ev => fits (event_generation ev)) evs ->
    apply_many_inner encode decode decode_baseline sha256_hex clock h f evs db = Ok (db', outs) ->
    j_events db' = j_events db ++ map row new -> completes_once (log ++ new) ->
    effective_launch h f = Ok launch -> load_state_of db = Ok st ->
    timely_batch (loop_guard h f) clock (active_pressure_episode (pressure_service_instance h launch) db)
      (fresh_writer st) evs ->
    (forall w, write_all (loop_guard h f) clock (active_pressure_episode (pressure_service_instance h launch) db)
       (fresh_writer st) evs = Ok w -> storable (w_state w)) ->
    execution seed db' (log ++ new)
| execution_latch db log h v db' b :
    execution seed db log -> is_u64 v -> latched decode_baseline sha256_hex h v db db' b -> execution seed db' log
| execution_pressure db log new clock h op db' :
    execution seed db log -> run clock h op db = Ok db' -> on_episodes op || on_leases op = true ->
    j_events db' = j_events db ++ map row new -> (forall st, load_state_of db = Ok st -> storable st) ->
    execution seed db' (log ++ new).

Lemma new_rows db db' l new :
  j_events db' = j_events db ++ map row l -> j_events db' = j_events db ++ map row new -> l = new.
Proof. intros -> E%app_inv_head. by apply rows_inj. Qed.

Lemma tracks_inner seed db log new clock h f evs db' outs launch st :
  tracks seed db log -> Forall (fun ev => fits (event_generation ev)) evs ->
  apply_many_inner encode decode decode_baseline sha256_hex clock h f evs db = Ok (db', outs) ->
  j_events db' = j_events db ++ map row new -> completes_once (log ++ new) ->
  effective_launch h f = Ok launch -> load_state_of db = Ok st ->
  timely_batch (loop_guard h f) clock (active_pressure_episode (pressure_service_instance h launch) db)
    (fresh_writer st) evs ->
  (forall w, write_all (loop_guard h f) clock (active_pressure_episode (pressure_service_instance h launch) db)
     (fresh_writer st) evs = Ok w -> storable (w_state w)) ->
  tracks seed db' (log ++ new).
Proof.
  intros Tr G H Ne C La L T Sb. apply apply_inner_Ok in H as (launch' & La' & H). rewrite La in La'. injection La' as <-.
  assert (Z : db' = db -> tracks seed db' (log ++ new)).
  { intros ->. rewrite <- (new_rows db db [] new), app_nil_r; [done|by rewrite app_nil_r|done]. }
  destruct H as [[_ ?]|H]; [auto|]. apply write_fenced_Ok in H as (_ & _ & st' & L' & Ci & _ & H). cbn [fst] in H.
  rewrite L in L'. injection L' as <-. destruct H as [?|(w & l & W & _ & P)]; [auto|].
  assert (Lm : load_materialized_state (j_legacy db) (j_tables db) = Ok st).
  { unfold load_state_of, lift in L. destruct (load_materialized_state _ _); congruence. }
  assert (new = w_pending w) as ->.
  { symmetry. apply (new_rows db db'); [|done]. destruct P as [[-> ->]|(t & _ & _ & ->)]; [by rewrite app_nil_r|done]. }
  eapply (tracks_written encode decode decode_baseline sha256_hex decode_encode); try done; [by apply Sb|..];
    destruct P as [[Pe ->]|(t & _ & Pr & ->)]; auto.
Qed.

Lemma execution_tracks seed db log : execution seed db log -> tracks seed db log /\ completes_once log.
Proof.
  induction 1 as [db E R B I X S L|db log new clock h f evs db' outs launch st _ [IH Co] G A Ne C La L T Sb
                 |db log h v db' b _ [IH Co] V H|db log new clock h op db' _ [IH Co] H O Ne Sb].
  - split; [by apply tracks_open|]. intros l1 k g sha l2 E'. by destruct l1.
  - split; [|done]. by eapply tracks_inner.
  - split; [|done]. by eapply tracks_latched.
  - apply orb_true_iff in O as [O|O]; cycle 1.
    { pose proof (lease_shape _ _ _ _ _ H O) as S. rewrite <- (new_rows db db' [] new), app_nil_r; [|by rewrite app_nil_r; apply S|done].
      split; [by eapply tracks_same|done]. }
    apply pressure_shape in H as (si & db1 & db2 & S1 & F & S2); [|done].
    apply (tracks_same _ _ _ db1) in IH; [|done].
    assert (Sb1 : forall st, load_state_of db1 = Ok st -> storable st).
    { intros st. rewrite (load_state_same db db1); [auto|apply S1..]. }
    destruct F as [->|F].
    + rewrite <- (new_rows db db' [] new), app_nil_r; [|rewrite app_nil_r; by etrans; [apply S2|apply S1]|done].
      split; [by eapply tracks_same|done].
    + apply (tracks_fenced seed db1 log) in F as (l & El & Tl); [|done..].
      rewrite <- (new_rows db db' (fence_events l) new); [|by rewrite (sc_events _ _ S2), El, (sc_events _ _ S1)|done].
      split; [by eapply tracks_same|by apply completes_once_fences].
Qed.

(** C8: the checked read never contradicts the tables. After any execution of
    the journal's operations by any handles and at any clocks (batches with
    and without fences, acquisitions, latches, leases, observed, advanced,
    claimed, cleared, rebound and retired pressure episodes and the fences of
    the fleet they cause), in which no job identity is completed again after
    its completion settled and no completion is given up on its deadline
    alone, reading the journal at any time succeeds: every logged event is
    accepted again by the replay, and the state returned has the canonical
    projection and the latches of the materialized tables. *)
Theorem checked_read_refines_execution seed db log now :
  execution seed db log ->
  exists st ms,
    load_current_state_checked decode decode_baseline sha256_hex now db = Ok st /\
    load_state_of db = Ok ms /\
    canonical_projection st = canonical_projection ms /\
    (drain_active st, drain_version st, admission_blocked st, admission_version st)
    = (drain_active ms, drain_version ms, admission_blocked ms, admission_version ms).
Proof.
  intros [T _]%execution_tracks. destruct (tracks_read _ _ _ _ _ _ _ now T) as (st & ms & R & L & P).
  exists st, ms. split; [done|]. split; [|done]. unfold load_state_of, lift. by rewrite L.
Qed.
End Refine.

(** * The terminal fence stops the fleet

    In a journal that operations can reach, the fence of a terminal episode
    succeeds and leaves nothing that could take work. Below it, a scenario on
    a concrete journal: a controller bound to a service, a worker with a
    lease, and an episode from its first measurement to its terminal fence. *)

Section Terminal.
Context (encode : Event -> string) (decode : string -> option Event).
Context (decode_baseline : string -> option ReplayBaseline) (sha256_hex : string -> string).
Hypothesis decode_encode : forall e, decode (encode e) = Some e.
#[local] Abbreviation row := (event_row encode sha256_hex).

Lemma write_all_guard gd gd' clock p w evs :
  (forall ev, gd ev = gd' ev) -> write_all gd clock p w evs = write_all gd' clock p w evs.
Proof.
  intros G. revert w. induction evs as [|ev evs IH]; intros w; cbn [write_all]; [done|]. unfold write_one. rewrite G.
  destruct (gd' ev) as [[]|]; [|done]. cbn [result_bind]. destruct (reduce_and_log _ _ _ _); [|done]. apply IH.
Qed.

(** On a handle without a launch and without fences the fenced write is the
    plain one. *)
Lemma unfenced_write clock h evs db : h_worker_launch h = None ->
  apply_many_inner encode decode decode_baseline sha256_hex clock h no_fences evs db
  = apply_many encode decode_baseline sha256_hex clock (h_service_instance h) evs db.
Proof.
  intros W. unfold apply_many_inner, fences_conflict, effective_launch. rewrite W. cbn [no_fences is_some andb orb].
  destruct evs as [|ev rest]; [done|]. cbn [result_bind f_intent no_fences acquisition_fence is_some orb andb first_event_fits check
    f_abandon f_recovery f_resolution f_loss f_response f_launch].
  unfold write_fenced, apply_many. destruct (validate_replay_baseline_before_write _ _ _); [|done]. cbn [result_bind].
  unfold writer_context, pressure_service_instance. rewrite W. destruct (begin_write _ _); [|done].
  cbn [result_bind validate_fence_services validate_fences repeated_intent no_fences f_intent f_response f_abandon
    f_recovery f_resolution f_loss f_launch negb].
  unfold load_state_of. destruct (lift _) as [st|]; [|done]. cbn [result_bind]. destruct (capacity_invalid st); [done|].
  unfold writer_context. rewrite W. rewrite (write_all_guard _ plain_guard); [done|]. intros e.
  unfold loop_guard, plain_guard. rewrite W. cbn. by rewrite andb_true_r.
Qed.

Lemma loaded_inv seed db log st :
  execution encode decode decode_baseline sha256_hex seed db log -> load_state_of db = Ok st -> JInv st.
Proof.
  intros [[_ _ _ (ms & L & I & _)] _]%execution_tracks L'; [|done]. unfold load_state_of, lift in L'. rewrite L in L'. congruence.
Qed.

(** C35: the terminal fence stops the fleet. In a journal that any execution of
    its operations reached, with an episode of the service terminal and a valid
    capacity, the fence succeeds: it logs one fence for every slot that was not
    fenced, and leaves every slot with its generation and fenced, every job,
    no advertised capacity, and no launch lease, of any worker, current. *)
Theorem terminal_fence_stops_the_fleet seed db log clock si st :
  execution encode decode decode_baseline sha256_hex seed db log ->
  load_state_of db = Ok st -> storable st -> capacity_invalid st = false -> terminal_episode si db = true ->
  exists db' st',
    persist_pressure_terminal_slot_fences encode decode_baseline sha256_hex clock si db = Ok db' /\
    j_events db' = j_events db ++ map row (fence_events (slots st)) /\
    load_state_of db' = Ok st' /\
    slots st' = map (slot_set_phase Fenced) (slots st) /\ jobs st' = jobs st /\ advertised_capacity st' = 0 /\
    forall f, disk_pressure_launch_is_current db' f <> Ok true.
Proof.
  intros [[_ _ B (ms & L & I & _)] _]%execution_tracks L' Sb Ci T; [|done].
  assert (ms = st) as -> by (unfold load_state_of, lift in L'; rewrite L in L'; congruence).
  assert (G : Forall (fun s => s_generation s <= i64_max) (slots st)).
  { apply Forall_forall. intros s Es. by apply (sb_slots _ Sb). }
  pose proof (fence_slots_all encode sha256_hex clock si st (slots st) [] db (ji_slots _ I) G) as Fs. cbn [app map] in Fs.
  replace (set_slots (slots st) st) with st in Fs by (by destruct st).
  eapply (fence_slots_written _ _ _ _ _ _ _ _ _ (fresh_writer st)) in Fs as (w & W & S & _); [|done].
  assert (Iw : JInv (w_state w)) by (eapply write_all_inv; [|exact W]; exact I). rewrite S in Iw.
  destruct (persist_loads (j_legacy db) (j_tables db) _ Iw (fenced_storable _ Sb)) as (t & P & Lt).
  rewrite (fence_fleet_terminal _ _ _ _ _ _ _ T L' Ci (ji_slots _ I) G). unfold persist_state. rewrite B. cbn [result_bind].
  rewrite P. cbn [lift result_bind]. eexists _, _. split; [reflexivity|]. split; [done|].
  assert (Fe : forall s, s ∈ map fenced_slot (slots st) -> s_phase s = Fenced) by (by intros s (s0 & -> & _)%list_elem_of_fmap).
  set (db' := set_log _ _ _).
  assert (Ld : load_state_of db' = Ok (materialized (j_legacy db) (set_slots (map fenced_slot (slots st)) st))).
  { unfold load_state_of. cbn [db' set_log set_launches j_legacy j_tables]. by rewrite Lt. }
  split; [exact Ld|]. split; [done|]. split; [done|]. split.
  - unfold advertised_capacity. destruct (_ || _); [done|]. unfold count_u32. cbn [slots materialized set_slots].
    replace (List.filter _ _) with (@nil SlotRecord); [done|]. symmetry. clear.
    induction (slots st) as [|s l IH]; cbn [map List.filter]; [done|]. cbn. by rewrite andb_false_r.
  - intros f H. unfold disk_pressure_launch_is_current in H. destruct (lease_matches db' f); [|done]. cbn [negb] in H.
    ok_path H. rewrite Ld in E0. injection E0 as <-. injection H as H. apply andb_true_iff in H as [_ H].
    apply existsb_elem in H as (s & Es & U). apply Fe in Es. unfold slot_unfenced in U. rewrite Es in U.
    by rewrite andb_false_r in U.
Qed.
End Terminal.

(** ** A scenario *)

Module Scenario.
#[local] Abbreviation run := (run_op Coding.encode Coding.decode Coding.decode_baseline Coding.sha256_hex).
#[local] Abbreviation inner := (apply_many_inner Coding.encode Coding.decode Coding.decode_baseline Coding.sha256_hex).
#[local] Abbreviation execution := (execution Coding.encode Coding.decode Coding.decode_baseline Coding.sha256_hex).
#[local] Abbreviation step := (step Coding.encode Coding.decode Coding.decode_baseline Coding.sha256_hex).
#[local] Abbreviation pressure_step := (pressure_step Coding.encode Coding.decode Coding.decode_baseline Coding.sha256_hex).

Definition controller : Handle := {| h_service_instance := Some "svc"; h_worker_launch := None |}.
Definition launch : WorkerLaunchFence :=
  {| wl_service_instance := "svc"; wl_slot_id := "s1"; wl_generation := 1; wl_launch_nonce := "n1" |}.
Definition worker : Handle := {| h_service_instance := None; h_worker_launch := Some launch |}.

(** A root with 1 of at least 10 bytes free. *)
Definition low : DiskPressureFilesystemSample :=
  {| fs_filesystem_id := "/var"; fs_alias_ids := []; fs_available_bytes := Some 1; fs_min_free_bytes := 10;
     fs_volume_fingerprint := Some "disk-1" |}.
Definition uuid (fs : string) : string := ("episode-of-" ++ fs)%string.

(** The fleet is brought up, the worker launched, an acquisition begun, low
    space observed, the episode advanced beyond its second deadline, and the
    answer to the acquisition handed over. *)
Definition acts : list (Z * Handle * JournalOp) :=
  [ (100, controller, OpApplyMany (map snd to_ready));
    (101, controller, OpIssue "svc" "s1" 1 101 "n1");
    (102, worker, OpIntend "svc" "s1" 1 "n1" "msg" "msg" "https://run" 102);
    (110, worker, OpObserve "svc" "s1" 1 "n1" [low] 60 60 uuid 110);
    (300, controller, OpAdvance "svc" [low] 60 60 uuid 300);
    (301, worker, OpResolve "svc" "s1" 1 "n1" "msg" "msg" "job" "https://run" "https://run/2" "plan") ].

Definition act (db : JournalDb) (a : Z * Handle * JournalOp) : JournalDb :=
  match run a.1.1 a.1.2 a.2 db with Ok db' => db' | Err _ => db end.
(** The database after the first [n] acts. *)
Definition after (n : nat) : JournalDb := fold_left act (take n acts) (set_identity "svc" fresh_db).

Lemma act_runs n a : acts !! n = Some a ->
  (exists db', run a.1.1 a.1.2 a.2 (after n) = Ok db') -> run a.1.1 a.1.2 a.2 (after n) = Ok (after (S n)).
Proof.
  intros E [db' H]. rewrite H. f_equal. unfold after at 1. rewrite (take_S_r _ _ _ E), fold_left_app.
  change (db' = act (after n) a). unfold act. by rewrite H.
Qed.
Lemma runs n a : acts !! n = Some a -> run a.1.1 a.1.2 a.2 (after n) = Ok (after (S n)).
Proof.
  intros E. apply act_runs; [done|].
  assert (B : forallb (fun n => match acts !! n with
                                | Some a => match run a.1.1 a.1.2 a.2 (after n) with Ok _ => true | Err _ => false end
                                | None => false end) (seq 0 6) = true) by (by vm_compute).
  assert (L : (n < 6)%nat) by (by apply lookup_lt_Some in E).
  rewrite forallb_forall in B. specialize (B n). rewrite E in B.
  destruct (run a.1.1 a.1.2 a.2 (after n)) as [db'|]; [by exists db'|]. discriminate B. apply in_seq. cbn. lia.
Qed.

(** *** What the theorems say of it *)

#[local] Opaque after.

Lemma uuid_inj : Inj eq eq uuid.
Proof. intros a b E. unfold uuid in E. by injection E. Qed.

Definition advance : JournalOp := OpAdvance "svc" [low] 60 60 uuid 300.
Definition hand_over : JournalOp :=
  OpResolve "svc" "s1" 1 "n1" "msg" "msg" "job" "https://run" "https://run/2" "plan".
Lemma advance_runs : run 300 controller advance (after 4) = Ok (after 5).
Proof. exact (runs 4 (300, controller, advance) eq_refl). Qed.
Lemma hand_over_runs : run 301 worker hand_over (after 5) = Ok (after 6).
Proof. exact (runs 5 (301, worker, hand_over) eq_refl). Qed.

Lemma step_of n a : acts !! n = Some a -> op_fits a.2 -> step (after n) (after (S n)).
Proof. intros E F. exists a.1.1, a.1.2, a.2. split; [by apply runs|]. split; [done|]. destruct a.2; auto. Qed.

(** A permit asked for under pressure. *)
Lemma pressure_admits_nothing_witness :
  exists db', run 120 controller (OpApplyMany [Ev.PermitReserved "s2" 1]) (after 4) = Ok db' /\
    leases_fade (after 4) db'.
Proof.
  destruct (run 120 controller (OpApplyMany [Ev.PermitReserved "s2" 1]) (after 4)) as [db'|] eqn:H; [|by vm_compute in H].
  exists db'. split; [done|].
  refine (proj1 (pressure_admits_nothing Coding.encode Coding.decode Coding.decode_baseline Coding.sha256_hex
    120 controller _ (after 4) db' H _)). by vm_compute.
Defined.

Lemma steps_to n : (n <= 6)%nat -> rtc step (after 0) (after n).
Proof.
  intros L. induction n as [|n IH]; [done|]. eapply rtc_r; [apply IH; lia|].
  destruct (acts !! n) as [a|] eqn:E; [|apply lookup_ge_None in E; cbn in E; lia]. apply (step_of _ a E).
  apply list_elem_of_lookup_2 in E. unfold acts in E. repeat (apply elem_of_cons in E as [->|E]; [cbn|]); try by apply elem_of_nil in E.
  all: unfold fits, i64_max; try lia.
  repeat (apply Forall_cons; split; [cbn; lia|]). constructor.
Qed.

(** The fleet the terminal fence left. *)
Definition fenced_fleet : FleetState :=
  match load_state_of (after 5) with Ok st => st | Err _ => empty_fleet end.
Lemma fenced_loads : load_state_of (after 5) = Ok fenced_fleet.
Proof. by vm_compute. Qed.

(** The lease the terminal fence revoked, after the hand-over. *)
Lemma lease_is_never_regained_witness : disk_pressure_launch_is_current (after 6) launch <> Ok true.
Proof.
  apply (lease_is_never_regained Coding.encode Coding.decode Coding.decode_baseline Coding.sha256_hex
    (after 0) (after 5) (after 6) fenced_fleet launch).
  - by vm_compute.
  - split; constructor.
  - apply steps_to. lia.
  - exact fenced_loads.
  - by vm_compute.
  - apply rtc_once. exists 301, worker, hand_over. split; [exact hand_over_runs|]. split; [|done].
    cbn. unfold fits, i64_max. lia.
Defined.

(** *** The execution *)

Definition intent : Fences :=
  {| f_launch := Some launch;
     f_intent := Some {| ai_launch := launch; ai_provisional_job_id := "msg"; ai_message_id := "msg";
                         ai_run_service_url := "https://run" |};
     f_response := None; f_abandon := None; f_recovery := None; f_resolution := None; f_loss := None |}.
Definition intended : Event := Ev.JobAcquisitionIntended "s1" "msg" 1 "msg" "https://run" 102.

Lemma execution_0 : execution empty_fleet (after 0) [].
Proof.
  apply execution_open; [by vm_compute..| |done| |by vm_compute].
  - apply (JInv_tables FleetState_default); try reflexivity. apply JInv_default.
  - intros k (r & F & _). discriminate F.
Qed.

(** Numbers that are written out fit. *)
Ltac numbers_fit :=
  split; [intros ?|intros ?|intros ?|by vm_compute..]; cbn [slots jobs outbox];
    rewrite ?elem_of_nil, ?list_elem_of_singleton; [intros ->|try intros ->; try by intros []..];
    repeat split; by vm_compute.

(** What a batch leaves to check. *)
Definition batch_fits (clock : Z) (h : Handle) (f : Fences) (evs : list Event) (db : JournalDb) : Prop :=
  exists st, load_state_of db = Ok st /\
    timely_batch (loop_guard h f) clock false (fresh_writer st) evs /\
    forall w, write_all (loop_guard h f) clock false (fresh_writer st) evs = Ok w -> storable (w_state w).

Lemma batch_execution n log new clock h f evs launch :
  execution empty_fleet (after n) log -> Forall (fun ev => fits (event_generation ev)) evs ->
  (exists outs, inner clock h f evs (after n) = Ok (after (S n), outs)) ->
  j_events (after (S n)) = j_events (after n) ++ map (event_row Coding.encode Coding.sha256_hex) new ->
  completes_once (log ++ new) -> effective_launch h f = Ok launch ->
  active_pressure_episode (pressure_service_instance h launch) (after n) = false ->
  batch_fits clock h f evs (after n) -> execution empty_fleet (after (S n)) (log ++ new).
Proof.
  intros X G [outs R] N C La P (st & L & T & Sb). eapply execution_batch; try done; by rewrite P.
Qed.

Lemma bring_up_fits : batch_fits 100 controller no_fences (map snd to_ready) (after 0).
Proof.
  exists (match load_state_of (after 0) with Ok st => st | Err _ => empty_fleet end). split_and!; [by vm_compute| |].
  - vm_compute. by repeat (split; [exact Logic.I|]).
  - intros w W. vm_compute in W. injection W as <-. cbn [w_state]. numbers_fit.
Qed.
Lemma execution_1 : execution empty_fleet (after 1) (map snd to_ready).
Proof.
  apply (batch_execution 0 [] (map snd to_ready) 100 controller no_fences (map snd to_ready) None);
    [apply execution_0| | | | |done|by vm_compute|apply bring_up_fits].
  - repeat (apply Forall_cons; split; [cbn; unfold fits, i64_max; lia|]). constructor.
  - exists (match inner 100 controller no_fences (map snd to_ready) (after 0) with Ok x => x.2 | Err _ => [] end). by vm_compute.
  - by vm_compute.
  - apply intends_nothing. repeat constructor.
Qed.

Lemma pressure_execution n a log new :
  execution empty_fleet (after n) log -> acts !! n = Some a -> on_episodes a.2 || on_leases a.2 = true ->
  j_events (after (S n)) = j_events (after n) ++ map (event_row Coding.encode Coding.sha256_hex) new ->
  (forall st, load_state_of (after n) = Ok st -> storable st) -> execution empty_fleet (after (S n)) (log ++ new).
Proof. intros X E O N Sb. eapply execution_pressure; try done. by apply runs. Qed.

Lemma stored_1 st : load_state_of (after 1) = Ok st -> storable st.
Proof. intros L. vm_compute in L. injection L as <-. numbers_fit. Qed.
Lemma execution_2 : execution empty_fleet (after 2) (map snd to_ready ++ []).
Proof. eapply (pressure_execution 1); [apply execution_1|done..|by vm_compute|apply stored_1]. Qed.

Lemma intent_fits : batch_fits 102 worker intent [intended] (after 2).
Proof.
  exists (match load_state_of (after 2) with Ok st => st | Err _ => empty_fleet end). split_and!; [by vm_compute|vm_compute; by split|].
  intros w W. vm_compute in W. injection W as <-. cbn [w_state]. numbers_fit.
Qed.
Lemma execution_3 : execution empty_fleet (after 3) ((map snd to_ready ++ []) ++ [intended]).
Proof.
  apply (batch_execution 2 _ [intended] 102 worker intent [intended] (Some launch));
    [apply execution_2| | | | |done|by vm_compute|apply intent_fits].
  - apply Forall_singleton. cbn. unfold fits, i64_max. lia.
  - exists (match inner 102 worker intent [intended] (after 2) with Ok x => x.2 | Err _ => [] end). by vm_compute.
  - by vm_compute.
  - apply intends_nothing. repeat constructor.
Qed.

Lemma stored_3 st : load_state_of (after 3) = Ok st -> storable st.
Proof. intros L. vm_compute in L. injection L as <-. numbers_fit. Qed.
Lemma execution_4 : execution empty_fleet (after 4) (((map snd to_ready ++ []) ++ [intended]) ++ []).
Proof. eapply (pressure_execution 3); [apply execution_3|done..|by vm_compute|apply stored_3]. Qed.

Lemma stored_4 st : load_state_of (after 4) = Ok st -> storable st.
Proof. intros L. vm_compute in L. injection L as <-. numbers_fit. Qed.
Definition history_5 : list Event :=
  (((map snd to_ready ++ []) ++ [intended]) ++ []) ++ [Ev.DiskPressureTerminalFence "s1" 1].
Lemma execution_5 : execution empty_fleet (after 5) history_5.
Proof. eapply (pressure_execution 4); [apply execution_4|done..|by vm_compute|apply stored_4]. Qed.

(** The journal after the fence, read at a later time. *)
Lemma checked_read_refines_execution_witness :
  exists st ms, checked_read 1000 (after 5) = Ok st /\ load_state_of (after 5) = Ok ms /\
    canonical_projection st = canonical_projection ms.
Proof.
  destruct (checked_read_refines_execution Coding.encode Coding.decode Coding.decode_baseline Coding.sha256_hex
    Coding.decode_encode empty_fleet (after 5) history_5 1000 execution_5) as (st & ms & R & L & C & _).
  exists st, ms. split; [exact R|]. split; [exact L|exact C].
Defined.

(** The hand-over is what the revoked worker may still do. *)
Lemma revoked : disk_pressure_launch_is_current (after 5) launch <> Ok true.
Proof. by vm_compute. Qed.
Lemma handed_over_changes : after 6 <> after 5.
Proof. intros E. apply (f_equal (fun db => length (j_events db))) in E. by vm_compute in E. Qed.

(** The episode of the first measurement, at its terminal fence. *)
Lemma draws_4 n a : (n < 4)%nat -> acts !! n = Some a -> draws_fresh a.2 (after n).
Proof.
  intros L E. destruct n as [|[|[|[|n]]]]; [..|lia]; injection E as <-; try exact Logic.I.
  split; [apply uuid_inj|]. intros fs k r Er. exfalso.
  assert (Z : j_episodes (after 3) = ∅) by (by vm_compute). rewrite Z, lookup_empty in Er. discriminate Er.
Qed.
Lemma pressure_steps n : (n <= 4)%nat -> rtc pressure_step (after 0) (after n).
Proof.
  intros L. induction n as [|n IH]; [apply rtc_refl|]. eapply rtc_r; [apply IH; lia|].
  destruct (acts !! n) as [a|] eqn:E; [|apply lookup_ge_None in E; cbn in E; lia].
  exists a.1.1, a.1.2, a.2. split; [by apply runs|apply draws_4; [lia|exact E]].
Qed.
Lemma occupied st : load_state_of (after 5) = Ok st -> pressure_state_slots_are_safe st = false.
Proof. intros L. vm_compute in L. injection L as <-. by vm_compute. Qed.
Definition first_row : EpisodeRow :=
  {| e_volume_fingerprint := Some "disk-1"; e_episode_id := "episode-of-/var"; e_started_unix := 110;
     e_deadline_unix := 170; e_drain_deadline_unix := 230; e_last_observed_unix := 110; e_reclaim_attempted := 1;
     e_revision := 1; e_draining := 0; e_terminal := 0 |}.
Lemma recorded_first : j_episodes (after 4) !! ("svc", "/var") = Some first_row.
Proof. by vm_compute. Qed.
Lemma none_yet : j_episodes (after 0) = ∅.
Proof. by vm_compute. Qed.

(** *** A terminal episode before its fence *)

(** A clock that went back makes the episode terminal without fencing. *)
Definition first_episode : DiskPressureEpisode :=
  {| ep_episode_id := "episode-of-/var"; ep_started_unix := 110; ep_deadline_unix := 170;
     ep_drain_deadline_unix := 230; ep_draining := false; ep_last_observed_unix := 110;
     ep_reclaim_attempted := true; ep_revision := 1; ep_terminal := false; ep_volume_fingerprint := Some "disk-1" |}.
Definition went_back : JournalOp := OpClear "svc" "/var" [] first_episode 20 10 "disk-1" 50.
Definition rolled_back : JournalDb := act (after 4) (50, controller, went_back).
Lemma went_back_runs : run 50 controller went_back (after 4) = Ok rolled_back.
Proof. by vm_compute. Qed.
Lemma execution_rolled_back : execution empty_fleet rolled_back ((((map snd to_ready ++ []) ++ [intended]) ++ []) ++ []).
Proof. eapply execution_pressure; [apply execution_4|apply went_back_runs|done|by vm_compute|apply stored_4]. Qed.
Definition unfenced_fleet : FleetState :=
  match load_state_of rolled_back with Ok st => st | Err _ => empty_fleet end.
Lemma unfenced_loads : load_state_of rolled_back = Ok unfenced_fleet.
Proof. by vm_compute. Qed.
Lemma stored_unfenced : storable unfenced_fleet.
Proof.
  assert (L : load_state_of (after 4) = Ok unfenced_fleet) by (by vm_compute). by apply stored_4.
Qed.
Lemma terminal_fence_stops_the_fleet_witness :
  exists db' st',
    persist_pressure_terminal_slot_fences Coding.encode Coding.decode_baseline Coding.sha256_hex 60 "svc" rolled_back = Ok db' /\
    load_state_of db' = Ok st' /\ slots st' = map (slot_set_phase Fenced) (slots unfenced_fleet) /\
    fence_events (slots unfenced_fleet) = [Ev.DiskPressureTerminalFence "s1" 1] /\
    disk_pressure_launch_is_current rolled_back launch = Ok true /\
    disk_pressure_launch_is_current db' launch <> Ok true.
Proof.
  destruct (terminal_fence_stops_the_fleet Coding.encode Coding.decode Coding.decode_baseline Coding.sha256_hex
    Coding.decode_encode empty_fleet rolled_back _ 60 "svc" unfenced_fleet execution_rolled_back unfenced_loads
    stored_unfenced ltac:(vm_compute; reflexivity) ltac:(vm_compute; reflexivity)) as (db' & st' & R & _ & L & S & _ & _ & N).
  exists db', st'. split; [exact R|]. split; [exact L|]. split; [exact S|]. split; [vm_compute; reflexivity|].
  split; [vm_compute; reflexivity|exact (N launch)].
Defined.
End Scenario.
